(* ===== verification/_CoqProject ===== *)
-Q . S2P
Prelude.v
Bytes.v
BytesStream.v
Decimal.v
Json.v
RpcData.v
Timer.v
TimerHelper.v
Text.v
Http.v
Redis.v
RegFrame.v
RegistryServer.v
RegistryWorld.v
ServiceTable.v
RegistryClient.v
RegistryPulls.v
HttpClient.v
RpcCalls.v
RpcClient.v
RpcRuns.v
ProtoSession.v
SendQueue.v
RpcServer.v
Address.v
Connects.v
Coro.v
ThreadPool.v
TaskScope.v
RouteConn.v
RoutePool.v
Route.v
Logd.v
LogdRuns.v
Resp.v
RedisServer.v
RedisRuns.v
RedisProxy.v
