(* ===== verification/Prelude.v ===== *)
(** * A verification of the openidea base libraries and registry

    openidea is a C++20 server framework (src/cbaselib) with services built on it
    (src/modules).  The development models the parts that carry its own logic:
    the data formats its processes exchange, the clocks, the HTTP client, sessions, remote
    calls, coroutines, the registry in which services find each other, the log server and
    the Redis proxy, from the bytes on the wire to the runs of the whole protocol.

    ** Files

    Foundations
    - Prelude.v: this file, see below.
    - Bytes.v: OI::Base::Bytes (base/inc/oi_bytes.h, src/oi_bytes.cpp), the block of
      memory under every message.  State: a [Bytes] record with the block, head and
      size; one definition per method.
    - BytesStream.v: BytesStream (base/inc/oi_bytes_stream.h, src/oi_bytes_stream.cpp)
      over Bytes: the plain and the tagged format, an overload being a value of the
      records [plain] and [pb], what it promises a class.
    - Decimal.v, Text.v: std::to_string, std::from_chars and the members of
      std::string the parsers use.
    - Json.v: FromJsonValue and ToJsonValue (proto/inc/oi_json.h).
    - RpcData.v: the seven structures of base/inc/oi_rpcdata_reg*.h with their
      serialize, deserialize, FromJson and ToJson, over BytesStream.v and Json.v.

    Clocks
    - Timer.v: the hierarchical wheel of cbaselib/timer, a [manager] with its levels.
    - TimerHelper.v: calendar periods (timer/src/oi_timer_helper.cpp), durations.

    HTTP client (http/src/oi_http.cpp)
    - Http.v: request text and the response parser HttpSession.
    - HttpClient.v: Client::Impl and Call: queue, connection, timeouts, shutdown and
      the resumption of callers, around the parser of Http.v.

    Registry
    - RegFrame.v: the framing of the registry's connections (base/src/oi_registry.cpp).
    - Redis.v: what is assumed of Redis, a class with laws and a store that has them.
    - RegistryServer.v: RegistryServer (modules/registry/src/registry_server.cpp): its
      handlers, its four coroutines and the scripts it runs in Redis.
    - RegistryWorld.v: the server, Redis and all that is under way between them, as
      events in any order.
    - ServiceTable.v: the table of instances a process follows (base/src/oi_registry.cpp).
    - RegistryClient.v: RegistryClient of the same file: a process's registration, its
      heartbeats and its pulls.
    - RegistryPulls.v: runs of that client.

    Coroutines (base/inc/oi_coro.h, src/oi_coro.cpp, oi_thread.h, src/oi_thread.cpp)
    - Coro.v: tasks, their awaiters, WhenAllAwaiter, final suspension, reference counts,
      errors and the loop that resumes them, on any number of threads.
    - ThreadPool.v: the workers behind the run queue, notifications, the way to stop.
    - TaskScope.v: tasks started together, stopped together and joined.

    Remote calls
    - RpcCalls.v: the tables of pending calls (proto/src/oi_rpc_call.cpp): 64 shards,
      each with its slots, buckets of deadlines and lists by session.
    - RpcClient.v: ProtoClientManager (proto/src/oi_rpc_session_manager.cpp), what holds
      a call back until there is a connection, and the functions that finish calls
      (FinishRpcSlot, FailRpcCalls, SweepRpcCalls, ~RpcCallAwaiter), cut into tasks at
      their locks, for any number of threads.
    - RpcRuns.v: runs of those threads.
    - RpcServer.v: requests on the receiving side: the admission limits, DeliverRpc and
      the coroutines around the handlers (proto/inc/oi_rpc_coro.h).

    Calls by service name (proto/src/oi_rpc_route.cpp, proto/inc/oi_rpc_coro.h)
    - RouteConn.v: RouteConnection with its session and its connector: a connection made
      on demand, which holds calls back until it is there.
    - RoutePool.v: the pool of these connections: leases, ClientFor, the sweep that
      retires what is idle, the stop.
    - Route.v: targets, the choice of instances from the registry's list, RouteAwaiter,
      SendRouted and CallRouted.  The pool is the class [Clients], with RoutePool.v as
      its instance.

    Log server (modules/logd)
    - Logd.v: LogManager, LogServerSession and LogFileInstance: frames become lines,
      within a budget of bytes not yet on disk; the queue of the sessions that wait for
      room, the writers of the levels, Stop; [inv] and its preservation.
    - LogdRuns.v: what becomes of frames and lines in any run, who waits, and stopping.

    Redis proxy (modules/redisserver)
    - Resp.v: cutting out what clients send (ReadLine, ScanCommand), ChangesConnection,
      the filter of commands, and AppendReply.
    - RedisServer.v: RedisServer and RedisServerSession: links to Redis with their quotas,
      clients paused and resumed, answers, lost connections.  hiredis acts by events.
    - RedisRuns.v: the invariant of its runs, RedisProxy.v: what it promises.

    Sessions
    - ProtoSession.v: receiving: TCP_Channel::DataIn (net/src/oi_tcp_channel.cpp), the
      session's input buffer and ProtoSession (proto/src/oi_rpc_session.cpp) with the
      timer of incomplete frames; EncodePbFrame.
    - SendQueue.v: sending: the output buffers of Session and TCP_Channel
      (net/src/oi_session.cpp), and the write event, between senders and the poll thread.
    - Address.v: NetAddr (net/src/oi_socket.cpp), over the system's inet_pton and inet_ntop.
    - Connects.v: SessionManager as a client (net/src/oi_session_manager.cpp): attempts to
      connect, those who wait for them, the table of sessions, services that move.  The
      poll thread is a stack of tasks, callbacks of subclasses included.

    ** What the theorems show

    - Formats.  What is written is read back, at any nesting and over any old content
      ([RegPullRes_roundtrip], [map_roundtrip], [plain_vector_roundtrip], the JSON and
      the query round trips); arbitrary bytes are never read out of bounds and end in a
      value or ParserException ([field_loop_on_any_bytes], [RegPullRes_deserialize_any]);
      unknown fields are skipped ([field_read_among_others]).
    - The buffer refines a list of bytes: every program of its operations, self-append
      included, gives what the same program on lists gives ([buffer_refines_list],
      [Append_any_source]).
    - Timers: one added fires exactly once, in the first tick not before its time,
      whatever level it was put in ([timer_fires_once_on_time]); CivilDays and the
      crossings agree with the calendar.
    - HTTP: however a response is cut into pieces the same result is reported once, but
      for header blocks and chunk-size lines beyond their limit, which in one piece may
      pass ([fragmentation_invisible], [long_line_cut]), for each kind of body the right
      one; every request ends once and its caller is resumed once ([calls_resumed_once])
      and the client does not stall, by its connection or, once the process is stopping,
      by the timers ([client_never_stalls]).
    - Registry: frames arrive whole and in order; a live address is never replaced and
      nothing stays behind in Redis without a connection that holds it, a registration
      taken is listed by pulls ([live_address_kept], [no_orphan],
      [registration_published]); every pull is called back exactly once, in time, with
      its own answer ([pulls_finish_once], [answers_paired], [overdue_pulls_end]).
    - Remote calls: every call is in one place and ends once ([calls_finish_once]), by an
      answer only if it is its own ([replies_to_their_calls]), in time ([sweep_exact]);
      none is forgotten ([no_call_stranded]), none touches a caller that has gone
      ([no_callback_after_destruction]); the three indices of the tables agree and no
      iterator dangles ([tables_agree]); what is held back is bounded
      ([held_calls_bounded]).  Every request is answered once, on its own session
      ([requests_answered], [calls_find_their_way]), within exact limits
      ([admission_exact]).
    - Sessions: frames come out as they were sent, once and in order, however the bytes
      are cut, and without faults, timers and closes from elsewhere only a frame beyond
      the limits ends a session ([stream_delivered]), an incomplete one does not wait beyond its time
      ([partial_frame_deadline]); what was accepted for sending goes out in order and no
      wake-up of the poll thread is lost ([sent_in_order], [queue_drains]).  Whoever waits
      for a connection is woken once ([connects_resumed]), and there is one session to one
      address ([one_session], [endpoints_compare]).
    - Coroutines: frames outlive their users and are freed ([no_use_after_free],
      [frames_freed]); no wake-up is lost, whatever the interleaving
      ([waiters_not_forgotten], [no_worker_sleeps_on_work], [joins_not_forgotten]), none
      comes early ([resumed_when_ready], [join_waits_for_all]); errors are seen once
      ([errors_not_lost]); a stop completes ([stop_completes]).
    - Calls by service name: calls held back are not forgotten and end once
      ([held_calls_attempted], [calls_end_once]), a connection is there as long as it is
      leased ([leased_stays]) and goes when it is idle or the pool stops
      ([evicted_when_idle], [pool_is_emptied]); a call reaches an instance of its name
      ([route_goes_to_instances]), in turn ([round_robin]), a batch answers every slot
      ([call_many_slots]).
    - Log server: what is pending is counted exactly and stays within the limit
      ([budget_exact]); every frame is taken once and in order ([each_frame_once]), every
      line reaches its file once and in order ([lines_in_order]); who waits for room is
      served ([first_waiter_served]); Stop ends, and drains everything ([stop_drains]).
    - Redis proxy: what is on the way is counted exactly and within the quotas,
      in runs with fewer than 2^31 connections ([quotas_exact]); each client gets its own answers, in order ([answers_in_order]), to
      the commands it wrote, however they were cut ([scan_encoded],
      [client_commands_taken]); a client not read from is in a queue ([paused_is_queued])
      and is served ([waiting_is_served]); a lost connection is told ([lost_is_answered]).
      No command that changes a connection passes ([changes_arguments]).
    - Where the code falls short of its documents a theorem shows the case:
      [map_entry_without_value_unreadable], [reconnect_withdrawn],
      [blank_in_address_ambiguous].

    ** Conventions

    Fallible code returns a [result], whose faults are the C++ exceptions, a failed
    assert, undefined behaviour and the model's own [OutOfFuel].  Integers are in Z with
    the wrap-around of their width written out.  Locks that guard a whole method make
    the method one step; code that waits (coroutines, callbacks, blocking calls) is
    split at the wait, and the order of the parts is that of a list of events, over
    which the theorems quantify.

    ** Bounds and fuel

    - Loops over bytes (the field loop, [read_frames], the loops of the HTTP parser)
      have one more than the length of the input as fuel: each turn but the last takes
      at least one byte; [grow_capacity] has 65, for it doubles up to 2^64; [exec] has
      depth 8, the longest chain of nested calls (Pump, CloseSession, OnSessionClosed,
      FinishEof, OnHttpFinished, Pump) being shorter; [ScanArguments] and [ParseLoop] take
      at least a byte each turn.  That [OutOfFuel] is not
      the result is part of the theorems.
    - The wheel is modelled for every configuration Init accepts, so below 2^32 ticks in
      all.  Counters that only grow (session and call numbers) do not wrap;
      the two of OnAddSession in the Redis proxy are kept at int32_t, beyond which the
      model goes wrong.

    ** What is not modelled

    Sockets, the poll loop, files, the formatting of log lines and process start-up are
    input and output.  The vendored libraries (3rd) are parameters.  The Redis client's
    decoding of replies, the way hiredis is driven by the poll loop and the channel of UDP
    peers are left out; ipcserver, ipcclient, webserver and webclient are example services.  Float and
    double fields are left out: the code only copies their bytes.

    ** This file

    Shared vocabulary:
    - [result]: the outcome of fallible C++ code, with its monad notation;
    - machine integers: [u32], [s32], [u64], ... write the wrap-around out;
    - [byte] lists and the little-endian layout of fixed-width integers;
    - [sub]/[splice]: reading and overwriting an interval of a list, the two
      facts every buffer manipulation comes down to;
    - [cnt]: how often an element occurs in a list, for accounts of what is where, and
      [msum], the same over the entries of a map;
    - the tactics ([destr_bool], [mono], ...) and hint databases the other
      files use. *)

From Stdlib Require Export ZArith Lia.
From Stdlib Require Import Strings.Byte.
From stdpp Require Export base list option numbers strings gmap.
From stdpp Require Import tactics.

#[global] Open Scope Z_scope.

(** ** Outcomes of fallible code *)

(** What an operation of the program ends in when it does not return normally. *)
Inductive fault : Type :=
| BadAlloc        (* std::bad_alloc *)
| OutOfRange      (* std::out_of_range *)
| ParserException (* OI::Base::ParserException *)
| AssertFail      (* an assert() that fires, in builds without NDEBUG *)
| Undefined       (* an access outside the object: undefined behaviour *)
| OutOfFuel.      (* the model's own bound on a loop; shown never to occur *)

Inductive result (A : Type) : Type :=
| Ok (a : A)
| Err (e : fault).
Arguments Ok {A} a.
Arguments Err {A} e.

#[export] Instance fault_eq_dec : EqDecision fault.
Proof. solve_decision. Defined.

Definition rbind {A B} (m : result A) (k : A -> result B) : result B :=
  match m with
  | Ok a => k a
  | Err e => Err e
  end.

Declare Scope result_scope.
Delimit Scope result_scope with result.
Notation "'let!' x ':=' m 'in' k" := (rbind m (fun x => k))
  (at level 10, x pattern, m at level 100, k at level 200) : result_scope.
#[global] Open Scope result_scope.

Definition is_ok {A} (m : result A) : bool :=
  match m with Ok _ => true | Err _ => false end.

Lemma rbind_ok {A B} (m : result A) (k : A -> result B) b :
  rbind m k = Ok b -> exists a, m = Ok a /\ k a = Ok b.
Proof. destruct m; simpl; [eauto | discriminate]. Qed.


(** [post m Q E]: [m] returns a value satisfying [Q] or a fault satisfying [E]. *)
Definition post {A} (m : result A) (Q : A -> Prop) (E : fault -> Prop) : Prop :=
  match m with
  | Ok a => Q a
  | Err e => E e
  end.

Lemma post_bind {A B} (m : result A) (k : A -> result B) (P : A -> Prop) Q E :
  post m P E -> (forall a, P a -> post (k a) Q E) -> post (rbind m k) Q E.
Proof. destruct m; simpl; auto. Qed.

Lemma post_mono {A} (m : result A) (P Q : A -> Prop) (E F : fault -> Prop) :
  post m P E -> (forall a, P a -> Q a) -> (forall e, E e -> F e) -> post m Q F.
Proof. destruct m; simpl; auto. Qed.

Lemma post_ok {A} (m : result A) Q E a : post m Q E -> m = Ok a -> Q a.
Proof. intros H ->. exact H. Qed.

(** A left fold whose step may fail. *)
Fixpoint foldR {A B} (f : A -> B -> result A) (a : A) (l : list B) : result A :=
  match l with
  | [] => Ok a
  | b :: l => let! a := f a b in foldR f a l
  end.

Lemma foldR_ext {A E} (f g : A -> E -> result A) a es :
  (forall a e, f a e = g a e) -> foldR f a es = foldR g a es.
Proof.
  intros Hfg; revert a; induction es as [|e es IH]; intros a; [done|].
  cbn [foldR]. rewrite Hfg. destruct (g a e); cbn [rbind]; [apply IH|done].
Qed.

Lemma foldR_app {A B} (f : A -> B -> result A) a l k :
  foldR f a (l ++ k) = (let! a := foldR f a l in foldR f a k).
Proof. revert a; induction l as [|b l IH]; intros a; simpl; [done|]. destruct (f a b); simpl; auto. Qed.

Lemma foldR_post {A B} (f : A -> B -> result A) (E : fault -> Prop) a l :
  (forall a b, post (f a b) (fun _ => True) E) -> post (foldR f a l) (fun _ => True) E.
Proof.
  intros H; revert a; induction l as [|b l IH]; intros a; simpl; [done|].
  eapply post_bind; [apply H|]. auto.
Qed.

(** [mono H] takes a successful sequence of steps apart. *)
Ltac mono H :=
  repeat match type of H with
  | rbind _ _ = Ok _ =>
      let a := fresh "a" in let E := fresh "E" in
      apply rbind_ok in H as (a & E & H)
  end.

(** Case analysis on the boolean conditions of the code. *)
Ltac destr_bool :=
  match goal with
  | |- context [ (?x <=? ?y)%Z ] => destruct (Z.leb_spec x y)
  | |- context [ (?x <? ?y)%Z ] => destruct (Z.ltb_spec x y)
  | |- context [ (?x =? ?y)%Z ] => destruct (Z.eqb_spec x y)
  | H : context [ (?x <=? ?y)%Z ] |- _ => destruct (Z.leb_spec x y)
  | H : context [ (?x <? ?y)%Z ] |- _ => destruct (Z.ltb_spec x y)
  | H : context [ (?x =? ?y)%Z ] |- _ => destruct (Z.eqb_spec x y)
  end; simpl in *.

(** ** Machine integers *)

Definition wrap_u (w z : Z) : Z := z mod 2 ^ w.
Definition wrap_s (w z : Z) : Z := (z + 2 ^ (w - 1)) mod 2 ^ w - 2 ^ (w - 1).

Definition u8 (z : Z) : Z := z mod 2 ^ 8.
Definition u32 (z : Z) : Z := z mod 2 ^ 32.
Definition s32 (z : Z) : Z := (z + 2 ^ 31) mod 2 ^ 32 - 2 ^ 31.
Definition u64 (z : Z) : Z := z mod 2 ^ 64.
Definition s64 (z : Z) : Z := (z + 2 ^ 63) mod 2 ^ 64 - 2 ^ 63.

Definition UINT32_MAX : Z := 2 ^ 32 - 1.
Definition INT32_MAX : Z := 2 ^ 31 - 1.
Definition UINT64_MAX : Z := 2 ^ 64 - 1.
Definition SIZE_MAX : Z := 2 ^ 64 - 1.
Definition PTRDIFF_MAX : Z := 2 ^ 63 - 1.

Lemma wrap_u_small w z : 0 <= z < 2 ^ w -> wrap_u w z = z.
Proof. intros; unfold wrap_u; apply Z.mod_small; lia. Qed.

Lemma wrap_u_range w z : 0 <= w -> 0 <= wrap_u w z < 2 ^ w.
Proof. intros; unfold wrap_u; apply Z.mod_pos_bound; lia. Qed.

Lemma pow2_split w : 0 < w -> 2 ^ w = 2 * 2 ^ (w - 1).
Proof. intros; rewrite <- Z.pow_succ_r by lia; f_equal; lia. Qed.

Lemma wrap_s_small w z : 0 < w -> - 2 ^ (w - 1) <= z < 2 ^ (w - 1) -> wrap_s w z = z.
Proof.
  intros Hw Hz; unfold wrap_s.
  pose proof (pow2_split w Hw). rewrite Z.mod_small; lia.
Qed.

Lemma wrap_s_range w z : 0 < w -> - 2 ^ (w - 1) <= wrap_s w z < 2 ^ (w - 1).
Proof.
  intros Hw; unfold wrap_s. pose proof (pow2_split w Hw).
  assert (0 < 2 ^ (w - 1)) by (apply Z.pow_pos_nonneg; lia).
  pose proof (Z.mod_pos_bound (z + 2 ^ (w - 1)) (2 ^ w)); lia.
Qed.

(** Reading a value back at the signed type from its unsigned image. *)
Lemma wrap_s_wrap_u w z : 0 < w -> wrap_s w (wrap_u w z) = wrap_s w z.
Proof.
  intros Hw; unfold wrap_s, wrap_u. f_equal.
  rewrite Z.add_mod_idemp_l; [done|]. pose proof (Z.pow_pos_nonneg 2 w); lia.
Qed.

Lemma u32_small z : 0 <= z < 2 ^ 32 -> u32 z = z.
Proof. intros; unfold u32; apply Z.mod_small; lia. Qed.
Lemma u64_small z : 0 <= z < 2 ^ 64 -> u64 z = z.
Proof. intros; unfold u64; apply Z.mod_small; lia. Qed.
Lemma s32_small z : - 2 ^ 31 <= z < 2 ^ 31 -> s32 z = z.
Proof. intros; unfold s32; rewrite Z.mod_small; lia. Qed.
Lemma s64_small z : - 2 ^ 63 <= z < 2 ^ 63 -> s64 z = z.
Proof. intros; unfold s64; rewrite Z.mod_small; lia. Qed.
Lemma u32_range z : 0 <= u32 z < 2 ^ 32.
Proof. unfold u32; apply Z.mod_pos_bound; lia. Qed.
Lemma u64_range z : 0 <= u64 z < 2 ^ 64.
Proof. unfold u64; apply Z.mod_pos_bound; lia. Qed.

(** A 32-bit value is negative as [int32_t] exactly when its top bit is set. *)
Lemma s32_neg_iff z : 0 <= z < 2 ^ 32 -> (s32 z < 0 <-> 2 ^ 31 <= z).
Proof.
  intros Hz; unfold s32. destruct (Z_lt_ge_dec z (2 ^ 31)) as [L|G].
  - rewrite Z.mod_small; lia.
  - replace (z + 2 ^ 31) with ((z - 2 ^ 31) + 1 * 2 ^ 32) by lia.
    rewrite Z.mod_add, Z.mod_small; lia.
Qed.

Create Rewrite HintDb machine.
Create HintDb bounds.
#[export] Hint Rewrite u32_small u64_small s32_small s64_small using lia : machine.
#[export] Hint Resolve u32_range u64_range : bounds.

(** ** Bytes and their little-endian layout *)

Abbreviation byte := Byte.byte.

Definition byteZ (b : byte) : Z := Z.of_N (Byte.to_N b).
Definition byte_of_Z (z : Z) : byte :=
  match Byte.of_N (Z.to_N (z mod 256)) with
  | Some b => b
  | None => Byte.x00
  end.

#[export] Instance byte_eq_dec : EqDecision byte := Byte.byte_eq_dec.

Lemma byteZ_range b : 0 <= byteZ b < 256.
Proof. unfold byteZ. pose proof (Byte.to_N_bounded b). lia. Qed.

Lemma byteZ_of_Z z : byteZ (byte_of_Z z) = z mod 256.
Proof.
  unfold byteZ, byte_of_Z. pose proof (Z.mod_pos_bound z 256 ltac:(lia)).
  destruct (Byte.of_N _) as [b|] eqn:E.
  - apply Byte.to_of_N in E. lia.
  - apply Byte.of_N_None_iff in E. lia.
Qed.

Lemma byte_of_byteZ b : byte_of_Z (byteZ b) = b.
Proof.
  unfold byte_of_Z. rewrite Z.mod_small by apply byteZ_range.
  unfold byteZ. by rewrite N2Z.id, Byte.of_to_N.
Qed.

Lemma byteZ_inj a b : byteZ a = byteZ b -> a = b.
Proof. intros H. by rewrite <- (byte_of_byteZ a), H, byte_of_byteZ. Qed.

#[export] Program Instance byte_countable : Countable byte :=
  inj_countable Byte.to_N Byte.of_N _.
Next Obligation. intros b. apply Byte.of_to_N. Qed.

(** The [n] bytes memcpy copies out of an [n]-byte integer on the little-endian
    machines the program supports, and the value read back from them. *)
Fixpoint le_encode (n : nat) (z : Z) : list byte :=
  match n with
  | O => []
  | S n => byte_of_Z z :: le_encode n (z / 256)
  end.

Fixpoint le_decode (l : list byte) : Z :=
  match l with
  | [] => 0
  | b :: t => byteZ b + 256 * le_decode t
  end.

Lemma length_le_encode n z : length (le_encode n z) = n.
Proof. revert z; induction n; intros; simpl; auto. Qed.

Lemma le_decode_range l : 0 <= le_decode l < 2 ^ (8 * Z.of_nat (length l)).
Proof.
  induction l as [|b t IH]; [simpl; lia|].
  cbn [le_decode length]. pose proof (byteZ_range b).
  replace (8 * Z.of_nat (S (length t))) with (8 + 8 * Z.of_nat (length t)) by lia.
  rewrite Z.pow_add_r by lia. change (2 ^ 8) with 256. nia.
Qed.

Lemma le_decode_encode n z : le_decode (le_encode n z) = z mod 2 ^ (8 * Z.of_nat n).
Proof.
  revert z; induction n as [|n IH]; intros z.
  - simpl. by rewrite Z.mod_1_r.
  - cbn [le_encode le_decode]. rewrite IH, byteZ_of_Z.
    replace (8 * Z.of_nat (S n)) with (8 + 8 * Z.of_nat n) by lia.
    rewrite Z.pow_add_r by lia. change (2 ^ 8) with 256.
    rewrite Z.rem_mul_r; [done | lia | apply Z.pow_pos_nonneg; lia].
Qed.

Lemma le_encode_decode l : le_encode (length l) (le_decode l) = l.
Proof.
  induction l as [|b t IH]; [done|]. cbn [length le_encode le_decode].
  pose proof (byteZ_range b). f_equal.
  - apply byteZ_inj. rewrite byteZ_of_Z.
    rewrite (Z.mul_comm 256), Z.mod_add by lia. apply Z.mod_small; lia.
  - rewrite (Z.mul_comm 256), Z.div_add, Z.div_small by lia. simpl. apply IH.
Qed.

#[export] Hint Rewrite length_le_encode : machine.

(** Text of the program as bytes. *)
Definition txt (s : string) : list byte := String.list_byte_of_string s.

(** ** Intervals of lists *)

Definition lenZ {A} (l : list A) : Z := Z.of_nat (length l).

(** Elements [off, off+n) of [l]. *)
Definition sub {A} (off n : Z) (l : list A) : list A :=
  take (Z.to_nat n) (drop (Z.to_nat off) l).

(** [l] with the elements from [off] on overwritten by [src]. *)
Definition splice {A} (off : Z) (src l : list A) : list A :=
  take (Z.to_nat off) l ++ src ++ drop (Z.to_nat off + length src) l.

Lemma lenZ_nonneg {A} (l : list A) : 0 <= lenZ l.
Proof. unfold lenZ; lia. Qed.
Lemma lenZ_app {A} (l k : list A) : lenZ (l ++ k) = lenZ l + lenZ k.
Proof. unfold lenZ; rewrite length_app; lia. Qed.
Lemma lenZ_cons {A} (x : A) l : lenZ (x :: l) = 1 + lenZ l.
Proof. unfold lenZ; simpl length; lia. Qed.
Lemma lenZ_nil {A} : lenZ (@nil A) = 0.
Proof. done. Qed.
Lemma lenZ_map {A B} (f : A -> B) l : lenZ (map f l) = lenZ l.
Proof. unfold lenZ. by rewrite length_map. Qed.
Lemma lenZ_0 {A} (l : list A) : lenZ l = 0 -> l = [].
Proof. destruct l; unfold lenZ; simpl; [done|lia]. Qed.

#[export] Hint Rewrite @lenZ_app @lenZ_cons @lenZ_nil @lenZ_map : machine.

(** [len_tac] reduces length goals to arithmetic. *)
Ltac len_tac :=
  unfold lenZ, sub, splice in *;
  repeat first
    [ progress rewrite ?length_app, ?length_take, ?length_drop, ?length_map, ?length_replicate,
        ?length_le_encode in *
    | progress simpl length in * ];
  lia.

Lemma lenZ_sub {A} off n (l : list A) :
  0 <= off -> 0 <= n -> off + n <= lenZ l -> lenZ (sub off n l) = n.
Proof. intros. len_tac. Qed.

Lemma lenZ_splice {A} off (src l : list A) :
  0 <= off -> off + lenZ src <= lenZ l -> lenZ (splice off src l) = lenZ l.
Proof. intros. len_tac. Qed.

Lemma sub_nil {A} off (l : list A) : sub off 0 l = [].
Proof. done. Qed.

Lemma sub_all {A} (l : list A) n : lenZ l <= n -> sub 0 n l = l.
Proof. intros. unfold sub. rewrite Z2Nat.inj_0, drop_0. apply take_ge. len_tac. Qed.

(** An interval splits at any point inside it. *)
Lemma sub_split {A} off n m (l : list A) :
  0 <= off -> 0 <= n -> 0 <= m -> sub off (n + m) l = sub off n l ++ sub (off + n) m l.
Proof.
  intros. unfold sub.
  rewrite <- (take_drop (Z.to_nat n) (take (Z.to_nat (n + m)) _)).
  rewrite take_take, Nat.min_l, skipn_firstn_comm, drop_drop by lia.
  f_equal. f_equal; [lia | f_equal; lia].
Qed.

Lemma sub_take {A} off n m (l : list A) :
  0 <= m <= n -> take (Z.to_nat m) (sub off n l) = sub off m l.
Proof. intros. unfold sub. rewrite take_take. f_equal; lia. Qed.

Lemma sub_drop {A} off n m (l : list A) :
  0 <= off -> 0 <= m <= n -> drop (Z.to_nat m) (sub off n l) = sub (off + m) (n - m) l.
Proof.
  intros. unfold sub. rewrite skipn_firstn_comm, drop_drop. f_equal; [lia | f_equal; lia].
Qed.

(** Reading the interval just written. *)
Lemma sub_splice_eq {A} off (src l : list A) :
  0 <= off -> off + lenZ src <= lenZ l -> sub off (lenZ src) (splice off src l) = src.
Proof.
  intros. unfold sub, splice, lenZ in *.
  rewrite drop_app_ge by (rewrite length_take; lia).
  rewrite length_take, Nat.min_l, Nat.sub_diag, drop_0 by lia.
  rewrite take_app_le by lia. apply take_ge; lia.
Qed.

(** Reading entirely before, or entirely after, the interval written. *)
Lemma sub_splice_before {A} off n off' (src l : list A) :
  0 <= off -> 0 <= n -> off + n <= off' -> off' + lenZ src <= lenZ l ->
  sub off n (splice off' src l) = sub off n l.
Proof.
  intros. unfold sub, splice, lenZ in *.
  rewrite drop_app_le by (rewrite length_take; lia).
  rewrite take_app_le by (rewrite length_drop, length_take; lia).
  rewrite !take_drop_commute, take_take. do 2 f_equal; lia.
Qed.

Lemma sub_splice_after {A} off n off' (src l : list A) :
  0 <= off' -> off' + lenZ src <= off -> off' + lenZ src <= lenZ l ->
  sub off n (splice off' src l) = sub off n l.
Proof.
  intros. unfold sub, splice, lenZ in *. f_equal.
  rewrite drop_app_ge by (rewrite length_take; lia).
  rewrite length_take, Nat.min_l by lia.
  rewrite drop_app_ge by lia. rewrite drop_drop. f_equal; lia.
Qed.

Lemma sub_sub {A} off n off' m (l : list A) :
  0 <= off -> 0 <= off' -> 0 <= m -> off' + m <= n ->
  sub off' m (sub off n l) = sub (off + off') m l.
Proof.
  intros. unfold sub. rewrite skipn_firstn_comm, take_take, drop_drop.
  f_equal; [lia | f_equal; lia].
Qed.

Lemma sub_app_l {A} off n (l k : list A) :
  0 <= off -> off + n <= lenZ l -> sub off n (l ++ k) = sub off n l.
Proof.
  intros. unfold sub, lenZ in *.
  destruct (decide (Z.to_nat off <= length l)%nat).
  - rewrite drop_app_le by lia. destruct (decide (0 <= n)).
    + by rewrite take_app_le by (rewrite length_drop; lia).
    + by replace (Z.to_nat n) with 0%nat by lia.
  - by replace (Z.to_nat n) with 0%nat by lia.
Qed.

Lemma sub_app_r {A} off n (l k : list A) :
  lenZ l <= off -> sub off n (l ++ k) = sub (off - lenZ l) n k.
Proof.
  intros. unfold sub, lenZ in *. rewrite drop_app_ge by lia. do 2 f_equal; lia.
Qed.

(** ** Counting

    Conservation arguments (nothing is lost, nothing is done twice) count how
    often a number occurs in the lists that share the bookkeeping. *)

Definition cnt (i : Z) (l : list Z) : nat := count_occ Z.eq_dec l i.
Arguments cnt : simpl never.

Lemma cnt_nil i : cnt i [] = 0%nat.
Proof. done. Qed.

Lemma cnt_app i a b : cnt i (a ++ b) = (cnt i a + cnt i b)%nat.
Proof. apply count_occ_app. Qed.

Lemma cnt_cons i x l : cnt i (x :: l) = ((if Z.eq_dec x i then 1 else 0) + cnt i l)%nat.
Proof. unfold cnt. cbn. by destruct (Z.eq_dec x i). Qed.

Lemma cnt_pos i l : (0 < cnt i l)%nat <-> i ∈ l.
Proof. rewrite list_elem_of_In. unfold cnt. split; intros H; by apply (count_occ_In Z.eq_dec). Qed.

Lemma cnt_NoDup i l : NoDup l -> (cnt i l <= 1)%nat.
Proof. intros H%NoDup_ListNoDup. by apply (NoDup_count_occ Z.eq_dec). Qed.

Lemma cnt_Permutation l l' : (forall i, cnt i l = cnt i l') -> l ≡ₚ l'.
Proof. intros H. by apply (Permutation_count_occ Z.eq_dec). Qed.

#[export] Instance cnt_proper i : Proper (Permutation ==> eq) (cnt i).
Proof. intros l l' H. by apply (Permutation_count_occ Z.eq_dec). Qed.

(** Whether [a] is [x], as a number. *)
Definition one (a x : Z) : nat := if Z.eq_dec a x then 1 else 0.
Arguments one : simpl never.

Lemma one_same x : one x x = 1%nat.
Proof. unfold one. by destruct (Z.eq_dec x x). Qed.
Lemma one_diff a x : a <> x -> one a x = 0%nat.
Proof. unfold one. by destruct (Z.eq_dec a x). Qed.
Lemma cnt_one x a l : cnt x (a :: l) = (one a x + cnt x l)%nat.
Proof. apply cnt_cons. Qed.
Lemma cnt_one1 x a : cnt x [a] = one a x.
Proof. rewrite cnt_one, cnt_nil. lia. Qed.

(** ** Sums over maps

    The same for what is spread over the entries of a map. *)

Definition msum `{!EqDecision K, !Countable K} {A} (f : A -> nat) (m : gmap K A) : nat := foldr (fun x n => (f (snd x) + n)%nat) 0%nat (map_to_list m).

Arguments msum : simpl never.

Lemma msum_Permutation {K A} (f : A -> nat) (l k : list (K * A)) : l ≡ₚ k ->
  foldr (fun x n => (f (snd x) + n)%nat) 0%nat l = foldr (fun x n => (f (snd x) + n)%nat) 0%nat k.
Proof. induction 1; cbn; lia. Qed.

Lemma msum_empty `{!EqDecision K, !Countable K} {A} (f : A -> nat) : msum f (∅ : gmap K A) = 0%nat.
Proof. unfold msum. by rewrite map_to_list_empty. Qed.

Lemma msum_new `{!EqDecision K, !Countable K} {A} (f : A -> nat) (m : gmap K A) k x : m !! k = None -> msum f (<[k := x]> m) = (f x + msum f m)%nat.
Proof. intros E. unfold msum. by rewrite (msum_Permutation f _ _ (map_to_list_insert m k x E)). Qed.

Lemma msum_split `{!EqDecision K, !Countable K} {A} (f : A -> nat) (m : gmap K A) k x : m !! k = Some x -> msum f m = (f x + msum f (delete k m))%nat.
Proof. intros E. unfold msum. by rewrite (msum_Permutation f _ _ (symmetry (map_to_list_delete m k x E))). Qed.

Lemma msum_upd `{!EqDecision K, !Countable K} {A} (f : A -> nat) (m : gmap K A) k x y : m !! k = Some x -> (msum f (<[k := y]> m) + f x = msum f m + f y)%nat.
Proof.
  intros E. rewrite (msum_split f m k x E), <- insert_delete_eq, (msum_new f (delete k m)) by apply lookup_delete_eq. lia.
Qed.

(** Any change of one entry. *)
Definition ofn {A} (f : A -> nat) (o : option A) : nat := match o with Some x => f x | None => 0 end.

Lemma msum_insert `{!EqDecision K, !Countable K} {A} (f : A -> nat) (m : gmap K A) k y : (msum f (<[k := y]> m) + ofn f (m !! k) = msum f m + f y)%nat.
Proof.
  destruct (m !! k) as [x|] eqn:E; cbn [ofn]; [by apply msum_upd|]. rewrite msum_new by done. lia.
Qed.

Lemma msum_delete `{!EqDecision K, !Countable K} {A} (f : A -> nat) (m : gmap K A) k : (msum f (delete k m) + ofn f (m !! k) = msum f m)%nat.
Proof. destruct (m !! k) as [x|] eqn:E; cbn [ofn]; [rewrite (msum_split f m k x E)|rewrite delete_id by done]; lia. Qed.

Lemma msum_ge `{!EqDecision K, !Countable K} {A} (f : A -> nat) (m : gmap K A) k x : m !! k = Some x -> (f x <= msum f m)%nat.
Proof. intros E. rewrite (msum_split f m k x E). lia. Qed.

Lemma msum_pos `{!EqDecision K, !Countable K} {A} (f : A -> nat) (m : gmap K A) : (0 < msum f m)%nat -> exists k x, m !! k = Some x /\ (0 < f x)%nat.
Proof.
  unfold msum. intros H. assert (exists p, p ∈ map_to_list m /\ (0 < f (snd p))%nat) as ([k x] & Hp & Hf).
  { induction (map_to_list m) as [|p l IH]; cbn in H; [lia|]. destruct (decide (0 < f (snd p))%nat) as [Hp|Hp]; [by exists p; split; [left|]|].
    destruct IH as (q & Hq & Hf); [lia|]. exists q. by split; [right|]. }
  apply elem_of_map_to_list in Hp. eauto.
Qed.

Lemma msum_zero `{!EqDecision K, !Countable K} {A} (f : A -> nat) (m : gmap K A) k x : msum f m = 0%nat -> m !! k = Some x -> f x = 0%nat.
Proof. intros H E. pose proof (msum_ge f m k x E). lia. Qed.

Lemma msum_ext `{!EqDecision K, !Countable K} {A} (f g : A -> nat) (m : gmap K A) : (forall k x, m !! k = Some x -> f x = g x) -> msum f m = msum g m.
Proof.
  intros H. unfold msum. assert (forall p, p ∈ map_to_list m -> f (snd p) = g (snd p)) as Hp.
  { intros [k x] Hin. by apply elem_of_map_to_list, H in Hin. }
  induction (map_to_list m) as [|p l IH]; [done|]. cbn. rewrite IH, (Hp p); [done|by left|]. intros q Hq. apply Hp. by right.
Qed.

Lemma msum_le `{!EqDecision K, !Countable K} {A} (f g : A -> nat) (m : gmap K A) : (forall x, f x <= g x)%nat -> (msum f m <= msum g m)%nat.
Proof. intros H. unfold msum. induction (map_to_list m) as [|p l IH]; cbn; [done|]. specialize (H (snd p)). lia. Qed.

Lemma msum_fmap `{!EqDecision K, !Countable K} {A B} (f : B -> nat) (g : A -> B) (m : gmap K A) : msum f (g <$> m) = msum (fun x => f (g x)) m.
Proof.
  unfold msum. rewrite (msum_Permutation f _ (prod_map id g <$> map_to_list m)) by by rewrite map_to_list_fmap.
  induction (map_to_list m) as [|p l IH]; cbn; [done|]. by rewrite IH.
Qed.

(** The sums over changed maps in terms of the old ones. *)
Ltac msums :=
  repeat match goal with
  | |- context [msum ?f (<[?k := ?y]> ?m)] =>
      let H := fresh "S" in pose proof (msum_insert f m k y) as H; revert H; generalize (msum f (<[k := y]> m)); intros ? H
  | |- context [msum ?f (delete ?k ?m)] =>
      let H := fresh "S" in pose proof (msum_delete f m k) as H; revert H; generalize (msum f (delete k m)); intros ? H
  end;
  repeat match goal with
  | E : ?m !! ?k = _, H : context [ofn _ (?m !! ?k)] |- _ => rewrite E in H
  end; cbn [ofn] in *.
