(* ===== verification/Bytes.v ===== *)
(** * OI::Base::Bytes, the contiguous byte buffer

    cbaselib/base/inc/oi_bytes.h and src/oi_bytes.cpp: one malloc'ed block, a
    head offset, a valid size.  The model keeps the block cell by cell (a cell
    malloc has not initialised is [None]), sizes are size_t values with their
    wrap-around, and a source pointer may point into the buffer itself.

    [wf] is the representation invariant, [view] the abstraction: the valid
    cells.  The second half shows every operation preserves [wf] and acts on
    [view] like the obvious list operation, and that whole programs over the
    buffer simulate the same programs over lists. *)

From S2P Require Import Prelude.

Module Bytes.

(** One cell of a malloc'ed block; [None] until something is stored there. *)
Abbreviation cell := (option byte).

Definition cells (l : list byte) : list cell := map Some l.

Record Bytes : Type := mkBytes {
  m_pMemory : option (list cell);   (* NULL or the block *)
  m_iCapacity : Z;
  m_iHead : Z;
  m_iSize : Z
}.

(** Where the [pData] argument of a copying operation points: nowhere, to
    [len] bytes outside this buffer, or into this buffer's own block. *)
Inductive Src : Type :=
| SrcNull (len : Z)
| SrcExt (l : list cell)
| SrcOwn (off len : Z).

Definition src_len (s : Src) : Z :=
  match s with
  | SrcNull n => n
  | SrcExt l => lenZ l
  | SrcOwn _ n => n
  end.

Section Ops.

(** [ndebug]: whether assert() is compiled out. [grants n]: whether malloc(n)
    succeeds. *)
Context (ndebug : bool) (grants : Z -> bool).

Definition malloc (n : Z) : result (list cell) :=
  if grants n then Ok (replicate (Z.to_nat n) None) else Err BadAlloc.

Definition assert (c : bool) : result unit :=
  if c || ndebug then Ok tt else Err AssertFail.

Definition empty : Bytes := mkBytes None 0 0 0.

Definition block (b : Bytes) : list cell := default [] (m_pMemory b).

(** The valid cells, [m_pMemory + m_iHead, + m_iSize). *)
Definition view (b : Bytes) : list cell := sub (m_iHead b) (m_iSize b) (block b).

Definition Size (b : Bytes) : Z := m_iSize b.
Definition Capacity (b : Bytes) : Z := u64 (m_iCapacity b - m_iHead b).

(** memcpy / memmove into the block at [off]; outside the block is undefined. *)
Definition store (off : Z) (l : list cell) (b : Bytes) : result Bytes :=
  if (0 <=? off) && (off + lenZ l <=? lenZ (block b)) then
    Ok (mkBytes (splice off l <$> m_pMemory b) (m_iCapacity b) (m_iHead b) (m_iSize b))
  else Err Undefined.

(** Reading [len] cells of the block from [off]. *)
Definition load (off len : Z) (b : Bytes) : result (list cell) :=
  if (0 <=? off) && (off + len <=? lenZ (block b)) then Ok (sub off len (block b))
  else Err Undefined.

(** The do-while loop of Grow: double until it fits. *)
Fixpoint grow_capacity (fuel : nat) (iNeed iCapacity : Z) : result Z :=
  match fuel with
  | O => Err OutOfFuel
  | S fuel =>
      if SIZE_MAX / 2 <? iCapacity then Err BadAlloc
      else
        let iCapacity := u64 (iCapacity * 2) in
        if iCapacity <? iNeed then grow_capacity fuel iNeed iCapacity else Ok iCapacity
  end.

Definition Grow (iNeed : Z) (b : Bytes) : result Bytes :=
  if u64 (m_iHead b + iNeed) <=? m_iCapacity b then Ok b
  else if (iNeed <=? m_iCapacity b) && (m_iSize b <=? m_iHead b) then
    if 0 <? m_iSize b then
      let! l := load (m_iHead b) (m_iSize b) b in
      let! b := store 0 l b in
      Ok (mkBytes (m_pMemory b) (m_iCapacity b) 0 (m_iSize b))
    else Ok (mkBytes (m_pMemory b) (m_iCapacity b) 0 (m_iSize b))
  else
    let! iCapacity := grow_capacity 65 iNeed (if m_iCapacity b =? 0 then 32 else m_iCapacity b) in
    let! pMem := malloc iCapacity in
    let! l := load (m_iHead b) (m_iSize b) b in
    Ok (mkBytes (Some (splice 0 l pMem)) iCapacity 0 (m_iSize b)).

(** Bytes(const char*, size_t). *)
Definition of_data (l : list cell) : result Bytes :=
  if lenZ l =? 0 then Ok empty
  else
    let! b := Grow (lenZ l) empty in
    let! b := store (m_iHead b) l b in
    Ok (mkBytes (m_pMemory b) (m_iCapacity b) (m_iHead b) (lenZ l)).

(** Bytes(const Bytes&). *)
Definition copy (other : Bytes) : result Bytes :=
  if 0 <? m_iSize other then
    let! b := Grow (m_iSize other) empty in
    let! l := load (m_iHead other) (m_iSize other) other in
    let! b := store (m_iHead b) l b in
    Ok (mkBytes (m_pMemory b) (m_iCapacity b) (m_iHead b) (m_iSize other))
  else Ok empty.

(** operator=(const Bytes&) from another object. *)
Definition assign (b other : Bytes) : result Bytes :=
  let b := mkBytes (m_pMemory b) (m_iCapacity b) 0 0 in
  if 0 <? m_iSize other then
    let! b := Grow (m_iSize other) b in
    let! l := load (m_iHead other) (m_iSize other) other in
    let! b := store (m_iHead b) l b in
    Ok (mkBytes (m_pMemory b) (m_iCapacity b) (m_iHead b) (m_iSize other))
  else Ok b.

(** Bytes(Bytes&&) and operator=(Bytes&&): the new object and what is left. *)
Definition move (other : Bytes) : Bytes * Bytes := (other, empty).

Definition Swap (a b : Bytes) : Bytes * Bytes := (b, a).

Definition Clear (b : Bytes) : Bytes := mkBytes (m_pMemory b) (m_iCapacity b) 0 0.

(** Reserve also returns Capacity(). *)
Definition Reserve (iSize : Z) (b : Bytes) : result (Bytes * Z) :=
  let! b := Grow iSize b in
  let size := if iSize <? m_iSize b then iSize else m_iSize b in
  let head := if size =? 0 then 0 else m_iHead b in
  let b := mkBytes (m_pMemory b) (m_iCapacity b) head size in
  Ok (b, Capacity b).

Definition Commit (iNumber : Z) (b : Bytes) : result Bytes :=
  if u64 (Capacity b - m_iSize b) <? iNumber then Err OutOfRange
  else Ok (mkBytes (m_pMemory b) (m_iCapacity b) (m_iHead b) (u64 (m_iSize b + iNumber))).

(** A caller writing through Begin(): the documented use is Reserve, write up
    to Capacity() bytes, Commit. *)
Definition write_at (off : Z) (l : list cell) (b : Bytes) : result Bytes :=
  store (m_iHead b + off) l b.

(** Overlaps: the pointer lies in the block. *)
Definition Overlaps (s : Src) (b : Bytes) : bool :=
  match s with
  | SrcOwn off _ => bool_decide (is_Some (m_pMemory b)) && (0 <=? off) && (off <? m_iCapacity b)
  | _ => false
  end.

(** The cells behind the source pointer. *)
Definition fetch (s : Src) (b : Bytes) : result (list cell) :=
  match s with
  | SrcNull n => if n =? 0 then Ok [] else Err Undefined
  | SrcExt l => Ok l
  | SrcOwn off len => load off len b
  end.

Definition src_nonnull (s : Src) : bool :=
  match s with SrcNull _ => false | _ => true end.

(** The body of Append for a source outside the block. *)
Definition append_ext (l : list cell) (b : Bytes) : result Bytes :=
  let! b := Grow (u64 (m_iSize b + lenZ l)) b in
  let! b := store (m_iHead b + m_iSize b) l b in
  Ok (mkBytes (m_pMemory b) (m_iCapacity b) (m_iHead b) (u64 (m_iSize b + lenZ l))).

(** Append(const void*, size_t), with the number of bytes written. *)
Definition Append (s : Src) (b : Bytes) : result (Bytes * Z) :=
  if src_len s =? 0 then Ok (b, 0)
  else
    let! _ := assert (src_nonnull s) in
    if u64 (SIZE_MAX - m_iSize b) <? src_len s then Err BadAlloc
    else
      let! l := fetch s b in
      if Overlaps s b then
        (* copied out into stCopy first, then appended from there *)
        let! stCopy := of_data l in
        let! l := load (m_iHead stCopy) (m_iSize stCopy) stCopy in
        let! b := append_ext l b in
        Ok (b, lenZ l)
      else
        let! b := append_ext l b in
        Ok (b, lenZ l).

(** Append(const Bytes&), for another object. *)
Definition AppendBytes (other b : Bytes) : result (Bytes * Z) :=
  let! l := load (m_iHead other) (m_iSize other) other in
  Append (SrcExt l) b.

(** The same with the buffer itself as the argument. *)
Definition AppendSelf (b : Bytes) : result (Bytes * Z) :=
  Append (SrcOwn (m_iHead b) (m_iSize b)) b.

(** Erase(size_t, size_t). *)
Definition Erase (iOffset iLength : Z) (b : Bytes) : result (Bytes * Z) :=
  if m_iSize b <? iOffset then Ok (b, 0)
  else
    let iLength := if m_iSize b - iOffset <? iLength then m_iSize b - iOffset else iLength in
    if iLength =? 0 then Ok (b, 0)
    else if iOffset =? 0 then
      let size := m_iSize b - iLength in
      let head := if size =? 0 then 0 else m_iHead b + iLength in
      Ok (mkBytes (m_pMemory b) (m_iCapacity b) head size, iLength)
    else
      let! l := load (m_iHead b + iOffset + iLength) (m_iSize b - iOffset - iLength) b in
      let! b := store (m_iHead b + iOffset) l b in
      Ok (mkBytes (m_pMemory b) (m_iCapacity b) (m_iHead b) (m_iSize b - iLength), iLength).

(** Erase(int, size_t): a negative offset is ignored. *)
Definition EraseInt (iOffset iLength : Z) (b : Bytes) : result Bytes :=
  if 0 <=? iOffset then let! r := Erase iOffset iLength b in Ok (fst r) else Ok b.

(** Erase(const char*, size_t): [p] is the pointer as an offset from Data(). *)
Definition ErasePtr (p iLength : Z) (b : Bytes) : result Bytes :=
  if (p <? 0) || (m_iSize b <? p) then Ok b
  else let! r := Erase p iLength b in Ok (fst r).

(** The body of Insert for a source outside the block and an offset inside. *)
Definition insert_ext (iOffset : Z) (l : list cell) (b : Bytes) : result Bytes :=
  if (iOffset =? 0) && (lenZ l <=? m_iHead b) then
    store (m_iHead b - lenZ l) l
      (mkBytes (m_pMemory b) (m_iCapacity b) (m_iHead b - lenZ l) (u64 (m_iSize b + lenZ l)))
  else
    let! b := Grow (u64 (m_iSize b + lenZ l)) b in
    let! t := load (m_iHead b + iOffset) (m_iSize b - iOffset) b in
    let! b := store (m_iHead b + iOffset + lenZ l) t b in
    let! b := store (m_iHead b + iOffset) l b in
    Ok (mkBytes (m_pMemory b) (m_iCapacity b) (m_iHead b) (u64 (m_iSize b + lenZ l))).

Definition Insert (iOffset : Z) (s : Src) (b : Bytes) : result (Bytes * Z) :=
  if m_iSize b <=? iOffset then
    let! _ := assert (iOffset =? m_iSize b) in
    Append s b
  else if src_len s =? 0 then Ok (b, 0)
  else
    let! _ := assert (src_nonnull s) in
    if u64 (SIZE_MAX - m_iSize b) <? src_len s then Err BadAlloc
    else
      let! l := fetch s b in
      if Overlaps s b then
        let! stCopy := of_data l in
        let! l := load (m_iHead stCopy) (m_iSize stCopy) stCopy in
        let! b := insert_ext iOffset l b in
        Ok (b, lenZ l)
      else
        let! b := insert_ext iOffset l b in
        Ok (b, lenZ l).

Definition AppendForward (s : Src) (b : Bytes) : result (Bytes * Z) := Insert 0 s b.

(** Replace from a source outside the block. *)
Definition Replace (iOffset : Z) (l : list cell) (b : Bytes) : result (Bytes * Z) :=
  if (m_iSize b <? iOffset) || (m_iSize b - iOffset <? lenZ l) then
    let! _ := assert false in
    if m_iSize b <=? iOffset then Ok (b, 0)
    else
      let l := take (Z.to_nat (m_iSize b - iOffset)) l in
      if lenZ l =? 0 then Ok (b, 0)
      else let! b := store (m_iHead b + iOffset) l b in Ok (b, lenZ l)
  else if lenZ l =? 0 then Ok (b, 0)
  else let! b := store (m_iHead b + iOffset) l b in Ok (b, lenZ l).

End Ops.

(** ** The representation invariant *)

(** The block has exactly [m_iCapacity] cells and the valid interval lies in it. *)
Record wf (b : Bytes) : Prop := {
  wf_head : 0 <= m_iHead b;
  wf_size : 0 <= m_iSize b;
  wf_fits : m_iHead b + m_iSize b <= m_iCapacity b;
  wf_block : lenZ (block b) = m_iCapacity b;
  wf_null : m_pMemory b = None -> m_iCapacity b = 0;
  wf_cap : m_iCapacity b <= PTRDIFF_MAX
}.

Ltac sizes := unfold PTRDIFF_MAX, SIZE_MAX in *; lia.

(** Destructs the invariant of [b] into the arithmetic facts. *)
Ltac dest_wf H :=
  let A1 := fresh "Hhead" in let A2 := fresh "Hsize" in let A3 := fresh "Hfits" in
  let A4 := fresh "Hblock" in let A5 := fresh "Hnull" in let A6 := fresh "Hcap" in
  pose proof H as [A1 A2 A3 A4 A5 A6].

Lemma wf_empty : wf empty.
Proof. split; simpl; try done; sizes. Qed.

Lemma view_length b : wf b -> lenZ (view b) = m_iSize b.
Proof. intros H; dest_wf H. unfold view. apply lenZ_sub; lia. Qed.

Lemma load_ok off len b :
  0 <= off -> off + len <= lenZ (block b) -> load off len b = Ok (sub off len (block b)).
Proof.
  intros. unfold load. destruct (Z.leb_spec 0 off), (Z.leb_spec (off + len) (lenZ (block b))); simpl; (done || lia).
Qed.

Lemma load_view b : wf b -> load (m_iHead b) (m_iSize b) b = Ok (view b).
Proof. intros H; dest_wf H. apply load_ok; lia. Qed.

Lemma block_splice off l b :
  off + lenZ l <= lenZ (block b) -> 0 <= off ->
  default [] (splice off l <$> m_pMemory b) = splice off l (block b).
Proof.
  unfold block. destruct (m_pMemory b); simpl; [done|].
  intros. assert (l = []) as -> by (apply lenZ_0; len_tac).
  unfold splice. by rewrite take_nil, drop_nil.
Qed.

(** [set_block b l]: [b] with other cells in the same block. *)
Lemma store_ok off l b :
  0 <= off -> off + lenZ l <= lenZ (block b) ->
  exists b', store off l b = Ok b' /\ block b' = splice off l (block b) /\
    m_iCapacity b' = m_iCapacity b /\ m_iHead b' = m_iHead b /\ m_iSize b' = m_iSize b /\
    (m_pMemory b' = None -> m_pMemory b = None).
Proof.
  intros Ho Hl. unfold store.
  destruct (Z.leb_spec 0 off), (Z.leb_spec (off + lenZ l) (lenZ (block b))); simpl; try lia.
  eexists; repeat split; [by apply block_splice | simpl; by destruct (m_pMemory b)].
Qed.

(** A store followed by setting head and size is well formed again. *)
Lemma wf_update b b' h s :
  wf b -> lenZ (block b') = lenZ (block b) -> m_iCapacity b' = m_iCapacity b ->
  (m_pMemory b' = None -> m_pMemory b = None) ->
  0 <= h -> 0 <= s -> h + s <= m_iCapacity b ->
  wf (mkBytes (m_pMemory b') (m_iCapacity b') h s).
Proof.
  intros H Hlen Hc Hn ???. dest_wf H.
  split; cbn [m_pMemory m_iCapacity m_iHead m_iSize]; unfold block in *;
    cbn [m_pMemory] in *; try lia; intuition lia.
Qed.

Lemma wf_same b b' :
  wf b -> lenZ (block b') = lenZ (block b) -> m_iCapacity b' = m_iCapacity b ->
  (m_pMemory b' = None -> m_pMemory b = None) ->
  m_iHead b' = m_iHead b -> m_iSize b' = m_iSize b -> wf b'.
Proof. intros H ?? Hn ??. dest_wf H. split; try lia. intuition lia. Qed.

(** The loop of Grow ends within its fuel: every round at least doubles. *)
Lemma grow_capacity_spec fuel need cap :
  0 < cap <= SIZE_MAX -> SIZE_MAX < cap * 2 ^ Z.of_nat fuel ->
  post (grow_capacity fuel need cap)
    (fun c => need <= c /\ cap <= c <= SIZE_MAX) (fun e => e = BadAlloc).
Proof.
  revert cap; induction fuel as [|fuel IH]; intros cap Hc Hf; [simpl in *; sizes|].
  cbn [grow_capacity]. change (SIZE_MAX / 2) with PTRDIFF_MAX. destruct (Z.ltb_spec PTRDIFF_MAX cap) as [|Hle]; [done|].
  assert (cap * 2 <= SIZE_MAX) by sizes.
  rewrite u64_small by sizes.
  destruct (Z.ltb_spec (cap * 2) need); [|simpl; sizes].
  eapply post_mono; [apply IH; [lia|] | simpl; lia | done].
  rewrite Nat2Z.inj_succ, Z.pow_succ_r in Hf by lia. nia.
Qed.

Section Spec.

Context (ndebug : bool) (grants : Z -> bool).

(** What malloc documents: no object is larger than PTRDIFF_MAX. *)
Hypothesis grants_bounded : forall n, grants n = true -> n <= PTRDIFF_MAX.

(** The branch of Grow that slides the valid cells to the front of the block. *)
Lemma Grow_slide need b :
  wf b -> need <= m_iCapacity b -> m_iSize b <= m_iHead b ->
  post (if 0 <? m_iSize b then
          let! l := load (m_iHead b) (m_iSize b) b in
          let! b := store 0 l b in
          Ok (mkBytes (m_pMemory b) (m_iCapacity b) 0 (m_iSize b))
        else Ok (mkBytes (m_pMemory b) (m_iCapacity b) 0 (m_iSize b)))
    (fun b' => wf b' /\ view b' = view b /\ m_iSize b' = m_iSize b /\
       m_iHead b' + need <= m_iCapacity b')
    (fun e => e = BadAlloc).
Proof.
  intros Hwf Hn Hs. dest_wf Hwf. destruct (Z.ltb_spec 0 (m_iSize b)).
  - rewrite load_view by done. cbn [rbind].
    pose proof (view_length b Hwf) as Hv.
    destruct (store_ok 0 (view b) b) as (b' & -> & Hb & Hc & Hh & Hsz & Hnl); [lia|rewrite Hv, Hblock; lia|].
    cbn [rbind post m_iHead m_iSize m_iCapacity]. rewrite Hsz. split_and!; [| |lia..].
    + eapply wf_update; eauto; try lia. rewrite Hb. apply lenZ_splice; [lia|rewrite Hv, Hblock; lia].
    + unfold view at 1; cbn [m_iHead m_iSize]. unfold block at 1; cbn [m_pMemory].
      fold (block b'). rewrite Hb, <- Hv. apply sub_splice_eq; lia.
  - simpl. split_and!; simpl; try lia.
    + split; simpl; try lia; done.
    + unfold view; simpl. by replace (m_iSize b) with 0 by lia.
Qed.

(** The branch that moves them to a larger block. *)
Lemma Grow_realloc need b :
  wf b -> 0 <= need <= SIZE_MAX -> m_iCapacity b < m_iHead b + need ->
  post (let! iCapacity := grow_capacity 65 need (if m_iCapacity b =? 0 then 32 else m_iCapacity b) in
        let! pMem := malloc grants iCapacity in
        let! l := load (m_iHead b) (m_iSize b) b in
        Ok (mkBytes (Some (splice 0 l pMem)) iCapacity 0 (m_iSize b)))
    (fun b' => wf b' /\ view b' = view b /\ m_iSize b' = m_iSize b /\
       m_iHead b' + need <= m_iCapacity b')
    (fun e => e = BadAlloc).
Proof.
  intros Hwf Hn Hlt. dest_wf Hwf. pose proof (view_length b Hwf) as Hv.
  eapply post_bind; [apply grow_capacity_spec|].
  - destruct (Z.eqb_spec (m_iCapacity b) 0); sizes.
  - destruct (Z.eqb_spec (m_iCapacity b) 0); [done|].
    change (2 ^ Z.of_nat 65) with (2 ^ 65). sizes.
  - intros c (Hnc & Hcc & Hcs). unfold malloc. destruct (grants c) eqn:G; [|done].
    apply grants_bounded in G. cbn [rbind]. rewrite load_view by done. cbn [rbind post].
    assert (m_iSize b <= c) by lia.
    assert (lenZ (replicate (Z.to_nat c) (@None byte)) = c) as Hr by len_tac.
    split_and!; cbn [m_pMemory m_iHead m_iSize m_iCapacity]; try lia.
    + split; cbn [m_pMemory m_iHead m_iSize m_iCapacity]; try lia; try done.
      unfold block; simpl. rewrite lenZ_splice; lia.
    + unfold view at 1; simpl. unfold block; simpl. rewrite <- Hv. apply sub_splice_eq; lia.
Qed.

(** Grow makes room for [need] cells after the head and keeps the valid ones. *)
Lemma Grow_spec need b :
  wf b -> 0 <= need -> need + m_iHead b <= SIZE_MAX ->
  post (Grow grants need b)
    (fun b' => wf b' /\ view b' = view b /\ m_iSize b' = m_iSize b /\
       m_iHead b' + need <= m_iCapacity b')
    (fun e => e = BadAlloc).
Proof.
  intros Hwf Hn Hsum. dest_wf Hwf. unfold Grow.
  rewrite u64_small by sizes.
  destruct (Z.leb_spec (m_iHead b + need) (m_iCapacity b)); [by simpl|].
  destruct (Z.leb_spec need (m_iCapacity b)), (Z.leb_spec (m_iSize b) (m_iHead b));
    cbn [andb]; [by apply Grow_slide; try lia | by apply Grow_realloc; try lia ..].
Qed.

(** Writing [l] over the cells from [m_iHead + off] on, then taking the valid
    size to be [s]: the valid cells become the old ones up to [off], then [l],
    then whatever of the old ones is left up to [s]. *)
Lemma view_store b b' off l s :
  wf b -> 0 <= off -> off <= m_iSize b -> off + lenZ l <= s -> m_iHead b + s <= m_iCapacity b ->
  block b' = splice (m_iHead b + off) l (block b) ->
  sub (m_iHead b) s (block b') =
  sub 0 off (view b) ++ l ++ sub (m_iHead b + off + lenZ l) (s - off - lenZ l) (block b).
Proof.
  intros Hwf ???? ->. dest_wf Hwf. pose proof (lenZ_nonneg l).
  replace s with (off + (lenZ l + (s - off - lenZ l))) at 1 by lia.
  rewrite !sub_split by lia. f_equal; [|f_equal].
  - rewrite sub_splice_before by lia. unfold view.
    rewrite sub_sub by lia. f_equal; lia.
  - apply sub_splice_eq; lia.
  - rewrite sub_splice_after by lia. f_equal; lia.
Qed.

(** Append from outside the block adds the source at the end. *)
Lemma append_ext_spec l b :
  wf b -> lenZ l <= PTRDIFF_MAX ->
  post (append_ext grants l b)
    (fun b' => wf b' /\ view b' = view b ++ l)
    (fun e => e = BadAlloc).
Proof.
  intros Hwf Hl. dest_wf Hwf. pose proof (lenZ_nonneg l). unfold append_ext.
  rewrite u64_small by sizes.
  eapply post_bind; [apply Grow_spec; sizes || done|].
  intros b1 (Hwf1 & Hv1 & Hs1 & Hr1). pose proof Hwf1 as Hwf1'. dest_wf Hwf1'.
  destruct (store_ok (m_iHead b1 + m_iSize b1) l b1) as (b' & -> & Hb & Hc & Hh & Hsz & Hnl);
    [lia..|].
  cbn [rbind post]. rewrite Hh, Hsz, Hs1, u64_small by sizes. split.
  - eapply wf_update; eauto; try lia. rewrite Hb, lenZ_splice; lia.
  - unfold view at 1; cbn [m_iHead m_iSize]. unfold block; cbn [m_pMemory]; fold (block b').
    rewrite (view_store b1 b' (m_iSize b1) l) by (done || lia).
    rewrite sub_all by (rewrite view_length; done || lia).
    rewrite Hv1. replace (_ - _ - _) with 0 by lia. by rewrite sub_nil, app_nil_r.
Qed.

(** A fresh Bytes built from a range holds exactly that range. *)
Lemma of_data_spec l :
  lenZ l <= PTRDIFF_MAX ->
  post (of_data grants l) (fun b => wf b /\ view b = l) (fun e => e = BadAlloc).
Proof.
  intros Hl. pose proof (lenZ_nonneg l). unfold of_data.
  destruct (Z.eqb_spec (lenZ l) 0) as [E|E].
  - apply lenZ_0 in E as ->. split; [apply wf_empty | done].
  - pose proof (append_ext_spec l empty wf_empty Hl) as H1. unfold append_ext in H1.
    simpl m_iSize in H1. rewrite Z.add_0_l, u64_small in H1 by sizes.
    destruct (Grow grants (lenZ l) empty) as [b1|] eqn:EG; simpl in *; [|done].
    pose proof (Grow_spec (lenZ l) empty wf_empty ltac:(lia) ltac:(simpl; sizes)) as HG.
    rewrite EG in HG; simpl in HG. destruct HG as (_ & _ & Hs & _).
    rewrite Hs, Z.add_0_r in H1. destruct (store _ _ _) as [b2|] eqn:ES; simpl in *; [|done].
    destruct H1 as [H1 H2].
    assert (m_iSize b2 = 0) as Hs2.
    { unfold store in ES. destruct (_ && _); [|done]. injection ES as <-. exact Hs. }
    rewrite Hs2, Z.add_0_l, u64_small in H1, H2 by sizes. done.
Qed.

(** A source pointer with the cells behind it: what a caller has to provide. *)
Definition src_cells (s : Src) (b : Bytes) (l : list cell) : Prop :=
  match s with
  | SrcNull n => n = 0 /\ l = []
  | SrcExt k => l = k /\ lenZ k <= PTRDIFF_MAX
  | SrcOwn off n => 0 <= off /\ 0 <= n /\ off + n <= lenZ (block b) /\ l = sub off n (block b)
  end.

Lemma src_cells_fetch s b l :
  wf b -> src_cells s b l -> fetch s b = Ok l /\ src_len s = lenZ l /\ lenZ l <= PTRDIFF_MAX.
Proof.
  intros Hwf. dest_wf Hwf. destruct s as [n|k|off n]; simpl.
  - intros [-> ->]. split_and!; [done..|]. unfold lenZ; simpl; sizes.
  - by intros [-> ?].
  - intros (? & ? & ? & ->). rewrite load_ok, lenZ_sub by lia. split_and!; [done..|lia].
Qed.

(** The assertion on the pointer never fires for a non-empty source. *)
Lemma src_cells_nonnull s b l :
  src_cells s b l -> src_len s <> 0 -> assert ndebug (src_nonnull s) = Ok tt.
Proof. destruct s; simpl; [lia | done..]. Qed.

(** Both copying operations detour through a temporary when the source aliases
    the block; the temporary holds the same cells. *)
Lemma detour_spec {B} l (k : list cell -> result B) Q :
  lenZ l <= PTRDIFF_MAX -> post (k l) Q (fun e => e = BadAlloc) ->
  post (let! stCopy := of_data grants l in
        let! l := load (m_iHead stCopy) (m_iSize stCopy) stCopy in k l)
    Q (fun e => e = BadAlloc).
Proof.
  intros Hl Hk. eapply post_bind; [by apply of_data_spec|].
  intros c [Hc Hv]. rewrite load_view by done. simpl. by rewrite Hv.
Qed.

Lemma Append_lemma s b l :
  wf b -> src_cells s b l ->
  post (Append ndebug grants s b)
    (fun r => wf (fst r) /\ view (fst r) = view b ++ l /\ snd r = lenZ l)
    (fun e => e = BadAlloc).
Proof.
  intros Hwf Hs. destruct (src_cells_fetch s b l Hwf Hs) as (Hf & Hlen & Hmax).
  pose proof (wf_size b Hwf). pose proof (wf_cap b Hwf). pose proof (wf_fits b Hwf).
  pose proof (wf_head b Hwf). unfold Append.
  destruct (Z.eqb_spec (src_len s) 0) as [E|E].
  { rewrite Hlen in E. pose proof (lenZ_0 l E) as ->. simpl. by rewrite app_nil_r. }
  rewrite (src_cells_nonnull s b l), u64_small by (done || sizes). cbn [rbind].
  destruct (Z.ltb_spec (SIZE_MAX - m_iSize b) (src_len s)); [done|].
  rewrite Hf. cbn [rbind].
  assert (post (let! b' := append_ext grants l b in Ok (b', lenZ l))
    (fun r => wf (fst r) /\ view (fst r) = view b ++ l /\ snd r = lenZ l)
    (fun e => e = BadAlloc)) as Hext.
  { eapply post_bind; [by apply append_ext_spec|]. intros b' [? ?]. by simpl. }
  destruct (Overlaps s b); [|done]. by apply (detour_spec l (fun l => let! b' := append_ext grants l b in Ok (b', lenZ l))).
Qed.

(** Insert's general path, after Grow: shift the tail, then store the source. *)
Lemma insert_shift off l b :
  wf b -> 0 <= off < m_iSize b -> m_iHead b + m_iSize b + lenZ l <= m_iCapacity b ->
  post (let! t := load (m_iHead b + off) (m_iSize b - off) b in
        let! b := store (m_iHead b + off + lenZ l) t b in
        let! b := store (m_iHead b + off) l b in
        Ok (mkBytes (m_pMemory b) (m_iCapacity b) (m_iHead b) (u64 (m_iSize b + lenZ l))))
    (fun b' => wf b' /\
       view b' = sub 0 off (view b) ++ l ++ sub off (m_iSize b - off) (view b))
    (fun e => e = BadAlloc).
Proof.
  intros Hwf Hoff Hroom. dest_wf Hwf. pose proof (lenZ_nonneg l).
  rewrite load_ok by lia. cbn [rbind].
  set (t := sub _ _ (block b)).
  assert (lenZ t = m_iSize b - off) as Ht by (apply lenZ_sub; lia).
  destruct (store_ok (m_iHead b + off + lenZ l) t b) as (b1 & -> & Hb1 & Hc1 & Hh1 & Hs1 & Hn1);
    [lia..|].
  cbn [rbind]. rewrite Hh1.
  assert (lenZ (block b1) = m_iCapacity b) as Hl1 by (rewrite Hb1, lenZ_splice; lia).
  destruct (store_ok (m_iHead b + off) l b1) as (b2 & -> & Hb2 & Hc2 & Hh2 & Hs2 & Hn2); [lia..|].
  cbn [rbind post]. rewrite Hh2, Hs2, Hh1, Hs1, u64_small by sizes. split.
  - eapply (wf_update b); eauto; try lia. rewrite Hb2, lenZ_splice; lia.
  - unfold view at 1; cbn [m_iHead m_iSize]. unfold block at 1; cbn [m_pMemory]; fold (block b2).
    replace (m_iSize b + lenZ l) with (off + (lenZ l + (m_iSize b - off))) by lia.
    rewrite !sub_split by lia. f_equal; [|f_equal].
    + rewrite Hb2, sub_splice_before by lia. rewrite Hb1, sub_splice_before by lia.
      unfold view. rewrite sub_sub by lia. f_equal; lia.
    + rewrite Hb2. apply sub_splice_eq; lia.
    + rewrite Hb2, sub_splice_after by lia. rewrite Hb1, <- Ht, sub_splice_eq by lia.
      rewrite Ht. unfold t, view. rewrite sub_sub by lia. done.
Qed.

(** Insertion before the valid cells, in the middle of them, or into the room
    left of the head. *)
Lemma insert_ext_spec off l b :
  wf b -> 0 <= off < m_iSize b -> lenZ l <= PTRDIFF_MAX ->
  post (insert_ext grants off l b)
    (fun b' => wf b' /\
       view b' = sub 0 off (view b) ++ l ++ sub off (m_iSize b - off) (view b))
    (fun e => e = BadAlloc).
Proof.
  intros Hwf Hoff Hl. dest_wf Hwf. pose proof (lenZ_nonneg l). unfold insert_ext.
  destruct (Z.eqb_spec off 0), (Z.leb_spec (lenZ l) (m_iHead b)); cbn [andb].
  { subst off. rewrite u64_small by sizes.
    set (b0 := mkBytes _ _ _ _).
    assert (wf b0) as Hwf0 by (split; unfold b0; simpl; try lia; done).
    destruct (store_ok (m_iHead b - lenZ l) l b0) as (b' & -> & Hb & Hc & Hh & Hsz & Hnl);
      [lia | change (block b0) with (block b); lia |].
    simpl. split.
    - apply (wf_same b0); auto.
      rewrite Hb. change (block b0) with (block b). rewrite lenZ_splice; lia.
    - unfold view at 1. rewrite Hh, Hsz.
      assert (block b' = splice (m_iHead b0 + 0) l (block b0)) as Hb' by by rewrite Hb, Z.add_0_r.
      rewrite (view_store b0 b' 0 l) by (simpl; done || lia).
      rewrite !sub_nil. simpl. f_equal. rewrite Z.sub_0_r, sub_all by (rewrite view_length; done || lia).
      unfold view. change (block b0) with (block b). f_equal; lia. }
  all: rewrite u64_small by sizes.
  all: eapply post_bind; [apply Grow_spec; sizes || done|].
  all: intros b1 (Hwf1 & Hv1 & Hs1 & Hr1); pose proof Hwf1 as Hwf1'; dest_wf Hwf1'.
  all: rewrite <- Hv1, <- Hs1; apply insert_shift; try done; lia.
Qed.

Lemma Insert_lemma off s b l :
  wf b -> 0 <= off <= m_iSize b -> src_cells s b l ->
  post (Insert ndebug grants off s b)
    (fun r => wf (fst r) /\ snd r = lenZ l /\
       view (fst r) = sub 0 off (view b) ++ l ++ sub off (m_iSize b - off) (view b))
    (fun e => e = BadAlloc).
Proof.
  intros Hwf Hoff Hs. destruct (src_cells_fetch s b l Hwf Hs) as (Hf & Hlen & Hmax).
  dest_wf Hwf. unfold Insert. destruct (Z.leb_spec (m_iSize b) off).
  { replace off with (m_iSize b) by lia. rewrite Z.eqb_refl. cbn [assert orb rbind].
    eapply post_mono; [by apply Append_lemma | | done].
    intros r (? & Hv & ?). split_and!; try done.
    rewrite Hv, Z.sub_diag, sub_nil, app_nil_r, sub_all; [done|]. rewrite view_length; done || lia. }
  destruct (Z.eqb_spec (src_len s) 0) as [E|E].
  { rewrite Hlen in E. pose proof (lenZ_0 l E) as ->. simpl. split_and!; [done..|].
    rewrite <- (sub_split 0) by lia. rewrite sub_all; [done|]. rewrite view_length; done || lia. }
  rewrite (src_cells_nonnull s b l), u64_small by (done || sizes). cbn [rbind].
  destruct (Z.ltb_spec (SIZE_MAX - m_iSize b) (src_len s)); [done|].
  rewrite Hf. cbn [rbind].
  assert (post (let! b' := insert_ext grants off l b in Ok (b', lenZ l))
    (fun r => wf (fst r) /\ snd r = lenZ l /\
       view (fst r) = sub 0 off (view b) ++ l ++ sub off (m_iSize b - off) (view b))
    (fun e => e = BadAlloc)) as Hext.
  { eapply post_bind; [apply insert_ext_spec; done || lia|]. intros b' [? ?]. by simpl. }
  destruct (Overlaps s b); [|done].
  by apply (detour_spec l (fun l => let! b' := insert_ext grants off l b in Ok (b', lenZ l))).
Qed.

Lemma Erase_lemma off len b :
  wf b -> 0 <= off <= m_iSize b -> 0 <= len ->
  post (Erase off len b)
    (fun r => wf (fst r) /\ snd r = Z.min len (m_iSize b - off) /\
       view (fst r) = sub 0 off (view b) ++
                      sub (off + snd r) (m_iSize b - off - snd r) (view b))
    (fun e => False).
Proof.
  intros Hwf Hoff Hlen. dest_wf Hwf. pose proof (view_length b Hwf) as Hv. unfold Erase.
  destruct (Z.ltb_spec (m_iSize b) off); [lia|].
  set (n := if m_iSize b - off <? len then _ else _).
  assert (n = Z.min len (m_iSize b - off)) as Hn
    by (unfold n; destruct (Z.ltb_spec (m_iSize b - off) len); lia).
  clearbody n. rewrite <- Hn. destruct (Z.eqb_spec n 0) as [->|].
  { simpl. split_and!; [done..|]. rewrite Z.add_0_r, Z.sub_0_r.
    rewrite <- (sub_split 0) by lia. rewrite sub_all; [done|lia]. }
  destruct (Z.eqb_spec off 0) as [->|].
  - cbn [post fst snd]. split_and!; [|done|].
    + split; cbn [m_pMemory m_iCapacity m_iHead m_iSize]; try lia; try done.
      all: destruct (Z.eqb_spec (m_iSize b - n) 0); lia.
    + rewrite sub_nil, Z.add_0_l, Z.sub_0_r; cbn [app].
      unfold view; cbn [m_iHead m_iSize]. change (block (mkBytes _ _ _ _)) with (block b).
      destruct (Z.eqb_spec (m_iSize b - n) 0) as [->|]; [by rewrite !sub_nil|].
      rewrite sub_sub by lia. done.
  - rewrite load_ok by lia. cbn [rbind].
    set (t := sub _ _ (block b)).
    assert (lenZ t = m_iSize b - off - n) as Ht by (apply lenZ_sub; lia).
    destruct (store_ok (m_iHead b + off) t b) as (b' & -> & Hb & Hc & Hh & Hsz & Hnl); [lia..|].
    cbn [rbind post fst snd]. rewrite Hh, Hsz. split_and!; [|done|].
    + eapply wf_update; eauto; try lia. rewrite Hb, lenZ_splice; lia.
    + unfold view at 1; cbn [m_iHead m_iSize]. unfold block at 1; cbn [m_pMemory]; fold (block b').
      rewrite (view_store b b' off t) by (done || lia).
      replace (m_iSize b - n - off - lenZ t) with 0 by lia. rewrite sub_nil, app_nil_r.
      f_equal. unfold t, view. rewrite sub_sub by lia. f_equal; lia.
Qed.

(** An offset beyond the valid cells erases nothing. *)
Lemma Erase_beyond off len b : m_iSize b < off -> Erase off len b = Ok (b, 0).
Proof. intros. unfold Erase. destruct (Z.ltb_spec (m_iSize b) off); [done|lia]. Qed.

Lemma Replace_lemma off l b :
  wf b -> 0 <= off -> off + lenZ l <= m_iSize b ->
  post (Replace ndebug off l b)
    (fun r => wf (fst r) /\ snd r = lenZ l /\ view (fst r) = splice off l (view b))
    (fun e => False).
Proof.
  intros Hwf Hoff Hlen. dest_wf Hwf. pose proof (view_length b Hwf) as Hv.
  pose proof (lenZ_nonneg l). unfold Replace.
  destruct (Z.ltb_spec (m_iSize b) off); [lia|].
  destruct (Z.ltb_spec (m_iSize b - off) (lenZ l)); [lia|]. cbn [orb].
  assert (forall v : list cell, lenZ v = m_iSize b ->
    splice off l v = sub 0 off v ++ l ++ sub (off + lenZ l) (m_iSize b - off - lenZ l) v) as Hsp.
  { intros v Hv'. unfold splice, sub. rewrite Z2Nat.inj_0, drop_0. do 2 f_equal.
    rewrite take_ge by len_tac. f_equal. len_tac. }
  destruct (Z.eqb_spec (lenZ l) 0) as [E|E].
  { apply lenZ_0 in E as ->. simpl. split_and!; [done..|].
    unfold splice. simpl. by rewrite Nat.add_0_r, take_drop. }
  destruct (store_ok (m_iHead b + off) l b) as (b' & -> & Hb & Hc & Hh & Hsz & Hnl); [lia..|].
  cbn [rbind post fst snd]. split_and!; [|done|].
  - apply (wf_same b); auto. rewrite Hb, lenZ_splice; lia.
  - unfold view at 1. rewrite Hh, Hsz, (view_store b b' off l) by (done || lia).
    rewrite Hsp by done. do 2 f_equal. unfold view. rewrite sub_sub by lia. f_equal; lia.
Qed.

Lemma Reserve_lemma n b :
  wf b -> 0 <= n <= PTRDIFF_MAX ->
  post (Reserve grants n b)
    (fun r => wf (fst r) /\ view (fst r) = take (Z.to_nat n) (view b) /\
       n <= snd r /\ snd r = Capacity (fst r))
    (fun e => e = BadAlloc).
Proof.
  intros Hwf Hn. unfold Reserve.
  eapply post_bind; [apply Grow_spec; try done; try lia; dest_wf Hwf; sizes|].
  intros b1 (Hwf1 & Hv1 & Hs1 & Hr1). pose proof Hwf1 as Hwf1'. dest_wf Hwf1'.
  cbn [post fst snd]. unfold Capacity; cbn [m_iCapacity m_iHead].
  set (size := if n <? m_iSize b1 then n else m_iSize b1).
  assert (size = Z.min n (m_iSize b1)) as Hsize1
    by (unfold size; destruct (Z.ltb_spec n (m_iSize b1)); lia).
  clearbody size. set (head := if size =? 0 then 0 else m_iHead b1).
  assert (0 <= head <= m_iHead b1 /\ (size <> 0 -> head = m_iHead b1)) as [Hh0 Hh1]
    by (unfold head; destruct (Z.eqb_spec size 0); lia).
  clearbody head. split_and!; [| |rewrite u64_small; sizes|done].
  - split; cbn [m_pMemory m_iCapacity m_iHead m_iSize]; try lia; try done.
  - rewrite <- Hv1. unfold view; cbn [m_iHead m_iSize].
    change (block (mkBytes _ _ _ _)) with (block b1).
    destruct (decide (size = 0)) as [->|].
    + rewrite sub_nil. unfold sub. rewrite take_take.
      destruct (decide (n = 0)) as [->|]; [done|].
      replace (m_iSize b1) with 0 by lia. by rewrite Nat.min_0_r.
    + rewrite Hh1 by done. unfold sub. rewrite take_take. f_equal. lia.
Qed.

(** After a caller has filled the reserved room, Commit exposes what it wrote. *)
Lemma write_commit_lemma l b :
  wf b -> m_iSize b + lenZ l <= Capacity b ->
  post (let! b := write_at (m_iSize b) l b in Commit (lenZ l) b)
    (fun b' => wf b' /\ view b' = view b ++ l) (fun e => False).
Proof.
  intros Hwf Hl. dest_wf Hwf. pose proof (lenZ_nonneg l).
  unfold Capacity in Hl. rewrite u64_small in Hl by sizes. unfold write_at.
  destruct (store_ok (m_iHead b + m_iSize b) l b) as (b' & -> & Hb & Hc & Hh & Hsz & Hnl); [lia..|].
  cbn [rbind]. unfold Commit, Capacity. rewrite Hc, Hh, Hsz.
  rewrite (u64_small (m_iCapacity b - m_iHead b)), !u64_small by sizes.
  destruct (Z.ltb_spec (m_iCapacity b - m_iHead b - m_iSize b) (lenZ l)); [lia|].
  cbn [post]. split.
  - rewrite <- Hc. eapply (wf_update b); eauto; try lia. rewrite Hb, lenZ_splice; lia.
  - unfold view at 1; cbn [m_iHead m_iSize]. unfold block at 1; cbn [m_pMemory]; fold (block b').
    rewrite (view_store b b' (m_iSize b) l) by (done || lia).
    rewrite sub_all by (rewrite view_length; done || lia).
    replace (_ - _ - _) with 0 by lia. by rewrite sub_nil, app_nil_r.
Qed.

Lemma assign_lemma b other :
  wf b -> wf other ->
  post (assign grants b other) (fun b' => wf b' /\ view b' = view other) (fun e => e = BadAlloc).
Proof.
  intros Hb Ho. pose proof (view_length other Ho) as Hv.
  assert (wf (Clear b)) as Hc by (dest_wf Hb; split; simpl; try lia; done).
  pose proof (wf_fits other Ho). pose proof (wf_cap other Ho). pose proof (wf_head other Ho).
  pose proof (append_ext_spec (view other) (Clear b) Hc ltac:(sizes)) as HA.
  unfold assign. fold (Clear b). destruct (Z.ltb_spec 0 (m_iSize other)).
  - unfold append_ext in HA. change (m_iSize (Clear b)) with 0 in HA.
    rewrite Z.add_0_l, u64_small, Hv in HA by sizes.
    pose proof (Grow_spec (m_iSize other) (Clear b) Hc ltac:(lia) ltac:(simpl; sizes)) as HG.
    destruct (Grow _ _ _) as [b1|]; [|done]. cbn [rbind] in *.
    destruct HG as (_ & _ & Hs & _). rewrite load_view by done. cbn [rbind].
    rewrite Hs in HA. change (m_iSize (Clear b)) with 0 in HA. rewrite Z.add_0_r in HA.
    destruct (store _ _ _) as [b2|] eqn:ES; [|done]. cbn [rbind post] in *.
    assert (m_iSize b2 = 0) as Hs2
      by (unfold store in ES; destruct (_ && _); [injection ES as <-; exact Hs | done]).
    rewrite Hs2, Z.add_0_l, u64_small in HA by sizes.
    destruct HA as [? ->]. done.
  - simpl. split; [done|]. by rewrite (lenZ_0 (view other)) by (pose proof (wf_size other Ho); lia).
Qed.

(** ** Whole programs over the buffer *)

(** The operations a user of the buffer composes. *)
Inductive op : Type :=
| OpAppend (l : list byte)
| OpAppendSelf
| OpInsert (off : Z) (l : list byte)
| OpErase (off len : Z)
| OpReplace (off : Z) (l : list byte)
| OpReserve (n : Z)
| OpFill (n : Z) (l : list byte)     (* Reserve(Size()+n), write, Commit(len) *)
| OpClear
| OpReassign (l : list byte).        (* *this = Bytes(l) *)

Definition run_op (o : op) (b : Bytes) : result Bytes :=
  match o with
  | OpAppend l => let! r := Append ndebug grants (SrcExt (cells l)) b in Ok (fst r)
  | OpAppendSelf => let! r := AppendSelf ndebug grants b in Ok (fst r)
  | OpInsert off l => let! r := Insert ndebug grants off (SrcExt (cells l)) b in Ok (fst r)
  | OpErase off len => let! r := Erase off len b in Ok (fst r)
  | OpReplace off l => let! r := Replace ndebug off (cells l) b in Ok (fst r)
  | OpReserve n => let! r := Reserve grants n b in Ok (fst r)
  | OpFill n l =>
      let! r := Reserve grants (m_iSize b + n) b in
      let! b := write_at (m_iSize (fst r)) (cells l) (fst r) in
      Commit (lenZ l) b
  | OpClear => Ok (Clear b)
  | OpReassign l => let! c := of_data grants (cells l) in assign grants b c
  end.

Fixpoint run_ops (os : list op) (b : Bytes) : result Bytes :=
  match os with
  | [] => Ok b
  | o :: os => let! b := run_op o b in run_ops os b
  end.

(** The same operations on the byte string the buffer stands for. *)
Definition spec_op (o : op) (v : list byte) : list byte :=
  match o with
  | OpAppend l => v ++ l
  | OpAppendSelf => v ++ v
  | OpInsert off l => take (Z.to_nat off) v ++ l ++ drop (Z.to_nat off) v
  | OpErase off len => take (Z.to_nat off) v ++ drop (Z.to_nat (off + len)) v
  | OpReplace off l => splice off l v
  | OpReserve n => take (Z.to_nat n) v
  | OpFill _ l => v ++ l
  | OpClear => []
  | OpReassign l => l
  end.

(** What each operation asks of its caller. *)
Definition op_ok (o : op) (v : list byte) : Prop :=
  match o with
  | OpAppend l | OpReassign l => lenZ l <= PTRDIFF_MAX
  | OpAppendSelf | OpClear => True
  | OpInsert off l => 0 <= off <= lenZ v /\ lenZ l <= PTRDIFF_MAX
  | OpErase off len => 0 <= off <= lenZ v /\ 0 <= len
  | OpReplace off l => 0 <= off /\ off + lenZ l <= lenZ v
  | OpReserve n => 0 <= n <= PTRDIFF_MAX
  | OpFill n l => lenZ l <= n /\ lenZ v + n <= PTRDIFF_MAX
  end.

Fixpoint ops_ok (os : list op) (v : list byte) : Prop :=
  match os with
  | [] => True
  | o :: os => op_ok o v /\ ops_ok os (spec_op o v)
  end.

(** The buffer stands for the byte string [v]. *)
Definition repr (b : Bytes) (v : list byte) : Prop := wf b /\ view b = cells v.

Lemma lenZ_cells l : lenZ (cells l) = lenZ l.
Proof. apply lenZ_map. Qed.

Lemma length_cells l : length (cells l) = length l.
Proof. apply length_map. Qed.
Lemma take_cells n l : take n (cells l) = cells (take n l).
Proof. unfold cells. by rewrite firstn_map. Qed.
Lemma drop_cells n l : drop n (cells l) = cells (drop n l).
Proof. unfold cells. by rewrite skipn_map. Qed.

Lemma repr_size b v : repr b v -> m_iSize b = lenZ v.
Proof. intros [Hw Hv]. by rewrite <- (view_length b Hw), Hv, lenZ_cells. Qed.

Lemma cells_app l k : cells (l ++ k) = cells l ++ cells k.
Proof. apply map_app. Qed.

Lemma src_ext l b : lenZ l <= PTRDIFF_MAX -> src_cells (SrcExt (cells l)) b (cells l).
Proof. intros. split; [done|]. by rewrite lenZ_cells. Qed.

(** [fst_post] turns a lemma about (buffer, count) into one about the buffer. *)
Lemma fst_post {A B} (m : result (A * B)) Q E :
  post m (fun r => Q (fst r)) E -> post (let! r := m in Ok (fst r)) Q E.
Proof. by destruct m. Qed.

Lemma sub_to_end {A} off (l : list A) :
  0 <= off <= lenZ l -> sub off (lenZ l - off) l = drop (Z.to_nat off) l.
Proof. intros. unfold sub. apply take_ge. len_tac. Qed.

Lemma sub_from_start {A} n (l : list A) : sub 0 n l = take (Z.to_nat n) l.
Proof. done. Qed.

(** One operation of the buffer does to [view] what [spec_op] does to the list. *)
Lemma run_op_refines o b v :
  repr b v -> op_ok o v ->
  post (run_op o b) (fun b' => repr b' (spec_op o v)) (fun e => e = BadAlloc).
Proof.
  intros [Hwf Hv] Hok. pose proof (repr_size b v (conj Hwf Hv)) as Hsz. unfold repr.
  destruct o as [l| |off l|off len|off l|n|n l| |l]; cbn [run_op spec_op op_ok] in *.
  - apply fst_post. eapply post_mono; [apply (Append_lemma _ b (cells l)); [done | by apply src_ext] | | done].
    intros r (? & -> & _). by rewrite Hv, cells_app.
  - apply fst_post. pose proof Hwf as Hwf'. dest_wf Hwf'.
    eapply post_mono; [apply (Append_lemma _ b (view b)); try done | | done].
    + simpl. split_and!; try done; lia.
    + intros r (? & -> & _). by rewrite Hv, cells_app.
  - apply fst_post. destruct Hok.
    eapply post_mono; [apply (Insert_lemma off _ b (cells l)); [done | lia | by apply src_ext] | | done].
    intros r (? & _ & ->). rewrite Hv, Hsz, sub_from_start.
    rewrite <- (lenZ_cells v), sub_to_end by (rewrite lenZ_cells; lia).
    by rewrite !cells_app, take_cells, drop_cells.
  - apply fst_post. destruct Hok.
    eapply post_mono; [apply (Erase_lemma off len b); try done; lia | | done].
    intros r (? & -> & ->). rewrite Hv, Hsz, sub_from_start.
    rewrite cells_app, <- take_cells, <- drop_cells.
    split; [done|]. f_equal.
    replace (lenZ v - off - _) with (lenZ (cells v) - (off + len `min` (lenZ v - off))) by (rewrite lenZ_cells; lia).
    rewrite sub_to_end by (rewrite lenZ_cells; lia).
    destruct (Z.min_spec len (lenZ v - off)) as [[? ->]|[? ->]]; [done|].
    rewrite !drop_ge; [done|..]; pose proof (lenZ_cells v); len_tac.
  - apply fst_post. destruct Hok.
    eapply post_mono; [apply (Replace_lemma off (cells l) b); try done; rewrite lenZ_cells; lia | | done].
    intros r (? & _ & ->). rewrite Hv. split; [done|]. unfold splice.
    rewrite !cells_app, take_cells, drop_cells. by rewrite length_cells.
  - apply fst_post. eapply post_mono; [apply (Reserve_lemma n b); done | | done].
    intros r (? & -> & _). rewrite Hv. by rewrite take_cells.
  - destruct Hok as [? Hsum]. pose proof (lenZ_nonneg l). pose proof (wf_size b Hwf).
    eapply post_bind; [apply (Reserve_lemma (m_iSize b + n) b); [done|lia]|].
    intros [b1 c] (Hwf1 & Hv1 & Hc & Hcap). cbn [fst snd] in *.
    rewrite take_ge in Hv1 by (pose proof (view_length b Hwf); len_tac).
    assert (m_iSize b1 = m_iSize b) as Hs1
      by (rewrite <- (view_length b1 Hwf1), <- (view_length b Hwf); by rewrite Hv1).
    pose proof (write_commit_lemma (cells l) b1 Hwf1) as HW. rewrite !lenZ_cells in HW.
    eapply post_mono; [apply HW | | done].
    + rewrite <- Hcap. lia.
    + intros b2 (? & ->). by rewrite Hv1, Hv, cells_app.
  - split; [|done]. dest_wf Hwf. split; simpl; try lia; done.
  - eapply post_bind; [apply (of_data_spec (cells l)); by rewrite lenZ_cells|].
    intros c [Hc Hvc]. eapply post_mono; [by apply (assign_lemma b c) | | done].
    intros b' [? ->]. by rewrite Hvc.
Qed.

Lemma run_ops_lemma os b v :
  repr b v -> ops_ok os v ->
  post (run_ops os b) (fun b' => repr b' (foldl (fun v o => spec_op o v) v os))
    (fun e => e = BadAlloc).
Proof.
  revert b v; induction os as [|o os IH]; intros b v Hr Hok; [done|].
  destruct Hok as [Ho Hos]. cbn [run_ops foldl].
  eapply post_bind; [by apply run_op_refines|]. intros b' Hb'. by apply IH.
Qed.

End Spec.

(** ** Growth: success and amortisation *)

Lemma grow_capacity_bound fuel need cap :
  0 < cap -> cap <= 2 ^ 62 -> need <= 2 ^ 62 -> 2 ^ 62 < cap * 2 ^ Z.of_nat fuel ->
  exists c, grow_capacity fuel need cap = Ok c /\ need <= c /\ c <= 2 * Z.max cap need.
Proof.
  revert cap; induction fuel as [|fuel IH]; intros cap H0 Hc Hn Hf; [simpl in *; lia|].
  cbn [grow_capacity]. change (SIZE_MAX / 2) with PTRDIFF_MAX.
  destruct (Z.ltb_spec PTRDIFF_MAX cap) as [|]; [sizes|].
  rewrite u64_small by lia. destruct (Z.ltb_spec (cap * 2) need) as [Hlt|].
  - rewrite Nat2Z.inj_succ, Z.pow_succ_r in Hf by lia.
    destruct (IH (cap * 2)) as (c & -> & ? & ?); [lia..|]. exists c. split_and!; [done|lia..].
  - eexists. split_and!; [done|lia..].
Qed.

(** Grow succeeds when the allocator grants what malloc may grant, and the block
    it leaves is at most twice what was there or was asked for. *)
Lemma Grow_succeeds grants need b :
  (forall n, n <= PTRDIFF_MAX -> grants n = true) ->
  wf b -> 0 <= need <= 2 ^ 61 -> m_iCapacity b <= 2 ^ 61 ->
  exists b', Grow grants need b = Ok b' /\
    m_iCapacity b' <= Z.max 64 (2 * Z.max (m_iCapacity b) need).
Proof.
  intros Hg Hwf Hn Hc. pose proof Hwf as Hwf'. dest_wf Hwf'. unfold Grow.
  rewrite u64_small by sizes.
  destruct (Z.leb_spec (m_iHead b + need) (m_iCapacity b)); [eexists; split; [done|lia]|].
  set (c0 := if m_iCapacity b =? 0 then 32 else m_iCapacity b).
  assert (0 < c0 /\ c0 <= Z.max 32 (m_iCapacity b)) as [Hc0 Hc1]
    by (unfold c0; destruct (Z.eqb_spec (m_iCapacity b) 0); lia). clearbody c0.
  assert (exists b', (let! iCapacity := grow_capacity 65 need c0 in
      let! pMem := malloc grants iCapacity in
      let! l := load (m_iHead b) (m_iSize b) b in
      Ok (mkBytes (Some (splice 0 l pMem)) iCapacity 0 (m_iSize b))) = Ok b' /\
      m_iCapacity b' <= Z.max 64 (2 * Z.max (m_iCapacity b) need)) as Hre.
  { destruct (grow_capacity_bound 65 need c0) as (c & -> & ? & ?); [lia..| |].
    { change (2 ^ Z.of_nat 65) with (2 ^ 65). lia. }
    cbn [rbind]. unfold malloc. rewrite Hg by sizes. cbn [rbind]. rewrite load_view by done.
    cbn [rbind]. eexists. split; [done|]. simpl. lia. }
  destruct (Z.leb_spec need (m_iCapacity b)), (Z.leb_spec (m_iSize b) (m_iHead b));
    cbn [andb]; [|exact Hre..].
  pose proof (view_length b Hwf) as Hv. destruct (Z.ltb_spec 0 (m_iSize b)).
  - rewrite load_view by done. cbn [rbind].
    destruct (store_ok 0 (view b) b) as (b' & -> & _ & Hcap' & _); [lia | rewrite Hv, Hblock; lia|].
    cbn [rbind]. eexists. split; [done|]. simpl. lia.
  - eexists. split; [done|]. simpl. lia.
Qed.

(** ** Properties *)

(** C9: programs over the buffer implement the same programs over byte
    strings.  Whatever sequence of appends (of outside data or of the buffer
    itself), insertions, erasures, replacements, reservations, direct fills,
    clears and assignments is run on a well-formed buffer standing for the byte
    string [v], the buffer ends well formed and stands for the result of the
    list operations; the only other outcome is std::bad_alloc, never an access
    outside the block. *)
Theorem buffer_refines_list ndebug grants os b v :
  (forall n, grants n = true -> n <= PTRDIFF_MAX) ->
  repr b v -> ops_ok os v ->
  post (run_ops ndebug grants os b)
    (fun b' => repr b' (foldl (fun v o => spec_op o v) v os))
    (fun e => e = BadAlloc).
Proof. intros. by apply run_ops_lemma. Qed.

(** Append is correct for every source pointer, in particular one into
    the buffer's own block that Grow would free: the source cells, as they were
    at the call, end up after the old contents. *)
Theorem Append_any_source ndebug grants s b l :
  (forall n, grants n = true -> n <= PTRDIFF_MAX) ->
  wf b -> src_cells s b l ->
  post (Append ndebug grants s b)
    (fun r => wf (fst r) /\ view (fst r) = view b ++ l /\ snd r = lenZ l)
    (fun e => e = BadAlloc).
Proof. intros. by apply Append_lemma. Qed.

(** Appending to a buffer of at most 2^61 cells succeeds whenever the
    allocator grants what malloc may grant (it never fails for a reason of its
    own), and the capacity stays within twice the larger of the old capacity and
    the new size, or 64. *)
Theorem Append_succeeds ndebug grants b l :
  (forall n, n <= PTRDIFF_MAX <-> grants n = true) ->
  wf b -> m_iCapacity b <= 2 ^ 61 -> m_iSize b + lenZ l <= 2 ^ 61 ->
  exists b', Append ndebug grants (SrcExt l) b = Ok (b', lenZ l) /\
    view b' = view b ++ l /\
    m_iCapacity b' <= Z.max 64 (2 * Z.max (m_iCapacity b) (m_iSize b + lenZ l)).
Proof.
  intros Hg Hwf Hc Hl. pose proof Hwf as Hwf'. dest_wf Hwf'. pose proof (lenZ_nonneg l).
  pose proof (Append_lemma ndebug grants (fun n => proj2 (Hg n)) (SrcExt l) b l Hwf) as HA.
  assert (src_cells (SrcExt l) b l) as Hs by (split; [done|sizes]).
  specialize (HA Hs). unfold Append in *. cbn [src_len src_nonnull fetch Overlaps rbind] in *.
  destruct (Z.eqb_spec (lenZ l) 0) as [E|E].
  { cbn in HA. exists b. rewrite E. split_and!; [done|by apply HA|lia]. }
  change (assert ndebug true) with (Ok tt) in *. cbn [rbind] in *.
  rewrite u64_small in * by sizes.
  destruct (Z.ltb_spec (SIZE_MAX - m_iSize b) (lenZ l)); [sizes|].
  unfold append_ext in *. rewrite u64_small in * by sizes.
  destruct (Grow_succeeds grants (m_iSize b + lenZ l) b) as (b1 & EG & Hb1);
    [intros; by apply Hg | done | lia | done |].
  pose proof (Grow_spec grants (fun n => proj2 (Hg n)) (m_iSize b + lenZ l) b Hwf ltac:(lia) ltac:(sizes)) as HG.
  rewrite EG in *. cbn [rbind post] in *. destruct HG as (Hw1 & _ & Hs1 & Hr1).
  pose proof Hw1 as Hw1'. dest_wf Hw1'.
  destruct (store_ok (m_iHead b1 + m_iSize b1) l b1) as (b2 & ES & _ & Hc2 & _); [lia..|].
  rewrite ES in *. cbn [rbind post fst snd] in *. destruct HA as (_ & HA & _).
  eexists. split_and!; [done | done | simpl; lia].
Qed.

(** ** Witnesses *)

Definition grant_all (n : Z) : bool := n <=? PTRDIFF_MAX.

Lemma grant_all_iff n : n <= PTRDIFF_MAX <-> grant_all n = true.
Proof. symmetry. apply Z.leb_le. Qed.

Lemma repr_empty : repr empty [].
Proof. split; [apply wf_empty | done]. Qed.

(** A program that appends, aliases itself, erases from the front (so the head
    moves), inserts in front, fills directly and assigns. *)
Definition demo : list op :=
  [OpAppend (txt "hello"); OpAppendSelf; OpErase 0 3; OpInsert 0 (txt "ab"); OpReplace 1 (txt "Z");
   OpErase 2 2; OpFill 40 (txt "tail"); OpInsert 3 (txt "mid")].

Lemma demo_result :
  (let! b := run_ops true grant_all demo empty in Ok (view b)) = Ok (cells (txt "aZhmidellotail")).
Proof. vm_compute. reflexivity. Qed.

Lemma buffer_refines_list_witness :
  post (run_ops true grant_all demo empty)
    (fun b' => repr b' (txt "aZhmidellotail")) (fun e => e = BadAlloc).
Proof.
  apply (buffer_refines_list true grant_all demo empty []).
  - intros n. apply grant_all_iff.
  - exact repr_empty.
  - vm_compute. repeat split; discriminate.
Defined.

(** The buffer after appending 32 bytes and erasing two: the head has moved. *)
Definition aliased : Bytes :=
  mkBytes (Some (cells (txt "0123456789") ++ replicate 22 None)) 32 2 8.

Lemma aliased_wf : wf aliased.
Proof. split; vm_compute; congruence. Qed.

(** Appending the last 4 cells of the block's own contents. *)
Lemma Append_any_source_witness :
  post (Append true grant_all (SrcOwn 6 4) aliased)
    (fun r => wf (fst r) /\ view (fst r) = view aliased ++ cells (txt "6789") /\ snd r = 4)
    (fun e => e = BadAlloc).
Proof.
  apply (Append_any_source true grant_all (SrcOwn 6 4) aliased (cells (txt "6789"))).
  - intros n. apply grant_all_iff.
  - exact aliased_wf.
  - vm_compute. repeat split; congruence.
Defined.

Lemma Append_succeeds_witness :
  exists b', Append true grant_all (SrcExt (cells (txt "xyz"))) aliased = Ok (b', 3) /\
    view b' = view aliased ++ cells (txt "xyz") /\ m_iCapacity b' <= 64.
Proof.
  apply (Append_succeeds true grant_all aliased (cells (txt "xyz"))).
  - exact grant_all_iff.
  - exact aliased_wf.
  - vm_compute. congruence.
  - vm_compute. congruence.
Defined.

End Bytes.
