(* ===== verification/BytesStream.v ===== *)
(** * OI::Base::BytesStream, the serialisation stream

    cbaselib/base/inc/oi_bytes_stream.h and src/oi_bytes_stream.cpp.  A stream
    is a Bytes with a read cursor; by [Bytes.buffer_refines_list] the buffer
    underneath may be taken to be the byte string it stands for, so a stream is
    that string, the cursor and the cursor StartTransaction saved.

    Two formats are modelled: the plain one of [operator<<]/[operator>>], and
    the tagged one of [WritePb]/[ReadPb], where a value of field [seq] is
    written as [seq], [size], payload.  The C++ overloads are values of the
    records [plain] and [pb]; the classes after them state what an overload has
    to guarantee, and each overload discharges them. *)

From Stdlib Require Import Sorted.
From S2P Require Import Prelude.

Module BytesStream.

Record stream : Type := mkStream {
  data : list byte;
  m_iCurrentPosition : Z;
  m_iSnapshotPosition : Z
}.

Definition empty_stream : stream := mkStream [] 0 0.
Definition of_bytes (l : list byte) : stream := mkStream l 0 0.
Definition Clear (s : stream) : stream := mkStream [] 0 0.

Definition Size (s : stream) : Z := lenZ (data s).
Definition RemainSize (s : stream) : Z := u64 (Size s - m_iCurrentPosition s).
Definition AddCurPos (n : Z) (s : stream) : stream :=
  mkStream (data s) (u64 (m_iCurrentPosition s + n)) (m_iSnapshotPosition s).
Definition StartTransaction (s : stream) : stream :=
  mkStream (data s) (m_iCurrentPosition s) (m_iCurrentPosition s).
Definition RollBack (s : stream) : stream :=
  mkStream (data s) (m_iSnapshotPosition s) (m_iSnapshotPosition s).

(** Bytes::Append on the underlying buffer. *)
Definition Append (l : list byte) (s : stream) : stream :=
  mkStream (data s ++ l) (m_iCurrentPosition s) (m_iSnapshotPosition s).

(** Reading [n] bytes [off] past the cursor, as memcpy from GetCurPtr() does;
    past the valid bytes it is undefined. *)
Definition peek_at (off n : Z) (s : stream) : result (list byte) :=
  if (0 <=? m_iCurrentPosition s) && (m_iCurrentPosition s + off + n <=? Size s) then
    Ok (sub (m_iCurrentPosition s + off) n (data s))
  else Err Undefined.

Definition peek (n : Z) (s : stream) : result (list byte) := peek_at 0 n s.

(** The payload a sub-stream is built from: nothing is copied when it is empty. *)
Definition payload (n : Z) (s : stream) : result (list byte) :=
  if 0 <? n then peek n s else Ok [].

(** ** Arithmetic types: PbFixedTrait *)

(** [fx_put] is the object representation memcpy copies, [fx_get] its inverse;
    only bool rejects some representations. *)
Record fixed (T : Type) : Type := mkFixed {
  fx_size : Z;
  fx_put : T -> list byte;
  fx_get : list byte -> result T
}.
Arguments mkFixed {T}. Arguments fx_size {T}. Arguments fx_put {T}. Arguments fx_get {T}.

Definition int_fixed (bytes : nat) (signed : bool) : fixed Z :=
  mkFixed (Z.of_nat bytes) (le_encode bytes)
    (fun l => Ok (if signed then wrap_s (8 * Z.of_nat bytes) (le_decode l) else le_decode l)).

Definition fx_int8 := int_fixed 1 true.
Definition fx_int16 := int_fixed 2 true.
Definition fx_int32 := int_fixed 4 true.
Definition fx_int64 := int_fixed 8 true.
Definition fx_uint8 := int_fixed 1 false.
Definition fx_uint16 := int_fixed 2 false.
Definition fx_uint32 := int_fixed 4 false.
Definition fx_uint64 := int_fixed 8 false.

Definition fx_bool : fixed bool :=
  mkFixed 1 (fun b : bool => [if b then Byte.x01 else Byte.x00])
    (fun l => let iValue := le_decode l in
              if 1 <? iValue then Err ParserException else Ok (negb (iValue =? 0))).

(** ** The plain format *)

Definition put_fixed {T} (f : fixed T) (v : T) (s : stream) : result stream :=
  Ok (Append (fx_put f v) s).

Definition get_fixed {T} (f : fixed T) (s : stream) : result (T * stream) :=
  if RemainSize s <? fx_size f then Err ParserException
  else
    let! l := peek (fx_size f) s in
    let! v := fx_get f l in
    Ok (v, AddCurPos (fx_size f) s).

Definition WriteLenPrefixed (l : list byte) (s : stream) : result stream :=
  if 0x7FFFFFFF <? lenZ l then Err ParserException
  else
    let! s := put_fixed fx_int32 (lenZ l) s in
    Ok (if 0 <? lenZ l then Append l s else s).

Definition ReadLenPrefix (s : stream) : result (Z * stream) :=
  let! (iSize, s) := get_fixed fx_int32 s in
  if (iSize <? 0) || (RemainSize s <? iSize) then Err ParserException else Ok (iSize, s).

(** operator<< and operator>> for std::string and for Bytes. *)
Definition put_string (v : list byte) (s : stream) : result stream := WriteLenPrefixed v s.

Definition get_string (s : stream) : result (list byte * stream) :=
  let! (iSize, s) := ReadLenPrefix s in
  let! l := peek iSize s in
  Ok (l, AddCurPos iSize s).

(** operator<<(const BytesStream&): the content itself, no prefix. *)
Definition put_stream (v : stream) (s : stream) : result stream := Ok (Append (data v) s).

(** An overload pair of the plain format. [pl_min] is the least number of
    bytes an element is assumed to take ([iMinElem]). *)
Record plain (T : Type) : Type := mkPlain {
  pl_min : Z;
  pl_put : T -> stream -> result stream;
  pl_get : T -> stream -> result (T * stream)
}.
Arguments mkPlain {T}. Arguments pl_min {T}. Arguments pl_put {T}. Arguments pl_get {T}.

Definition plain_fixed {T} (f : fixed T) : plain T :=
  mkPlain (fx_size f) (put_fixed f) (fun _ => get_fixed f).
Definition plain_string : plain (list byte) := mkPlain 1 put_string (fun _ => get_string).

Fixpoint put_all {T} (c : plain T) (vs : list T) (s : stream) : result stream :=
  match vs with
  | [] => Ok s
  | v :: vs => let! s := pl_put c v s in put_all c vs s
  end.

(** Reads each element of the resized vector in place. *)
Fixpoint get_all {T} (c : plain T) (olds : list T) (s : stream) : result (list T * stream) :=
  match olds with
  | [] => Ok ([], s)
  | o :: olds =>
      let! (v, s) := pl_get c o s in
      let! (vs, s) := get_all c olds s in
      Ok (v :: vs, s)
  end.

(** std::vector::resize: keep a prefix, pad with value-initialised elements. *)
Definition resize {T} (n : Z) (d : T) (l : list T) : list T :=
  take (Z.to_nat n) l ++ replicate (Z.to_nat n - length l) d.

Definition put_vector {T} (c : plain T) (v : list T) (s : stream) : result stream :=
  let! s := put_fixed fx_uint32 (u32 (lenZ v)) s in
  put_all c v s.

Definition get_vector {T} (c : plain T) (d : T) (old : list T) (s : stream) : result (list T * stream) :=
  let! (iSize, s) := get_fixed fx_uint32 s in
  if RemainSize s / pl_min c <? iSize then Err ParserException
  else get_all c (resize iSize d old) s.

Definition plain_vector {T} (c : plain T) (d : T) : plain (list T) :=
  mkPlain 1 (put_vector c) (get_vector c d).

(** ** The tagged format *)

Inductive PbHeaderState : Type := PB_HEADER_OK | PB_HEADER_NEED_MORE | PB_HEADER_BAD.

#[export] Instance PbHeaderState_eq_dec : EqDecision PbHeaderState.
Proof. solve_decision. Defined.

(** WritePbRaw; [None] is a NULL data pointer. *)
Definition WritePbRaw (iSequence : Z) (pData : option (list byte)) (iSize : Z) (s : stream)
    : result stream :=
  if (s32 iSequence <? 0) || (s32 iSize <? 0) then Err ParserException
  else
    let s := Append (le_encode 4 iSequence) s in
    let s := Append (le_encode 4 iSize) s in
    if 0 <? iSize then
      match pData with
      | None => Err ParserException
      | Some l => if lenZ l <? iSize then Err Undefined else Ok (Append (sub 0 iSize l) s)
      end
    else Ok s.

(** PreparePbHeader with its two output arguments; only PB_HEADER_OK sets
    them and moves the cursor. *)
Definition PreparePbHeader (s : stream) : result (PbHeaderState * (Z * Z * stream)) :=
  if RemainSize s <? 8 then Ok (PB_HEADER_NEED_MORE, (0, 0, s))
  else
    let! l0 := peek_at 0 4 s in
    let! l1 := peek_at 4 4 s in
    let iSequenceValue := le_decode l0 in
    let iSizeValue := le_decode l1 in
    if (s32 iSequenceValue <? 0) || (s32 iSizeValue <? 0) then Ok (PB_HEADER_BAD, (0, 0, s))
    else if RemainSize s <? 8 + iSizeValue then Ok (PB_HEADER_NEED_MORE, (0, 0, s))
    else Ok (PB_HEADER_OK, (iSequenceValue, iSizeValue, AddCurPos 8 s)).

Definition ReadPbHeader (s : stream) : result (Z * Z * stream) :=
  let! (st, r) := PreparePbHeader s in
  match st with
  | PB_HEADER_OK => Ok r
  | _ => Err ParserException
  end.

Definition SkipPb (iSize : Z) (s : stream) : result stream :=
  if RemainSize s <? iSize then Err ParserException else Ok (AddCurPos iSize s).

(** An overload pair of the tagged format: WritePb for a field number, ReadPb
    for a payload size and the field's old value. *)
Record pb (T : Type) : Type := mkPb {
  WritePb : Z -> T -> stream -> result stream;
  ReadPb : Z -> T -> stream -> result (T * stream)
}.
Arguments mkPb {T}. Arguments WritePb {T}. Arguments ReadPb {T}.

Definition WritePb_fixed {T} (f : fixed T) (iSequence : Z) (v : T) (s : stream) : result stream :=
  WritePbRaw iSequence (Some (fx_put f v)) (u32 (fx_size f)) s.

Definition ReadPb_fixed {T} (f : fixed T) (iSize : Z) (_ : T) (s : stream) : result (T * stream) :=
  if negb (iSize =? u32 (fx_size f)) || (RemainSize s <? iSize) then Err ParserException
  else
    let! l := peek (fx_size f) s in
    let! v := fx_get f l in
    Ok (v, AddCurPos iSize s).

Definition pb_fixed {T} (f : fixed T) : pb T := mkPb (WritePb_fixed f) (ReadPb_fixed f).

(** std::string. *)
Definition WritePb_string (iSequence : Z) (v : list byte) (s : stream) : result stream :=
  if 0x7FFFFFFF <? lenZ v then Err ParserException
  else WritePbRaw iSequence (if lenZ v =? 0 then None else Some v) (u32 (lenZ v)) s.

Definition ReadPb_string (iSize : Z) (_ : list byte) (s : stream) : result (list byte * stream) :=
  if RemainSize s <? iSize then Err ParserException
  else
    let! l := payload iSize s in
    Ok (l, AddCurPos iSize s).

Definition pb_string : pb (list byte) := mkPb WritePb_string ReadPb_string.

(** Bytes, up to the buffer they live in (Bytes.v). *)
Definition WritePb_Bytes (iSequence : Z) (v : list byte) (s : stream) : result stream :=
  if 0x7FFFFFFF <? lenZ v then Err ParserException
  else
    let iSize := u32 (lenZ v) in
    WritePbRaw iSequence (if iSize =? 0 then None else Some v) iSize s.

Definition ReadPb_Bytes (iSize : Z) (_ : list byte) (s : stream) : result (list byte * stream) :=
  if RemainSize s <? iSize then Err ParserException
  else
    let! l := payload iSize s in
    Ok ([] ++ l, AddCurPos iSize s).

Definition pb_bytes : pb (list byte) := mkPb WritePb_Bytes ReadPb_Bytes.

(** An object deriving from OI::Rpc::Serialize. *)
Record Serialize (T : Type) : Type := mkSerialize {
  serialize : T -> stream -> result stream;
  deserialize : T -> stream -> result (T * stream)
}.
Arguments mkSerialize {T}. Arguments serialize {T}. Arguments deserialize {T}.

Definition WritePb_serialize {T} (o : Serialize T) (iSequence : Z) (v : T) (s : stream) : result stream :=
  let! stInner := serialize o v empty_stream in
  if 0x7FFFFFFF <? Size stInner then Err ParserException
  else
    let iSize := u32 (Size stInner) in
    WritePbRaw iSequence (if 0 <? iSize then Some (data stInner) else None) iSize s.

Definition ReadPb_serialize {T} (o : Serialize T) (iSize : Z) (old : T) (s : stream) : result (T * stream) :=
  if RemainSize s <? iSize then Err ParserException
  else
    let! l := payload iSize s in
    let! (v, stSub) := deserialize o old (of_bytes l) in
    if negb (RemainSize stSub =? 0) then Err ParserException
    else Ok (v, AddCurPos iSize s).

Definition pb_serialize {T} (o : Serialize T) : pb T := mkPb (WritePb_serialize o) (ReadPb_serialize o).

(** std::vector: one entry per element; reading an entry appends one element. *)
Fixpoint WritePb_vector {T} (c : pb T) (iSequence : Z) (vs : list T) (s : stream) : result stream :=
  match vs with
  | [] => Ok s
  | v :: vs => let! s := WritePb c iSequence v s in WritePb_vector c iSequence vs s
  end.

Definition ReadPb_vector {T} (c : pb T) (d : T) (iSize : Z) (old : list T) (s : stream) : result (list T * stream) :=
  let! (stElem, s) := ReadPb c iSize d s in
  Ok (old ++ [stElem], s).

Definition pb_vector {T} (c : pb T) (d : T) : pb (list T) := mkPb (WritePb_vector c) (ReadPb_vector c d).

(** The `while (RemainSize() > 0)` loop every deserialize is made of. Each
    round moves the cursor by at least a header, so the stream's own length is
    fuel enough ([pb_fields_total]). *)
Fixpoint pb_fields_fuel {A} (fuel : nat) (handle : Z -> Z -> A -> stream -> result (A * stream))
    (a : A) (s : stream) : result (A * stream) :=
  match fuel with
  | O => Err OutOfFuel
  | S fuel =>
      if RemainSize s =? 0 then Ok (a, s)
      else
        let! (seq, size, s) := ReadPbHeader s in
        let! (a, s) := handle seq size a s in
        pb_fields_fuel fuel handle a s
  end.

Definition pb_fields {A} (handle : Z -> Z -> A -> stream -> result (A * stream)) (a : A) (s : stream)
    : result (A * stream) :=
  pb_fields_fuel (S (length (data s))) handle a s.

(** std::map, kept as its sequence of pairs in key order. [insert] does not
    replace the value of a key that is present. *)
Fixpoint map_insert {K V} (cmp : K -> K -> comparison) (k : K) (v : V) (m : list (K * V)) : list (K * V) :=
  match m with
  | [] => [(k, v)]
  | (k', v') :: m' =>
      match cmp k k' with
      | Lt => (k, v) :: m
      | Eq => m
      | Gt => (k', v') :: map_insert cmp k v m'
      end
  end.

Definition WritePb_pair {K V} (ck : pb K) (cv : pb V) (kv : K * V) (stAll : stream) : result stream :=
  let! stPair := WritePb ck 0 (fst kv) empty_stream in
  let! stPair := WritePb cv 1 (snd kv) stPair in
  let iPairSize := u32 (Size stPair) in
  WritePbRaw 0 (if 0 <? iPairSize then Some (data stPair) else None) iPairSize stAll.

Fixpoint WritePb_pairs {K V} (ck : pb K) (cv : pb V) (m : list (K * V)) (stAll : stream) : result stream :=
  match m with
  | [] => Ok stAll
  | kv :: m => let! stAll := WritePb_pair ck cv kv stAll in WritePb_pairs ck cv m stAll
  end.

(** One pair of the map: the key and value seen so far. *)
Definition ReadPb_pair {K V} (ck : pb K) (cv : pb V) (dk : K) (dv : V) (stPair : stream)
    : result (K * V) :=
  let! (kv, _) := pb_fields
    (fun iFieldSequence iFieldSize (kv : (K * bool) * (V * bool)) stPair =>
       if iFieldSequence =? 0 then
         let! (k, stPair) := ReadPb ck iFieldSize (fst (fst kv)) stPair in
         Ok ((k, true, snd kv), stPair)
       else if iFieldSequence =? 1 then
         let! (v, stPair) := ReadPb cv iFieldSize (fst (snd kv)) stPair in
         Ok ((fst kv, (v, true)), stPair)
       else let! stPair := SkipPb iFieldSize stPair in Ok (kv, stPair))
    (dk, false, (dv, false)) stPair in
  if negb (snd (fst kv)) || negb (snd (snd kv)) then Err ParserException
  else Ok (fst (fst kv), fst (snd kv)).

Definition WritePb_map {K V} (ck : pb K) (cv : pb V) (iSequence : Z) (m : list (K * V)) (s : stream) : result stream :=
  let! stAll := WritePb_pairs ck cv m empty_stream in
  let iSize := u32 (Size stAll) in
  WritePbRaw iSequence (if 0 <? iSize then Some (data stAll) else None) iSize s.

Definition ReadPb_map {K V} (cmp : K -> K -> comparison) (ck : pb K) (cv : pb V) (dk : K) (dv : V)
    (iSize : Z) (_ : list (K * V)) (s : stream) : result (list (K * V) * stream) :=
  if RemainSize s <? iSize then Err ParserException
  else
    let! lAll := payload iSize s in
    let s := AddCurPos iSize s in
    let! (m, _) := pb_fields
      (fun _ iPairSize m stAll =>
         let! lPair := payload iPairSize stAll in
         let stAll := AddCurPos iPairSize stAll in
         let! kv := ReadPb_pair ck cv dk dv (of_bytes lPair) in
         Ok (map_insert cmp (fst kv) (snd kv) m, stAll))
      [] (of_bytes lAll) in
    Ok (m, s).

Definition pb_map {K V} (cmp : K -> K -> comparison) (ck : pb K) (cv : pb V) (dk : K) (dv : V)
    : pb (list (K * V)) := mkPb (WritePb_map ck cv) (ReadPb_map cmp ck cv dk dv).

(** ** Streams as what has been read and what is left *)

(** The stream whose cursor stands between [pre] and [rest]. *)
Definition cur (pre rest : list byte) (sn : Z) : stream := mkStream (pre ++ rest) (lenZ pre) sn.

(** A stream held in memory. *)
Abbreviation fits l := (lenZ l <= PTRDIFF_MAX).

Ltac fit :=
  repeat first
    [ progress rewrite ?lenZ_app, ?lenZ_cons, ?lenZ_nil in *
    | match goal with |- context [lenZ ?l] =>
        lazymatch goal with H : 0 <= lenZ l |- _ => fail | _ => pose proof (lenZ_nonneg l) end end
    | match goal with _ : context [lenZ ?l] |- _ =>
        lazymatch goal with H : 0 <= lenZ l |- _ => fail | _ => pose proof (lenZ_nonneg l) end end ];
  unfold PTRDIFF_MAX, INT32_MAX in *; lia.

Lemma of_bytes_cur l : of_bytes l = cur [] l 0.
Proof. done. Qed.

Lemma RemainSize_cur pre rest sn : fits (pre ++ rest) -> RemainSize (cur pre rest sn) = lenZ rest.
Proof.
  intros. unfold RemainSize, Size, cur; cbn [data m_iCurrentPosition].
  rewrite lenZ_app, u64_small; fit.
Qed.

Lemma peek_at_cur off n pre e1 e2 rest sn :
  lenZ e1 = off -> lenZ e2 = n ->
  peek_at off n (cur pre (e1 ++ e2 ++ rest) sn) = Ok e2.
Proof.
  intros <- <-. unfold peek_at, Size, cur; cbn [data m_iCurrentPosition].
  destruct (Z.leb_spec 0 (lenZ pre)); [|fit].
  destruct (Z.leb_spec (lenZ pre + lenZ e1 + lenZ e2) (lenZ (pre ++ e1 ++ e2 ++ rest))); [|fit].
  cbn [andb]. f_equal. rewrite sub_app_r by fit. rewrite sub_app_r by fit.
  replace (lenZ pre + lenZ e1 - lenZ pre - lenZ e1) with 0 by lia.
  rewrite sub_app_l by fit. apply sub_all. lia.
Qed.

Lemma peek_at_cur0 n pre e rest sn :
  lenZ e = n -> peek_at 0 n (cur pre (e ++ rest) sn) = Ok e.
Proof. intros <-. by apply (peek_at_cur 0 (lenZ e) pre [] e rest sn). Qed.

Lemma peek_cur pre e rest sn : peek (lenZ e) (cur pre (e ++ rest) sn) = Ok e.
Proof. by apply peek_at_cur0. Qed.

Lemma payload_cur pre e rest sn : payload (lenZ e) (cur pre (e ++ rest) sn) = Ok e.
Proof.
  unfold payload. destruct (Z.ltb_spec 0 (lenZ e)); [apply peek_cur|].
  by rewrite (lenZ_0 e) by fit.
Qed.

Lemma AddCurPos_cur pre e rest sn :
  fits (pre ++ e ++ rest) -> AddCurPos (lenZ e) (cur pre (e ++ rest) sn) = cur (pre ++ e) rest sn.
Proof.
  intros. unfold AddCurPos, cur; cbn [data m_iCurrentPosition m_iSnapshotPosition].
  rewrite <- app_assoc, lenZ_app, u64_small by fit. done.
Qed.

Lemma Append_empty l : Append l empty_stream = of_bytes l.
Proof. done. Qed.

Lemma Append_Append l k s : Append k (Append l s) = Append (l ++ k) s.
Proof. unfold Append; simpl. by rewrite app_assoc. Qed.

Lemma Append_nil s : Append [] s = s.
Proof. destruct s; unfold Append; simpl. by rewrite app_nil_r. Qed.

(** Any stream whose cursor is inside it is of that form. *)
Lemma stream_cur s :
  0 <= m_iCurrentPosition s <= Size s ->
  s = cur (take (Z.to_nat (m_iCurrentPosition s)) (data s))
          (drop (Z.to_nat (m_iCurrentPosition s)) (data s)) (m_iSnapshotPosition s).
Proof.
  destruct s as [d p sn]; unfold Size, cur; cbn [data m_iCurrentPosition m_iSnapshotPosition].
  intros. rewrite take_drop. f_equal. len_tac.
Qed.

(** ** Frames: one (field number, payload) entry of the tagged format *)

Abbreviation frame_t := (Z * list byte)%type.

Definition frame_bytes (f : frame_t) : list byte :=
  le_encode 4 (fst f) ++ le_encode 4 (lenZ (snd f)) ++ snd f.

Definition frames_bytes (fs : list frame_t) : list byte := concat (map frame_bytes fs).

Definition frame_ok (f : frame_t) : Prop := 0 <= fst f <= INT32_MAX /\ lenZ (snd f) <= INT32_MAX.

Definition frames (seq : Z) (es : list (list byte)) : list frame_t := map (pair seq) es.

Lemma lenZ_le_encode n z : lenZ (le_encode n z) = Z.of_nat n.
Proof. unfold lenZ. by rewrite length_le_encode. Qed.

Lemma le_decode_encode_small n z :
  0 <= z < 2 ^ (8 * Z.of_nat n) -> le_decode (le_encode n z) = z.
Proof. intros. rewrite le_decode_encode. apply Z.mod_small; lia. Qed.

Lemma frames_bytes_app fs gs : frames_bytes (fs ++ gs) = frames_bytes fs ++ frames_bytes gs.
Proof. unfold frames_bytes. by rewrite map_app, concat_app. Qed.

Lemma frames_bytes_cons f fs : frames_bytes (f :: fs) = frame_bytes f ++ frames_bytes fs.
Proof. done. Qed.

Lemma lenZ_frame f : lenZ (frame_bytes f) = 8 + lenZ (snd f).
Proof. unfold frame_bytes. rewrite !lenZ_app, !lenZ_le_encode. lia. Qed.

Lemma length_frames_bytes fs : (8 * length fs <= length (frames_bytes fs))%nat.
Proof.
  induction fs as [|f fs IH]; [simpl; lia|].
  rewrite frames_bytes_cons, length_app. pose proof (lenZ_frame f). unfold lenZ in *. simpl. lia.
Qed.

Lemma s32_nonneg z : 0 <= z <= INT32_MAX -> (s32 z <? 0) = false.
Proof. intros. rewrite s32_small by (unfold INT32_MAX in *; lia). apply Z.ltb_ge. lia. Qed.

(** WritePbRaw appends one frame. *)
Lemma WritePbRaw_frame seq e s :
  frame_ok (seq, e) ->
  WritePbRaw seq (if lenZ e =? 0 then None else Some e) (lenZ e) s = Ok (Append (frame_bytes (seq, e)) s).
Proof.
  intros [Hs He]; cbn [fst snd] in *. unfold WritePbRaw.
  rewrite !s32_nonneg by fit. cbn [orb]. rewrite !Append_Append. unfold frame_bytes; cbn [fst snd].
  destruct (Z.ltb_spec 0 (lenZ e)), (Z.eqb_spec (lenZ e) 0); try fit.
  - destruct (Z.ltb_spec (lenZ e) (lenZ e)); [lia|].
    rewrite sub_all by lia. by rewrite !Append_Append, <- app_assoc.
  - by rewrite (lenZ_0 e), app_nil_r by done.
Qed.

Lemma WritePbRaw_frame_some seq e s :
  frame_ok (seq, e) -> WritePbRaw seq (Some e) (lenZ e) s = Ok (Append (frame_bytes (seq, e)) s).
Proof.
  intros H. rewrite <- WritePbRaw_frame by done. destruct (Z.eqb_spec (lenZ e) 0) as [E|]; [|done].
  unfold WritePbRaw. by rewrite E.
Qed.

Lemma WritePbRaw_frame_ltb seq e s :
  frame_ok (seq, e) ->
  WritePbRaw seq (if 0 <? lenZ e then Some e else None) (lenZ e) s = Ok (Append (frame_bytes (seq, e)) s).
Proof.
  intros. rewrite <- WritePbRaw_frame by done. f_equal.
  destruct (Z.ltb_spec 0 (lenZ e)), (Z.eqb_spec (lenZ e) 0); done || fit.
Qed.

(** Reading a frame's header leaves the cursor at its payload. *)
Lemma ReadPbHeader_frame pre f rest sn :
  frame_ok f -> fits (pre ++ frame_bytes f ++ rest) ->
  ReadPbHeader (cur pre (frame_bytes f ++ rest) sn) =
  Ok (fst f, lenZ (snd f), cur (pre ++ le_encode 4 (fst f) ++ le_encode 4 (lenZ (snd f))) (snd f ++ rest) sn).
Proof.
  destruct f as [seq e]; intros [Hs He] Hf; cbn [fst snd] in *.
  unfold ReadPbHeader, PreparePbHeader. rewrite RemainSize_cur by done.
  assert (lenZ (frame_bytes (seq, e) ++ rest) = 8 + lenZ e + lenZ rest) as Hl
    by (rewrite lenZ_app, lenZ_frame; simpl; lia).
  rewrite Hl. destruct (Z.ltb_spec (8 + lenZ e + lenZ rest) 8); [fit|].
  unfold frame_bytes in *; cbn [fst snd] in *. rewrite <- !app_assoc in *.
  rewrite peek_at_cur0 by apply lenZ_le_encode. cbn [rbind].
  rewrite (peek_at_cur 4 4 pre) by (apply lenZ_le_encode). cbn [rbind].
  rewrite !le_decode_encode_small by (simpl; fit).
  rewrite !s32_nonneg by fit. cbn [orb].
  destruct (Z.ltb_spec (8 + lenZ e + lenZ rest) (8 + lenZ e)); [fit|]. cbn [rbind].
  do 2 f_equal. rewrite app_assoc.
  change 8 with (lenZ (le_encode 4 seq ++ le_encode 4 (lenZ e))) at 1.
  apply AddCurPos_cur. rewrite <- !app_assoc. done.
Qed.

(** ** What an overload of WritePb/ReadPb guarantees *)

(** Laws of an arithmetic type: [fx_dom] are the values it can hold. *)
Class FixedOk {T} (f : fixed T) := {
  fx_dom : T -> Prop;
  fx_size_range : 0 < fx_size f <= 8;
  fx_put_len (v : T) : lenZ (fx_put f v) = fx_size f;
  fx_get_put (v : T) : fx_dom v -> fx_get f (fx_put f v) = Ok v;
  fx_get_err (l : list byte) (e : fault) : fx_get f l = Err e -> e = ParserException
}.

(** Laws of a tagged overload.
    - [pb_entries v]: the payloads written for [v], one frame each;
    - [pb_absorb old e]: what reading the payload [e] makes of [old];
    - reading is local: it looks at its payload only and moves past it;
    - absorbing what was written, from a value satisfying [pb_fresh], gives
      the value back. *)
Class PbCodec {T} (c : pb T) := {
  pb_dom : T -> Prop;
  pb_fresh : T -> Prop;
  pb_entries : T -> list (list byte);
  pb_absorb : T -> list byte -> result T;
  pb_write seq v s :
    pb_dom v -> 0 <= seq <= INT32_MAX ->
    WritePb c seq v s = Ok (Append (frames_bytes (frames seq (pb_entries v))) s) /\
    Forall frame_ok (frames seq (pb_entries v));
  pb_local old e pre rest sn :
    fits (pre ++ e ++ rest) -> lenZ e <= INT32_MAX ->
    ReadPb c (lenZ e) old (cur pre (e ++ rest) sn) =
    (let! a := pb_absorb old e in Ok (a, cur (pre ++ e) rest sn));
  pb_absorb_err old e x : pb_absorb old e = Err x -> x = ParserException;
  pb_round old v : pb_fresh old -> pb_dom v -> foldR pb_absorb old (pb_entries v) = Ok v
}.

(** Overloads that write exactly one frame per value. *)
Class PbSingle {T} (c : pb T) `{!PbCodec c} := {
  pb_payload : T -> list byte;
  pb_single v : pb_entries v = [pb_payload v]
}.

(** Laws of an object's serialize/deserialize over a stream of its own. *)
Class SerializeOk {T} (o : Serialize T) := {
  ser_dom : T -> Prop;
  ser_fresh : T -> Prop;
  ser_bytes : T -> list byte;
  ser_write v s : ser_dom v -> serialize o v s = Ok (Append (ser_bytes v) s);
  ser_read old v :
    ser_fresh old -> ser_dom v -> fits (ser_bytes v) ->
    deserialize o old (of_bytes (ser_bytes v)) = Ok (v, cur (ser_bytes v) [] 0);
  ser_read_safe old l :
    fits l -> post (deserialize o old (of_bytes l)) (fun r => snd r = cur l [] 0) (fun e => e = ParserException)
}.

(** ** Arithmetic types *)

Lemma int_fixed_get_put (bytes : nat) (signed : bool) (z : Z) :
  (0 < bytes)%nat ->
  (if signed then - 2 ^ (8 * Z.of_nat bytes - 1) <= z < 2 ^ (8 * Z.of_nat bytes - 1)
   else 0 <= z < 2 ^ (8 * Z.of_nat bytes)) ->
  fx_get (int_fixed bytes signed) (fx_put (int_fixed bytes signed) z) = Ok z.
Proof.
  intros Hb Hz; cbn [int_fixed fx_get fx_put]. f_equal. rewrite le_decode_encode.
  destruct signed; [|apply Z.mod_small; lia].
  fold (wrap_u (8 * Z.of_nat bytes) z). rewrite wrap_s_wrap_u by lia.
  apply wrap_s_small; lia.
Qed.

Definition int_dom (bytes : nat) (signed : bool) (z : Z) : Prop :=
  if signed then - 2 ^ (8 * Z.of_nat bytes - 1) <= z < 2 ^ (8 * Z.of_nat bytes - 1)
  else 0 <= z < 2 ^ (8 * Z.of_nat bytes).

(** Every integer type of one to eight bytes obeys the laws. *)
Definition int_fixed_ok (bytes : nat) (signed : bool) (Hb : (0 < bytes <= 8)%nat)
    : FixedOk (int_fixed bytes signed).
Proof.
  refine {| fx_dom := int_dom bytes signed |}.
  - simpl; lia.
  - intros v. apply lenZ_le_encode.
  - intros v Hv. apply int_fixed_get_put; [lia|done].
  - intros l e; simpl; discriminate.
Defined.

#[export] Instance fx_int8_ok : FixedOk fx_int8 := int_fixed_ok 1 true ltac:(lia).
#[export] Instance fx_int16_ok : FixedOk fx_int16 := int_fixed_ok 2 true ltac:(lia).
#[export] Instance fx_int32_ok : FixedOk fx_int32 := int_fixed_ok 4 true ltac:(lia).
#[export] Instance fx_int64_ok : FixedOk fx_int64 := int_fixed_ok 8 true ltac:(lia).
#[export] Instance fx_uint8_ok : FixedOk fx_uint8 := int_fixed_ok 1 false ltac:(lia).
#[export] Instance fx_uint16_ok : FixedOk fx_uint16 := int_fixed_ok 2 false ltac:(lia).
#[export] Instance fx_uint32_ok : FixedOk fx_uint32 := int_fixed_ok 4 false ltac:(lia).
#[export] Instance fx_uint64_ok : FixedOk fx_uint64 := int_fixed_ok 8 false ltac:(lia).

#[export] Instance fx_bool_ok : FixedOk fx_bool.
Proof.
  refine {| fx_dom := fun _ : bool => True |}.
  - simpl; lia.
  - done.
  - by intros [].
  - intros l e; simpl. destruct (1 <? le_decode l); congruence.
Defined.

(** ** Overloads for scalars, strings and objects *)

#[export] Instance pb_fixed_codec {T} (f : fixed T) `{!FixedOk f} : PbCodec (pb_fixed f).
Proof.
  refine {| pb_dom := fx_dom; pb_fresh := fun _ => True; pb_entries v := [fx_put f v];
            pb_absorb _ e := if lenZ e =? fx_size f then fx_get f e else Err ParserException |}.
  all: pose proof fx_size_range as Hsz.
  - intros seq v s Hv Hs. pose proof (fx_put_len v) as Hl.
    assert (frame_ok (seq, fx_put f v)) as Hok by (split; simpl; fit).
    split; [|by apply Forall_singleton]. cbn [pb_fixed WritePb frames map]; unfold WritePb_fixed.
    rewrite u32_small, <- Hl by lia. rewrite WritePbRaw_frame_some by done.
    unfold frames_bytes; simpl. by rewrite app_nil_r.
  - intros old e pre rest sn Hf He. cbn [pb_fixed ReadPb]; unfold ReadPb_fixed.
    rewrite u32_small, RemainSize_cur by (done || lia).
    destruct (Z.eqb_spec (lenZ e) (fx_size f)) as [E|E]; cbn [negb orb]; [|done].
    destruct (Z.ltb_spec (lenZ (e ++ rest)) (lenZ e)); [fit|].
    rewrite <- E, peek_cur. cbn [rbind]. destruct (fx_get f e); cbn [rbind]; [|done].
    by rewrite AddCurPos_cur.
  - intros old e x. destruct (lenZ e =? fx_size f); [apply fx_get_err|congruence].
  - intros old v _ Hv. simpl. rewrite fx_put_len, Z.eqb_refl, fx_get_put by done. done.
Defined.

#[export] Instance pb_fixed_single {T} (f : fixed T) `{!FixedOk f} : PbSingle (pb_fixed f) :=
  {| pb_payload := fx_put f; pb_single v := eq_refl |}.

#[export] Instance pb_string_codec : PbCodec pb_string.
Proof.
  refine {| pb_dom v := lenZ v <= INT32_MAX; pb_fresh := fun _ => True; pb_entries v := [v];
            pb_absorb _ e := Ok e |}.
  - intros seq v s Hv Hs. assert (frame_ok (seq, v)) as Hok by done.
    split; [|by apply Forall_singleton]. cbn [pb_string WritePb]; unfold WritePb_string.
    destruct (Z.ltb_spec 0x7FFFFFFF (lenZ v)); [fit|].
    rewrite u32_small by fit. rewrite WritePbRaw_frame by done.
    unfold frames_bytes; simpl. by rewrite app_nil_r.
  - intros old e pre rest sn Hf He. cbn [pb_string ReadPb]; unfold ReadPb_string.
    rewrite RemainSize_cur by done.
    destruct (Z.ltb_spec (lenZ (e ++ rest)) (lenZ e)); [fit|].
    rewrite payload_cur. cbn [rbind]. by rewrite AddCurPos_cur.
  - done.
  - done.
Defined.

#[export] Instance pb_string_single : PbSingle pb_string :=
  {| pb_payload v := v; pb_single v := eq_refl |}.

#[export] Instance pb_serialize_codec {T} (o : Serialize T) `{!SerializeOk o} : PbCodec (pb_serialize o).
Proof.
  refine {| pb_dom v := ser_dom v /\ lenZ (ser_bytes v) <= INT32_MAX; pb_fresh := ser_fresh;
            pb_entries v := [ser_bytes v];
            pb_absorb old e := if 0x7FFFFFFF <? lenZ e then Err ParserException
                               else let! r := deserialize o old (of_bytes e) in Ok (fst r) |}.
  - intros seq v s [Hv Hl] Hs. assert (frame_ok (seq, ser_bytes v)) as Hok by done.
    split; [|by apply Forall_singleton]. cbn [pb_serialize WritePb]; unfold WritePb_serialize.
    rewrite ser_write, Append_empty by done. cbn [rbind]. unfold Size; cbn [data of_bytes].
    destruct (Z.ltb_spec 0x7FFFFFFF (lenZ (ser_bytes v))); [fit|].
    rewrite u32_small by fit. rewrite WritePbRaw_frame_ltb by done.
    unfold frames_bytes; simpl. by rewrite app_nil_r.
  - intros old e pre rest sn Hf He. cbn [pb_serialize ReadPb]; unfold ReadPb_serialize.
    rewrite RemainSize_cur by done.
    destruct (Z.ltb_spec (lenZ (e ++ rest)) (lenZ e)); [fit|].
    destruct (Z.ltb_spec 0x7FFFFFFF (lenZ e)); [fit|].
    rewrite payload_cur. cbn [rbind].
    pose proof (ser_read_safe old e ltac:(fit)) as Hp.
    destruct (deserialize o old (of_bytes e)) as [[a s']|]; [|done]. simpl in Hp; subst s'.
    cbn [rbind fst]. rewrite RemainSize_cur by (rewrite app_nil_r; fit). simpl.
    by rewrite AddCurPos_cur.
  - intros old e x. destruct (Z.ltb_spec 0x7FFFFFFF (lenZ e)); [congruence|].
    pose proof (ser_read_safe old e ltac:(fit)) as Hp.
    destruct (deserialize o old (of_bytes e)); simpl in *; congruence.
  - intros old v Hf [Hv Hl]. simpl.
    destruct (Z.ltb_spec 0x7FFFFFFF (lenZ (ser_bytes v))); [fit|].
    rewrite ser_read by (done || fit). done.
Defined.

#[export] Instance pb_serialize_single {T} (o : Serialize T) `{!SerializeOk o} : PbSingle (pb_serialize o) :=
  {| pb_payload := ser_bytes; pb_single v := eq_refl |}.

(** ** Vectors *)

Section Vector.
Context {T} (c : pb T) (d : T) `{!PbCodec c} `{!PbSingle c}.

Definition vec_absorb (old : list T) (e : list byte) : result (list T) :=
  let! a := pb_absorb d e in Ok (old ++ [a]).

Lemma WritePb_vector_frames seq vs s :
  Forall pb_dom vs -> 0 <= seq <= INT32_MAX ->
  WritePb_vector c seq vs s = Ok (Append (frames_bytes (frames seq (map pb_payload vs))) s) /\
  Forall frame_ok (frames seq (map pb_payload vs)).
Proof.
  intros Hvs Hs. revert s; induction Hvs as [|v vs Hv Hvs IH]; intros s; cbn [WritePb_vector].
  - split; [|constructor]. by rewrite Append_nil.
  - destruct (pb_write seq v s Hv Hs) as [-> Hok]. cbn [rbind].
    destruct (IH (Append (frames_bytes (frames seq (pb_entries v))) s)) as [-> Hoks].
    rewrite pb_single in *. cbn [frames map] in *. apply Forall_cons_1 in Hok as [? _].
    split; [|by constructor]. rewrite Append_Append. unfold frames_bytes; simpl. by rewrite app_nil_r.
Qed.

Lemma vec_absorb_all old vs :
  pb_fresh d -> Forall pb_dom vs -> foldR vec_absorb old (map pb_payload vs) = Ok (old ++ vs).
Proof.
  intros Hd Hvs; revert old; induction Hvs as [|v vs Hv Hvs IH]; intros old; cbn [map foldR].
  - by rewrite app_nil_r.
  - pose proof (pb_round d v Hd Hv) as Hr. rewrite pb_single in Hr. cbn [foldR] in Hr.
    unfold vec_absorb at 1. destruct (pb_absorb d (pb_payload v)); cbn [rbind] in *; [|done].
    injection Hr as ->. rewrite IH. by rewrite <- app_assoc.
Qed.

#[export] Instance pb_vector_codec (Hd : pb_fresh d) : PbCodec (pb_vector c d).
Proof.
  refine {| pb_dom := Forall pb_dom; pb_fresh old := old = []; pb_entries := map pb_payload;
            pb_absorb := vec_absorb |}.
  - intros. by apply WritePb_vector_frames.
  - intros old e pre rest sn Hf He. cbn [pb_vector ReadPb]; unfold ReadPb_vector. rewrite pb_local by done.
    unfold vec_absorb. by destruct (pb_absorb d e).
  - intros old e x. unfold vec_absorb. destruct (pb_absorb d e) eqn:E; simpl; [done|].
    intros [= <-]. by eapply pb_absorb_err.
  - intros old vs -> Hvs. by apply vec_absorb_all.
Defined.

End Vector.

(** ** The field loop *)

(** The first frame of a byte string, and the rest. *)
Definition split1 (l : list byte) : option (frame_t * list byte) :=
  if lenZ l <? 8 then None
  else
    let seq := le_decode (sub 0 4 l) in
    let size := le_decode (sub 4 4 l) in
    if (INT32_MAX <? seq) || (INT32_MAX <? size) || (lenZ l <? 8 + size) then None
    else Some ((seq, sub 8 size l), drop (Z.to_nat (8 + size)) l).

(** The frames a byte string consists of, if it consists of frames. *)
Fixpoint split_frames (fuel : nat) (l : list byte) : option (list frame_t) :=
  match fuel with
  | O => None
  | S fuel =>
      match l with
      | [] => Some []
      | _ => match split1 l with
             | None => None
             | Some (f, l) => cons f <$> split_frames fuel l
             end
      end
  end.

Lemma le_decode_sub4 off l : 0 <= off -> off + 4 <= lenZ l -> 0 <= le_decode (sub off 4 l) < 2 ^ 32.
Proof.
  intros. pose proof (le_decode_range (sub off 4 l)) as Hr.
  replace (Z.of_nat (length (sub off 4 l))) with 4 in Hr; [done|].
  symmetry. apply (lenZ_sub off 4 l); lia.
Qed.

Lemma le_encode_sub4 off l :
  0 <= off -> off + 4 <= lenZ l -> le_encode 4 (le_decode (sub off 4 l)) = sub off 4 l.
Proof.
  intros. assert (length (sub off 4 l) = 4%nat) as E.
  { pose proof (lenZ_sub off 4 l). unfold lenZ in *. lia. }
  rewrite <- E at 1. apply le_encode_decode.
Qed.

Lemma s32_ltb z : 0 <= z < 2 ^ 32 -> (s32 z <? 0) = (INT32_MAX <? z).
Proof.
  intros Hz. pose proof (s32_neg_iff z Hz). unfold INT32_MAX.
  destruct (Z.ltb_spec (s32 z) 0), (Z.ltb_spec (2 ^ 31 - 1) z); lia.
Qed.

Lemma split1_some l f rest :
  split1 l = Some (f, rest) -> frame_ok f /\ l = frame_bytes f ++ rest.
Proof.
  unfold split1. destruct (Z.ltb_spec (lenZ l) 8); [done|].
  pose proof (le_decode_sub4 0 l ltac:(lia) ltac:(lia)) as R0.
  pose proof (le_decode_sub4 4 l ltac:(lia) ltac:(lia)) as R1.
  pose proof (le_encode_sub4 0 l ltac:(lia) ltac:(lia)) as E0.
  pose proof (le_encode_sub4 4 l ltac:(lia) ltac:(lia)) as E1.
  set (seq := le_decode (sub 0 4 l)) in *. set (size := le_decode (sub 4 4 l)) in *.
  destruct (Z.ltb_spec INT32_MAX seq); [done|]. destruct (Z.ltb_spec INT32_MAX size); [done|].
  destruct (Z.ltb_spec (lenZ l) (8 + size)); [done|]. cbn [orb]. intros [= <- <-].
  assert (lenZ (sub 8 size l) = size) as Hs by (apply lenZ_sub; lia).
  split; [split; cbn [fst snd]; lia|].
  unfold frame_bytes; cbn [fst snd]. rewrite Hs, E0, E1.
  rewrite <- (sub_all l (lenZ l)) at 1 by lia.
  replace (lenZ l) with (4 + (4 + (size + (lenZ l - (8 + size))))) by lia.
  rewrite !sub_split by lia. rewrite <- !app_assoc. do 3 f_equal.
  replace (0 + 4 + 4 + size) with (8 + size) by lia. unfold sub. apply take_ge. len_tac.
Qed.

Lemma peek_at_in off n pre l sn :
  0 <= off -> 0 <= n -> off + n <= lenZ l -> peek_at off n (cur pre l sn) = Ok (sub off n l).
Proof.
  intros. unfold peek_at, Size, cur; cbn [data m_iCurrentPosition]. rewrite lenZ_app.
  destruct (Z.leb_spec 0 (lenZ pre)); [|fit].
  destruct (Z.leb_spec (lenZ pre + off + n) (lenZ pre + lenZ l)); [|lia].
  cbn [andb]. f_equal. rewrite sub_app_r by lia. f_equal. lia.
Qed.

Lemma split1_none pre l sn :
  fits (pre ++ l) -> split1 l = None -> ReadPbHeader (cur pre l sn) = Err ParserException.
Proof.
  intros Hf. unfold split1, ReadPbHeader, PreparePbHeader.
  rewrite RemainSize_cur by done.
  destruct (Z.ltb_spec (lenZ l) 8); [done|].
  rewrite !peek_at_in by (lia || done). cbn [rbind].
  rewrite !s32_ltb by (apply le_decode_sub4; lia).
  destruct (INT32_MAX <? le_decode (sub 0 4 l)), (INT32_MAX <? le_decode (sub 4 4 l));
    cbn [orb rbind]; try done.
  destruct (lenZ l <? 8 + le_decode (sub 4 4 l)); done.
Qed.

Section Fields.
Context {A : Type} (handle : Z -> Z -> A -> stream -> result (A * stream)).
Context (absorb : Z -> A -> list byte -> result A).

(** The handler of a field only looks at the payload. *)
Hypothesis handle_local : forall seq e a pre rest sn,
  0 <= seq <= INT32_MAX -> lenZ e <= INT32_MAX -> fits (pre ++ e ++ rest) ->
  handle seq (lenZ e) a (cur pre (e ++ rest) sn) =
  (let! a' := absorb seq a e in Ok (a', cur (pre ++ e) rest sn)).

Hypothesis absorb_err : forall seq a e x, absorb seq a e = Err x -> x = ParserException.

Definition absorb_frame (a : A) (f : frame_t) : result A := absorb (fst f) a (snd f).

Lemma absorb_frame_err a f : post (absorb_frame a f) (fun _ => True) (fun e => e = ParserException).
Proof. unfold absorb_frame. destruct (absorb _ _ _) eqn:E; simpl; [done|]. by eapply absorb_err. Qed.

(** One round of the loop on a well-formed frame. *)
Lemma fields_step fuel a pre f rest sn :
  frame_ok f -> fits (pre ++ frame_bytes f ++ rest) ->
  pb_fields_fuel (S fuel) handle a (cur pre (frame_bytes f ++ rest) sn) =
  (let! a' := absorb_frame a f in
   pb_fields_fuel fuel handle a' (cur (pre ++ frame_bytes f) rest sn)).
Proof.
  intros Hok Hf. cbn [pb_fields_fuel]. rewrite RemainSize_cur by done.
  destruct (Z.eqb_spec (lenZ (frame_bytes f ++ rest)) 0) as [E|E];
    [rewrite lenZ_app, lenZ_frame in E; fit|].
  rewrite ReadPbHeader_frame by done. cbn [rbind].
  destruct Hok as [Hseq Hlen]. rewrite handle_local; [|done..|].
  - unfold absorb_frame. destruct (absorb _ _ _); cbn [rbind]; [|done].
    unfold frame_bytes. by rewrite <- !app_assoc.
  - unfold frame_bytes in Hf. by rewrite <- !app_assoc in *.
Qed.

(** On a sequence of frames the loop folds the handler over them. *)
Lemma fields_frames fuel a pre fs sn :
  Forall frame_ok fs -> fits (pre ++ frames_bytes fs) -> (length fs < fuel)%nat ->
  pb_fields_fuel fuel handle a (cur pre (frames_bytes fs) sn) =
  (let! a' := foldR absorb_frame a fs in Ok (a', cur (pre ++ frames_bytes fs) [] sn)).
Proof.
  intros Hok; revert fuel a pre; induction Hok as [|f fs Hf Hfs IH]; intros fuel a pre Hfit Hfuel.
  - destruct fuel; [lia|]. cbn [pb_fields_fuel foldR rbind frames_bytes map concat].
    rewrite RemainSize_cur by done. simpl. by rewrite app_nil_r.
  - destruct fuel; [lia|]. simpl length in Hfuel. rewrite frames_bytes_cons in *.
    rewrite fields_step by done. cbn [foldR].
    destruct (absorb_frame a f); cbn [rbind]; [|done].
    rewrite IH by (rewrite <- ?app_assoc; done || lia). by rewrite <- app_assoc.
Qed.

Lemma pb_fields_frames a fs :
  Forall frame_ok fs -> fits (frames_bytes fs) ->
  pb_fields handle a (of_bytes (frames_bytes fs)) =
  (let! a' := foldR absorb_frame a fs in Ok (a', cur (frames_bytes fs) [] 0)).
Proof.
  intros. unfold pb_fields. rewrite of_bytes_cur. cbn [data cur app].
  rewrite fields_frames; [done..|]. pose proof (length_frames_bytes fs). lia.
Qed.

(** On any bytes whatever: the frames are folded if the bytes are frames, and
    otherwise ParserException is thrown. In particular the loop ends. *)
Lemma fields_any fuel fuel' a pre l sn :
  fits (pre ++ l) -> (length l < fuel)%nat -> (length l < fuel')%nat ->
  pb_fields_fuel fuel handle a (cur pre l sn) =
  match split_frames fuel' l with
  | Some fs => let! a' := foldR absorb_frame a fs in Ok (a', cur (pre ++ l) [] sn)
  | None => Err ParserException
  end.
Proof.
  revert fuel fuel' a pre l; induction fuel as [|fuel IH]; intros fuel' a pre l Hfit Hfuel Hfuel'; [lia|].
  destruct fuel' as [|fuel']; [lia|]. cbn [split_frames].
  destruct l as [|b l].
  { cbn [pb_fields_fuel]. rewrite RemainSize_cur by done. simpl. by rewrite app_nil_r. }
  destruct (split1 (b :: l)) as [[f rest]|] eqn:Esp.
  - apply split1_some in Esp as [Hok El]. rewrite El in *.
    rewrite fields_step by done.
    assert (length rest < fuel /\ length rest < fuel')%nat as [? ?].
    { pose proof (lenZ_frame f). rewrite length_app in *. unfold lenZ in *. lia. }
    pose proof (absorb_frame_err a f) as Herr.
    destruct (absorb_frame a f) as [a'|x] eqn:Ea; cbn [rbind].
    + rewrite (IH fuel') by (rewrite <- ?app_assoc; done).
      destruct (split_frames fuel' rest) as [fs|]; cbn; [|done].
      rewrite Ea. cbn [rbind]. by rewrite <- app_assoc.
    + simpl in Herr; subst x. destruct (split_frames fuel' rest); cbn; [by rewrite Ea|done].
  - cbn [pb_fields_fuel]. rewrite RemainSize_cur by done.
    destruct (Z.eqb_spec (lenZ (b :: l)) 0); [fit|].
    by rewrite split1_none.
Qed.

Lemma pb_fields_any a l :
  fits l ->
  pb_fields handle a (of_bytes l) =
  match split_frames (S (length l)) l with
  | Some fs => let! a' := foldR absorb_frame a fs in Ok (a', cur l [] 0)
  | None => Err ParserException
  end.
Proof. intros. unfold pb_fields. rewrite of_bytes_cur. apply fields_any; simpl; done || lia. Qed.

Lemma pb_fields_safe a l :
  fits l ->
  post (pb_fields handle a (of_bytes l)) (fun r => snd r = cur l [] 0) (fun e => e = ParserException).
Proof.
  intros. rewrite pb_fields_any by done. destruct (split_frames _ l) as [fs|]; [|done].
  eapply post_bind; [apply foldR_post, absorb_frame_err|]. done.
Qed.

End Fields.

(** Skipping a field of an unknown number. *)
Lemma SkipPb_cur pre e rest sn :
  fits (pre ++ e ++ rest) -> SkipPb (lenZ e) (cur pre (e ++ rest) sn) = Ok (cur (pre ++ e) rest sn).
Proof.
  intros. unfold SkipPb. rewrite RemainSize_cur by done.
  destruct (Z.ltb_spec (lenZ (e ++ rest)) (lenZ e)); [fit|]. by rewrite AddCurPos_cur.
Qed.

(** ** Maps *)

Section Map.
Context {K V} (cmp : K -> K -> comparison) (ck : pb K) (cv : pb V) (dk : K) (dv : V).
Context `{!PbCodec ck} `{!PbCodec cv}.

(** What a field of one pair's payload does to the key and value seen so far. *)
Definition pair_absorb (seq : Z) (kv : (K * bool) * (V * bool)) (e : list byte)
    : result ((K * bool) * (V * bool)) :=
  if seq =? 0 then let! k := pb_absorb (fst (fst kv)) e in Ok ((k, true), snd kv)
  else if seq =? 1 then let! v := pb_absorb (fst (snd kv)) e in Ok (fst kv, (v, true))
  else Ok kv.

Definition pair_frames (kv : K * V) : list frame_t :=
  frames 0 (pb_entries (fst kv)) ++ frames 1 (pb_entries (snd kv)).

Definition pair_bytes (kv : K * V) : list byte := frames_bytes (pair_frames kv).

Lemma pair_absorb_err seq kv e x : pair_absorb seq kv e = Err x -> x = ParserException.
Proof.
  unfold pair_absorb. destruct (seq =? 0); [|destruct (seq =? 1); [|done]].
  - destruct (pb_absorb _ _) as [|y] eqn:E; [done|]. apply pb_absorb_err in E. simpl. congruence.
  - destruct (pb_absorb _ _) as [|y] eqn:E; [done|]. apply pb_absorb_err in E. simpl. congruence.
Qed.

(** ReadPb_pair is the field loop with that handler. *)
Lemma ReadPb_pair_any l :
  fits l ->
  ReadPb_pair ck cv dk dv (of_bytes l) =
  match split_frames (S (length l)) l with
  | Some fs =>
      let! kv := foldR (absorb_frame pair_absorb) (dk, false, (dv, false)) fs in
      if negb (snd (fst kv)) || negb (snd (snd kv)) then Err ParserException
      else Ok (fst (fst kv), fst (snd kv))
  | None => Err ParserException
  end.
Proof.
  intros Hl. unfold ReadPb_pair. rewrite (pb_fields_any _ pair_absorb); [| |apply pair_absorb_err|done].
  - destruct (split_frames _ l) as [fs|]; [|done]. by destruct (foldR _ _ fs).
  - intros seq e kv pre rest sn Hs He Hf. unfold pair_absorb.
    destruct (seq =? 0); [|destruct (seq =? 1)].
    + rewrite pb_local by done. by destruct (pb_absorb _ e).
    + rewrite pb_local by done. by destruct (pb_absorb _ e).
    + by rewrite SkipPb_cur.
Qed.

Lemma pair_fold_key es k b vb :
  foldR (absorb_frame pair_absorb) (k, b, vb) (frames 0 es) =
  (let! k := foldR pb_absorb k es in Ok (k, b || negb (bool_decide (es = [])), vb)).
Proof.
  revert k b; induction es as [|e es IH]; intros k b; simpl; [by rewrite orb_false_r|].
  unfold absorb_frame at 1, pair_absorb; simpl. destruct (pb_absorb k e); simpl; [|done].
  rewrite IH. by rewrite orb_true_r.
Qed.

Lemma pair_fold_value es v b kb :
  foldR (absorb_frame pair_absorb) (kb, (v, b)) (frames 1 es) =
  (let! v := foldR pb_absorb v es in Ok (kb, (v, b || negb (bool_decide (es = []))))).
Proof.
  revert v b; induction es as [|e es IH]; intros v b; simpl; [by rewrite orb_false_r|].
  unfold absorb_frame at 1, pair_absorb; simpl. destruct (pb_absorb v e); simpl; [|done].
  rewrite IH. by rewrite orb_true_r.
Qed.

Lemma split1_frame f rest : frame_ok f -> split1 (frame_bytes f ++ rest) = Some (f, rest).
Proof.
  destruct f as [seq e]; intros [Hs He]; cbn [fst snd] in *. unfold split1.
  assert (lenZ (frame_bytes (seq, e) ++ rest) = 8 + lenZ e + lenZ rest) as ->
    by (rewrite lenZ_app, lenZ_frame; simpl; lia).
  pose proof (lenZ_nonneg e). pose proof (lenZ_nonneg rest).
  destruct (Z.ltb_spec (8 + lenZ e + lenZ rest) 8); [lia|].
  unfold frame_bytes; cbn [fst snd]. rewrite <- !app_assoc.
  rewrite sub_app_l by (rewrite ?lenZ_le_encode; lia).
  rewrite sub_all by (rewrite lenZ_le_encode; lia).
  rewrite sub_app_r by (rewrite lenZ_le_encode; lia).
  rewrite lenZ_le_encode. change (4 - Z.of_nat 4) with 0.
  rewrite sub_app_l by (rewrite ?lenZ_le_encode; lia).
  rewrite sub_all by (rewrite lenZ_le_encode; lia).
  rewrite !le_decode_encode_small by (simpl; fit).
  destruct (Z.ltb_spec INT32_MAX seq); [fit|]. destruct (Z.ltb_spec INT32_MAX (lenZ e)); [fit|].
  destruct (Z.ltb_spec (8 + lenZ e + lenZ rest) (8 + lenZ e)); [fit|]. cbn [orb]. do 3 f_equal.
  - rewrite !sub_app_r by (rewrite ?lenZ_le_encode; lia). rewrite !lenZ_le_encode.
    change (8 - Z.of_nat 4 - Z.of_nat 4) with 0. rewrite sub_app_l by lia. by apply sub_all.
  - rewrite !app_assoc, drop_app_ge; [|len_tac].
    replace (Z.to_nat (8 + lenZ e) - _)%nat with 0%nat by len_tac. done.
Qed.

Lemma split_frames_bytes fuel fs :
  Forall frame_ok fs -> (length fs < fuel)%nat -> split_frames fuel (frames_bytes fs) = Some fs.
Proof.
  intros Hok; revert fuel; induction Hok as [|f fs Hf Hfs IH]; intros fuel Hfuel;
    (destruct fuel as [|fuel]; [lia|]); [done|].
  rewrite frames_bytes_cons. cbn [split_frames].
  destruct (frame_bytes f ++ frames_bytes fs) eqn:E.
  - apply (f_equal lenZ) in E. rewrite lenZ_app, lenZ_frame, lenZ_nil in E. fit.
  - rewrite <- E, split1_frame, IH by (simpl in Hfuel; done || lia). done.
Qed.

(** One pair of a map: distinct keys are in ascending order, both parts leave a trace. *)
Definition pair_writable (kv : K * V) : Prop :=
  pb_dom (fst kv) /\ pb_dom (snd kv) /\ lenZ (pair_bytes kv) <= INT32_MAX.

Definition pair_dom (kv : K * V) : Prop :=
  pair_writable kv /\ pb_entries (fst kv) <> [] /\ pb_entries (snd kv) <> [].

Lemma pair_frames_ok kv : pair_writable kv -> Forall frame_ok (pair_frames kv).
Proof.
  intros (Hk & Hv & _). apply Forall_app. split.
  - by apply (pb_write 0 (fst kv) empty_stream).
  - by apply (pb_write 1 (snd kv) empty_stream).
Qed.

Lemma ReadPb_pair_round kv :
  pb_fresh dk -> pb_fresh dv -> pair_dom kv ->
  ReadPb_pair ck cv dk dv (of_bytes (pair_bytes kv)) = Ok kv.
Proof.
  intros Hdk Hdv Hkv. pose proof (pair_frames_ok kv (proj1 Hkv)) as Hok.
  destruct kv as [k v], Hkv as ((Hk & Hv & Hlen) & Hek & Hev); cbn [fst snd] in *.
  rewrite ReadPb_pair_any by fit. unfold pair_bytes in *.
  rewrite split_frames_bytes by
    (done || (pose proof (length_frames_bytes (pair_frames (k, v))); lia)).
  unfold pair_frames; cbn [fst snd]. rewrite foldR_app, pair_fold_key, pb_round by done.
  cbn [rbind]. rewrite pair_fold_value, pb_round by done. cbn [rbind fst snd].
  rewrite !bool_decide_eq_false_2 by done. done.
Qed.

Lemma WritePb_pair_frame kv s :
  pair_writable kv -> WritePb_pair ck cv kv s = Ok (Append (frame_bytes (0, pair_bytes kv)) s).
Proof.
  intros (Hk & Hv & Hlen). unfold WritePb_pair.
  destruct (pb_write 0 (fst kv) empty_stream Hk ltac:(fit)) as [-> _]. cbn [rbind].
  edestruct (pb_write 1 (snd kv)) as [-> _]; [done|fit|]. cbn [rbind].
  rewrite Append_Append, <- frames_bytes_app. fold (pair_frames kv). fold (pair_bytes kv).
  rewrite Append_empty. unfold Size; cbn [data of_bytes]. rewrite u32_small by fit.
  apply WritePbRaw_frame_ltb. split; cbn [fst snd]; fit.
Qed.

Definition map_frames (m : list (K * V)) : list frame_t := map (fun kv => (0, pair_bytes kv)) m.
Definition map_bytes (m : list (K * V)) : list byte := frames_bytes (map_frames m).

Lemma WritePb_pairs_frames m s :
  Forall pair_writable m -> WritePb_pairs ck cv m s = Ok (Append (map_bytes m) s).
Proof.
  intros Hm; revert s; induction Hm as [|kv m Hkv Hm IH]; intros s; cbn [WritePb_pairs].
  - by rewrite Append_nil.
  - rewrite WritePb_pair_frame by done. cbn [rbind]. rewrite IH, Append_Append. done.
Qed.

Lemma pair_dom_writable m : Forall pair_dom m -> Forall pair_writable m.
Proof. intros H. eapply Forall_impl; [exact H|]. by intros kv [? _]. Qed.

Lemma map_frames_ok m : Forall pair_writable m -> Forall frame_ok (map_frames m).
Proof.
  induction 1 as [|kv m (? & ? & ?) Hm IH]; constructor; [|done].
  split; cbn [fst snd]; fit.
Qed.

(** Inserting a key above all those present puts it at the end. *)
Lemma map_insert_above (k : K) (v : V) (m : list (K * V)) :
  Forall (fun kv => cmp k (fst kv) = Gt) m -> map_insert cmp k v m = m ++ [(k, v)].
Proof.
  induction 1 as [|[k' v'] m Hk Hm IH]; simpl in *; [done|]. by rewrite Hk, IH.
Qed.

Definition ascending : list (K * V) -> Prop :=
  StronglySorted (fun a b => cmp (fst b) (fst a) = Gt).

Definition map_absorb (_ : Z) (m : list (K * V)) (e : list byte) : result (list (K * V)) :=
  if 0x7FFFFFFF <? lenZ e then Err ParserException
  else let! kv := ReadPb_pair ck cv dk dv (of_bytes e) in
       Ok (map_insert cmp (fst kv) (snd kv) m).

Lemma map_absorb_err seq m e x : map_absorb seq m e = Err x -> x = ParserException.
Proof.
  unfold map_absorb. destruct (Z.ltb_spec 0x7FFFFFFF (lenZ e)); [congruence|].
  rewrite ReadPb_pair_any by fit. destruct (split_frames _ e) as [fs|]; [|simpl; congruence].
  pose proof (foldR_post (absorb_frame pair_absorb) (fun e => e = ParserException) (dk, false, (dv, false)) fs
    (fun a f => absorb_frame_err pair_absorb pair_absorb_err a f)) as Hp.
  destruct (foldR _ _ fs) as [kv|]; simpl in *; [|congruence].
  destruct (_ || _); simpl; congruence.
Qed.

Lemma map_absorb_round acc m :
  pb_fresh dk -> pb_fresh dv -> Forall pair_dom m -> ascending m ->
  (forall a b, a ∈ acc -> b ∈ m -> cmp (fst b) (fst a) = Gt) ->
  foldR (absorb_frame map_absorb) acc (map_frames m) = Ok (acc ++ m).
Proof.
  intros Hdk Hdv Hm; revert acc; induction Hm as [|kv m Hkv Hm IH]; intros acc Hasc Habove.
  { simpl. by rewrite app_nil_r. }
  apply StronglySorted_inv in Hasc as [Hasc Hhd]. cbn [map_frames map foldR].
  unfold absorb_frame at 1, map_absorb; cbn [fst snd].
  destruct (Z.ltb_spec 0x7FFFFFFF (lenZ (pair_bytes kv))).
  { destruct Hkv as ((_ & _ & ?) & _). fit. }
  rewrite ReadPb_pair_round by done. cbn [rbind].
  rewrite map_insert_above.
  - fold (map_frames m). rewrite IH; [|done|].
    + rewrite <- app_assoc. by destruct kv.
    + intros a b Ha Hb. apply elem_of_app in Ha as [Ha|Ha].
      * apply Habove; [done|]. by right.
      * apply list_elem_of_singleton in Ha as ->. cbn [fst]. rewrite Forall_forall in Hhd. auto.
  - apply Forall_forall. intros a Ha. apply Habove; [done|]. left.
Qed.

Definition map_payload_absorb (e : list byte) : result (list (K * V)) :=
  match split_frames (S (length e)) e with
  | Some fs => foldR (absorb_frame map_absorb) [] fs
  | None => Err ParserException
  end.

Lemma pb_map_local old e pre rest sn :
  fits (pre ++ e ++ rest) -> lenZ e <= INT32_MAX ->
  ReadPb (pb_map cmp ck cv dk dv) (lenZ e) old (cur pre (e ++ rest) sn) =
  (let! a := map_payload_absorb e in Ok (a, cur (pre ++ e) rest sn)).
Proof.
  intros Hf He. cbn [pb_map ReadPb]; unfold ReadPb_map. rewrite RemainSize_cur by done.
  destruct (Z.ltb_spec (lenZ (e ++ rest)) (lenZ e)); [fit|].
  rewrite payload_cur. cbn [rbind]. rewrite AddCurPos_cur by done.
  rewrite (pb_fields_any _ map_absorb); [| |apply map_absorb_err|fit].
  - unfold map_payload_absorb. destruct (split_frames _ e) as [fs|]; [|done]. by destruct (foldR _ _ fs).
  - intros seq e' m pre' rest' sn' Hs He' Hf'. rewrite payload_cur. cbn [rbind].
    rewrite AddCurPos_cur by done. unfold map_absorb.
    destruct (Z.ltb_spec 0x7FFFFFFF (lenZ e')); [fit|]. by destruct (ReadPb_pair _ _ _ _ _).
Qed.

#[export] Instance pb_map_codec (Hdk : pb_fresh dk) (Hdv : pb_fresh dv) : PbCodec (pb_map cmp ck cv dk dv).
Proof.
  refine {| pb_dom m := Forall pair_dom m /\ ascending m /\ lenZ (map_bytes m) <= INT32_MAX;
            pb_fresh := fun _ => True; pb_entries m := [map_bytes m];
            pb_absorb _ e := map_payload_absorb e |}.
  - intros seq m s (Hm & _ & Hl) Hs. assert (frame_ok (seq, map_bytes m)) as Hok by done.
    split; [|by apply Forall_singleton]. cbn [pb_map WritePb]; unfold WritePb_map.
    rewrite WritePb_pairs_frames, Append_empty by by apply pair_dom_writable. cbn [rbind]. unfold Size; cbn [data of_bytes].
    rewrite u32_small by fit. rewrite WritePbRaw_frame_ltb by done.
    unfold frames_bytes; simpl. by rewrite app_nil_r.
  - apply pb_map_local.
  - intros old e x. unfold map_payload_absorb. destruct (split_frames _ e) as [fs|]; [|congruence].
    pose proof (foldR_post (absorb_frame map_absorb) (fun e => e = ParserException) [] fs
      (fun a f => absorb_frame_err map_absorb map_absorb_err a f)) as Hp.
    destruct (foldR _ _ fs); simpl in *; congruence.
  - intros old m _ (Hm & Hasc & Hl). unfold map_payload_absorb, map_bytes. cbn [foldR].
    rewrite split_frames_bytes; [|by apply map_frames_ok, pair_dom_writable|pose proof (length_frames_bytes (map_frames m)); lia].
    rewrite map_absorb_round; [done..|]. intros a b Ha. by apply elem_of_nil in Ha.
Defined.

#[export] Instance pb_map_single (Hdk : pb_fresh dk) (Hdv : pb_fresh dv) :
  @PbSingle _ (pb_map cmp ck cv dk dv) (pb_map_codec Hdk Hdv).
Proof. refine (@Build_PbSingle _ _ (pb_map_codec Hdk Hdv) map_bytes _). intros m. reflexivity. Defined.

End Map.

(** ** What a plain overload guarantees *)

Class PlainOk {T} (c : plain T) := {
  pl_dom : T -> Prop;
  pl_bytes : T -> list byte;
  pl_min_pos : 0 < pl_min c;
  pl_min_le v : pl_dom v -> pl_min c <= lenZ (pl_bytes v);
  pl_put_ok v s : pl_dom v -> pl_put c v s = Ok (Append (pl_bytes v) s);
  pl_get_ok old v pre rest sn :
    pl_dom v -> fits (pre ++ pl_bytes v ++ rest) ->
    pl_get c old (cur pre (pl_bytes v ++ rest) sn) = Ok (v, cur (pre ++ pl_bytes v) rest sn)
}.

Lemma get_fixed_cur {T} (f : fixed T) `{!FixedOk f} e pre rest sn :
  lenZ e = fx_size f -> fits (pre ++ e ++ rest) ->
  get_fixed f (cur pre (e ++ rest) sn) =
  (let! v := fx_get f e in Ok (v, cur (pre ++ e) rest sn)).
Proof.
  intros He Hf. unfold get_fixed. rewrite RemainSize_cur, <- He by done.
  destruct (Z.ltb_spec (lenZ (e ++ rest)) (lenZ e)); [fit|].
  rewrite peek_cur. cbn [rbind]. destruct (fx_get f e); cbn [rbind]; [|done].
  by rewrite AddCurPos_cur.
Qed.

#[export] Instance plain_fixed_ok {T} (f : fixed T) `{!FixedOk f} : PlainOk (plain_fixed f).
Proof.
  pose proof fx_size_range as Hsz.
  refine {| pl_dom := fx_dom; pl_bytes := fx_put f |}.
  - simpl; lia.
  - intros v _. rewrite fx_put_len. simpl; lia.
  - done.
  - intros old v pre rest sn Hv Hf. cbn [plain_fixed pl_get].
    rewrite get_fixed_cur, fx_get_put by (done || apply fx_put_len). done.
Defined.

Definition string_bytes (v : list byte) : list byte := le_encode 4 (lenZ v) ++ v.

#[export] Instance plain_string_ok : PlainOk plain_string.
Proof.
  refine {| pl_dom v := lenZ v <= INT32_MAX; pl_bytes := string_bytes |}.
  - simpl; lia.
  - intros v _. unfold string_bytes. rewrite lenZ_app, lenZ_le_encode. simpl. fit.
  - intros v s Hv. cbn [plain_string pl_put]. unfold put_string, WriteLenPrefixed.
    destruct (Z.ltb_spec 0x7FFFFFFF (lenZ v)); [fit|]. cbn [put_fixed rbind].
    destruct (Z.ltb_spec 0 (lenZ v)); unfold string_bytes.
    + by rewrite Append_Append.
    + by rewrite (lenZ_0 v) by fit.
  - intros old v pre rest sn Hv Hf. cbn [plain_string pl_get]. unfold get_string, ReadLenPrefix.
    unfold string_bytes in *. rewrite <- app_assoc in *.
    rewrite get_fixed_cur by (first [apply _ | exact (lenZ_le_encode 4 _) | done]). cbn [rbind].
    change (le_encode 4 (lenZ v)) with (fx_put fx_int32 (lenZ v)).
    rewrite (fx_get_put (f := fx_int32)) by (unfold fx_dom; simpl; unfold int_dom; simpl; fit).
    cbn [rbind]. rewrite RemainSize_cur by (rewrite <- app_assoc; done).
    destruct (Z.ltb_spec (lenZ v) 0), (Z.ltb_spec (lenZ (v ++ rest)) (lenZ v)); try fit.
    cbn [orb rbind]. rewrite peek_cur. cbn [rbind].
    rewrite AddCurPos_cur by (rewrite <- app_assoc; done). by rewrite <- app_assoc.
Defined.

Section PlainVector.
Context {T} (c : plain T) (d : T) `{!PlainOk c}.

Definition vector_bytes (vs : list T) : list byte :=
  le_encode 4 (lenZ vs) ++ concat (map pl_bytes vs).

Lemma put_all_bytes vs s :
  Forall pl_dom vs -> put_all c vs s = Ok (Append (concat (map pl_bytes vs)) s).
Proof.
  intros Hvs; revert s; induction Hvs as [|v vs Hv Hvs IH]; intros s; simpl.
  - by rewrite Append_nil.
  - rewrite pl_put_ok by done. cbn [rbind]. by rewrite IH, Append_Append.
Qed.

Lemma get_all_bytes olds vs pre rest sn :
  length olds = length vs -> Forall pl_dom vs -> fits (pre ++ concat (map pl_bytes vs) ++ rest) ->
  get_all c olds (cur pre (concat (map pl_bytes vs) ++ rest) sn) =
  Ok (vs, cur (pre ++ concat (map pl_bytes vs)) rest sn).
Proof.
  intros Hlen Hvs; revert olds pre Hlen; induction Hvs as [|v vs Hv Hvs IH];
    intros [|o olds] pre Hlen Hf; try discriminate; simpl in *.
  - by rewrite app_nil_r.
  - rewrite <- app_assoc in *. rewrite pl_get_ok by done. cbn [rbind].
    rewrite IH by (lia || (rewrite <- app_assoc; done)). cbn [rbind]. by rewrite <- app_assoc.
Qed.

Lemma concat_min vs :
  Forall pl_dom vs -> lenZ vs * pl_min c <= lenZ (concat (map pl_bytes vs)).
Proof.
  induction 1 as [|v vs Hv Hvs IH]; simpl; [done|].
  rewrite lenZ_cons, lenZ_app. pose proof (pl_min_le v Hv). lia.
Qed.

Lemma length_resize n old : 0 <= n -> length (resize n d old) = Z.to_nat n.
Proof. intros. unfold resize. rewrite length_app, length_take, length_replicate. lia. Qed.

#[export] Instance plain_vector_ok : PlainOk (plain_vector c d).
Proof.
  refine {| pl_dom vs := Forall pl_dom vs /\ lenZ vs <= UINT32_MAX; pl_bytes := vector_bytes |}.
  - simpl; lia.
  - intros v _. unfold vector_bytes. rewrite lenZ_app, lenZ_le_encode. simpl. fit.
  - intros vs s [Hvs Hn]. cbn [plain_vector pl_put]. unfold put_vector. cbn [put_fixed rbind].
    rewrite u32_small by (unfold UINT32_MAX in *; fit).
    rewrite put_all_bytes by done. by rewrite Append_Append.
  - intros old vs pre rest sn [Hvs Hn] Hf. cbn [plain_vector pl_get]. unfold get_vector.
    unfold vector_bytes in *. rewrite <- app_assoc in *.
    rewrite get_fixed_cur by (first [apply _ | exact (lenZ_le_encode 4 _) | done]). cbn [rbind].
    change (le_encode 4 (lenZ vs)) with (fx_put fx_uint32 (lenZ vs)).
    rewrite (fx_get_put (f := fx_uint32))
      by (unfold fx_dom; simpl; unfold int_dom, UINT32_MAX in *; simpl; fit).
    cbn [rbind]. rewrite RemainSize_cur by (rewrite <- app_assoc; done).
    destruct (Z.ltb_spec (lenZ (concat (map pl_bytes vs) ++ rest) / pl_min c) (lenZ vs)) as [Hlt|].
    { exfalso. pose proof (concat_min vs Hvs). pose proof pl_min_pos.
      assert (lenZ vs <= lenZ (concat (map pl_bytes vs) ++ rest) / pl_min c)
        by (apply Z.div_le_lower_bound; fit). lia. }
    rewrite get_all_bytes; [|rewrite length_resize by fit; unfold lenZ; lia|done|by rewrite <- app_assoc].
    cbn [rbind]. by rewrite <- app_assoc.
Defined.

End PlainVector.

(** ** Properties *)

(** A deserialize that knows one field: its own number goes to ReadPb, every
    other number is skipped. *)
Definition read_field {T} (c : pb T) (seq : Z) (iSequence iSize : Z) (old : T) (s : stream)
    : result (T * stream) :=
  if iSequence =? seq then ReadPb c iSize old s
  else let! s := SkipPb iSize s in Ok (old, s).

Definition of_field (seq : Z) (fs : list frame_t) : list (list byte) :=
  map snd (filter (fun f => fst f = seq) fs).

Lemma read_field_fold {T} (c : pb T) `{!PbCodec c} seq fs old :
  foldR (absorb_frame (fun k a e => if k =? seq then pb_absorb a e else Ok a)) old fs =
  foldR pb_absorb old (of_field seq fs).
Proof.
  revert old; induction fs as [|[k e] fs IH]; intros old; [done|].
  cbn [foldR absorb_frame fst snd]. unfold absorb_frame at 1; cbn [fst snd].
  unfold of_field; rewrite filter_cons; cbn [fst].
  destruct (Z.eqb_spec k seq), (decide (k = seq)); try done; cbn [map foldR snd].
  - destruct (pb_absorb old e); cbn [rbind]; [apply IH|done].
  - cbn [rbind]. apply IH.
Qed.

(** A field is read back whatever surrounds it.  Take any message, a
    sequence of frames, in which the payloads of field [seq] are, in order,
    those WritePb writes for [v]; frames of other numbers may stand before,
    between and after them.  The field loop then yields exactly [v] and ends at
    the end of the message. *)
Theorem field_read_among_others {T} (c : pb T) `{!PbCodec c} seq v old fs :
  pb_dom v -> pb_fresh old -> Forall frame_ok fs -> fits (frames_bytes fs) ->
  of_field seq fs = pb_entries v ->
  pb_fields (read_field c seq) old (of_bytes (frames_bytes fs)) = Ok (v, cur (frames_bytes fs) [] 0).
Proof.
  intros Hv Ho Hok Hf He.
  rewrite (pb_fields_frames _ (fun k a e => if k =? seq then pb_absorb a e else Ok a)); [|..|done|done].
  - rewrite read_field_fold, He, pb_round by done. done.
  - intros k e a pre rest sn Hk Hl Hfit. unfold read_field. destruct (k =? seq).
    + by apply pb_local.
    + by rewrite SkipPb_cur.
Qed.

(** C31: a deserialize loop on arbitrary bytes ends, never reads outside
    the buffer, and does what the declarative reading of the message says: if the
    bytes are a sequence of frames, the known field absorbs its payloads in order;
    if they are not, ParserException is thrown. *)
Theorem field_loop_on_any_bytes {T} (c : pb T) `{!PbCodec c} seq old l :
  fits l ->
  pb_fields (read_field c seq) old (of_bytes l) =
  match split_frames (S (length l)) l with
  | Some fs => let! v := foldR pb_absorb old (of_field seq fs) in Ok (v, cur l [] 0)
  | None => Err ParserException
  end.
Proof.
  intros Hf.
  rewrite (pb_fields_any _ (fun k a e => if k =? seq then pb_absorb a e else Ok a)); [..|done].
  - destruct (split_frames _ l); [|done]. by rewrite read_field_fold.
  - intros k e a pre rest sn Hk Hl Hfit. unfold read_field. destruct (k =? seq).
    + by apply pb_local.
    + by rewrite SkipPb_cur.
  - intros k a e x. destruct (k =? seq); [apply pb_absorb_err|done].
Qed.

(** A std::map field survives the wire.  For any key and value overloads,
    writing a map (keys ascending, every key and value leaving at least one
    frame) and reading the payload back over any old content gives the map. *)
Theorem map_roundtrip {K V} (cmp : K -> K -> comparison) (ck : pb K) (cv : pb V) dk dv
    `{!PbCodec ck} `{!PbCodec cv} seq m old :
  pb_fresh dk -> pb_fresh dv -> 0 <= seq <= INT32_MAX ->
  Forall (pair_dom ck cv) m -> ascending cmp m -> lenZ (map_bytes ck cv m) <= INT32_MAX ->
  WritePb (pb_map cmp ck cv dk dv) seq m empty_stream =
    Ok (of_bytes (frame_bytes (seq, map_bytes ck cv m))) /\
  (let! (seq', size, s) := ReadPbHeader (of_bytes (frame_bytes (seq, map_bytes ck cv m))) in
   let! (m', s) := ReadPb (pb_map cmp ck cv dk dv) size old s in
   Ok (seq', m', RemainSize s)) = Ok (seq, m, 0).
Proof.
  intros Hdk Hdv Hs Hm Hasc Hlen.
  set (Hc := pb_map_codec cmp ck cv dk dv Hdk Hdv).
  assert (pb_dom (PbCodec := Hc) m) as Hdom by done.
  assert (frame_ok (seq, map_bytes ck cv m)) as Hok by done.
  destruct (pb_write (PbCodec := Hc) seq m empty_stream Hdom Hs) as [-> _].
  split.
  { cbn. by rewrite app_nil_r. }
  pose proof (lenZ_frame (seq, map_bytes ck cv m)) as Hlf; cbn [snd] in Hlf.
  rewrite of_bytes_cur, <- (app_nil_r (frame_bytes _)).
  rewrite ReadPbHeader_frame by (done || (rewrite app_nil_r; fit)). cbn [rbind fst snd app].
  rewrite (pb_local (PbCodec := Hc)) by (done || (rewrite !lenZ_app, !lenZ_le_encode, lenZ_nil; fit)).
  pose proof (pb_round (PbCodec := Hc) old m ltac:(done) Hdom) as Hr. cbn [pb_entries Hc pb_map_codec foldR] in Hr.
  destruct (pb_absorb (PbCodec := Hc) old (map_bytes ck cv m)) as [m'|]; cbn [rbind] in *; [|done].
  injection Hr as ->. rewrite RemainSize_cur; [done|].
  rewrite app_nil_r, !lenZ_app, !lenZ_le_encode. fit.
Qed.

(** The plain format of vectors round-trips at any nesting: for every
    overload obeying [PlainOk], writing a vector behind the cursor and reading it
    back gives the vector and consumes all that was written; the element count
    claimed by the prefix never makes the reader refuse what was written. *)
Theorem plain_vector_roundtrip {T} (c : plain T) (d : T) `{!PlainOk c} vs old pre sn :
  Forall pl_dom vs -> lenZ vs <= UINT32_MAX -> fits (pre ++ vector_bytes c vs) ->
  exists s, put_vector c vs (cur pre [] sn) = Ok s /\
    get_vector c d old s = Ok (vs, cur (pre ++ vector_bytes c vs) [] sn).
Proof.
  intros Hvs Hn Hf.
  exists (cur pre (vector_bytes c vs ++ []) sn). split.
  - change (put_vector c vs) with (pl_put (plain_vector c d) vs).
    rewrite pl_put_ok by done. unfold Append, cur; simpl. by rewrite !app_nil_r.
  - change (get_vector c d old) with (pl_get (plain_vector c d) old).
    apply (pl_get_ok (PlainOk := plain_vector_ok c d)); [done|]. by rewrite app_nil_r.
Qed.

(** PreparePbHeader is sound for data arriving in pieces.  It always
    returns; PB_HEADER_NEED_MORE and PB_HEADER_BAD leave the stream alone; and
    once it has answered PB_HEADER_OK or PB_HEADER_BAD, more bytes arriving behind
    do not change the answer. *)
Theorem PreparePbHeader_incremental pre rest more sn :
  fits (pre ++ rest ++ more) ->
  exists st seq size s, PreparePbHeader (cur pre rest sn) = Ok (st, (seq, size, s)) /\
    (st <> PB_HEADER_OK -> s = cur pre rest sn) /\
    (st = PB_HEADER_OK -> 0 <= seq <= INT32_MAX /\ 0 <= size <= RemainSize s) /\
    (st <> PB_HEADER_NEED_MORE ->
      PreparePbHeader (cur pre (rest ++ more) sn) = Ok (st, (seq, size, Append more s))).
Proof.
  intros Hf.
  assert (fits (pre ++ rest)) as Hf' by fit.
  assert (forall r, fits (pre ++ r) -> 8 <= lenZ r ->
    PreparePbHeader (cur pre r sn) =
    let seq := le_decode (sub 0 4 r) in let size := le_decode (sub 4 4 r) in
    if (INT32_MAX <? seq) || (INT32_MAX <? size) then Ok (PB_HEADER_BAD, (0, 0, cur pre r sn))
    else if lenZ r <? 8 + size then Ok (PB_HEADER_NEED_MORE, (0, 0, cur pre r sn))
    else Ok (PB_HEADER_OK, (seq, size, AddCurPos 8 (cur pre r sn)))) as Hp.
  { intros r Hr Hlen. unfold PreparePbHeader. rewrite RemainSize_cur by done.
    destruct (Z.ltb_spec (lenZ r) 8); [lia|].
    rewrite !peek_at_in by (lia || done). cbn [rbind].
    by rewrite !s32_ltb by (apply le_decode_sub4; lia). }
  destruct (decide (lenZ rest < 8)) as [Hlt|Hge].
  { exists PB_HEADER_NEED_MORE, 0, 0, (cur pre rest sn). unfold PreparePbHeader at 1.
    rewrite RemainSize_cur by done. destruct (Z.ltb_spec (lenZ rest) 8); [|lia].
    by split_and!. }
  assert (sub 0 4 (rest ++ more) = sub 0 4 rest /\ sub 4 4 (rest ++ more) = sub 4 4 rest) as [E0 E1]
    by (split; apply sub_app_l; lia).
  pose proof (le_decode_sub4 0 rest ltac:(lia) ltac:(lia)) as R0.
  pose proof (le_decode_sub4 4 rest ltac:(lia) ltac:(lia)) as R1.
  assert (forall k, Append more (AddCurPos k (cur pre rest sn)) = AddCurPos k (cur pre (rest ++ more) sn)) as EA
    by (intros; unfold Append, AddCurPos, cur; simpl; by rewrite app_assoc).
  assert (Append more (cur pre rest sn) = cur pre (rest ++ more) sn) as EA'
    by (unfold Append, cur; simpl; by rewrite app_assoc).
  rewrite !Hp by fit. rewrite E0, E1. cbv zeta.
  destruct (Z.ltb_spec INT32_MAX (le_decode (sub 0 4 rest))) as [|S0];
    [|destruct (Z.ltb_spec INT32_MAX (le_decode (sub 4 4 rest))) as [|S1]]; cbn [orb].
  1,2: eexists _, _, _, _; split_and!; try done; by rewrite EA'.
  destruct (Z.ltb_spec (lenZ rest) (8 + le_decode (sub 4 4 rest))).
  { eexists _, _, _, _; by split_and!. }
  eexists _, _, _, _; split_and!; try done.
  - intros _. split; [lia|]. unfold AddCurPos, RemainSize, Size, cur; cbn [data m_iCurrentPosition].
    rewrite lenZ_app. rewrite (u64_small (lenZ pre + 8)) by fit. rewrite u64_small by fit. lia.
  - intros _. rewrite lenZ_app. destruct (Z.ltb_spec (lenZ rest + lenZ more) (8 + le_decode (sub 4 4 rest))); [fit|].
    by rewrite EA.
Qed.

(** Two shapes of field the generator accepts do not survive the wire. *)

Definition pb_int32 : pb Z := pb_fixed fx_int32.

(** A map entry whose value leaves no frame (an empty vector, the
    generator accepts map<K, vector<V>>) is written without complaint, but no
    receiver can read it: ReadPb insists on having seen a value. *)
Theorem map_entry_without_value_unreadable {K V} (cmp : K -> K -> comparison) (ck : pb K) (cv : pb V) dk dv
    `{!PbCodec ck} `{!PbCodec cv} seq k v old :
  pb_fresh dk -> 0 <= seq <= INT32_MAX -> pair_writable ck cv (k, v) ->
  lenZ (map_bytes ck cv [(k, v)]) <= INT32_MAX -> pb_entries v = [] ->
  WritePb (pb_map cmp ck cv dk dv) seq [(k, v)] empty_stream =
    Ok (of_bytes (frame_bytes (seq, map_bytes ck cv [(k, v)]))) /\
  (let! (_, size, s) := ReadPbHeader (of_bytes (frame_bytes (seq, map_bytes ck cv [(k, v)]))) in
   ReadPb (pb_map cmp ck cv dk dv) size old s) = Err ParserException.
Proof.
  intros Hdk Hs Hw Hlen Hv. set (e := map_bytes ck cv [(k, v)]) in *.
  assert (frame_ok (seq, e)) as Hok by done. split.
  { cbn [pb_map WritePb]; unfold WritePb_map. rewrite (WritePb_pairs_frames ck cv) by by apply Forall_singleton.
    cbn [rbind]. rewrite Append_empty. fold e. unfold Size; cbn [data of_bytes].
    rewrite u32_small by fit. by rewrite WritePbRaw_frame_ltb. }
  pose proof (lenZ_frame (seq, e)) as Hlf; cbn [snd] in Hlf.
  rewrite of_bytes_cur, <- (app_nil_r (frame_bytes _)).
  rewrite ReadPbHeader_frame by (done || (rewrite app_nil_r; fit)). cbn [rbind fst snd app].
  set (pre := le_encode 4 seq ++ _).
  assert (lenZ pre = 8) as Hpre by (unfold pre; rewrite lenZ_app, !lenZ_le_encode; done).
  rewrite (pb_map_local cmp ck cv dk dv) by fit. unfold map_payload_absorb.
  unfold e, map_bytes. rewrite split_frames_bytes;
    [|by apply map_frames_ok, Forall_singleton|pose proof (length_frames_bytes (map_frames ck cv [(k, v)])); lia].
  cbn [map_frames map foldR]. unfold absorb_frame, map_absorb; cbn [fst snd].
  destruct Hw as (Hk & Hdv & Hpl); cbn [fst snd] in *.
  destruct (Z.ltb_spec 0x7FFFFFFF (lenZ (pair_bytes ck cv (k, v)))); [fit|].
  rewrite (ReadPb_pair_any ck cv dk dv) by fit. unfold pair_bytes in *. rewrite split_frames_bytes;
    [|by apply pair_frames_ok|pose proof (length_frames_bytes (pair_frames ck cv (k, v))); lia].
  unfold pair_frames; cbn [fst snd]. rewrite Hv. cbn [frames map]. rewrite app_nil_r.
  rewrite (pair_fold_key ck cv), pb_round by done. cbn [rbind fst snd negb orb]. by rewrite orb_true_r.
Qed.

(** A vector of vectors of two or more elements does not survive
    either: its elements share one field number, so the receiver sees one inner
    vector per element. *)
Theorem vector_of_vectors_flattened (a b : Z) :
  int_dom 4 true a -> int_dom 4 true b ->
  let c := pb_vector (pb_vector pb_int32 0) [] in
  exists s, WritePb c 0 [[a; b]] empty_stream = Ok s /\
    pb_fields (read_field c 0) [] s = Ok ([[a]; [b]], cur (data s) [] 0).
Proof.
  intros Ha Hb c.
  set (fs := [(0, le_encode 4 a); (0, le_encode 4 b)] : list frame_t).
  assert (Forall frame_ok fs) as Hok
    by (repeat apply Forall_cons_2; [..|apply Forall_nil_2]; split; cbn [fst snd]; rewrite ?lenZ_le_encode; fit).
  assert (lenZ (frames_bytes fs) = 24) as Hl
    by (unfold fs, frames_bytes; cbn [map concat]; rewrite !lenZ_app, !lenZ_frame; cbn [snd]; by rewrite !lenZ_le_encode).
  exists (of_bytes (frames_bytes fs)). split.
  - set (Hv := pb_vector_codec pb_int32 0 (PbCodec0 := pb_fixed_codec fx_int32) I).
    destruct (pb_write (PbCodec := Hv) 0 [a; b] empty_stream) as [E _]; [|fit|].
    { repeat apply Forall_cons_2; [done..|apply Forall_nil_2]. }
    unfold c. cbn [pb_vector WritePb WritePb_vector] in *. rewrite E. done.
  - set (Hi := pb_fixed_codec fx_int32).
    rewrite (pb_fields_frames _ (fun k a e => if k =? 0 then
      let! x := vec_absorb (PbCodec0 := Hi) pb_int32 0 [] e in Ok (a ++ [x]) else Ok a)); [|..|done|fit].
    + pose proof (pb_round (PbCodec := Hi) 0 a I Ha) as Ra.
      pose proof (pb_round (PbCodec := Hi) 0 b I Hb) as Rb.
      cbn [pb_entries Hi pb_fixed_codec foldR] in Ra, Rb.
      cbn [foldR fs]. unfold absorb_frame; cbn [fst snd]. change (0 =? 0) with true. cbv iota.
      unfold vec_absorb. change (le_encode 4 a) with (fx_put fx_int32 a).
      change (le_encode 4 b) with (fx_put fx_int32 b).
      destruct (pb_absorb 0 (fx_put fx_int32 a)); [|done]. injection Ra as ->.
      destruct (pb_absorb 0 (fx_put fx_int32 b)); [|done]. injection Rb as ->. done.
    + intros k e old pre rest sn Hk He Hf. unfold read_field. destruct (k =? 0).
      * unfold c; cbn [pb_vector ReadPb]; unfold ReadPb_vector; cbn [pb_vector ReadPb]; unfold ReadPb_vector. rewrite (pb_local (PbCodec := Hi)) by done.
        unfold vec_absorb. by destruct (pb_absorb 0 e).
      * by rewrite SkipPb_cur.
Qed.

(** ** Witnesses *)

Ltac closed := vm_compute; repeat split; congruence.

(** Field 1 in the middle of a message with two fields the reader does not know. *)
Definition demo_frames : list frame_t :=
  [(7, txt "before"); (1, txt "value"); (0, []); (9, txt "after")].

Lemma field_read_among_others_witness :
  pb_fields (read_field pb_string 1) (txt "old") (of_bytes (frames_bytes demo_frames)) =
  Ok (txt "value", cur (frames_bytes demo_frames) [] 0).
Proof.
  apply (field_read_among_others pb_string 1 (txt "value") (txt "old") demo_frames).
  - closed.
  - exact I.
  - unfold demo_frames. repeat apply Forall_cons_2; [..|apply Forall_nil_2]; closed.
  - closed.
  - reflexivity.
Defined.

(** A message cut short. *)
Lemma field_loop_on_any_bytes_witness :
  pb_fields (read_field pb_string 1) [] (of_bytes (take 20 (frames_bytes demo_frames))) =
  match split_frames (S (length (take 20 (frames_bytes demo_frames)))) (take 20 (frames_bytes demo_frames)) with
  | Some fs => let! v := foldR pb_absorb [] (of_field 1 fs) in Ok (v, cur (take 20 (frames_bytes demo_frames)) [] 0)
  | None => Err ParserException
  end.
Proof.
  apply (field_loop_on_any_bytes pb_string 1 [] (take 20 (frames_bytes demo_frames))). closed.
Defined.

Example field_loop_truncated :
  pb_fields (read_field pb_string 1) [] (of_bytes (take 20 (frames_bytes demo_frames))) = Err ParserException.
Proof. vm_compute. reflexivity. Qed.

Definition demo_map : list (Z * list byte) := [(-5, txt "minus"); (0, []); (42, txt "answer")].

Lemma map_roundtrip_witness :
  WritePb (pb_map Z.compare pb_int32 pb_string 0 []) 13 demo_map empty_stream =
    Ok (of_bytes (frame_bytes (13, map_bytes pb_int32 pb_string demo_map))) /\
  (let! (seq', size, s) := ReadPbHeader (of_bytes (frame_bytes (13, map_bytes pb_int32 pb_string demo_map))) in
   let! (m', s) := ReadPb (pb_map Z.compare pb_int32 pb_string 0 []) size [(1, txt "x")] s in
   Ok (seq', m', RemainSize s)) = Ok (13, demo_map, 0).
Proof.
  apply (map_roundtrip Z.compare pb_int32 pb_string 0 [] 13 demo_map [(1, txt "x")]
    (PbCodec0 := pb_fixed_codec fx_int32)).
  - exact I.
  - exact I.
  - closed.
  - unfold demo_map. repeat apply Forall_cons_2; [..|apply Forall_nil_2]; closed.
  - unfold demo_map. repeat constructor.
  - closed.
Defined.

Definition demo_strings : list (list byte) := [txt "a"; []; txt "ccc"].

Lemma plain_vector_roundtrip_witness :
  exists s, put_vector plain_string demo_strings (cur (txt "head") [] 0) = Ok s /\
    get_vector plain_string [] [txt "old"] s =
    Ok (demo_strings, cur (txt "head" ++ vector_bytes plain_string demo_strings) [] 0).
Proof.
  apply (plain_vector_roundtrip plain_string [] demo_strings [txt "old"] (txt "head") 0).
  - unfold demo_strings. repeat apply Forall_cons_2; [..|apply Forall_nil_2]; closed.
  - closed.
  - closed.
Defined.

Lemma PreparePbHeader_incremental_witness :
  exists st seq size s, PreparePbHeader (cur (txt "x") (frame_bytes (3, txt "payload")) 0) = Ok (st, (seq, size, s)) /\
    (st <> PB_HEADER_OK -> s = cur (txt "x") (frame_bytes (3, txt "payload")) 0) /\
    (st = PB_HEADER_OK -> 0 <= seq <= INT32_MAX /\ 0 <= size <= RemainSize s) /\
    (st <> PB_HEADER_NEED_MORE ->
      PreparePbHeader (cur (txt "x") (frame_bytes (3, txt "payload") ++ txt "more") 0) =
      Ok (st, (seq, size, Append (txt "more") s))).
Proof.
  apply (PreparePbHeader_incremental (txt "x") (frame_bytes (3, txt "payload")) (txt "more") 0). closed.
Defined.

Lemma map_entry_without_value_unreadable_witness :
  let cv := pb_vector pb_int32 0 in
  WritePb (pb_map Z.compare pb_int32 cv 0 []) 0 [(1, [])] empty_stream =
    Ok (of_bytes (le_encode 4 0 ++ le_encode 4 20 ++ frame_bytes (0, frame_bytes (0, le_encode 4 1)))) /\
  (let! (_, size, s) := ReadPbHeader
     (of_bytes (le_encode 4 0 ++ le_encode 4 20 ++ frame_bytes (0, frame_bytes (0, le_encode 4 1)))) in
   ReadPb (pb_map Z.compare pb_int32 cv 0 []) size [] s) = Err ParserException.
Proof.
  apply (map_entry_without_value_unreadable Z.compare pb_int32 (pb_vector pb_int32 0) 0 [] 0 1 [] []
    (PbCodec0 := pb_fixed_codec fx_int32)
    (PbCodec1 := pb_vector_codec pb_int32 0 (PbCodec0 := pb_fixed_codec fx_int32) I)).
  - exact I.
  - closed.
  - split; [closed|split; [apply Forall_nil_2|closed]].
  - closed.
  - reflexivity.
Defined.

Lemma vector_of_vectors_flattened_witness :
  exists s, WritePb (pb_vector (pb_vector pb_int32 0) []) 0 [[5; -6]] empty_stream = Ok s /\
    pb_fields (read_field (pb_vector (pb_vector pb_int32 0) []) 0) [] s = Ok ([[5]; [-6]], cur (data s) [] 0).
Proof. apply (vector_of_vectors_flattened 5 (-6)); closed. Defined.

End BytesStream.
