(* ===== verification/Decimal.v ===== *)
(** * Decimal text of integers

    What std::to_string prints for an integer and what std::from_chars reads
    back, shared by the JSON, HTTP and Redis files. *)

From S2P Require Import Prelude.

Module Decimal.

Definition digit (d : Z) : byte := byte_of_Z (48 + d).
Definition is_digit (b : byte) : bool := (48 <=? byteZ b) && (byteZ b <=? 57).
Definition digit_value (b : byte) : Z := byteZ b - 48.

(** Least significant digit last; [fuel] digits are enough below [10 ^ fuel]. *)
Fixpoint dec_aux (fuel : nat) (n : Z) (acc : list byte) : list byte :=
  match fuel with
  | O => acc
  | S fuel =>
      if n <? 10 then digit n :: acc
      else dec_aux fuel (n / 10) (digit (n mod 10) :: acc)
  end.

Definition to_dec (n : Z) : list byte := dec_aux 20 n [].

(** std::to_string. *)
Definition to_string (z : Z) : list byte :=
  if z <? 0 then Byte.x2d :: to_dec (- z) else to_dec z.

(** The number a run of digits denotes, continuing from [acc]. *)
Definition dec_value (acc : Z) (l : list byte) : Z :=
  fold_left (fun a b => 10 * a + digit_value b) l acc.

(** std::from_chars in base 10 over the whole text, for a type with the given
    range: a minus sign only for signed types, at least one digit, nothing but
    digits, and a result in range. *)
Definition from_chars (signed : bool) (lo hi : Z) (l : list byte) : option Z :=
  let (neg, ds) := match l with
                   | b :: t => if signed && (byteZ b =? 45) then (true, t) else (false, l)
                   | [] => (false, l)
                   end in
  if (lenZ ds =? 0) || negb (forallb is_digit ds) then None
  else
    let v := if neg then - dec_value 0 ds else dec_value 0 ds in
    if (lo <=? v) && (v <=? hi) then Some v else None.

Lemma byteZ_digit d : 0 <= d <= 9 -> byteZ (digit d) = 48 + d.
Proof. intros. unfold digit. rewrite byteZ_of_Z. apply Z.mod_small; lia. Qed.

Lemma digit_value_digit d : 0 <= d <= 9 -> digit_value (digit d) = d.
Proof. intros. unfold digit_value. rewrite byteZ_digit; lia. Qed.

Lemma is_digit_digit d : 0 <= d <= 9 -> is_digit (digit d) = true.
Proof. intros. unfold is_digit. rewrite byteZ_digit by lia. repeat destr_bool; done || lia. Qed.

Lemma is_digit_value b : is_digit b = true -> 0 <= digit_value b <= 9.
Proof. unfold is_digit, digit_value. repeat destr_bool; done || lia. Qed.

Lemma dec_value_app acc l k : dec_value acc (l ++ k) = dec_value (dec_value acc l) k.
Proof. unfold dec_value. apply fold_left_app. Qed.

Lemma dec_value_nonneg acc l : 0 <= acc -> forallb is_digit l = true -> 0 <= dec_value acc l.
Proof.
  revert acc; induction l as [|b l IH]; intros acc Ha Hl; [done|].
  apply andb_prop in Hl as [Hb Hl]. apply is_digit_value in Hb.
  cbn [dec_value fold_left]. apply IH; [lia|done].
Qed.

(** The digits printed are digits, there is at least one, they denote [n]. *)
Lemma dec_aux_spec fuel n acc :
  0 <= n < 10 ^ Z.of_nat fuel -> (0 < fuel)%nat ->
  exists ds, dec_aux fuel n acc = ds ++ acc /\ ds <> [] /\ forallb is_digit ds = true /\
    dec_value 0 ds = n.
Proof.
  revert n acc; induction fuel as [|fuel IH]; intros n acc Hn Hf; [lia|].
  cbn [dec_aux]. destruct (Z.ltb_spec n 10).
  - exists [digit n]. simpl. rewrite is_digit_digit, digit_value_digit by lia. split_and!; (done || lia).
  - rewrite Nat2Z.inj_succ, Z.pow_succ_r in Hn by lia.
    pose proof (Z.div_lt_upper_bound n 10 (10 ^ Z.of_nat fuel) ltac:(lia) ltac:(lia)).
    pose proof (Z.div_le_lower_bound n 10 1 ltac:(lia) ltac:(lia)).
    destruct fuel as [|fuel]; [simpl in *; lia|].
    pose proof (Z.mod_pos_bound n 10 ltac:(lia)).
    destruct (IH (n / 10) (digit (n mod 10) :: acc)) as (ds & -> & Hne & Hd & Hv); [lia..|].
    exists (ds ++ [digit (n mod 10)]). split_and!.
    + by rewrite <- app_assoc.
    + by destruct ds.
    + rewrite forallb_app, Hd. simpl. by rewrite is_digit_digit by lia.
    + rewrite dec_value_app, Hv. simpl. rewrite digit_value_digit by lia.
      pose proof (Z.div_mod n 10 ltac:(lia)). lia.
Qed.

Lemma to_dec_spec n :
  0 <= n < 10 ^ 20 ->
  to_dec n <> [] /\ forallb is_digit (to_dec n) = true /\ dec_value 0 (to_dec n) = n.
Proof.
  intros Hn. unfold to_dec. destruct (dec_aux_spec 20 n []) as (ds & -> & ? & ? & ?); [done|lia|].
  by rewrite app_nil_r.
Qed.

(** Reading back what was printed, at any type that holds the value. *)
Lemma from_chars_to_string signed lo hi z :
  lo <= z <= hi -> - 10 ^ 20 < z < 10 ^ 20 -> (signed = false -> 0 <= z) ->
  from_chars signed lo hi (to_string z) = Some z.
Proof.
  intros Hr Hz Hs. unfold to_string, from_chars. destruct (Z.ltb_spec z 0).
  - destruct signed; [|specialize (Hs eq_refl); lia]. cbn [andb].
    change (byteZ Byte.x2d =? 45) with true. cbv iota.
    destruct (to_dec_spec (- z)) as (Hne & Hd & Hv); [lia|].
    destruct (Z.eqb_spec (lenZ (to_dec (- z))) 0) as [E|]; [by apply lenZ_0 in E|].
    rewrite Hd, Hv, Z.opp_involutive. cbn [negb orb].
    destruct (Z.leb_spec lo z), (Z.leb_spec z hi); done || lia.
  - destruct (to_dec_spec z) as (Hne & Hd & Hv); [lia|].
    assert ((match to_dec z with
             | b :: t => if signed && (byteZ b =? 45) then (true, t) else (false, to_dec z)
             | [] => (false, to_dec z)
             end) = (false, to_dec z)) as ->.
    { destruct (to_dec z) as [|b t]; [done|]. apply andb_prop in Hd as [Hb _].
      unfold is_digit in Hb. destruct (Z.eqb_spec (byteZ b) 45) as [E|]; [|by rewrite andb_false_r].
      rewrite E in Hb. done. }
    destruct (Z.eqb_spec (lenZ (to_dec z)) 0) as [E|]; [by apply lenZ_0 in E|].
    rewrite Hd, Hv. cbn [negb orb].
    destruct (Z.leb_spec lo z), (Z.leb_spec z hi); done || lia.
Qed.

Lemma from_chars_range signed lo hi l z : from_chars signed lo hi l = Some z -> lo <= z <= hi.
Proof.
  unfold from_chars. destruct (match l with [] => _ | _ => _ end) as [neg ds].
  destruct (_ || _); [done|]. set (v := if neg then _ else _).
  destruct (Z.leb_spec lo v), (Z.leb_spec v hi); simpl; intros [= <-]; lia.
Qed.

(** printf("%d") of a run of digits is injective. *)
Lemma to_string_inj a b :
  - 10 ^ 20 < a < 10 ^ 20 -> - 10 ^ 20 < b < 10 ^ 20 -> to_string a = to_string b -> a = b.
Proof.
  intros Ha Hb E.
  pose proof (from_chars_to_string true (- 10 ^ 20) (10 ^ 20) a ltac:(lia) Ha ltac:(done)) as Ea.
  rewrite E, from_chars_to_string in Ea by (lia || done). congruence.
Qed.

Example to_string_ex : to_string (-12045) = txt "-12045".
Proof. reflexivity. Qed.
Example from_chars_ex :
  (from_chars true (-128) 127 (txt "-128"), from_chars true (-128) 127 (txt "128"),
   from_chars false 0 255 (txt "-1"), from_chars true (-9) 9 (txt "+1"), from_chars true (-9) 9 (txt "1 "))
  = (Some (-128), None, None, None, None).
Proof. reflexivity. Qed.

End Decimal.
