(* ===== verification/Json.v ===== *)
(** * JSON conversion of protocol values

    cbaselib/proto/inc/oi_json.h: FromJsonValue and ToJsonValue between protocol
    field types and Json::Value trees.  The tree is JsonCpp's value model; text
    parsing and printing are JsonCpp's and are not modelled, nor are the float
    and double overloads.  FromJsonValue writes through a reference, so the
    model returns the success flag together with what the output holds
    afterwards. *)

From S2P Require Import Prelude Decimal.

Module Json.

Inductive value : Type :=
| nullValue
| booleanValue (b : bool)
| intValue (z : Z)
| uintValue (z : Z)
| realValue (bits : Z)
| stringValue (s : list byte)
| arrayValue (l : list value)
| objectValue (m : list (list byte * value)).

Abbreviation members := (list (list byte * value)).

(** The order of an object's members: bytewise, shorter first. *)
Fixpoint bytes_compare (a b : list byte) : comparison :=
  match a, b with
  | [], [] => Eq
  | [], _ => Lt
  | _, [] => Gt
  | x :: a, y :: b =>
      match byteZ x ?= byteZ y with
      | Eq => bytes_compare a b
      | c => c
      end
  end.

(** [stOutput[key] = v] on an object. *)
Fixpoint obj_assign (k : list byte) (v : value) (m : members) : members :=
  match m with
  | [] => [(k, v)]
  | (k', v') :: m' =>
      match bytes_compare k k' with
      | Lt => (k, v) :: m
      | Eq => (k, v) :: m'
      | Gt => (k', v') :: obj_assign k v m'
      end
  end.

(** isMember and operator[] of an object. *)
Fixpoint obj_lookup (k : list byte) (m : members) : option value :=
  match m with
  | [] => None
  | (k', v) :: m => if decide (k = k') then Some v else obj_lookup k m
  end.

(** A pair of overloads. *)
Record json (T : Type) : Type := mkJson {
  ToJsonValue : T -> value;
  FromJsonValue : value -> T -> bool * T
}.
Arguments mkJson {T}. Arguments ToJsonValue {T}. Arguments FromJsonValue {T}.

Definition json_bool : json bool :=
  mkJson booleanValue
    (fun j old => match j with booleanValue b => (true, b) | _ => (false, old) end).

(** The integer template: [hi] and [lo] are numeric_limits<T>; signed types go
    out as Json::Int, unsigned ones as Json::UInt. *)
Definition json_int (signed : bool) (lo hi : Z) : json Z :=
  mkJson (fun z => if signed then intValue z else uintValue z)
    (fun j old =>
       match j with
       | intValue i =>
           if signed then
             if (i <? lo) || (hi <? i) then (false, old) else (true, i)
           else if (i <? 0) || (hi <? i) then (false, old) else (true, i)
       | uintValue i => if hi <? i then (false, old) else (true, i)
       | _ => (false, old)
       end).

Definition json_int8 := json_int true (- 2 ^ 7) (2 ^ 7 - 1).
Definition json_int16 := json_int true (- 2 ^ 15) (2 ^ 15 - 1).
Definition json_int32 := json_int true (- 2 ^ 31) (2 ^ 31 - 1).
Definition json_int64 := json_int true (- 2 ^ 63) (2 ^ 63 - 1).
Definition json_uint8 := json_int false 0 (2 ^ 8 - 1).
Definition json_uint16 := json_int false 0 (2 ^ 16 - 1).
Definition json_uint32 := json_int false 0 (2 ^ 32 - 1).
Definition json_uint64 := json_int false 0 (2 ^ 64 - 1).

(** std::string; the Bytes overload stores the same bytes. *)
Definition json_string : json (list byte) :=
  mkJson stringValue
    (fun j old => match j with stringValue s => (true, s) | _ => (false, old) end).

Definition json_bytes : json (list byte) := json_string.

(** ParseJsonIntegerKey. *)
Definition ParseJsonIntegerKey (signed : bool) (lo hi : Z) (sKey : list byte) : option Z :=
  Decimal.from_chars signed lo hi sKey.

(** Decoding into a value-initialised element. *)
Definition decode {T} (c : json T) (d : T) (j : value) : option T :=
  let (ok, v) := FromJsonValue c j d in if ok then Some v else None.

Fixpoint decode_all {T} (c : json T) (d : T) (js : list value) : option (list T) :=
  match js with
  | [] => Some []
  | j :: js =>
      match decode c d j with
      | None => None
      | Some v => cons v <$> decode_all c d js
      end
  end.

(** std::vector: decoded aside, swapped in at the end. *)
Definition json_vector {T} (c : json T) (d : T) : json (list T) :=
  mkJson (fun vs => arrayValue (map (ToJsonValue c) vs))
    (fun j old =>
       match j with
       | arrayValue js =>
           match decode_all c d js with
           | Some vs => (true, vs)
           | None => (false, old)
           end
       | _ => (false, old)
       end).

(** The keys of a JSON object for a std::map key type. *)
Record json_key (K : Type) : Type := mkKey {
  key_text : K -> list byte;
  key_parse : list byte -> option K
}.
Arguments mkKey {K}. Arguments key_text {K}. Arguments key_parse {K}.

Definition key_string : json_key (list byte) := mkKey (fun s => s) Some.
Definition key_int32 : json_key Z :=
  mkKey Decimal.to_string (ParseJsonIntegerKey true (- 2 ^ 31) (2 ^ 31 - 1)).
Definition key_uint32 : json_key Z :=
  mkKey Decimal.to_string (ParseJsonIntegerKey false 0 (2 ^ 32 - 1)).
Definition key_uint64 : json_key Z :=
  mkKey Decimal.to_string (ParseJsonIntegerKey false 0 (2 ^ 64 - 1)).

Section MapCodec.
Context {K V} `{Countable K} (k : json_key K) (c : json V) (d : V).

(** The loop over an object's members. *)
Fixpoint decode_members (m : members) (acc : gmap K V) : option (gmap K V) :=
  match m with
  | [] => Some acc
  | (name, j) :: m =>
      match key_parse k name with
      | None => None
      | Some key =>
          match decode c d j with
          | None => None
          | Some v => decode_members m (<[key := v]> acc)
          end
      end
  end.

Definition encode_members (m : gmap K V) : members :=
  fold_left (fun o kv => obj_assign (key_text k (fst kv)) (ToJsonValue c (snd kv)) o) (map_to_list m) [].

Definition json_map : json (gmap K V) :=
  mkJson (fun m => objectValue (encode_members m))
    (fun j old =>
       match j with
       | objectValue o =>
           match decode_members o ∅ with
           | Some m => (true, m)
           | None => (false, old)
           end
       | _ => (false, old)
       end).

End MapCodec.

(** A member of a generated structure: absent keeps the field. *)
Definition json_member {T} (c : json T) (name : list byte) (m : members) (old : T) : bool * T :=
  match obj_lookup name m with
  | None => (true, old)
  | Some j => FromJsonValue c j old
  end.

(** ** Laws *)

(** A lawful overload pair reads back what it wrote, whatever the output held. *)
Class JsonCodec {T} (c : json T) := {
  js_dom : T -> Prop;
  js_round v old : js_dom v -> FromJsonValue c (ToJsonValue c v) old = (true, v)
}.

(** An overload that leaves the output alone when it fails. *)
Class JsonAtomic {T} (c : json T) : Prop :=
  js_atomic j old v : FromJsonValue c j old = (false, v) -> v = old.

#[export] Instance json_bool_ok : JsonCodec json_bool.
Proof.
  by refine {| js_dom := fun _ : bool => True |}.
Defined.

#[export] Instance json_bool_atomic : JsonAtomic json_bool.
Proof. intros [] old v; simpl; congruence. Qed.

#[export] Instance json_string_ok : JsonCodec json_string.
Proof.
  by refine {| js_dom := fun _ : list byte => True |}.
Defined.

#[export] Instance json_string_atomic : JsonAtomic json_string.
Proof. intros [] old v; simpl; congruence. Qed.

#[export] Instance json_int_ok signed lo hi : JsonCodec (json_int signed lo hi).
Proof.
  refine {| js_dom := fun z => lo <= z <= hi /\ (signed = false -> 0 <= z) |}.
  intros z old [Hz Hs]. simpl. destruct signed; simpl;
    repeat destr_bool; done || lia.
Defined.

#[export] Instance json_int_atomic signed lo hi : JsonAtomic (json_int signed lo hi).
Proof.
  intros [] old v; simpl; try congruence.
  - destruct signed; repeat destr_bool; congruence.
  - repeat destr_bool; congruence.
Qed.

Section VectorLaws.
Context {T} (c : json T) (d : T) `{!JsonCodec c}.

Lemma decode_round v : js_dom v -> decode c d (ToJsonValue c v) = Some v.
Proof. intros. unfold decode. by rewrite js_round. Qed.

Lemma decode_all_round vs : Forall js_dom vs -> decode_all c d (map (ToJsonValue c) vs) = Some vs.
Proof.
  induction 1 as [|v vs Hv Hvs IH]; simpl; [done|]. by rewrite decode_round, IH.
Qed.

#[export] Instance json_vector_ok : JsonCodec (json_vector c d).
Proof.
  refine {| js_dom := Forall js_dom |}.
  intros vs old Hvs. simpl. by rewrite decode_all_round.
Defined.

End VectorLaws.

#[export] Instance json_vector_atomic {T} (c : json T) (d : T) : JsonAtomic (json_vector c d).
Proof. intros [] old v; simpl; try congruence. destruct (decode_all c d l); congruence. Qed.

Lemma bytes_compare_eq a b : bytes_compare a b = Eq -> a = b.
Proof.
  revert b; induction a as [|x a IH]; intros [|y b]; simpl; try done.
  destruct (Z.compare_spec (byteZ x) (byteZ y)) as [E| |]; try done.
  apply byteZ_inj in E as ->. intros E. by rewrite (IH b).
Qed.

(** Assigning a new member adds it, wherever it is put. *)
Lemma obj_assign_fresh k v m :
  k ∉ m.*1 -> obj_assign k v m ≡ₚ (k, v) :: m.
Proof.
  induction m as [|[k' v'] m IH]; intros Hk; [done|]. cbn [obj_assign].
  rewrite fmap_cons, not_elem_of_cons in Hk. destruct Hk as [Hne Hk]. cbn [fst] in Hne.
  destruct (bytes_compare k k') eqn:E; [by apply bytes_compare_eq in E|done|].
  rewrite IH by done. constructor.
Qed.

Section MapLaws.
Context {K V} `{Countable K} (k : json_key K) (c : json V) (d : V) `{!JsonCodec c}.
Context (key_dom : K -> Prop).
Hypothesis key_round : forall x, key_dom x -> key_parse k (key_text k x) = Some x.

Definition member_of (kv : K * V) : list byte * value := (key_text k (fst kv), ToJsonValue c (snd kv)).

Lemma encode_fold_perm l o :
  Forall (fun kv => key_dom (fst kv)) l -> NoDup l.*1 ->
  (forall kv, kv ∈ l -> key_text k (fst kv) ∉ o.*1) ->
  fold_left (fun o kv => obj_assign (key_text k (fst kv)) (ToJsonValue c (snd kv)) o) l o
    ≡ₚ map member_of l ++ o.
Proof.
  intros Hd; revert o; induction Hd as [|kv l Hkv Hl IH]; intros o Hnd Ho; simpl; [done|].
  rewrite fmap_cons in Hnd. apply NoDup_cons in Hnd as [Hnotin Hnd].
  pose proof (obj_assign_fresh (key_text k (fst kv)) (ToJsonValue c (snd kv)) o (Ho kv ltac:(left))) as Hp.
  rewrite IH; [|done|].
  - rewrite Hp. symmetry. apply Permutation_middle.
  - intros kv' Hin. rewrite Hp, fmap_cons, not_elem_of_cons. cbn [fst]. split; [|apply Ho; by right].
    intros E. apply Hnotin.
    rewrite Forall_forall in Hl. pose proof (key_round _ Hkv) as R. pose proof (key_round _ (Hl _ Hin)) as R'.
    rewrite E, R in R'. injection R' as ->. by apply list_elem_of_fmap_2.
Qed.

Lemma decode_members_app m m' acc :
  decode_members k c d (m ++ m') acc =
  match decode_members k c d m acc with Some a => decode_members k c d m' a | None => None end.
Proof.
  revert acc; induction m as [|[n j] m IH]; intros acc; simpl; [done|].
  destruct (key_parse k n); [|done]. destruct (decode c d j); [apply IH|done].
Qed.

(** Decoding the members of distinct keys, in whatever order, gives their map. *)
Lemma decode_members_list l acc :
  Forall (fun kv => key_dom (fst kv) /\ js_dom (snd kv)) l -> NoDup l.*1 ->
  (forall kv, kv ∈ l -> acc !! fst kv = None) ->
  decode_members k c d (map member_of l) acc = Some (list_to_map l ∪ acc).
Proof.
  intros Hd; revert acc; induction Hd as [|[x v] l [Hx Hv] Hl IH]; intros acc Hnd Hacc; simpl.
  - by rewrite (left_id_L ∅ (∪)).
  - cbn [fst snd] in *. rewrite key_round, (decode_round c d) by done.
    rewrite fmap_cons in Hnd. apply NoDup_cons in Hnd as [Hnotin Hnd].
    rewrite IH; [|done|].
    + f_equal. cbn [list_to_map foldr uncurry]. rewrite <- insert_union_l, <- insert_union_r; [done|].
      apply not_elem_of_list_to_map_1, Hnotin.
    + intros kv Hin. rewrite lookup_insert_ne; [apply Hacc; by right|].
      intros ->. exact (Hnotin (list_elem_of_fmap_2 fst _ _ Hin)).
Qed.

Lemma perm_member_of l o : o ≡ₚ map member_of l -> exists l', o = map member_of l' /\ l' ≡ₚ l.
Proof.
  intros Hp. apply Permutation_map_inv in Hp as (l' & -> & Hp). by exists l'.
Qed.

#[export] Instance json_map_ok : JsonCodec (json_map k c d).
Proof.
  refine {| js_dom := fun m : gmap K V => map_Forall (fun x v => key_dom x /\ js_dom v) m |}.
  intros m old Hm. simpl. unfold encode_members.
  assert (Forall (fun kv => key_dom (fst kv) /\ js_dom (snd kv)) (map_to_list m)) as Hall.
  { apply Forall_forall. intros [x v] Hin. apply elem_of_map_to_list in Hin. by apply (Hm x v). }
  pose proof (NoDup_fst_map_to_list m) as Hnd.
  pose proof (encode_fold_perm (map_to_list m) [] ) as Hp.
  rewrite app_nil_r in Hp. destruct (perm_member_of (map_to_list m) _ (Hp
    ltac:(eapply Forall_impl; [exact Hall|by intros ? []]) Hnd
    ltac:(intros ? _; apply not_elem_of_nil))) as (l & -> & Hl).
  rewrite decode_members_list.
  - rewrite (right_id_L ∅ (∪)). rewrite (list_to_map_proper l (map_to_list m)); [by rewrite list_to_map_to_list| |done].
    by rewrite Hl.
  - by rewrite Hl.
  - by rewrite Hl.
  - intros kv _. apply lookup_empty.
Defined.

#[export] Instance json_map_atomic : JsonAtomic (json_map k c d).
Proof. intros [] old v; simpl; try congruence. destruct (decode_members _ _ _ _ _); congruence. Qed.

End MapLaws.

Lemma key_string_round x : True -> key_parse key_string (key_text key_string x) = Some x.
Proof. done. Qed.

Lemma key_int_round signed lo hi x :
  lo <= x <= hi /\ - 2 ^ 64 <= lo /\ hi <= 2 ^ 64 /\ (signed = false -> 0 <= lo) ->
  ParseJsonIntegerKey signed lo hi (Decimal.to_string x) = Some x.
Proof.
  intros (? & ? & ? & Hs). apply Decimal.from_chars_to_string; [done|lia|].
  intros E. specialize (Hs E). lia.
Qed.

(** ** Properties *)

(** A map with integer keys goes to JSON and back unchanged, although the
    object orders its members as text ("10" before "2"): for every signedness and
    range of the key type and every lawful value type. *)
Theorem json_int_map_roundtrip {V} (c : json V) (d : V) `{!JsonCodec c} signed lo hi (m old : gmap Z V) :
  - 2 ^ 64 <= lo -> hi <= 2 ^ 64 -> (signed = false -> 0 <= lo) ->
  map_Forall (fun x v => lo <= x <= hi /\ js_dom v) m ->
  let k := mkKey Decimal.to_string (ParseJsonIntegerKey signed lo hi) in
  FromJsonValue (json_map k c d) (ToJsonValue (json_map k c d) m) old = (true, m).
Proof.
  intros Hlo Hhi Hs Hm k.
  apply (js_round (JsonCodec := json_map_ok k c d
    (fun x => lo <= x <= hi /\ - 2 ^ 64 <= lo /\ hi <= 2 ^ 64 /\ (signed = false -> 0 <= lo))
    (fun x Hx => key_int_round signed lo hi x Hx))).
  intros x v Hx. by destruct (Hm x v Hx).
Qed.

(** Integers are accepted exactly when they are JSON integers in the
    range of the field, and are then taken over unchanged; on anything else, in
    particular reals, texts and out-of-range numbers, the field keeps its value. *)
Theorem json_int_accepts signed lo hi (j : value) (old : Z) :
  (signed = true -> lo <= 0) -> (signed = false -> lo = 0) -> 0 <= hi ->
  match j with intValue i => True | uintValue i => 0 <= i | _ => True end ->
  FromJsonValue (json_int signed lo hi) j old =
  match j with
  | intValue i | uintValue i => if (lo <=? i) && (i <=? hi) then (true, i) else (false, old)
  | _ => (false, old)
  end.
Proof.
  intros Ht Hf Hhi Hj. destruct j; try done; simpl.
  - destruct signed; [|rewrite (Hf eq_refl)]; repeat destr_bool; done || lia.
  - destruct signed; [specialize (Ht eq_refl)|specialize (Hf eq_refl)]; repeat destr_bool; done || lia.
Qed.

Definition demo_map : gmap Z (list byte) := <[10 := txt "ten"]> (<[2 := txt "two"]> (<[-3 := []]> ∅)).

Example demo_map_json :
  ToJsonValue (json_map key_int32 json_string []) demo_map =
  objectValue [(txt "-3", stringValue []); (txt "10", stringValue (txt "ten"));
               (txt "2", stringValue (txt "two"))].
Proof. vm_compute. reflexivity. Qed.

Lemma json_int_map_roundtrip_witness :
  FromJsonValue (json_map key_int32 json_string [])
    (ToJsonValue (json_map key_int32 json_string []) demo_map) ∅ = (true, demo_map).
Proof.
  apply (json_int_map_roundtrip json_string [] true (- 2 ^ 31) (2 ^ 31 - 1) demo_map ∅); [lia..|done|].
  unfold demo_map. intros x v Hx.
  repeat (apply lookup_insert_Some in Hx as [[<- _]|[_ Hx]]; [split; [lia|exact I]|]).
  by rewrite lookup_empty in Hx.
Defined.

Lemma json_int_accepts_witness :
  FromJsonValue json_uint8 (intValue 256) 7 = (false, 7) /\
  FromJsonValue json_uint8 (intValue 255) 7 = (true, 255).
Proof.
  split.
  - apply (json_int_accepts false 0 255 (intValue 256) 7); lia || done.
  - apply (json_int_accepts false 0 255 (intValue 255) 7); lia || done.
Defined.

End Json.
