(* ===== verification/RpcData.v ===== *)
(** * The registry's protocol structures

    cbaselib/base/inc/oi_rpcdata_reg*.h: the seven structures the registry
    client and server exchange, each with serialize and deserialize over a
    BytesStream and FromJson and ToJson over a Json::Value tree.

    RegRegister has the members and the bodies of RegInstance, RegRegisterRes
    those of RegHeartbeatRes, so each pair is one definition under two names. *)

From S2P Require Import Prelude BytesStream Json.

Module RpcData.
Import BytesStream Json.

Abbreviation pb_int32 := (pb_fixed fx_int32).

(** ** The structures *)

Record RegInstance : Type := mkRegInstance {
  ri_sName : list byte;
  ri_iId : Z;
  ri_sIp : list byte;
  ri_sPort : list byte;
  ri_sZone : list byte
}.

Definition new_RegInstance : RegInstance := mkRegInstance [] 0 [] [] [].

Definition RegRegister : Type := RegInstance.

Record RegHeartbeat : Type := mkRegHeartbeat { hb_sName : list byte; hb_iId : Z }.

Record RegHeartbeatRes : Type := mkRegHeartbeatRes { hr_iCode : Z }.

Definition RegRegisterRes : Type := RegHeartbeatRes.

Record RegPull : Type := mkRegPull { rp_vNames : list (list byte) }.

Record RegPullRes : Type := mkRegPullRes { pr_iCode : Z; pr_vList : list RegInstance }.

(** ** The binary form *)

(** A case of the switch: ReadPb into one member. *)
Definition read_into {A T} (c : pb T) (get : A -> T) (set : T -> A) (iSize : Z) (m : A) (s : stream)
    : result (A * stream) :=
  let! (v, s) := ReadPb c iSize (get m) s in Ok (set v, s).

(** The default case. *)
Definition skip_field {A} (iSize : Z) (m : A) (s : stream) : result (A * stream) :=
  let! s := SkipPb iSize s in Ok (m, s).

Definition serialize_RegInstance (m : RegInstance) (s : stream) : result stream :=
  let! s := WritePb pb_string 0 (ri_sName m) s in
  let! s := WritePb pb_int32 1 (ri_iId m) s in
  let! s := WritePb pb_string 2 (ri_sIp m) s in
  let! s := WritePb pb_string 3 (ri_sPort m) s in
  WritePb pb_string 4 (ri_sZone m) s.

Definition switch_RegInstance (field_seq field_size : Z) (m : RegInstance) (s : stream)
    : result (RegInstance * stream) :=
  let '(mkRegInstance n i ip po z) := m in
  if field_seq =? 0 then
    read_into pb_string ri_sName (fun n => mkRegInstance n i ip po z) field_size m s
  else if field_seq =? 1 then
    read_into pb_int32 ri_iId (fun i => mkRegInstance n i ip po z) field_size m s
  else if field_seq =? 2 then
    read_into pb_string ri_sIp (fun ip => mkRegInstance n i ip po z) field_size m s
  else if field_seq =? 3 then
    read_into pb_string ri_sPort (fun po => mkRegInstance n i ip po z) field_size m s
  else if field_seq =? 4 then
    read_into pb_string ri_sZone (fun z => mkRegInstance n i ip po z) field_size m s
  else skip_field field_size m s.

Definition deserialize_RegInstance (m : RegInstance) (s : stream) : result (RegInstance * stream) :=
  pb_fields switch_RegInstance m s.

Definition ser_RegInstance : Serialize RegInstance :=
  mkSerialize serialize_RegInstance deserialize_RegInstance.

Definition ser_RegRegister : Serialize RegRegister := ser_RegInstance.

Definition serialize_RegHeartbeat (m : RegHeartbeat) (s : stream) : result stream :=
  let! s := WritePb pb_string 0 (hb_sName m) s in
  WritePb pb_int32 1 (hb_iId m) s.

Definition switch_RegHeartbeat (field_seq field_size : Z) (m : RegHeartbeat) (s : stream)
    : result (RegHeartbeat * stream) :=
  let '(mkRegHeartbeat n i) := m in
  if field_seq =? 0 then read_into pb_string hb_sName (fun n => mkRegHeartbeat n i) field_size m s
  else if field_seq =? 1 then read_into pb_int32 hb_iId (fun i => mkRegHeartbeat n i) field_size m s
  else skip_field field_size m s.

Definition deserialize_RegHeartbeat (m : RegHeartbeat) (s : stream) : result (RegHeartbeat * stream) :=
  pb_fields switch_RegHeartbeat m s.

Definition ser_RegHeartbeat : Serialize RegHeartbeat :=
  mkSerialize serialize_RegHeartbeat deserialize_RegHeartbeat.

Definition serialize_RegHeartbeatRes (m : RegHeartbeatRes) (s : stream) : result stream :=
  WritePb pb_int32 0 (hr_iCode m) s.

Definition switch_RegHeartbeatRes (field_seq field_size : Z) (m : RegHeartbeatRes) (s : stream)
    : result (RegHeartbeatRes * stream) :=
  if field_seq =? 0 then read_into pb_int32 hr_iCode mkRegHeartbeatRes field_size m s
  else skip_field field_size m s.

Definition deserialize_RegHeartbeatRes (m : RegHeartbeatRes) (s : stream)
    : result (RegHeartbeatRes * stream) :=
  pb_fields switch_RegHeartbeatRes m s.

Definition ser_RegHeartbeatRes : Serialize RegHeartbeatRes :=
  mkSerialize serialize_RegHeartbeatRes deserialize_RegHeartbeatRes.

Definition ser_RegRegisterRes : Serialize RegRegisterRes := ser_RegHeartbeatRes.

(** The two vectors are emptied before the loop. *)
Definition pb_names : pb (list (list byte)) := pb_vector pb_string [].

Definition serialize_RegPull (m : RegPull) (s : stream) : result stream :=
  WritePb pb_names 0 (rp_vNames m) s.

Definition switch_RegPull (field_seq field_size : Z) (m : RegPull) (s : stream)
    : result (RegPull * stream) :=
  if field_seq =? 0 then read_into pb_names rp_vNames mkRegPull field_size m s
  else skip_field field_size m s.

Definition deserialize_RegPull (_ : RegPull) (s : stream) : result (RegPull * stream) :=
  pb_fields switch_RegPull (mkRegPull []) s.

Definition ser_RegPull : Serialize RegPull := mkSerialize serialize_RegPull deserialize_RegPull.

Definition pb_instances : pb (list RegInstance) := pb_vector (pb_serialize ser_RegInstance) new_RegInstance.

Definition serialize_RegPullRes (m : RegPullRes) (s : stream) : result stream :=
  let! s := WritePb pb_int32 0 (pr_iCode m) s in
  WritePb pb_instances 1 (pr_vList m) s.

Definition switch_RegPullRes (field_seq field_size : Z) (m : RegPullRes) (s : stream)
    : result (RegPullRes * stream) :=
  let '(mkRegPullRes c l) := m in
  if field_seq =? 0 then read_into pb_int32 pr_iCode (fun c => mkRegPullRes c l) field_size m s
  else if field_seq =? 1 then read_into pb_instances pr_vList (fun l => mkRegPullRes c l) field_size m s
  else skip_field field_size m s.

Definition deserialize_RegPullRes (m : RegPullRes) (s : stream) : result (RegPullRes * stream) :=
  pb_fields switch_RegPullRes (mkRegPullRes (pr_iCode m) []) s.

Definition ser_RegPullRes : Serialize RegPullRes :=
  mkSerialize serialize_RegPullRes deserialize_RegPullRes.

(** ** The JSON form *)

(** One `if (isMember(name) && !FromJsonValue(in[name], member)) return false;`
    the member is written to in place, also when the function goes on to fail. *)
Definition from_member {A T} (c : json T) (name : list byte) (get : A -> T) (set : T -> A)
    (in_ : members) (m : A) : bool * A :=
  let (ok, v) := json_member c name in_ (get m) in (ok, set v).

Definition and_then {A} (r : bool * A) (k : A -> bool * A) : bool * A :=
  if fst r then k (snd r) else (false, snd r).

Definition FromJson_RegInstance (j : value) (m : RegInstance) : bool * RegInstance :=
  match j with
  | objectValue in_ =>
      let '(mkRegInstance n i ip po z) := m in
      and_then (from_member json_string (txt "name") ri_sName (fun n => mkRegInstance n i ip po z) in_ m) (fun m =>
      let '(mkRegInstance n i ip po z) := m in
      and_then (from_member json_int32 (txt "id") ri_iId (fun i => mkRegInstance n i ip po z) in_ m) (fun m =>
      let '(mkRegInstance n i ip po z) := m in
      and_then (from_member json_string (txt "ip") ri_sIp (fun ip => mkRegInstance n i ip po z) in_ m) (fun m =>
      let '(mkRegInstance n i ip po z) := m in
      and_then (from_member json_string (txt "port") ri_sPort (fun po => mkRegInstance n i ip po z) in_ m) (fun m =>
      let '(mkRegInstance n i ip po z) := m in
      from_member json_string (txt "zone") ri_sZone (fun z => mkRegInstance n i ip po z) in_ m))))
  | _ => (false, m)
  end.

Definition ToJson_RegInstance (m : RegInstance) : value :=
  objectValue
    (obj_assign (txt "zone") (ToJsonValue json_string (ri_sZone m))
    (obj_assign (txt "port") (ToJsonValue json_string (ri_sPort m))
    (obj_assign (txt "ip") (ToJsonValue json_string (ri_sIp m))
    (obj_assign (txt "id") (ToJsonValue json_int32 (ri_iId m))
    (obj_assign (txt "name") (ToJsonValue json_string (ri_sName m)) []))))).

Definition json_RegInstance : json RegInstance := mkJson ToJson_RegInstance FromJson_RegInstance.
Definition json_RegRegister : json RegRegister := json_RegInstance.

Definition FromJson_RegHeartbeat (j : value) (m : RegHeartbeat) : bool * RegHeartbeat :=
  match j with
  | objectValue in_ =>
      let '(mkRegHeartbeat n i) := m in
      and_then (from_member json_string (txt "name") hb_sName (fun n => mkRegHeartbeat n i) in_ m) (fun m =>
      let '(mkRegHeartbeat n i) := m in
      from_member json_int32 (txt "id") hb_iId (fun i => mkRegHeartbeat n i) in_ m)
  | _ => (false, m)
  end.

Definition ToJson_RegHeartbeat (m : RegHeartbeat) : value :=
  objectValue
    (obj_assign (txt "id") (ToJsonValue json_int32 (hb_iId m))
    (obj_assign (txt "name") (ToJsonValue json_string (hb_sName m)) [])).

Definition json_RegHeartbeat : json RegHeartbeat := mkJson ToJson_RegHeartbeat FromJson_RegHeartbeat.

Definition FromJson_RegHeartbeatRes (j : value) (m : RegHeartbeatRes) : bool * RegHeartbeatRes :=
  match j with
  | objectValue in_ => from_member json_int32 (txt "code") hr_iCode mkRegHeartbeatRes in_ m
  | _ => (false, m)
  end.

Definition ToJson_RegHeartbeatRes (m : RegHeartbeatRes) : value :=
  objectValue (obj_assign (txt "code") (ToJsonValue json_int32 (hr_iCode m)) []).

Definition json_RegHeartbeatRes : json RegHeartbeatRes :=
  mkJson ToJson_RegHeartbeatRes FromJson_RegHeartbeatRes.
Definition json_RegRegisterRes : json RegRegisterRes := json_RegHeartbeatRes.

Definition FromJson_RegPull (j : value) (m : RegPull) : bool * RegPull :=
  match j with
  | objectValue in_ => from_member (json_vector json_string []) (txt "names") rp_vNames mkRegPull in_ m
  | _ => (false, m)
  end.

Definition ToJson_RegPull (m : RegPull) : value :=
  objectValue (obj_assign (txt "names") (ToJsonValue (json_vector json_string []) (rp_vNames m)) []).

Definition json_RegPull : json RegPull := mkJson ToJson_RegPull FromJson_RegPull.

Definition FromJson_RegPullRes (j : value) (m : RegPullRes) : bool * RegPullRes :=
  match j with
  | objectValue in_ =>
      let '(mkRegPullRes c l) := m in
      and_then (from_member json_int32 (txt "code") pr_iCode (fun c => mkRegPullRes c l) in_ m) (fun m =>
      let '(mkRegPullRes c l) := m in
      from_member (json_vector json_RegInstance new_RegInstance) (txt "list") pr_vList
        (fun l => mkRegPullRes c l) in_ m)
  | _ => (false, m)
  end.

Definition ToJson_RegPullRes (m : RegPullRes) : value :=
  objectValue
    (obj_assign (txt "list") (ToJsonValue (json_vector json_RegInstance new_RegInstance) (pr_vList m))
    (obj_assign (txt "code") (ToJsonValue json_int32 (pr_iCode m)) [])).

Definition json_RegPullRes : json RegPullRes := mkJson ToJson_RegPullRes FromJson_RegPullRes.

(** ** Laws of the binary form *)

Definition absorb_into {A T} (c : pb T) `{!PbCodec c} (get : A -> T) (set : T -> A) (m : A) (e : list byte)
    : result A :=
  let! v := pb_absorb (get m) e in Ok (set v).

Lemma read_into_local {A T} (c : pb T) `{!PbCodec c} (get : A -> T) (set : T -> A) e m pre rest sn :
  lenZ e <= INT32_MAX -> fits (pre ++ e ++ rest) ->
  read_into c get set (lenZ e) m (cur pre (e ++ rest) sn) =
  (let! m' := absorb_into c get set m e in Ok (m', cur (pre ++ e) rest sn)).
Proof.
  intros He Hf. unfold read_into, absorb_into. rewrite pb_local by done. by destruct (pb_absorb _ _).
Qed.

Lemma skip_field_local {A} (m : A) e pre rest sn :
  fits (pre ++ e ++ rest) ->
  skip_field (lenZ e) m (cur pre (e ++ rest) sn) = (let! m' := Ok m in Ok (m', cur (pre ++ e) rest sn)).
Proof. intros. unfold skip_field. by rewrite SkipPb_cur. Qed.

Lemma absorb_into_err {A T} (c : pb T) `{!PbCodec c} (get : A -> T) (set : T -> A) m e x :
  absorb_into c get set m e = Err x -> x = ParserException.
Proof.
  unfold absorb_into. destruct (pb_absorb _ _) eqn:E; simpl; [done|].
  intros [= <-]. by eapply pb_absorb_err.
Qed.

(** Both obligations of a switch: case by case on the field number. *)
Ltac switch_local :=
  intros; cbv beta zeta;
  repeat match goal with m : ?T |- _ => is_var m; match T with RegInstance => idtac | RegHeartbeat => idtac
    | RegPullRes => idtac end; destruct m end;
  repeat match goal with |- context [if ?seq =? ?n then _ else _] => destruct (seq =? n) end;
  first [by apply read_into_local | by apply skip_field_local].

Ltac switch_err :=
  intros *; repeat match goal with |- context [match ?m with _ => _ end] => is_var m; destruct m end;
  repeat match goal with |- context [if ?seq =? ?n then _ else _] => destruct (seq =? n) end;
  first [done | apply absorb_into_err].

(** The payloads of one field absorbed in order, then [k]. *)
Definition field_value {T} (c : pb T) `{!PbCodec c} (seq : Z) (old : T) (fs : list frame_t) : result T :=
  foldR pb_absorb old (of_field seq fs).

Lemma field_value_err {T} (c : pb T) `{!PbCodec c} seq old fs x :
  field_value c seq old fs = Err x -> x = ParserException.
Proof.
  unfold field_value. generalize (of_field seq fs) as es; intros es; revert old.
  induction es as [|e es IH]; intros old; cbn [foldR]; [done|].
  destruct (pb_absorb old e) eqn:E; cbn [rbind]; [apply IH|].
  intros [= <-]. by eapply pb_absorb_err.
Qed.

Lemma field_value_cons {T} (c : pb T) `{!PbCodec c} seq old k e fs :
  field_value c seq old ((k, e) :: fs) =
  if k =? seq then let! v := pb_absorb old e in field_value c seq v fs else field_value c seq old fs.
Proof.
  unfold field_value, of_field. rewrite filter_cons; cbn [fst].
  destruct (Z.eqb_spec k seq), (decide (k = seq)); done.
Qed.

Lemma field_value_round {T} (c : pb T) `{!PbCodec c} seq old v fs :
  pb_fresh old -> pb_dom v -> of_field seq fs = pb_entries v -> field_value c seq old fs = Ok v.
Proof. intros Ho Hv E. unfold field_value. rewrite E. by apply pb_round. Qed.

Lemma of_field_app seq fs gs : of_field seq (fs ++ gs) = of_field seq fs ++ of_field seq gs.
Proof. unfold of_field. by rewrite filter_app, map_app. Qed.

Lemma of_field_frames seq k es : of_field seq (frames k es) = if k =? seq then es else [].
Proof.
  unfold of_field, frames. induction es as [|e es IH]; [by destruct (k =? seq)|].
  cbn [map]. rewrite filter_cons; cbn [fst].
  destruct (Z.eqb_spec k seq), (decide (k = seq)); try done; cbn [map]; by rewrite IH.
Qed.

(** What a structure's deserialize has to satisfy for its SerializeOk. *)
Section Message.
Context {A : Type} (handle : Z -> Z -> A -> stream -> result (A * stream)) (absorb : Z -> A -> list byte -> result A).
Hypothesis handle_local : forall seq e a pre rest sn,
  0 <= seq <= INT32_MAX -> lenZ e <= INT32_MAX -> fits (pre ++ e ++ rest) ->
  handle seq (lenZ e) a (cur pre (e ++ rest) sn) =
  (let! a' := absorb seq a e in Ok (a', cur (pre ++ e) rest sn)).
Hypothesis absorb_err : forall seq a e x, absorb seq a e = Err x -> x = ParserException.

(** [by_field a fs]: the structure the fields give, each on its own. *)
Context (by_field : A -> list frame_t -> result A).
Hypothesis by_field_nil : forall a, by_field a [] = Ok a.
Hypothesis by_field_cons : forall a k e fs,
  by_field a ((k, e) :: fs) = let! a' := absorb k a e in by_field a' fs.

Lemma by_field_fold a fs : foldR (absorb_frame absorb) a fs = by_field a fs.
Proof.
  revert a; induction fs as [|[k e] fs IH]; intros a; cbn [foldR]; [by rewrite by_field_nil|].
  rewrite by_field_cons. unfold absorb_frame at 1; cbn [fst snd].
  destruct (absorb k a e); cbn [rbind]; [apply IH|done].
Qed.

Lemma message_any a l :
  fits l ->
  pb_fields handle a (of_bytes l) =
  match split_frames (S (length l)) l with
  | Some fs => let! a' := by_field a fs in Ok (a', cur l [] 0)
  | None => Err ParserException
  end.
Proof.
  intros. rewrite (pb_fields_any handle absorb) by done.
  destruct (split_frames _ l); [|done]. by rewrite by_field_fold.
Qed.

Lemma message_frames a a' fs :
  Forall frame_ok fs -> fits (frames_bytes fs) -> by_field a fs = Ok a' ->
  pb_fields handle a (of_bytes (frames_bytes fs)) = Ok (a', cur (frames_bytes fs) [] 0).
Proof.
  intros ? ? E. rewrite (pb_fields_frames handle absorb) by done. by rewrite by_field_fold, E.
Qed.

End Message.

(** One WritePb of a chain. *)
Lemma WritePb_ok {T} (c : pb T) `{!PbCodec c} seq v s :
  pb_dom v -> 0 <= seq <= INT32_MAX ->
  WritePb c seq v s = Ok (Append (frames_bytes (frames seq (pb_entries v))) s).
Proof. intros Hv Hs. by destruct (pb_write seq v s Hv Hs). Qed.

Lemma frames_entries_ok {T} (c : pb T) `{!PbCodec c} seq v :
  pb_dom v -> 0 <= seq <= INT32_MAX -> Forall frame_ok (frames seq (pb_entries v)).
Proof. intros Hv Hs. by destruct (pb_write seq v empty_stream Hv Hs). Qed.

(** The frames of one field among those a structure writes. *)
Ltac own_frames :=
  match goal with |- of_field _ (?f _) = _ => unfold f | _ => idtac end;
  rewrite ?of_field_app, !of_field_frames; cbn [Z.eqb Pos.eqb app]; by rewrite ?app_nil_r.

Ltac write_fields :=
  repeat match goal with
  | |- context [WritePb ?c ?k ?v _] => rewrite (WritePb_ok c k v) by done; cbn [rbind]
  end.

(** The order in which two fields fail does not show: both throw ParserException. *)
Ltac fields_commute :=
  intros; cbn [fst snd]; rewrite ?field_value_cons; unfold absorb_into;
  repeat match goal with |- context [if ?k =? ?n then _ else _] => destruct (Z.eqb_spec k n); subst; try lia end;
  cbn [Z.eqb Pos.eqb rbind];
  repeat match goal with
  | _ => progress cbn [rbind ri_sName ri_iId ri_sIp ri_sPort ri_sZone hb_sName hb_iId hr_iCode rp_vNames pr_iCode pr_vList]
  | |- context [pb_absorb ?o ?e] =>
      let E := fresh in destruct (pb_absorb o e) eqn:E; cbn [rbind]; [|apply pb_absorb_err in E as ->]
  | |- context [field_value ?c ?n ?o ?fs] =>
      let E := fresh in destruct (field_value c n o fs) eqn:E; cbn [rbind]; [|apply field_value_err in E as ->]
  end; done.

(** *** RegInstance *)

Definition absorb_RegInstance (seq : Z) (m : RegInstance) (e : list byte) : result RegInstance :=
  let '(mkRegInstance n i ip po z) := m in
  if seq =? 0 then absorb_into pb_string ri_sName (fun n => mkRegInstance n i ip po z) m e
  else if seq =? 1 then absorb_into pb_int32 ri_iId (fun i => mkRegInstance n i ip po z) m e
  else if seq =? 2 then absorb_into pb_string ri_sIp (fun ip => mkRegInstance n i ip po z) m e
  else if seq =? 3 then absorb_into pb_string ri_sPort (fun po => mkRegInstance n i ip po z) m e
  else if seq =? 4 then absorb_into pb_string ri_sZone (fun z => mkRegInstance n i ip po z) m e
  else Ok m.

Lemma switch_RegInstance_local seq e m pre rest sn :
  0 <= seq <= INT32_MAX -> lenZ e <= INT32_MAX -> fits (pre ++ e ++ rest) ->
  switch_RegInstance seq (lenZ e) m (cur pre (e ++ rest) sn) =
  (let! m' := absorb_RegInstance seq m e in Ok (m', cur (pre ++ e) rest sn)).
Proof. unfold switch_RegInstance, absorb_RegInstance. switch_local. Qed.

Lemma absorb_RegInstance_err seq m e x : absorb_RegInstance seq m e = Err x -> x = ParserException.
Proof. unfold absorb_RegInstance. destruct m. switch_err. Qed.

(** What a message says of an instance: each member by its own frames. *)
Definition RegInstance_of (m : RegInstance) (fs : list frame_t) : result RegInstance :=
  let! n := field_value pb_string 0 (ri_sName m) fs in
  let! i := field_value pb_int32 1 (ri_iId m) fs in
  let! ip := field_value pb_string 2 (ri_sIp m) fs in
  let! po := field_value pb_string 3 (ri_sPort m) fs in
  let! z := field_value pb_string 4 (ri_sZone m) fs in
  Ok (mkRegInstance n i ip po z).

Lemma RegInstance_of_nil m : RegInstance_of m [] = Ok m.
Proof. by destruct m. Qed.

Lemma RegInstance_of_cons m k e fs :
  RegInstance_of m ((k, e) :: fs) = let! m' := absorb_RegInstance k m e in RegInstance_of m' fs.
Proof. destruct m. unfold RegInstance_of, absorb_RegInstance. fields_commute. Qed.

Definition RegInstance_frames (m : RegInstance) : list frame_t :=
  frames 0 (pb_entries (c := pb_string) (ri_sName m)) ++ frames 1 (pb_entries (c := pb_int32) (ri_iId m)) ++
  frames 2 (pb_entries (c := pb_string) (ri_sIp m)) ++ frames 3 (pb_entries (c := pb_string) (ri_sPort m)) ++
  frames 4 (pb_entries (c := pb_string) (ri_sZone m)).

Definition RegInstance_dom (m : RegInstance) : Prop :=
  lenZ (ri_sName m) <= INT32_MAX /\ int_dom 4 true (ri_iId m) /\ lenZ (ri_sIp m) <= INT32_MAX /\
  lenZ (ri_sPort m) <= INT32_MAX /\ lenZ (ri_sZone m) <= INT32_MAX.

Lemma RegInstance_frames_ok m : RegInstance_dom m -> Forall frame_ok (RegInstance_frames m).
Proof.
  intros (? & ? & ? & ? & ?). unfold RegInstance_frames. rewrite !Forall_app.
  split_and!; by apply frames_entries_ok.
Qed.

#[export] Instance ser_RegInstance_ok : SerializeOk ser_RegInstance.
Proof.
  refine {| ser_dom := RegInstance_dom; ser_fresh _ := True;
            ser_bytes m := frames_bytes (RegInstance_frames m) |}.
  - intros m s (? & ? & ? & ? & ?). cbn [serialize ser_RegInstance]. unfold serialize_RegInstance.
    write_fields.
    unfold RegInstance_frames. rewrite !frames_bytes_app, !Append_Append. by rewrite <- ?app_assoc.
  - intros old m _ Hm Hf.
    apply (message_frames _ _ switch_RegInstance_local RegInstance_of RegInstance_of_nil RegInstance_of_cons);
      [by apply RegInstance_frames_ok|done|].
    destruct Hm as (? & ? & ? & ? & ?). unfold RegInstance_of.
    rewrite (field_value_round pb_string 0 _ (ri_sName m)); [cbn [rbind]|done|done|own_frames].
    rewrite (field_value_round pb_int32 1 _ (ri_iId m)); [cbn [rbind]|done|done|own_frames].
    rewrite (field_value_round pb_string 2 _ (ri_sIp m)); [cbn [rbind]|done|done|own_frames].
    rewrite (field_value_round pb_string 3 _ (ri_sPort m)); [cbn [rbind]|done|done|own_frames].
    rewrite (field_value_round pb_string 4 _ (ri_sZone m)); [cbn [rbind]|done|done|own_frames].
    by destruct m.
  - intros old l Hf. apply (pb_fields_safe _ _ switch_RegInstance_local absorb_RegInstance_err _ _ Hf).
Defined.

#[export] Instance ser_RegRegister_ok : SerializeOk ser_RegRegister := ser_RegInstance_ok.

(** *** RegHeartbeat, RegHeartbeatRes and RegRegisterRes *)

Definition absorb_RegHeartbeat (seq : Z) (m : RegHeartbeat) (e : list byte) : result RegHeartbeat :=
  let '(mkRegHeartbeat n i) := m in
  if seq =? 0 then absorb_into pb_string hb_sName (fun n => mkRegHeartbeat n i) m e
  else if seq =? 1 then absorb_into pb_int32 hb_iId (fun i => mkRegHeartbeat n i) m e
  else Ok m.

Lemma switch_RegHeartbeat_local seq e m pre rest sn :
  0 <= seq <= INT32_MAX -> lenZ e <= INT32_MAX -> fits (pre ++ e ++ rest) ->
  switch_RegHeartbeat seq (lenZ e) m (cur pre (e ++ rest) sn) =
  (let! m' := absorb_RegHeartbeat seq m e in Ok (m', cur (pre ++ e) rest sn)).
Proof. unfold switch_RegHeartbeat, absorb_RegHeartbeat. switch_local. Qed.

Lemma absorb_RegHeartbeat_err seq m e x : absorb_RegHeartbeat seq m e = Err x -> x = ParserException.
Proof. unfold absorb_RegHeartbeat. destruct m. switch_err. Qed.

Definition RegHeartbeat_of (m : RegHeartbeat) (fs : list frame_t) : result RegHeartbeat :=
  let! n := field_value pb_string 0 (hb_sName m) fs in
  let! i := field_value pb_int32 1 (hb_iId m) fs in
  Ok (mkRegHeartbeat n i).

Lemma RegHeartbeat_of_nil m : RegHeartbeat_of m [] = Ok m.
Proof. by destruct m. Qed.

Lemma RegHeartbeat_of_cons m k e fs :
  RegHeartbeat_of m ((k, e) :: fs) = let! m' := absorb_RegHeartbeat k m e in RegHeartbeat_of m' fs.
Proof. destruct m. unfold RegHeartbeat_of, absorb_RegHeartbeat. fields_commute. Qed.

Definition RegHeartbeat_frames (m : RegHeartbeat) : list frame_t :=
  frames 0 (pb_entries (c := pb_string) (hb_sName m)) ++ frames 1 (pb_entries (c := pb_int32) (hb_iId m)).

#[export] Instance ser_RegHeartbeat_ok : SerializeOk ser_RegHeartbeat.
Proof.
  refine {| ser_dom m := lenZ (hb_sName m) <= INT32_MAX /\ int_dom 4 true (hb_iId m); ser_fresh _ := True;
            ser_bytes m := frames_bytes (RegHeartbeat_frames m) |}.
  - intros m s [? ?]. cbn [serialize ser_RegHeartbeat]. unfold serialize_RegHeartbeat. write_fields.
    unfold RegHeartbeat_frames. by rewrite frames_bytes_app, Append_Append.
  - intros old m _ [? ?] Hf.
    apply (message_frames _ _ switch_RegHeartbeat_local RegHeartbeat_of RegHeartbeat_of_nil RegHeartbeat_of_cons);
      [|done|].
    { unfold RegHeartbeat_frames. rewrite Forall_app. split; by apply frames_entries_ok. }
    unfold RegHeartbeat_of.
    rewrite (field_value_round pb_string 0 _ (hb_sName m)); [cbn [rbind]|done|done|own_frames].
    rewrite (field_value_round pb_int32 1 _ (hb_iId m)); [cbn [rbind]|done|done|own_frames].
    by destruct m.
  - intros old l Hf. apply (pb_fields_safe _ _ switch_RegHeartbeat_local absorb_RegHeartbeat_err _ _ Hf).
Defined.

Definition absorb_RegHeartbeatRes (seq : Z) (m : RegHeartbeatRes) (e : list byte) : result RegHeartbeatRes :=
  if seq =? 0 then absorb_into pb_int32 hr_iCode mkRegHeartbeatRes m e else Ok m.

Lemma switch_RegHeartbeatRes_local seq e m pre rest sn :
  0 <= seq <= INT32_MAX -> lenZ e <= INT32_MAX -> fits (pre ++ e ++ rest) ->
  switch_RegHeartbeatRes seq (lenZ e) m (cur pre (e ++ rest) sn) =
  (let! m' := absorb_RegHeartbeatRes seq m e in Ok (m', cur (pre ++ e) rest sn)).
Proof. unfold switch_RegHeartbeatRes, absorb_RegHeartbeatRes. switch_local. Qed.

Lemma absorb_RegHeartbeatRes_err seq m e x : absorb_RegHeartbeatRes seq m e = Err x -> x = ParserException.
Proof. unfold absorb_RegHeartbeatRes. switch_err. Qed.

Definition RegHeartbeatRes_of (m : RegHeartbeatRes) (fs : list frame_t) : result RegHeartbeatRes :=
  let! c := field_value pb_int32 0 (hr_iCode m) fs in Ok (mkRegHeartbeatRes c).

Lemma RegHeartbeatRes_of_nil m : RegHeartbeatRes_of m [] = Ok m.
Proof. by destruct m. Qed.

Lemma RegHeartbeatRes_of_cons m k e fs :
  RegHeartbeatRes_of m ((k, e) :: fs) = let! m' := absorb_RegHeartbeatRes k m e in RegHeartbeatRes_of m' fs.
Proof. destruct m. unfold RegHeartbeatRes_of, absorb_RegHeartbeatRes. cbn [hr_iCode]. fields_commute. Qed.

#[export] Instance ser_RegHeartbeatRes_ok : SerializeOk ser_RegHeartbeatRes.
Proof.
  refine {| ser_dom m := int_dom 4 true (hr_iCode m); ser_fresh _ := True;
            ser_bytes m := frames_bytes (frames 0 (pb_entries (c := pb_int32) (hr_iCode m))) |}.
  - intros m s ?. cbn [serialize ser_RegHeartbeatRes]. unfold serialize_RegHeartbeatRes. by write_fields.
  - intros old m _ ? Hf.
    apply (message_frames _ _ switch_RegHeartbeatRes_local RegHeartbeatRes_of RegHeartbeatRes_of_nil
      RegHeartbeatRes_of_cons); [by apply frames_entries_ok|done|].
    unfold RegHeartbeatRes_of.
    rewrite (field_value_round pb_int32 0 _ (hr_iCode m)); [cbn [rbind]|done|done|own_frames].
    by destruct m.
  - intros old l Hf. apply (pb_fields_safe _ _ switch_RegHeartbeatRes_local absorb_RegHeartbeatRes_err _ _ Hf).
Defined.

#[export] Instance ser_RegRegisterRes_ok : SerializeOk ser_RegRegisterRes := ser_RegHeartbeatRes_ok.

(** *** RegPull and RegPullRes *)

#[export] Instance pb_names_codec : PbCodec pb_names := pb_vector_codec pb_string [] I.

#[export] Instance pb_instances_codec : PbCodec pb_instances :=
  pb_vector_codec (pb_serialize ser_RegInstance) new_RegInstance I.

Definition absorb_RegPull (seq : Z) (m : RegPull) (e : list byte) : result RegPull :=
  if seq =? 0 then absorb_into pb_names rp_vNames mkRegPull m e else Ok m.

Lemma switch_RegPull_local seq e m pre rest sn :
  0 <= seq <= INT32_MAX -> lenZ e <= INT32_MAX -> fits (pre ++ e ++ rest) ->
  switch_RegPull seq (lenZ e) m (cur pre (e ++ rest) sn) =
  (let! m' := absorb_RegPull seq m e in Ok (m', cur (pre ++ e) rest sn)).
Proof. unfold switch_RegPull, absorb_RegPull. switch_local. Qed.

Lemma absorb_RegPull_err seq m e x : absorb_RegPull seq m e = Err x -> x = ParserException.
Proof. unfold absorb_RegPull. switch_err. Qed.

Definition RegPull_of (m : RegPull) (fs : list frame_t) : result RegPull :=
  let! l := field_value pb_names 0 (rp_vNames m) fs in Ok (mkRegPull l).

Lemma RegPull_of_nil m : RegPull_of m [] = Ok m.
Proof. by destruct m. Qed.

Lemma RegPull_of_cons m k e fs :
  RegPull_of m ((k, e) :: fs) = let! m' := absorb_RegPull k m e in RegPull_of m' fs.
Proof. destruct m. unfold RegPull_of, absorb_RegPull. cbn [rp_vNames]. fields_commute. Qed.

#[export] Instance ser_RegPull_ok : SerializeOk ser_RegPull.
Proof.
  refine {| ser_dom m := Forall (fun n => lenZ n <= INT32_MAX) (rp_vNames m); ser_fresh _ := True;
            ser_bytes m := frames_bytes (frames 0 (pb_entries (c := pb_names) (rp_vNames m))) |}.
  - intros m s ?. cbn [serialize ser_RegPull]. unfold serialize_RegPull. by write_fields.
  - intros old m _ ? Hf.
    apply (message_frames _ _ switch_RegPull_local RegPull_of RegPull_of_nil RegPull_of_cons);
      [by apply frames_entries_ok|done|].
    unfold RegPull_of.
    rewrite (field_value_round pb_names 0 _ (rp_vNames m)); [cbn [rbind]|done|done|own_frames].
    by destruct m.
  - intros old l Hf. apply (pb_fields_safe _ _ switch_RegPull_local absorb_RegPull_err _ _ Hf).
Defined.

Definition absorb_RegPullRes (seq : Z) (m : RegPullRes) (e : list byte) : result RegPullRes :=
  let '(mkRegPullRes c l) := m in
  if seq =? 0 then absorb_into pb_int32 pr_iCode (fun c => mkRegPullRes c l) m e
  else if seq =? 1 then absorb_into pb_instances pr_vList (fun l => mkRegPullRes c l) m e
  else Ok m.

Lemma switch_RegPullRes_local seq e m pre rest sn :
  0 <= seq <= INT32_MAX -> lenZ e <= INT32_MAX -> fits (pre ++ e ++ rest) ->
  switch_RegPullRes seq (lenZ e) m (cur pre (e ++ rest) sn) =
  (let! m' := absorb_RegPullRes seq m e in Ok (m', cur (pre ++ e) rest sn)).
Proof. unfold switch_RegPullRes, absorb_RegPullRes. switch_local. Qed.

Lemma absorb_RegPullRes_err seq m e x : absorb_RegPullRes seq m e = Err x -> x = ParserException.
Proof. unfold absorb_RegPullRes. destruct m. switch_err. Qed.

Definition RegPullRes_of (m : RegPullRes) (fs : list frame_t) : result RegPullRes :=
  let! c := field_value pb_int32 0 (pr_iCode m) fs in
  let! l := field_value pb_instances 1 (pr_vList m) fs in
  Ok (mkRegPullRes c l).

Lemma RegPullRes_of_nil m : RegPullRes_of m [] = Ok m.
Proof. by destruct m. Qed.

Lemma RegPullRes_of_cons m k e fs :
  RegPullRes_of m ((k, e) :: fs) = let! m' := absorb_RegPullRes k m e in RegPullRes_of m' fs.
Proof. destruct m. unfold RegPullRes_of, absorb_RegPullRes. fields_commute. Qed.

Definition RegPullRes_frames (m : RegPullRes) : list frame_t :=
  frames 0 (pb_entries (c := pb_int32) (pr_iCode m)) ++ frames 1 (pb_entries (c := pb_instances) (pr_vList m)).

(** An instance is sent with its size in 31 bits. *)
Definition RegPullRes_dom (m : RegPullRes) : Prop :=
  int_dom 4 true (pr_iCode m) /\
  Forall (fun i => RegInstance_dom i /\ lenZ (frames_bytes (RegInstance_frames i)) <= INT32_MAX) (pr_vList m).

Lemma RegPullRes_frames_ok m : RegPullRes_dom m -> Forall frame_ok (RegPullRes_frames m).
Proof.
  intros [? ?]. unfold RegPullRes_frames. rewrite Forall_app. split; by apply frames_entries_ok.
Qed.

#[export] Instance ser_RegPullRes_ok : SerializeOk ser_RegPullRes.
Proof.
  refine {| ser_dom := RegPullRes_dom; ser_fresh _ := True;
            ser_bytes m := frames_bytes (RegPullRes_frames m) |}.
  - intros m s [? ?]. cbn [serialize ser_RegPullRes]. unfold serialize_RegPullRes. write_fields.
    unfold RegPullRes_frames. by rewrite frames_bytes_app, Append_Append.
  - intros old m _ Hm Hf.
    apply (message_frames _ _ switch_RegPullRes_local RegPullRes_of RegPullRes_of_nil RegPullRes_of_cons);
      [by apply RegPullRes_frames_ok|done|].
    destruct Hm. unfold RegPullRes_of.
    rewrite (field_value_round pb_int32 0 _ (pr_iCode m)); [cbn [rbind]|done|done|own_frames].
    rewrite (field_value_round pb_instances 1 _ (pr_vList m)); [cbn [rbind]|done|done|own_frames].
    by destruct m.
  - intros old l Hf. apply (pb_fields_safe _ _ switch_RegPullRes_local absorb_RegPullRes_err _ _ Hf).
Defined.

(** ** Laws of the JSON form *)

Lemma from_member_written {A T} (c : json T) `{!JsonCodec c} name (get : A -> T) (set : T -> A) o m v :
  obj_lookup name o = Some (ToJsonValue c v) -> js_dom v -> from_member c name get set o m = (true, set v).
Proof. intros E Hv. unfold from_member, json_member. by rewrite E, js_round. Qed.

#[export] Instance json_RegInstance_ok : JsonCodec json_RegInstance.
Proof.
  refine {| js_dom := fun m => int_dom 4 true (ri_iId m) |}.
  intros [n i ip po z] [n0 i0 ip0 po0 z0] Hi. cbn [ToJsonValue FromJsonValue json_RegInstance].
  assert (js_dom (c := json_int32) i) as Hj by (unfold int_dom in Hi; simpl in *; lia).
  unfold ToJson_RegInstance, FromJson_RegInstance.
  do 4 (erewrite from_member_written by (reflexivity || done); unfold and_then; cbn [fst snd]).
  by erewrite from_member_written by (reflexivity || done).
Defined.

#[export] Instance json_RegPullRes_ok : JsonCodec json_RegPullRes.
Proof.
  refine {| js_dom := fun m => int_dom 4 true (pr_iCode m) /\ Forall js_dom (pr_vList m) |}.
  intros [c l] [c0 l0] [Hc Hl]. cbn [ToJsonValue FromJsonValue json_RegPullRes].
  assert (js_dom (c := json_int32) c) as Hj by (unfold int_dom in Hc; simpl in *; lia).
  unfold ToJson_RegPullRes, FromJson_RegPullRes.
  erewrite from_member_written by (reflexivity || done). unfold and_then. cbn [fst snd].
  by erewrite from_member_written by (reflexivity || done).
Defined.

(** ** Properties *)

(** C28: the registry's answer survives the wire.  Serialising a pull reply
    and deserialising the bytes into any object, whatever it held before, gives
    the reply: the code, and the instances in order, each with its five members. *)
Theorem RegPullRes_roundtrip (m old : RegPullRes) :
  RegPullRes_dom m -> fits (frames_bytes (RegPullRes_frames m)) ->
  exists stOut, serialize_RegPullRes m empty_stream = Ok stOut /\
    deserialize_RegPullRes old (of_bytes (data stOut)) = Ok (m, cur (data stOut) [] 0).
Proof.
  intros Hm Hf. exists (Append (ser_bytes (o := ser_RegPullRes) m) empty_stream).
  split; [by apply (ser_write (o := ser_RegPullRes))|].
  rewrite Append_empty. by apply (ser_read (o := ser_RegPullRes)).
Qed.

(** A pull reply deserialised from arbitrary bytes.  It never reads
    outside them and it ends; bytes that are not a sequence of frames, or a frame
    a member cannot take, throw ParserException; otherwise each member is decided
    by its own frames alone, whatever their order among the others: the code by
    the last of its frames (the old code if there is none), the list by one
    instance per frame, starting from empty and not from what the object held. *)
Theorem RegPullRes_deserialize_any (old : RegPullRes) (l : list byte) :
  fits l ->
  deserialize_RegPullRes old (of_bytes l) =
  match split_frames (S (length l)) l with
  | None => Err ParserException
  | Some fs =>
      let! c := foldR (fun _ e => if lenZ e =? 4 then Ok (wrap_s 32 (le_decode e)) else Err ParserException)
                  (pr_iCode old) (of_field 0 fs) in
      let! l' := foldR (fun vs e =>
                    if 0x7FFFFFFF <? lenZ e then Err ParserException
                    else let! r := deserialize_RegInstance new_RegInstance (of_bytes e) in Ok (vs ++ [fst r]))
                  [] (of_field 1 fs) in
      Ok (mkRegPullRes c l', cur l [] 0)
  end.
Proof.
  intros Hf. unfold deserialize_RegPullRes.
  rewrite (message_any _ _ switch_RegPullRes_local absorb_RegPullRes_err RegPullRes_of RegPullRes_of_nil
    RegPullRes_of_cons) by done.
  destruct (split_frames _ l) as [fs|]; [|done]. unfold RegPullRes_of, field_value. cbn [pr_iCode pr_vList].
  rewrite (foldR_ext (pb_absorb (c := pb_int32))
    (fun _ e => if lenZ e =? 4 then Ok (wrap_s 32 (le_decode e)) else Err ParserException)) by done.
  destruct (foldR _ (pr_iCode old) _) as [c|]; cbn [rbind]; [|done].
  rewrite (foldR_ext (pb_absorb (c := pb_instances)) (fun vs e =>
    if 0x7FFFFFFF <? lenZ e then Err ParserException
    else let! r := deserialize_RegInstance new_RegInstance (of_bytes e) in Ok (vs ++ [fst r]))).
  - by destruct (foldR _ [] _).
  - intros vs e. cbn [pb_absorb pb_instances_codec pb_vector_codec]. unfold vec_absorb. cbn [pb_absorb pb_serialize_codec].
    destruct (0x7FFFFFFF <? lenZ e); [done|]. cbn [deserialize ser_RegInstance].
    by destruct (deserialize_RegInstance _ _).
Qed.

(** Likewise for an instance, and so for RegRegister: each of the five
    members is decided by its own frames; unknown field numbers are skipped,
    missing members keep what they held. *)
Theorem RegInstance_deserialize_any (old : RegInstance) (l : list byte) :
  fits l ->
  deserialize_RegInstance old (of_bytes l) =
  match split_frames (S (length l)) l with
  | None => Err ParserException
  | Some fs =>
      let last_or {A} (d : A) (l : list A) := default d (last l) in
      let! i := foldR (fun _ e => if lenZ e =? 4 then Ok (wrap_s 32 (le_decode e)) else Err ParserException)
                  (ri_iId old) (of_field 1 fs) in
      Ok (mkRegInstance (last_or (ri_sName old) (of_field 0 fs)) i (last_or (ri_sIp old) (of_field 2 fs))
            (last_or (ri_sPort old) (of_field 3 fs)) (last_or (ri_sZone old) (of_field 4 fs)), cur l [] 0)
  end.
Proof.
  intros Hf. unfold deserialize_RegInstance.
  rewrite (message_any _ _ switch_RegInstance_local absorb_RegInstance_err RegInstance_of RegInstance_of_nil
    RegInstance_of_cons) by done.
  destruct (split_frames _ l) as [fs|]; [|done]. unfold RegInstance_of.
  assert (forall seq old, field_value pb_string seq old fs = Ok (default old (last (of_field seq fs)))) as Hs.
  { intros seq o. unfold field_value. generalize (of_field seq fs) as es; intros es; revert o.
    induction es as [|e es IH]; intros o; [done|]. cbn [foldR pb_absorb pb_string_codec rbind].
    rewrite IH. destruct es as [|e' es]; [done|]. change (last (e :: e' :: es)) with (last (e' :: es)).
    destruct (last (e' :: es)) eqn:E; [done|]. by apply last_None in E. }
  rewrite !Hs. cbn [rbind]. unfold field_value.
  rewrite (foldR_ext (pb_absorb (c := pb_int32))
    (fun _ e => if lenZ e =? 4 then Ok (wrap_s 32 (le_decode e)) else Err ParserException)) by done.
  by destruct (foldR _ (ri_iId old) _).
Qed.

(** The pull reply also survives the JSON form, into any object. *)
Theorem RegPullRes_json_roundtrip (m old : RegPullRes) :
  int_dom 4 true (pr_iCode m) -> Forall (fun i => int_dom 4 true (ri_iId i)) (pr_vList m) ->
  FromJson_RegPullRes (ToJson_RegPullRes m) old = (true, m).
Proof. intros. by apply (js_round (c := json_RegPullRes)). Qed.

(** FromJson that fails may leave the object changed: members read
    before the offending one are kept.  For every instance and every new name, a
    text object whose [id] is not an integer is refused, with the name replaced. *)
Theorem FromJson_failure_is_partial (m : RegInstance) (name : list byte) (j : value) :
  FromJsonValue json_int32 j (ri_iId m) = (false, ri_iId m) ->
  FromJson_RegInstance (objectValue [(txt "id", j); (txt "name", stringValue name)]) m =
  (false, mkRegInstance name (ri_iId m) (ri_sIp m) (ri_sPort m) (ri_sZone m)).
Proof.
  intros E. destruct m as [n i ip po z]. cbn [ri_iId] in E. unfold FromJson_RegInstance.
  unfold from_member at 1, json_member. cbn [obj_lookup].
  rewrite decide_False by done. rewrite decide_True by done. unfold and_then at 1.
  cbn [FromJsonValue json_string fst snd]. unfold from_member at 1, json_member. cbn [obj_lookup].
  rewrite decide_True by done. cbn [ri_iId]. by rewrite E.
Qed.

(** ** Witnesses *)

Definition demo_instance (n : Z) : RegInstance :=
  mkRegInstance (txt "logd") n (txt "10.0.0.1") (txt "7001") (txt "z1").

Definition demo_reply : RegPullRes := mkRegPullRes (-1) [demo_instance 1; demo_instance 2].

Ltac in_domain := vm_compute; repeat match goal with |- _ /\ _ => split end; congruence.

Lemma RegPullRes_roundtrip_witness :
  RegPullRes_dom demo_reply /\
  exists stOut, serialize_RegPullRes demo_reply empty_stream = Ok stOut /\
    deserialize_RegPullRes demo_reply (of_bytes (data stOut)) = Ok (demo_reply, cur (data stOut) [] 0).
Proof.
  assert (RegPullRes_dom demo_reply) as Hd.
  { split; [in_domain|]. repeat apply Forall_cons_2; [..|apply Forall_nil_2]; split; in_domain. }
  split; [exact Hd|]. apply (RegPullRes_roundtrip demo_reply demo_reply Hd). in_domain.
Defined.

Definition demo_message : list byte :=
  frames_bytes [(1, ser_bytes (demo_instance 3)); (0, le_encode 4 7); (9, []); (0, le_encode 4 8)].

Lemma RegPullRes_deserialize_any_witness :
  deserialize_RegPullRes demo_reply (of_bytes demo_message) =
  Ok (mkRegPullRes 8 [demo_instance 3], cur demo_message [] 0).
Proof. rewrite (RegPullRes_deserialize_any demo_reply demo_message ltac:(in_domain)). reflexivity. Defined.

Lemma RegInstance_deserialize_any_witness :
  deserialize_RegInstance (demo_instance 3) (of_bytes (frames_bytes [(7, []); (4, txt "z2")])) =
  Ok (mkRegInstance (txt "logd") 3 (txt "10.0.0.1") (txt "7001") (txt "z2"),
      cur (frames_bytes [(7, []); (4, txt "z2")]) [] 0).
Proof.
  rewrite (RegInstance_deserialize_any (demo_instance 3) (frames_bytes [(7, []); (4, txt "z2")]) ltac:(in_domain)).
  reflexivity.
Defined.

Lemma RegPullRes_json_roundtrip_witness :
  FromJson_RegPullRes (ToJson_RegPullRes demo_reply) (mkRegPullRes 0 []) = (true, demo_reply).
Proof.
  apply (RegPullRes_json_roundtrip demo_reply (mkRegPullRes 0 [])); [in_domain|].
  repeat apply Forall_cons_2; [..|apply Forall_nil_2]; in_domain.
Defined.

Lemma FromJson_failure_is_partial_witness :
  FromJson_RegInstance (objectValue [(txt "id", stringValue (txt "4")); (txt "name", stringValue (txt "x"))])
    (demo_instance 3) = (false, mkRegInstance (txt "x") 3 (txt "10.0.0.1") (txt "7001") (txt "z1")).
Proof. apply (FromJson_failure_is_partial (demo_instance 3) (txt "x") (stringValue (txt "4"))). reflexivity. Defined.

End RpcData.
