(* ===== verification/Timer.v ===== *)
(** * The timer wheel

    cbaselib/timer: oi_timer.h/.cpp (BaseTimer), oi_timer_level.h/.cpp
    (TimerLevel), oi_timer_manager.h/.cpp (BaseTimerManager).

    A timer is a pointer: here an identifier, with the TimerData of the object
    it points to in the manager's [timers].  RunTick calls add_timer of the
    manager that owns the level, so every operation takes the whole manager;
    a level is named by its index.  The calls happen under m_stWheelMutex (and
    a level's m_stLocker within it): an operation is one atomic step.  OnTimer
    runs outside the lock and is a parameter. *)

From S2P Require Import Prelude.

Module Timer.

Abbreviation timer := nat.

Record TimerData : Type := mkTimerData {
  m_stTriggerTimestamp : Z * Z;
  m_iOffsetMilliseconds : Z;
  m_iTriggerTick : Z;
  m_pCurrentLevel : option nat;
  m_iLevelTick : Z
}.

(** The constructor of BaseTimer. *)
Definition new_TimerData : TimerData := mkTimerData (0, 0) 0 0 None 0.

Record TimerLevel : Type := mkTimerLevel {
  m_iMaxTick : Z;
  m_iLevelOffsetTick : Z;
  m_iOffset : Z;
  m_vTimerTickDatas : list (list timer)
}.

(** [m_stLastTickMonotonic] is in nanoseconds of the steady clock. *)
Record manager : Type := mkManager {
  m_stLastTickMonotonic : Z;
  m_stCurrentTimeValue : Z * Z;
  m_iCurrentTick : Z;
  m_iTickOffsetMilliseconds : Z;
  m_iTimerLevelCount : nat;
  m_vTimerLevels : list TimerLevel;
  timers : gmap timer TimerData
}.

Definition set_levels (lvs : list TimerLevel) (m : manager) : manager :=
  mkManager (m_stLastTickMonotonic m) (m_stCurrentTimeValue m) (m_iCurrentTick m)
    (m_iTickOffsetMilliseconds m) (m_iTimerLevelCount m) lvs (timers m).
Definition set_timers (ts : gmap timer TimerData) (m : manager) : manager :=
  mkManager (m_stLastTickMonotonic m) (m_stCurrentTimeValue m) (m_iCurrentTick m)
    (m_iTickOffsetMilliseconds m) (m_iTimerLevelCount m) (m_vTimerLevels m) ts.
Definition set_clock (mono tick : Z) (m : manager) : manager :=
  mkManager mono (m_stCurrentTimeValue m) tick
    (m_iTickOffsetMilliseconds m) (m_iTimerLevelCount m) (m_vTimerLevels m) (timers m).
Definition set_wall (tv : Z * Z) (m : manager) : manager :=
  mkManager (m_stLastTickMonotonic m) tv (m_iCurrentTick m)
    (m_iTickOffsetMilliseconds m) (m_iTimerLevelCount m) (m_vTimerLevels m) (timers m).

Definition slots (lv : TimerLevel) : list (list timer) := m_vTimerTickDatas lv.

Definition timer_data (p : timer) (m : manager) : TimerData := default new_TimerData (timers m !! p).

Section Program.
(** Whether assert() is compiled out. *)
Context (ndebug : bool).

Definition assert (c : bool) : result unit := if ndebug || c then Ok tt else Err AssertFail.

(** ** TimerLevel *)

Definition Level_Init (iMaxTick iLevelOffsetTick : Z) : result TimerLevel :=
  let! _ := assert (0 <? iLevelOffsetTick) in
  let! _ := assert (0 <? iMaxTick) in
  Ok (mkTimerLevel iMaxTick iLevelOffsetTick 0 (replicate (Z.to_nat iMaxTick) [])).

Definition get_level (i : nat) (m : manager) : result TimerLevel :=
  match m_vTimerLevels m !! i with Some lv => Ok lv | None => Err Undefined end.

Definition put_level (i : nat) (lv : TimerLevel) (m : manager) : manager :=
  set_levels (<[i := lv]> (m_vTimerLevels m)) m.

(** m_vTimerTickDatas[iSlot] *)
Definition get_slot (iSlot : Z) (lv : TimerLevel) : result (list timer) :=
  if iSlot <? 0 then Err Undefined
  else match m_vTimerTickDatas lv !! Z.to_nat iSlot with Some l => Ok l | None => Err Undefined end.

Definition put_slot (iSlot : Z) (l : list timer) (lv : TimerLevel) : TimerLevel :=
  mkTimerLevel (m_iMaxTick lv) (m_iLevelOffsetTick lv) (m_iOffset lv)
    (<[Z.to_nat iSlot := l]> (m_vTimerTickDatas lv)).

Definition Level_AddTimer (i : nat) (pTimer : timer) (iLevelOffset : Z) (m : manager) : result manager :=
  let! lv := get_level i m in
  let! _ := assert ((0 <=? iLevelOffset) && (iLevelOffset <? m_iMaxTick lv)) in
  let iOffset := s32 (u32 (iLevelOffset + m_iOffset lv) mod m_iMaxTick lv) in
  let! l := get_slot iOffset lv in
  let d := timer_data pTimer m in
  Ok (set_timers
        (<[pTimer := mkTimerData (m_stTriggerTimestamp d) (m_iOffsetMilliseconds d) (m_iTriggerTick d)
                       (Some i) (u32 iOffset)]> (timers m))
        (put_level i (put_slot iOffset (l ++ [pTimer]) lv) m)).

Fixpoint list_erase (p : timer) (l : list timer) : option (list timer) :=
  match l with
  | [] => None
  | q :: l => if decide (q = p) then Some l else cons q <$> list_erase p l
  end.

Definition Level_RemoveTimer (i : nat) (pTimer : timer) (m : manager) : result (bool * manager) :=
  let! lv := get_level i m in
  let iSlot := m_iLevelTick (timer_data pTimer m) in
  let! _ := assert ((0 <=? iSlot) && (iSlot <? m_iMaxTick lv)) in
  let! l := get_slot iSlot lv in
  match list_erase pTimer l with
  | Some l' => Ok (true, put_level i (put_slot iSlot l' lv) m)
  | None => Ok (false, m)
  end.

Definition IsLevelEnd (lv : TimerLevel) : bool := m_iOffset lv =? 0.

(** ** BaseTimerManager *)

(** The search of add_timer: the level and the slots from its current one. *)
Fixpoint find_level (n i : nat) (iOffset : Z) (m : manager) : result (option (nat * Z)) :=
  match n with
  | O => Ok None
  | S n =>
      let! lv := get_level i m in
      let iLevelOffset := Z.quot iOffset (m_iLevelOffsetTick lv) in
      let! _ := assert (1 <=? iLevelOffset) in
      let iLevelOffset := iLevelOffset - 1 in
      if m_iMaxTick lv <=? iLevelOffset then find_level n (S i) iOffset m
      else Ok (Some (i, iLevelOffset))
  end.

Definition add_timer (pTimer : timer) (m : manager) : result manager :=
  let iOffset := m_iTriggerTick (timer_data pTimer m) - m_iCurrentTick m in
  let iOffset := if iOffset <=? 0 then 1 else iOffset in
  let! found := find_level (m_iTimerLevelCount m - 1) 0 iOffset m in
  match found with
  | Some (i, iLevelOffset) => Level_AddTimer i pTimer (u32 iLevelOffset) m
  | None => Level_AddTimer (m_iTimerLevelCount m - 1) pTimer 0 m
  end.

(** TimerLevel::RunTick: with [bDue] the slot's timers are handed out,
    otherwise each is added again. *)
Definition RunTick (i : nat) (bDue : bool) (m : manager) : result (list timer * manager) :=
  let! lv := get_level i m in
  let! _ := assert ((0 <=? m_iOffset lv) && (m_iOffset lv <? m_iMaxTick lv)) in
  let! vCurrentList := get_slot (m_iOffset lv) lv in
  let lv := put_slot (m_iOffset lv) [] lv in
  let iOffset := u32 (m_iOffset lv + 1) in
  let! iOffset := (if m_iMaxTick lv <=? iOffset then
                     let! _ := assert (iOffset =? m_iMaxTick lv) in Ok 0
                   else Ok iOffset) in
  let m := put_level i (mkTimerLevel (m_iMaxTick lv) (m_iLevelOffsetTick lv) iOffset
                          (m_vTimerTickDatas lv)) m in
  if bDue then Ok (vCurrentList, m)
  else
    let! m := foldR (fun m p => add_timer p m) m vCurrentList in
    Ok ([], m).

(** One round [i] of the loop of try_uniform. *)
Definition uniform_level (m : manager) (i : nat) : result manager :=
  let! lv := get_level (i - 1) m in
  if IsLevelEnd lv then let! (_, m) := RunTick i false m in Ok m else Ok m.

Definition try_uniform (m : manager) : result manager :=
  foldR uniform_level m (seq 1 (m_iTimerLevelCount m - 1)).

Definition try_run_timer (m : manager) : result (list timer * manager) := RunTick 0 true m.

Definition run_tick (m : manager) : result (list timer * manager) :=
  let m := set_clock (m_stLastTickMonotonic m + m_iTickOffsetMilliseconds m * 1000000) (m_iCurrentTick m + 1) m in
  let! (vDue, m) := try_run_timer m in
  let! lv := get_level 0 m in
  let! m := (if IsLevelEnd lv then try_uniform m else Ok m) in
  Ok (vDue, m).

(** InitData of a timer. *)
Definition InitData (pTimer : timer) (iMillsec iTicks : Z) (m : manager) : result manager :=
  let! _ := assert (0 <? iMillsec) in
  let! _ := assert (0 <? iTicks) in
  let d := timer_data pTimer m in
  let iUs := fst (m_stCurrentTimeValue m) * 1000000 + snd (m_stCurrentTimeValue m) +
             iTicks * m_iTickOffsetMilliseconds m * 1000 in
  Ok (set_timers
        (<[pTimer := mkTimerData (Z.quot iUs 1000000, Z.rem iUs 1000000) iMillsec (m_iCurrentTick m + iTicks)
                       (m_pCurrentLevel d) (m_iLevelTick d)]> (timers m)) m).

(** The int argument is divided by an unsigned tick length. *)
Definition milling2tick (iMillisecond : Z) (m : manager) : Z :=
  let iOffset := s32 (u32 iMillisecond / m_iTickOffsetMilliseconds m) in
  u32 (iOffset + if 0 <? u32 iMillisecond mod m_iTickOffsetMilliseconds m then 1 else 0).

(** [now]: steady_clock::now() in nanoseconds. *)
Definition TicksFromNow (now iMillisecond : Z) (m : manager) : Z :=
  let iElapsedUs := Z.quot (now - m_stLastTickMonotonic m) 1000 in
  let iElapsedUs := if iElapsedUs <? 0 then 0 else iElapsedUs in
  let iTickUs := m_iTickOffsetMilliseconds m * 1000 in
  let iDueUs := iElapsedUs + iMillisecond * 1000 in
  let iTicks := Z.quot (iDueUs + iTickUs - 1) iTickUs in
  if iTicks <? 1 then 1 else iTicks.

Definition AddTimer (now : Z) (pTimer : timer) (iMillisecond : Z) (m : manager) : result manager :=
  let! m := InitData pTimer iMillisecond (TicksFromNow now iMillisecond m) m in
  add_timer pTimer m.

(** A null m_pCurrentLevel is dereferenced when assertions are off. *)
Definition RemoveTimer (pTimer : timer) (m : manager) : result (bool * manager) :=
  let! _ := assert (match m_pCurrentLevel (timer_data pTimer m) with Some _ => true | None => false end) in
  match m_pCurrentLevel (timer_data pTimer m) with
  | Some i => Level_RemoveTimer i pTimer m
  | None => Err Undefined
  end.

(** What a callback does: it changes the manager through the public calls, and
    returns RESET_TIMER (true), END_TIMER (false) or throws (None). *)
Context (OnTimer : timer -> manager -> option bool * manager).

Definition run_timer (pTimer : timer) (m : manager) : result manager :=
  let (stOutcome, m) := OnTimer pTimer m in
  match stOutcome with
  | Some true =>
      let iMillisecond := m_iOffsetMilliseconds (timer_data pTimer m) in
      let! m := InitData pTimer iMillisecond (milling2tick iMillisecond m) m in
      add_timer pTimer m
  | Some false | None => Ok m
  end.

Definition update_tick (m : manager) : result manager :=
  let! (vDue, m) := run_tick m in
  foldR (fun m p => run_timer p m) m vDue.

Fixpoint update_ticks (n : nat) (m : manager) : result manager :=
  match n with
  | O => Ok m
  | S n => let! m := update_tick m in update_ticks n m
  end.

(** [now]: the steady clock; [tv]: the wall clock, kept for timestamps only. *)
Definition Update (now : Z) (tv : Z * Z) (m : manager) : result manager :=
  let m := set_wall tv m in
  let iDeltaUs := Z.quot (now - m_stLastTickMonotonic m) 1000 in
  if iDeltaUs <=? 0 then Ok m
  else
    let iTicks := Z.quot (Z.quot iDeltaUs 1000) (m_iTickOffsetMilliseconds m) in
    update_ticks (Z.to_nat iTicks) m.

End Program.

(** ** Init *)

Section Start.
Context (ndebug : bool).

(** The check that the slots multiply within uint32_t. *)
Fixpoint levels_in_range (iTotal : Z) (lvs : list Z) : bool :=
  match lvs with
  | [] => true
  | iSlots :: lvs =>
      let iTotal := if (0 <? iSlots) && (iSlots <=? 0xFFFFFFFF) then u64 (iTotal * iSlots) else iTotal in
      if (iSlots <=? 0) || (0xFFFFFFFF <? iSlots) || (0xFFFFFFFF <? iTotal) then false
      else levels_in_range iTotal lvs
  end.

Fixpoint init_levels (iLevelTick : Z) (lvs : list Z) : result (list TimerLevel) :=
  match lvs with
  | [] => Ok []
  | n :: lvs =>
      let iSlots := u32 n in
      let! lv := Level_Init ndebug iSlots iLevelTick in
      let! rest := init_levels (u32 (iLevelTick * iSlots)) lvs in
      Ok (lv :: rest)
  end.

(** The three settings are None when the configuration lacks them. [now] and
    [tv] are the clocks; [ts] the timers constructed so far. *)
Definition Init (cfg_offset_ms cfg_lv_count : option Z) (cfg_lvs : option (list Z)) (now : Z) (tv : Z * Z)
    (ts : gmap timer TimerData) : result (option manager) :=
  let iOffsetMilliseconds := default 50 cfg_offset_ms in
  if (iOffsetMilliseconds =? 0) || negb (1000 mod iOffsetMilliseconds =? 0) then Ok None
  else
    let iTimerLevelCount := default 4 cfg_lv_count in
    if iTimerLevelCount <=? 2 then Ok None
    else
      let n := Z.to_nat iTimerLevelCount in
      let vTimerLevels := match cfg_lvs with
                          | Some l => l
                          | None => <[(n - 1)%nat := 1]> (replicate n 128)
                          end in
      if negb (lenZ vTimerLevels =? iTimerLevelCount) || negb (bool_decide (vTimerLevels !! (n - 1)%nat = Some 1))
      then Ok None
      else if negb (levels_in_range 1 vTimerLevels) then Ok None
      else
        let! lvs := init_levels 1 vTimerLevels in
        Ok (Some (mkManager now tv 0 iOffsetMilliseconds n lvs ts)).

End Start.

(** ** The shape of a wheel *)

(** Appending to, taking from and removing from a list of identifiers. *)
Lemma list_erase_spec p l l' : list_erase p l = Some l' -> l ≡ₚ p :: l'.
Proof.
  revert l'; induction l as [|q l IH]; intros l'; cbn [list_erase]; [done|].
  destruct (decide (q = p)) as [->|]; [by intros [= <-]|].
  destruct (list_erase p l); [|done]. intros [= <-]. rewrite (IH l0) by done. constructor.
Qed.

Lemma list_erase_none p l : list_erase p l = None -> p ∉ l.
Proof.
  induction l as [|q l IH]; cbn [list_erase]; [intros _; apply not_elem_of_nil|].
  destruct (decide (q = p)); [done|]. destruct (list_erase p l); [done|].
  intros _. apply not_elem_of_cons. auto.
Qed.

(** [Ms]: the number of slots of each level. *)
Section Wheel.
Context (ndebug : bool) (Ms : list Z).

Definition width (i : nat) : Z := default 1 (Ms !! i).

(** Ticks a slot of level [i] stands for. *)
Fixpoint span (i : nat) : Z :=
  match i with O => 1 | S i => span i * width i end.

(** What Init accepts, with slot counts that keep AddTimer's index in an int. *)
Definition widths_ok : Prop :=
  (1 < length Ms)%nat /\ Forall (fun w => 1 <= w <= 2 ^ 31) Ms /\ width (length Ms - 1) = 1.

Hypothesis Hok : widths_ok.

Lemma width_range i : 1 <= width i <= 2 ^ 31.
Proof.
  unfold width. destruct (Ms !! i) eqn:E; cbn; [|lia].
  destruct Hok as (_ & H & _). rewrite Forall_lookup in H. by eapply H.
Qed.

Lemma span_pos i : 1 <= span i.
Proof. induction i; cbn [span]; [lia|]. pose proof (width_range i). nia. Qed.

Record level_ok (i : nat) (lv : TimerLevel) : Prop := mkLevelOk {
  lv_max : m_iMaxTick lv = width i;
  lv_span : m_iLevelOffsetTick lv = span i;
  lv_offset : 0 <= m_iOffset lv < width i;
  lv_slots : lenZ (m_vTimerTickDatas lv) = width i
}.

Definition shape (m : manager) : Prop :=
  m_iTimerLevelCount m = length Ms /\ length (m_vTimerLevels m) = length Ms /\
  forall i lv, m_vTimerLevels m !! i = Some lv -> level_ok i lv.

Definition offset (m : manager) (i : nat) : Z :=
  match m_vTimerLevels m !! i with Some lv => m_iOffset lv | None => 0 end.

(** Ticks since level [i] last turned, as the offsets below it count them. *)
Fixpoint elapsed (m : manager) (i : nat) : Z :=
  match i with O => 0 | S i => elapsed m i + offset m i * span i end.

Lemma offset_range m i : shape m -> 0 <= offset m i < width i.
Proof.
  intros (_ & _ & Hs). unfold offset. pose proof (width_range i).
  destruct (m_vTimerLevels m !! i) eqn:E; [by apply Hs|lia].
Qed.

Lemma elapsed_range m i : shape m -> 0 <= elapsed m i < span i.
Proof.
  intros Hs. induction i as [|i IH]; cbn [elapsed span]; [lia|].
  pose proof (offset_range m i Hs). pose proof (span_pos i). nia.
Qed.

Lemma get_level_shape m i :
  shape m -> (i < length Ms)%nat -> exists lv, get_level i m = Ok lv /\ m_vTimerLevels m !! i = Some lv /\ level_ok i lv.
Proof.
  intros (_ & Hl & Hs) Hi. unfold get_level.
  destruct (lookup_lt_is_Some_2 (m_vTimerLevels m) i) as [lv E]; [lia|].
  exists lv. rewrite E. auto.
Qed.

Lemma get_slot_ok i lv s :
  level_ok i lv -> 0 <= s < width i ->
  exists l, get_slot s lv = Ok l /\ m_vTimerTickDatas lv !! Z.to_nat s = Some l.
Proof.
  intros H Hs. unfold get_slot. destruct (Z.ltb_spec s 0); [lia|].
  destruct (lookup_lt_is_Some_2 (m_vTimerTickDatas lv) (Z.to_nat s)) as [l E].
  { pose proof (lv_slots _ _ H). unfold lenZ in *. lia. }
  exists l. by rewrite E.
Qed.

Lemma assert_true c : c = true -> assert ndebug c = Ok tt.
Proof. intros ->. unfold assert. by rewrite orb_true_r. Qed.

(** *** Where a timer is *)

Definition at_slot (m : manager) (i : nat) (s : Z) (p : timer) : Prop :=
  exists lv l, m_vTimerLevels m !! i = Some lv /\ 0 <= s /\ m_vTimerTickDatas lv !! Z.to_nat s = Some l /\ p ∈ l.

Definition in_wheel (m : manager) (p : timer) : Prop := exists i s, at_slot m i s p.

(** Replacing one slot of one level (and its offset) replaces just that slot. *)
Lemma at_slot_put m m' i lv lv' s l' j s' q :
  m_vTimerLevels m !! i = Some lv -> m_vTimerLevels m' = <[i := lv']> (m_vTimerLevels m) ->
  m_vTimerTickDatas lv' = <[Z.to_nat s := l']> (m_vTimerTickDatas lv) ->
  0 <= s < lenZ (m_vTimerTickDatas lv) ->
  at_slot m' j s' q <-> (j = i /\ s' = s /\ q ∈ l') \/ (~ (j = i /\ s' = s) /\ at_slot m j s' q).
Proof.
  intros Ei Em Elv Hs. unfold at_slot. rewrite Em.
  assert (i < length (m_vTimerLevels m))%nat as Hi by (by eapply lookup_lt_Some).
  assert (Z.to_nat s < length (m_vTimerTickDatas lv))%nat as Hs' by (unfold lenZ in Hs; lia).
  destruct (decide (j = i)) as [->|Hj].
  - rewrite list_lookup_insert_eq by done. split.
    + intros (lv0 & l & [= <-] & H0 & El & Hq). rewrite Elv in El.
      destruct (decide (s' = s)) as [->|Hne].
      * rewrite list_lookup_insert_eq in El by done. injection El as ->. auto.
      * rewrite list_lookup_insert_ne in El by lia. right. split; [by intros []|]. eauto 10.
    + intros [(_ & -> & Hq)|[Hn (lv0 & l & E0 & H0 & El & Hq)]].
      * exists lv', l'. rewrite Elv, list_lookup_insert_eq by done. split_and!; done || lia.
      * exists lv', l. rewrite Elv, list_lookup_insert_ne by lia. by replace lv0 with lv in * by congruence.
  - rewrite list_lookup_insert_ne by done. split; [intros H; right; by split; [intros []|]|].
    by intros [(-> & _)|[_ H]].
Qed.

(** Slots from the current one, the one RunTick takes next being at 1. *)
Definition dist (m : manager) (i : nat) (s : Z) : Z := 1 + (s - offset m i) mod width i.

Lemma dist_range m i s : 1 <= dist m i s <= width i.
Proof. unfold dist. pose proof (width_range i). pose proof (Z.mod_pos_bound (s - offset m i) (width i)). lia. Qed.

(** [nr i]: no later than this tick does level [i] turn next.  A timer of level
    0 fires on its tick or the one after; one further up is handed down by its
    tick. *)
Definition on_time (nr : nat -> Z) (m : manager) (i : nat) (s T : Z) : Prop :=
  match i with
  | O => T <= m_iCurrentTick m + dist m i s <= T + 1
  | S _ => nr i + (dist m i s - 1) * span i <= T
  end.

Definition distinct (m : manager) : Prop :=
  forall i lv s l, m_vTimerLevels m !! i = Some lv -> m_vTimerTickDatas lv !! s = Some l -> NoDup l.

Record inv (nr : nat -> Z) (m : manager) : Prop := mkInv {
  inv_shape : shape m;
  inv_nodup : distinct m;
  inv_placed : forall i s p, at_slot m i s p -> exists d, timers m !! p = Some d /\
    m_pCurrentLevel d = Some i /\ m_iLevelTick d = s /\ on_time nr m i s (m_iTriggerTick d)
}.

Lemma at_slot_range m i s p : shape m -> at_slot m i s p -> (i < length Ms)%nat /\ 0 <= s < width i.
Proof.
  intros (_ & Hl & Hs) (lv & l & Ei & H0 & Es & _).
  pose proof (lookup_lt_Some _ _ _ Ei). apply lookup_lt_Some in Es.
  pose proof (lv_slots _ _ (Hs _ _ Ei)). unfold lenZ in *. split; lia.
Qed.

(** A timer is in one slot only: its own data say which. *)
Lemma at_slot_unique nr m i s j s' p : inv nr m -> at_slot m i s p -> at_slot m j s' p -> i = j /\ s = s'.
Proof.
  intros Hi H1 H2. destruct (inv_placed _ _ Hi _ _ _ H1) as (d & E & E1 & E2 & _).
  destruct (inv_placed _ _ Hi _ _ _ H2) as (d' & E' & E1' & E2' & _). split; congruence.
Qed.

Lemma inv_weaken nr nr' m :
  (forall i, (0 < i < length Ms)%nat -> nr' i <= nr i) -> inv nr m -> inv nr' m.
Proof.
  intros Hnr [Hs Hn Hp]. constructor; [done..|]. intros i s p H.
  destruct (Hp _ _ _ H) as (d & ? & ? & ? & Ht). exists d. split_and!; try done.
  destruct i; [done|]. cbn [on_time] in *. pose proof (at_slot_range _ _ _ _ Hs H) as [? _].
  pose proof (Hnr (S i) ltac:(lia)). lia.
Qed.

(** *** Putting a timer in a slot *)

(** What the wheel's own steps never change: the clocks, and of a timer all but
    its place. *)
Definition essence (d : TimerData) : (Z * Z) * Z * Z :=
  (m_stTriggerTimestamp d, m_iOffsetMilliseconds d, m_iTriggerTick d).

Record steady (m m' : manager) : Prop := mkSteady {
  st_mono : m_stLastTickMonotonic m' = m_stLastTickMonotonic m;
  st_wall : m_stCurrentTimeValue m' = m_stCurrentTimeValue m;
  st_tick : m_iCurrentTick m' = m_iCurrentTick m;
  st_ms : m_iTickOffsetMilliseconds m' = m_iTickOffsetMilliseconds m;
  st_timers : forall p, essence <$> timers m' !! p = essence <$> timers m !! p
}.

#[export] Instance steady_preorder : PreOrder steady.
Proof.
  split; [by constructor|]. intros a b c [] []. constructor; intros; etransitivity; eauto.
Qed.

Lemma steady_trigger m m' p d :
  steady m m' -> timers m !! p = Some d ->
  exists d', timers m' !! p = Some d' /\ m_iTriggerTick d' = m_iTriggerTick d /\
             m_iOffsetMilliseconds d' = m_iOffsetMilliseconds d.
Proof.
  intros Hst E. pose proof (st_timers _ _ Hst p) as H. rewrite E in H.
  destruct (timers m' !! p) as [d'|]; [|done]. injection H as ? ? ?. by exists d'.
Qed.

(** The offsets of all levels are kept. *)
Definition same_offsets (m m' : manager) : Prop := forall i, offset m' i = offset m i.

Lemma same_offsets_dist m m' i s : same_offsets m m' -> dist m' i s = dist m i s.
Proof. intros H. unfold dist. by rewrite H. Qed.

Lemma same_offsets_elapsed m m' i : same_offsets m m' -> elapsed m' i = elapsed m i.
Proof. intros H. induction i as [|i IH]; cbn [elapsed]; [done|]. by rewrite H, IH. Qed.

Lemma shape_put m m' i lv lv' :
  shape m -> m_vTimerLevels m !! i = Some lv -> m_vTimerLevels m' = <[i := lv']> (m_vTimerLevels m) ->
  m_iTimerLevelCount m' = m_iTimerLevelCount m -> level_ok i lv' -> shape m'.
Proof.
  intros (H1 & H2 & H3) Ei Em Hc Hlv. split_and!; [congruence|by rewrite Em, length_insert|].
  intros j lvj. rewrite Em. destruct (decide (j = i)) as [->|Hj].
  - rewrite list_lookup_insert_eq by (by eapply lookup_lt_Some). by intros [= <-].
  - rewrite list_lookup_insert_ne by done. apply H3.
Qed.

Lemma nodup_put m m' i lv lv' s l :
  distinct m -> m_vTimerLevels m !! i = Some lv -> m_vTimerLevels m' = <[i := lv']> (m_vTimerLevels m) ->
  m_vTimerTickDatas lv' = <[s := l]> (m_vTimerTickDatas lv) -> NoDup l -> distinct m'.
Proof.
  intros Hi Ei Em Elv Hl j lvj s' l' Ej Es. rewrite Em in Ej. destruct (decide (j = i)) as [->|Hj].
  - rewrite list_lookup_insert_eq in Ej by (by eapply lookup_lt_Some). injection Ej as <-. rewrite Elv in Es.
    apply list_lookup_insert_Some in Es as [(_ & -> & _)|[_ Es]]; [done|]. by eapply Hi.
  - rewrite list_lookup_insert_ne in Ej by done. by eapply Hi.
Qed.

Lemma offset_put m m' i lv lv' :
  m_vTimerLevels m !! i = Some lv -> m_vTimerLevels m' = <[i := lv']> (m_vTimerLevels m) ->
  forall j, offset m' j = if decide (j = i) then m_iOffset lv' else offset m j.
Proof.
  intros Ei Em j. unfold offset. rewrite Em. destruct (decide (j = i)) as [->|].
  - by rewrite list_lookup_insert_eq by (by eapply lookup_lt_Some).
  - by rewrite list_lookup_insert_ne.
Qed.

Lemma slot_index m i k :
  shape m -> 0 <= k < width i ->
  s32 (u32 (k + offset m i) mod width i) = (k + offset m i) mod width i.
Proof.
  intros Hs Hk. pose proof (offset_range m i Hs). pose proof (width_range i).
  pose proof (Z.mod_pos_bound (k + offset m i) (width i)).
  rewrite u32_small, s32_small; lia.
Qed.

Lemma dist_of_slot m i k : 0 <= k < width i -> dist m i ((k + offset m i) mod width i) = k + 1.
Proof.
  intros Hk. unfold dist. rewrite Zminus_mod_idemp_l. replace (k + offset m i - offset m i) with k by lia.
  rewrite Z.mod_small; lia.
Qed.

(** Where a timer [k] slots ahead in level [i] is on time. *)
Definition fits_level (nr : nat -> Z) (m : manager) (i : nat) (k T : Z) : Prop :=
  match i with
  | O => T <= m_iCurrentTick m + (k + 1) <= T + 1
  | S _ => nr i + k * span i <= T
  end.

Lemma Level_AddTimer_spec nr m i k p d :
  inv nr m -> (i < length Ms)%nat -> 0 <= k < width i -> ~ in_wheel m p -> timers m !! p = Some d ->
  fits_level nr m i k (m_iTriggerTick d) ->
  exists m', Level_AddTimer ndebug i p k m = Ok m' /\ inv nr m' /\ steady m m' /\ same_offsets m m' /\
    forall q, in_wheel m' q <-> q = p \/ in_wheel m q.
Proof.
  intros Hi Hin Hk Hp Ed Ht. pose proof (inv_shape _ _ Hi) as Hs.
  destruct (get_level_shape m i Hs Hin) as (lv & Eg & Elv & Hlv).
  assert (offset m i = m_iOffset lv) as Eoff by (unfold offset; by rewrite Elv).
  unfold Level_AddTimer. rewrite Eg. cbn [rbind].
  rewrite (lv_max _ _ Hlv), assert_true by (apply andb_true_iff; split; lia). cbn [rbind].
  rewrite <- Eoff, slot_index by done.
  set (s := (k + offset m i) mod width i).
  assert (0 <= s < width i) as Hsr by (apply Z.mod_pos_bound; lia).
  destruct (get_slot_ok i lv s Hlv Hsr) as (l & -> & El). cbn [rbind].
  unfold timer_data. rewrite Ed. cbn [default].
  eexists; split; [reflexivity|].
  set (lv' := put_slot s (l ++ [p]) lv).
  match goal with |- inv _ ?x /\ _ => set (m' := x) end.
  assert (m_vTimerLevels m' = <[i := lv']> (m_vTimerLevels m)) as Em by done.
  pose proof (lv_slots _ _ Hlv) as Hlen.
  assert (forall j s' q, at_slot m' j s' q <-> (j = i /\ s' = s /\ q = p) \/ at_slot m j s' q) as Hat.
  { intros j s' q. rewrite (at_slot_put m m' i lv lv' s (l ++ [p])) by (done || lia).
    assert (at_slot m i s q <-> q ∈ l) as Hl.
    { unfold at_slot. rewrite Elv. split; [intros (? & ? & [= <-] & _ & E & H); congruence|].
      intros Hq. exists lv, l. split_and!; done || lia. }
    rewrite elem_of_app, list_elem_of_singleton.
    destruct (decide (j = i /\ s' = s)) as [[-> ->]|]; [rewrite Hl|]; tauto. }
  assert (~ at_slot m i s p) as Hnp by (intros H; apply Hp; by exists i, s).
  split_and!.
  - constructor.
    + apply (shape_put m m' i lv lv' Hs Elv Em eq_refl). destruct Hlv. constructor; try done.
      cbn. unfold lenZ in *. by rewrite length_insert.
    + apply (nodup_put m m' i lv lv' (Z.to_nat s) (l ++ [p])); [by apply Hi|done..|]. apply NoDup_app. split_and!.
      * by eapply inv_nodup.
      * intros q Hq ->%list_elem_of_singleton. apply Hnp. exists lv, l. split_and!; done || lia.
      * apply NoDup_singleton.
    + assert (same_offsets m m') as Hso.
      { intros j. rewrite (offset_put m m' i lv lv') by done. by destruct (decide (j = i)) as [->|]. }
      intros j s' q. rewrite Hat. cbn [timers m' set_timers]. intros [(-> & -> & ->)|H].
      * rewrite lookup_insert_eq. eexists; split_and!; [done..|cbn; apply u32_small; pose proof (width_range i); lia|].
        unfold on_time. rewrite (same_offsets_dist m m') by done. unfold s. rewrite dist_of_slot by done.
        cbn [m_iTriggerTick]. destruct i; [done|]. by replace (k + 1 - 1) with k by lia.
      * rewrite lookup_insert_ne by (intros <-; apply Hp; by exists j, s').
        destruct (inv_placed _ _ Hi _ _ _ H) as (dq & ? & ? & ? & Hq). exists dq. split_and!; try done.
        unfold on_time in *. by rewrite (same_offsets_dist m m').
  - constructor; try done. intros q. cbn [timers m' set_timers]. destruct (decide (q = p)) as [->|].
    + by rewrite lookup_insert_eq, Ed.
    + by rewrite lookup_insert_ne.
  - intros j. rewrite (offset_put m m' i lv lv') by done. by destruct (decide (j = i)) as [->|].
  - intros q. unfold in_wheel. setoid_rewrite Hat. split.
    + intros (j & s' & [(_ & _ & ->)|H]); [by left|right; eauto].
    + intros [->|(j & s' & H)]; eauto 10.
Qed.

(** *** add_timer *)

(** The search ends in the level whose slots reach far enough; the assertion in
    it never fires. *)
Lemma find_level_spec m n i d :
  shape m -> (i + n = length Ms - 1)%nat -> span i <= d ->
  find_level ndebug n i d m = Ok None /\ span (length Ms - 1) <= d \/
  exists j k, find_level ndebug n i d m = Ok (Some (j, k)) /\ (i <= j < length Ms - 1)%nat /\
    0 <= k < width j /\ (k + 1) * span j <= d.
Proof.
  intros Hs; revert i; induction n as [|n IH]; intros i Hin Hd; cbn [find_level].
  - left. replace (length Ms - 1)%nat with i by lia. done.
  - destruct (get_level_shape m i Hs) as (lv & -> & _ & Hlv); [lia|]. cbn [rbind].
    rewrite (lv_span _ _ Hlv), (lv_max _ _ Hlv). pose proof (span_pos i) as Hsp.
    rewrite Z.quot_div_nonneg by lia.
    assert (1 <= d / span i) by (apply Z.div_le_lower_bound; lia).
    rewrite assert_true by (apply Z.leb_le; lia). cbn [rbind].
    pose proof (Z.mul_div_le d (span i)).
    destruct (Z.leb_spec (width i) (d / span i - 1)) as [Hw|Hw].
    + destruct (IH (S i)) as [H'|(j & k & H1 & H2 & H3)]; [lia|cbn [span]; nia|by left|].
      right. exists j, k. split_and!; try done; try lia.
    + right. exists i, (d / span i - 1). split_and!; try done; try lia.
Qed.

(** Adding a timer that is not overdue: it gets a slot and will be on time. *)
Lemma add_timer_spec nr m p d :
  inv nr m -> (forall i, (0 < i)%nat -> nr i <= m_iCurrentTick m + span i) ->
  ~ in_wheel m p -> timers m !! p = Some d -> m_iCurrentTick m <= m_iTriggerTick d ->
  exists m', add_timer ndebug p m = Ok m' /\ inv nr m' /\ steady m m' /\ same_offsets m m' /\
    forall q, in_wheel m' q <-> q = p \/ in_wheel m q.
Proof.
  intros Hi Hnr Hp Ed HT. pose proof (inv_shape _ _ Hi) as Hs. destruct Hok as (Hlen & _ & Hlast).
  unfold add_timer. unfold timer_data. rewrite Ed. cbn [default]. destruct Hs as (Hc & Hs).
  rewrite Hc. assert (shape m) as Hsh by (by apply Hi).
  set (t := m_iCurrentTick m) in *. set (T := m_iTriggerTick d) in *.
  cbn [id from_option]. fold T. set (o := if T - t <=? 0 then 1 else T - t).
  assert (o = T - t /\ 0 < o \/ T = t /\ o = 1) as Ho by (unfold o; destruct (Z.leb_spec (T - t) 0); lia).
  destruct (length Ms - 1)%nat as [|n] eqn:En; [lia|]. cbn [find_level].
  destruct (get_level_shape m 0 Hsh) as (lv & -> & _ & Hlv); [lia|]. cbn [rbind].
  rewrite (lv_span _ _ Hlv), (lv_max _ _ Hlv). cbn [span]. rewrite Z.quot_1_r.
  rewrite assert_true by (apply Z.leb_le; lia). cbn [rbind]. pose proof (width_range 0) as Hw0.
  destruct (Z.leb_spec (width 0) (o - 1)) as [Hw|Hw].
  - destruct (find_level_spec m n 1 o Hsh) as [[-> Hd]|(j & k & -> & Hj & Hk & Hd)];
      [lia|cbn [span]; lia|..]; cbn [rbind].
    + rewrite En in Hd. pose proof (Hnr (S n) ltac:(lia)).
      apply (Level_AddTimer_spec nr m (S n) 0 p d); try done; [lia|lia|].
      unfold fits_level. lia.
    + rewrite u32_small by (pose proof (width_range j); lia).
      apply (Level_AddTimer_spec nr m j k p d); try done; [lia|].
      destruct j as [|j]; [lia|]. unfold fits_level. pose proof (Hnr (S j) ltac:(lia)). lia.
  - cbn [rbind]. rewrite u32_small by lia.
    apply (Level_AddTimer_spec nr m 0 (o - 1) p d); try done; [lia|lia|].
    unfold fits_level. lia.
Qed.

(** Adding a slot's timers one after another. *)
Lemma add_timers_spec nr l m :
  inv nr m -> (forall i, (0 < i)%nat -> nr i <= m_iCurrentTick m + span i) -> NoDup l ->
  (forall p, p ∈ l -> ~ in_wheel m p /\ exists d, timers m !! p = Some d /\ m_iCurrentTick m <= m_iTriggerTick d) ->
  exists m', foldR (fun m p => add_timer ndebug p m) m l = Ok m' /\ inv nr m' /\ steady m m' /\ same_offsets m m' /\
    forall q, in_wheel m' q <-> q ∈ l \/ in_wheel m q.
Proof.
  revert m; induction l as [|p l IH]; intros m Hi Hnr Hl Hp; cbn [foldR].
  { exists m. split_and!; try done. intros q. split; [by right|intros [H|]; [by apply not_elem_of_nil in H|done]]. }
  apply NoDup_cons in Hl as [Hpl Hl].
  destruct (Hp p) as (Hnp & d & Ed & HT); [by left|].
  destruct (add_timer_spec nr m p d) as (m1 & -> & Hi1 & Hst & Hso & Hin); try done. cbn [rbind].
  destruct (IH m1) as (m2 & -> & Hi2 & Hst2 & Hso2 & Hin2); try done.
  - intros i Hpos. rewrite (st_tick _ _ Hst). by apply Hnr.
  - intros q Hq. destruct (Hp q) as (Hnq & dq & Eq & HTq); [by right|]. split.
    + rewrite Hin. intros [->|]; done.
    + destruct (steady_trigger m m1 q dq) as (dq' & E' & Et & _); try done.
      exists dq'. split; [done|]. by rewrite (st_tick _ _ Hst), Et.
  - exists m2. split_and!; try done.
    + by etransitivity.
    + intros i. by rewrite Hso2, Hso.
    + intros q. rewrite Hin2, Hin, elem_of_cons. tauto.
Qed.

(** *** RunTick *)

(** A level after its turn: the slot is empty, the offset has moved on. *)
Record turned (i : nat) (l : list timer) (m m' : manager) : Prop := mkTurned {
  tn_shape : shape m';
  tn_steady : steady m m';
  tn_timers : timers m' = timers m;
  tn_offset : forall j, offset m' j = if decide (j = i) then (offset m i + 1) mod width i else offset m j;
  tn_slots : forall j s q, at_slot m' j s q <-> ~ (j = i /\ s = offset m i) /\ at_slot m j s q;
  tn_taken : forall q, q ∈ l <-> at_slot m i (offset m i) q;
  tn_nodup : distinct m -> NoDup l /\ distinct m'
}.

Lemma RunTick_turn m i b :
  shape m -> (i < length Ms)%nat ->
  exists l m', turned i l m m' /\
    RunTick ndebug i b m =
    if b then Ok (l, m') else let! m'' := foldR (fun m p => add_timer ndebug p m) m' l in Ok ([], m'').
Proof.
  intros Hs Hi. destruct (get_level_shape m i Hs Hi) as (lv & Eg & Elv & Hlv).
  assert (offset m i = m_iOffset lv) as Eoff by (unfold offset; by rewrite Elv).
  pose proof (offset_range m i Hs) as Hr. pose proof (width_range i) as Hw.
  unfold RunTick. rewrite Eg. cbn [rbind]. rewrite <- Eoff, (lv_max _ _ Hlv).
  rewrite assert_true by (apply andb_true_iff; split; lia). cbn [rbind].
  destruct (get_slot_ok i lv (offset m i) Hlv Hr) as (l & -> & El). cbn [rbind put_slot m_iOffset m_iMaxTick].
  rewrite <- Eoff, (lv_max _ _ Hlv), u32_small by lia.
  set (o := if width i <=? offset m i + 1 then 0 else offset m i + 1).
  assert ((if width i <=? offset m i + 1 then let! _ := assert ndebug (offset m i + 1 =? width i) in Ok 0
           else Ok (offset m i + 1)) = Ok o) as ->.
  { unfold o. destruct (Z.leb_spec (width i) (offset m i + 1)); [|done].
    rewrite assert_true by (apply Z.eqb_eq; lia). done. }
  cbn [rbind m_iLevelOffsetTick m_vTimerTickDatas].
  assert (o = (offset m i + 1) mod width i) as Eo.
  { unfold o. destruct (Z.leb_spec (width i) (offset m i + 1)).
    - replace (offset m i + 1) with (width i) by lia. by rewrite Z.mod_same by lia.
    - rewrite Z.mod_small; lia. }
  match goal with |- context [put_level i ?x m] => set (lv' := x) end.
  exists l, (put_level i lv' m). split; [|done].
  assert (m_vTimerLevels (put_level i lv' m) = <[i := lv']> (m_vTimerLevels m)) as Em by done.
  pose proof (lv_slots _ _ Hlv) as Hlen.
  constructor.
  - apply (shape_put m _ i lv lv' Hs Elv Em eq_refl). destruct Hlv. constructor; try done.
    + cbn. rewrite Eo. apply Z.mod_pos_bound. lia.
    + cbn. unfold lenZ in *. by rewrite length_insert.
  - by constructor.
  - done.
  - intros j. rewrite (offset_put m _ i lv lv') by done. destruct (decide (j = i)); [exact Eo|done].
  - intros j s q. rewrite (at_slot_put m _ i lv lv' (offset m i) []) by (done || lia).
    pose proof (not_elem_of_nil q). tauto.
  - intros q. unfold at_slot. split.
    + intros Hq. exists lv, l. split_and!; done || lia.
    + intros (lv0 & l0 & E0 & _ & E1 & Hq). congruence.
  - intros Hinv. split; [by eapply Hinv|].
    apply (nodup_put m _ i lv lv' (Z.to_nat (offset m i)) [] Hinv Elv Em eq_refl). constructor.
Qed.

Lemma dist_turned i l m m' j s :
  turned i l m m' -> shape m -> 0 <= s < width j -> ~ (j = i /\ s = offset m i) ->
  dist m' j s = dist m j s - if decide (j = i) then 1 else 0.
Proof.
  intros Ht Hs Hsr Hne. unfold dist. rewrite (tn_offset _ _ _ _ Ht).
  destruct (decide (j = i)) as [->|]; [|lia].
  rewrite Zminus_mod_idemp_r. pose proof (width_range i). pose proof (offset_range m i Hs).
  assert (s <> offset m i) by (intros ->; by apply Hne).
  destruct (Z.lt_ge_cases s (offset m i)).
  - replace (s - (offset m i + 1)) with (s - offset m i - 1 + width i + (-1) * width i) by lia.
    replace (s - offset m i) with (s - offset m i + width i + (-1) * width i) by lia.
    rewrite !Z.mod_add, !Z.mod_small by lia. lia.
  - rewrite !Z.mod_small by lia. lia.
Qed.

Lemma dist_current m i : shape m -> dist m i (offset m i) = 1.
Proof. intros. unfold dist. rewrite Z.sub_diag, Z.mod_0_l; [done|]. pose proof (width_range i). lia. Qed.

(** The turn of a level above the first: its timers are handed down on time. *)
Lemma RunTick_up nr nr' m i :
  inv nr m -> (0 < i < length Ms)%nat -> m_iCurrentTick m <= nr i ->
  (forall j, j <> i -> nr' j <= nr j) -> nr' i <= nr i + span i ->
  (forall j, (0 < j)%nat -> nr' j <= m_iCurrentTick m + span j) ->
  exists m', RunTick ndebug i false m = Ok ([], m') /\ inv nr' m' /\ steady m m' /\
    (forall j, offset m' j = if decide (j = i) then (offset m i + 1) mod width i else offset m j) /\
    forall q, in_wheel m' q <-> in_wheel m q.
Proof.
  intros Hi Hin Ht Hnr Hnri Hcap. pose proof (inv_shape _ _ Hi) as Hs.
  destruct (RunTick_turn m i false Hs) as (l & m1 & Htn & ->); [lia|].
  destruct (tn_nodup _ _ _ _ Htn (inv_nodup _ _ Hi)) as [Hl Hnd].
  pose proof (tn_steady _ _ _ _ Htn) as Hst.
  destruct (add_timers_spec nr' l m1) as (m2 & -> & Hi2 & Hst2 & Hso & Hin2).
  - constructor; [by apply Htn|done|]. intros j s q Hq. rewrite (tn_slots _ _ _ _ Htn) in Hq. destruct Hq as [Hne Hq].
    destruct (inv_placed _ _ Hi _ _ _ Hq) as (d & Ed & E1 & E2 & Hon).
    exists d. rewrite (tn_timers _ _ _ _ Htn). split_and!; try done.
    destruct (at_slot_range _ _ _ _ Hs Hq) as [_ Hsr].
    unfold on_time in *. rewrite (dist_turned i l m m1 j s Htn Hs Hsr Hne), (st_tick _ _ Hst).
    destruct j as [|j]; [by destruct (decide (0%nat = i)); [lia|]; rewrite Z.sub_0_r|].
    destruct (decide (S j = i)) as [E|Hj]; [rewrite E in *; nia|].
    rewrite Z.sub_0_r. pose proof (Hnr (S j) Hj). lia.
  - intros j Hj. rewrite (st_tick _ _ Hst). by apply Hcap.
  - done.
  - intros q Hq. apply (tn_taken _ _ _ _ Htn) in Hq.
    destruct (inv_placed _ _ Hi _ _ _ Hq) as (d & Ed & _ & _ & Hon). split.
    + intros (j & s & H). apply (tn_slots _ _ _ _ Htn) in H as [Hne H]. apply Hne.
      destruct (at_slot_unique _ _ _ _ _ _ _ Hi Hq H) as [<- <-]. done.
    + exists d. rewrite (tn_timers _ _ _ _ Htn), (st_tick _ _ Hst). split; [done|].
      destruct i as [|i]; [lia|]. cbn [on_time] in Hon. rewrite dist_current in Hon by done. lia.
  - cbn [rbind]. exists m2. split_and!; try done.
    + by etransitivity.
    + intros j. rewrite Hso. apply (tn_offset _ _ _ _ Htn).
    + intros q. rewrite Hin2, (tn_taken _ _ _ _ Htn). unfold in_wheel. setoid_rewrite (tn_slots _ _ _ _ Htn). split.
      * intros [H|(j & s & _ & H)]; eauto.
      * intros (j & s & H). destruct (decide (j = i /\ s = offset m i)) as [[-> ->]|]; [by left|]. right; eauto.
Qed.

(** *** One tick *)

(** When level [i] turns next at the latest, between two ticks. *)
Definition next_turn (m : manager) (i : nat) : Z := m_iCurrentTick m + span i - elapsed m i.

Definition wf (m : manager) : Prop := inv (next_turn m) m.

(** The state in the middle of a tick: levels below [p] have had their turn,
    those from [p] on still go by the bounds [old] of the tick before. *)
Definition mid_turn (old : nat -> Z) (p : nat) (m : manager) (i : nat) : Z :=
  if decide (i < p)%nat then next_turn m i else old i.

Record uniforming (m0 : manager) (p : nat) (m : manager) : Prop := mkUniforming {
  uf_inv : inv (mid_turn (next_turn m0) p m) m;
  uf_tick : m_iCurrentTick m = m_iCurrentTick m0 + 1;
  uf_offset : forall j, (p <= j)%nat -> offset m j = offset m0 j;
  uf_carry : offset m (p - 1) = 0 \/ elapsed m0 p + 1 <= elapsed m p
}.

Lemma elapsed_below m m' i :
  (forall j, (j < i)%nat -> offset m' j = offset m j) -> elapsed m' i = elapsed m i.
Proof. induction i as [|i IH]; intros H; cbn [elapsed]; [done|]. rewrite H, IH by (intros; apply H || lia; lia). done. Qed.

Lemma uniform_level_spec m0 p m :
  shape m0 -> uniforming m0 p m -> (0 < p < length Ms)%nat ->
  exists m', uniform_level ndebug m p = Ok m' /\ uniforming m0 (S p) m' /\ steady m m' /\
    (forall j, (j < p)%nat -> offset m' j = offset m j) /\ forall q, in_wheel m' q <-> in_wheel m q.
Proof.
  intros Hs0 [Hi Ht Ho Hc] Hp. pose proof (inv_shape _ _ Hi) as Hs.
  destruct (get_level_shape m (p - 1) Hs) as (lv & Eg & Elv & _); [lia|].
  assert (offset m (p - 1) = m_iOffset lv) as Eoff by (unfold offset; by rewrite Elv).
  unfold uniform_level. rewrite Eg. cbn [rbind]. unfold IsLevelEnd. rewrite <- Eoff.
  pose proof (elapsed_range m0 p Hs0) as Hel0. pose proof (elapsed_range m p Hs) as Hel.
  pose proof (Ho p ltac:(lia)) as Eop.
  destruct (Z.eqb_spec (offset m (p - 1)) 0) as [E0|E0].
  - assert (forall j, (0 < j)%nat -> mid_turn (next_turn m0) (S p) m j <= m_iCurrentTick m + span j) as Hcap.
    { intros j Hj. unfold mid_turn, next_turn. pose proof (elapsed_range m j Hs). pose proof (elapsed_range m0 j Hs0).
      destruct (decide (j < S p)%nat); lia. }
    destruct (RunTick_up (mid_turn (next_turn m0) p m) (mid_turn (next_turn m0) (S p) m) m p)
      as (m1 & -> & Hi1 & Hst & Hoff & Hw); try done.
    + unfold mid_turn, next_turn. rewrite decide_False by lia. lia.
    + intros j Hj. unfold mid_turn. destruct (decide (j < S p)%nat), (decide (j < p)%nat); lia.
    + unfold mid_turn, next_turn. rewrite decide_True, decide_False by lia. lia.
    + cbn [rbind]. exists m1.
      assert (forall j, (j < p)%nat -> offset m1 j = offset m j) as Hlow by (intros j Hj; rewrite Hoff, decide_False by lia; done).
      assert (forall j, (j <= p)%nat -> elapsed m1 j = elapsed m j) as Hel1.
      { intros j Hj. apply elapsed_below. intros k Hk. apply Hlow. lia. }
      split_and!; try done. constructor.
      * eapply inv_weaken; [|exact Hi1]. intros j Hj. unfold mid_turn.
        destruct (decide (j < S p)%nat); [|lia]. unfold next_turn. rewrite (st_tick _ _ Hst), Hel1 by lia. lia.
      * rewrite (st_tick _ _ Hst). lia.
      * intros j Hj. rewrite Hoff, decide_False by lia. apply Ho. lia.
      * replace (S p - 1)%nat with p by lia. cbn [elapsed]. rewrite Hel1, Hoff, decide_True, Eop by lia.
        pose proof (width_range p). pose proof (offset_range m0 p Hs0). pose proof (span_pos p).
        destruct (Z.eq_dec (offset m0 p + 1) (width p)) as [E|E].
        -- left. by rewrite E, Z.mod_same by lia.
        -- right. rewrite Z.mod_small by lia. nia.
  - destruct Hc as [|Hc]; [lia|]. exists m. split_and!; try done. constructor; try done.
    + eapply inv_weaken; [|exact Hi]. intros j Hj. unfold mid_turn.
      destruct (decide (j < S p)%nat), (decide (j < p)%nat); try lia.
      replace j with p by lia. unfold next_turn. lia.
    + intros j Hj. apply Ho. lia.
    + right. cbn [elapsed]. rewrite Eop. lia.
Qed.

Lemma uniform_levels_spec m0 n p m :
  shape m0 -> uniforming m0 p m -> (0 < p)%nat -> (p + n = length Ms)%nat ->
  exists m', foldR (uniform_level ndebug) m (seq p n) = Ok m' /\ uniforming m0 (length Ms) m' /\ steady m m' /\
    forall q, in_wheel m' q <-> in_wheel m q.
Proof.
  intros Hs0; revert p m; induction n as [|n IH]; intros p m Hu Hp Hn; cbn [seq foldR].
  - exists m. replace p with (length Ms) in * by lia. done.
  - destruct (uniform_level_spec m0 p m) as (m1 & -> & Hu1 & Hst & _ & Hw); try done; [lia|]. cbn [rbind].
    destruct (IH (S p) m1) as (m2 & -> & Hu2 & Hst2 & Hw2); try done; [lia|lia|].
    exists m2. split_and!; try done; [by etransitivity|]. intros q. by rewrite Hw2, Hw.
Qed.

(** What a tick does: [steady] but for the clock. *)
Record ticked (m m' : manager) : Prop := mkTicked {
  tk_mono : m_stLastTickMonotonic m' = m_stLastTickMonotonic m + m_iTickOffsetMilliseconds m * 1000000;
  tk_wall : m_stCurrentTimeValue m' = m_stCurrentTimeValue m;
  tk_tick : m_iCurrentTick m' = m_iCurrentTick m + 1;
  tk_ms : m_iTickOffsetMilliseconds m' = m_iTickOffsetMilliseconds m;
  tk_timers : forall p, essence <$> timers m' !! p = essence <$> timers m !! p
}.

(** The first level's turn, the clock having moved on. *)
Lemma first_turn m m0 l m1 :
  wf m -> m_vTimerLevels m0 = m_vTimerLevels m -> timers m0 = timers m -> m_iTimerLevelCount m0 = m_iTimerLevelCount m ->
  m_iCurrentTick m0 = m_iCurrentTick m + 1 -> turned 0 l m0 m1 ->
  inv (next_turn m) m1 /\ NoDup l /\
  (forall q, in_wheel m q <-> q ∈ l \/ in_wheel m1 q) /\
  (forall q, q ∈ l -> ~ in_wheel m1 q /\ exists d, timers m !! q = Some d /\
     m_iTriggerTick d <= m_iCurrentTick m + 1 <= m_iTriggerTick d + 1).
Proof.
  intros Hi El Eti Ec Et Htn. pose proof (inv_shape _ _ Hi) as Hs.
  assert (shape m0) as Hs0 by (unfold shape; by rewrite El, Ec).
  assert (forall j s q, at_slot m0 j s q <-> at_slot m j s q) as Hat0 by (intros; unfold at_slot; by rewrite El).
  assert (forall j, offset m0 j = offset m j) as Hoff0 by (intros; unfold offset; by rewrite El).
  destruct (tn_nodup _ _ _ _ Htn) as [Hl Hnd].
  { unfold distinct. rewrite El. apply Hi. }
  split_and!; try done.
  - constructor; [by apply Htn|done|]. intros j s q Hq. rewrite (tn_slots _ _ _ _ Htn) in Hq. destruct Hq as [Hne Hq].
    pose proof Hq as Hq0. rewrite Hat0 in Hq.
    destruct (inv_placed _ _ Hi _ _ _ Hq) as (d & Ed & F1 & F2 & Hon).
    exists d. rewrite (tn_timers _ _ _ _ Htn), Eti. split_and!; try done.
    destruct (at_slot_range _ _ _ _ Hs Hq) as [_ Hsr].
    unfold on_time in *. rewrite (dist_turned 0 l m0 m1 j s Htn Hs0 Hsr Hne), (st_tick _ _ (tn_steady _ _ _ _ Htn)), Et.
    rewrite (same_offsets_dist m m0 j s Hoff0). destruct j as [|j].
    + rewrite decide_True by done. lia.
    + rewrite decide_False by done. by rewrite Z.sub_0_r.
  - intros q. rewrite (tn_taken _ _ _ _ Htn). unfold in_wheel. setoid_rewrite (tn_slots _ _ _ _ Htn).
    setoid_rewrite Hat0. split.
    + intros (j & s & H). destruct (decide (j = 0%nat /\ s = offset m0 0)) as [[-> ->]|]; [by left|]. right; eauto.
    + intros [H|(j & s & _ & H)]; eauto.
  - intros q Hq. apply (tn_taken _ _ _ _ Htn) in Hq. rewrite Hat0, Hoff0 in Hq.
    destruct (inv_placed _ _ Hi _ _ _ Hq) as (d & Ed & _ & _ & Hon). split.
    + intros (j & s & H). apply (tn_slots _ _ _ _ Htn) in H as [Hne H]. apply Hne. rewrite Hat0 in H.
      rewrite Hoff0. destruct (at_slot_unique _ _ _ _ _ _ _ Hi Hq H) as [<- <-]. done.
    + exists d. split; [done|]. cbn [on_time] in Hon. rewrite dist_current in Hon by done. lia.
Qed.

(** When the first level does not wrap, every count of elapsed ticks goes up by one. *)
Lemma elapsed_no_wrap m m1 i :
  shape m -> (forall j, offset m1 j = if decide (j = 0%nat) then (offset m 0 + 1) mod width 0 else offset m j) ->
  offset m1 0 <> 0 -> (0 < i)%nat -> elapsed m1 i = elapsed m i + 1.
Proof.
  intros Hs Hoff E0 Hi. induction i as [|i IH]; [lia|]. cbn [elapsed]. destruct i as [|i].
  - cbn [elapsed span]. rewrite Hoff, decide_True in * by done.
    pose proof (offset_range m 0 Hs). pose proof (width_range 0).
    destruct (Z.eq_dec (offset m 0 + 1) (width 0)) as [E|E]; [by rewrite E, Z.mod_same in E0 by lia|].
    rewrite Z.mod_small by lia. lia.
  - rewrite IH, Hoff, decide_False by lia. lia.
Qed.

(** run_tick on a well-formed wheel never fails; it hands out exactly the
    timers of this tick and those overdue since the last, keeps every other
    one, and leaves a well-formed wheel. *)
Lemma run_tick_spec m :
  wf m ->
  exists vDue m', run_tick ndebug m = Ok (vDue, m') /\ wf m' /\ ticked m m' /\ NoDup vDue /\
    (forall q, in_wheel m q <-> q ∈ vDue \/ in_wheel m' q) /\
    (forall q, q ∈ vDue -> ~ in_wheel m' q /\ exists d, timers m !! q = Some d /\
       m_iTriggerTick d <= m_iCurrentTick m + 1 <= m_iTriggerTick d + 1).
Proof.
  intros Hi. pose proof (inv_shape _ _ Hi) as Hs. destruct Hok as (Hlen & _ & _).
  unfold run_tick. set (m0 := set_clock _ _ m).
  destruct (RunTick_turn m0 0 true Hs) as (l & m1 & Htn & E1); [lia|].
  unfold try_run_timer. rewrite E1. cbn [rbind].
  destruct (first_turn m m0 l m1 Hi eq_refl eq_refl eq_refl eq_refl Htn) as (Hi1 & Hl & Hw & Hdue).
  pose proof (tn_steady _ _ _ _ Htn) as Hst. pose proof (tn_offset _ _ _ _ Htn) as Hoff.
  assert (forall m2, steady m1 m2 -> ticked m m2) as Htick.
  { intros m2 Hst2. destruct (transitivity Hst Hst2). constructor; done. }
  destruct (get_level_shape m1 0 (inv_shape _ _ Hi1)) as (lv & -> & Elv & _); [lia|]. cbn [rbind]. unfold IsLevelEnd.
  assert (m_iOffset lv = offset m1 0) as -> by (unfold offset; by rewrite Elv).
  destruct (Z.eqb_spec (offset m1 0) 0) as [E0|E0].
  - destruct (uniform_levels_spec m (length Ms - 1) 1 m1) as (m2 & E2 & Hu & Hst2 & Hw2); [done| |lia|lia|].
    { constructor; [|by rewrite (st_tick _ _ Hst)|..|by left].
      - eapply inv_weaken; [|exact Hi1]. intros j Hj. unfold mid_turn. rewrite decide_False by lia. lia.
      - intros j Hj. rewrite Hoff, decide_False by lia. done. }
    unfold try_uniform. replace (m_iTimerLevelCount m1) with (length Ms) by (symmetry; apply (inv_shape _ _ Hi1)).
    rewrite E2. cbn [rbind]. exists l, m2. split_and!; try done.
    + eapply inv_weaken; [|exact (uf_inv _ _ _ Hu)]. intros j Hj. unfold mid_turn. rewrite decide_True by lia. lia.
    + by apply Htick.
    + intros q. by rewrite Hw2.
    + intros q Hq. rewrite Hw2. by apply Hdue.
  - cbn [rbind]. exists l, m1. split_and!; try done.
    + eapply inv_weaken; [|exact Hi1]. intros j Hj. unfold next_turn.
      rewrite (st_tick _ _ Hst), (elapsed_no_wrap m m1 j Hs Hoff) by (done || lia). cbn. lia.
    + by apply Htick.
Qed.

(** *** The public operations *)

Lemma next_turn_cap m i : shape m -> next_turn m i <= m_iCurrentTick m + span i.
Proof. intros Hs. unfold next_turn. pose proof (elapsed_range m i Hs). lia. Qed.

(** Data of a timer outside the wheel may be written at will. *)
Lemma inv_set_timer nr m p d :
  inv nr m -> ~ in_wheel m p -> inv nr (set_timers (<[p := d]> (timers m)) m).
Proof.
  intros [Hs Hn Hp] Hnp. constructor; [done..|]. intros i s q H. cbn [timers set_timers].
  rewrite lookup_insert_ne by (intros <-; apply Hnp; by exists i, s). by apply Hp.
Qed.

(** Arming a timer outside the wheel for [n] ticks from now. *)
Lemma arm_spec m p ms n :
  wf m -> ~ in_wheel m p -> 0 < ms -> 0 < n ->
  exists m', (let! m := InitData ndebug p ms n m in add_timer ndebug p m) = Ok m' /\ wf m' /\
    (forall q, in_wheel m' q <-> q = p \/ in_wheel m q) /\
    (exists d, timers m' !! p = Some d /\ m_iTriggerTick d = m_iCurrentTick m + n /\ m_iOffsetMilliseconds d = ms) /\
    (forall q, q <> p -> essence <$> timers m' !! q = essence <$> timers m !! q) /\
    m_iCurrentTick m' = m_iCurrentTick m /\ m_stLastTickMonotonic m' = m_stLastTickMonotonic m /\
    m_iTickOffsetMilliseconds m' = m_iTickOffsetMilliseconds m /\ m_stCurrentTimeValue m' = m_stCurrentTimeValue m.
Proof.
  intros Hi Hp Hms Hn. unfold InitData. rewrite !assert_true by (apply Z.ltb_lt; done). cbn [rbind].
  match goal with |- context [set_timers (<[p := ?x]> _) _] => set (d := x) end.
  set (m0 := set_timers _ m).
  assert (inv (next_turn m0) m0) as Hi0.
  { apply (inv_weaken (next_turn m)); [|by apply inv_set_timer].
    intros i _. unfold next_turn. by rewrite (same_offsets_elapsed m m0). }
  destruct (add_timer_spec (next_turn m0) m0 p d) as (m' & -> & Hi' & Hst & Hso & Hin).
  - done.
  - intros i _. apply next_turn_cap, Hi0.
  - done.
  - apply lookup_insert_eq.
  - cbn. lia.
  - exists m'. split_and!; try done.
    + eapply inv_weaken; [|exact Hi']. intros i _. unfold next_turn.
      rewrite (st_tick _ _ Hst), (same_offsets_elapsed _ _ _ Hso). lia.
    + destruct (steady_trigger m0 m' p d Hst) as (d' & E & E1 & E2); [apply lookup_insert_eq|]. by exists d'.
    + intros q Hq. rewrite (st_timers _ _ Hst). cbn [timers m0 set_timers]. by rewrite lookup_insert_ne.
    + by rewrite (st_tick _ _ Hst).
    + by rewrite (st_mono _ _ Hst).
    + by rewrite (st_ms _ _ Hst).
    + by rewrite (st_wall _ _ Hst).
Qed.

Lemma TicksFromNow_pos now ms m : 0 < TicksFromNow now ms m.
Proof. unfold TicksFromNow. destruct (_ <? 1) eqn:E; lia. Qed.

Lemma RemoveTimer_spec m p d i :
  wf m -> timers m !! p = Some d -> m_pCurrentLevel d = Some i -> (i < length Ms)%nat -> 0 <= m_iLevelTick d < width i ->
  exists b m', RemoveTimer ndebug p m = Ok (b, m') /\ wf m' /\ (b = true <-> in_wheel m p) /\
    (forall q, in_wheel m' q <-> in_wheel m q /\ q <> p) /\ steady m m' /\ timers m' = timers m.
Proof.
  intros Hi Ed El Hin Hk. pose proof (inv_shape _ _ Hi) as Hs. unfold RemoveTimer, timer_data. rewrite Ed.
  cbn [from_option id]. rewrite El. cbn [assert]. rewrite assert_true by done. cbn [rbind].
  destruct (get_level_shape m i Hs Hin) as (lv & Eg & Elv & Hlv).
  unfold Level_RemoveTimer, timer_data. rewrite Eg, Ed. cbn [rbind from_option id].
  rewrite (lv_max _ _ Hlv), assert_true by (apply andb_true_iff; split; lia). cbn [rbind].
  destruct (get_slot_ok i lv _ Hlv Hk) as (l & -> & Es). cbn [rbind].
  assert (forall q, at_slot m i (m_iLevelTick d) q <-> q ∈ l) as Hl.
  { intros q. unfold at_slot. rewrite Elv. split; [intros (? & ? & [= <-] & _ & E & H); congruence|].
    intros Hq. exists lv, l. split_and!; done || lia. }
  assert (in_wheel m p <-> p ∈ l) as Hpl.
  { rewrite <- Hl. split; [|by exists i, (m_iLevelTick d)]. intros (j & s & H).
    destruct (inv_placed _ _ Hi _ _ _ H) as (d' & E' & E1 & E2 & _).
    assert (d' = d) as -> by congruence. rewrite El in E1. injection E1 as ->. by rewrite E2. }
  destruct (list_erase p l) as [l'|] eqn:Ee; eexists _, _; (split; [reflexivity|]).
  - apply list_erase_spec in Ee. set (lv' := put_slot (m_iLevelTick d) l' lv).
    match goal with |- wf ?x /\ _ => set (m' := x) end.
    assert (NoDup (p :: l')) as Hnd by (rewrite <- Ee; by eapply (inv_nodup _ _ Hi)).
    apply NoDup_cons in Hnd as [Hpl' Hnd]. pose proof (lv_slots _ _ Hlv) as Hlen.
    assert (forall j s q, at_slot m' j s q <-> at_slot m j s q /\ q <> p) as Hat.
    { intros j s q. rewrite (at_slot_put m m' i lv lv' (m_iLevelTick d) l' j s q) by (done || lia). split.
      - intros [(-> & -> & Hq)|[Hn H]].
        + rewrite Hl, Ee. split; [by right|intros ->; done].
        + split; [done|]. intros ->. apply Hn.
          assert (at_slot m i (m_iLevelTick d) p) as Hp by (rewrite Hl, Ee; by left).
          by destruct (at_slot_unique _ _ _ _ _ _ _ Hi H Hp).
      - intros [H Hq]. destruct (decide (j = i /\ s = m_iLevelTick d)) as [[-> ->]|]; [|by right].
        left. rewrite Hl, Ee in H. by apply elem_of_cons in H as [->|]. }
    assert (same_offsets m m') as Hso.
    { intros j. rewrite (offset_put m m' i lv lv' Elv eq_refl). unfold offset.
      by destruct (decide (j = i)) as [->|]; [rewrite Elv|]. }
    split_and!; [|split; [intros _; apply Hpl; rewrite Ee; by left|done]| |by constructor|done].
    + constructor.
      * apply (shape_put m m' i lv lv' Hs Elv eq_refl eq_refl). destruct Hlv. constructor; try done.
        cbn. unfold lenZ in *. by rewrite length_insert.
      * by apply (nodup_put m m' i lv lv' (Z.to_nat (m_iLevelTick d)) l' (inv_nodup _ _ Hi) Elv).
      * intros j s q H. apply Hat in H as [H _].
        destruct (inv_placed _ _ Hi _ _ _ H) as (dq & ? & ? & ? & Hq). exists dq. split_and!; try done.
        unfold on_time, next_turn in *. by rewrite (same_offsets_dist m m'), (same_offsets_elapsed m m').
    + intros q. unfold in_wheel. setoid_rewrite Hat.
      split; [intros (j & s & H & Hq); eauto|intros [(j & s & H) Hq]; eauto].
  - apply list_erase_none in Ee. split_and!; [done|split; [done|by rewrite Hpl]| |done|done].
    intros q. split; [intros H; split; [done|intros ->; by apply Ee, Hpl]|by intros []].
Qed.

(** *** Running the wheel *)

Fixpoint run_ticks (n : nat) (m : manager) : result (list (list timer) * manager) :=
  match n with
  | O => Ok ([], m)
  | S n =>
      let! (vDue, m) := run_tick ndebug m in
      let! (dues, m) := run_ticks n m in
      Ok (vDue :: dues, m)
  end.

Lemma in_wheel_pending m p d : wf m -> in_wheel m p -> timers m !! p = Some d -> m_iCurrentTick m <= m_iTriggerTick d.
Proof.
  intros Hi (i & s & H) Ed. pose proof (inv_shape _ _ Hi) as Hs.
  destruct (inv_placed _ _ Hi _ _ _ H) as (d' & E & _ & _ & Hon). replace d' with d in * by congruence.
  pose proof (dist_range m i s). destruct i as [|i]; cbn [on_time] in Hon; [lia|].
  unfold next_turn in Hon. pose proof (elapsed_range m (S i) Hs). pose proof (span_pos (S i)). nia.
Qed.

Lemma ticked_trigger m m' p d :
  ticked m m' -> timers m !! p = Some d ->
  exists d', timers m' !! p = Some d' /\ m_iTriggerTick d' = m_iTriggerTick d.
Proof.
  intros Ht E. pose proof (tk_timers _ _ Ht p) as H. rewrite E in H.
  destruct (timers m' !! p) as [d'|]; [|done]. injection H as ? ? ?. by exists d'.
Qed.

(** A timer outside the wheel is never handed out. *)
Lemma run_ticks_outside n m p :
  wf m -> ~ in_wheel m p ->
  exists dues m', run_ticks n m = Ok (dues, m') /\ wf m' /\ length dues = n /\ ~ in_wheel m' p /\
    forall j due, dues !! j = Some due -> p ∉ due.
Proof.
  revert m; induction n as [|n IH]; intros m Hi Hp; cbn [run_ticks].
  - by exists [], m.
  - destruct (run_tick_spec m Hi) as (due & m1 & -> & Hi1 & _ & _ & Hw & _). cbn [rbind].
    rewrite Hw in Hp. destruct (IH m1) as (dues & m2 & -> & Hi2 & Hl & Hp2 & Hd); [done|tauto|]. cbn [rbind].
    exists (due :: dues), m2. split_and!; try done; [by simpl; f_equal|].
    intros [|j] due'; cbn; [intros [= <-]; tauto|apply Hd].
Qed.

Lemma run_ticks_fires n m p d :
  wf m -> in_wheel m p -> timers m !! p = Some d -> m_iTriggerTick d < m_iCurrentTick m + Z.of_nat n ->
  exists dues m' k, run_ticks n m = Ok (dues, m') /\ wf m' /\ length dues = n /\ (k < n)%nat /\
    m_iTriggerTick d <= m_iCurrentTick m + Z.of_nat k + 1 <= m_iTriggerTick d + 1 /\
    forall j due, dues !! j = Some due -> (p ∈ due <-> j = k).
Proof.
  revert m d; induction n as [|n IH]; intros m d Hi Hp Ed Hn.
  - pose proof (in_wheel_pending m p d Hi Hp Ed). lia.
  - cbn [run_ticks]. destruct (run_tick_spec m Hi) as (due & m1 & -> & Hi1 & Ht & _ & Hw & Hdue). cbn [rbind].
    destruct (decide (p ∈ due)) as [Hin|Hin].
    + destruct (Hdue p Hin) as (Hp1 & d' & E' & HT). replace d' with d in * by congruence.
      destruct (run_ticks_outside n m1 p Hi1 Hp1) as (dues & m2 & -> & Hi2 & Hl & _ & Hd). cbn [rbind].
      exists (due :: dues), m2, 0%nat. split_and!; try done; try lia; [by simpl; f_equal|].
      intros [|j] due'; cbn; [by intros [= <-]|]. intros E. split; [|done]. intros H. by apply (Hd j due' E) in H.
    + assert (in_wheel m1 p) as Hp1 by (apply Hw in Hp as [|]; done).
      destruct (ticked_trigger m m1 p d Ht Ed) as (d1 & E1 & ET).
      pose proof (tk_tick _ _ Ht) as Etk.
      destruct (IH m1 d1 Hi1 Hp1 E1) as (dues & m2 & k & -> & Hi2 & Hl & Hk & HT & Hd); [lia|]. cbn [rbind].
      exists (due :: dues), m2, (S k). split_and!; try done; try lia; [by simpl; f_equal|].
      intros [|j] due'; cbn; [intros [= <-]; by split|]. intros E. rewrite (Hd j due' E). lia.
Qed.

(** *** Update and its callbacks *)

(** What a callback may do: use the public operations on timers that are in the
    wheel or were allocated since; it returns RESET_TIMER only with an interval. *)
Definition callback_ok (OnTimer : timer -> manager -> option bool * manager) : Prop :=
  forall p m o m', wf m -> ~ in_wheel m p -> OnTimer p m = (o, m') ->
    wf m' /\ m_iCurrentTick m' = m_iCurrentTick m /\ m_stLastTickMonotonic m' = m_stLastTickMonotonic m /\
    m_iTickOffsetMilliseconds m' = m_iTickOffsetMilliseconds m /\
    (forall q, in_wheel m' q -> in_wheel m q \/ timers m !! q = None) /\
    (forall q, is_Some (timers m !! q) -> is_Some (timers m' !! q)) /\
    (o = Some true -> 0 < m_iOffsetMilliseconds (timer_data p m') <= INT32_MAX).

Lemma milling2tick_ceil ms m :
  0 < ms <= INT32_MAX -> 0 < m_iTickOffsetMilliseconds m ->
  milling2tick ms m = (ms + m_iTickOffsetMilliseconds m - 1) / m_iTickOffsetMilliseconds m.
Proof.
  intros Hms Ho. unfold milling2tick, INT32_MAX in *. set (o := m_iTickOffsetMilliseconds m) in *.
  rewrite (u32_small ms) by lia. pose proof (Z.div_mod ms o ltac:(lia)) as E.
  pose proof (Z.mod_pos_bound ms o Ho).
  assert (0 <= ms / o <= ms) by (split; [apply Z.div_pos|apply Z.div_le_upper_bound]; nia).
  rewrite s32_small by lia. destruct (Z.ltb_spec 0 (ms mod o)).
  - rewrite u32_small by lia. apply Z.div_unique with (r := ms mod o - 1); lia.
  - rewrite u32_small by lia. rewrite Z.add_0_r. apply Z.div_unique with (r := o - 1); lia.
Qed.

Lemma ceil_pos ms o : 0 < ms -> 0 < o -> 0 < (ms + o - 1) / o.
Proof. intros. apply Z.div_str_pos. lia. Qed.

Section Callbacks.
Context (OnTimer : timer -> manager -> option bool * manager).
Hypothesis HOn : callback_ok OnTimer.

(** The clock of [m'] is the clock of [m]. *)
Definition same_clock (m m' : manager) : Prop :=
  m_iCurrentTick m' = m_iCurrentTick m /\ m_stLastTickMonotonic m' = m_stLastTickMonotonic m /\
  m_iTickOffsetMilliseconds m' = m_iTickOffsetMilliseconds m.

Lemma run_timer_spec m p :
  wf m -> 0 < m_iTickOffsetMilliseconds m -> ~ in_wheel m p -> is_Some (timers m !! p) ->
  exists m', run_timer ndebug OnTimer p m = Ok m' /\ wf m' /\ same_clock m m' /\
    (forall q, in_wheel m' q -> q = p \/ in_wheel m q \/ timers m !! q = None) /\
    (forall q, is_Some (timers m !! q) -> is_Some (timers m' !! q)).
Proof.
  intros Hi Ho Hp Hd. unfold run_timer. destruct (OnTimer p m) as [o m1] eqn:E.
  destruct (HOn p m o m1 Hi Hp E) as (Hi1 & Et & Emo & Ems & Hw & Hts & Hms).
  assert (same_clock m m1) as Hc by done.
  destruct o as [[]|]; [|by exists m1; split_and!; auto..].
  specialize (Hms eq_refl).
  assert (~ in_wheel m1 p) as Hp1.
  { intros H. apply Hw in H as [H|H]; [done|]. rewrite H in Hd. by destruct Hd. }
  destruct (arm_spec m1 p (m_iOffsetMilliseconds (timer_data p m1))
    (milling2tick (m_iOffsetMilliseconds (timer_data p m1)) m1)) as (m2 & -> & Hi2 & Hw2 & Hpd & Hts2 & F1 & F2 & F3 & _);
    [done|done|lia|rewrite milling2tick_ceil by lia; apply ceil_pos; lia|].
  exists m2. split_and!; try done.
  - destruct Hc as (? & ? & ?). split_and!; congruence.
  - intros q Hq. apply Hw2 in Hq as [->|Hq]; [by left|right]. by apply Hw.
  - intros q Hq. apply Hts in Hq. destruct (decide (q = p)) as [->|Hne].
    + destruct Hpd as (dp & -> & _). done.
    + specialize (Hts2 q Hne). destruct Hq as [dq Eq]. rewrite Eq in Hts2.
      destruct (timers m2 !! q); [done|by inversion Hts2].
Qed.

Lemma run_timers_spec l m :
  wf m -> 0 < m_iTickOffsetMilliseconds m -> NoDup l ->
  (forall p, p ∈ l -> ~ in_wheel m p /\ is_Some (timers m !! p)) ->
  exists m', foldR (fun m p => run_timer ndebug OnTimer p m) m l = Ok m' /\ wf m' /\ same_clock m m'.
Proof.
  revert m; induction l as [|p l IH]; intros m Hi Ho Hl Hp; cbn [foldR]; [by exists m|].
  apply NoDup_cons in Hl as [Hpl Hl]. destruct (Hp p) as [Hnp Hdp]; [by left|].
  destruct (run_timer_spec m p Hi Ho Hnp Hdp) as (m1 & -> & Hi1 & Hc & Hw & Hts). cbn [rbind].
  destruct Hc as (E1 & E2 & E3).
  destruct (IH m1) as (m2 & -> & Hi2 & (F1 & F2 & F3)); try done; [lia| |exists m2; unfold same_clock; split_and!; congruence].
  intros q Hq. destruct (Hp q) as [Hnq Hdq]; [by right|]. split; [|by apply Hts].
  intros H. apply Hw in H as [->|[H|H]]; [done|done|]. rewrite H in Hdq. by destruct Hdq.
Qed.

Lemma update_ticks_spec n m :
  wf m -> 0 < m_iTickOffsetMilliseconds m ->
  exists m', update_ticks ndebug OnTimer n m = Ok m' /\ wf m' /\
    m_iCurrentTick m' = m_iCurrentTick m + Z.of_nat n /\
    m_stLastTickMonotonic m' = m_stLastTickMonotonic m + Z.of_nat n * (m_iTickOffsetMilliseconds m * 1000000) /\
    m_iTickOffsetMilliseconds m' = m_iTickOffsetMilliseconds m.
Proof.
  revert m; induction n as [|n IH]; intros m Hi Ho; cbn [update_ticks].
  - exists m. split_and!; done || lia.
  - unfold update_tick. destruct (run_tick_spec m Hi) as (due & m1 & -> & Hi1 & Ht & Hnd & Hw & Hdue). cbn [rbind].
    destruct Ht as [E1 E2 E3 E4 E5].
    destruct (run_timers_spec due m1) as (m2 & -> & Hi2 & (F1 & F2 & F3)); [done|lia|done| |].
    { intros p Hp. destruct (Hdue p Hp) as (? & d & Ed & _). split; [done|].
      specialize (E5 p). rewrite Ed in E5. destruct (timers m1 !! p); [done|by inversion E5]. }
    cbn [rbind]. destruct (IH m2) as (m3 & -> & Hi3 & G1 & G2 & G3); [done|lia|].
    exists m3. split_and!; try done; lia.
Qed.

End Callbacks.

End Wheel.

(** *** Init *)

Definition product (l : list Z) : Z := foldr Z.mul 1 l.

Lemma product_pos l : Forall (fun n => 0 < n) l -> 0 < product l.
Proof. induction 1; simpl; nia. Qed.

(** The check multiplies step by step in uint64_t; it comes to comparing the
    product itself with the largest uint32_t. *)
Lemma levels_in_range_spec iTotal l :
  0 < iTotal <= UINT32_MAX ->
  levels_in_range iTotal l = true <-> Forall (fun n => 0 < n) l /\ iTotal * product l <= UINT32_MAX.
Proof.
  unfold UINT32_MAX. revert iTotal; induction l as [|n l IH]; intros iTotal Ht; cbn [levels_in_range product foldr].
  - split; [intros _; split; [constructor|lia]|done].
  - fold (product l). rewrite Forall_cons.
    destruct (Z.leb_spec n 0) as [Hn|Hn]; cbn [orb]; [split; [done|intros [[? _] _]; lia]|].
    destruct (Z.ltb_spec 0xFFFFFFFF n) as [Hb|Hb]; cbn [orb].
    { split; [done|]. intros [[_ Hl] H]. pose proof (product_pos l Hl). nia. }
    destruct (Z.ltb_spec 0 n); [|lia]. destruct (Z.leb_spec n 0xFFFFFFFF); [|lia]. cbn [andb].
    rewrite u64_small by nia.
    destruct (Z.ltb_spec 0xFFFFFFFF (iTotal * n)) as [Hp|Hp].
    + split; [done|]. intros [[_ Hl] H']. pose proof (product_pos l Hl). nia.
    + rewrite IH by nia. rewrite Z.mul_assoc. tauto.
Qed.

Lemma span_app_product pre l : span (pre ++ l) (length pre) = product pre.
Proof.
  assert (forall k, (k <= length pre)%nat -> span (pre ++ l) k = product (take k pre)) as H.
  - intros k; induction k as [|k IH]; intros Hk; [done|]. cbn [span]. rewrite IH by lia.
    destruct (lookup_lt_is_Some_2 pre k) as [w Ew]; [lia|].
    rewrite (take_S_r _ _ w Ew). unfold product, width. rewrite lookup_app_l, Ew by lia. cbn [default].
    rewrite foldr_app. cbn [foldr from_option id]. rewrite Z.mul_1_r.
    generalize (take k pre) as t; intros t. induction t as [|x t IHt]; cbn [foldr]; [lia|]. rewrite <- IHt. lia.
  - rewrite H, firstn_all by lia. done.
Qed.

(** The levels Init builds: empty, at offset 0, each slot as long as all below. *)
Lemma init_levels_spec ndebug Ms pre l :
  Ms = pre ++ l -> Forall (fun n => 0 < n) Ms -> product Ms <= UINT32_MAX ->
  exists lvs, init_levels ndebug (product pre) l = Ok lvs /\ length lvs = length l /\
    forall i lv, lvs !! i = Some lv -> level_ok Ms (length pre + i) lv /\ m_iOffset lv = 0 /\
      forall s k, m_vTimerTickDatas lv !! s = Some k -> k = [].
Proof.
  unfold UINT32_MAX. revert pre; induction l as [|n l IH]; intros pre E Hp Hb; cbn [init_levels].
  { exists []. by split_and!. }
  assert (product (pre ++ [n]) = product pre * n) as Epn.
  { unfold product. rewrite foldr_app. cbn [foldr]. rewrite Z.mul_1_r.
    generalize pre as t; intros t. induction t as [|x t IHt]; cbn [foldr]; [lia|]. rewrite IHt. lia. }
  assert (0 < n /\ 0 < product pre /\ 0 < product l /\ product pre * n * product l <= 2 ^ 32 - 1) as (Hn & Hpp & Hpl & Hm).
  { rewrite E in Hp, Hb. rewrite Forall_app, Forall_cons in Hp. destruct Hp as (H1 & H2 & H3).
    split_and!; try done; try by apply product_pos.
    assert (product (pre ++ n :: l) = product pre * n * product l) as <-; [|lia].
    clear -n. unfold product. induction pre as [|x pre IHp]; cbn [foldr app]; [lia|]. rewrite IHp. lia. }
  rewrite !u32_small by (rewrite ?u32_small; nia).
  unfold Level_Init. rewrite !assert_true by (apply Z.ltb_lt; lia). cbn [rbind].
  destruct (IH (pre ++ [n])) as (lvs & H1 & H2 & H3); [by rewrite <- app_assoc|done|done|].
  rewrite Epn in H1. rewrite H1. cbn [rbind]. eexists. split; [reflexivity|]. split; [by simpl; f_equal|].
  intros [|i] lv; cbn [lookup list_lookup].
  - intros [= <-]. rewrite Nat.add_0_r. split_and!; [|done|].
    + assert (width Ms (length pre) = n) as Ew by (unfold width; by rewrite E, list_lookup_middle).
      constructor; cbn; [done|by rewrite E, span_app_product|lia|].
      rewrite Ew. unfold lenZ. rewrite length_replicate. lia.
    + intros s k Hk. by apply lookup_replicate_1 in Hk as [-> _].
  - intros Hi. destruct (H3 i lv Hi) as (Hlv & ? & ?). rewrite length_app in Hlv. simpl in Hlv.
    replace (length pre + S i)%nat with (length pre + 1 + i)%nat by lia. done.
Qed.

(** The settings Init works with, defaults filled in. *)
Definition config_offset (o : option Z) : Z := default 50 o.
Definition config_count (c : option Z) : Z := default 4 c.
Definition config_levels (c : option Z) (l : option (list Z)) : list Z :=
  match l with
  | Some l => l
  | None => let n := Z.to_nat (config_count c) in <[(n - 1)%nat := 1]> (replicate n 128)
  end.

Definition config_ok (o c : option Z) (l : option (list Z)) : Prop :=
  config_offset o <> 0 /\ 1000 mod config_offset o = 0 /\ 2 < config_count c /\
  lenZ (config_levels c l) = config_count c /\ last (config_levels c l) = Some 1 /\
  Forall (fun n => 0 < n) (config_levels c l) /\ product (config_levels c l) <= UINT32_MAX.

(** A wheel fresh from Init. *)
Definition fresh_wheel (o c : option Z) (l : option (list Z)) (now : Z) (tv : Z * Z) (ts : gmap timer TimerData)
    (m : manager) : Prop :=
  m_iCurrentTick m = 0 /\ m_stLastTickMonotonic m = now /\ m_stCurrentTimeValue m = tv /\ timers m = ts /\
  m_iTickOffsetMilliseconds m = config_offset o /\ shape (config_levels c l) m /\
  (forall i, offset m i = 0) /\ forall p, ~ in_wheel m p.

Lemma Init_spec ndebug o c l now tv ts :
  match Init ndebug o c l now tv ts with
  | Ok (Some m) => config_ok o c l /\ fresh_wheel o c l now tv ts m
  | Ok None => ~ config_ok o c l
  | Err _ => False
  end.
Proof.
  unfold Init, config_ok. change (default 50 o) with (config_offset o). change (default 4 c) with (config_count c).
  destruct (Z.eqb_spec (config_offset o) 0); cbn [orb]; [tauto|].
  destruct (Z.eqb_spec (1000 mod config_offset o) 0); cbn [negb]; [|tauto].
  destruct (Z.leb_spec (config_count c) 2) as [Hc|Hc]; [lia|].
  change (match l with Some l => l | None => <[(Z.to_nat (config_count c) - 1)%nat := 1]> (replicate (Z.to_nat (config_count c)) 128) end)
    with (config_levels c l). set (lv := config_levels c l).
  destruct (Z.eqb_spec (lenZ lv) (config_count c)) as [El|El]; cbn [negb orb]; [|tauto].
  assert (lv !! (Z.to_nat (config_count c) - 1)%nat = last lv) as ->.
  { rewrite last_lookup. f_equal. unfold lenZ in El. lia. }
  destruct (bool_decide_reflect (last lv = Some 1)) as [Ela|Ela]; cbn [negb]; [|tauto].
  pose proof (levels_in_range_spec 1 lv ltac:(unfold UINT32_MAX; lia)) as Hr. rewrite Z.mul_1_l in Hr.
  destruct (levels_in_range 1 lv); cbn [negb]; [|intros (? & ? & ? & ? & ? & ? & ?); by destruct Hr as [_ Hr]; specialize (Hr ltac:(done))].
  destruct Hr as [Hr _]. destruct (Hr eq_refl) as [Hpos Hprod].
  destruct (init_levels_spec ndebug lv [] lv eq_refl Hpos Hprod) as (lvs & E & Hl & Hlv).
  change (product []) with 1 in E. rewrite E. cbn [rbind]. split; [split_and!; done || lia|].
  assert (Z.to_nat (config_count c) = length lv) as En by (unfold lenZ in El; lia).
  unfold fresh_wheel. cbn. split_and!; try done.
  - unfold shape. cbn. split_and!; [done..|]. intros i lvi Hi. by apply Hlv.
  - intros i. unfold offset. cbn. destruct (lvs !! i) eqn:Ei; [by apply Hlv in Ei as (_ & ? & _)|done].
  - intros p (i & s & (lvi & k & Ei & _ & Ek & Hp)). cbn in Ei. apply Hlv in Ei as (_ & _ & Hk).
    apply Hk in Ek as ->. by apply not_elem_of_nil in Hp.
Qed.

Lemma fresh_wf o c l now tv ts m : fresh_wheel o c l now tv ts m -> wf (config_levels c l) m.
Proof.
  intros (_ & _ & _ & _ & _ & Hs & _ & Hw). constructor; [done| |].
  - intros i lv s k Ei Es. destruct k as [|p k]; [constructor|]. exfalso. apply (Hw p).
    exists i, (Z.of_nat s). exists lv, (p :: k). split_and!; [done|lia|by rewrite Nat2Z.id|by left].
  - intros i s p H. exfalso. apply (Hw p). by exists i, s.
Qed.

Lemma config_widths o c l :
  config_ok o c l -> Forall (fun n => n <= 2 ^ 31) (config_levels c l) -> widths_ok (config_levels c l).
Proof.
  intros (_ & _ & Hc & El & Ela & Hpos & _) Hb. unfold lenZ in El. split_and!.
  - lia.
  - rewrite Forall_forall in *. intros w Hw. specialize (Hpos w Hw). specialize (Hb w Hw). lia.
  - unfold width. rewrite last_lookup in Ela. replace (length (config_levels c l) - 1)%nat with (pred (length (config_levels c l))) by lia.
    by rewrite Ela.
Qed.

(** *** Reachable states *)

(** The states the wheel goes through: fresh from Init, then AddTimer of timers
    that are not in it, RemoveTimer and ticks, in any order. *)
Inductive reachable (ndebug : bool) : manager -> Prop :=
| reach_init o c l now tv ts m :
    0 <= config_offset o -> Forall (fun n => n <= 2 ^ 31) (config_levels c l) ->
    Init ndebug o c l now tv ts = Ok (Some m) -> reachable ndebug m
| reach_add now p ms m m' :
    reachable ndebug m -> ~ in_wheel m p -> 0 < ms -> AddTimer ndebug now p ms m = Ok m' -> reachable ndebug m'
| reach_remove p m b m' :
    reachable ndebug m -> RemoveTimer ndebug p m = Ok (b, m') -> reachable ndebug m'
| reach_tick m due m' :
    reachable ndebug m -> run_tick ndebug m = Ok (due, m') -> reachable ndebug m'.

Lemma RemoveTimer_inv ndebug Ms p m b m' :
  wf Ms m -> RemoveTimer ndebug p m = Ok (b, m') ->
  exists d i, timers m !! p = Some d /\ m_pCurrentLevel d = Some i /\ (i < length Ms)%nat /\ 0 <= m_iLevelTick d < width Ms i.
Proof.
  intros Hi E. unfold RemoveTimer in E. mono E. unfold timer_data in E.
  destruct (timers m !! p) as [d|] eqn:Ed; cbn [from_option id] in E; [|done].
  destruct (m_pCurrentLevel d) as [i|] eqn:El; [|done]. exists d, i.
  unfold Level_RemoveTimer, get_level in E. pose proof (inv_shape _ _ _ Hi) as (_ & Hlen & Hs).
  destruct (m_vTimerLevels m !! i) as [lv|] eqn:Elv; [|done]. cbn [rbind] in E. mono E.
  unfold timer_data in *. rewrite Ed in *. cbn [from_option id] in *. unfold get_slot in *.
  destruct (Z.ltb_spec (m_iLevelTick d) 0); [done|].
  destruct (m_vTimerTickDatas lv !! Z.to_nat (m_iLevelTick d)) eqn:Es; [|done].
  pose proof (lv_slots _ _ _ (Hs _ _ Elv)) as Hsl. apply lookup_lt_Some in Es. pose proof (lookup_lt_Some _ _ _ Elv).
  unfold lenZ in Hsl. split_and!; done || lia.
Qed.

Lemma reachable_wf ndebug m :
  reachable ndebug m -> 0 < m_iTickOffsetMilliseconds m /\ exists Ms, widths_ok Ms /\ wf Ms m.
Proof.
  induction 1 as [o c l now tv ts m Ho Hl E|now p ms m m' _ [IHo (Ms & Hok & IH)] Hp Hms E|
                  p m b m' _ [IHo (Ms & Hok & IH)] E|m due m' _ [IHo (Ms & Hok & IH)] E].
  - pose proof (Init_spec ndebug o c l now tv ts) as H. rewrite E in H. destruct H as [Hc Hf]. split.
    + destruct Hf as (_ & _ & _ & _ & -> & _). destruct Hc as (? & _). lia.
    + exists (config_levels c l). split; [by apply (config_widths o)|by eapply fresh_wf].
  - destruct (arm_spec ndebug Ms Hok m p ms (TicksFromNow now ms m) IH Hp Hms (TicksFromNow_pos _ _ _))
      as (m2 & E2 & Hi2 & _ & _ & _ & _ & _ & Ems & _).
    unfold AddTimer in E. rewrite E2 in E. injection E as <-. rewrite Ems. eauto.
  - destruct (RemoveTimer_inv _ _ _ _ _ _ IH E) as (d & i & E1 & E2 & E3 & E4).
    destruct (RemoveTimer_spec ndebug Ms m p d i IH E1 E2 E3 E4) as (b' & m2 & E' & Hi2 & _ & _ & Hst & _).
    rewrite E in E'. injection E' as <- <-. rewrite (st_ms _ _ Hst). eauto.
  - destruct (run_tick_spec ndebug Ms Hok m IH) as (due' & m2 & E' & Hi2 & Ht & _).
    rewrite E in E'. injection E' as <- <-. rewrite (tk_ms _ _ Ht). eauto.
Qed.

(** ** Properties *)

(** C1: every timer fires, once, and on time.  In any state the wheel can
    reach, take a timer that is in it and let the wheel run past its trigger
    tick: the run does not fail (in particular no assertion fires), the timer is
    handed out in exactly one of the ticks, and that tick is the trigger tick or
    the one after it, never an earlier one, whatever level it was put in and
    however often it was moved down. *)
Theorem timer_fires_once_on_time ndebug m p d n :
  reachable ndebug m -> in_wheel m p -> timers m !! p = Some d ->
  m_iTriggerTick d < m_iCurrentTick m + Z.of_nat n ->
  exists dues m' k, run_ticks ndebug n m = Ok (dues, m') /\ length dues = n /\ (k < n)%nat /\
    m_iTriggerTick d <= m_iCurrentTick m + Z.of_nat k + 1 <= m_iTriggerTick d + 1 /\
    forall j due, dues !! j = Some due -> (p ∈ due <-> j = k).
Proof.
  intros Hr Hp Ed Hn. destruct (reachable_wf _ _ Hr) as [_ (Ms & Hok & Hi)].
  destruct (run_ticks_fires ndebug Ms Hok n m p d Hi Hp Ed Hn) as (dues & m' & k & ? & ? & ? & ? & ? & ?).
  by exists dues, m', k.
Qed.

(** AddTimer puts the timer in the wheel and nothing else in or out.  Its
    trigger tick is the first tick boundary at least the delay after now: with
    [e] the microseconds gone since the last tick, the boundary [T - t] ticks on
    is not before [e + ms], and the one before it is. *)
Theorem AddTimer_arms ndebug m now p ms :
  reachable ndebug m -> ~ in_wheel m p -> 0 < ms ->
  let e := Z.max 0 (Z.quot (now - m_stLastTickMonotonic m) 1000) in
  let iTickUs := m_iTickOffsetMilliseconds m * 1000 in
  exists m' d, AddTimer ndebug now p ms m = Ok m' /\ timers m' !! p = Some d /\
    (forall q, in_wheel m' q <-> q = p \/ in_wheel m q) /\
    (m_iTriggerTick d - m_iCurrentTick m - 1) * iTickUs < e + ms * 1000 <=
    (m_iTriggerTick d - m_iCurrentTick m) * iTickUs.
Proof.
  intros Hr Hp Hms e iTickUs. destruct (reachable_wf _ _ Hr) as [Ho (Ms & Hok & Hi)].
  destruct (arm_spec ndebug Ms Hok m p ms (TicksFromNow now ms m) Hi Hp Hms (TicksFromNow_pos _ _ _))
    as (m' & E & _ & Hw & (d & Ed & ET & _) & _).
  exists m', d. split_and!; try done; rewrite ET.
  all: replace (m_iCurrentTick m + TicksFromNow now ms m - m_iCurrentTick m) with (TicksFromNow now ms m) by lia.
  all: unfold TicksFromNow; fold iTickUs.
  all: assert ((if Z.quot (now - m_stLastTickMonotonic m) 1000 <? 0 then 0
                else Z.quot (now - m_stLastTickMonotonic m) 1000) = e) as ->
    by (unfold e; destruct (Z.ltb_spec (Z.quot (now - m_stLastTickMonotonic m) 1000) 0); lia).
  all: assert (0 <= e) by lia; assert (0 < iTickUs) by lia; rewrite Z.quot_div_nonneg by lia.
  all: pose proof (Z.div_mod (e + ms * 1000 + iTickUs - 1) iTickUs ltac:(lia)).
  all: pose proof (Z.mod_pos_bound (e + ms * 1000 + iTickUs - 1) iTickUs ltac:(lia)).
  all: destruct (Z.ltb_spec ((e + ms * 1000 + iTickUs - 1) / iTickUs) 1); nia.
Qed.

(** RemoveTimer of a timer that has been in the wheel returns true
    exactly if the timer is still there; it then takes out that timer and no
    other, and otherwise (the timer has been handed out) changes nothing. *)
Theorem RemoveTimer_removes ndebug m p d i :
  reachable ndebug m -> timers m !! p = Some d -> m_pCurrentLevel d = Some i ->
  (exists lv, m_vTimerLevels m !! i = Some lv /\ 0 <= m_iLevelTick d < m_iMaxTick lv) ->
  exists b m', RemoveTimer ndebug p m = Ok (b, m') /\ (b = true <-> in_wheel m p) /\
    (forall q, in_wheel m' q <-> in_wheel m q /\ q <> p) /\ timers m' = timers m /\ steady m m'.
Proof.
  intros Hr Ed El (lv & Elv & Hk). destruct (reachable_wf _ _ Hr) as [_ (Ms & Hok & Hi)].
  destruct (inv_shape _ _ _ Hi) as (_ & Hlen & Hs). pose proof (Hs _ _ Elv) as Hlv.
  pose proof (lookup_lt_Some _ _ _ Elv). rewrite (lv_max _ _ _ Hlv) in Hk.
  destruct (RemoveTimer_spec ndebug Ms m p d i) as (b & m' & ? & ? & ? & ? & ? & ?); try done; [lia|].
  by exists b, m'.
Qed.

(** Update keeps pace with the steady clock without drift.  Whatever
    the callbacks do within the rules, and whether they end, renew or throw,
    Update runs exactly the ticks that are complete by now, moves its base by
    exactly those, and so leaves less than a tick for the next time. *)
Theorem Update_catches_up ndebug Ms OnTimer m now tv :
  widths_ok Ms -> wf Ms m -> 0 < m_iTickOffsetMilliseconds m -> callback_ok Ms OnTimer ->
  m_stLastTickMonotonic m <= now ->
  exists m', Update ndebug OnTimer now tv m = Ok m' /\ wf Ms m' /\
    m_stLastTickMonotonic m' =
      m_stLastTickMonotonic m + (m_iCurrentTick m' - m_iCurrentTick m) * (m_iTickOffsetMilliseconds m * 1000000) /\
    0 <= now - m_stLastTickMonotonic m' < m_iTickOffsetMilliseconds m * 1000000.
Proof.
  intros Hok Hi Ho Hcb Hnow. unfold Update. cbv zeta.
  set (m0 := set_wall tv m). change (m_stLastTickMonotonic m0) with (m_stLastTickMonotonic m).
  change (m_iTickOffsetMilliseconds m0) with (m_iTickOffsetMilliseconds m).
  set (D := now - m_stLastTickMonotonic m) in *. set (o := m_iTickOffsetMilliseconds m) in *.
  assert (wf Ms m0) as Hi0.
  { apply (inv_weaken Ms (next_turn Ms m)).
    - intros i _. unfold next_turn. by rewrite (same_offsets_elapsed Ms m m0).
    - destruct Hi as [H1 H2 H3]. by constructor. }
  pose proof (Z.div_mod D 1000 ltac:(lia)). pose proof (Z.mod_pos_bound D 1000 ltac:(lia)).
  rewrite (Z.quot_div_nonneg D) by lia.
  destruct (Z.leb_spec (D / 1000) 0) as [Hd|Hd].
  { exists m0. split_and!; try done; cbn; unfold D in *; lia. }
  rewrite (Z.quot_div_nonneg (D / 1000)), Z.quot_div_nonneg, !Z.div_div by (try apply Z.div_pos; lia).
  replace (1000 * (1000 * o)) with (1000000 * o) by lia.
  pose proof (Z.div_mod D (1000000 * o) ltac:(lia)). pose proof (Z.mod_pos_bound D (1000000 * o) ltac:(lia)).
  assert (0 <= D / (1000000 * o)) by (apply Z.div_pos; lia).
  destruct (update_ticks_spec ndebug Ms Hok OnTimer Hcb (Z.to_nat (D / (1000000 * o))) m0 Hi0 Ho)
    as (m' & -> & Hi' & Et & Emo & _).
  rewrite Z2Nat.id in * by lia. change (m_iCurrentTick m0) with (m_iCurrentTick m) in *.
  change (m_stLastTickMonotonic m0) with (m_stLastTickMonotonic m) in *.
  change (m_iTickOffsetMilliseconds m0) with o in *.
  exists m'. split_and!; try done; rewrite Emo, ?Et; unfold D in *; nia.
Qed.

(** Init checks its configuration completely.  It never faults; it
    succeeds exactly when the tick divides a second, there are at least three
    levels, as many slot counts, all positive, the last one 1 and their product
    within uint32_t (so the uint32_t spans of the levels do not overflow); the
    wheel is then empty at tick 0, each level's slot spanning exactly the levels
    below.  The built-in defaults pass. *)
Theorem Init_checks_configuration ndebug o c l now tv ts :
  match Init ndebug o c l now tv ts with
  | Ok (Some m) => config_ok o c l /\ fresh_wheel o c l now tv ts m
  | Ok None => ~ config_ok o c l
  | Err _ => False
  end /\ config_ok None None None.
Proof.
  split; [apply Init_spec|]. unfold config_ok. cbn. split_and!; try (done || lia).
  repeat apply Forall_cons_2; lia || done.
Qed.

(** ** Witnesses *)

(** Three levels of 4, 4 and 1 slots, 50 ms a tick. *)
Definition demo_init : result (option manager) := Init false (Some 50) (Some 3) (Some [4; 4; 1]) 0 (0, 0) ∅.
Definition demo_wheel : manager :=
  match demo_init with Ok (Some m) => m | _ => mkManager 0 (0, 0) 0 0 0 [] ∅ end.

(** Timer 7 for two seconds (40 ticks, beyond the 16 the first levels cover). *)
Definition demo_armed : manager :=
  match AddTimer false 0 7%nat 2000 demo_wheel with Ok m => m | Err _ => demo_wheel end.

Definition demo_data : TimerData := timer_data 7%nat demo_armed.

Lemma demo_wheel_reachable : reachable false demo_wheel.
Proof.
  apply (reach_init false (Some 50) (Some 3) (Some [4; 4; 1]) 0 (0, 0) ∅); [done| |reflexivity].
  repeat apply Forall_cons_2; cbn; lia || done.
Qed.

Lemma demo_wheel_empty p : ~ in_wheel demo_wheel p.
Proof.
  pose proof (Init_spec false (Some 50) (Some 3) (Some [4; 4; 1]) 0 (0, 0) ∅) as H.
  change (Init false (Some 50) (Some 3) (Some [4; 4; 1]) 0 (0, 0) ∅) with (Ok (Some demo_wheel)) in H.
  destruct H as [_ (_ & _ & _ & _ & _ & _ & _ & H)]. apply H.
Qed.

Lemma demo_armed_reachable : reachable false demo_armed.
Proof. apply (reach_add false 0 7%nat 2000 demo_wheel); [exact demo_wheel_reachable|apply demo_wheel_empty|lia|reflexivity]. Qed.

Lemma demo_armed_in : in_wheel demo_armed 7%nat.
Proof. exists 2%nat, 0. eexists _, _. split; [reflexivity|]. split; [lia|]. split; [reflexivity|]. by left. Qed.

(** It is due at tick 40 and does fire in the 40th or 41st tick from 0. *)
Lemma timer_fires_once_on_time_witness :
  m_iTriggerTick demo_data = 40 /\
  exists dues m' k, run_ticks false 41 demo_armed = Ok (dues, m') /\ length dues = 41%nat /\ (k < 41)%nat /\
    40 <= 0 + Z.of_nat k + 1 <= 41 /\ forall j due, dues !! j = Some due -> (7%nat ∈ due <-> j = k).
Proof.
  split; [reflexivity|].
  apply (timer_fires_once_on_time false demo_armed 7%nat demo_data 41 demo_armed_reachable demo_armed_in);
    [reflexivity|vm_compute; reflexivity].
Defined.

(** The later of the two: a delay that is a multiple of the first level's width,
    armed when that level has just turned. *)
Example timer_one_tick_late :
  match run_ticks false 41 demo_armed with
  | Ok (dues, _) => dues !! 39%nat = Some [] /\ dues !! 40%nat = Some [7%nat]
  | Err _ => False
  end.
Proof. vm_compute. split; reflexivity. Qed.

Lemma AddTimer_arms_witness :
  exists m' d, AddTimer false 120000000 7%nat 2000 demo_wheel = Ok m' /\ timers m' !! 7%nat = Some d /\
    (forall q, in_wheel m' q <-> q = 7%nat \/ in_wheel demo_wheel q) /\
    (m_iTriggerTick d - 0 - 1) * 50000 < 120000 + 2000 * 1000 <= (m_iTriggerTick d - 0) * 50000.
Proof.
  apply (AddTimer_arms false demo_wheel 120000000 7%nat 2000 demo_wheel_reachable (demo_wheel_empty 7%nat)). lia.
Defined.

Lemma RemoveTimer_removes_witness :
  exists b m', RemoveTimer false 7%nat demo_armed = Ok (b, m') /\ (b = true <-> in_wheel demo_armed 7%nat) /\
    (forall q, in_wheel m' q <-> in_wheel demo_armed q /\ q <> 7%nat) /\ timers m' = timers demo_armed /\
    steady demo_armed m'.
Proof.
  apply (RemoveTimer_removes false demo_armed 7%nat demo_data 2%nat demo_armed_reachable); [reflexivity..|].
  eexists; split; [reflexivity|]. vm_compute. split; congruence.
Defined.

(** A callback that renews every timer armed with a delay. *)
Definition demo_callback (p : timer) (m : manager) : option bool * manager :=
  let ms := m_iOffsetMilliseconds (timer_data p m) in (Some ((0 <? ms) && (ms <=? INT32_MAX)), m).

Lemma Update_catches_up_witness :
  exists m', Update false demo_callback 10125000000 (3, 4) demo_armed = Ok m' /\ wf [4; 4; 1] m' /\
    m_stLastTickMonotonic m' = 0 + (m_iCurrentTick m' - 0) * (50 * 1000000) /\
    0 <= 10125000000 - m_stLastTickMonotonic m' < 50 * 1000000.
Proof.
  assert (widths_ok [4; 4; 1]) as Hw.
  { split; [cbn; lia|]. split; [repeat apply Forall_cons_2; cbn; lia || done|reflexivity]. }
  apply (Update_catches_up false [4; 4; 1] demo_callback demo_armed 10125000000 (3, 4) Hw).
  - destruct (arm_spec false [4; 4; 1] Hw demo_wheel 7%nat 2000 40) as (m' & E & H & _);
      [|apply demo_wheel_empty|lia|lia|].
    + apply (fresh_wf (Some 50) (Some 3) (Some [4; 4; 1]) 0 (0, 0) ∅).
      pose proof (Init_spec false (Some 50) (Some 3) (Some [4; 4; 1]) 0 (0, 0) ∅) as H. by destruct H.
    + assert (Ok m' = Ok demo_armed) as E2 by (rewrite <- E; vm_compute; reflexivity).
      replace demo_armed with m' by congruence. exact H.
  - vm_compute. reflexivity.
  - intros p m o m' Hi Hp [= <- <-]. split_and!; try done; [by left|].
    intros [= E]. apply andb_true_iff in E as [? ?]. lia.
  - vm_compute. congruence.
Defined.

End Timer.
