(* ===== verification/TimerHelper.v ===== *)
(** * Calendar periods and durations

    cbaselib/timer/src/oi_timer_helper.cpp: the day, week, month and year a
    timestamp falls in, and whether two timestamps fall in the same one or the
    second in a later one; cbaselib/timer/inc/oi_duration.h: the MS type.

    localtime_r is the C library's and a parameter.  time_t and int64_t are
    unbounded here: the additions on them do not overflow for real timestamps. *)

From S2P Require Import Prelude.

Module TimerHelper.

(** The members of struct tm the code reads. *)
Record tm : Type := mkTm { tm_year : Z; tm_mon : Z; tm_mday : Z }.

Definition FloorDiv (iFirst iSecond : Z) : Z :=
  let iQ := Z.quot iFirst iSecond in
  let iR := Z.rem iFirst iSecond in
  if negb (iR =? 0) && xorb (iFirst <? 0) (iSecond <? 0) then iQ - 1 else iQ.

(** [iMonth] and [iDay] are unsigned, and so is the arithmetic on them. *)
Definition CivilDays (iYear iMonth iDay : Z) : Z :=
  let iYear := iYear - (if iMonth <=? 2 then 1 else 0) in
  let iEra := Z.quot (if 0 <=? iYear then iYear else iYear - 399) 400 in
  let iYoe := u32 (iYear - iEra * 400) in
  let iDoy := u32 (u32 (153 * u32 (iMonth + (if 2 <? iMonth then -3 else 9)) + 2) / 5 + iDay - 1) in
  let iDoe := u32 (u32 (iYoe * 365 + iYoe / 4) - iYoe / 100 + iDoy) in
  iEra * 146097 + iDoe - 719468.

Definition DayOf (stLocal : tm) : Z :=
  CivilDays (tm_year stLocal + 1900) (u32 (u32 (tm_mon stLocal) + 1)) (u32 (tm_mday stLocal)).

Definition WeekStarting (stLocal : tm) (iWeekday : Z) : Z := FloorDiv (DayOf stLocal + (4 - iWeekday)) 7.

Definition WeekdaySunday : Z := 0.
Definition WeekdayMonday : Z := 1.
Definition WeekdaySaturday : Z := 6.

Definition WeekOf (stLocal : tm) : Z := WeekStarting stLocal WeekdayMonday.
Definition KnownWeekday (iWeekday : Z) : bool := (WeekdaySunday <=? iWeekday) && (iWeekday <=? WeekdaySaturday).
Definition MonthOf (stLocal : tm) : Z := tm_year stLocal * 12 + tm_mon stLocal.
Definition YearOf (stLocal : tm) : Z := tm_year stLocal.

(** A saved moment. *)
Record TimeMark : Type := mkTimeMark { iTimestamp : Z; iOffsetSeconds : Z }.

Section Helper.
Context (localtime_r : Z -> option tm).

Definition Shift (iTimestamp iOffsetSecondsLocal : Z) : Z := iTimestamp + iOffsetSecondsLocal.
Definition Capture (now iOffsetSecondsLocal : Z) : TimeMark := mkTimeMark now iOffsetSecondsLocal.

Definition ToLocal (iTimestamp iOffsetSecondsLocal : Z) : option tm :=
  localtime_r (iTimestamp + iOffsetSecondsLocal).

Definition WeekdaySlot (iTimestamp iWeekday iOffsetSecondsLocal : Z) : option Z :=
  if negb (KnownWeekday iWeekday) then None
  else (fun stLocal => WeekStarting stLocal iWeekday) <$> ToLocal iTimestamp iOffsetSecondsLocal.

Definition Slot (iTimestamp iOffsetSecondsLocal : Z) (fnSlotOf : tm -> Z) : option Z :=
  fnSlotOf <$> ToLocal iTimestamp iOffsetSecondsLocal.

Definition PeriodOf (iTimestamp iOffsetSecondsLocal : Z) (fnSlotOf : tm -> Z) : Z :=
  match Slot iTimestamp iOffsetSecondsLocal fnSlotOf with Some iSlot => iSlot | None => 0 end.

Definition SameOf (iFirst iSecond iOffsetSecondsLocal : Z) (fnSlotOf : tm -> Z) : bool :=
  match Slot iFirst iOffsetSecondsLocal fnSlotOf, Slot iSecond iOffsetSecondsLocal fnSlotOf with
  | Some iLeft, Some iRight => iLeft =? iRight
  | _, _ => false
  end.

Definition CrossOf (iOldTimestamp iNowTimestamp iOffsetSecondsLocal : Z) (fnSlotOf : tm -> Z) : bool :=
  match Slot iOldTimestamp iOffsetSecondsLocal fnSlotOf, Slot iNowTimestamp iOffsetSecondsLocal fnSlotOf with
  | Some iOldSlot, Some iNowSlot => iOldSlot <? iNowSlot
  | _, _ => false
  end.

Definition DayPeriod (t off : Z) : Z := PeriodOf t off DayOf.
Definition WeekPeriod (t off : Z) : Z := PeriodOf t off WeekOf.
Definition WeekdayPeriod (t iWeekday off : Z) : Z :=
  match WeekdaySlot t iWeekday off with Some iSlot => iSlot | None => 0 end.
Definition MonthPeriod (t off : Z) : Z := PeriodOf t off MonthOf.
Definition YearPeriod (t off : Z) : Z := PeriodOf t off YearOf.

Definition SameDay (a b off : Z) : bool := SameOf a b off DayOf.
Definition SameWeek (a b off : Z) : bool := SameOf a b off WeekOf.
Definition SameWeekday (a b iWeekday off : Z) : bool :=
  match WeekdaySlot a iWeekday off, WeekdaySlot b iWeekday off with
  | Some iLeft, Some iRight => iLeft =? iRight
  | _, _ => false
  end.
Definition SameMonth (a b off : Z) : bool := SameOf a b off MonthOf.
Definition SameYear (a b off : Z) : bool := SameOf a b off YearOf.

Definition CrossDay (old now off : Z) : bool := CrossOf old now off DayOf.
Definition CrossWeek (old now off : Z) : bool := CrossOf old now off WeekOf.
Definition CrossWeekday (old now iWeekday off : Z) : bool :=
  match WeekdaySlot old iWeekday off, WeekdaySlot now iWeekday off with
  | Some iOldSlot, Some iNowSlot => iOldSlot <? iNowSlot
  | _, _ => false
  end.
Definition CrossMonth (old now off : Z) : bool := CrossOf old now off MonthOf.
Definition CrossYear (old now off : Z) : bool := CrossOf old now off YearOf.

(** The overloads that take a saved moment. *)
Definition CrossDay_mark (st : TimeMark) (now : Z) : bool := CrossDay (iTimestamp st) now (iOffsetSeconds st).
Definition CrossWeek_mark (st : TimeMark) (now : Z) : bool := CrossWeek (iTimestamp st) now (iOffsetSeconds st).
Definition CrossWeekday_mark (st : TimeMark) (now iWeekday : Z) : bool :=
  CrossWeekday (iTimestamp st) now iWeekday (iOffsetSeconds st).
Definition CrossMonth_mark (st : TimeMark) (now : Z) : bool := CrossMonth (iTimestamp st) now (iOffsetSeconds st).
Definition CrossYear_mark (st : TimeMark) (now : Z) : bool := CrossYear (iTimestamp st) now (iOffsetSeconds st).

End Helper.

(** ** oi_duration.h *)

Inductive duration : Type :=
| Milliseconds (iMilliseconds : Z)
| Seconds (iSeconds : Z)
| Minutes (iMinutes : Z)
| Hours (iHours : Z)
| Days (iDays : Z).

(** int64_t multiplication, undefined when it overflows. *)
Definition mul64 (a b : Z) : result Z :=
  if (- 2 ^ 63 <=? a * b) && (a * b <? 2 ^ 63) then Ok (a * b) else Err Undefined.

Definition MS (d : duration) : result Z :=
  match d with
  | Milliseconds n => Ok n
  | Seconds n => mul64 n 1000
  | Minutes n => let! n := mul64 n 60 in mul64 n 1000
  | Hours n => let! n := mul64 n 60 in let! n := mul64 n 60 in mul64 n 1000
  | Days n => let! n := mul64 n 24 in let! n := mul64 n 60 in let! n := mul64 n 60 in mul64 n 1000
  end.

(** ** The calendar the code is measured against *)

Definition is_leap (y : Z) : bool := (y mod 4 =? 0) && negb (y mod 100 =? 0) || (y mod 400 =? 0).

Definition month_length (y m : Z) : Z :=
  if m =? 2 then if is_leap y then 29 else 28
  else if (m =? 4) || (m =? 6) || (m =? 9) || (m =? 11) then 30 else 31.

Definition date : Type := (Z * Z * Z)%type.

Definition valid (x : date) : Prop :=
  let '(y, m, d) := x in 1 <= m <= 12 /\ 1 <= d <= month_length y m.

Definition next_date (x : date) : date :=
  let '(y, m, d) := x in
  if d <? month_length y m then (y, m, d + 1)
  else if m <? 12 then (y, m + 1, 1) else (y + 1, 1, 1).

(** [dated n x]: [x] is [n] days after 1970-01-01. *)
Inductive dated : Z -> date -> Prop :=
| dated_epoch : dated 0 (1970, 1, 1)
| dated_next n x : dated n x -> dated (n + 1) (next_date x)
| dated_prev n x : valid x -> dated (n + 1) (next_date x) -> dated n x.

(** The day of the week of day [n], Sunday being 0; day 0 was a Thursday. *)
Definition weekday (n : Z) : Z := (n + 4) mod 7.

(** ** The code's day number *)

Lemma FloorDiv_div a b : 0 < b -> FloorDiv a b = a / b.
Proof.
  intros Hb. unfold FloorDiv. pose proof (Z.quot_rem a b ltac:(lia)) as E.
  pose proof (Z.rem_bound_abs a b ltac:(lia)).
  destruct (Z.ltb_spec b 0); [lia|].
  destruct (Z.eqb_spec (Z.rem a b) 0) as [E0|E0]; cbn [negb andb].
  - apply Z.div_unique with (r := 0); lia.
  - destruct (Z.ltb_spec a 0) as [Ha|Ha]; cbn [xorb].
    + pose proof (Z.rem_nonpos a b ltac:(lia) ltac:(lia)). apply Z.div_unique with (r := Z.rem a b + b); lia.
    + by rewrite Z.quot_div_nonneg by lia.
Qed.

(** Days before March of [y], from the era and the year in it. *)
Definition years_days (y : Z) : Z := 365 * y + y / 4 - y / 100 + y / 400.

Lemma years_days_era y :
  let era := y / 400 in let yoe := y mod 400 in
  era * 146097 + (yoe * 365 + yoe / 4 - yoe / 100) = years_days y.
Proof.
  intros era yoe. unfold years_days. pose proof (Z.div_mod y 400 ltac:(lia)) as E. fold era yoe in E |- *.
  pose proof (Z.mod_pos_bound y 400 ltac:(lia)).
  assert (y / 4 = era * 100 + yoe / 4) as ->.
  { rewrite E at 1. replace (400 * era + yoe) with (yoe + era * 100 * 4) by lia. rewrite Z.div_add by lia. lia. }
  assert (y / 100 = era * 4 + yoe / 100) as ->.
  { rewrite E at 1. replace (400 * era + yoe) with (yoe + era * 4 * 100) by lia. rewrite Z.div_add by lia. lia. }
  lia.
Qed.

Lemma years_days_step y : years_days y - years_days (y - 1) = if is_leap y then 366 else 365.
Proof.
  unfold years_days, is_leap.
  assert (forall k, 0 < k -> y / k - (y - 1) / k = if y mod k =? 0 then 1 else 0) as H.
  { intros k Hk. pose proof (Z.div_mod y k ltac:(lia)) as E. pose proof (Z.mod_pos_bound y k Hk).
    destruct (Z.eqb_spec (y mod k) 0).
    - assert ((y - 1) / k = y / k - 1) as ->; [|lia].
      symmetry. apply Z.div_unique with (r := k - 1); lia.
    - assert ((y - 1) / k = y / k) as ->; [|lia].
      symmetry. apply Z.div_unique with (r := y mod k - 1); lia. }
  pose proof (H 4 ltac:(lia)) as H4. pose proof (H 100 ltac:(lia)) as H100. pose proof (H 400 ltac:(lia)) as H400.
  pose proof (Z.div_mod y 400 ltac:(lia)). pose proof (Z.div_mod y 100 ltac:(lia)). pose proof (Z.div_mod y 4 ltac:(lia)).
  pose proof (Z.mod_pos_bound y 100 ltac:(lia)). pose proof (Z.mod_pos_bound y 4 ltac:(lia)).
  destruct (Z.eqb_spec (y mod 4) 0), (Z.eqb_spec (y mod 100) 0), (Z.eqb_spec (y mod 400) 0); cbn [andb orb negb]; lia.
Qed.

(** CivilDays in closed form. *)
Lemma CivilDays_closed y m d :
  1 <= m <= 12 -> 1 <= d <= 31 ->
  CivilDays y m d =
  years_days (y - if m <=? 2 then 1 else 0) + (153 * (m + if 2 <? m then -3 else 9) + 2) / 5 + d - 1 - 719468.
Proof.
  intros Hm Hd. unfold CivilDays. set (y' := y - if m <=? 2 then 1 else 0).
  set (mp := m + if 2 <? m then -3 else 9).
  assert (0 <= mp <= 11) as Hmp by (unfold mp; destruct (Z.ltb_spec 2 m); lia).
  assert (Z.quot (if 0 <=? y' then y' else y' - 399) 400 = y' / 400) as ->.
  { destruct (Z.leb_spec 0 y'); [by rewrite Z.quot_div_nonneg by lia|].
    replace (y' - 399) with (- (399 - y')) by lia. rewrite Z.quot_opp_l, Z.quot_div_nonneg by lia.
    pose proof (Z.div_mod y' 400 ltac:(lia)). pose proof (Z.mod_pos_bound y' 400 ltac:(lia)).
    assert ((399 - y') / 400 = - (y' / 400)) as ->; [|lia].
    symmetry. apply Z.div_unique with (r := 399 - y' mod 400); lia. }
  pose proof (years_days_era y') as E. cbv zeta in E. rewrite <- E.
  replace (y' - y' / 400 * 400) with (y' mod 400) by (pose proof (Z.div_mod y' 400 ltac:(lia)); lia).
  pose proof (Z.mod_pos_bound y' 400 ltac:(lia)). set (yoe := y' mod 400) in *.
  assert (0 <= (153 * mp + 2) / 5 <= 337) by (split; [apply Z.div_pos; lia|apply Z.div_le_upper_bound; lia]).
  assert (0 <= yoe / 4 <= 100) by (split; [apply Z.div_pos; lia|apply Z.div_le_upper_bound; lia]).
  assert (0 <= yoe / 100 <= 4) by (split; [apply Z.div_pos; lia|apply Z.div_le_upper_bound; lia]).
  assert (yoe / 100 <= yoe) by (apply Z.div_le_upper_bound; lia).
  rewrite (u32_small yoe), (u32_small mp), (u32_small (153 * mp + 2)), (u32_small (_ / 5 + d - 1)),
    (u32_small (yoe * 365 + yoe / 4)) by lia.
  rewrite u32_small by lia.
  lia.
Qed.

Lemma month_length_range y m : 28 <= month_length y m <= 31.
Proof. unfold month_length. repeat match goal with |- context [if ?b then _ else _] => destruct b end; lia. Qed.

Ltac months m Hm :=
  let H := fresh in
  assert (m = 1 \/ m = 2 \/ m = 3 \/ m = 4 \/ m = 5 \/ m = 6 \/ m = 7 \/ m = 8 \/ m = 9 \/ m = 10 \/ m = 11 \/ m = 12)
    as H by lia; clear Hm; decompose [or] H; clear H; subst m.

(** Evaluate the closed comparisons and quotients of the goal. *)
Ltac closed_parts :=
  repeat match goal with
  | |- context [(?a =? ?b)%Z] => let v := eval vm_compute in (a =? b)%Z in
      match v with true => idtac | false => idtac end; change (a =? b)%Z with v
  | |- context [(?a <? ?b)%Z] => let v := eval vm_compute in (a <? b)%Z in
      match v with true => idtac | false => idtac end; change (a <? b)%Z with v
  | |- context [(?a <=? ?b)%Z] => let v := eval vm_compute in (a <=? b)%Z in
      match v with true => idtac | false => idtac end; change (a <=? b)%Z with v
  | |- context [(?a / 5)%Z] => let v := eval vm_compute in (a / 5)%Z in
      match v with Z0 => idtac | Zpos _ => idtac end; change (a / 5)%Z with v
  end; cbn [orb].

Lemma next_date_valid x : valid x -> valid (next_date x).
Proof.
  destruct x as [[y m] d]. intros [Hm Hd]. unfold next_date.
  destruct (Z.ltb_spec d (month_length y m)); [split; lia|].
  destruct (Z.ltb_spec m 12); (split; [lia|]).
  - pose proof (month_length_range y (m + 1)). lia.
  - pose proof (month_length_range (y + 1) 1). lia.
Qed.

Definition civil (x : date) : Z := let '(y, m, d) := x in CivilDays y m d.

Lemma civil_next x : valid x -> civil (next_date x) = civil x + 1.
Proof.
  destruct x as [[y m] d]. intros [Hm Hd]. unfold next_date, civil. pose proof (month_length_range y m).
  destruct (Z.ltb_spec d (month_length y m)) as [Hl|Hl].
  - rewrite !CivilDays_closed by lia. lia.
  - assert (d = month_length y m) as -> by lia. clear Hl Hd.
    destruct (Z.ltb_spec m 12); rewrite !CivilDays_closed by lia.
    + pose proof (years_days_step y) as Hs. unfold month_length.
      months m Hm; closed_parts; rewrite ?Z.sub_0_r; try lia. destruct (is_leap y); lia.
    + assert (m = 12) as -> by lia. unfold month_length. closed_parts. replace (y + 1 - 1) with (y - 0) by lia. lia.
Qed.

Lemma dated_valid n x : dated n x -> valid x.
Proof. induction 1; [cbn; lia|by apply next_date_valid|done]. Qed.

Lemma dated_civil_day n x : dated n x -> civil x = n.
Proof.
  induction 1 as [|n x Hd IH|n x Hv Hd IH]; [reflexivity| |].
  - rewrite civil_next by (by eapply dated_valid). lia.
  - rewrite civil_next in IH by done. lia.
Qed.

Lemma next_date_inj x y : valid x -> valid y -> next_date x = next_date y -> x = y.
Proof.
  destruct x as [[y1 m1] d1], y as [[y2 m2] d2]. intros [Hm1 Hd1] [Hm2 Hd2]. unfold next_date.
  destruct (Z.ltb_spec d1 (month_length y1 m1)), (Z.ltb_spec d2 (month_length y2 m2)),
    (Z.ltb_spec m1 12), (Z.ltb_spec m2 12); intros E; injection E; intros; try lia.
  all: assert (y1 = y2) as -> by lia; assert (m1 = m2) as -> by lia; f_equal; lia.
Qed.

Lemma iter_next_inj k x y :
  valid x -> valid y -> Nat.iter k next_date x = Nat.iter k next_date y -> x = y.
Proof.
  revert x y; induction k as [|k IH]; intros x y Hx Hy; [done|].
  rewrite !Nat.iter_succ_r. intros E. apply IH in E; [by apply next_date_inj|by apply next_date_valid..].
Qed.

(** The calendar is a function of the day number. *)
Lemma dated_walk n x :
  dated n x -> if 0 <=? n then x = Nat.iter (Z.to_nat n) next_date (1970, 1, 1)
               else Nat.iter (Z.to_nat (- n)) next_date x = (1970, 1, 1).
Proof.
  assert (valid (1970, 1, 1)) as Hv0 by (cbn; lia).
  assert (forall k, valid (Nat.iter k next_date (1970, 1, 1))) as Hv.
  { intros k; induction k; [done|by apply next_date_valid]. }
  induction 1 as [|n x Hd IH|n x Hx Hd IH]; [done|..].
  - destruct (Z.leb_spec 0 n), (Z.leb_spec 0 (n + 1)); try lia.
    + rewrite IH. replace (Z.to_nat (n + 1)) with (S (Z.to_nat n)) by lia. done.
    + replace n with (-1) in * by lia. exact IH.
    + replace (Z.to_nat (- n)) with (S (Z.to_nat (- (n + 1)))) in IH by lia. by rewrite Nat.iter_succ_r in IH.
  - destruct (Z.leb_spec 0 n), (Z.leb_spec 0 (n + 1)); try lia.
    + replace (Z.to_nat (n + 1)) with (S (Z.to_nat n)) in IH by lia. by apply next_date_inj.
    + replace n with (-1) in * by lia. exact IH.
    + replace (Z.to_nat (- n)) with (S (Z.to_nat (- (n + 1)))) by lia. by rewrite Nat.iter_succ_r.
Qed.

Lemma dated_unique n x y : dated n x -> dated n y -> x = y.
Proof.
  intros Hx Hy. pose proof (dated_walk n x Hx) as Ex. pose proof (dated_walk n y Hy) as Ey.
  destruct (0 <=? n); [congruence|]. apply (iter_next_inj (Z.to_nat (- n))); [by eapply dated_valid..|congruence].
Qed.

(** ** Slots that count the days of a kind *)

(** A slot function goes up by one on each day of the kind [P] and stays on all
    others; then a later slot means that such a day has begun in between. *)
Section Counting.
Context (f : date -> Z) (P : date -> bool).
Hypothesis f_next : forall x, valid x -> f (next_date x) = f x + if P (next_date x) then 1 else 0.

Lemma count_forward k n x y :
  dated n x -> dated (n + Z.of_nat k) y ->
  f x <= f y /\ (f x < f y <-> exists j z, n < j <= n + Z.of_nat k /\ dated j z /\ P z = true).
Proof.
  revert y; induction k as [|k IH]; intros y Hx Hy.
  - rewrite Z.add_0_r in Hy. rewrite (dated_unique n x y) by done. split; [lia|].
    split; [lia|intros (j & z & ? & _); lia].
  - assert (exists y0, dated (n + Z.of_nat k) y0 /\ y = next_date y0) as (y0 & Hy0 & ->).
    { assert (forall i, exists z, dated (n + Z.of_nat i) z) as Hex.
      { intros i; induction i as [|i [z Hz]]; [exists x; by rewrite Z.add_0_r|].
        exists (next_date z). replace (n + Z.of_nat (S i)) with (n + Z.of_nat i + 1) by lia. by constructor. }
      destruct (Hex k) as [y0 Hy0]. exists y0. split; [done|]. eapply dated_unique; [exact Hy|].
      replace (n + Z.of_nat (S k)) with (n + Z.of_nat k + 1) by lia. by constructor. }
    destruct (IH y0 Hx Hy0) as [Hle Hiff].
    rewrite f_next by (by eapply dated_valid). destruct (P (next_date y0)) eqn:EP.
    + split; [lia|]. split; [intros _|lia]. exists (n + Z.of_nat (S k)), (next_date y0). split_and!; [lia..|done|done].
    + rewrite Z.add_0_r. split; [done|]. rewrite Hiff. split; intros (j & z & Hj & Hz & HP).
      * exists j, z. split_and!; try done; lia.
      * exists j, z. split_and!; try done; [lia|]. destruct (Z.eq_dec j (n + Z.of_nat (S k))) as [->|]; [|lia].
        rewrite (dated_unique _ z (next_date y0)) in HP by done. congruence.
Qed.

Lemma count_iff m n x y :
  dated m x -> dated n y -> (f x < f y <-> exists j z, m < j <= n /\ dated j z /\ P z = true).
Proof.
  intros Hx Hy. destruct (Z.le_gt_cases m n) as [H|H].
  - destruct (count_forward (Z.to_nat (n - m)) m x y Hx) as [_ Hc];
      replace (m + Z.of_nat (Z.to_nat (n - m))) with n in * by lia; done.
  - destruct (count_forward (Z.to_nat (m - n)) n y x Hy) as [Hle _];
      [by replace (n + Z.of_nat (Z.to_nat (m - n))) with m by lia|].
    split; [lia|]. intros (j & z & ? & _). lia.
Qed.

End Counting.

Definition date_of (st : tm) : date := (tm_year st + 1900, tm_mon st + 1, tm_mday st).

Lemma DayOf_civil st : valid (date_of st) -> DayOf st = civil (date_of st).
Proof.
  intros [Hm Hd]. unfold DayOf, civil, date_of. pose proof (month_length_range (tm_year st + 1900) (tm_mon st + 1)).
  rewrite (u32_small (tm_mon st)), !u32_small by lia. done.
Qed.

(** localtime_r of a zone [g] seconds east of Greenwich, as far as it succeeds. *)
Definition zone (localtime_r : Z -> option tm) (g : Z) : Prop :=
  forall t st, localtime_r t = Some st -> dated ((t + g) / 86400) (date_of st).

Section Zone.
Context (localtime_r : Z -> option tm) (g : Z).
Hypothesis Hz : zone localtime_r g.

(** The local day a timestamp falls in, the cut moved by the offset. *)
Definition day (off t : Z) : Z := (t + off + g) / 86400.

(** A day of kind [P] begins after [old] and not after [now]. *)
Definition begins (P : Z -> date -> Prop) (off old now : Z) : Prop :=
  exists j z, day off old < j <= day off now /\ dated j z /\ P j z.

Lemma cross_iff (fnSlotOf : tm -> Z) (f : date -> Z) (P : date -> bool) off old now a b :
  (forall st, valid (date_of st) -> fnSlotOf st = f (date_of st)) ->
  (forall x, valid x -> f (next_date x) = f x + if P (next_date x) then 1 else 0) ->
  localtime_r (old + off) = Some a -> localtime_r (now + off) = Some b ->
  fnSlotOf a < fnSlotOf b <-> begins (fun _ z => P z = true) off old now.
Proof.
  intros Hf Hn Ea Eb. pose proof (Hz _ _ Ea) as Ha. pose proof (Hz _ _ Eb) as Hb.
  rewrite !Hf by (by eapply dated_valid). by apply count_iff.
Qed.

Lemma CrossOf_slots old now off fnSlotOf a b :
  localtime_r (old + off) = Some a -> localtime_r (now + off) = Some b ->
  CrossOf localtime_r old now off fnSlotOf = true <-> fnSlotOf a < fnSlotOf b.
Proof. intros Ea Eb. unfold CrossOf, Slot, ToLocal. rewrite Ea, Eb. cbn. apply Z.ltb_lt. Qed.

End Zone.

Definition is_weekday (w : Z) (x : date) : bool := weekday (civil x) =? w.

Lemma week_next w x :
  0 <= w <= 6 -> valid x ->
  (civil (next_date x) + (4 - w)) / 7 = (civil x + (4 - w)) / 7 + if is_weekday w (next_date x) then 1 else 0.
Proof.
  intros Hw Hx. unfold is_weekday, weekday. rewrite civil_next by done. set (c := civil x).
  pose proof (Z.div_mod (c + (4 - w)) 7 ltac:(lia)). pose proof (Z.mod_pos_bound (c + (4 - w)) 7 ltac:(lia)).
  set (q := (c + (4 - w)) / 7) in *. set (r := (c + (4 - w)) mod 7) in *.
  assert ((c + 1 + 4) mod 7 = (r + 1 + w) mod 7) as ->.
  { replace (c + 1 + 4) with (r + 1 + w + q * 7) by lia. by rewrite Z.mod_add by lia. }
  destruct (Z.eq_dec r 6) as [Er|Er].
  - assert ((r + 1 + w) mod 7 = w) as ->.
    { rewrite Er. replace (6 + 1 + w) with (w + 1 * 7) by lia. rewrite Z.mod_add, Z.mod_small by lia. done. }
    rewrite Z.eqb_refl. symmetry. apply Z.div_unique with (r := 0); lia.
  - assert ((c + 1 + (4 - w)) / 7 = q) as -> by (symmetry; apply Z.div_unique with (r := r + 1); lia).
    destruct (Z.eqb_spec ((r + 1 + w) mod 7) w) as [E|]; [|lia]. exfalso.
    destruct (Z.lt_ge_cases (r + 1 + w) 7).
    + rewrite Z.mod_small in E; lia.
    + replace (r + 1 + w) with (r + 1 + w - 7 + 1 * 7) in E by lia. rewrite Z.mod_add, Z.mod_small in E; lia.
Qed.

Definition month_index (x : date) : Z := let '(y, m, _) := x in (y - 1900) * 12 + (m - 1).
Definition is_first (x : date) : bool := let '(_, _, d) := x in d =? 1.

Lemma month_next x : valid x -> month_index (next_date x) = month_index x + if is_first (next_date x) then 1 else 0.
Proof.
  destruct x as [[y m] d]. intros [Hm Hd]. unfold next_date.
  destruct (Z.ltb_spec d (month_length y m)); [|destruct (Z.ltb_spec m 12)]; unfold month_index, is_first; cbn [Z.eqb Pos.eqb].
  - destruct (Z.eqb_spec (d + 1) 1); lia.
  - lia.
  - lia.
Qed.

Definition year_index (x : date) : Z := let '(y, _, _) := x in y - 1900.
Definition is_new_year (x : date) : bool := let '(_, m, d) := x in (m =? 1) && (d =? 1).

Lemma year_next x : valid x -> year_index (next_date x) = year_index x + if is_new_year (next_date x) then 1 else 0.
Proof.
  destruct x as [[y m] d]. intros [Hm Hd]. unfold next_date.
  destruct (Z.ltb_spec d (month_length y m)); [|destruct (Z.ltb_spec m 12)]; unfold year_index, is_new_year.
  - destruct (Z.eqb_spec (d + 1) 1), (Z.eqb_spec m 1); cbn [andb]; lia.
  - destruct (Z.eqb_spec (m + 1) 1); cbn [andb]; lia.
  - cbn [Z.eqb Pos.eqb andb]. lia.
Qed.

(** ** Properties *)

(** CivilDays is the day number of the Gregorian calendar: on every date
    [n] days after (or, for negative [n], before) 1970-01-01, reached by stepping
    day by day with the leap-year rule, it returns [n]. *)
Theorem CivilDays_counts_days n y m d : dated n (y, m, d) -> CivilDays y m d = n.
Proof. apply (dated_civil_day n (y, m, d)). Qed.

(** CrossDay and CrossWeekday say exactly what their comments promise.
    In a zone at a fixed distance from UTC, for timestamps localtime_r accepts and
    any cut offset, the first is true when a new (shifted) local day has begun
    between the two timestamps, the second when one that is the given day of the
    week has; going back in time is never a crossing. *)
Theorem CrossDay_CrossWeekday_spec localtime_r g off old now a b w :
  zone localtime_r g -> 0 <= w <= 6 ->
  localtime_r (old + off) = Some a -> localtime_r (now + off) = Some b ->
  (CrossDay localtime_r old now off = true <-> day g off old < day g off now) /\
  (CrossWeekday localtime_r old now w off = true <->
   exists j, day g off old < j <= day g off now /\ weekday j = w).
Proof.
  intros Hz Hw Ea Eb. split.
  - unfold CrossDay. rewrite (CrossOf_slots localtime_r old now off DayOf a b Ea Eb).
    pose proof (Hz _ _ Ea) as Ha. pose proof (Hz _ _ Eb) as Hb.
    rewrite !DayOf_civil by (by eapply dated_valid).
    by rewrite (dated_civil_day _ _ Ha), (dated_civil_day _ _ Hb).
  - unfold CrossWeekday, WeekdaySlot, ToLocal.
    assert (KnownWeekday w = true) as -> by (unfold KnownWeekday, WeekdaySunday, WeekdaySaturday; lia).
    cbn [negb]. rewrite Ea, Eb. cbn [fmap option_fmap option_map]. rewrite Z.ltb_lt.
    rewrite (cross_iff localtime_r g Hz (fun st => WeekStarting st w) (fun x => (civil x + (4 - w)) / 7)
      (is_weekday w) off old now a b); [|..|done|done].
    + unfold begins, is_weekday. split.
      * intros (j & z & Hj & Hd & E). exists j. split; [done|].
        rewrite (dated_civil_day j z Hd) in E. by apply Z.eqb_eq.
      * intros (j & Hj & E).
        assert (exists z, dated j z) as [z Hd].
        { clear E. pose proof (Hz _ _ Ea) as Ha. fold (day g off old) in Ha.
          replace j with (day g off old + Z.of_nat (Z.to_nat (j - day g off old))) by lia.
          generalize (Z.to_nat (j - day g off old)) as k; intros k. induction k as [|k [z Hk]].
          - exists (date_of a). by rewrite Z.add_0_r.
          - exists (next_date z). rewrite Nat2Z.inj_succ, <- Z.add_1_r, Z.add_assoc. by constructor. }
        exists j, z. split_and!; [lia..|done|]. rewrite (dated_civil_day j z Hd). by apply Z.eqb_eq.
    + intros st Hst. unfold WeekStarting. by rewrite FloorDiv_div, DayOf_civil by (done || lia).
    + intros x Hx. by apply week_next.
Qed.

(** Likewise CrossMonth is true exactly when a first of a month has
    begun in between, CrossYear exactly when a first of January has. *)
Theorem CrossMonth_CrossYear_spec localtime_r g off old now a b :
  zone localtime_r g -> localtime_r (old + off) = Some a -> localtime_r (now + off) = Some b ->
  (CrossMonth localtime_r old now off = true <->
   exists j y m, day g off old < j <= day g off now /\ dated j (y, m, 1)) /\
  (CrossYear localtime_r old now off = true <->
   exists j y, day g off old < j <= day g off now /\ dated j (y, 1, 1)).
Proof.
  intros Hz Ea Eb. split.
  - unfold CrossMonth. rewrite (CrossOf_slots localtime_r old now off MonthOf a b Ea Eb).
    rewrite (cross_iff localtime_r g Hz MonthOf month_index is_first off old now a b); [|..|done|done].
    + unfold begins, is_first. split.
      * intros (j & [[y m] d] & Hj & Hd & ->%Z.eqb_eq). by exists j, y, m.
      * intros (j & y & m & Hj & Hd). by exists j, (y, m, 1).
    + intros st _. unfold MonthOf, month_index, date_of. lia.
    + apply month_next.
  - unfold CrossYear. rewrite (CrossOf_slots localtime_r old now off YearOf a b Ea Eb).
    rewrite (cross_iff localtime_r g Hz YearOf year_index is_new_year off old now a b); [|..|done|done].
    + unfold begins, is_new_year. split.
      * intros (j & [[y m] d] & Hj & Hd & [->%Z.eqb_eq ->%Z.eqb_eq]%andb_true_iff). by exists j, y.
      * intros (j & y & Hj & Hd). by exists j, (y, 1, 1).
    + intros st _. unfold YearOf, year_index, date_of. lia.
    + apply year_next.
Qed.

(** ** Witnesses *)

Lemma dated_1970_01_02 : dated 1 (1970, 1, 2).
Proof. change 1 with (0 + 1). apply (dated_next 0 (1970, 1, 1)), dated_epoch. Qed.

Lemma dated_1969_12_31 : dated (-1) (1969, 12, 31).
Proof. apply (dated_prev (-1) (1969, 12, 31)); [cbn; lia|]. exact dated_epoch. Qed.

Lemma CivilDays_counts_days_witness : CivilDays 1969 12 31 = -1.
Proof. apply (CivilDays_counts_days (-1) 1969 12 31). exact dated_1969_12_31. Defined.

(** UTC, for the two days around the epoch. *)
Definition demo_localtime (t : Z) : option tm :=
  if t / 86400 =? -1 then Some (mkTm 69 11 31)
  else if t / 86400 =? 0 then Some (mkTm 70 0 1) else None.

Lemma demo_zone : zone demo_localtime 0.
Proof.
  intros t st. unfold demo_localtime. rewrite Z.add_0_r.
  destruct (Z.eqb_spec (t / 86400) (-1)) as [->|]; [intros [= <-]; exact dated_1969_12_31|].
  destruct (Z.eqb_spec (t / 86400) 0) as [->|]; [intros [= <-]; exact dated_epoch|done].
Qed.

(** One second before and after midnight: a new day, a Thursday. *)
Lemma CrossDay_CrossWeekday_spec_witness :
  (CrossDay demo_localtime (-1) 1 0 = true <-> day 0 0 (-1) < day 0 0 1) /\
  (CrossWeekday demo_localtime (-1) 1 4 0 = true <-> exists j, day 0 0 (-1) < j <= day 0 0 1 /\ weekday j = 4).
Proof.
  apply (CrossDay_CrossWeekday_spec demo_localtime 0 0 (-1) 1 (mkTm 69 11 31) (mkTm 70 0 1) 4 demo_zone);
    [lia|reflexivity..].
Defined.

Lemma CrossMonth_CrossYear_spec_witness :
  (CrossMonth demo_localtime (-1) 1 0 = true <->
   exists j y m, day 0 0 (-1) < j <= day 0 0 1 /\ dated j (y, m, 1)) /\
  (CrossYear demo_localtime (-1) 1 0 = true <-> exists j y, day 0 0 (-1) < j <= day 0 0 1 /\ dated j (y, 1, 1)).
Proof.
  apply (CrossMonth_CrossYear_spec demo_localtime 0 0 (-1) 1 (mkTm 69 11 31) (mkTm 70 0 1) demo_zone); reflexivity.
Defined.

End TimerHelper.
