(* ===== verification/Text.v ===== *)
(** * Byte strings as the parsers use them

    The members of std::string the parsers rely on (find, compare, substr,
    operator[]) and ASCII character classes, over [list byte] and positions in
    Z, with the lemmas on searching that make incremental parsing sound. *)

From S2P Require Import Prelude.

Module Text.

Definition CR : byte := Byte.x0d.
Definition LF : byte := Byte.x0a.
Definition CRLF : list byte := [CR; LF].

Definition is_upper (b : byte) : bool := (65 <=? byteZ b) && (byteZ b <=? 90).
Definition to_lower (b : byte) : byte := if is_upper b then byte_of_Z (byteZ b + 32) else b.
Definition is_blank (b : byte) : bool := (byteZ b =? 32) || (byteZ b =? 9).

Fixpoint bytes_eqb (a b : list byte) : bool :=
  match a, b with
  | [], [] => true
  | x :: a, y :: b => Byte.eqb x y && bytes_eqb a b
  | _, _ => false
  end.

(** [pat] is a prefix of [s]. *)
Fixpoint starts (pat s : list byte) : bool :=
  match pat, s with
  | [], _ => true
  | x :: pat, y :: s => Byte.eqb x y && starts pat s
  | _ :: _, [] => false
  end.

Fixpoint find_from (pat s : list byte) (i : Z) : option Z :=
  if starts pat s then Some i
  else match s with [] => None | _ :: s => find_from pat s (i + 1) end.

(** s.find(pat, pos); None is npos. *)
Definition find (pat s : list byte) (pos : Z) : option Z :=
  if lenZ s <? pos then None else find_from pat (drop (Z.to_nat pos) s) pos.

(** The length of the longest prefix of characters of a class. *)
Fixpoint span_while (p : byte -> bool) (l : list byte) : Z :=
  match l with
  | b :: l => if p b then 1 + span_while p l else 0
  | [] => 0
  end.

(** s.substr(pos, end - pos), pos <= end. *)
Definition range (pos end_ : Z) (s : list byte) : list byte := sub pos (end_ - pos) s.

(** s[pos], where the code has checked pos. *)
Definition at_ (s : list byte) (pos : Z) : byte := nth (Z.to_nat pos) s Byte.x00.

(** ** Lemmas *)

Lemma byte_eqb_eq a b : Byte.eqb a b = true <-> a = b.
Proof. split; [apply Byte.byte_dec_bl|apply Byte.byte_dec_lb]. Qed.

Lemma bytes_eqb_eq a b : bytes_eqb a b = true <-> a = b.
Proof.
  revert b; induction a as [|x a IH]; intros [|y b]; simpl; try done.
  rewrite andb_true_iff, byte_eqb_eq, IH. split; [by intros [-> ->]|by intros [= -> ->]].
Qed.

Lemma bytes_eqb_refl a : bytes_eqb a a = true.
Proof. by apply bytes_eqb_eq. Qed.

Lemma starts_app pat s : starts pat (pat ++ s) = true.
Proof. induction pat as [|x pat IH]; [done|]. cbn. rewrite IH, andb_true_r. by apply byte_eqb_eq. Qed.

Lemma starts_true pat s : starts pat s = true -> exists t, s = pat ++ t.
Proof.
  revert s; induction pat as [|x pat IH]; intros s; [by exists s|].
  destruct s as [|y s]; [done|]. cbn. intros [->%byte_eqb_eq H]%andb_true_iff.
  destruct (IH s H) as [t ->]. by exists t.
Qed.

Lemma starts_len pat s : starts pat s = true -> (length pat <= length s)%nat.
Proof. intros [t ->]%starts_true. rewrite length_app. lia. Qed.

(** Whether a long enough text starts with [pat] is decided by its beginning. *)
Lemma starts_extend pat s t : (length pat <= length s)%nat -> starts pat (s ++ t) = starts pat s.
Proof.
  revert s; induction pat as [|x pat IH]; intros [|y s] H; simpl in *; try done; [lia|].
  rewrite IH by lia. done.
Qed.

Lemma find_from_ge pat s i j : find_from pat s i = Some j -> i <= j <= i + lenZ s.
Proof.
  revert i; induction s as [|b s IH]; intros i; cbn [find_from].
  - destruct (starts pat []); [|done]. intros [= <-]. unfold lenZ; simpl; lia.
  - destruct (starts pat (b :: s)); [intros [= <-]; pose proof (lenZ_nonneg (b :: s)); lia|].
    intros H. apply IH in H. rewrite lenZ_cons. lia.
Qed.

Lemma find_from_len pat s i j : find_from pat s i = Some j -> j + lenZ pat <= i + lenZ s.
Proof.
  revert i; induction s as [|b s IH]; intros i; cbn [find_from].
  - destruct (starts pat []) eqn:E; [|done]. intros [= <-]. apply starts_len in E. unfold lenZ; simpl in *; lia.
  - destruct (starts pat (b :: s)) eqn:E.
    + intros [= <-]. apply starts_len in E. unfold lenZ; lia.
    + intros H. apply IH in H. rewrite lenZ_cons. lia.
Qed.

(** What was found stays found at the same place when more text follows. *)
Lemma find_from_app pat s t i j : find_from pat s i = Some j -> find_from pat (s ++ t) i = Some j.
Proof.
  revert i; induction s as [|b s IH]; intros i H.
  - cbn [find_from] in H. destruct (starts pat []) eqn:E; [|done]. injection H as <-.
    destruct pat; [|done]. destruct t; done.
  - pose proof (find_from_len _ _ _ _ H) as Hl. pose proof (find_from_ge _ _ _ _ H) as Hg.
    cbn [find_from app] in *. rewrite app_comm_cons, starts_extend by (unfold lenZ in *; simpl in *; lia).
    destruct (starts pat (b :: s)); [done|]. by apply IH.
Qed.

Lemma find_from_shift pat s i k : find_from pat s (i + k) = (fun j => j + k) <$> find_from pat s i.
Proof.
  revert i; induction s as [|b s IH]; intros i; cbn [find_from].
  - by destruct (starts pat []).
  - destruct (starts pat (b :: s)); [done|]. rewrite <- IH. f_equal. lia.
Qed.

Lemma find_range pat s pos j : 0 <= pos -> find pat s pos = Some j -> pos <= j /\ j + lenZ pat <= lenZ s.
Proof.
  intros Hp. unfold find. destruct (Z.ltb_spec (lenZ s) pos); [done|]. intros Hf.
  pose proof (find_from_ge _ _ _ _ Hf). pose proof (find_from_len _ _ _ _ Hf).
  assert (lenZ (drop (Z.to_nat pos) s) = lenZ s - pos) by len_tac. lia.
Qed.

Lemma find_app pat s t pos j : 0 <= pos -> find pat s pos = Some j -> find pat (s ++ t) pos = Some j.
Proof.
  intros Hp. unfold find. destruct (Z.ltb_spec (lenZ s) pos); [done|]. intros Hf.
  rewrite lenZ_app. destruct (Z.ltb_spec (lenZ s + lenZ t) pos); [pose proof (lenZ_nonneg t); lia|].
  rewrite drop_app_le by len_tac. by apply find_from_app.
Qed.

(** Characters that cannot start [pat] are passed over. *)
Lemma find_from_skip x pat l s i :
  Forall (fun b => b <> x) l -> find_from (x :: pat) (l ++ s) i = find_from (x :: pat) s (i + lenZ l).
Proof.
  intros Hl; revert i; induction Hl as [|b l Hb Hl IH]; intros i; cbn [app].
  - by rewrite lenZ_nil, Z.add_0_r.
  - cbn [find_from starts]. destruct (Byte.eqb x b) eqn:E; [apply byte_eqb_eq in E; by subst|]. cbn [andb].
    rewrite IH, lenZ_cons. f_equal. lia.
Qed.

Lemma find_from_here pat s i : find_from pat (pat ++ s) i = Some i.
Proof. pose proof (starts_app pat s) as H. destruct (pat ++ s) eqn:E; cbn [find_from]; by rewrite H. Qed.

(** The first CRLF after a text without CR is right behind it. *)
Lemma find_after x pat pre l s :
  Forall (fun b => b <> x) l -> find (x :: pat) (pre ++ l ++ (x :: pat) ++ s) (lenZ pre) = Some (lenZ pre + lenZ l).
Proof.
  intros Hl. unfold find. rewrite !lenZ_app. pose proof (lenZ_nonneg l). pose proof (lenZ_nonneg (x :: pat)).
  pose proof (lenZ_nonneg s). destruct (Z.ltb_spec (lenZ pre + (lenZ l + (lenZ (x :: pat) + lenZ s))) (lenZ pre)); [lia|].
  unfold lenZ at 1. rewrite Nat2Z.id, drop_app_length. rewrite find_from_skip by done. apply find_from_here.
Qed.

Lemma span_while_range p l : 0 <= span_while p l <= lenZ l.
Proof. induction l as [|b l IH]; cbn [span_while]; [done|]. rewrite lenZ_cons. destruct (p b); lia. Qed.

Lemma span_while_app p l s : Forall (fun b => p b = true) l -> span_while p (l ++ s) = lenZ l + span_while p s.
Proof.
  induction 1 as [|b l Hb Hl IH]; cbn [app]; [done|]. cbn [span_while]. rewrite Hb, IH, lenZ_cons. lia.
Qed.

Lemma range_app pos e s t : 0 <= pos -> e <= lenZ s -> range pos e (s ++ t) = range pos e s.
Proof. intros. unfold range. apply sub_app_l; lia. Qed.

Lemma at_app s t pos : 0 <= pos < lenZ s -> at_ (s ++ t) pos = at_ s pos.
Proof. intros. unfold at_. apply app_nth1. unfold lenZ in *. lia. Qed.

Lemma range_middle pre l s : range (lenZ pre) (lenZ pre + lenZ l) (pre ++ l ++ s) = l.
Proof.
  unfold range, sub, lenZ. rewrite Nat2Z.id, drop_app_length.
  replace (Z.to_nat (Z.of_nat (length pre) + Z.of_nat (length l) - Z.of_nat (length pre))) with (length l) by lia.
  apply take_app_length.
Qed.

(** What appears only when text is appended reaches into the new text. *)
Lemma find_from_new pat s t i j :
  find_from pat s i = None -> find_from pat (s ++ t) i = Some j -> i + lenZ s < j + lenZ pat.
Proof.
  revert i; induction s as [|b s IH]; intros i; cbn [find_from app].
  - destruct (starts pat []) eqn:E; [done|]. intros _ H. pose proof (find_from_ge _ _ _ _ H).
    destruct pat as [|x pat]; [done|]. rewrite lenZ_nil, lenZ_cons. pose proof (lenZ_nonneg pat). lia.
  - destruct (starts pat (b :: s)) eqn:E; [done|]. intros H1.
    destruct (starts pat (b :: s ++ t)) eqn:E2.
    + intros [= <-]. destruct (Nat.le_gt_cases (length pat) (length (b :: s))) as [Hl|Hl].
      * rewrite <- (starts_extend pat (b :: s) t Hl) in E. by rewrite <- app_comm_cons, E2 in E.
      * unfold lenZ. lia.
    + intros H2. pose proof (IH _ H1 H2). rewrite lenZ_cons. lia.
Qed.

Lemma find_new pat s t pos j :
  0 <= pos <= lenZ s -> find pat s pos = None -> find pat (s ++ t) pos = Some j -> lenZ s < j + lenZ pat.
Proof.
  intros Hp. unfold find. destruct (Z.ltb_spec (lenZ s) pos); [lia|]. intros H1.
  destruct (lenZ (s ++ t) <? pos); [done|]. rewrite drop_app_le by len_tac. intros H2.
  pose proof (find_from_new _ _ _ _ _ H1 H2). assert (lenZ (drop (Z.to_nat pos) s) = lenZ s - pos) by len_tac. lia.
Qed.

(** What a suffix contains, the whole contains. *)
Lemma find_from_suffix pat l s i j :
  find_from pat s (i + lenZ l) = Some j -> find_from pat (l ++ s) i <> None.
Proof.
  revert i; induction l as [|b l IH]; intros i; cbn [app].
  - rewrite lenZ_nil, Z.add_0_r. by intros ->.
  - cbn [find_from]. destruct (starts pat (b :: l ++ s)); [done|].
    rewrite lenZ_cons. intros H. apply IH. rewrite <- H. f_equal. lia.
Qed.

Lemma find_from_starts pat s i j : find_from pat s i = Some j -> starts pat (drop (Z.to_nat (j - i)) s) = true.
Proof.
  revert i; induction s as [|b s IH]; intros i H; pose proof (find_from_ge _ _ _ _ H) as Hg; cbn [find_from] in H.
  - destruct (starts pat []) eqn:E; [|done]. by rewrite drop_nil.
  - destruct (starts pat (b :: s)) eqn:E.
    + injection H as <-. by rewrite Z.sub_diag.
    + pose proof (find_from_ge _ _ _ _ H). apply IH in H.
      replace (Z.to_nat (j - i)) with (S (Z.to_nat (j - (i + 1)))) by lia. done.
Qed.

(** Where a text is found, its beginning is found too. *)
Lemma find_prefix p q s pos j : 0 <= pos -> find (p ++ q) s pos = Some j -> find p s j = Some j.
Proof.
  intros Hp Hf. destruct (find_range _ _ _ _ Hp Hf) as [H1 H2]. unfold find in *.
  pose proof (lenZ_nonneg (p ++ q)). destruct (Z.ltb_spec (lenZ s) pos); [done|]. destruct (Z.ltb_spec (lenZ s) j); [lia|].
  apply find_from_starts in Hf. rewrite drop_drop in Hf.
  replace (Z.to_nat pos + Z.to_nat (j - pos))%nat with (Z.to_nat j) in Hf by lia.
  apply starts_true in Hf as [t ->]. rewrite <- app_assoc. apply find_from_here.
Qed.

(** *** Texts in the middle of others *)

Lemma find_shift pat pre l p :
  0 <= p -> find pat (pre ++ l) (lenZ pre + p) = (fun j => lenZ pre + j) <$> find pat l p.
Proof.
  intros Hp. unfold find. rewrite lenZ_app. pose proof (lenZ_nonneg pre).
  destruct (Z.ltb_spec (lenZ pre + lenZ l) (lenZ pre + p)), (Z.ltb_spec (lenZ l) p); try lia; [done|].
  rewrite drop_app_ge by (unfold lenZ in *; lia).
  replace (Z.to_nat (lenZ pre + p) - length pre)%nat with (Z.to_nat p) by (unfold lenZ; lia).
  rewrite (Z.add_comm (lenZ pre) p), find_from_shift. destruct (find_from pat (drop (Z.to_nat p) l) p); cbn; [f_equal; lia|done].
Qed.

Lemma sub_shift {A} off n (pre l : list A) : 0 <= off -> sub (lenZ pre + off) n (pre ++ l) = sub off n l.
Proof. intros. rewrite sub_app_r by lia. f_equal. lia. Qed.

Lemma range_shift p e pre l : 0 <= p -> range (lenZ pre + p) (lenZ pre + e) (pre ++ l) = range p e l.
Proof.
  intros. unfold range. rewrite sub_shift by done. f_equal. lia.
Qed.

Lemma at_shift pre l p : 0 <= p -> at_ (pre ++ l) (lenZ pre + p) = at_ l p.
Proof.
  intros. unfold at_. rewrite app_nth2 by (unfold lenZ; lia). f_equal. unfold lenZ. lia.
Qed.

Lemma range_all l : range 0 (lenZ l) l = l.
Proof. unfold range. rewrite Z.sub_0_r. by apply sub_all. Qed.

Definition no_byte (x : byte) (l : list byte) : Prop := Forall (fun b => b <> x) l.

Lemma find_none_byte x l : no_byte x l -> find [x] l 0 = None.
Proof.
  intros Hl. unfold find. destruct (lenZ l <? 0); [done|].
  change (drop (Z.to_nat 0) l) with l. generalize 0 as i. induction Hl as [|b l Hb Hl IH]; intros i; [done|].
  cbn [find_from starts]. destruct (Byte.eqb x b) eqn:E; [apply byte_eqb_eq in E; by subst|]. apply IH.
Qed.

End Text.
