(* ===== verification/Http.v ===== *)
(** * The HTTP client: requests and responses

    cbaselib/http/src/oi_http.cpp: the text of a request (Client::Get,
    Client::Post) and HttpSession, which takes a response apart as it arrives.

    Where the session calls OnHttpFinished of its client it has already put
    itself to rest and returns right after, so the model returns the call's
    arguments as a [finished] value; HttpClient.v acts on it. *)

From S2P Require Import Prelude Decimal Text.

Module Http.
Import Text.

Definition kMaxHeader : Z := 65536.
Definition kMaxBody : Z := 8 * 1024 * 1024.

(** ** Helpers *)

Definition pHex : list byte := txt "0123456789ABCDEF".

Definition plain_char (b : byte) : bool :=
  let c := byteZ b in
  ((97 <=? c) && (c <=? 122)) || ((65 <=? c) && (c <=? 90)) || ((48 <=? c) && (c <=? 57)) ||
  (c =? 45) || (c =? 95) || (c =? 46) || (c =? 33) || (c =? 126) || (c =? 42) || (c =? 39) || (c =? 40) || (c =? 41).

Definition EncodeQuery (sValue : list byte) : list byte :=
  flat_map (fun b =>
    if plain_char b then [b]
    else [Byte.x25; at_ pHex (Z.shiftr (byteZ b) 4); at_ pHex (Z.land (byteZ b) 15)]) sValue.

(** The text at [iPosition] is, up to case, the lower-case [pName]. *)
Definition EqName (sText : list byte) (iPosition iEnd : Z) (pName : list byte) : bool :=
  if iEnd <? iPosition + lenZ pName then false
  else bytes_eqb (map to_lower (sub iPosition (lenZ pName) sText)) pName.

Fixpoint parse_u64 (iValue : Z) (l : list byte) : option Z :=
  match l with
  | [] => Some iValue
  | b :: l =>
      if negb (Decimal.is_digit b) then None
      else
        let d := Decimal.digit_value b in
        if (UINT64_MAX - d) / 10 <? iValue then None
        else parse_u64 (iValue * 10 + d) l
  end.

Definition ParseU64 (sText : list byte) (iPosition iEnd : Z) : option Z :=
  if (iEnd <=? iPosition) || negb (Decimal.is_digit (at_ sText iPosition)) then None
  else parse_u64 0 (range iPosition iEnd sText).

Definition hex_value (b : byte) : Z :=
  let c := byteZ b in
  if (48 <=? c) && (c <=? 57) then c - 48
  else if (97 <=? c) && (c <=? 102) then c - 97 + 10
  else if (65 <=? c) && (c <=? 70) then c - 65 + 10
  else -1.

Fixpoint parse_hex (iValue iDigits : Z) (l : list byte) : option Z :=
  match l with
  | [] => if 0 <? iDigits then Some iValue else None
  | b :: l =>
      let iD := hex_value b in
      if iD <? 0 then
        if (byteZ b =? 59) && (0 <? iDigits) then Some iValue else None
      else if Z.shiftr UINT64_MAX 4 <? iValue then None
      else parse_hex (Z.lor (Z.shiftl iValue 4) iD) (iDigits + 1) l
  end.

Definition ParseHex (sText : list byte) (iPosition iEnd : Z) : option Z :=
  parse_hex 0 0 (range iPosition iEnd sText).

Definition HostHeader (sHost : list byte) (iPort : Z) : list byte :=
  txt "Host: " ++ sHost ++ (if negb (iPort =? 80) then txt ":" ++ Decimal.to_string iPort else []) ++ CRLF.

(** ** Requests *)

Definition target_path (sPath : list byte) : list byte := if lenZ sPath =? 0 then txt "/" else sPath.

Fixpoint encode_pairs (first : bool) (vQuery : list (list byte * list byte)) : list byte :=
  match vQuery with
  | [] => []
  | (k, v) :: vQuery =>
      (if first then [] else txt "&") ++ EncodeQuery k ++ txt "=" ++ EncodeQuery v ++ encode_pairs false vQuery
  end.

Definition connection_line (bReuse : bool) : list byte :=
  (if bReuse then txt "Connection: keep-alive" else txt "Connection: close") ++ CRLF ++ CRLF.

(** The sRequest Client::Get builds. *)
Definition Get (sHost : list byte) (iPort : Z) (bReuse : bool) (sPath : list byte)
    (vQuery : list (list byte * list byte)) : list byte :=
  let sTarget := target_path sPath ++
    (match vQuery with [] => [] | _ => txt "?" ++ encode_pairs true vQuery end) in
  txt "GET " ++ sTarget ++ txt " HTTP/1.1" ++ CRLF ++ HostHeader sHost iPort ++ connection_line bReuse.

(** The sRequest Client::Post builds. *)
Definition Post (sHost : list byte) (iPort : Z) (bReuse : bool) (sPath sBody sContentType : list byte) : list byte :=
  txt "POST " ++ target_path sPath ++ txt " HTTP/1.1" ++ CRLF ++ HostHeader sHost iPort ++
  txt "Content-Type: " ++ sContentType ++ CRLF ++
  txt "Content-Length: " ++ Decimal.to_string (lenZ sBody) ++ CRLF ++
  connection_line bReuse ++ sBody.

(** ** HttpSession *)

Record session : Type := mkSession {
  m_sIncoming : list byte;
  m_sBody : list byte;
  m_iHeaderBytes : Z;
  m_iContentLength : Z;
  m_iChunkPosition : Z;
  m_iInterimResponses : Z;
  m_iStatus : Z;
  m_bHeadersReady : bool;
  m_bHasLength : bool;
  m_bChunked : bool;
  m_bCloseAfter : bool;
  m_bActive : bool
}.

Definition new_session : session := mkSession [] [] 0 0 0 0 0 false false false false false.

Definition BeginResponse : session := mkSession [] [] 0 0 0 0 0 false false false false true.

Definition Abandon (s : session) : session :=
  mkSession [] (m_sBody s) (m_iHeaderBytes s) (m_iContentLength s) (m_iChunkPosition s) (m_iInterimResponses s)
    (m_iStatus s) (m_bHeadersReady s) (m_bHasLength s) (m_bChunked s) (m_bCloseAfter s) false.

Definition set_incoming (l : list byte) (s : session) : session :=
  mkSession l (m_sBody s) (m_iHeaderBytes s) (m_iContentLength s) (m_iChunkPosition s) (m_iInterimResponses s)
    (m_iStatus s) (m_bHeadersReady s) (m_bHasLength s) (m_bChunked s) (m_bCloseAfter s) (m_bActive s).
Definition set_body (l : list byte) (s : session) : session :=
  mkSession (m_sIncoming s) l (m_iHeaderBytes s) (m_iContentLength s) (m_iChunkPosition s) (m_iInterimResponses s)
    (m_iStatus s) (m_bHeadersReady s) (m_bHasLength s) (m_bChunked s) (m_bCloseAfter s) (m_bActive s).
Definition set_chunk_position (p : Z) (s : session) : session :=
  mkSession (m_sIncoming s) (m_sBody s) (m_iHeaderBytes s) (m_iContentLength s) p (m_iInterimResponses s)
    (m_iStatus s) (m_bHeadersReady s) (m_bHasLength s) (m_bChunked s) (m_bCloseAfter s) (m_bActive s).
Definition set_interim (n : Z) (s : session) : session :=
  mkSession (m_sIncoming s) (m_sBody s) (m_iHeaderBytes s) (m_iContentLength s) (m_iChunkPosition s) n
    (m_iStatus s) (m_bHeadersReady s) (m_bHasLength s) (m_bChunked s) (m_bCloseAfter s) (m_bActive s).
Definition set_headers_ready (n : Z) (s : session) : session :=
  mkSession (m_sIncoming s) (m_sBody s) n (m_iContentLength s) n (m_iInterimResponses s)
    (m_iStatus s) true (m_bHasLength s) (m_bChunked s) (m_bCloseAfter s) (m_bActive s).
Definition set_status (st : Z) (close : bool) (s : session) : session :=
  mkSession (m_sIncoming s) (m_sBody s) (m_iHeaderBytes s) 0 (m_iChunkPosition s) (m_iInterimResponses s)
    st (m_bHeadersReady s) false false close (m_bActive s).
Definition set_length (n : Z) (s : session) : session :=
  mkSession (m_sIncoming s) (m_sBody s) (m_iHeaderBytes s) n (m_iChunkPosition s) (m_iInterimResponses s)
    (m_iStatus s) (m_bHeadersReady s) true (m_bChunked s) (m_bCloseAfter s) (m_bActive s).
Definition set_chunked (s : session) : session :=
  mkSession (m_sIncoming s) (m_sBody s) (m_iHeaderBytes s) (m_iContentLength s) (m_iChunkPosition s)
    (m_iInterimResponses s) (m_iStatus s) (m_bHeadersReady s) (m_bHasLength s) true (m_bCloseAfter s) (m_bActive s).
Definition set_close (b : bool) (s : session) : session :=
  mkSession (m_sIncoming s) (m_sBody s) (m_iHeaderBytes s) (m_iContentLength s) (m_iChunkPosition s)
    (m_iInterimResponses s) (m_iStatus s) (m_bHeadersReady s) (m_bHasLength s) (m_bChunked s) b (m_bActive s).

(** The arguments of OnHttpFinished. *)
Record finished : Type := mkFinished {
  f_bFail : bool;
  f_pWhy : list byte;
  f_bClose : bool;
  f_iStatus : Z;
  f_sBody : list byte
}.

Definition Succeed (iConsumed : Z) (s : session) : session * option finished :=
  if negb (m_bActive s) then (s, None)
  else
    let s := if iConsumed <? lenZ (m_sIncoming s) then set_close true s else s in
    (set_body [] (Abandon s), Some (mkFinished false [] (m_bCloseAfter s) (m_iStatus s) (m_sBody s))).

Definition Fail (pWhy : list byte) (s : session) : session * option finished :=
  if negb (m_bActive s) then (s, None)
  else (Abandon s, Some (mkFinished true pWhy true (m_iStatus s) [])).

(** The loop over the comma-separated tokens. *)
Fixpoint note_tokens (fuel : nat) (sValue : list byte) (iPosition : Z) (bClose bKeep : bool) : result (bool * bool) :=
  match fuel with
  | O => Err OutOfFuel
  | S fuel =>
      if lenZ sValue <=? iPosition then Ok (bClose, bKeep)
      else
        let iPosition := iPosition +
          span_while (fun b => is_blank b || (byteZ b =? 44)) (range iPosition (lenZ sValue) sValue) in
        if lenZ sValue <=? iPosition then Ok (bClose, bKeep)
        else
          let iEnd := iPosition + span_while (fun b => negb (byteZ b =? 44)) (range iPosition (lenZ sValue) sValue) in
          let iTokenEnd := iEnd - span_while is_blank (rev (range iPosition iEnd sValue)) in
          let named name := EqName sValue iPosition iTokenEnd name && (iPosition + lenZ name =? iTokenEnd) in
          let '(bClose, bKeep) :=
            if named (txt "close") then (true, bKeep)
            else if named (txt "keep-alive") then (bClose, true) else (bClose, bKeep) in
          if lenZ sValue <=? iEnd then Ok (bClose, bKeep)
          else note_tokens fuel sValue (iEnd + 1) bClose bKeep
  end.

Definition NoteConnection (sValue : list byte) (s : session) : result session :=
  let! (bClose, bKeep) := note_tokens (S (length sValue)) sValue 0 false false in
  Ok (if bClose then set_close true s else if bKeep then set_close false s else s).

(** One header line [iPosition, iEnd): false when the response is malformed. *)
Definition parse_line (iPosition iEnd : Z) (s : session) : result (bool * session) :=
  let l := m_sIncoming s in
  match find (txt ":") l iPosition with
  | Some iColon =>
      if iColon <? iEnd then
        let iValue := iColon + 1 in
        let iValue := iValue + span_while is_blank (range iValue iEnd l) in
        let iValueEnd := iEnd - span_while is_blank (rev (range iValue iEnd l)) in
        let iNameEnd := iColon - span_while (fun b => byteZ b =? 32) (rev (range iPosition iColon l)) in
        let named name := EqName l iPosition iNameEnd name && (iPosition + lenZ name =? iNameEnd) in
        if named (txt "content-length") then
          match ParseU64 l iValue iValueEnd with
          | None => Ok (false, s)
          | Some iLength =>
              if (negb (m_iStatus s =? 304) && (200 <=? m_iStatus s) && (kMaxBody <? iLength)) ||
                 (m_bHasLength s && negb (m_iContentLength s =? iLength))
              then Ok (false, s)
              else Ok (true, set_length iLength s)
          end
        else if named (txt "transfer-encoding") then
          let sCoding := map to_lower (range iValue iValueEnd l) in
          if m_bChunked s || negb (bytes_eqb sCoding (txt "chunked")) then Ok (false, s)
          else Ok (true, set_chunked s)
        else if named (txt "connection") then
          let! s := NoteConnection (range iValue iValueEnd l) s in Ok (true, s)
        else Ok (true, s)
      else Ok (true, s)
  | None => Ok (true, s)
  end.

Fixpoint parse_lines (fuel : nat) (iHeaderEnd iPosition : Z) (s : session) : result (bool * session) :=
  match fuel with
  | O => Err OutOfFuel
  | S fuel =>
      if iHeaderEnd <=? iPosition then Ok (true, s)
      else
        match find CRLF (m_sIncoming s) iPosition with
        | None => Ok (true, s)
        | Some iEnd =>
            if iHeaderEnd <? iEnd then Ok (true, s)
            else
              let! (ok, s) := parse_line iPosition iEnd s in
              if ok then parse_lines fuel iHeaderEnd (iEnd + 2) s else Ok (false, s)
        end
  end.

Definition ParseHeaders (iHeaderEnd : Z) (s : session) : result (bool * session) :=
  let l := m_sIncoming s in
  match find CRLF l 0 with
  | None => Ok (false, s)
  | Some iLineEnd =>
      if iHeaderEnd <? iLineEnd then Ok (false, s)
      else
        let v11 := bytes_eqb (range 0 9 l) (txt "HTTP/1.1 ") in
        let v10 := bytes_eqb (range 0 9 l) (txt "HTTP/1.0 ") in
        if (iLineEnd <? 12) || (negb v11 && negb v10) then Ok (false, s)
        else if (12 <? iLineEnd) && negb (byteZ (at_ l 12) =? 32) then Ok (false, s)
        else
          match ParseU64 l 9 12 with
          | None => Ok (false, s)
          | Some iCodeLocal =>
              if (iCodeLocal <? 100) || (599 <? iCodeLocal) || (iCodeLocal =? 101) then Ok (false, s)
              else
                let s := set_status iCodeLocal v10 s in
                let! (ok, s) := parse_lines (S (length l)) iHeaderEnd (iLineEnd + 2) s in
                Ok (ok && negb (m_bHasLength s && m_bChunked s), s)
          end
  end.

(** What one attempt to use the bytes at hand comes to: it waits for more (the
    code returns false), or is through with the response (true). *)
Inductive consumed : Type :=
| NeedMore (s : session)
| Through (r : session * option finished).

(** The trailer after the last chunk. *)
Fixpoint skip_trailer (fuel : nat) (iPosition : Z) (s : session) : result consumed :=
  match fuel with
  | O => Err OutOfFuel
  | S fuel =>
      match find CRLF (m_sIncoming s) iPosition with
      | None => Ok (NeedMore s)
      | Some iEnd =>
          if iEnd =? iPosition then Ok (Through (Succeed (iEnd + 2) s))
          else skip_trailer fuel (iEnd + 2) s
      end
  end.

Fixpoint consume_chunks (fuel : nat) (s : session) : result consumed :=
  match fuel with
  | O => Err OutOfFuel
  | S fuel =>
      let l := m_sIncoming s in
      match find CRLF l (m_iChunkPosition s) with
      | None =>
          if 1024 <? lenZ l - m_iChunkPosition s then Ok (Through (Fail (txt "chunk") s)) else Ok (NeedMore s)
      | Some iLineEnd =>
          match ParseHex l (m_iChunkPosition s) iLineEnd with
          | None => Ok (Through (Fail (txt "chunk") s))
          | Some iSize =>
              let iDataAt := iLineEnd + 2 in
              if iSize =? 0 then skip_trailer (S (length l)) iDataAt s
              else if (kMaxBody <? iSize) || (kMaxBody <? lenZ (m_sBody s) + iSize) then
                Ok (Through (Fail (txt "size") s))
              else if lenZ l <? iDataAt + iSize + 2 then Ok (NeedMore s)
              else if negb (bytes_eqb (sub (iDataAt + iSize) 2 l) CRLF) then
                Ok (Through (Fail (txt "chunk") s))
              else
                let s := set_body (m_sBody s ++ sub iDataAt iSize l) s in
                consume_chunks fuel (set_chunk_position (iDataAt + iSize + 2) s)
          end
      end
  end.

Definition ConsumeChunks (s : session) : result consumed := consume_chunks (S (length (m_sIncoming s))) s.

(** The loop of Consume: the final header, the interim ones skipped. *)
Fixpoint consume_headers (fuel : nat) (s : session) : result consumed :=
  if m_bHeadersReady s then Ok (NeedMore s)
  else
    match fuel with
    | O => Err OutOfFuel
    | S fuel =>
        match find (CRLF ++ CRLF) (m_sIncoming s) 0 with
        | None =>
            if kMaxHeader <? lenZ (m_sIncoming s) then Ok (Through (Fail (txt "header") s)) else Ok (NeedMore s)
        | Some iHeaderEnd =>
            if kMaxHeader <? iHeaderEnd then Ok (Through (Fail (txt "status") s))
            else
              let! (ok, s) := ParseHeaders iHeaderEnd s in
              if negb ok then Ok (Through (Fail (txt "status") s))
              else if m_iStatus s <? 200 then
                let s := set_interim (m_iInterimResponses s + 1) s in
                if 16 <? m_iInterimResponses s then Ok (Through (Fail (txt "status") s))
                else consume_headers fuel (set_incoming (drop (Z.to_nat (iHeaderEnd + 4)) (m_sIncoming s)) s)
              else Ok (NeedMore (set_headers_ready (iHeaderEnd + 4) s))
        end
    end.

Definition consume_body (s : session) : result consumed :=
  let l := m_sIncoming s in
  if (m_iStatus s =? 204) || (m_iStatus s =? 304) then Ok (Through (Succeed (m_iHeaderBytes s) s))
  else if m_bChunked s then ConsumeChunks s
  else if negb (m_bHasLength s) then Ok (NeedMore (set_close true s))
  else if lenZ l - m_iHeaderBytes s <? m_iContentLength s then Ok (NeedMore s)
  else
    let s := set_body (sub (m_iHeaderBytes s) (m_iContentLength s) l) s in
    Ok (Through (Succeed (m_iHeaderBytes s + m_iContentLength s) s)).

Definition Consume (s : session) : result consumed :=
  let! r := consume_headers (S (length (m_sIncoming s))) s in
  match r with
  | Through _ => Ok r
  | NeedMore s => if m_bHeadersReady s then consume_body s else Ok (NeedMore s)
  end.

(** The end of the connection. *)
Definition FinishEof (s : session) : result (session * option finished) :=
  if negb (m_bActive s) then Ok (s, None)
  else
    let! r := Consume s in
    match r with
    | Through r => Ok r
    | NeedMore s =>
        if negb (m_bHeadersReady s) || m_bHasLength s || m_bChunked s then Ok (Fail (txt "eof") s)
        else
          let s := set_body (drop (Z.to_nat (m_iHeaderBytes s)) (m_sIncoming s)) s in
          let s := set_close true s in
          Ok (Succeed (lenZ (m_sIncoming s)) s)
    end.

(** Bytes from the connection. While no response is awaited they are dropped,
    and the flag returned asks for OnIdleBytes. *)
Definition OnDataIn (stInput : list byte) (s : session) : result (session * option finished * bool) :=
  if negb (m_bActive s) then Ok (s, None, 0 <? lenZ stInput)
  else if kMaxHeader + kMaxBody <? lenZ (m_sIncoming s) + lenZ stInput then
    Ok (Fail (txt "size") s, false)
  else
    let! r := Consume (set_incoming (m_sIncoming s ++ stInput) s) in
    match r with
    | NeedMore s => Ok (s, None, false)
    | Through r => Ok (r, false)
    end.

(** ** More bytes behind the ones at hand *)

Create HintDb http.

Definition ext (b : list byte) (s : session) : session := set_incoming (m_sIncoming s ++ b) s.

Lemma ext_ext a b s : ext b (ext a s) = ext (a ++ b) s.
Proof. unfold ext. destruct s. cbn. by rewrite app_assoc. Qed.

Definition ext_ok (b : list byte) (r : result (bool * session)) : result (bool * session) :=
  let! (ok, s) := r in Ok (ok, ext b s).

Lemma NoteConnection_ext v b s :
  NoteConnection v (ext b s) = let! s' := NoteConnection v s in Ok (ext b s').
Proof.
  unfold NoteConnection. destruct (note_tokens _ _ _ _ _) as [[[] []]|]; done.
Qed.

Lemma EqName_app l b pos e name :
  0 <= pos -> e <= lenZ l -> EqName (l ++ b) pos e name = EqName l pos e name.
Proof.
  intros. unfold EqName. destruct (Z.ltb_spec e (pos + lenZ name)); [done|].
  pose proof (lenZ_nonneg name). by rewrite sub_app_l by lia.
Qed.

Lemma ParseU64_app l b pos e : 0 <= pos -> e <= lenZ l -> ParseU64 (l ++ b) pos e = ParseU64 l pos e.
Proof.
  intros. unfold ParseU64. destruct (Z.leb_spec e pos); [done|]. by rewrite at_app, range_app by lia.
Qed.

Lemma ParseHex_app l b pos e : 0 <= pos -> e <= lenZ l -> ParseHex (l ++ b) pos e = ParseHex l pos e.
Proof. intros. unfold ParseHex. by rewrite range_app. Qed.

Lemma trimmed_end p pos e l : 0 <= pos <= e -> e <= lenZ l -> pos <= e - span_while p (rev (range pos e l)) <= e.
Proof.
  intros. pose proof (span_while_range p (rev (range pos e l))) as H1.
  assert (lenZ (rev (range pos e l)) = e - pos); [|lia].
  unfold lenZ. rewrite length_rev. unfold range. pose proof (lenZ_sub pos (e - pos) l). unfold lenZ in *. lia.
Qed.

Lemma skipped_start p pos e l : 0 <= pos <= e -> e <= lenZ l -> pos <= pos + span_while p (range pos e l) <= e.
Proof.
  intros. pose proof (span_while_range p (range pos e l)) as H1.
  unfold range in *. rewrite lenZ_sub in H1 by lia. lia.
Qed.

(** A line says the same whatever follows it. *)
Lemma parse_line_ext b pos e s :
  0 <= pos <= e -> e <= lenZ (m_sIncoming s) -> parse_line pos e (ext b s) = ext_ok b (parse_line pos e s).
Proof.
  intros Hp He. unfold parse_line, ext_ok. cbn [m_sIncoming ext set_incoming]. set (l := m_sIncoming s) in *.
  change (txt ":") with [Byte.x3a]. assert (0 <= pos) as H0 by lia.
  destruct (find [Byte.x3a] l pos) as [c|] eqn:Ef.
  - rewrite (find_app _ _ b _ _ H0 Ef). destruct (find_range _ _ _ _ H0 Ef) as [Hc1 Hc2].
    change (lenZ [Byte.x3a]) with 1 in Hc2.
    destruct (Z.ltb_spec c e) as [Hc|Hc]; [|done].
    rewrite (range_app (c + 1) e) by lia.
    pose proof (skipped_start is_blank (c + 1) e l ltac:(lia) He) as Hv. set (v := c + 1 + span_while is_blank (range (c + 1) e l)) in *.
    rewrite (range_app v e) by lia.
    pose proof (trimmed_end is_blank v e l ltac:(lia) He) as Hve. set (ve := e - span_while is_blank (rev (range v e l))) in *.
    rewrite (range_app pos c) by lia.
    pose proof (trimmed_end (fun b0 => byteZ b0 =? 32) pos c l ltac:(lia) ltac:(lia)) as Hn.
    set (ne := c - span_while (fun b0 => byteZ b0 =? 32) (rev (range pos c l))) in *.
    rewrite !EqName_app, ParseU64_app, (range_app v ve) by lia.
    cbn [m_iStatus m_bHasLength m_iContentLength m_bChunked ext set_incoming].
    repeat match goal with
    | |- context [if ?x then _ else _] => destruct x
    | |- context [match ParseU64 ?a ?p ?q with _ => _ end] => destruct (ParseU64 a p q)
    end; try done.
    rewrite NoteConnection_ext. by destruct (NoteConnection _ s).
  - destruct (find [Byte.x3a] (l ++ b) pos) as [c|] eqn:Ef2; [|done].
    pose proof (find_new _ l b pos c ltac:(lia) Ef Ef2) as Hn. change (lenZ [Byte.x3a]) with 1 in Hn.
    by destruct (Z.ltb_spec c e); [lia|].
Qed.

Lemma NoteConnection_incoming v s s' : NoteConnection v s = Ok s' -> m_sIncoming s' = m_sIncoming s.
Proof.
  unfold NoteConnection. destruct (note_tokens _ _ _ _ _) as [[[] []]|]; cbn; by intros [= <-].
Qed.

Lemma parse_line_incoming pos e s ok s' : parse_line pos e s = Ok (ok, s') -> m_sIncoming s' = m_sIncoming s.
Proof.
  unfold parse_line. repeat match goal with
  | |- context [match ?x with _ => _ end] => lazymatch x with NoteConnection _ _ => fail | _ => destruct x end
  end; try (by intros [= <- <-]).
  intros E. mono E. injection E as <- <-. by eapply NoteConnection_incoming.
Qed.

Lemma parse_lines_ext fuel b h pos s r :
  0 <= pos <= lenZ (m_sIncoming s) -> h + 2 <= lenZ (m_sIncoming s) -> parse_lines fuel h pos s = Ok r ->
  parse_lines fuel h pos (ext b s) = ext_ok b (Ok r).
Proof.
  revert pos s; induction fuel as [|fuel IH]; intros pos s Hp Hh E; [done|]. cbn [parse_lines] in *.
  destruct (Z.leb_spec h pos); [by injection E as <-|]. assert (0 <= pos) as H0 by lia.
  cbn [m_sIncoming ext set_incoming] in *. destruct (find CRLF (m_sIncoming s) pos) as [e|] eqn:Ef.
  - rewrite (find_app _ _ b _ _ H0 Ef). destruct (find_range _ _ _ _ H0 Ef) as [He1 He2].
    destruct (Z.ltb_spec h e); [by injection E as <-|].
    change (lenZ CRLF) with 2 in He2.
    rewrite parse_line_ext by lia. destruct (parse_line pos e s) as [[ok s1]|] eqn:El; cbn [rbind ext_ok] in *; [|done].
    destruct ok; [|by injection E as <-].
    apply IH; [rewrite (parse_line_incoming _ _ _ _ _ El); lia..|done].
  - injection E as <-. destruct (find CRLF (m_sIncoming s ++ b) pos) as [e|] eqn:Ef2; [|done].
    pose proof (find_new _ (m_sIncoming s) b pos e ltac:(lia) Ef Ef2) as Hn. change (lenZ CRLF) with 2 in Hn.
    destruct (Z.ltb_spec h e); [done|lia].
Qed.

Lemma parse_lines_incoming fuel h pos s ok s' :
  parse_lines fuel h pos s = Ok (ok, s') -> m_sIncoming s' = m_sIncoming s.
Proof.
  revert pos s; induction fuel as [|fuel IH]; intros pos s; [done|]. cbn [parse_lines].
  destruct (h <=? pos); [by intros [= _ <-]|]. destruct (find _ _ _) as [e|]; [|by intros [= _ <-]].
  destruct (h <? e); [by intros [= _ <-]|].
  destruct (parse_line pos e s) as [[[] s1]|] eqn:E; cbn [rbind]; [..|done].
  - intros H. rewrite (IH _ _ H). by eapply parse_line_incoming.
  - intros [= _ <-]. by eapply parse_line_incoming.
Qed.

Lemma parse_lines_mono fuel fuel' h pos s r :
  (fuel <= fuel')%nat -> parse_lines fuel h pos s = Ok r -> parse_lines fuel' h pos s = Ok r.
Proof.
  revert fuel' pos s; induction fuel as [|fuel IH]; intros fuel' pos s Hf E; [done|].
  destruct fuel' as [|fuel']; [lia|]. cbn [parse_lines] in *.
  destruct (h <=? pos); [done|]. destruct (find _ _ _); [|done]. destruct (h <? z); [done|].
  destruct (parse_line pos z s) as [[[] s1]|]; cbn [rbind] in *; try done. apply IH; [lia|done].
Qed.

(** *** The loops end *)

Lemma range_len pos e (l : list byte) : 0 <= pos <= e -> e <= lenZ l -> lenZ (range pos e l) = e - pos.
Proof. intros. unfold range. rewrite lenZ_sub; lia. Qed.

Lemma note_tokens_ok fuel v pos c k :
  0 <= pos <= lenZ v -> lenZ v - pos < Z.of_nat fuel -> exists r, note_tokens fuel v pos c k = Ok r.
Proof.
  revert pos c k; induction fuel as [|fuel IH]; intros pos c k Hp Hf; [lia|]. cbn [note_tokens].
  destruct (Z.leb_spec (lenZ v) pos); [by eexists|].
  pose proof (skipped_start (fun b => is_blank b || (byteZ b =? 44)) pos (lenZ v) v ltac:(lia) ltac:(lia)) as H1.
  set (p1 := pos + span_while _ _) in *. destruct (Z.leb_spec (lenZ v) p1); [by eexists|].
  pose proof (skipped_start (fun b => negb (byteZ b =? 44)) p1 (lenZ v) v ltac:(lia) ltac:(lia)) as H2.
  set (p2 := p1 + span_while _ _) in *.
  match goal with |- context [let '(_, _) := ?x in _] => destruct x as [c' k'] end.
  destruct (Z.leb_spec (lenZ v) p2); [by eexists|]. apply IH; lia.
Qed.

Lemma NoteConnection_ok v s : exists s', NoteConnection v s = Ok s'.
Proof.
  unfold NoteConnection. destruct (note_tokens_ok (S (length v)) v 0 false false) as [[c k] ->];
    [pose proof (lenZ_nonneg v); lia|unfold lenZ; lia|]. cbn [rbind]. by eexists.
Qed.

Lemma parse_line_ok pos e s : exists r, parse_line pos e s = Ok r.
Proof.
  unfold parse_line. repeat match goal with
  | |- context [match ?x with _ => _ end] => lazymatch x with NoteConnection _ _ => fail | _ => destruct x end
  end; try (by eexists).
  match goal with |- context [NoteConnection ?v ?s] => destruct (NoteConnection_ok v s) as [s' ->] end. by eexists.
Qed.

Lemma parse_lines_ok fuel h pos s :
  0 <= pos <= lenZ (m_sIncoming s) -> lenZ (m_sIncoming s) - pos < Z.of_nat fuel -> exists r, parse_lines fuel h pos s = Ok r.
Proof.
  revert pos s; induction fuel as [|fuel IH]; intros pos s Hp Hf; [lia|]. cbn [parse_lines].
  destruct (h <=? pos); [by eexists|]. destruct (find CRLF (m_sIncoming s) pos) as [e|] eqn:Ef; [|by eexists].
  destruct (h <? e); [by eexists|]. destruct (find_range _ _ _ _ (proj1 Hp) Ef) as [H1 H2].
  change (lenZ CRLF) with 2 in H2.
  destruct (parse_line_ok pos e s) as [[ok s1] E]. rewrite E. cbn [rbind]. destruct ok; [|by eexists].
  apply IH; rewrite (parse_line_incoming _ _ _ _ _ E); lia.
Qed.

Lemma ParseHeaders_ok h s : exists r, ParseHeaders h s = Ok r.
Proof.
  unfold ParseHeaders. destruct (find CRLF (m_sIncoming s) 0) as [e|] eqn:Ef; [|by eexists].
  destruct (find_range _ _ _ _ (Z.le_refl 0) Ef) as [H1 H2]. change (lenZ CRLF) with 2 in H2.
  repeat match goal with |- context [if ?x then _ else _] => destruct x; try (by eexists) end.
  destruct (ParseU64 _ _ _) as [code|]; [|by eexists].
  repeat match goal with |- context [if ?x then Ok _ else _] => destruct x; try (by eexists) end.
  match goal with |- context [parse_lines ?f ?h ?p ?s] => destruct (parse_lines_ok f h p s) as [[ok s1] ->] end;
    [cbn [m_sIncoming set_status]; lia|cbn [m_sIncoming set_status]; unfold lenZ; lia|]. cbn [rbind]. by eexists.
Qed.

Lemma ParseHeaders_incoming h s ok s' : ParseHeaders h s = Ok (ok, s') -> m_sIncoming s' = m_sIncoming s.
Proof.
  unfold ParseHeaders. repeat match goal with
  | |- context [match ?x with _ => _ end] => lazymatch x with parse_lines _ _ _ _ => fail | _ => destruct x end
  end; try (by intros [= _ <-]).
  intros E. mono E. destruct a as [ok1 s1]. injection E as _ <-. by apply parse_lines_incoming in E0 as ->.
Qed.

Lemma ParseHeaders_ext b h s r :
  0 <= h -> h + 2 <= lenZ (m_sIncoming s) -> find CRLF (m_sIncoming s) h = Some h ->
  ParseHeaders h s = Ok r -> ParseHeaders h (ext b s) = ext_ok b (Ok r).
Proof.
  intros H0 Hh Hf E. unfold ParseHeaders in *. cbn [m_sIncoming ext set_incoming]. set (l := m_sIncoming s) in *.
  destruct (find CRLF l 0) as [e|] eqn:Ef.
  - rewrite (find_app _ _ b _ _ (Z.le_refl 0) Ef). destruct (find_range _ _ _ _ (Z.le_refl 0) Ef) as [H1 H2].
    change (lenZ CRLF) with 2 in H2.
    destruct (h <? e) eqn:Ehe; [by injection E as <-|].
    destruct (Z.ltb_spec e 12) as [Hs|Hs]; cbn [orb] in *; [by injection E as <-|].
    rewrite (range_app 0 9) by lia.
    destruct (negb _ && negb _); [by injection E as <-|].
    assert ((12 <? e) && negb (byteZ (at_ (l ++ b) 12) =? 32) = (12 <? e) && negb (byteZ (at_ l 12) =? 32)) as ->.
    { destruct (Z.ltb_spec 12 e); [|done]. by rewrite at_app by lia. }
    destruct (_ && _); [by injection E as <-|].
    rewrite ParseU64_app by lia. destruct (ParseU64 l 9 12) as [code|]; [|by injection E as <-].
    destruct (_ || _ || _); [by injection E as <-|].
    change (set_status code (bytes_eqb (range 0 9 l) (txt "HTTP/1.0 ")) (ext b s))
      with (ext b (set_status code (bytes_eqb (range 0 9 l) (txt "HTTP/1.0 ")) s)).
    mono E. destruct a as [ok1 s1]. injection E as <-.
    rewrite (parse_lines_mono (S (length l)) (S (length (l ++ b))) h (e + 2) _ (ok1, ext b s1)).
    + done.
    + rewrite length_app. lia.
    + refine (parse_lines_ext _ b _ _ _ _ _ _ E0); cbn [m_sIncoming set_status]; fold l; lia.
  - exfalso. unfold find in Ef, Hf. pose proof (lenZ_nonneg l).
    destruct (Z.ltb_spec (lenZ l) 0); [lia|]. destruct (Z.ltb_spec (lenZ l) h); [lia|].
    change (drop (Z.to_nat 0) l) with l in Ef.
    pose proof (find_from_suffix CRLF (take (Z.to_nat h) l) (drop (Z.to_nat h) l) 0 h) as Hs.
    rewrite take_drop in Hs. apply Hs in Ef; [done|].
    assert (0 + lenZ (take (Z.to_nat h) l) = h) as -> by len_tac. congruence.
Qed.

(** A response of an active session ends with a report, once: the session is
    inactive after it. *)
Definition reported (r : session * option finished) : Prop := is_Some (snd r) /\ m_bActive (fst r) = false.

Lemma Succeed_reported n s : m_bActive s = true -> reported (Succeed n s).
Proof. intros H. unfold Succeed, reported. rewrite H. cbn. split; [by eexists|done]. Qed.

Lemma Fail_reported w s : m_bActive s = true -> reported (Fail w s).
Proof. intros H. unfold Fail, reported. rewrite H. cbn. split; [by eexists|done]. Qed.

#[export] Hint Resolve Succeed_reported Fail_reported : http.

Ltac report := eexists; split; [reflexivity|]; cbv beta iota; auto with http.

Lemma skip_trailer_mono fuel fuel' pos s r :
  (fuel <= fuel')%nat -> skip_trailer fuel pos s = Ok r -> skip_trailer fuel' pos s = Ok r.
Proof.
  revert fuel' pos; induction fuel as [|fuel IH]; intros fuel' pos Hf E; [done|].
  destruct fuel' as [|fuel']; [lia|]. cbn [skip_trailer] in *.
  destruct (find _ _ _); [|done]. destruct (z =? pos); [done|]. apply IH; [lia|done].
Qed.

Lemma skip_trailer_ok fuel pos s :
  0 <= pos <= lenZ (m_sIncoming s) -> lenZ (m_sIncoming s) - pos < Z.of_nat fuel ->
  exists r, skip_trailer fuel pos s = Ok r /\
    match r with NeedMore s' => s' = s | Through r => m_bActive s = true -> reported r end.
Proof.
  revert pos; induction fuel as [|fuel IH]; intros pos Hp Hf; [lia|]. cbn [skip_trailer].
  destruct (find CRLF (m_sIncoming s) pos) as [e|] eqn:Ef; [|by eexists].
  destruct (find_range _ _ _ _ (proj1 Hp) Ef) as [H1 H2]. change (lenZ CRLF) with 2 in H2.
  destruct (e =? pos); [report|]. apply IH; lia.
Qed.

Lemma skip_trailer_more fuel pos s s' : skip_trailer fuel pos s = Ok (NeedMore s') -> s' = s.
Proof.
  revert pos; induction fuel as [|fuel IH]; intros pos; [done|]. cbn [skip_trailer].
  destruct (find _ _ _); [|by intros [= <-]]. destruct (z =? pos); [done|]. apply IH.
Qed.

Lemma consume_chunks_mono fuel fuel' s r :
  (fuel <= fuel')%nat -> consume_chunks fuel s = Ok r -> consume_chunks fuel' s = Ok r.
Proof.
  revert fuel' s; induction fuel as [|fuel IH]; intros fuel' s Hf E; [done|].
  destruct fuel' as [|fuel']; [lia|]. cbn [consume_chunks] in *.
  destruct (find _ _ _); [|done]. destruct (ParseHex _ _ _); [|done].
  destruct (z0 =? 0); [done|]. destruct (_ || _); [done|]. destruct (_ <? _); [done|].
  destruct (negb _); [done|]. apply IH; [lia|done].
Qed.

(** Where the session stands in its bytes. *)
Definition placed (s : session) : Prop :=
  m_bHeadersReady s = true -> 0 <= m_iChunkPosition s <= lenZ (m_sIncoming s) /\ 0 <= m_iHeaderBytes s <= lenZ (m_sIncoming s).

Lemma parse_hex_nonneg l v d n : 0 <= v -> parse_hex v d l = Some n -> 0 <= n.
Proof.
  revert v d; induction l as [|b l IH]; intros v d Hv; cbn [parse_hex].
  - destruct (0 <? d); [by intros [= <-]|done].
  - destruct (Z.ltb_spec (hex_value b) 0); [destruct (_ && _); [by intros [= <-]|done]|].
    destruct (_ <? v); [done|]. apply IH. apply Z.lor_nonneg. split; [by apply Z.shiftl_nonneg|done].
Qed.

Lemma consume_chunks_ok fuel s :
  0 <= m_iChunkPosition s <= lenZ (m_sIncoming s) -> lenZ (m_sIncoming s) - m_iChunkPosition s < Z.of_nat fuel ->
  exists r, consume_chunks fuel s = Ok r /\
    match r with
    | NeedMore s' => 0 <= m_iChunkPosition s' <= lenZ (m_sIncoming s') /\ m_sIncoming s' = m_sIncoming s /\
                     m_iHeaderBytes s' = m_iHeaderBytes s /\ m_bHeadersReady s' = m_bHeadersReady s /\
                     m_bActive s' = m_bActive s /\ m_bChunked s' = m_bChunked s /\ m_iStatus s' = m_iStatus s
    | Through r => m_bActive s = true -> reported r
    end.
Proof.
  revert s; induction fuel as [|fuel IH]; intros s Hp Hf; [lia|]. cbn [consume_chunks].
  destruct (find CRLF (m_sIncoming s) (m_iChunkPosition s)) as [e|] eqn:Ef.
  2:{ destruct (1024 <? _); [report|by eexists]. }
  destruct (find_range _ _ _ _ (proj1 Hp) Ef) as [H1 H2]. change (lenZ CRLF) with 2 in H2.
  destruct (ParseHex _ _ _) as [n|] eqn:Eh; [|report].
  apply parse_hex_nonneg in Eh as Hn; [|done].
  destruct (Z.eqb_spec n 0) as [En|En].
  { destruct (skip_trailer_ok (S (length (m_sIncoming s))) (e + 2) s) as (r & Er & Hr); [lia|unfold lenZ; lia|].
    exists r. split; [done|]. by destruct r as [s'|]; [subst s'|]. }
  destruct (_ || _) eqn:Eb; [report|].
  destruct (Z.ltb_spec (lenZ (m_sIncoming s)) (e + 2 + n + 2)); [by eexists|].
  destruct (negb _); [report|].
  match goal with |- context [consume_chunks fuel ?x] => destruct (IH x) as (r & -> & Hr) end;
    [cbn; lia|cbn; lia|]. exists r. split; [done|]. destruct r; [|done]. cbn in Hr. tauto.
Qed.

(** Going on after the wait is the same as having had all the bytes at once. *)
Lemma consume_chunks_resume fuel f1 b s s' r :
  0 <= m_iChunkPosition s <= lenZ (m_sIncoming s) ->
  consume_chunks fuel s = Ok (NeedMore s') -> consume_chunks f1 (ext b s') = Ok r ->
  consume_chunks (fuel + f1) (ext b s) = Ok r.
Proof.
  revert s; induction fuel as [|fuel IH]; intros s Hp E Hr; [done|].
  assert (s' = s -> consume_chunks (S fuel + f1) (ext b s) = Ok r) as Hsame
    by (intros ->; eapply consume_chunks_mono; [|exact Hr]; lia).
  cbn [consume_chunks] in E. destruct (find CRLF (m_sIncoming s) (m_iChunkPosition s)) as [e|] eqn:Ef.
  2:{ destruct (1024 <? _); [done|]. injection E as <-. by apply Hsame. }
  destruct (find_range _ _ _ _ (proj1 Hp) Ef) as [H1 H2]. change (lenZ CRLF) with 2 in H2.
  destruct (ParseHex (m_sIncoming s) (m_iChunkPosition s) e) as [n|] eqn:Eh; [|done].
  apply parse_hex_nonneg in Eh as Hn; [|done].
  destruct (Z.eqb_spec n 0) as [En|En].
  { apply skip_trailer_more in E as <-. by apply Hsame. }
  destruct (_ || _) eqn:Eb; [done|].
  destruct (Z.ltb_spec (lenZ (m_sIncoming s)) (e + 2 + n + 2)) as [Hl|Hl]; [injection E as <-; by apply Hsame|].
  destruct (negb _) eqn:Ec; [done|]. clear Hsame.
  cbn [Nat.add consume_chunks]. cbn [m_sIncoming m_iChunkPosition m_sBody ext set_incoming].
  rewrite (find_app _ _ b _ _ (proj1 Hp) Ef), ParseHex_app, Eh by lia.
  destruct (Z.eqb_spec n 0); [lia|]. rewrite Eb, lenZ_app. pose proof (lenZ_nonneg b).
  destruct (Z.ltb_spec (lenZ (m_sIncoming s) + lenZ b) (e + 2 + n + 2)); [lia|].
  rewrite sub_app_l, Ec, sub_app_l by lia.
  match type of E with consume_chunks fuel ?x = _ => apply (IH x) in Hr end; [exact Hr|cbn; lia|done].
Qed.

Lemma consume_headers_ready fuel s : m_bHeadersReady s = true -> consume_headers fuel s = Ok (NeedMore s).
Proof. intros H. destruct fuel; cbn [consume_headers]; by rewrite H. Qed.

Lemma consume_headers_mono fuel fuel' s r :
  (fuel <= fuel')%nat -> consume_headers fuel s = Ok r -> consume_headers fuel' s = Ok r.
Proof.
  revert fuel' s; induction fuel as [|fuel IH]; intros fuel' s Hf E.
  - cbn [consume_headers] in E. destruct (m_bHeadersReady s) eqn:Er; [|done]. by rewrite consume_headers_ready.
  - destruct fuel' as [|fuel']; [lia|]. cbn [consume_headers] in *.
    destruct (m_bHeadersReady s); [done|]. destruct (find _ _ _); [|done]. destruct (kMaxHeader <? z); [done|].
    destruct (ParseHeaders z s) as [[ok s1]|]; cbn [rbind] in *; [|done].
    destruct (negb ok); [done|]. destruct (_ <? 200); [|done]. destruct (16 <? _); [done|]. apply IH; [lia|done].
Qed.

Lemma set_incoming_placed l s : m_bHeadersReady s = false -> placed (set_incoming l s).
Proof. intros H. unfold placed. cbn. congruence. Qed.

Lemma parse_line_flags pos e s ok s' :
  parse_line pos e s = Ok (ok, s') -> m_bHeadersReady s' = m_bHeadersReady s /\ m_bActive s' = m_bActive s.
Proof.
  unfold parse_line. repeat match goal with
  | |- context [match ?x with _ => _ end] => lazymatch x with NoteConnection _ _ => fail | _ => destruct x end
  end; try (by intros [= _ <-]).
  intros E. mono E. injection E as _ <-. unfold NoteConnection in E0. mono E0. destruct a0 as [[] []]; by injection E0 as <-.
Qed.

Lemma parse_lines_flags fuel h pos s ok s' :
  parse_lines fuel h pos s = Ok (ok, s') -> m_bHeadersReady s' = m_bHeadersReady s /\ m_bActive s' = m_bActive s.
Proof.
  revert pos s; induction fuel as [|fuel IH]; intros pos s; [done|]. cbn [parse_lines].
  destruct (h <=? pos); [by intros [= _ <-]|]. destruct (find _ _ _) as [e|]; [|by intros [= _ <-]].
  destruct (h <? e); [by intros [= _ <-]|].
  destruct (parse_line pos e s) as [[[] s1]|] eqn:E; cbn [rbind]; [..|done]; apply parse_line_flags in E as [E1 E2].
  - intros H. apply IH in H as [? ?]. split; congruence.
  - by intros [= _ <-].
Qed.

Lemma ParseHeaders_flags h s ok s' :
  ParseHeaders h s = Ok (ok, s') -> m_bHeadersReady s' = m_bHeadersReady s /\ m_bActive s' = m_bActive s.
Proof.
  unfold ParseHeaders. repeat match goal with
  | |- context [match ?x with _ => _ end] => lazymatch x with parse_lines _ _ _ _ => fail | _ => destruct x end
  end; try (by intros [= _ <-]).
  intros E. mono E. destruct a as [ok1 s1]. injection E as _ <-. by apply parse_lines_flags in E0.
Qed.

(** The end of a header block lies within the bytes. *)
Lemma header_end l h :
  find (CRLF ++ CRLF) l 0 = Some h -> 0 <= h /\ h + 4 <= lenZ l /\ find CRLF l h = Some h.
Proof.
  intros E. destruct (find_range _ _ _ _ (Z.le_refl 0) E) as [H1 H2]. split; [done|]. split; [done|].
  by apply (find_prefix CRLF CRLF l 0 h).
Qed.

Lemma consume_headers_ok fuel s :
  (length (m_sIncoming s) < fuel)%nat -> placed s ->
  exists r, consume_headers fuel s = Ok r /\
    match r with
    | NeedMore s' => placed s' /\ m_bActive s' = m_bActive s /\ (length (m_sIncoming s') <= length (m_sIncoming s))%nat
    | Through r => m_bActive s = true -> reported r
    end.
Proof.
  revert s; induction fuel as [|fuel IH]; intros s Hf Hpl; [lia|]. cbn [consume_headers].
  destruct (m_bHeadersReady s) eqn:Er; [by eexists|].
  destruct (find _ _ _) as [h|] eqn:Eh; [|destruct (_ <? _); [report|by eexists]].
  destruct (header_end _ _ Eh) as (H1 & H2 & _). destruct (kMaxHeader <? h); [report|].
  destruct (ParseHeaders_ok h s) as [[ok s1] E]. rewrite E. cbn [rbind].
  pose proof (ParseHeaders_incoming _ _ _ _ E) as Ei. apply ParseHeaders_flags in E as [E1 E2].
  destruct ok; cbn [negb]; [|eexists; split; [done|]; intros ?; apply Fail_reported; congruence].
  destruct (m_iStatus s1 <? 200).
  - cbn [m_iInterimResponses set_interim m_sIncoming]. destruct (16 <? _).
    { eexists; split; [done|]. intros ?. apply Fail_reported. cbn. congruence. }
    match goal with |- context [consume_headers fuel ?x] => destruct (IH x) as (r & -> & Hr) end.
    + cbn [m_sIncoming set_incoming]. rewrite length_drop, Ei. unfold lenZ in H2. lia.
    + unfold placed. cbn. congruence.
    + exists r. split; [done|]. destruct r as [s'|]; [|intros; apply Hr; cbn; congruence]. destruct Hr as (? & Ha & Hl). cbn in Ha, Hl.
      rewrite length_drop in Hl. split_and!; [done|congruence|rewrite <- Ei; lia].
  - eexists. split; [done|]. split_and!; [|done|cbn; by rewrite Ei].
    unfold placed. cbn. rewrite Ei. lia.
Qed.

(** The headers with more bytes behind them: nothing changes once they are
    complete, and otherwise reading goes on from where it stopped. *)
Lemma consume_headers_resume fuel b s s1 :
  (length (m_sIncoming s) < fuel)%nat -> consume_headers fuel s = Ok (NeedMore s1) ->
  if m_bHeadersReady s1 then consume_headers fuel (ext b s) = Ok (NeedMore (ext b s1))
  else forall f1 r, consume_headers f1 (ext b s1) = Ok r -> consume_headers (fuel + f1) (ext b s) = Ok r.
Proof.
  revert s; induction fuel as [|fuel IH]; intros s Hf E; [lia|].
  assert (m_bHeadersReady s = false -> s1 = s ->
    forall f1 r, consume_headers f1 (ext b s1) = Ok r -> consume_headers (S fuel + f1) (ext b s) = Ok r) as Hsame.
  { intros _ -> f1 r Hr. eapply consume_headers_mono; [|exact Hr]. lia. }
  cbn [consume_headers] in E. destruct (m_bHeadersReady s) eqn:Er.
  { injection E as <-. rewrite Er. by apply consume_headers_ready. }
  destruct (find (CRLF ++ CRLF) (m_sIncoming s) 0) as [h|] eqn:Eh.
  2:{ destruct (_ <? _); [done|]. injection E as <-. rewrite Er. by apply Hsame. }
  clear Hsame. destruct (header_end _ _ Eh) as (H1 & H2 & H3). destruct (kMaxHeader <? h) eqn:Ek; [done|].
  mono E. destruct a as [ok s2]. pose proof (ParseHeaders_incoming _ _ _ _ E0) as Ei.
  assert (forall g, consume_headers (S g) (ext b s) =
    if negb ok then Ok (Through (Fail (txt "status") (ext b s2)))
    else if m_iStatus s2 <? 200 then
      if 16 <? m_iInterimResponses s2 + 1
      then Ok (Through (Fail (txt "status") (set_interim (m_iInterimResponses s2 + 1) (ext b s2))))
      else consume_headers g (ext b (set_incoming (drop (Z.to_nat (h + 4)) (m_sIncoming s2))
                                       (set_interim (m_iInterimResponses s2 + 1) s2)))
    else Ok (NeedMore (ext b (set_headers_ready (h + 4) s2)))) as Estep.
  { intros g. cbn [consume_headers]. cbn [m_bHeadersReady m_sIncoming ext set_incoming]. rewrite Er.
    rewrite (find_app _ _ b _ _ (Z.le_refl 0) Eh), Ek.
    change (set_incoming (m_sIncoming s ++ b) s) with (ext b s).
    rewrite (ParseHeaders_ext b h s _ H1 ltac:(lia) H3 E0). cbn [ext_ok rbind].
    unfold ext, set_incoming, set_interim. cbn. rewrite Ei.
    rewrite drop_app_le by (unfold lenZ in H2; lia). done. }
  destruct ok; cbn [negb] in *; [|done]. destruct (m_iStatus s2 <? 200).
  - cbn [m_iInterimResponses set_interim m_sIncoming] in E. destruct (16 <? _); [done|].
    apply IH in E; [|cbn [m_sIncoming set_incoming]; rewrite length_drop, Ei; unfold lenZ in H2; lia].
    destruct (m_bHeadersReady s1); [by rewrite Estep|]. intros f1 r Hr. cbn [Nat.add]. rewrite Estep. by apply E.
  - injection E as <-. by rewrite Estep.
Qed.

(** ** A response in pieces *)

Lemma Consume_ok s :
  placed s ->
  exists r, Consume s = Ok r /\ match r with NeedMore s' => placed s' /\ m_bActive s' = m_bActive s
            | Through r => m_bActive s = true -> reported r end.
Proof.
  intros Hp. unfold Consume.
  destruct (consume_headers_ok (S (length (m_sIncoming s))) s) as (r & -> & Hr); [lia|done|]. cbn [rbind].
  destruct r as [s1|]; [|by eexists]. destruct Hr as (Hp1 & Ha & _).
  destruct (m_bHeadersReady s1) eqn:Er; [|by eexists]. unfold consume_body, ConsumeChunks.
  destruct (_ || _).
  { eexists; split; [done|]. intros ?. apply Succeed_reported. congruence. }
  destruct (m_bChunked s1).
  - destruct (Hp1 Er) as [H1 H2].
    destruct (consume_chunks_ok (S (length (m_sIncoming s1))) s1) as (r & -> & Hr); [done|unfold lenZ; lia|].
    exists r. split; [done|]. destruct r as [s2|]; [|intros; apply Hr; congruence]. destruct Hr as (E1 & E2 & E3 & E4 & E5 & _).
    split; [|congruence]. intros _. by rewrite E2, E3 in *.
  - destruct (negb _); [by eexists|]. destruct (_ <? _); [by eexists|].
    eexists; split; [done|]. intros ?. apply Succeed_reported. cbn. congruence.
Qed.

Lemma Consume_resume b s s' r :
  placed s -> Consume s = Ok (NeedMore s') -> Consume (ext b s') = Ok r -> Consume (ext b s) = Ok r.
Proof.
  intros Hp E Hr. unfold Consume in E. mono E.
  destruct (consume_headers_ok (S (length (m_sIncoming s))) s) as (a' & Ea & Hok); [lia|done|].
  rewrite E0 in Ea. injection Ea as <-. destruct a as [s1|]; [|done]. destruct Hok as (Hp1 & Ha & Hlen).
  pose proof (consume_headers_resume (S (length (m_sIncoming s))) b s s1 ltac:(lia) E0) as Hres.
  assert (forall g x, consume_headers g (ext b s) = Ok x -> consume_headers (S (length (m_sIncoming (ext b s)))) (ext b s) = Ok x) as Hdet.
  { intros g x Hx. destruct (consume_headers_ok (S (length (m_sIncoming (ext b s)))) (ext b s)) as (y & Ey & _); [lia| |].
    - unfold placed in *. cbn. rewrite lenZ_app. pose proof (lenZ_nonneg b). intros Hh. specialize (Hp Hh). lia.
    - rewrite Ey. apply (consume_headers_mono _ (Nat.max g (S (length (m_sIncoming (ext b s)))))) in Ey; [|lia].
      apply (consume_headers_mono _ (Nat.max g (S (length (m_sIncoming (ext b s)))))) in Hx; [|lia]. congruence. }
  destruct (m_bHeadersReady s1) eqn:Er.
  - unfold Consume. rewrite (Hdet _ _ Hres). cbn [rbind]. cbn [m_bHeadersReady ext set_incoming]. rewrite Er.
    change (set_incoming (m_sIncoming s1 ++ b) s1) with (ext b s1).
    destruct (Hp1 Er) as [Hc Hb].
    unfold consume_body in E |- *. cbn [m_iStatus m_bChunked m_bHasLength ext set_incoming].
    change (set_incoming (m_sIncoming s1 ++ b) s1) with (ext b s1).
    destruct (_ || _) eqn:Est; [done|]. destruct (m_bChunked s1) eqn:Ech.
    + unfold ConsumeChunks in E |- *.
      destruct (consume_chunks_ok (S (length (m_sIncoming s1))) s1) as (r2 & Er2 & Hr2); [done|unfold lenZ; lia|].
      rewrite E in Er2. injection Er2 as <-. destruct Hr2 as (F1 & F2 & F3 & F4 & F5 & F6 & F7).
      assert (Consume (ext b s') = consume_chunks (S (length (m_sIncoming (ext b s')))) (ext b s')) as Ecc.
      { unfold Consume. rewrite consume_headers_ready by (cbn; congruence). cbn [rbind].
        cbn [m_bHeadersReady ext set_incoming]. rewrite F4, Er. unfold consume_body.
        cbn [m_iStatus m_bChunked set_incoming ext]. by rewrite F7, Est, F6, Ech. }
      rewrite Ecc in Hr. pose proof (consume_chunks_resume _ _ b s1 s' r Hc E Hr) as Hall.
      destruct (consume_chunks_ok (S (length (m_sIncoming (ext b s1)))) (ext b s1)) as (y & Ey & _).
      { cbn. rewrite lenZ_app. pose proof (lenZ_nonneg b). lia. }
      { unfold lenZ. cbn [m_iChunkPosition ext set_incoming]. lia. }
      rewrite Ey. set (n1 := S (length (m_sIncoming (ext b s1)))) in *.
      match type of Hall with consume_chunks ?n _ = _ => set (n2 := n) in * end.
      apply (consume_chunks_mono n1 (Nat.max n1 n2)) in Ey; [|lia].
      apply (consume_chunks_mono n2 (Nat.max n1 n2)) in Hall; [|lia]. congruence.
    + assert (m_bHasLength s1 = false /\ s' = set_close true s1 \/ m_bHasLength s1 = true /\ s' = s1) as Hs'.
      { destruct (m_bHasLength s1); cbn [negb] in E; [|left; split; congruence].
        right. destruct (_ <? _); [|done]. split; congruence. }
      unfold Consume in Hr. rewrite consume_headers_ready in Hr by (cbn; destruct Hs' as [[_ ->]|[_ ->]]; done).
      cbn [rbind] in Hr. cbn [m_bHeadersReady ext set_incoming] in Hr.
      destruct Hs' as [[Hh ->]|[Hh ->]]; cbn [m_bHeadersReady set_close] in Hr; rewrite Er in Hr;
        unfold consume_body in Hr; cbn in Hr |- *; rewrite Est, Ech in Hr; rewrite Hh in Hr |- *; exact Hr.
  - injection E as <-. unfold Consume in Hr |- *. mono Hr.
    rewrite (Hdet _ _ (Hres _ _ E)). cbn [rbind]. exact Hr.
Qed.

Lemma OnDataIn_active i s :
  placed s -> m_bActive s = true -> lenZ (m_sIncoming s) + lenZ i <= kMaxHeader + kMaxBody ->
  OnDataIn i s = (let! r := Consume (ext i s) in
                  match r with NeedMore s => Ok (s, None, false) | Through r => Ok (r, false) end).
Proof.
  intros Hp Ha Hl. unfold OnDataIn. rewrite Ha. cbn [negb].
  destruct (Z.ltb_spec (kMaxHeader + kMaxBody) (lenZ (m_sIncoming s) + lenZ i)); [lia|]. done.
Qed.

Lemma placed_ext b s : placed s -> placed (ext b s).
Proof.
  unfold placed. cbn. rewrite lenZ_app. pose proof (lenZ_nonneg b). intros Hp Hr. specialize (Hp Hr). lia.
Qed.

(** Consume never lengthens the buffer. *)
Lemma Consume_incoming s s' : placed s -> Consume s = Ok (NeedMore s') -> lenZ (m_sIncoming s') <= lenZ (m_sIncoming s).
Proof.
  intros Hp E. unfold Consume in E. mono E.
  destruct (consume_headers_ok (S (length (m_sIncoming s))) s) as (a' & Ea & Hok); [lia|done|].
  rewrite E0 in Ea. injection Ea as <-. destruct a as [s1|]; [|done]. destruct Hok as (Hp1 & Ha & Hlen).
  assert (m_sIncoming s' = m_sIncoming s1) as ->; [|unfold lenZ; lia].
  destruct (m_bHeadersReady s1) eqn:Er; [|by injection E as <-].
  unfold consume_body, ConsumeChunks in E. destruct (_ || _); [done|]. destruct (m_bChunked s1).
  - destruct (Hp1 Er) as [Hc _].
    destruct (consume_chunks_ok (S (length (m_sIncoming s1))) s1) as (r2 & Er2 & Hr2); [done|unfold lenZ; lia|].
    rewrite E in Er2. injection Er2 as <-. tauto.
  - destruct (negb _); [by injection E as <-|]. destruct (_ <? _); [by injection E as <-|done].
Qed.

(** One piece that leaves the response open. *)
Lemma OnDataIn_open a s s1 idle :
  placed s -> m_bActive s = true -> lenZ (m_sIncoming s) + lenZ a <= kMaxHeader + kMaxBody ->
  OnDataIn a s = Ok (s1, None, idle) ->
  Consume (ext a s) = Ok (NeedMore s1) /\ placed s1 /\ m_bActive s1 = true /\
  lenZ (m_sIncoming s1) <= lenZ (m_sIncoming s) + lenZ a.
Proof.
  intros Hp Ha Hl E. rewrite OnDataIn_active in E by done.
  destruct (Consume_ok (ext a s) (placed_ext a s Hp)) as (r & Er & Hr). rewrite Er in E. cbn [rbind] in E.
  destruct r as [s2|[s2 f]].
  - injection E as <- _. destruct Hr as [Hp2 Ha2]. split; [done|]. split_and!; [done|by rewrite Ha2|].
    pose proof (Consume_incoming _ _ (placed_ext a s Hp) Er) as Hi. cbn in Hi. rewrite lenZ_app in Hi. lia.
  - destruct (Hr Ha) as [[f' Hf] _]. cbn in Hf. subst f. done.
Qed.

(** The pieces of a response one after another, up to its end. *)
Fixpoint feed (ps : list (list byte)) (s : session) : result (session * option finished) :=
  match ps with
  | [] => Ok (s, None)
  | p :: ps =>
      let! (s, f, _) := OnDataIn p s in
      match f with
      | Some _ => Ok (s, f)
      | None => feed ps s
      end
  end.

Lemma OnDataIn_total i s : placed s -> exists r, OnDataIn i s = Ok r.
Proof.
  intros Hp. unfold OnDataIn. destruct (negb _); [by eexists|]. destruct (_ <? _); [by eexists|].
  destruct (Consume_ok (ext i s) (placed_ext i s Hp)) as (r & Er & _).
  change (set_incoming (m_sIncoming s ++ i) s) with (ext i s). rewrite Er. cbn [rbind]. destruct r; by eexists.
Qed.

Lemma feed_spec ps s a s1 idle :
  placed s -> m_bActive s = true ->
  lenZ (m_sIncoming s) + lenZ a + lenZ (concat ps) <= kMaxHeader + kMaxBody ->
  OnDataIn a s = Ok (s1, None, idle) ->
  exists k s' f, feed ps s1 = Ok (s', f) /\ (k <= length ps)%nat /\ (f = None -> k = length ps) /\
    OnDataIn (a ++ concat (take k ps)) s = Ok (s', f, false).
Proof.
  revert a s1 idle; induction ps as [|p ps IH]; intros a s1 idle Hp Ha Hl E; cbn [feed].
  - exists 0%nat, s1, None. split_and!; try done. cbn [take concat]. rewrite app_nil_r.
    cbn [concat] in Hl. rewrite lenZ_nil in Hl. rewrite OnDataIn_active in E |- * by (done || lia).
    mono E. rewrite E0. cbn [rbind]. by destruct a0; injection E as -> <-.
  - cbn [concat] in Hl. rewrite lenZ_app in Hl. pose proof (lenZ_nonneg (concat ps)).
    destruct (OnDataIn_open a s s1 idle Hp Ha ltac:(pose proof (lenZ_nonneg p); lia) E) as (Ec & Hp1 & Ha1 & Hl1).
    assert (OnDataIn p s1 = OnDataIn (a ++ p) s) as Eq.
    { rewrite !OnDataIn_active by (done || (rewrite ?lenZ_app; lia)).
      destruct (Consume_ok (ext p s1) (placed_ext p s1 Hp1)) as (r & Er & _). rewrite Er.
      rewrite <- ext_ext. by rewrite (Consume_resume p (ext a s) s1 r (placed_ext a s Hp) Ec Er). }
    destruct (OnDataIn_total p s1 Hp1) as [[[s2 f] idle2] E2]. rewrite E2. cbn [rbind]. rewrite E2 in Eq.
    destruct f as [f|].
    + exists 1%nat, s2, (Some f). split_and!; [done|simpl; lia|done|]. cbn [take concat]. rewrite take_0. cbn [concat].
      rewrite app_nil_r, <- Eq. do 2 f_equal.
      rewrite OnDataIn_active in E2 by (done || lia). mono E2. destruct a0; [done|by injection E2 as _ <-].
    + destruct (IH (a ++ p) s2 idle2 Hp Ha) as (k & s' & f & Ef & Hk & Hn & Eo); [rewrite lenZ_app; lia|done|].
      exists (S k), s', f. split_and!; [done|simpl; lia|intros Hf; simpl; f_equal; by apply Hn|].
      cbn [take concat]. by rewrite app_assoc.
Qed.

(** ** More bytes behind a response that has ended *)

(** The report of a success stays, but that bytes are left over closes the connection; the
    report of a failure stays. *)
Definition steady (b : list byte) (r r' : session * option finished) : Prop :=
  exists f f', snd r = Some f /\ snd r' = Some f' /\
    (f_bFail f = false -> f' = mkFinished false [] (f_bClose f || (0 <? lenZ b)) (f_iStatus f) (f_sBody f)) /\
    (f_bFail f = true -> f' = f).

(** A failure that more bytes could have prevented: at the end of the bytes [l] lies a header
    block, or the line of a chunk's size, that is longer than its limit and has no end. *)
Definition too_long (l : list byte) (f : finished) : Prop :=
  f_bFail f = true /\ exists pre tail, l = pre ++ tail /\
    ((f_pWhy f = txt "header" /\ kMaxHeader < lenZ tail /\ find (CRLF ++ CRLF) tail 0 = None) \/
     (f_pWhy f = txt "chunk" /\ 1024 < lenZ tail /\ find CRLF tail 0 = None)).

Definition goes_on (b : list byte) (l : list byte) (r : session * option finished) (x : result consumed) : Prop :=
  (exists f, snd r = Some f /\ too_long l f) \/ exists r', x = Ok (Through r') /\ steady b r r'.

Lemma goes_on_behind b pre l r x : goes_on b l r x -> goes_on b (pre ++ l) r x.
Proof. intros [(f & Ef & Hf & p & t & -> & H)|H]; [|by right]. left. exists f. split; [done|]. split; [done|]. exists (pre ++ p), t. by rewrite app_assoc. Qed.

Lemma Succeed_steady b n s : m_bActive s = true -> n <= lenZ (m_sIncoming s) -> steady b (Succeed n s) (Succeed n (ext b s)).
Proof.
  intros Ha Hn. unfold Succeed. cbn [m_bActive ext set_incoming m_sIncoming]. rewrite Ha, lenZ_app. cbn [negb]. pose proof (lenZ_nonneg b). do 2 eexists. split; [done|]. split; [done|]. split; [|done]. intros _.
  destruct (Z.ltb_spec n (lenZ (m_sIncoming s))); [rewrite (proj2 (Z.ltb_lt n _)) by lia; done|]. destruct (Z.ltb_spec 0 (lenZ b)); [rewrite (proj2 (Z.ltb_lt n _)) by lia|rewrite (proj2 (Z.ltb_ge n _)) by lia]; cbn; by rewrite ?orb_true_r, ?orb_false_r.
Qed.

Lemma Fail_steady b w s : m_bActive s = true -> steady b (Fail w s) (Fail w (ext b s)).
Proof. intros Ha. unfold Fail. cbn [m_bActive ext set_incoming]. rewrite Ha. cbn [negb]. do 2 eexists. by split_and!. Qed.

Lemma Fail_header b l s x : m_bActive s = true -> kMaxHeader < lenZ l -> find (CRLF ++ CRLF) l 0 = None -> goes_on b l (Fail (txt "header") s) x.
Proof. intros Ha Hl Hf. left. unfold Fail. rewrite Ha. eexists. split; [done|]. split; [done|]. exists [], l. split; [done|]. by left. Qed.

Lemma Fail_chunk b l s x pos : m_bActive s = true -> 0 <= pos <= lenZ l -> 1024 < lenZ l - pos -> find CRLF l pos = None -> goes_on b l (Fail (txt "chunk") s) x.
Proof.
  intros Ha Hp Hl Hf. left. unfold Fail. rewrite Ha. eexists. split; [done|]. split; [done|]. exists (take (Z.to_nat pos) l), (drop (Z.to_nat pos) l). rewrite take_drop. split; [done|]. right.
  assert (lenZ (drop (Z.to_nat pos) l) = lenZ l - pos) as El by (unfold lenZ in *; rewrite length_drop; lia). split; [done|]. rewrite El. split; [done|].
  unfold find in Hf |- *. rewrite (proj2 (Z.ltb_ge (lenZ l) pos)) in Hf by lia. rewrite El, (proj2 (Z.ltb_ge (lenZ l - pos) 0)) by lia. cbn [Z.to_nat]. rewrite drop_0.
  rewrite <- (Z.add_0_l pos), find_from_shift, Z.add_0_l in Hf. by destruct (find_from _ _ 0).
Qed.

Lemma skip_trailer_through fuel b pos s r : 0 <= pos -> m_bActive s = true -> skip_trailer fuel pos s = Ok (Through r) -> exists r', skip_trailer fuel pos (ext b s) = Ok (Through r') /\ steady b r r'.
Proof.
  revert pos; induction fuel as [|fuel IH]; intros pos Hp Ha; [done|]. cbn [skip_trailer]. cbn [m_sIncoming ext set_incoming]. destruct (find CRLF (m_sIncoming s) pos) as [e|] eqn:Ef; [|done].
  rewrite (find_app _ _ b _ _ Hp Ef). destruct (find_range _ _ _ _ Hp Ef) as [H1 H2]. change (lenZ CRLF) with 2 in H2. destruct (e =? pos); [|apply IH; [lia|done]]. intros [= <-]. eexists. split; [done|]. by apply (Succeed_steady b (e + 2) s).
Qed.

Lemma consume_chunks_through fuel f' b s r : (fuel <= f')%nat -> 0 <= m_iChunkPosition s <= lenZ (m_sIncoming s) -> m_bActive s = true -> consume_chunks fuel s = Ok (Through r) ->
  goes_on b (m_sIncoming s) r (consume_chunks f' (ext b s)).
Proof.
  revert f' s; induction fuel as [|fuel IH]; intros f' s Hf Hp Ha E; [done|]. destruct f' as [|f']; [lia|]. cbn [consume_chunks] in *. cbn [m_sIncoming m_iChunkPosition m_sBody ext set_incoming] in *.
  destruct (find CRLF (m_sIncoming s) (m_iChunkPosition s)) as [e|] eqn:Ef.
  2:{ destruct (Z.ltb_spec 1024 (lenZ (m_sIncoming s) - m_iChunkPosition s)); [|done]. injection E as <-. by eapply Fail_chunk. }
  rewrite (find_app _ _ b _ _ (proj1 Hp) Ef). destruct (find_range _ _ _ _ (proj1 Hp) Ef) as [H1 H2]. change (lenZ CRLF) with 2 in H2. rewrite ParseHex_app by lia.
  destruct (ParseHex _ _ _) as [n|] eqn:Eh; [|injection E as <-; right; eexists; split; [done|by apply (Fail_steady b (txt "chunk") s)]]. apply parse_hex_nonneg in Eh as Hn; [|done].
  destruct (Z.eqb_spec n 0) as [En|En].
  { right. destruct (skip_trailer_through _ b (e + 2) s r ltac:(lia) Ha E) as (r' & Er & Hs). exists r'. split; [|done]. eapply skip_trailer_mono; [|exact Er]. rewrite length_app. lia. }
  destruct (_ || _) eqn:Eb; [injection E as <-; right; eexists; split; [done|by apply (Fail_steady b (txt "size") s)]|].
  destruct (Z.ltb_spec (lenZ (m_sIncoming s)) (e + 2 + n + 2)) as [Hl|Hl]; [done|]. rewrite lenZ_app. pose proof (lenZ_nonneg b). destruct (Z.ltb_spec (lenZ (m_sIncoming s) + lenZ b) (e + 2 + n + 2)); [lia|].
  rewrite !sub_app_l by lia. destruct (negb _) eqn:Ec; [injection E as <-; right; eexists; split; [done|by apply (Fail_steady b (txt "chunk") s)]|].
  match type of E with consume_chunks fuel ?x = _ => apply (IH f' x) in E end; [exact E|lia|cbn; lia|done].
Qed.

(** The headers, complete or refused. *)
Lemma consume_headers_through fuel f' b s r : (fuel <= f')%nat -> m_bActive s = true -> consume_headers fuel s = Ok (Through r) -> goes_on b (m_sIncoming s) r (consume_headers f' (ext b s)).
Proof.
  revert f' s; induction fuel as [|fuel IH]; intros f' s Hf Ha E; cbn [consume_headers] in E; (destruct (m_bHeadersReady s) eqn:Er; [done|]); [done|]. destruct f' as [|f']; [lia|]. cbn [consume_headers]. cbn [m_bHeadersReady m_sIncoming ext set_incoming]. rewrite Er.
  destruct (find (CRLF ++ CRLF) (m_sIncoming s) 0) as [h|] eqn:Eh.
  2:{ destruct (Z.ltb_spec kMaxHeader (lenZ (m_sIncoming s))); [|done]. injection E as <-. by apply Fail_header. }
  rewrite (find_app _ _ b _ _ (Z.le_refl 0) Eh). destruct (header_end _ _ Eh) as (H1 & H2 & H3). destruct (kMaxHeader <? h).
  { injection E as <-. right. eexists. split; [done|]. by apply (Fail_steady b (txt "status") s). }
  mono E. destruct a as [ok s2]. pose proof (ParseHeaders_incoming _ _ _ _ E0) as Ei. destruct (ParseHeaders_flags _ _ _ _ E0) as [_ Ea]. rewrite Ha in Ea.
  change (set_incoming (m_sIncoming s ++ b) s) with (ext b s). rewrite (ParseHeaders_ext b h s _ H1 ltac:(lia) H3 E0). cbn [ext_ok rbind].
  destruct ok; cbn [negb] in *; [|injection E as <-; right; eexists; split; [done|by apply (Fail_steady b (txt "status") s2)]].
  cbn [m_iStatus ext set_incoming]. destruct (m_iStatus s2 <? 200); [|done]. cbn [m_iInterimResponses set_interim ext set_incoming m_sIncoming] in *. destruct (16 <? _).
  { injection E as <-. right. eexists. split; [done|]. by apply (Fail_steady b (txt "status") (set_interim (m_iInterimResponses s2 + 1) s2)). }
  apply (IH f') in E; [|lia|done]. cbn [m_sIncoming set_incoming] in E. rewrite <- (take_drop (Z.to_nat (h + 4)) (m_sIncoming s)). apply goes_on_behind. rewrite <- Ei at 1.
  match type of E with goes_on _ _ _ (consume_headers _ ?x) => match goal with |- goes_on _ _ _ (consume_headers _ ?y) => replace y with x; [exact E|] end end.
  unfold ext, set_incoming, set_interim. cbn. rewrite Ei. by rewrite drop_app_le by (unfold lenZ in H2; lia).
Qed.

Lemma consume_headers_suffix fuel s s1 : consume_headers fuel s = Ok (NeedMore s1) -> exists pre, m_sIncoming s = pre ++ m_sIncoming s1.
Proof.
  revert s; induction fuel as [|fuel IH]; intros s E; cbn [consume_headers] in E; (destruct (m_bHeadersReady s); [injection E as <-; by exists []|]); [done|]. destruct (find _ _ _) as [h|]; [|destruct (_ <? _); [done|injection E as <-; by exists []]].
  destruct (kMaxHeader <? h); [done|]. destruct (ParseHeaders h s) as [[ok s2]|] eqn:E0; [|done]. pose proof (ParseHeaders_incoming _ _ _ _ E0) as Ei. cbn [rbind] in E. destruct (negb ok); [done|]. destruct (_ <? 200); [|injection E as <-; exists []; by rewrite <- Ei].
  cbn [m_iInterimResponses set_interim m_sIncoming] in E. destruct (16 <? _); [done|]. apply IH in E as (pre & E). cbn [m_sIncoming set_incoming] in E. exists (take (Z.to_nat (h + 4)) (m_sIncoming s) ++ pre). rewrite <- app_assoc, <- E, Ei. by rewrite take_drop.
Qed.

Lemma Consume_through b s r : placed s -> m_bActive s = true -> Consume s = Ok (Through r) -> goes_on b (m_sIncoming s) r (Consume (ext b s)).
Proof.
  intros Hp Ha E. unfold Consume in E. mono E. destruct (consume_headers_ok (S (length (m_sIncoming s))) s) as (a' & Ea & Hok); [lia|done|]. rewrite E0 in Ea. injection Ea as <-.
  assert (S (length (m_sIncoming s)) <= S (length (m_sIncoming (ext b s))))%nat as Hfuel by (cbn; rewrite length_app; lia).
  destruct a as [s1|r1].
  2:{ injection E as ->. destruct (consume_headers_through _ _ b s r Hfuel Ha E0) as [H|(r' & Er & Hs)]; [by left|]. right. exists r'. unfold Consume. by rewrite Er. }
  destruct Hok as (Hp1 & Ha1 & _). rewrite Ha in Ha1. destruct (m_bHeadersReady s1) eqn:Er; [|done]. destruct (consume_headers_suffix _ _ _ E0) as [pre Epre]. pose proof (consume_headers_resume (S (length (m_sIncoming s))) b s s1 ltac:(lia) E0) as Hres. rewrite Er in Hres.
  apply (consume_headers_mono _ _ _ _ Hfuel) in Hres. unfold Consume. rewrite Hres. cbn [rbind]. cbn [m_bHeadersReady ext set_incoming]. rewrite Er. change (set_incoming (m_sIncoming s1 ++ b) s1) with (ext b s1).
  rewrite Epre. apply goes_on_behind. destruct (Hp1 Er) as [Hc Hb]. unfold consume_body in E |- *. cbn [m_iStatus m_bChunked m_bHasLength m_iHeaderBytes m_iContentLength ext set_incoming m_sIncoming]. change (set_incoming (m_sIncoming s1 ++ b) s1) with (ext b s1).
  destruct (_ || _) eqn:Est; [injection E as <-; right; eexists; split; [done|apply (Succeed_steady b _ s1); [done|lia]]|]. destruct (m_bChunked s1) eqn:Ech.
  - unfold ConsumeChunks in *. eapply consume_chunks_through; [|done|done|exact E]. cbn. rewrite length_app. lia.
  - destruct (negb (m_bHasLength s1)); [done|]. rewrite lenZ_app. pose proof (lenZ_nonneg b). destruct (Z.ltb_spec (lenZ (m_sIncoming s1) - m_iHeaderBytes s1) (m_iContentLength s1)) as [Hl|Hl]; [done|].
    injection E as <-. right. destruct (Z.ltb_spec (lenZ (m_sIncoming s1) + lenZ b - m_iHeaderBytes s1) (m_iContentLength s1)); [lia|]. eexists. split; [done|].
    assert (sub (m_iHeaderBytes s1) (m_iContentLength s1) (m_sIncoming s1 ++ b) = sub (m_iHeaderBytes s1) (m_iContentLength s1) (m_sIncoming s1)) as ->.
    { destruct (Z.leb_spec 0 (m_iContentLength s1)); [by rewrite sub_app_l by lia|]. unfold sub. by replace (Z.to_nat (m_iContentLength s1)) with 0%nat by lia. }
    apply (Succeed_steady b _ (set_body (sub (m_iHeaderBytes s1) (m_iContentLength s1) (m_sIncoming s1)) s1)); [done|cbn; lia].
Qed.

(** ** A header block, line by line *)

(** A line on its own, as if it were all there is. *)
Definition line_effect (l : list byte) (s : session) : result (bool * session) :=
  let! (ok, s') := parse_line 0 (lenZ l) (set_incoming l s) in Ok (ok, set_incoming (m_sIncoming s) s').

Lemma set_incoming_same s : set_incoming (m_sIncoming s) s = s.
Proof. by destruct s. Qed.

Lemma NoteConnection_set v l s :
  NoteConnection v (set_incoming l s) = let! s' := NoteConnection v s in Ok (set_incoming l s').
Proof. unfold NoteConnection. destruct (note_tokens _ _ _ _ _) as [[[] []]|]; done. Qed.

Lemma EqName_shift pre l p e name : 0 <= p -> EqName (pre ++ l) (lenZ pre + p) (lenZ pre + e) name = EqName l p e name.
Proof.
  intros. unfold EqName. rewrite sub_shift by done.
  destruct (Z.ltb_spec (lenZ pre + e) (lenZ pre + p + lenZ name)), (Z.ltb_spec e (p + lenZ name)); done || lia.
Qed.

Lemma ParseU64_shift pre l p e : 0 <= p -> ParseU64 (pre ++ l) (lenZ pre + p) (lenZ pre + e) = ParseU64 l p e.
Proof.
  intros. unfold ParseU64. rewrite at_shift, range_shift by done.
  destruct (Z.leb_spec (lenZ pre + e) (lenZ pre + p)), (Z.leb_spec e p); done || lia.
Qed.


Lemma parse_line_shift pre l p e s :
  0 <= p <= e -> e <= lenZ l ->
  parse_line (lenZ pre + p) (lenZ pre + e) (set_incoming (pre ++ l) s) =
  (let! (ok, s') := parse_line p e (set_incoming l s) in Ok (ok, set_incoming (pre ++ l) s')).
Proof.
  intros Hp He. unfold parse_line. cbn [m_sIncoming set_incoming]. rewrite find_shift by lia.
  destruct (find (txt ":") l p) as [c|] eqn:Ef; cbn [fmap option_fmap option_map]; [|done].
  destruct (find_range _ _ _ _ (proj1 Hp) Ef) as [Hc1 Hc2]. change (lenZ (txt ":")) with 1 in Hc2.
  destruct (Z.ltb_spec (lenZ pre + c) (lenZ pre + e)), (Z.ltb_spec c e) as [Hc|Hc]; try lia; [|done].
  replace (lenZ pre + c + 1) with (lenZ pre + (c + 1)) by lia. rewrite (range_shift (c + 1)) by lia.
  pose proof (skipped_start is_blank (c + 1) e l ltac:(lia) He) as Hv.
  set (w := span_while is_blank (range (c + 1) e l)) in *.
  replace (lenZ pre + (c + 1) + w) with (lenZ pre + (c + 1 + w)) by lia. set (v := c + 1 + w) in *.
  rewrite (range_shift v e) by lia.
  pose proof (trimmed_end is_blank v e l ltac:(lia) He) as Hve.
  replace (lenZ pre + e - span_while is_blank (rev (range v e l)))
    with (lenZ pre + (e - span_while is_blank (rev (range v e l)))) by lia.
  set (ve := e - span_while is_blank (rev (range v e l))) in *.
  rewrite (range_shift p c) by lia.
  replace (lenZ pre + c - span_while (fun b => byteZ b =? 32) (rev (range p c l)))
    with (lenZ pre + (c - span_while (fun b => byteZ b =? 32) (rev (range p c l)))) by lia.
  set (ne := c - span_while (fun b => byteZ b =? 32) (rev (range p c l))) in *.
  rewrite !EqName_shift, ParseU64_shift, (range_shift v ve) by lia.
  assert (forall name : list byte, (lenZ pre + p + lenZ name =? lenZ pre + ne) = (p + lenZ name =? ne)) as Hn.
  { intros name. destruct (Z.eqb_spec (lenZ pre + p + lenZ name) (lenZ pre + ne)), (Z.eqb_spec (p + lenZ name) ne); done || lia. }
  rewrite !Hn. cbn [m_iStatus m_bHasLength m_iContentLength m_bChunked set_incoming].
  repeat match goal with
  | |- context [if ?x then _ else _] => destruct x
  | |- context [match ParseU64 ?a ?p ?q with _ => _ end] => destruct (ParseU64 a p q)
  end; try done.
  rewrite !NoteConnection_set. by destruct (NoteConnection _ s).
Qed.

(** A line in the bytes received has the effect it has on its own. *)
Lemma parse_line_at pre l suf s :
  m_sIncoming s = pre ++ l ++ suf -> parse_line (lenZ pre) (lenZ pre + lenZ l) s = line_effect l s.
Proof.
  intros E. pose proof (lenZ_nonneg l). rewrite <- (set_incoming_same s) at 1. rewrite E.
  pose proof (parse_line_shift pre (l ++ suf) 0 (lenZ l) s ltac:(lia) ltac:(rewrite lenZ_app; pose proof (lenZ_nonneg suf); lia)) as Hs.
  rewrite Z.add_0_r in Hs. rewrite Hs.
  pose proof (parse_line_ext suf 0 (lenZ l) (set_incoming l s) ltac:(lia) ltac:(cbn; lia)) as He.
  change (ext suf (set_incoming l s)) with (set_incoming (l ++ suf) s) in He. rewrite He.
  unfold line_effect, ext_ok. destruct (parse_line 0 (lenZ l) (set_incoming l s)) as [[ok s1]|]; cbn [rbind]; [|done].
  by rewrite <- E.
Qed.

Fixpoint lines_effect (ls : list (list byte)) (s : session) : result (bool * session) :=
  match ls with
  | [] => Ok (true, s)
  | l :: ls =>
      let! (ok, s) := line_effect l s in
      if ok then lines_effect ls s else Ok (false, s)
  end.

Definition header_block (ls : list (list byte)) : list byte := concat (map (fun l => l ++ CRLF) ls).

(** A header line: not empty, without CR. *)
Definition line_ok (l : list byte) : Prop := l <> [] /\ no_byte CR l.

Lemma line_effect_incoming l s ok s' : line_effect l s = Ok (ok, s') -> m_sIncoming s' = m_sIncoming s.
Proof. unfold line_effect. destruct (parse_line _ _ _) as [[? ?]|]; cbn; [|done]. by intros [= _ <-]. Qed.

Lemma header_block_len ls : Forall line_ok ls -> 3 * Z.of_nat (length ls) <= lenZ (header_block ls).
Proof.
  induction 1 as [|l ls [Hl _] Hls IH]; [done|]. unfold header_block in *. cbn [map concat length].
  rewrite !lenZ_app. destruct l; [done|]. rewrite lenZ_cons. change (lenZ CRLF) with 2. pose proof (lenZ_nonneg l). lia.
Qed.

Lemma parse_lines_block fuel pre ls rest s :
  Forall line_ok ls -> m_sIncoming s = pre ++ header_block ls ++ CRLF ++ rest -> (length ls < fuel)%nat ->
  parse_lines fuel (lenZ pre + lenZ (header_block ls) - 2) (lenZ pre) s = lines_effect ls s.
Proof.
  intros Hls; revert fuel pre s; induction Hls as [|l ls [Hne Hcr] Hls IH]; intros fuel pre s E Hf;
    (destruct fuel as [|fuel]; [simpl in Hf; lia|]); cbn [parse_lines].
  - change (lenZ (header_block [])) with 0. destruct (Z.leb_spec (lenZ pre + 0 - 2) (lenZ pre)); [done|lia].
  - unfold header_block in *. cbn [map concat] in *. rewrite !lenZ_app in *. change (lenZ CRLF) with 2 in *.
    assert (0 < lenZ l) by (destruct l; [done|]; rewrite lenZ_cons; pose proof (lenZ_nonneg l); lia).
    pose proof (lenZ_nonneg (concat (map (fun l0 => l0 ++ CRLF) ls))) as Hc.
    destruct (Z.leb_spec (lenZ pre + (lenZ l + 2 + lenZ (concat (map (fun l0 => l0 ++ CRLF) ls))) - 2) (lenZ pre)); [lia|].
    assert (m_sIncoming s = pre ++ l ++ CRLF ++ (concat (map (fun l0 => l0 ++ CRLF) ls) ++ CRLF ++ rest)) as E2
      by (rewrite E; by rewrite <- !app_assoc).
    rewrite E2 at 1. rewrite (find_after CR [LF] pre l) by exact Hcr.
    destruct (Z.ltb_spec (lenZ pre + (lenZ l + 2 + lenZ (concat (map (fun l0 => l0 ++ CRLF) ls))) - 2) (lenZ pre + lenZ l)); [lia|].
    rewrite (parse_line_at pre l _ s E2). cbn [lines_effect].
    destruct (line_effect l s) as [[ok s1]|] eqn:El; cbn [rbind]; [|done]. destruct ok; [|done].
    rewrite <- (IH fuel (pre ++ l ++ CRLF) s1).
    + rewrite !lenZ_app. change (lenZ CRLF) with 2. f_equal; lia.
    + rewrite (line_effect_incoming _ _ _ _ El), E2. by rewrite <- !app_assoc.
    + simpl in Hf. lia.
Qed.

Lemma find_header_end ls rest :
  Forall line_ok ls -> ls <> [] ->
  find (CRLF ++ CRLF) (header_block ls ++ CRLF ++ rest) 0 = Some (lenZ (header_block ls) - 2).
Proof.
  intros Hls Hne. unfold find. rewrite (proj2 (Z.ltb_ge _ _) (lenZ_nonneg _)).
  change (drop (Z.to_nat 0) ?l) with l. change (CRLF ++ CRLF) with [CR; LF; CR; LF].
  assert (forall i, find_from [CR; LF; CR; LF] (header_block ls ++ CRLF ++ rest) i = Some (i + (lenZ (header_block ls) - 2))) as Hf.
  - induction Hls as [|l ls [Hl Hcr] Hls IH]; [done|]. intros i. unfold header_block in *. cbn [map concat].
    rewrite <- !app_assoc, find_from_skip by exact Hcr. rewrite !lenZ_app. change (lenZ CRLF) with 2.
    destruct Hls as [|l' ls [Hl' Hcr'] Hls].
    + cbn [map concat]. change (CRLF ++ [] ++ CRLF ++ rest) with ([CR; LF; CR; LF] ++ rest).
      rewrite find_from_here, lenZ_nil. f_equal. lia.
    + assert (forall X j, find_from [CR; LF; CR; LF] X (j + 2) = find_from [CR; LF; CR; LF] (CRLF ++ X) j
                \/ starts CRLF X = true) as Hstep.
      { intros X j. change (CRLF ++ X) with (CR :: LF :: X). cbn [find_from starts]. cbn [Byte.eqb andb].
        replace (j + 1 + 1) with (j + 2) by lia.
        destruct X as [|x X]; [by left|]. cbn [starts]. destruct (Byte.eqb CR x) eqn:Ex; [|by left].
        destruct X as [|y X]; [by left|]. cbn [starts]. destruct (Byte.eqb LF y) eqn:Ey; [|by left].
        right. unfold CRLF. cbn [starts]. by rewrite Ex, Ey. }
      destruct (Hstep (concat (map (fun l0 => l0 ++ CRLF) (l' :: ls)) ++ CRLF ++ rest) (i + lenZ l)) as [<-|Hs].
      * rewrite IH by done. f_equal. lia.
      * exfalso. destruct l' as [|x l']; [done|]. inversion Hcr' as [|? ? Hx]; subst.
        unfold CRLF in Hs. cbn [map concat app starts] in Hs.
        apply andb_true_iff in Hs as [Hs _]. apply byte_eqb_eq in Hs. by subst.
  - by rewrite Hf.
Qed.

(** ** Well-formed responses *)

(** The reason phrase keeps its space. *)
Definition status_line (v11 : bool) (code : Z) (reason : list byte) : list byte :=
  (if v11 then txt "HTTP/1.1 " else txt "HTTP/1.0 ") ++
  [Decimal.digit (code / 100); Decimal.digit (code / 10 mod 10); Decimal.digit (code mod 10)] ++ txt " " ++ reason.

Lemma digit_no_cr d : 0 <= d <= 9 -> Decimal.digit d <> CR.
Proof. intros Hd E. apply (f_equal byteZ) in E. rewrite Decimal.byteZ_digit in E by done. change (byteZ CR) with 13 in E. lia. Qed.

Lemma code_digits code : 100 <= code <= 599 ->
  0 <= code / 100 <= 9 /\ 0 <= code / 10 mod 10 <= 9 /\ 0 <= code mod 10 <= 9 /\
  (code / 100 * 10 + code / 10 mod 10) * 10 + code mod 10 = code.
Proof.
  intros Hc. pose proof (Z.div_mod code 10 ltac:(lia)). pose proof (Z.mod_pos_bound code 10 ltac:(lia)).
  pose proof (Z.div_mod (code / 10) 10 ltac:(lia)) as E. pose proof (Z.mod_pos_bound (code / 10) 10 ltac:(lia)).
  rewrite Z.div_div in E by lia. change (10 * 10) with 100 in E. lia.
Qed.

Lemma status_line_ok v11 code reason : 100 <= code <= 599 -> no_byte CR reason -> line_ok (status_line v11 code reason).
Proof.
  intros Hc Hr. destruct (code_digits code Hc) as (H1 & H2 & H3 & _). split; [by destruct v11|].
  unfold no_byte, status_line. rewrite !Forall_app. split_and!.
  - destruct v11; repeat constructor; done.
  - repeat apply Forall_cons_2; try by apply digit_no_cr. constructor.
  - repeat constructor; done.
  - exact Hr.
Qed.

Lemma parse_u64_digits l v :
  forallb Decimal.is_digit l = true -> 0 <= v -> Decimal.dec_value v l <= UINT64_MAX ->
  parse_u64 v l = Some (Decimal.dec_value v l).
Proof.
  revert v; induction l as [|b l IH]; intros v Hd Hv Hm; [done|]. cbn [parse_u64 forallb] in *.
  apply andb_true_iff in Hd as [Hb Hd]. rewrite Hb. cbn [negb].
  pose proof (Decimal.is_digit_value b Hb).
  change (Decimal.dec_value v (b :: l)) with (Decimal.dec_value (10 * v + Decimal.digit_value b) l) in *.
  assert (10 * v + Decimal.digit_value b <= Decimal.dec_value (10 * v + Decimal.digit_value b) l) as Hge.
  { clear IH Hm. assert (0 <= 10 * v + Decimal.digit_value b) as H0 by lia. revert H0.
    generalize (10 * v + Decimal.digit_value b) as w; intros w Hw. revert w Hw.
    induction l as [|c l IHl]; intros w Hw; [cbn; lia|]. cbn [forallb] in Hd. apply andb_true_iff in Hd as [Hc Hd].
    pose proof (Decimal.is_digit_value c Hc).
    change (Decimal.dec_value w (c :: l)) with (Decimal.dec_value (10 * w + Decimal.digit_value c) l).
    specialize (IHl Hd (10 * w + Decimal.digit_value c) ltac:(lia)). lia. }
  destruct (Z.ltb_spec ((UINT64_MAX - Decimal.digit_value b) / 10) v) as [Hlt|Hlt].
  - exfalso. assert (v <= (UINT64_MAX - Decimal.digit_value b) / 10); [|lia]. apply Z.div_le_lower_bound; lia.
  - rewrite (Z.mul_comm v 10). by apply IH; [|lia|].
Qed.

(** The header block of a response, parsed: the status line sets the state up,
    the lines act in order. *)
Lemma ParseHeaders_block v11 code reason ls rest s :
  100 <= code <= 599 -> code <> 101 -> no_byte CR reason -> Forall line_ok ls ->
  m_sIncoming s = header_block (status_line v11 code reason :: ls) ++ CRLF ++ rest ->
  ParseHeaders (lenZ (header_block (status_line v11 code reason :: ls)) - 2) s =
  (let! (ok, s') := lines_effect ls (set_status code (negb v11) s) in
   Ok (ok && negb (m_bHasLength s' && m_bChunked s'), s')).
Proof.
  intros Hc Hn1 Hr Hls E. set (hd := status_line v11 code reason) in *.
  pose proof (status_line_ok v11 code reason Hc Hr) as Hhd. fold hd in Hhd.
  assert (m_sIncoming s = hd ++ CRLF ++ header_block ls ++ CRLF ++ rest) as E2
    by (rewrite E; unfold header_block; cbn [map concat]; by rewrite <- !app_assoc).
  assert (lenZ (header_block (hd :: ls)) = lenZ hd + 2 + lenZ (header_block ls)) as El
    by (unfold header_block; cbn [map concat]; rewrite !lenZ_app; done).
  destruct (code_digits code Hc) as (H1 & H2 & H3 & Hv).
  assert (lenZ hd = 13 + lenZ reason) as Ehd by (unfold hd, status_line;
    destruct v11; rewrite !lenZ_app; rewrite !lenZ_cons, lenZ_nil; change (lenZ (txt " ")) with 1;
    change (lenZ (txt "HTTP/1.1 ")) with 9; change (lenZ (txt "HTTP/1.0 ")) with 9; lia).
  pose proof (lenZ_nonneg reason). pose proof (lenZ_nonneg (header_block ls)).
  unfold ParseHeaders. rewrite E2 at 1.
  assert (find CRLF (hd ++ CRLF ++ header_block ls ++ CRLF ++ rest) 0 = Some (lenZ hd)) as ->
    by exact (find_after CR [LF] [] hd _ (proj2 Hhd)).
  rewrite El. destruct (Z.ltb_spec (lenZ hd + 2 + lenZ (header_block ls) - 2) (lenZ hd)); [lia|].
  destruct (Z.ltb_spec (lenZ hd) 12); [lia|]. cbn [orb].
  assert (range 0 9 (m_sIncoming s) = if v11 then txt "HTTP/1.1 " else txt "HTTP/1.0 ") as ->.
  { rewrite E2. unfold hd, status_line. rewrite <- !app_assoc. by destruct v11. }
  assert (at_ (m_sIncoming s) 12 = Byte.x20) as ->.
  { rewrite E2. unfold hd, status_line. rewrite <- !app_assoc. by destruct v11. }
  assert (ParseU64 (m_sIncoming s) 9 12 = Some code) as ->.
  { assert (range 9 12 (m_sIncoming s) =
      [Decimal.digit (code / 100); Decimal.digit (code / 10 mod 10); Decimal.digit (code mod 10)]) as Er.
    { rewrite E2. unfold hd, status_line. rewrite <- !app_assoc. by destruct v11. }
    assert (at_ (m_sIncoming s) 9 = Decimal.digit (code / 100)) as Ea.
    { rewrite E2. unfold hd, status_line. rewrite <- !app_assoc. by destruct v11. }
    unfold ParseU64. rewrite Er, Ea, Decimal.is_digit_digit by done. cbn [Z.leb Z.compare Pos.compare Pos.compare_cont orb negb].
    assert (Decimal.dec_value 0 [Decimal.digit (code / 100); Decimal.digit (code / 10 mod 10); Decimal.digit (code mod 10)] = code) as Ed.
    { unfold Decimal.dec_value. cbn [fold_left]. rewrite !Decimal.digit_value_digit by done. lia. }
    rewrite parse_u64_digits; [by rewrite Ed| |lia|unfold UINT64_MAX; lia].
    cbn [forallb]. by rewrite !Decimal.is_digit_digit by done. }
  assert (((12 <? lenZ hd) && negb (byteZ Byte.x20 =? 32)) = false) as -> by (by rewrite andb_false_r).
  assert (negb (bytes_eqb (if v11 then txt "HTTP/1.1 " else txt "HTTP/1.0 ") (txt "HTTP/1.1 ")) &&
          negb (bytes_eqb (if v11 then txt "HTTP/1.1 " else txt "HTTP/1.0 ") (txt "HTTP/1.0 ")) = false) as -> by (by destruct v11).
  assert (bytes_eqb (if v11 then txt "HTTP/1.1 " else txt "HTTP/1.0 ") (txt "HTTP/1.0 ") = negb v11) as -> by (by destruct v11).
  destruct (Z.ltb_spec code 100), (Z.ltb_spec 599 code), (Z.eqb_spec code 101); try lia. cbn [orb].
  pose proof (parse_lines_block (S (length (m_sIncoming s))) (hd ++ CRLF) ls rest (set_status code (negb v11) s) Hls) as Hb.
  rewrite lenZ_app in Hb. change (lenZ CRLF) with 2 in Hb. rewrite Hb.
  - done.
  - cbn [m_sIncoming set_status]. rewrite E2. by rewrite <- !app_assoc.
  - pose proof (header_block_len ls Hls). rewrite E2. rewrite !length_app. unfold lenZ in *. lia.
Qed.

(** *** What the header lines do *)

(** A line Consume takes no notice of, such as Date or Server. *)
Definition neutral (l : list byte) : Prop := line_ok l /\ forall s, line_effect l s = Ok (true, s).

Lemma lines_effect_app ls ls' s :
  lines_effect (ls ++ ls') s = let! (ok, s') := lines_effect ls s in if ok then lines_effect ls' s' else Ok (false, s').
Proof.
  revert s; induction ls as [|l ls IH]; intros s; [done|]. cbn [app lines_effect].
  destruct (line_effect l s) as [[[] s1]|]; cbn [rbind]; [apply IH|done|done].
Qed.

Lemma lines_neutral ls s : Forall neutral ls -> lines_effect ls s = Ok (true, s).
Proof. intros H; revert s; induction H as [|l ls [_ Hl] _ IH]; intros s; [done|]. cbn [lines_effect]. rewrite Hl. apply IH. Qed.

Lemma neutral_lines_ok ls : Forall neutral ls -> Forall line_ok ls.
Proof. intros H. eapply Forall_impl; [exact H|]. by intros ? []. Qed.

Definition chunked_line : list byte := txt "Transfer-Encoding: chunked".
Definition length_line (n : Z) : list byte := txt "Content-Length: " ++ Decimal.to_dec n.

Lemma chunked_line_effect s : m_bChunked s = false -> line_effect chunked_line s = Ok (true, set_chunked s).
Proof. destruct s. cbn. intros ->. reflexivity. Qed.

Lemma chunked_line_ok : line_ok chunked_line.
Proof. split; [done|]. repeat constructor; done. Qed.

Lemma digits_not p ds :
  (forall b, Decimal.is_digit b = true -> p b = false) -> forallb Decimal.is_digit ds = true -> span_while p ds = 0.
Proof. intros Hp. destruct ds as [|b ds]; [done|]. cbn [span_while forallb]. intros [Hb _]%andb_true_iff. by rewrite Hp. Qed.

Lemma digit_not_blank b : Decimal.is_digit b = true -> is_blank b = false.
Proof. unfold Decimal.is_digit, is_blank. repeat destr_bool; done || lia. Qed.

Lemma digit_not_cr b : Decimal.is_digit b = true -> b <> CR.
Proof. intros H ->. done. Qed.

Lemma forallb_rev {A} (p : A -> bool) l : forallb p l = true -> forallb p (rev l) = true.
Proof. rewrite !forallb_forall. intros H x Hx. apply H. by apply in_rev. Qed.

Lemma length_line_effect n s :
  0 <= n < 10 ^ 19 -> m_bHasLength s = false -> n <= kMaxBody ->
  line_effect (length_line n) s = Ok (true, set_length n s).
Proof.
  intros Hn Hh Hk. destruct (Decimal.to_dec_spec n ltac:(lia)) as (Hne & Hd & Hv).
  unfold line_effect, length_line. set (ds := Decimal.to_dec n) in *.
  set (l := txt "Content-Length: " ++ ds). set (s0 := set_incoming l s).
  assert (lenZ l = 16 + lenZ ds) as El by (unfold l; by rewrite lenZ_app).
  assert (0 < lenZ ds) as Hpos by (destruct ds; [done|]; rewrite lenZ_cons; pose proof (lenZ_nonneg ds); lia).
  unfold parse_line. cbn [m_sIncoming s0 set_incoming].
  assert (find (txt ":") l 0 = Some 14) as ->.
  { apply (find_after Byte.x3a [] [] (txt "Content-Length") (txt " " ++ ds)). repeat constructor; done. }
  destruct (Z.ltb_spec 14 (lenZ l)); [|lia].
  assert (range (14 + 1) (lenZ l) l = txt " " ++ ds) as Er1.
  { pose proof (range_middle (txt "Content-Length:") (txt " " ++ ds) []) as H1. rewrite app_nil_r, lenZ_app in H1.
    rewrite El. replace (16 + lenZ ds) with (15 + (1 + lenZ ds)) by lia. exact H1. }
  rewrite Er1. change (span_while is_blank (txt " " ++ ds)) with (1 + span_while is_blank ds).
  rewrite (digits_not is_blank ds digit_not_blank Hd). change (14 + 1 + (1 + 0)) with 16.
  assert (range 16 (lenZ l) l = ds) as Er2.
  { pose proof (range_middle (txt "Content-Length: ") ds []) as H1. rewrite app_nil_r in H1. rewrite El. exact H1. }
  rewrite Er2, (digits_not is_blank (rev ds) digit_not_blank) by (by apply forallb_rev). rewrite (Z.sub_0_r (lenZ l)).
  change (range 0 14 l) with (txt "Content-Length").
  change (14 - span_while (fun b => byteZ b =? 32) (rev (txt "Content-Length"))) with 14.
  change (EqName l 0 14 (txt "content-length") && (0 + lenZ (txt "content-length") =? 14)) with true. cbv iota.
  assert (ParseU64 l 16 (lenZ l) = Some n) as ->.
  { unfold ParseU64. destruct (Z.leb_spec (lenZ l) 16); [lia|].
    assert (at_ l 16 = hd Byte.x00 ds) as -> by (unfold l; by destruct ds).
    destruct ds as [|b ds'] eqn:Eds; [done|]. cbn [hd orb forallb] in *. apply andb_true_iff in Hd as [Hb Hd]. rewrite Hb.
    cbn [negb]. rewrite Er2, parse_u64_digits; [by rewrite Hv|cbn [forallb]; by rewrite Hb|lia|rewrite Hv; unfold UINT64_MAX; lia]. }
  cbn [m_bHasLength m_iStatus s0 set_incoming]. rewrite Hh. cbn [andb].
  destruct (Z.ltb_spec kMaxBody n); [lia|]. rewrite andb_false_r. cbn [orb rbind]. by destruct s.
Qed.

Lemma length_line_ok n : 0 <= n < 10 ^ 19 -> line_ok (length_line n).
Proof.
  intros Hn. destruct (Decimal.to_dec_spec n ltac:(lia)) as (_ & Hd & _). split; [done|].
  unfold no_byte, length_line. rewrite Forall_app. split; [repeat constructor; done|].
  apply Forall_forall. intros b Hb. apply digit_not_cr. rewrite forallb_forall in Hd. apply Hd. by apply list_elem_of_In.
Qed.

(** *** Chunks *)

(** The size line of a chunk (digits of either case, extensions) and its data. *)
Definition chunk_ok (c : list byte * list byte) : Prop :=
  no_byte CR (fst c) /\ parse_hex 0 0 (fst c) = Some (lenZ (snd c)) /\ 0 < lenZ (snd c).

Definition chunk_bytes (c : list byte * list byte) : list byte := fst c ++ CRLF ++ snd c ++ CRLF.
Definition chunks_bytes (cs : list (list byte * list byte)) : list byte := concat (map chunk_bytes cs).
Definition chunks_data (cs : list (list byte * list byte)) : list byte := concat (map snd cs).

Lemma skip_trailer_block fuel pre tr rest s :
  Forall line_ok tr -> m_sIncoming s = pre ++ header_block tr ++ CRLF ++ rest -> (length tr < fuel)%nat ->
  skip_trailer fuel (lenZ pre) s = Ok (Through (Succeed (lenZ pre + lenZ (header_block tr) + 2) s)).
Proof.
  intros Htr; revert fuel pre; induction Htr as [|l tr [Hne Hcr] Htr IH]; intros fuel pre E Hf;
    (destruct fuel as [|fuel]; [simpl in Hf; lia|]); cbn [skip_trailer].
  - rewrite E at 1. assert (find CRLF (pre ++ header_block [] ++ CRLF ++ rest) (lenZ pre) = Some (lenZ pre + 0)) as ->
      by exact (find_after CR [LF] pre [] rest (Forall_nil_2 _)).
    rewrite Z.add_0_r, Z.eqb_refl. change (lenZ (header_block [])) with 0. do 3 f_equal. lia.
  - unfold header_block in *. cbn [map concat] in *.
    assert (m_sIncoming s = pre ++ l ++ CRLF ++ concat (map (fun l0 => l0 ++ CRLF) tr) ++ CRLF ++ rest) as E2
      by (rewrite E; by rewrite <- !app_assoc).
    rewrite E2 at 1. assert (find CRLF (pre ++ l ++ CRLF ++ concat (map (fun l0 => l0 ++ CRLF) tr) ++ CRLF ++ rest) (lenZ pre)
      = Some (lenZ pre + lenZ l)) as -> by exact (find_after CR [LF] pre l _ Hcr).
    assert (0 < lenZ l) by (destruct l; [done|]; rewrite lenZ_cons; pose proof (lenZ_nonneg l); lia).
    destruct (Z.eqb_spec (lenZ pre + lenZ l) (lenZ pre)); [lia|].
    pose proof (IH fuel (pre ++ l ++ CRLF)) as IH'. rewrite !lenZ_app in IH'. change (lenZ CRLF) with 2 in IH'.
    rewrite Z.add_assoc in IH'. rewrite IH' by (rewrite <- ?app_assoc; done || (simpl in Hf; lia)).
    rewrite !lenZ_app. change (lenZ CRLF) with 2. do 3 f_equal. lia.
Qed.

Lemma consume_chunks_wf fuel pre cs hx0 tr rest s :
  Forall chunk_ok cs -> no_byte CR hx0 -> parse_hex 0 0 hx0 = Some 0 -> Forall line_ok tr ->
  m_sIncoming s = pre ++ chunks_bytes cs ++ hx0 ++ CRLF ++ header_block tr ++ CRLF ++ rest ->
  m_iChunkPosition s = lenZ pre -> lenZ (m_sBody s) + lenZ (chunks_data cs) <= kMaxBody -> (length cs < fuel)%nat ->
  exists p, consume_chunks fuel s =
    Ok (Through (Succeed (lenZ (m_sIncoming s) - lenZ rest)
                   (set_chunk_position p (set_body (m_sBody s ++ chunks_data cs) s)))).
Proof.
  intros Hcs Hcr0 Hhx0 Htr; revert fuel pre s; induction Hcs as [|[hx d] cs (Hcr & Hhx & Hd) Hcs IH]; intros fuel pre s E Ep Hb Hf;
    (destruct fuel as [|fuel]; [simpl in Hf; lia|]); cbn [consume_chunks]; rewrite Ep.
  - unfold chunks_bytes, chunks_data in *. cbn [map concat app] in *.
    assert (find CRLF (m_sIncoming s) (lenZ pre) = Some (lenZ pre + lenZ hx0)) as ->
      by (rewrite E; exact (find_after CR [LF] pre hx0 _ Hcr0)).
    assert (ParseHex (m_sIncoming s) (lenZ pre) (lenZ pre + lenZ hx0) = Some 0) as ->
      by (unfold ParseHex; by rewrite E, range_middle).
    cbn [Z.eqb]. pose proof (header_block_len tr Htr) as Hl.
    exists (lenZ pre).
    assert (set_chunk_position (lenZ pre) (set_body (m_sBody s ++ []) s) = s) as -> by (rewrite app_nil_r, <- Ep; by destruct s).
    pose proof (skip_trailer_block (S (length (m_sIncoming s))) (pre ++ hx0 ++ CRLF) tr rest s Htr) as Ht.
    rewrite !lenZ_app in Ht. change (lenZ CRLF) with 2 in Ht. rewrite Z.add_assoc in Ht. rewrite Ht.
    + do 3 f_equal. rewrite E, !lenZ_app. change (lenZ CRLF) with 2. lia.
    + rewrite E. by rewrite <- !app_assoc.
    + rewrite E, !length_app. unfold lenZ in Hl. lia.
  - unfold chunks_bytes, chunks_data in *. cbn [map concat] in *. cbn [fst snd] in *.
    change (chunk_bytes (hx, d)) with (hx ++ CRLF ++ d ++ CRLF) in *.
    set (rest' := concat (map chunk_bytes cs) ++ hx0 ++ CRLF ++ header_block tr ++ CRLF ++ rest) in *.
    assert (m_sIncoming s = pre ++ hx ++ CRLF ++ d ++ CRLF ++ rest') as E2 by (rewrite E; unfold rest'; by rewrite <- !app_assoc).
    assert (find CRLF (m_sIncoming s) (lenZ pre) = Some (lenZ pre + lenZ hx)) as ->
      by (rewrite E2; exact (find_after CR [LF] pre hx _ Hcr)).
    assert (ParseHex (m_sIncoming s) (lenZ pre) (lenZ pre + lenZ hx) = Some (lenZ d)) as ->
      by (unfold ParseHex; by rewrite E2, range_middle).
    rewrite !lenZ_app in Hb. pose proof (lenZ_nonneg (m_sBody s)). pose proof (lenZ_nonneg (concat (map snd cs))).
    pose proof (lenZ_nonneg rest').
    destruct (Z.eqb_spec (lenZ d) 0); [lia|]. destruct (Z.ltb_spec kMaxBody (lenZ d)); [lia|].
    destruct (Z.ltb_spec kMaxBody (lenZ (m_sBody s) + lenZ d)); [lia|]. cbn [orb].
    assert (lenZ (m_sIncoming s) = lenZ pre + lenZ hx + 2 + lenZ d + 2 + lenZ rest') as El
      by (rewrite E2, !lenZ_app; change (lenZ CRLF) with 2; lia).
    destruct (Z.ltb_spec (lenZ (m_sIncoming s)) (lenZ pre + lenZ hx + 2 + lenZ d + 2)); [lia|].
    assert (sub (lenZ pre + lenZ hx + 2 + lenZ d) 2 (m_sIncoming s) = CRLF) as ->.
    { rewrite E2. pose proof (range_middle (pre ++ hx ++ CRLF ++ d) CRLF rest') as Hm. unfold range in Hm.
      rewrite !lenZ_app in Hm. change (lenZ CRLF) with 2 in Hm. rewrite <- !app_assoc in Hm. etransitivity; [|exact Hm]. f_equal; lia. }
    assert (sub (lenZ pre + lenZ hx + 2) (lenZ d) (m_sIncoming s) = d) as ->.
    { rewrite E2. pose proof (range_middle (pre ++ hx ++ CRLF) d (CRLF ++ rest')) as Hm. unfold range in Hm.
      rewrite !lenZ_app in Hm. change (lenZ CRLF) with 2 in Hm. rewrite <- !app_assoc in Hm. etransitivity; [|exact Hm]. f_equal; lia. }
    rewrite bytes_eqb_refl. cbn [negb].
    match goal with |- context [consume_chunks fuel ?x] =>
      destruct (IH fuel (pre ++ hx ++ CRLF ++ d ++ CRLF) x) as (p & ->) end.
    + cbn [m_sIncoming set_chunk_position set_body]. rewrite E2. unfold rest'. by rewrite <- !app_assoc.
    + cbn [m_iChunkPosition set_chunk_position]. rewrite !lenZ_app. change (lenZ CRLF) with 2. lia.
    + cbn [m_sBody set_chunk_position set_body]. rewrite lenZ_app. lia.
    + simpl in Hf. lia.
    + exists p. cbn [m_sIncoming set_chunk_position set_body m_sBody]. by rewrite <- app_assoc.
Qed.

(** *** Whole responses *)

Definition header_of (v11 : bool) (code : Z) (reason : list byte) (ls : list (list byte)) : list byte :=
  header_block (status_line v11 code reason :: ls) ++ CRLF.

(** The final status codes that announce a body. *)
Definition body_code (code : Z) : Prop := 200 <= code <= 599 /\ code <> 204 /\ code <> 304.

Lemma Consume_header v11 code reason ls rest s1 :
  200 <= code <= 599 -> no_byte CR reason -> Forall line_ok ls -> lenZ (header_of v11 code reason ls) <= kMaxHeader ->
  lines_effect ls (set_status code (negb v11) (set_incoming (header_of v11 code reason ls ++ rest) BeginResponse)) = Ok (true, s1) ->
  m_iStatus s1 = code -> m_bHasLength s1 && m_bChunked s1 = false ->
  Consume (set_incoming (header_of v11 code reason ls ++ rest) BeginResponse) =
  consume_body (set_headers_ready (lenZ (header_of v11 code reason ls)) s1).
Proof.
  intros Hc Hr Hls Hk He Es Hb. unfold header_of in *. set (hb := header_block (status_line v11 code reason :: ls)) in *.
  assert (Forall line_ok (status_line v11 code reason :: ls)) as Hall by (constructor; [apply status_line_ok; done || lia|done]).
  rewrite lenZ_app in Hk. change (lenZ CRLF) with 2 in Hk. rewrite <- app_assoc in *.
  set (s := set_incoming (hb ++ CRLF ++ rest) BeginResponse) in *.
  unfold Consume. cbn [consume_headers]. change (m_bHeadersReady s) with false. change (m_sIncoming s) with (hb ++ CRLF ++ rest).
  cbv iota.
  pose proof (find_header_end _ rest Hall ltac:(done)) as Hfe. fold hb in Hfe. rewrite Hfe. pose proof (lenZ_nonneg hb).
  destruct (Z.ltb_spec kMaxHeader (lenZ hb - 2)); [lia|].
  pose proof (ParseHeaders_block v11 code reason ls rest s ltac:(lia) ltac:(lia) Hr Hls eq_refl) as Hp. fold hb in Hp.
  rewrite Hp, He. cbn [rbind]. rewrite Hb. cbn [negb andb]. rewrite Es.
  destruct (Z.ltb_spec code 200); [lia|]. cbn [rbind m_bHeadersReady set_headers_ready].
  do 2 f_equal. rewrite lenZ_app. change (lenZ CRLF) with 2. lia.
Qed.

(** Reads fields of sessions built by the setters. *)
Ltac session_red :=
  cbv beta iota delta [m_sIncoming m_sBody m_iHeaderBytes m_iContentLength m_iChunkPosition m_iInterimResponses
    m_iStatus m_bHeadersReady m_bHasLength m_bChunked m_bCloseAfter m_bActive set_incoming set_body set_chunk_position
    set_headers_ready set_status set_length set_chunked set_close BeginResponse negb].

(** A body framed by Content-Length. *)
Lemma length_response_lemma v11 code reason ls ls' body extra :
  body_code code -> no_byte CR reason -> Forall neutral ls -> Forall neutral ls' ->
  lenZ body <= kMaxBody ->
  let hd := header_of v11 code reason (ls ++ length_line (lenZ body) :: ls') in
  lenZ hd <= kMaxHeader -> lenZ (hd ++ body ++ extra) <= kMaxHeader + kMaxBody ->
  exists s', OnDataIn (hd ++ body ++ extra) BeginResponse =
    Ok (s', Some (mkFinished false [] (if lenZ extra =? 0 then negb v11 else true) code body), false).
Proof.
  intros (Hc & Hn1 & Hn2) Hr Hls Hls' Hb hd Hk Hl.
  unfold kMaxBody in Hb. pose proof (lenZ_nonneg body). pose proof (lenZ_nonneg extra). pose proof (lenZ_nonneg hd).
  set (s0 := set_status code (negb v11) (set_incoming (hd ++ body ++ extra) BeginResponse)).
  assert (lines_effect (ls ++ length_line (lenZ body) :: ls') s0 = Ok (true, set_length (lenZ body) s0)) as He.
  { rewrite lines_effect_app, lines_neutral by done. cbn [rbind lines_effect].
    rewrite length_line_effect by (done || unfold kMaxBody; lia). cbn [rbind]. by apply lines_neutral. }
  assert (Forall line_ok (ls ++ length_line (lenZ body) :: ls')) as Hok.
  { rewrite Forall_app, Forall_cons. split_and!; try by apply neutral_lines_ok. apply length_line_ok; lia. }
  unfold OnDataIn. cbn [m_bActive BeginResponse negb m_sIncoming]. rewrite lenZ_nil.
  destruct (Z.ltb_spec (kMaxHeader + kMaxBody) (0 + lenZ (hd ++ body ++ extra))); [lia|].
  pose proof (Consume_header v11 code reason _ (body ++ extra) _ Hc Hr Hok Hk He eq_refl eq_refl) as Hcons.
  fold hd in Hcons. rewrite app_nil_l, Hcons. clear Hcons.
  unfold consume_body. cbn [m_iStatus m_bChunked m_bHasLength m_iHeaderBytes m_iContentLength m_sIncoming
    set_headers_ready set_length s0 set_status set_incoming BeginResponse].
  destruct (Z.eqb_spec code 204), (Z.eqb_spec code 304); try lia. cbn [orb negb].
  rewrite !lenZ_app. destruct (Z.ltb_spec (lenZ hd + (lenZ body + lenZ extra) - lenZ hd) (lenZ body)); [lia|].
  cbn [rbind]. rewrite sub_app_r by lia. rewrite Z.sub_diag, sub_app_l, sub_all by lia.
  subst s0. unfold Succeed. session_red. rewrite !lenZ_app.
  destruct (Z.ltb_spec (lenZ hd + lenZ body) (lenZ hd + (lenZ body + lenZ extra))), (Z.eqb_spec (lenZ extra) 0); try lia;
    eexists; reflexivity.
Qed.

(** A chunked body. *)
Lemma chunked_response_lemma v11 code reason ls ls' cs hx0 tr extra :
  body_code code -> no_byte CR reason -> Forall neutral ls -> Forall neutral ls' ->
  Forall chunk_ok cs -> lenZ (chunks_data cs) <= kMaxBody ->
  no_byte CR hx0 -> parse_hex 0 0 hx0 = Some 0 -> Forall line_ok tr ->
  let hd := header_of v11 code reason (ls ++ chunked_line :: ls') in
  let coded := chunks_bytes cs ++ hx0 ++ CRLF ++ header_block tr ++ CRLF in
  lenZ hd <= kMaxHeader -> lenZ (hd ++ coded ++ extra) <= kMaxHeader + kMaxBody ->
  exists s', OnDataIn (hd ++ coded ++ extra) BeginResponse =
    Ok (s', Some (mkFinished false [] (if lenZ extra =? 0 then negb v11 else true) code (chunks_data cs)), false).
Proof.
  intros (Hc & Hn1 & Hn2) Hr Hls Hls' Hcs Hb Hcr0 Hhx0 Htr hd coded Hk Hl.
  pose proof (lenZ_nonneg coded). pose proof (lenZ_nonneg extra). pose proof (lenZ_nonneg hd).
  set (s0 := set_status code (negb v11) (set_incoming (hd ++ coded ++ extra) BeginResponse)).
  assert (lines_effect (ls ++ chunked_line :: ls') s0 = Ok (true, set_chunked s0)) as He.
  { rewrite lines_effect_app, lines_neutral by done. cbn [rbind lines_effect].
    rewrite chunked_line_effect by done. cbn [rbind]. by apply lines_neutral. }
  assert (Forall line_ok (ls ++ chunked_line :: ls')) as Hok.
  { rewrite Forall_app, Forall_cons. split_and!; try by apply neutral_lines_ok. apply chunked_line_ok. }
  unfold OnDataIn. cbn [m_bActive BeginResponse negb m_sIncoming]. rewrite lenZ_nil.
  destruct (Z.ltb_spec (kMaxHeader + kMaxBody) (0 + lenZ (hd ++ coded ++ extra))); [lia|].
  pose proof (Consume_header v11 code reason _ (coded ++ extra) _ Hc Hr Hok Hk He eq_refl eq_refl) as Hcons.
  fold hd in Hcons. rewrite app_nil_l, Hcons. clear Hcons.
  unfold consume_body. cbn [m_iStatus m_bChunked set_headers_ready set_chunked s0 set_status].
  destruct (Z.eqb_spec code 204), (Z.eqb_spec code 304); try lia. cbn [orb].
  unfold ConsumeChunks. set (s1 := set_headers_ready (lenZ hd) (set_chunked s0)).
  assert (m_sIncoming s1 = hd ++ chunks_bytes cs ++ hx0 ++ CRLF ++ header_block tr ++ CRLF ++ extra) as Ei
    by (cbn; unfold coded; by rewrite <- !app_assoc).
  destruct (consume_chunks_wf (S (length (m_sIncoming s1))) hd cs hx0 tr extra s1 Hcs Hcr0 Hhx0 Htr Ei eq_refl) as (p & E).
  { cbn [m_sBody s1 set_headers_ready set_chunked s0 set_status set_incoming BeginResponse]. rewrite lenZ_nil. lia. }
  { rewrite Ei. rewrite !length_app. assert (length cs <= length (chunks_bytes cs))%nat; [|lia].
    clear. induction cs as [|[hx d] cs IH]; [done|]. unfold chunks_bytes in *. cbn [map concat length].
    rewrite length_app. unfold chunk_bytes at 1. rewrite !length_app. simpl. lia. }
  rewrite E. cbn [rbind]. unfold Succeed.
  subst s1 s0. session_red.
  destruct (Z.ltb_spec (lenZ (hd ++ coded ++ extra) - lenZ extra) (lenZ (hd ++ coded ++ extra))), (Z.eqb_spec (lenZ extra) 0); try lia;
    eexists; reflexivity.
Qed.

(** ** Reading a query back *)

Definition hex_digit (b : byte) : option Z := if hex_value b <? 0 then None else Some (hex_value b).

(** Percent decoding, as the receiver of the request does it. *)
Fixpoint pct_decode (l : list byte) : option (list byte) :=
  match l with
  | [] => Some []
  | Byte.x25 :: h :: lo :: l => h' ← hex_digit h; lo' ← hex_digit lo; r ← pct_decode l; Some (byte_of_Z (h' * 16 + lo') :: r)
  | Byte.x25 :: _ => None
  | b :: l => r ← pct_decode l; Some (b :: r)
  end.

(** The pieces between separators. *)
Fixpoint split_on (c : byte) (l : list byte) : list (list byte) :=
  match l with
  | [] => [[]]
  | b :: l =>
      if bool_decide (b = c) then [] :: split_on c l
      else match split_on c l with
           | [] => [[b]]
           | p :: ps => (b :: p) :: ps
           end
  end.

Definition pair_of (l : list byte) : option (list byte * list byte) :=
  match split_on Byte.x3d l with
  | [k; v] => k ← pct_decode k; v ← pct_decode v; Some (k, v)
  | _ => None
  end.

Definition form_pairs (l : list byte) : option (list (list byte * list byte)) :=
  match l with
  | [] => Some []
  | _ => mapM pair_of (split_on Byte.x26 l)
  end.

(** What EncodeQuery writes for one byte. *)
Definition encode_byte (b : byte) : list byte :=
  if plain_char b then [b]
  else [Byte.x25; at_ pHex (Z.shiftr (byteZ b) 4); at_ pHex (Z.land (byteZ b) 15)].

(** The bytes a query may be written with. *)
Definition query_byte (b : byte) : bool := plain_char b || bool_decide (b = Byte.x25).

Lemma encode_byte_query b : forallb query_byte (encode_byte b) = true.
Proof. destruct b; vm_compute; reflexivity. Qed.

Lemma pct_decode_byte b l : pct_decode (encode_byte b ++ l) = r ← pct_decode l; Some (b :: r).
Proof. destruct b; reflexivity. Qed.

Lemma EncodeQuery_bytes v : EncodeQuery v = concat (map encode_byte v).
Proof. unfold EncodeQuery. by rewrite flat_map_concat_map. Qed.

Lemma pct_decode_encode v : pct_decode (EncodeQuery v) = Some v.
Proof. rewrite EncodeQuery_bytes. induction v as [|b v IH]; [done|]. cbn [map concat]. by rewrite pct_decode_byte, IH. Qed.

Lemma EncodeQuery_query v : forallb query_byte (EncodeQuery v) = true.
Proof.
  rewrite EncodeQuery_bytes. induction v as [|b v IH]; [done|]. cbn [map concat]. by rewrite forallb_app, encode_byte_query, IH.
Qed.

Lemma split_on_none c l : forallb query_byte l = true -> query_byte c = false -> split_on c l = [l].
Proof.
  intros Hl Hc. induction l as [|b l IH]; [done|]. cbn [forallb split_on] in *. apply andb_true_iff in Hl as [Hb Hl].
  rewrite bool_decide_false by congruence. by rewrite IH.
Qed.

Lemma split_on_app c l l' :
  split_on c l = [l] -> split_on c (l ++ c :: l') = l :: split_on c l'.
Proof.
  induction l as [|b l IH]; cbn [split_on app]; intros E.
  - by rewrite bool_decide_true.
  - destruct (bool_decide (b = c)) eqn:Eb; [done|]. destruct (split_on c l) as [|p ps] eqn:Es.
    + destruct l as [|x l]; cbn [split_on] in Es; [done|]. destruct (bool_decide (x = c)); [done|].
      by destruct (split_on c l).
    + injection E as -> ->. by rewrite IH.
Qed.

(** One name=value pair. *)
Definition encode_pair (kv : list byte * list byte) : list byte := EncodeQuery (fst kv) ++ Byte.x3d :: EncodeQuery (snd kv).

Lemma pair_of_encode kv : pair_of (encode_pair kv) = Some kv.
Proof.
  destruct kv as [k v]. unfold pair_of, encode_pair. cbn [fst snd].
  rewrite split_on_app, split_on_none by (apply EncodeQuery_query || done || (apply split_on_none; [apply EncodeQuery_query|done])).
  rewrite pct_decode_encode. cbn. by rewrite pct_decode_encode.
Qed.

Lemma encode_pair_split kv : split_on Byte.x26 (encode_pair kv) = [encode_pair kv].
Proof.
  unfold encode_pair. pose proof (EncodeQuery_query (fst kv)) as Hk. pose proof (EncodeQuery_query (snd kv)) as Hv.
  revert Hk. generalize (EncodeQuery (fst kv)) as k. intros k Hk.
  induction k as [|b k IH]; cbn [app split_on forallb] in *.
  - rewrite bool_decide_false by done. by rewrite split_on_none.
  - apply andb_true_iff in Hk as [Hb Hk]. rewrite bool_decide_false by (intros ->; done). by rewrite IH.
Qed.

Lemma encode_pairs_cons kv q :
  encode_pairs true (kv :: q) = encode_pair kv ++ concat (map (fun p => Byte.x26 :: encode_pair p) q).
Proof.
  assert (forall q, encode_pairs false q = concat (map (fun p => Byte.x26 :: encode_pair p) q)) as Hf.
  { clear. induction q as [|[k v] q IH]; [done|]. cbn [encode_pairs map concat]. rewrite IH.
    unfold encode_pair. cbn. by rewrite <- !app_assoc. }
  destruct kv as [k v]. cbn [encode_pairs]. rewrite Hf. unfold encode_pair. cbn. by rewrite <- !app_assoc.
Qed.

Lemma split_pairs kv q :
  split_on Byte.x26 (encode_pair kv ++ concat (map (fun p => Byte.x26 :: encode_pair p) q)) =
  encode_pair kv :: map encode_pair q.
Proof.
  revert kv; induction q as [|kv' q IH]; intros kv; cbn [map concat].
  - rewrite app_nil_r. apply encode_pair_split.
  - cbn [app]. rewrite split_on_app by apply encode_pair_split. by rewrite IH.
Qed.

Lemma mapM_pairs q : mapM pair_of (map encode_pair q) = Some q.
Proof. induction q as [|kv q IH]; [done|]. cbn. rewrite pair_of_encode. cbn. by rewrite IH. Qed.

(** ** Properties *)


(** A response whose body is framed by Content-Length is reported once
    with its status and exactly the announced bytes, whatever lines
    without framing meaning surround the length; bytes behind the body, or an
    HTTP/1.0 response, keep the connection from being used again. *)
Theorem length_response v11 code reason ls ls' body extra :
  body_code code -> no_byte CR reason -> Forall neutral ls -> Forall neutral ls' ->
  lenZ body <= kMaxBody ->
  lenZ (header_of v11 code reason (ls ++ length_line (lenZ body) :: ls')) <= kMaxHeader ->
  lenZ (header_of v11 code reason (ls ++ length_line (lenZ body) :: ls') ++ body ++ extra) <= kMaxHeader + kMaxBody ->
  exists s', OnDataIn (header_of v11 code reason (ls ++ length_line (lenZ body) :: ls') ++ body ++ extra) BeginResponse =
    Ok (s', Some (mkFinished false [] (if lenZ extra =? 0 then negb v11 else true) code body), false).
Proof. intros. by apply length_response_lemma. Qed.

(** A response in chunks is reported once with its status and the
    data of the chunks put together, for every way of cutting the data, every
    spelling of the sizes, extensions and trailer lines. *)
Theorem chunked_response v11 code reason ls ls' cs hx0 tr extra :
  body_code code -> no_byte CR reason -> Forall neutral ls -> Forall neutral ls' ->
  Forall chunk_ok cs -> lenZ (chunks_data cs) <= kMaxBody ->
  no_byte CR hx0 -> parse_hex 0 0 hx0 = Some 0 -> Forall line_ok tr ->
  let hd := header_of v11 code reason (ls ++ chunked_line :: ls') in
  let coded := chunks_bytes cs ++ hx0 ++ CRLF ++ header_block tr ++ CRLF in
  lenZ hd <= kMaxHeader -> lenZ (hd ++ coded ++ extra) <= kMaxHeader + kMaxBody ->
  exists s', OnDataIn (hd ++ coded ++ extra) BeginResponse =
    Ok (s', Some (mkFinished false [] (if lenZ extra =? 0 then negb v11 else true) code (chunks_data cs)), false).
Proof. intros. by apply chunked_response_lemma. Qed.

(** The query Client::Get writes is read back pair for pair by a
    receiver that splits it at & and = and undoes the percent encoding, and
    no name or value puts a space, a line end, or a separator into the request line. *)
Theorem query_roundtrip q :
  form_pairs (encode_pairs true q) = Some q /\ Forall (fun kv => forallb query_byte (EncodeQuery (fst kv)) = true /\ forallb query_byte (EncodeQuery (snd kv)) = true) q.
Proof.
  split.
  - destruct q as [|kv q]; [done|]. rewrite encode_pairs_cons. unfold form_pairs.
    destruct (encode_pair kv ++ _) as [|b l] eqn:E.
    + unfold encode_pair in E. destruct (EncodeQuery (fst kv)); done.
    + rewrite <- E, split_pairs. exact (mapM_pairs (kv :: q)).
  - apply Forall_forall. intros kv _. split; apply EncodeQuery_query.
Qed.

(** ** Concrete responses *)

(** No byte of a literal is the one excluded. *)
Ltac literal := repeat first [split | constructor]; done || lia.

Lemma server_line_neutral : neutral (txt "Server: x").
Proof. split; [literal|]. intros s. destruct s. reflexivity. Qed.

Example two_pieces : exists s',
  feed [txt "HTTP/1.1 200 OK" ++ CRLF ++ txt "Content-Length: 2" ++ [CR]; [LF] ++ CRLF ++ txt "hi"; txt "next"] BeginResponse =
  Ok (s', Some (mkFinished false [] false 200 (txt "hi"))).
Proof. eexists. vm_compute. reflexivity. Qed.

(** The line of a chunk's size, with an extension beyond 1024 bytes: in one piece it is
    read, cut within the line it is refused. *)
Definition long_line : list byte := txt "2;" ++ repeat Byte.x78 1100.
Definition chunked_head : list byte := txt "HTTP/1.1 200 OK" ++ CRLF ++ chunked_line ++ CRLF ++ CRLF.
Definition behind_line : list byte := CRLF ++ txt "hi" ++ CRLF ++ txt "0" ++ CRLF ++ CRLF.

Example long_line_cut :
  (exists s, feed [chunked_head ++ long_line ++ behind_line] BeginResponse = Ok (s, Some (mkFinished false [] false 200 (txt "hi")))) /\
  (exists s, feed [chunked_head ++ long_line; behind_line] BeginResponse = Ok (s, Some (mkFinished true (txt "chunk") true 200 []))).
Proof. split; eexists; vm_compute; reflexivity. Qed.


Lemma length_response_witness : exists s',
  OnDataIn (header_of true 200 (txt "OK") ([txt "Server: x"] ++ length_line (lenZ (txt "hi")) :: []) ++ txt "hi" ++ []) BeginResponse =
    Ok (s', Some (mkFinished false [] false 200 (txt "hi")), false).
Proof.
  apply (length_response true 200 (txt "OK") [txt "Server: x"] [] (txt "hi") []).
  - unfold body_code. lia.
  - literal.
  - constructor; [exact server_line_neutral|constructor].
  - constructor.
  - vm_compute. discriminate.
  - vm_compute. discriminate.
  - vm_compute. discriminate.
Defined.

Lemma chunked_response_witness : exists s',
  OnDataIn (header_of true 200 (txt "OK") ([] ++ chunked_line :: [txt "Server: x"]) ++
    (chunks_bytes [(txt "2;a=b", txt "hi"); (txt "0A", txt "0123456789")] ++ txt "00" ++ CRLF ++
     header_block [txt "X: y"] ++ CRLF) ++ txt "z") BeginResponse =
    Ok (s', Some (mkFinished false [] true 200 (txt "hi0123456789")), false).
Proof.
  apply (chunked_response true 200 (txt "OK") [] [txt "Server: x"]
           [(txt "2;a=b", txt "hi"); (txt "0A", txt "0123456789")] (txt "00") [txt "X: y"] (txt "z")).
  - unfold body_code. lia.
  - literal.
  - constructor.
  - constructor; [exact server_line_neutral|constructor].
  - literal.
  - vm_compute. discriminate.
  - literal.
  - vm_compute. reflexivity.
  - literal.
  - vm_compute. discriminate.
  - vm_compute. discriminate.
Defined.

End Http.
