(* ===== verification/Redis.v ===== *)
(** * What the registry relies on in Redis

    Redis is a separate program.  The commands the registry's scripts call are a
    type class over an abstract store, with the laws Redis documents for them
    (SADD and SREM on a key that holds a string are errors and change nothing);
    [Store] is a store that obeys them, so that the laws can hold and scripts can
    be evaluated.  A key with an expiry may vanish at any moment; expiry is the
    same change of the store as DEL. *)

From S2P Require Import Prelude.

Module Redis.

Abbreviation key := (list byte).

Class RedisStore (D : Type) := {
  GET : D -> key -> option (list byte);
  SET_PX : key -> list byte -> list byte -> D -> D;   (* SET key value PX milliseconds *)
  PEXPIRE : key -> list byte -> D -> D;
  DEL : key -> D -> D;
  SADD : key -> list byte -> D -> D;
  SREM : key -> list byte -> D -> D;
  SMEMBERS : D -> key -> list (list byte)
}.

Class RedisLaws (D : Type) `{RedisStore D} : Prop := {
  GET_SET_PX k v ms d : GET (SET_PX k v ms d) k = Some v;
  GET_SET_PX_ne k k' v ms d : k <> k' -> GET (SET_PX k v ms d) k' = GET d k';
  GET_PEXPIRE k k' ms d : GET (PEXPIRE k ms d) k' = GET d k';
  GET_DEL k d : GET (DEL k d) k = None;
  GET_DEL_ne k k' d : k <> k' -> GET (DEL k d) k' = GET d k';
  GET_SADD k k' m d : GET (SADD k m d) k' = GET d k';
  GET_SREM k k' m d : GET (SREM k m d) k' = GET d k';
  SMEMBERS_SET_PX k k' v ms d : k <> k' -> SMEMBERS (SET_PX k v ms d) k' = SMEMBERS d k';
  SMEMBERS_SADD k k' m d x : GET d k = None ->
    x ∈ SMEMBERS (SADD k m d) k' <-> x ∈ SMEMBERS d k' \/ (k = k' /\ x = m);
  SMEMBERS_SREM k k' m d x : x ∈ SMEMBERS (SREM k m d) k' <-> x ∈ SMEMBERS d k' /\ ~ (k = k' /\ x = m)
}.

(** What a command comes back with: an integer, an array of strings, or anything
    else (an error, no answer). An element that is not a string is [None]. *)
Inductive reply : Type :=
| ReplyInteger (z : Z)
| ReplyArray (elements : list (option (list byte)))
| ReplyOther.

(** A Lua script with its KEYS and ARGV. *)
Record eval (S : Type) : Type := mkEval { script : S; KEYS : list key; ARGV : list (list byte) }.
Arguments mkEval {S}. Arguments script {S}. Arguments KEYS {S}. Arguments ARGV {S}.

(** ** A store *)

Record Store : Type := mkStore { strings : gmap key (list byte); sets : gmap key (list (list byte)) }.

Definition empty_store : Store := mkStore ∅ ∅.

Definition members (d : Store) (k : key) : list (list byte) := default [] (sets d !! k).

#[export] Instance Store_redis : RedisStore Store := {
  GET d k := strings d !! k;
  SET_PX k v _ d := mkStore (<[k := v]> (strings d)) (delete k (sets d));
  PEXPIRE _ _ d := d;
  DEL k d := mkStore (delete k (strings d)) (delete k (sets d));
  SADD k m d :=
    if decide (m ∈ members d k) then d else mkStore (strings d) (<[k := members d k ++ [m]]> (sets d));
  SREM k m d := mkStore (strings d) (<[k := filter (fun x => x <> m) (members d k)]> (sets d));
  SMEMBERS := members
}.

#[export] Instance Store_laws : RedisLaws Store.
Proof.
  split; cbn; intros; try done.
  - apply lookup_insert_eq.
  - by apply lookup_insert_ne.
  - apply lookup_delete_eq.
  - by apply lookup_delete_ne.
  - by destruct (decide _).
  - unfold members. cbn. by rewrite lookup_delete_ne.
  - destruct (decide (m ∈ members d k)); [naive_solver|]. unfold members at 1. cbn.
    destruct (decide (k = k')) as [<-|]; [|rewrite lookup_insert_ne by done; naive_solver].
    rewrite lookup_insert_eq. cbn. rewrite elem_of_app, list_elem_of_singleton. naive_solver.
  - unfold members at 1. cbn. destruct (decide (k = k')) as [<-|]; [|rewrite lookup_insert_ne by done; naive_solver].
    rewrite lookup_insert_eq. cbn. rewrite list_elem_of_filter. naive_solver.
Qed.

End Redis.
