(* ===== verification/RegFrame.v ===== *)
(** * Frames between the registry and its clients

    cbaselib/base/src/oi_registry.cpp: EncodeRegFrame and ReadRegFrames, which
    RegistryServerSession and RegistryClientSession call from OnDataIn.  The
    callback is a function on a state of the caller's; what it throws is part of
    its result.  PassiveClose of the session is the returned error code. *)

From S2P Require Import Prelude BytesStream.

Module RegFrame.
Import BytesStream.

Definition PARSER_ERR_PROTOCOL_SIZE : Z := -9998.
Definition PARSER_ERR_OTHER : Z := -9997.

Definition EncodeRegFrame {T} (iId : Z) (o : Serialize T) (v : T) : result (list byte) :=
  let! stBody := serialize o v empty_stream in
  let iSize := u32 (Size stBody) in
  let! stFrame := WritePbRaw iId (if 0 <? iSize then Some (data stBody) else None) iSize empty_stream in
  Ok (data stFrame).

Section Read.
Context {A : Type} (fnOnFrame : Z -> stream -> A -> A * option fault).

(** The loop; the last component is the code of a PassiveClose. *)
Fixpoint read_frames (fuel : nat) (s : stream) (a : A) : result (stream * A * option Z) :=
  match fuel with
  | O => Err OutOfFuel
  | S fuel =>
      if RemainSize s =? 0 then Ok (s, a, None)
      else
        let s := StartTransaction s in
        let! (st, (iId, iSize, s)) := PreparePbHeader s in
        match st with
        | PB_HEADER_NEED_MORE => Ok (RollBack s, a, None)
        | PB_HEADER_BAD => Ok (s, a, Some PARSER_ERR_OTHER)
        | PB_HEADER_OK =>
            let! stBody := payload iSize s in
            let s := AddCurPos iSize s in
            let (a, thrown) := fnOnFrame iId (of_bytes stBody) a in
            match thrown with
            | None => read_frames fuel s a
            | Some ParserException => Ok (s, a, Some PARSER_ERR_PROTOCOL_SIZE)
            | Some e => Err e
            end
        end
  end.

(** [stInput] afterwards: the bytes from the cursor on, or nothing once the
    session is being closed. *)
Definition ReadRegFrames (stInput : list byte) (a : A) : result (list byte * A * option Z) :=
  let! (s, a, closed) := read_frames (S (length stInput)) (of_bytes stInput) a in
  match closed with
  | Some c => Ok ([], a, Some c)
  | None => Ok (drop (Z.to_nat (m_iCurrentPosition s)) (data s), a, None)
  end.

(** A session's OnDataIn for each piece of input that arrives, until it closes. *)
Fixpoint feed (ps : list (list byte)) (stInput : list byte) (a : A) : result (list byte * A * option Z) :=
  match ps with
  | [] => Ok (stInput, a, None)
  | p :: ps =>
      let! (stInput, a, closed) := ReadRegFrames (stInput ++ p) a in
      match closed with
      | Some c => Ok (stInput, a, Some c)
      | None => feed ps stInput a
      end
  end.

(** The frames one after another, as the callback sees them. *)
Definition deliver (fs : list frame_t) (a : A) : A :=
  fold_left (fun a f => fst (fnOnFrame (fst f) (of_bytes (snd f)) a)) fs a.

Definition quiet (fs : list frame_t) : Prop :=
  Forall (fun f => forall a, snd (fnOnFrame (fst f) (of_bytes (snd f)) a) = None) fs.

(** ** One round *)

Lemma PreparePbHeader_frame pre f rest sn :
  frame_ok f -> fits (pre ++ frame_bytes f ++ rest) ->
  PreparePbHeader (cur pre (frame_bytes f ++ rest) sn) =
  Ok (PB_HEADER_OK, (fst f, lenZ (snd f),
      cur (pre ++ le_encode 4 (fst f) ++ le_encode 4 (lenZ (snd f))) (snd f ++ rest) sn)).
Proof.
  intros Hok Hf. pose proof (ReadPbHeader_frame pre f rest sn Hok Hf) as H. unfold ReadPbHeader in H.
  destruct (PreparePbHeader _) as [[st r]|]; [|done]. cbn [rbind] in H. destruct st; [|done|done]. by injection H as ->.
Qed.

(** A frame that has not arrived completely is waited for. *)
Lemma PreparePbHeader_part pre f r t sn :
  frame_ok f -> frame_bytes f = r ++ t -> t <> [] -> fits (pre ++ r) ->
  PreparePbHeader (cur pre r sn) = Ok (PB_HEADER_NEED_MORE, (0, 0, cur pre r sn)).
Proof.
  intros [Hs He] Ef Ht Hf. unfold PreparePbHeader. rewrite RemainSize_cur by done.
  destruct (Z.ltb_spec (lenZ r) 8); [done|].
  assert (lenZ r < 8 + lenZ (snd f)) as Hlt.
  { rewrite <- lenZ_frame, Ef, lenZ_app. destruct t; [done|]. rewrite lenZ_cons. pose proof (lenZ_nonneg t). lia. }
  assert (r = le_encode 4 (fst f) ++ le_encode 4 (lenZ (snd f)) ++ drop 8 r) as Er.
  { assert (take 8 r = le_encode 4 (fst f) ++ le_encode 4 (lenZ (snd f))) as Et.
    { assert (take 8 (frame_bytes f) = take 8 r) as <-
        by (rewrite Ef, take_app_le; [done|unfold lenZ in *; lia]).
      unfold frame_bytes. rewrite app_assoc, take_app_length'; [done|].
      rewrite length_app, !length_le_encode. done. }
    rewrite app_assoc, <- Et. by rewrite take_drop. }
  rewrite Er. rewrite peek_at_cur0 by apply lenZ_le_encode. cbn [rbind].
  rewrite (peek_at_cur 4 4 pre) by (apply lenZ_le_encode). cbn [rbind].
  rewrite !le_decode_encode_small by (simpl; fit).
  rewrite !s32_nonneg by fit. cbn [orb].
  rewrite <- Er. destruct (Z.ltb_spec (lenZ r) (8 + lenZ (snd f))); [done|lia].
Qed.

Lemma read_frames_frame fuel pre f rest sn a :
  frame_ok f -> fits (pre ++ frame_bytes f ++ rest) -> snd (fnOnFrame (fst f) (of_bytes (snd f)) a) = None ->
  read_frames (S fuel) (cur pre (frame_bytes f ++ rest) sn) a =
  read_frames fuel (cur (pre ++ frame_bytes f) rest (lenZ pre)) (fst (fnOnFrame (fst f) (of_bytes (snd f)) a)).
Proof.
  intros Hok Hf Hq. cbn [read_frames]. rewrite RemainSize_cur by done.
  destruct (Z.eqb_spec (lenZ (frame_bytes f ++ rest)) 0) as [E|].
  { rewrite lenZ_app, lenZ_frame in E. fit. }
  change (StartTransaction (cur pre (frame_bytes f ++ rest) sn)) with (cur pre (frame_bytes f ++ rest) (lenZ pre)).
  rewrite PreparePbHeader_frame by done. cbn [rbind]. rewrite payload_cur. cbn [rbind].
  rewrite AddCurPos_cur by (unfold frame_bytes in Hf; by rewrite <- !app_assoc in * ).
  destruct (fnOnFrame _ _ a) as [a' [e|]]; [done|]. cbn [fst]. do 2 f_equal.
  unfold frame_bytes. by rewrite <- !app_assoc.
Qed.

(** Complete frames, then the beginning of another. *)
Lemma read_frames_all fs : forall fuel pre r f t sn a,
  Forall frame_ok fs -> quiet fs -> frame_ok f -> frame_bytes f = r ++ t -> t <> [] ->
  (length fs < fuel)%nat -> fits (pre ++ frames_bytes fs ++ r) ->
  exists sn', read_frames fuel (cur pre (frames_bytes fs ++ r) sn) a =
    Ok (cur (pre ++ frames_bytes fs) r sn', deliver fs a, None).
Proof.
  induction fs as [|g fs IH]; intros fuel pre r f t sn a Hfs Hq Hf Ef Ht Hfuel Hfit;
    (destruct fuel as [|fuel]; [simpl in Hfuel; lia|]).
  - change (frames_bytes []) with (@nil byte) in *. rewrite app_nil_l in *. rewrite app_nil_r. cbn [read_frames deliver fold_left].
    rewrite RemainSize_cur by done. destruct (Z.eqb_spec (lenZ r) 0); [by eexists|].
    change (StartTransaction (cur pre r sn)) with (cur pre r (lenZ pre)).
    rewrite (PreparePbHeader_part pre f r t) by done. cbn [rbind]. by eexists.
  - rewrite frames_bytes_cons in *. rewrite <- app_assoc in *. apply Forall_cons in Hfs as [Hg Hfs].
    apply Forall_cons in Hq as [Hg' Hq]. rewrite read_frames_frame by done.
    destruct (IH fuel (pre ++ frame_bytes g) r f t (lenZ pre) (fst (fnOnFrame (fst g) (of_bytes (snd g)) a))) as (sn' & ->);
      try done; [simpl in Hfuel; lia|by rewrite <- app_assoc|].
    exists sn'. by rewrite <- app_assoc.
Qed.

(** Any beginning of a sequence of frames is some of its frames and the
    beginning of the next. *)
Lemma frames_prefix fs : forall l t, frames_bytes fs = l ++ t ->
  (t = [] \/ exists k f r t', l = frames_bytes (take k fs) ++ r /\ fs !! k = Some f /\ frame_bytes f = r ++ t' /\ t' <> []).
Proof.
  induction fs as [|f fs IH]; intros l t E.
  - left. change (frames_bytes []) with (@nil byte) in E. by apply eq_sym, app_nil in E as [_ ->].
  - destruct (decide (t = [])) as [|Ht]; [by left|]. right. rewrite frames_bytes_cons in E.
    destruct (decide (length l < length (frame_bytes f))%nat) as [Hl|Hl].
    + exists 0%nat, f, l, (drop (length l) (frame_bytes f)). split_and!; [done|done| |].
      * assert (take (length l) (frame_bytes f) = l) as El.
        { rewrite <- (take_app_le _ (frames_bytes fs)) by lia. by rewrite E, take_app_length. }
        rewrite <- El at 1. by rewrite take_drop.
      * intros E'. apply (f_equal length) in E'. rewrite length_drop in E'. change (length []) with 0%nat in E'. lia.
    + assert (l = frame_bytes f ++ drop (length (frame_bytes f)) l) as El.
      { assert (take (length (frame_bytes f)) l = frame_bytes f) as Et.
        { rewrite <- (take_app_le _ t) by lia. rewrite <- E. by rewrite take_app_length. }
        rewrite <- Et at 1. by rewrite take_drop. }
      rewrite El, <- app_assoc in E. apply app_inv_head in E. destruct (IH _ _ E) as [->|(k & g & r & t' & E1 & Hk & Eg & Ht')]; [done|].
      exists (S k), g, r, t'. split_and!; try done. cbn [take]. rewrite frames_bytes_cons, <- app_assoc, <- E1. exact El.
Qed.

Lemma read_frames_end fs fuel a :
  Forall frame_ok fs -> quiet fs -> (length fs < fuel)%nat -> fits (frames_bytes fs) ->
  exists sn', read_frames fuel (of_bytes (frames_bytes fs)) a = Ok (cur (frames_bytes fs) [] sn', deliver fs a, None).
Proof.
  intros Hfs Hq Hf Hfit.
  destruct (read_frames_all fs fuel [] [] (0, []) (frame_bytes (0, [])) 0 a) as (sn' & E); try done.
  - by rewrite app_nil_l, app_nil_r.
  - rewrite app_nil_r in E. rewrite of_bytes_cur, E. by exists sn'.
Qed.

Lemma ReadRegFrames_end fs a :
  Forall frame_ok fs -> quiet fs -> fits (frames_bytes fs) ->
  ReadRegFrames (frames_bytes fs) a = Ok ([], deliver fs a, None).
Proof.
  intros Hfs Hq Hfit. unfold ReadRegFrames. pose proof (length_frames_bytes fs).
  destruct (read_frames_end fs (S (length (frames_bytes fs))) a) as (sn' & ->); [done|done|lia|done|].
  cbn [rbind cur data m_iCurrentPosition]. unfold lenZ. rewrite Nat2Z.id. by rewrite drop_app_length.
Qed.

Lemma ReadRegFrames_part fs r f t a :
  Forall frame_ok fs -> quiet fs -> frame_ok f -> frame_bytes f = r ++ t -> t <> [] -> fits (frames_bytes fs ++ r) ->
  ReadRegFrames (frames_bytes fs ++ r) a = Ok (r, deliver fs a, None).
Proof.
  intros Hfs Hq Hf Ef Ht Hfit. unfold ReadRegFrames. pose proof (length_frames_bytes fs).
  destruct (read_frames_all fs (S (length (frames_bytes fs ++ r))) [] r f t 0 a) as (sn' & E); try done.
  { rewrite length_app. lia. }
  rewrite of_bytes_cur, E. cbn [rbind cur data m_iCurrentPosition]. rewrite app_nil_l. unfold lenZ. rewrite Nat2Z.id.
  by rewrite drop_app_length.
Qed.

(** Complete frames in front of anything. *)
Lemma read_frames_through fs : forall fuel pre rest sn a,
  Forall frame_ok fs -> quiet fs -> fits (pre ++ frames_bytes fs ++ rest) ->
  exists sn', read_frames (length fs + fuel) (cur pre (frames_bytes fs ++ rest) sn) a =
    read_frames fuel (cur (pre ++ frames_bytes fs) rest sn') (deliver fs a).
Proof.
  induction fs as [|f fs IH]; intros fuel pre rest sn a Hfs Hq Hfit.
  - exists sn. change (frames_bytes []) with (@nil byte). by rewrite app_nil_r.
  - rewrite frames_bytes_cons in *. rewrite <- app_assoc in *. apply Forall_cons in Hfs as [Hf Hfs].
    apply Forall_cons in Hq as [Hf' Hq]. cbn [length Nat.add]. rewrite read_frames_frame by done.
    destruct (IH fuel (pre ++ frame_bytes f) rest (lenZ pre) (fst (fnOnFrame (fst f) (of_bytes (snd f)) a))) as (sn' & ->);
      try done; [by rewrite <- app_assoc|].
    exists sn'. by rewrite <- app_assoc.
Qed.

Lemma ReadRegFrames_through fs rest a c s a' :
  Forall frame_ok fs -> quiet fs -> fits (frames_bytes fs ++ rest) ->
  (forall fuel sn, read_frames (S fuel) (cur (frames_bytes fs) rest sn) (deliver fs a) = Ok (s sn, a', Some c)) ->
  ReadRegFrames (frames_bytes fs ++ rest) a = Ok ([], a', Some c).
Proof.
  intros Hfs Hq Hfit Hstep. unfold ReadRegFrames. pose proof (length_frames_bytes fs).
  destruct (read_frames_through fs (S (length (frames_bytes fs ++ rest) - length fs)) [] rest 0 a) as (sn' & E); try done.
  rewrite of_bytes_cur.
  replace (S (length (frames_bytes fs ++ rest))) with (length fs + S (length (frames_bytes fs ++ rest) - length fs))%nat
    by (rewrite length_app; lia).
  rewrite E, app_nil_l, Hstep. done.
Qed.

(** ** Properties *)

(** A session hands its frames to the callback once each and in
    order, however their bytes were cut on the way; afterwards nothing is left in
    its buffer and it is not closed. *)
Theorem frames_delivered fs ps a :
  Forall frame_ok fs -> quiet fs -> fits (frames_bytes fs) -> concat ps = frames_bytes fs ->
  feed ps [] a = Ok ([], deliver fs a, None).
Proof.
  intros Hfs Hq Hfit.
  assert (forall ps r fs a, Forall frame_ok fs -> quiet fs -> fits (frames_bytes fs) ->
    r ++ concat ps = frames_bytes fs -> (ps = [] -> fs = []) -> feed ps r a = Ok ([], deliver fs a, None)) as Hg.
  { clear. induction ps as [|p ps IH]; intros r fs a Hfs Hq Hfit E Hnil; cbn [feed].
    - rewrite (Hnil eq_refl) in *. cbn in E. apply app_nil in E as [-> _]. done.
    - cbn [concat] in E. rewrite app_assoc in E. destruct (frames_prefix fs _ _ (eq_sym E)) as [Et|(k & f & r' & t' & El & Hk & Ef & Ht')].
      + rewrite Et, app_nil_r in E. rewrite E, ReadRegFrames_end by done. cbn [rbind].
        apply (IH [] [] (deliver fs a)); try done. by constructor.
      + pose proof (take_drop k fs) as Htd. rewrite <- Htd in Hfs, Hq. apply Forall_app in Hfs as [Hf1 Hf2]. apply Forall_app in Hq as [Hq1 Hq2].
        assert (frame_ok f) as Hf. { rewrite (drop_S _ _ _ Hk) in Hf2. by apply Forall_cons in Hf2 as [? _]. }
        rewrite El, (ReadRegFrames_part _ r' f t') by (done || (rewrite <- El; rewrite <- E in Hfit; fit)).
        cbn [rbind]. rewrite (IH r' (drop k fs)); try done.
        * unfold deliver. rewrite <- fold_left_app. by rewrite Htd.
        * rewrite <- Htd, frames_bytes_app in Hfit. fit.
        * rewrite El, <- Htd, frames_bytes_app, <- app_assoc in E.
          rewrite Htd in E. by apply app_inv_head in E.
        * intros ->. cbn [concat] in E. rewrite app_nil_r in E. exfalso.
          rewrite El in E. assert (frames_bytes (take k fs) ++ r' = frames_bytes (take k fs) ++ frames_bytes (drop k fs)) as E'
            by (rewrite <- frames_bytes_app, Htd; done).
          apply app_inv_head in E'. rewrite (drop_S _ _ _ Hk), frames_bytes_cons, Ef, <- app_assoc in E'.
          rewrite <- (app_nil_r r') in E' at 1. apply app_inv_head in E'. by destruct t'. }
  intros E. destruct ps as [|p ps].
  - cbn in E. destruct fs as [|f fs]; [done|]. exfalso. apply (f_equal lenZ) in E. rewrite frames_bytes_cons, lenZ_app, lenZ_frame in E.
    rewrite lenZ_nil in E. fit.
  - by apply Hg.
Qed.

End Read.

(** A frame whose payload the handler cannot parse, and a header with
    the top bit set, close the session with their own error code and discard what
    was buffered, after the frames before them have been handled. *)
Theorem bad_frame_closes {A} (fnOnFrame : Z -> stream -> A -> A * option fault) fs rest a :
  Forall frame_ok fs -> quiet fnOnFrame fs -> fits (frames_bytes fs ++ rest) ->
  (forall f rest', rest = frame_bytes f ++ rest' -> frame_ok f ->
     snd (fnOnFrame (fst f) (of_bytes (snd f)) (deliver fnOnFrame fs a)) = Some ParserException ->
     ReadRegFrames fnOnFrame (frames_bytes fs ++ rest) a =
       Ok ([], fst (fnOnFrame (fst f) (of_bytes (snd f)) (deliver fnOnFrame fs a)), Some PARSER_ERR_PROTOCOL_SIZE)) /\
  (forall seq size rest', rest = le_encode 4 seq ++ le_encode 4 size ++ rest' ->
     0 <= seq < 2 ^ 32 -> 0 <= size < 2 ^ 32 -> INT32_MAX < seq \/ INT32_MAX < size ->
     ReadRegFrames fnOnFrame (frames_bytes fs ++ rest) a = Ok ([], deliver fnOnFrame fs a, Some PARSER_ERR_OTHER)).
Proof.
  intros Hfs Hq Hfit. split.
  - intros f rest' -> Hf Ht.
    eapply (ReadRegFrames_through _ _ _ _ _ (fun _ => cur ((frames_bytes fs) ++ frame_bytes f) rest' (lenZ (frames_bytes fs)))); [done..|].
    intros fuel sn. cbn [read_frames]. rewrite RemainSize_cur by done.
    destruct (Z.eqb_spec (lenZ (frame_bytes f ++ rest')) 0) as [E|]; [rewrite lenZ_app, lenZ_frame in E; fit|].
    change (StartTransaction (cur ?p ?l sn)) with (cur p l (lenZ p)).
    rewrite PreparePbHeader_frame by done. cbn [rbind]. rewrite payload_cur. cbn [rbind].
    rewrite AddCurPos_cur by (unfold frame_bytes in Hfit; by rewrite <- !app_assoc in * ).
    destruct (fnOnFrame _ _ _) as [a' e]. cbn [snd fst] in *. subst e. unfold frame_bytes. by rewrite <- !app_assoc.
  - intros seq size rest' -> Hs Hz Hbad.
    eapply (ReadRegFrames_through _ _ _ _ _ (fun _ => cur (frames_bytes fs) (le_encode 4 seq ++ le_encode 4 size ++ rest') (lenZ (frames_bytes fs)))); [done..|].
    intros fuel sn. cbn [read_frames]. rewrite RemainSize_cur by done.
    assert (lenZ (le_encode 4 seq ++ le_encode 4 size ++ rest') = 8 + lenZ rest') as El
      by (rewrite !lenZ_app, !lenZ_le_encode; lia).
    rewrite El. pose proof (lenZ_nonneg rest').
    destruct (Z.eqb_spec (8 + lenZ rest') 0); [lia|].
    change (StartTransaction (cur ?p ?l sn)) with (cur p l (lenZ p)).
    unfold PreparePbHeader. rewrite RemainSize_cur, El by done. destruct (Z.ltb_spec (8 + lenZ rest') 8); [lia|].
    rewrite peek_at_cur0 by apply lenZ_le_encode. cbn [rbind].
    rewrite (peek_at_cur 4 4 (frames_bytes fs)) by (apply lenZ_le_encode). cbn [rbind].
    rewrite !le_decode_encode_small by (simpl; lia). rewrite !s32_ltb by done.
    destruct (Z.ltb_spec INT32_MAX seq), (Z.ltb_spec INT32_MAX size); try lia; done.
Qed.

(** ** Witnesses *)

(** A handler that keeps what it is given and does not understand field 9. *)
Definition keep (iId : Z) (stBody : stream) (a : list (Z * list byte)) : list (Z * list byte) * option fault :=
  if iId =? 9 then (a, Some ParserException) else (a ++ [(iId, data stBody)], None).

Definition three_frames : list frame_t := [(5, txt "ab"); (6, []); (7, txt "c")].

Lemma frames_delivered_witness :
  feed keep [take 3 (frames_bytes three_frames); []; take 9 (drop 3 (frames_bytes three_frames)); drop 12 (frames_bytes three_frames)] [] [] =
  Ok ([], three_frames, None).
Proof.
  apply (frames_delivered keep three_frames
    [take 3 (frames_bytes three_frames); []; take 9 (drop 3 (frames_bytes three_frames)); drop 12 (frames_bytes three_frames)] []).
  - repeat constructor; vm_compute; congruence.
  - repeat constructor.
  - vm_compute; congruence.
  - reflexivity.
Defined.

Lemma bad_frame_closes_witness :
  ReadRegFrames keep (frames_bytes [(5, txt "ab")] ++ frame_bytes (9, txt "x") ++ [Byte.x01]) [] =
    Ok ([], [(5, txt "ab")], Some PARSER_ERR_PROTOCOL_SIZE) /\
  ReadRegFrames keep (frames_bytes [(5, txt "ab")] ++ le_encode 4 1 ++ le_encode 4 (2 ^ 31) ++ [Byte.x01]) [] =
    Ok ([], [(5, txt "ab")], Some PARSER_ERR_OTHER).
Proof.
  assert (Forall frame_ok [(5, txt "ab")]) as Hok by (repeat constructor; vm_compute; congruence).
  assert (quiet keep [(5, txt "ab")]) as Hq by repeat constructor.
  split.
  - refine (proj1 (bad_frame_closes keep [(5, txt "ab")] (frame_bytes (9, txt "x") ++ [Byte.x01]) [] Hok Hq _)
              (9, txt "x") [Byte.x01] eq_refl _ eq_refl).
    + vm_compute; congruence.
    + split; vm_compute; repeat split; congruence.
  - refine (proj2 (bad_frame_closes keep [(5, txt "ab")] (le_encode 4 1 ++ le_encode 4 (2 ^ 31) ++ [Byte.x01]) [] Hok Hq _)
              1 (2 ^ 31) [Byte.x01] eq_refl _ _ _).
    + vm_compute; congruence.
    + lia.
    + lia.
    + right. vm_compute. reflexivity.
Defined.

End RegFrame.
