(* ===== verification/RegistryServer.v ===== *)
(** * The registry process

    modules/registry/src/registry_server.cpp: which service instances are online.
    The truth is in Redis, one key with an expiry per instance; the process keeps
    the registrations made over each connection and a snapshot for its clients.

    Everything happens on one thread, but each registration, renewal, withdrawal
    and reload is a coroutine that waits for Redis in its middle.  A coroutine is
    modelled by its two halves: what happens up to the command is in the handler
    that starts it, and [resume_Register] and the like are what happens from the
    answer on.  [run_register] and the like are the scripts Redis runs.  RegistryWorld.v puts the process and Redis
    together. *)

From S2P Require Import Prelude Decimal Text Json BytesStream RpcData Redis.

Module RegistryServer.
Import Text RpcData Redis.

Definition PROTO_REG_REGISTER : Z := 4.
Definition PROTO_REG_REGISTER_RES : Z := 5.
Definition PROTO_REG_HEARTBEAT : Z := 6.
Definition PROTO_REG_HEARTBEAT_RES : Z := 7.
Definition PROTO_REG_PULL : Z := 8.
Definition PROTO_REG_PULL_RES : Z := 9.

Definition OI_OK : Z := 0.
Definition OI_ERR_FAIL : Z := -1.
Definition OI_ERR_EXIST : Z := -4.

Definition REG_FAIL : Z := -1.
Definition REG_TAKEN : Z := 0.
Definition REG_OK : Z := 1.
Definition REG_RENEWED : Z := 2.

(** ** Data *)

Record ServiceInstance : Type := mkInstance {
  si_sName : list byte;
  si_iId : Z;
  si_sIp : list byte;
  si_sPort : list byte;
  si_sZone : list byte
}.

Record Binding : Type := mkBinding {
  sName : list byte;
  iId : Z;
  sIp : list byte;
  sPort : list byte;
  sZone : list byte;
  sValue : list byte
}.

Definition space_char (b : byte) : bool :=
  let c := byteZ b in
  ((97 <=? c) && (c <=? 122)) || ((65 <=? c) && (c <=? 90)) || ((48 <=? c) && (c <=? 57)) || (c =? 95) || (c =? 45).

Definition ValidSpacePart (sText : list byte) : bool :=
  if lenZ sText =? 0 then false else forallb space_char sText.

(** Address, port and zone of a value "ip port" or "ip port zone". *)
Definition ParseValue (sValue : list byte) : option (list byte * list byte * list byte) :=
  match find (txt " ") sValue 0 with
  | None => None
  | Some iFirst =>
      if iFirst =? 0 then None
      else
        let iSecond := find (txt " ") sValue (iFirst + 1) in
        let sIp := sub 0 iFirst sValue in
        let sPort := match iSecond with
                     | None => drop (Z.to_nat (iFirst + 1)) sValue
                     | Some e => sub (iFirst + 1) (e - iFirst - 1) sValue
                     end in
        match iSecond with
        | None => if negb (lenZ sIp =? 0) && negb (lenZ sPort =? 0) then Some (sIp, sPort, []) else None
        | Some e =>
            let sZone := drop (Z.to_nat (e + 1)) sValue in
            if (lenZ sZone =? 0) || (match find (txt " ") sZone 0 with Some _ => true | None => false end) then None
            else if negb (lenZ sIp =? 0) && negb (lenZ sPort =? 0) then Some (sIp, sPort, sZone) else None
        end
  end.

(** The value Handle makes of a registration. *)
Definition value_text (sIp sPort sZone : list byte) : list byte :=
  sIp ++ txt " " ++ sPort ++ (if lenZ sZone =? 0 then [] else txt " " ++ sZone).

Definition ReplyInt (r : reply) : Z := match r with ReplyInteger z => s32 z | _ => -1 end.

(** std::atoi, for numbers an int can hold: white space, a sign, digits. *)
Definition is_space (b : byte) : bool := let c := byteZ b in (c =? 32) || ((9 <=? c) && (c <=? 13)).

Definition atoi (l : list byte) : Z :=
  let l := drop (Z.to_nat (span_while is_space l)) l in
  let digits t := Decimal.dec_value 0 (take (Z.to_nat (span_while Decimal.is_digit t)) t) in
  match l with
  | [] => 0
  | b :: t => if byteZ b =? 45 then - digits t else if byteZ b =? 43 then digits t else digits l
  end.

(** ** The scripts *)

Inductive lua : Type := kRegisterLua | kRefreshLua | kWithdrawLua | kListAllLua.

Section Scripts.
Context {D : Type} `{RedisStore D}.

Definition run_register (k1 k2 k3 a1 a2 a3 a4 : list byte) (d : D) : D * Z :=
  let occupy d := SADD k3 a4 (SADD k2 a3 (SET_PX k1 a1 a2 d)) in
  match GET d k1 with
  | Some v => if bytes_eqb v a1 then (occupy d, 1) else (d, 0)
  | None => (occupy d, 1)
  end.

Definition run_refresh (k1 k2 k3 a1 a2 a3 a4 : list byte) (d : D) : D * Z :=
  match GET d k1 with
  | Some v =>
      if bytes_eqb v a1 then (SADD k3 a4 (SADD k2 a3 (PEXPIRE k1 a2 d)), 1) else (d, 0)
  | None => (SADD k3 a4 (SADD k2 a3 (SET_PX k1 a1 a2 d)), 2)
  end.

Definition run_withdraw (k1 k2 a1 a2 : list byte) (d : D) : D * Z :=
  match GET d k1 with
  | Some v => if bytes_eqb v a1 then (SREM k2 a2 (DEL k1 d), 1) else (d, 1)
  | None => (d, 1)
  end.

(** The inner loop: the ids of one name; [alive] counts those that live. *)
Fixpoint list_ids (n set : list byte) (ids : list (list byte)) (d : D) : D * list (list byte) * Z :=
  match ids with
  | [] => (d, [], 0)
  | id :: ids =>
      match GET d (set ++ txt ":" ++ id) with
      | Some v => let '(d, out, alive) := list_ids n set ids d in (d, n :: id :: v :: out, alive + 1)
      | None => list_ids n set ids (SREM set id d)
      end
  end.

Fixpoint list_names (k1 a1 : list byte) (names : list (list byte)) (d : D) : D * list (list byte) :=
  match names with
  | [] => (d, [])
  | n :: names =>
      let set := a1 ++ n in
      let '(d, out, alive) := list_ids n set (SMEMBERS d set) d in
      let d := if alive =? 0 then SREM k1 n d else d in
      let '(d, out') := list_names k1 a1 names d in
      (d, out ++ out')
  end.

Definition run_list (k1 a1 : list byte) (d : D) : D * list (list byte) := list_names k1 a1 (SMEMBERS d k1) d.

Definition arg (i : nat) (l : list (list byte)) : list byte := nth (i - 1) l [].

(** EVAL. *)
Definition run_script (e : eval lua) (d : D) : D * reply :=
  let K i := arg i (KEYS e) in
  let A i := arg i (ARGV e) in
  match script e with
  | kRegisterLua =>
      let (d, z) := run_register (K 1%nat) (K 2%nat) (K 3%nat) (A 1%nat) (A 2%nat) (A 3%nat) (A 4%nat) d in (d, ReplyInteger z)
  | kRefreshLua =>
      let (d, z) := run_refresh (K 1%nat) (K 2%nat) (K 3%nat) (A 1%nat) (A 2%nat) (A 3%nat) (A 4%nat) d in (d, ReplyInteger z)
  | kWithdrawLua => let (d, z) := run_withdraw (K 1%nat) (K 2%nat) (A 1%nat) (A 2%nat) d in (d, ReplyInteger z)
  | kListAllLua => let (d, out) := run_list (K 1%nat) (A 1%nat) d in (d, ReplyArray (map Some out))
  end.

End Scripts.

(** ** The space *)

(** LoadSpace on the two configured texts: m_sSpace and m_sPrefix. *)
Definition LoadSpace (sProject sEnvironment : list byte) : option (list byte * list byte) :=
  if negb (ValidSpacePart sProject) || negb (ValidSpacePart sEnvironment) then None
  else
    let m_sSpace := sProject ++ txt "." ++ sEnvironment in
    Some (m_sSpace, txt "oi:{" ++ m_sSpace ++ txt "}:").

(** Init on pull_ms and expire_ms. *)
Definition configured_ms (value default : Z) : Z := if value <=? 0 then default else value.

(** ** The process *)

Record server : Type := mkServer {
  m_vAlive : gset Z;
  m_mBindings : gmap Z (list Binding);
  m_vSnapshot : list ServiceInstance;
  m_bSnapshotOk : bool;
  m_bReloading : bool
}.

Definition new_server : server := mkServer ∅ ∅ [] false false.

Definition set_bindings (m : gmap Z (list Binding)) (s : server) : server :=
  mkServer (m_vAlive s) m (m_vSnapshot s) (m_bSnapshotOk s) (m_bReloading s).
Definition set_snapshot (l : list ServiceInstance) (s : server) : server :=
  mkServer (m_vAlive s) (m_mBindings s) l (m_bSnapshotOk s) (m_bReloading s).

(** A coroutine waiting for Redis. *)
Inductive task : Type :=
| Register (iSessionId : Z) (stSecond : Binding)
| Refresh (iSessionId : Z) (stSecond : Binding)
| Withdraw (stSecond : Binding)
| Reload.

(** A message for a client. *)
Inductive message : Type :=
| MsgRegisterRes (m : RegRegisterRes)
| MsgHeartbeatRes (m : RegHeartbeatRes)
| MsgPullRes (m : RegPullRes).

Record sent : Type := mkSent { to : Z; proto : Z; body : message }.

(** What a handler does besides changing the process: coroutines started and
    messages sent, in order. *)
Abbreviation effects := (server * list task * list sent)%type.

Section Server.
Context (m_sPrefix : list byte) (m_iExpireMilliseconds : Z).

Definition Key (sTail : list byte) : list byte := m_sPrefix ++ sTail.

Definition instance_key (n : list byte) (i : Z) : list byte :=
  Key (txt "svc:" ++ n ++ txt ":" ++ Decimal.to_string i).

Definition EvalArgs (pLua : lua) (b : Binding) : eval lua :=
  mkEval pLua [instance_key (sName b) (iId b); Key (txt "svc:" ++ sName b); Key (txt "svc")]
    [sValue b; Decimal.to_string m_iExpireMilliseconds; Decimal.to_string (iId b); sName b].

(** The commands of Withdraw and Reload. *)
Definition WithdrawArgs (b : Binding) : eval lua :=
  mkEval kWithdrawLua [instance_key (sName b) (iId b); Key (txt "svc:" ++ sName b)] [sValue b; Decimal.to_string (iId b)].

Definition ReloadArgs : eval lua := mkEval kListAllLua [Key (txt "svc")] [Key (txt "svc:")].

(** The command a coroutine waits for. *)
Definition command (t : task) : eval lua :=
  match t with
  | Register _ b => EvalArgs kRegisterLua b
  | Refresh _ b => EvalArgs kRefreshLua b
  | Withdraw b => WithdrawArgs b
  | Reload => ReloadArgs
  end.

Definition same_id (n : list byte) (i : Z) (b : Binding) : bool := bytes_eqb (sName b) n && (iId b =? i).

Definition FindBinding (sid : Z) (n : list byte) (i : Z) (s : server) : option Binding :=
  l ← m_mBindings s !! sid; List.find (same_id n i) l.

(** Erases the first element a test holds of. *)
Fixpoint erase_first {A} (p : A -> bool) (l : list A) : list A :=
  match l with
  | [] => []
  | x :: l => if p x then l else x :: erase_first p l
  end.

(** Overwrites it. *)
Fixpoint replace_first {A} (p : A -> bool) (y : A) (l : list A) : list A :=
  match l with
  | [] => []
  | x :: l => if p x then y :: l else x :: replace_first p y l
  end.

Definition same_instance (n : list byte) (i : Z) (x : ServiceInstance) : bool := bytes_eqb (si_sName x) n && (si_iId x =? i).

Definition DropSnapshot (n : list byte) (i : Z) (s : server) : server :=
  set_snapshot (erase_first (same_instance n i) (m_vSnapshot s)) s.

Definition PutSnapshot (b : Binding) (s : server) : server :=
  let s := DropSnapshot (sName b) (iId b) s in
  set_snapshot (m_vSnapshot s ++ [mkInstance (sName b) (iId b) (sIp b) (sPort b) (sZone b)]) s.

Definition StartReload (s : server) : effects :=
  if m_bReloading s then (s, [], [])
  else (mkServer (m_vAlive s) (m_mBindings s) (m_vSnapshot s) (m_bSnapshotOk s) true, [Reload], []).

Definition OnAddSession (sid : Z) (s : server) : server :=
  mkServer ({[ sid ]} ∪ m_vAlive s) (m_mBindings s) (m_vSnapshot s) (m_bSnapshotOk s) (m_bReloading s).

Definition OnDelSession (sid : Z) (s : server) : effects :=
  let s := mkServer (m_vAlive s ∖ {[ sid ]}) (m_mBindings s) (m_vSnapshot s) (m_bSnapshotOk s) (m_bReloading s) in
  match m_mBindings s !! sid with
  | None => (s, [], [])
  | Some vList =>
      (fold_left (fun s b => DropSnapshot (sName b) (iId b) s) vList (set_bindings (delete sid (m_mBindings s)) s),
       map Withdraw vList, [])
  end.

(** *** The second halves *)

(** Three elements of the answer; what is not three strings, or no address, is
    left out. *)
Definition snapshot_entry (pName pId pValue : option (list byte)) : option ServiceInstance :=
  match pName, pId, pValue with
  | Some n, Some i, Some v =>
      '(ip, port, zone) ← ParseValue v; Some (mkInstance n (atoi i) ip port zone)
  | _, _, _ => None
  end.

Fixpoint snapshot_entries (elements : list (option (list byte))) : list ServiceInstance :=
  match elements with
  | pName :: pId :: pValue :: elements =>
      match snapshot_entry pName pId pValue with
      | Some x => x :: snapshot_entries elements
      | None => snapshot_entries elements
      end
  | _ => []
  end.

Definition resume_Reload (r : reply) (s : server) : effects :=
  let s := mkServer (m_vAlive s) (m_mBindings s) (m_vSnapshot s) (m_bSnapshotOk s) false in
  match r with
  | ReplyArray elements =>
      (mkServer (m_vAlive s) (m_mBindings s) (snapshot_entries elements) true false, [], [])
  | _ => (s, [], [])
  end.

Definition register_res (sid code : Z) : sent := mkSent sid PROTO_REG_REGISTER_RES (MsgRegisterRes (mkRegHeartbeatRes code)).
Definition heartbeat_res (sid code : Z) : sent := mkSent sid PROTO_REG_HEARTBEAT_RES (MsgHeartbeatRes (mkRegHeartbeatRes code)).

Definition resume_Register (sid : Z) (b : Binding) (r : reply) (s : server) : effects :=
  let rc := ReplyInt r in
  if negb (bool_decide (sid ∈ m_vAlive s)) then
    (s, if rc =? REG_OK then [Withdraw b] else [], [])
  else if rc =? REG_OK then
    let l := default [] (m_mBindings s !! sid) in
    let l := match FindBinding sid (sName b) (iId b) s with
             | None => l ++ [b]
             | Some _ => replace_first (same_id (sName b) (iId b)) b l
             end in
    (PutSnapshot b (set_bindings (<[sid := l]> (m_mBindings s)) s), [], [register_res sid OI_OK])
  else if rc =? REG_TAKEN then (s, [], [register_res sid OI_ERR_EXIST])
  else (s, [], [register_res sid OI_ERR_FAIL]).

(** The snapshot entry that still points at this registration's address. *)
Definition same_address (b : Binding) (x : ServiceInstance) : bool :=
  same_instance (sName b) (iId b) x && bytes_eqb (si_sIp x) (sIp b) && bytes_eqb (si_sPort x) (sPort b).

Definition resume_Refresh (sid : Z) (b : Binding) (r : reply) (s : server) : effects :=
  let rc := ReplyInt r in
  let pFound := if bool_decide (sid ∈ m_vAlive s) then FindBinding sid (sName b) (iId b) s else None in
  let ok := (rc =? REG_OK) || (rc =? REG_RENEWED) in
  if match pFound with Some f => negb (bytes_eqb (sValue f) (sValue b)) | None => true end then
    (s, if ok then [Withdraw b] else [], [])
  else if ok then
    (if rc =? REG_RENEWED then PutSnapshot b s else s, [], [heartbeat_res sid OI_OK])
  else if rc =? REG_TAKEN then
    let l := erase_first (same_id (sName b) (iId b)) (default [] (m_mBindings s !! sid)) in
    let s := set_bindings (<[sid := l]> (m_mBindings s)) s in
    (set_snapshot (erase_first (same_address b) (m_vSnapshot s)) s, [], [heartbeat_res sid OI_ERR_EXIST])
  else (s, [], [heartbeat_res sid OI_ERR_FAIL]).

(** Some connection holds a registration of this name and id. *)
Definition registered (n : list byte) (i : Z) (s : server) : bool :=
  existsb (fun p => existsb (same_id n i) (snd p)) (map_to_list (m_mBindings s)).

Definition resume_Withdraw (b : Binding) (r : reply) (s : server) : effects :=
  (if registered (sName b) (iId b) s then s else DropSnapshot (sName b) (iId b) s, [], []).

Definition resume (t : task) (r : reply) (s : server) : effects :=
  match t with
  | Register sid b => resume_Register sid b r s
  | Refresh sid b => resume_Refresh sid b r s
  | Withdraw b => resume_Withdraw b r s
  | Reload => resume_Reload r s
  end.

(** *** Requests *)

Definition acceptable (q : RegRegister) : bool :=
  ValidSpacePart (ri_sName q) && (0 <? ri_iId q) && negb (lenZ (ri_sIp q) =? 0) && negb (lenZ (ri_sPort q) =? 0) &&
  ((lenZ (ri_sZone q) =? 0) || ValidSpacePart (ri_sZone q)).

Definition binding_of (q : RegRegister) : Binding :=
  mkBinding (ri_sName q) (ri_iId q) (ri_sIp q) (ri_sPort q) (ri_sZone q)
    (value_text (ri_sIp q) (ri_sPort q) (ri_sZone q)).

Definition wanted (vNames : list (list byte)) (x : ServiceInstance) : bool :=
  match vNames with [] => true | _ => existsb (fun n => bytes_eqb n (si_sName x)) vNames end.

Definition pull_answer (q : RegPull) (s : server) : RegPullRes :=
  if m_bSnapshotOk s then
    mkRegPullRes OI_OK
      (map (fun x => mkRegInstance (si_sName x) (si_iId x) (si_sIp x) (si_sPort x) (si_sZone x))
         (List.filter (wanted (rp_vNames q)) (m_vSnapshot s)))
  else mkRegPullRes OI_ERR_FAIL [].

(** Handle; what deserialize throws is thrown on to ReadRegFrames. *)
Definition Handle (sid iIdLocal : Z) (stBody : BytesStream.stream) (s : server) : result effects :=
  if iIdLocal =? PROTO_REG_REGISTER then
    let! (q, _) := deserialize_RegInstance new_RegInstance stBody in
    if negb (acceptable q) then Ok (s, [], [register_res sid OI_ERR_FAIL])
    else Ok (s, [Register sid (binding_of q)], [])
  else if iIdLocal =? PROTO_REG_HEARTBEAT then
    let! (q, _) := deserialize_RegHeartbeat (mkRegHeartbeat [] 0) stBody in
    match FindBinding sid (hb_sName q) (hb_iId q) s with
    | None => Ok (s, [], [heartbeat_res sid OI_ERR_FAIL])
    | Some b => Ok (s, [Refresh sid b], [])
    end
  else if iIdLocal =? PROTO_REG_PULL then
    let! (q, _) := deserialize_RegPull (mkRegPull []) stBody in
    Ok (s, [], [mkSent sid PROTO_REG_PULL_RES (MsgPullRes (pull_answer q s))])
  else Ok (s, [], []).

End Server.

(** ** Names, keys and values *)

(** Names and ids as Handle accepts them. *)
Definition named (n : list byte) (i : Z) : Prop := ValidSpacePart n = true /\ 0 < i < 2 ^ 31.

Definition good (b : Binding) : Prop := named (sName b) (iId b).

Definition no_space (l : list byte) : Prop := no_byte Byte.x20 l.

Lemma space_chars_not x l : space_char x = false -> forallb space_char l = true -> no_byte x l.
Proof.
  intros Hx Hl. apply Forall_forall. intros b Hb ->. apply list_elem_of_In in Hb.
  rewrite forallb_forall in Hl. by rewrite (Hl _ Hb) in Hx.
Qed.

Lemma valid_not x n : space_char x = false -> ValidSpacePart n = true -> no_byte x n.
Proof. unfold ValidSpacePart. destruct (lenZ n =? 0); [done|]. apply space_chars_not. Qed.

(** Two texts followed by the same byte, which neither contains, are equal. *)
Lemma no_byte_split x l l' r r' : no_byte x l -> no_byte x l' -> l ++ x :: r = l' ++ x :: r' -> l = l' /\ r = r'.
Proof.
  intros Hl; revert l'; induction Hl as [|b l Hb Hl IH]; intros l' Hl'; destruct Hl' as [|b' l' Hb' Hl']; cbn.
  - by intros [= ->].
  - by intros [= <- _].
  - by intros [= -> _].
  - intros [= -> E]. destruct (IH _ Hl' E) as [-> ->]. done.
Qed.

Lemma instance_key_inj p n i n' i' :
  named n i -> named n' i' -> instance_key p n i = instance_key p n' i' -> n = n' /\ i = i'.
Proof.
  intros [Hn Hi] [Hn' Hi'] E. unfold instance_key, Key in E. apply app_inv_head in E.
  change (txt "svc:" ++ ?l) with (txt "svc:" ++ l) in E. apply app_inv_head in E.
  change (txt ":") with [Byte.x3a] in E. cbn [app] in E.
  apply no_byte_split in E as [-> E]; [|by apply valid_not..].
  apply Decimal.to_string_inj in E; [done|lia|lia].
Qed.

Lemma find_space l r : no_space l -> find (txt " ") (l ++ Byte.x20 :: r) 0 = Some (lenZ l).
Proof. intros Hl. exact (find_after Byte.x20 [] [] l r Hl). Qed.

Lemma find_no_space l : no_space l -> find (txt " ") l 0 = None.
Proof. apply find_none_byte. Qed.

(** The value of a registration without blanks in its address gives the address
    back. *)
Lemma ParseValue_value ip port zone :
  ip <> [] -> port <> [] -> no_space ip -> no_space port -> no_space zone ->
  ParseValue (value_text ip port zone) = Some (ip, port, zone).
Proof.
  intros Hi Hp Ni Np Nz. unfold value_text, ParseValue. change (txt " ") with [Byte.x20]. cbn [app].
  change [Byte.x20] with (txt " ") at 1. rewrite find_space by done.
  assert (0 < lenZ ip) by (destruct ip; [done|]; rewrite lenZ_cons; pose proof (lenZ_nonneg ip); lia).
  assert (0 < lenZ port) by (destruct port; [done|]; rewrite lenZ_cons; pose proof (lenZ_nonneg port); lia).
  pose proof (lenZ_nonneg zone). destruct (Z.eqb_spec (lenZ ip) 0); [lia|].
  rewrite sub_app_l, sub_all by lia.
  set (tl := port ++ (if lenZ zone =? 0 then [] else Byte.x20 :: zone)).
  assert (forall k, 0 <= k -> find (txt " ") (ip ++ Byte.x20 :: tl) (lenZ ip + 1 + k) =
            (fun j => lenZ ip + 1 + j) <$> find (txt " ") tl k) as Hf.
  { intros k Hk. change (ip ++ Byte.x20 :: tl) with (ip ++ [Byte.x20] ++ tl). rewrite app_assoc.
    assert (lenZ ip + 1 = lenZ (ip ++ [Byte.x20])) as -> by (rewrite lenZ_app; done). by apply find_shift. }
  specialize (Hf 0 ltac:(done)). rewrite Z.add_0_r in Hf. change [Byte.x20] with (txt " "). rewrite Hf.
  assert (forall k, drop (Z.to_nat (lenZ ip + 1 + Z.of_nat k)) (ip ++ Byte.x20 :: tl) = drop k tl) as Hd.
  { intros k. replace (Z.to_nat (lenZ ip + 1 + Z.of_nat k)) with (length ip + S k)%nat by (unfold lenZ; lia).
    by rewrite drop_app_add. }
  destruct (Z.eqb_spec (lenZ zone) 0) as [Ez|Ez].
  - unfold tl in *. rewrite app_nil_r in *. rewrite find_no_space by done. cbn [fmap option_fmap option_map].
    specialize (Hd 0%nat). rewrite Z.add_0_r in Hd. rewrite Hd. change (drop 0 port) with port.
    destruct (Z.eqb_spec (lenZ ip) 0), (Z.eqb_spec (lenZ port) 0); try lia. cbn [negb andb].
    by rewrite (lenZ_0 zone Ez).
  - unfold tl in *. rewrite find_space by done. cbn [fmap option_fmap option_map].
    replace (lenZ ip + 1 + lenZ port - lenZ ip - 1) with (lenZ port) by lia.
    assert (sub (lenZ ip + 1) (lenZ port) (ip ++ Byte.x20 :: port ++ Byte.x20 :: zone) = port) as ->.
    { pose proof (range_middle (ip ++ [Byte.x20]) port (Byte.x20 :: zone)) as Hm. unfold range in Hm.
      rewrite lenZ_app, <- app_assoc in Hm. change (lenZ [Byte.x20]) with 1 in Hm. etransitivity; [|exact Hm]. f_equal; lia. }
    specialize (Hd (S (length port))).
    replace (lenZ ip + 1 + Z.of_nat (S (length port))) with (lenZ ip + 1 + lenZ port + 1) in Hd by (unfold lenZ; lia).
    rewrite Hd. rewrite drop_app_ge by lia. replace (S (length port) - length port)%nat with 1%nat by lia.
    change (drop 1 (Byte.x20 :: zone)) with zone.
    destruct (Z.eqb_spec (lenZ zone) 0); [done|]. rewrite find_no_space by done. cbn [orb].
    destruct (Z.eqb_spec (lenZ ip) 0), (Z.eqb_spec (lenZ port) 0); try lia. done.
Qed.

(** atoi reads back what was printed. *)
Lemma atoi_to_string i : 0 <= i < 2 ^ 31 -> atoi (Decimal.to_string i) = i.
Proof.
  intros Hi. unfold Decimal.to_string. destruct (Z.ltb_spec i 0); [lia|].
  destruct (Decimal.to_dec_spec i ltac:(lia)) as (Hne & Hd & Hv). destruct (Decimal.to_dec i) as [|b t]; [done|].
  unfold atoi. assert (is_space b = false /\ byteZ b <> 45 /\ byteZ b <> 43) as (Hs & Hm & Hp).
  { cbn in Hd. apply andb_true_iff in Hd as [Hd _]. apply Decimal.is_digit_value in Hd. unfold Decimal.digit_value in Hd.
    unfold is_space. repeat split; lia. }
  cbn [span_while]. rewrite Hs. change (drop (Z.to_nat 0) (b :: t)) with (b :: t). cbn match.
  destruct (Z.eqb_spec (byteZ b) 45); [done|]. destruct (Z.eqb_spec (byteZ b) 43); [done|].
  assert (span_while Decimal.is_digit (b :: t) = lenZ (b :: t)) as ->.
  { pose proof (span_while_app Decimal.is_digit (b :: t) []) as Hw. rewrite app_nil_r, Z.add_0_r in Hw. apply Hw.
    apply Forall_forall. intros x Hx. rewrite forallb_forall in Hd. by apply Hd, list_elem_of_In. }
  unfold lenZ. rewrite Nat2Z.id, take_ge by done. done.
Qed.

(** ** What Handle lets in *)

(** A property of the object a deserialize loop fills is kept if every case of
    its switch keeps it. *)
Lemma pb_fields_inv {A} (P : A -> Prop) handle a s a' s' :
  (forall seq size a s a' s', P a -> handle seq size a s = Ok (a', s') -> P a') ->
  P a -> BytesStream.pb_fields handle a s = Ok (a', s') -> P a'.
Proof.
  intros Hh. unfold BytesStream.pb_fields. generalize (S (length (BytesStream.data s))) as fuel. intros fuel.
  revert a s; induction fuel as [|fuel IH]; intros a s Ha E; [done|]. cbn [BytesStream.pb_fields_fuel] in E.
  destruct (_ =? _); [by injection E as <- _|]. mono E. destruct a0 as [[seq size] s1]. mono E. destruct a0 as [a1 s2].
  eapply IH; [|exact E]. eapply Hh; [exact Ha|exact E1].
Qed.

Definition int32 (z : Z) : Prop := - 2 ^ 31 <= z < 2 ^ 31.

Lemma read_int32 size old s v s' :
  BytesStream.ReadPb (BytesStream.pb_fixed BytesStream.fx_int32) size old s = Ok (v, s') -> int32 v.
Proof.
  cbn [BytesStream.ReadPb BytesStream.pb_fixed]. unfold BytesStream.ReadPb_fixed.
  destruct (_ || _); [done|]. intros E. mono E. injection E as <- _.
  cbn [BytesStream.fx_get BytesStream.fx_int32 BytesStream.int_fixed] in E1. injection E1 as <-. unfold int32.
  exact (wrap_s_range 32 _ ltac:(lia)).
Qed.

Lemma deserialize_RegInstance_id s q s' : deserialize_RegInstance new_RegInstance s = Ok (q, s') -> int32 (ri_iId q).
Proof.
  apply (pb_fields_inv (fun q => int32 (ri_iId q))); [|unfold int32; simpl; lia].
  intros seq size [n i ip po z] s0 a' s1 Ha. cbn [ri_iId] in Ha. unfold switch_RegInstance, read_into, skip_field.
  repeat case_match; intros E; mono E; repeat case_match; injection E as <- _; cbn [ri_iId]; try done.
  by eapply read_int32.
Qed.

Lemma acceptable_good q : int32 (ri_iId q) -> acceptable q = true -> good (binding_of q).
Proof.
  unfold acceptable, int32. rewrite !andb_true_iff. intros Hi ((((Hn & Hp) & _) & _) & _).
  apply Z.ltb_lt in Hp. split; cbn; [done|lia].
Qed.

Lemma LoadSpace_inv project env space prefix : LoadSpace project env = Some (space, prefix) ->
  ValidSpacePart project = true /\ ValidSpacePart env = true /\
  prefix = txt "oi:{" ++ project ++ [Byte.x2e] ++ env ++ [Byte.x7d; Byte.x3a].
Proof.
  unfold LoadSpace. destruct (ValidSpacePart project), (ValidSpacePart env); intros E; try done.
  apply (inj Some) in E. apply (f_equal snd) in E. cbn [snd] in E. subst prefix. by rewrite <- !app_assoc.
Qed.

(** Spaces are isolated: with the prefixes LoadSpace makes, an instance
    key determines project, environment, service name and id, so that registries
    of different spaces on one Redis never touch each other's instances. *)
Theorem spaces_isolated project env space prefix project' env' space' prefix' n i n' i' :
  LoadSpace project env = Some (space, prefix) -> LoadSpace project' env' = Some (space', prefix') ->
  named n i -> named n' i' -> instance_key prefix n i = instance_key prefix' n' i' ->
  project = project' /\ env = env' /\ n = n' /\ i = i'.
Proof.
  intros [Vp [Ve ->]]%LoadSpace_inv [Vp' [Ve' ->]]%LoadSpace_inv Hn Hn' Ek.
  unfold instance_key, Key in Ek. rewrite <- !app_assoc in Ek. apply app_inv_head in Ek. cbn [app] in Ek.
  apply no_byte_split in Ek as [-> Ek]; [|by apply valid_not..].
  apply no_byte_split in Ek as [-> Ek]; [|by apply valid_not..].
  injection Ek as Ek. split; [done|]. split; [done|]. apply (instance_key_inj [] n i n' i' Hn Hn').
  unfold instance_key, Key. cbn. by rewrite Ek.
Qed.

Lemma spaces_isolated_witness :
  txt "game" = txt "game" /\ txt "dev" = txt "dev" /\ txt "gate" = txt "gate" /\ 3 = 3.
Proof.
  apply (spaces_isolated (txt "game") (txt "dev") (txt "game.dev") (txt "oi:{game.dev}:")
           (txt "game") (txt "dev") (txt "game.dev") (txt "oi:{game.dev}:")); try reflexivity; split; reflexivity || lia.
Defined.

End RegistryServer.
