(* ===== verification/RegistryWorld.v ===== *)
(** * Runs of the registry

    The process of RegistryServer.v together with Redis and what is under way
    between them, as events that happen one at a time in any order.  Two
    safety results: an address that is alive in Redis is never replaced by
    another, and without failures nothing is left behind in Redis. *)

From S2P Require Import Prelude Decimal Text BytesStream RpcData Redis RegistryServer.

Module RegistryWorld.
Import Text RpcData Redis RegistryServer.

(** [waiting]: commands sent and not yet executed, with whether their coroutine
    still waits; [answered]: coroutines whose answer is on its way. *)
Record world (D : Type) : Type := mkWorld {
  srv : server;
  db : D;
  waiting : list (bool * task);
  answered : list (task * reply);
  outbox : list sent
}.
Arguments mkWorld {D}. Arguments srv {D}. Arguments db {D}. Arguments waiting {D}.
Arguments answered {D}. Arguments outbox {D}.

Inductive event : Type :=
| Connect (sid : Z)
| Close (sid : Z)
| Request (sid iIdLocal : Z) (stBody : list byte)
| ReloadTick
| Execute                 (* Redis runs the oldest command *)
| Answer                  (* the oldest answer reaches its coroutine *)
| Expire (n : list byte) (i : Z)
| FailWaiting (k : nat)   (* a call fails before its command is executed, *)
| FailAnswered (k : nat)  (* or after *)
| DropCommand (k : nat).  (* a command nobody waits for is lost *)

(** Events of a run in which no Redis call fails. *)
Definition sound (e : event) : bool :=
  match e with FailWaiting _ | FailAnswered _ | DropCommand _ => false | _ => true end.

Section World.
Context {D : Type} `{RedisStore D} (m_sPrefix : list byte) (m_iExpireMilliseconds : Z).

Definition perform (e : effects) (w : world D) : world D :=
  let '(s, ts, out) := e in
  mkWorld s (db w) (waiting w ++ map (pair true) ts) (answered w) (outbox w ++ out).

Definition set_db (d : D) (w : world D) : world D := mkWorld (srv w) d (waiting w) (answered w) (outbox w).
Definition set_waiting (l : list (bool * task)) (w : world D) : world D := mkWorld (srv w) (db w) l (answered w) (outbox w).
Definition set_answered (l : list (task * reply)) (w : world D) : world D := mkWorld (srv w) (db w) (waiting w) l (outbox w).

Definition do_event (e : event) (w : world D) : option (world D) :=
  let s := srv w in
  match e with
  | Connect sid =>
      if decide (sid ∈ m_vAlive s) then None else Some (perform (OnAddSession sid s, [], []) w)
  | Close sid => if decide (sid ∈ m_vAlive s) then Some (perform (OnDelSession sid s) w) else None
  | Request sid iIdLocal stBody =>
      if decide (sid ∈ m_vAlive s) then
        match Handle sid iIdLocal (BytesStream.of_bytes stBody) s with
        | Ok eff => Some (perform eff w)
        | Err _ => None
        end
      else None
  | ReloadTick => Some (perform (StartReload s) w)
  | Execute =>
      match waiting w with
      | [] => None
      | (b, t) :: rest =>
          let (d, r) := run_script (command m_sPrefix m_iExpireMilliseconds t) (db w) in
          Some (set_answered (answered w ++ if b then [(t, r)] else []) (set_waiting rest (set_db d w)))
      end
  | Answer =>
      match answered w with
      | [] => None
      | (t, r) :: rest => Some (perform (resume t r s) (set_answered rest w))
      end
  | Expire n i => Some (set_db (DEL (instance_key m_sPrefix n i) (db w)) w)
  | FailWaiting k =>
      match waiting w !! k with
      | Some (true, t) => Some (perform (resume t ReplyOther s) (set_waiting (<[k := (false, t)]> (waiting w)) w))
      | _ => None
      end
  | FailAnswered k =>
      match answered w !! k with
      | Some (t, _) =>
          Some (perform (resume t ReplyOther s) (set_answered (take k (answered w) ++ drop (S k) (answered w)) w))
      | None => None
      end
  | DropCommand k =>
      match waiting w !! k with
      | Some (false, _) => Some (set_waiting (take k (waiting w) ++ drop (S k) (waiting w)) w)
      | _ => None
      end
  end.

Fixpoint run (es : list event) (w : world D) : option (world D) :=
  match es with
  | [] => Some w
  | e :: es => w ← do_event e w; run es w
  end.

Definition start (d : D) : world D := mkWorld new_server d [] [] [].

(** ** What the scripts do to instance keys *)

Context `{!RedisLaws D}.

Abbreviation ikey := (instance_key m_sPrefix).
Abbreviation ikey_of b := (instance_key m_sPrefix (sName b) (iId b)).

(** The registration an executed command has left in Redis, by its answer. *)
Definition wrote (t : task) (r : reply) : option Binding :=
  match t with
  | Register _ b => if ReplyInt r =? REG_OK then Some b else None
  | Refresh _ b => if (ReplyInt r =? REG_OK) || (ReplyInt r =? REG_RENEWED) then Some b else None
  | _ => None
  end.

Definition task_good (t : task) : Prop :=
  match t with Register _ b | Refresh _ b | Withdraw b => good b | Reload => True end.

Lemma list_ids_GET n set ids d k : GET (fst (fst (list_ids n set ids d))) k = GET d k.
Proof.
  revert d; induction ids as [|id ids IH]; intros d; [done|]. cbn [list_ids].
  destruct (GET d _).
  - specialize (IH d). destruct (list_ids n set ids d) as [[d' out] alive]. exact IH.
  - rewrite IH. apply GET_SREM.
Qed.

Lemma list_names_GET k1 a1 names d k : GET (fst (list_names k1 a1 names d)) k = GET d k.
Proof.
  revert d; induction names as [|n names IH]; intros d; [done|]. cbn [list_names].
  pose proof (list_ids_GET n (a1 ++ n) (SMEMBERS d (a1 ++ n)) d k) as Hi.
  destruct (list_ids _ _ _ d) as [[d' out] alive]. cbn [fst] in Hi.
  specialize (IH (if alive =? 0 then SREM k1 n d' else d')). destruct (list_names k1 a1 names _) as [d'' out'].
  cbn [fst] in *. rewrite IH. destruct (alive =? 0); [|done]. by rewrite GET_SREM.
Qed.

(** The effect of a command on the instance keys, seen from its answer. *)
Record executed (t : task) (d d' : D) (r : reply) : Prop := mkExecuted {
  ex_wrote b : wrote t r = Some b ->
    GET d' (ikey_of b) = Some (sValue b) /\ (GET d (ikey_of b) = None \/ GET d (ikey_of b) = Some (sValue b));
  ex_other n i : named n i -> (forall b, wrote t r = Some b -> ~ (n = sName b /\ i = iId b)) ->
    GET d' (ikey n i) = GET d (ikey n i) \/ GET d' (ikey n i) = None;
  ex_withdraw b : t = Withdraw b -> GET d' (ikey_of b) <> Some (sValue b);
  ex_taken sid b : t = Refresh sid b -> ReplyInt r = REG_TAKEN -> GET d (ikey_of b) <> Some (sValue b)
}.

Lemma key_ne b n i : good b -> named n i -> ~ (n = sName b /\ i = iId b) -> ikey_of b <> ikey n i.
Proof. intros Hb Hn Hne E. apply Hne. apply instance_key_inj in E as [-> ->]; done. Qed.

Lemma execute_effect t d d' r :
  task_good t -> run_script (command m_sPrefix m_iExpireMilliseconds t) d = (d', r) -> executed t d d' r.
Proof.
  intros Ht E. destruct t as [sid b|sid b|b|]; cbn in Ht, E.
  - unfold run_register in E. destruct (GET d (ikey_of b)) as [v|] eqn:Eg; [destruct (bytes_eqb v (sValue b)) eqn:Ev|].
    + apply bytes_eqb_eq in Ev as ->. injection E as <- <-. split; cbn; try done.
      * intros b' [= <-]. rewrite !GET_SADD, GET_SET_PX, Eg. auto.
      * intros n i Hn Hne. left. rewrite !GET_SADD, GET_SET_PX_ne; [done|]. apply key_ne; auto.
    + injection E as <- <-. split; cbn; try done. auto.
    + injection E as <- <-. split; cbn; try done.
      * intros b' [= <-]. rewrite !GET_SADD, GET_SET_PX, Eg. auto.
      * intros n i Hn Hne. left. rewrite !GET_SADD, GET_SET_PX_ne; [done|]. apply key_ne; auto.
  - unfold run_refresh in E. destruct (GET d (ikey_of b)) as [v|] eqn:Eg; [destruct (bytes_eqb v (sValue b)) eqn:Ev|].
    + apply bytes_eqb_eq in Ev as ->. injection E as <- <-. split; cbn; try done.
      * intros b' [= <-]. rewrite !GET_SADD, GET_PEXPIRE, Eg. auto.
      * intros n i Hn Hne. left. by rewrite !GET_SADD, GET_PEXPIRE.
    + injection E as <- <-. split; cbn; try done; [auto|].
      intros sid' b' [= <- <-] _. rewrite Eg. intros [= ->]. by rewrite bytes_eqb_refl in Ev.
    + injection E as <- <-. split; cbn; try done.
      * intros b' [= <-]. rewrite !GET_SADD, GET_SET_PX, Eg. auto.
      * intros n i Hn Hne. left. rewrite !GET_SADD, GET_SET_PX_ne; [done|]. apply key_ne; auto.
  - unfold run_withdraw in E. destruct (GET d (ikey_of b)) as [v|] eqn:Eg; [destruct (bytes_eqb v (sValue b)) eqn:Ev|].
    + injection E as <- <-. split; cbn; try done.
      * intros n i Hn _. rewrite GET_SREM. destruct (decide (ikey_of b = ikey n i)) as [<-|Hne].
        { right. apply GET_DEL. }
        left. by apply GET_DEL_ne.
      * intros b' [= <-]. by rewrite GET_SREM, GET_DEL.
    + injection E as <- <-. split; cbn; try done; [auto|].
      intros b' [= <-]. rewrite Eg. intros [= ->]. by rewrite bytes_eqb_refl in Ev.
    + injection E as <- <-. split; cbn; try done; [auto|]. intros b' [= <-]. by rewrite Eg.
  - unfold run_list in E. pose proof (list_names_GET (Key m_sPrefix (txt "svc")) (Key m_sPrefix (txt "svc:"))
      (SMEMBERS d (Key m_sPrefix (txt "svc"))) d) as Hg.
    unfold arg in E. cbn in E. unfold Key in *. destruct (list_names _ _ _ d) as [d1 out]. cbn [fst] in Hg. injection E as <- <-.
    split; cbn; try done. auto.
Qed.

(** ** Registrations of the process *)

Definition server_good (s : server) : Prop :=
  forall sid l, m_mBindings s !! sid = Some l -> sid ∈ m_vAlive s /\ Forall good l.

Definition effects_good (e : effects) : Prop := server_good (fst (fst e)) /\ Forall task_good (snd (fst e)).

(** Some connection holds the registration (n, i) with value v. *)
Definition bound (s : server) (n : list byte) (i : Z) (v : list byte) : Prop :=
  exists sid l b, m_mBindings s !! sid = Some l /\ b ∈ l /\ sName b = n /\ iId b = i /\ sValue b = v.

Lemma same_id_true n i b : same_id n i b = true <-> sName b = n /\ iId b = i.
Proof. unfold same_id. by rewrite andb_true_iff, bytes_eqb_eq, Z.eqb_eq. Qed.

Lemma same_id_refl b : same_id (sName b) (iId b) b = true.
Proof. by apply same_id_true. Qed.

Lemma FindBinding_some sid n i s b : FindBinding sid n i s = Some b ->
  exists l, m_mBindings s !! sid = Some l /\ List.find (same_id n i) l = Some b /\ b ∈ l /\ sName b = n /\ iId b = i.
Proof.
  unfold FindBinding. destruct (m_mBindings s !! sid) as [l|]; [|done]. cbn. intros E.
  exists l. destruct (List.find_some _ _ E) as [Hin Hid]. apply same_id_true in Hid. apply list_elem_of_In in Hin. tauto.
Qed.

Lemma erase_first_elem {A} (p : A -> bool) l x : x ∈ l -> x ∈ erase_first p l \/ List.find p l = Some x.
Proof.
  induction l as [|y l IH]; [by intros ?%not_elem_of_nil|]. cbn. rewrite elem_of_cons.
  destruct (p y) eqn:E.
  - intros [->|Hx]; [by right|by left].
  - intros [->|Hx]; [left; by left|]. destruct (IH Hx); [left; by right|by right].
Qed.

Lemma erase_first_sub {A} (p : A -> bool) l x : x ∈ erase_first p l -> x ∈ l.
Proof.
  induction l as [|y l IH]; [done|]. cbn. destruct (p y); [by right|]. rewrite !elem_of_cons. naive_solver.
Qed.

Lemma replace_first_elem {A} (p : A -> bool) y l x : x ∈ l -> p x = false -> x ∈ replace_first p y l.
Proof.
  induction l as [|z l IH]; [done|]. cbn. rewrite elem_of_cons. intros [->|Hx] Hp; [rewrite Hp; by left|].
  destruct (p z); right; auto.
Qed.

Lemma replace_first_new {A} (p : A -> bool) y l x : List.find p l = Some x -> y ∈ replace_first p y l.
Proof. induction l as [|z l IH]; [done|]. cbn. destruct (p z); [left|right; auto]. Qed.

Lemma replace_first_sub {A} (p : A -> bool) y l x : x ∈ replace_first p y l -> x = y \/ x ∈ l.
Proof.
  induction l as [|z l IH]; [by right|]. cbn. destruct (p z); rewrite !elem_of_cons; naive_solver.
Qed.

Lemma server_good_same s s' :
  m_vAlive s' = m_vAlive s -> m_mBindings s' = m_mBindings s -> server_good s -> server_good s'.
Proof. unfold server_good. by intros -> ->. Qed.

Lemma server_good_insert s s' sid l :
  server_good s -> m_vAlive s' = m_vAlive s -> m_mBindings s' = <[sid := l]> (m_mBindings s) ->
  sid ∈ m_vAlive s -> Forall good l -> server_good s'.
Proof.
  unfold server_good. intros Hs -> -> Ha Hl sid' l'. destruct (decide (sid' = sid)) as [->|].
  - rewrite lookup_insert_eq. by intros [= <-].
  - rewrite lookup_insert_ne by done. apply Hs.
Qed.

Lemma bound_good s sid : server_good s -> Forall good (default [] (m_mBindings s !! sid)).
Proof. intros Hs. destruct (m_mBindings s !! sid) as [l|] eqn:E; [by apply (Hs sid l)|constructor]. Qed.

(** At most one task, which is known to be good. *)
Ltac task_list := first [apply Forall_nil_2 | apply Forall_singleton; assumption].

Ltac same_server := by (eapply server_good_same; [reflexivity|reflexivity|eassumption]).

Lemma resume_good t r s : task_good t -> server_good s -> effects_good (resume t r s).
Proof.
  intros Ht Hs. pose proof (bound_good s) as Hd. destruct t as [sid b|sid b|b|]; cbn [resume task_good] in *.
  - unfold resume_Register. case_bool_decide as Ha; cbn [negb].
    2: { split; cbn; [done|]. destruct (_ =? _); task_list. }
    destruct (ReplyInt r =? REG_OK); [|destruct (_ =? _); split; cbn; done || constructor].
    split; cbn [fst snd]; [|constructor]. eapply (server_good_insert s); [done|reflexivity|reflexivity|done|].
    specialize (Hd sid Hs). rewrite Forall_forall in Hd |- *. destruct (FindBinding _ _ _ _).
    + intros x [->|Hx]%replace_first_sub; [done|auto].
    + intros x [Hx| ->%list_elem_of_singleton]%elem_of_app; [auto|done].
  - unfold resume_Refresh. destruct (bool_decide (sid ∈ m_vAlive s)) eqn:Ea; [apply bool_decide_eq_true in Ea|].
    2: { split; cbn; [done|]. destruct (_ || _); task_list. }
    destruct (FindBinding _ _ _ _) as [f|].
    2: { split; cbn; [done|]. destruct (_ || _); task_list. }
    destruct (negb _).
    { split; cbn; [done|]. destruct (_ || _); task_list. }
    destruct (_ || _). { split; cbn; [|constructor]. destruct (_ =? _); [|done]. same_server. }
    destruct (_ =? _); [|split; cbn; [done|constructor]].
    split; cbn [fst snd]; [|constructor]. eapply (server_good_insert s); [done|reflexivity|reflexivity|done|].
    specialize (Hd sid Hs). rewrite Forall_forall in Hd |- *. intros x Hx%erase_first_sub. auto.
  - unfold resume_Withdraw. split; cbn; [|constructor]. destruct (registered _ _ _); [done|]. same_server.
  - unfold resume_Reload. destruct r; (split; cbn; [same_server|constructor]).
Qed.

Lemma Handle_good sid k body s eff :
  server_good s -> Handle sid k (BytesStream.of_bytes body) s = Ok eff ->
  effects_good eff /\ fst (fst eff) = s.
Proof.
  intros Hs E. unfold Handle in E. destruct (k =? _); [|destruct (k =? _); [|destruct (k =? _)]].
  - mono E. destruct a as [q s1]. destruct (acceptable q) eqn:Ea; injection E as <-; cbn [negb]; (split; [|done]); split; cbn; try done.
    apply Forall_singleton. apply acceptable_good; [|done]. by eapply deserialize_RegInstance_id.
  - mono E. destruct a as [q s1]. destruct (FindBinding _ _ _ _) as [b|] eqn:Ef; injection E as <-; (split; [|done]); split; cbn; try done.
    destruct (FindBinding_some _ _ _ _ _ Ef) as (l & El & _ & Hb & _). apply Forall_singleton.
    destruct (Hs _ _ El) as [_ Hg]. rewrite Forall_forall in Hg. by apply Hg.
  - mono E. destruct a as [q s1]. injection E as <-. split; [|done]. split; cbn; [done|constructor].
  - injection E as <-. split; [|done]. split; cbn; [done|constructor].
Qed.

Lemma fold_drop_bindings (vList : list Binding) s :
  let s' := fold_left (fun s b => DropSnapshot (sName b) (iId b) s) vList s in
  m_mBindings s' = m_mBindings s /\ m_vAlive s' = m_vAlive s.
Proof. cbv zeta. revert s; induction vList as [|b l IH]; intros s; [done|]. cbn [fold_left]. destruct (IH (DropSnapshot (sName b) (iId b) s)) as [-> ->]. done. Qed.

Lemma OnDelSession_effect sid s : server_good s ->
  effects_good (OnDelSession sid s) /\
  (forall n i v, bound s n i v -> bound (fst (fst (OnDelSession sid s))) n i v \/
     exists b, Withdraw b ∈ snd (fst (OnDelSession sid s)) /\ sName b = n /\ iId b = i /\ sValue b = v).
Proof.
  intros Hs. unfold OnDelSession. cbn [m_mBindings]. destruct (m_mBindings s !! sid) as [vList|] eqn:El.
  - set (s0 := set_bindings _ _). destruct (fold_drop_bindings vList s0) as [Eb Ea]. cbv zeta in Eb, Ea. split; [split|]; cbn [fst snd].
    + intros sid' l. rewrite Eb, Ea. cbn. intros [Hne Hl]%lookup_delete_Some. destruct (Hs _ _ Hl). set_solver.
    + destruct (Hs _ _ El) as [_ Hg]. clear - Hg. by induction Hg; constructor.
    + intros n i v (sid' & l & b & Hl & Hb & Hn & Hi & Hv). destruct (decide (sid' = sid)) as [->|Hne].
      * right. exists b. rewrite El in Hl. injection Hl as ->. split; [|done]. by apply list_elem_of_fmap_2.
      * left. exists sid', l, b. rewrite Eb. cbn. by rewrite lookup_delete_ne.
  - split; [split|]; cbn [fst snd].
    + intros sid' l. cbn. intros Hl. destruct (Hs _ _ Hl). split; [|done]. assert (sid' <> sid) by congruence. set_solver.
    + constructor.
    + intros n i v Hb. left. exact Hb.
Qed.

(** A resumed coroutine whose command wrote: its registration is held, or is
    being withdrawn. *)
Lemma resume_wrote t r s b : wrote t r = Some b ->
  bound (fst (fst (resume t r s))) (sName b) (iId b) (sValue b) \/ Withdraw b ∈ snd (fst (resume t r s)).
Proof.
  destruct t as [sid b'|sid b'|b'|]; cbn [wrote resume]; try done.
  - unfold resume_Register. destruct (ReplyInt r =? REG_OK); [|done]. intros [= ->].
    case_bool_decide; cbn [negb fst snd]; [left|right; by left].
    exists sid. eexists. exists b. cbn. rewrite lookup_insert_eq. split; [reflexivity|]. split; [|done].
    destruct (FindBinding _ _ _ _) as [x|] eqn:Ef.
    + destruct (FindBinding_some _ _ _ _ _ Ef) as (l & El & Ex & _). rewrite El. cbn. by eapply replace_first_new.
    + apply elem_of_app. right. by left.
  - unfold resume_Refresh. set (ok := (_ || _)). destruct ok; [|done]. intros [= ->].
    destruct (bool_decide _); [|right; by left].
    destruct (FindBinding _ _ _ _) as [f|] eqn:Ef; [|right; by left].
    destruct (bytes_eqb (sValue f) (sValue b)) eqn:Ev; cbn [negb]; [|right; by left].
    left. apply bytes_eqb_eq in Ev. destruct (FindBinding_some _ _ _ _ _ Ef) as (l & El & _ & Hf & Hn & Hi).
    exists sid, l, f. cbn [fst]. destruct (_ =? REG_RENEWED); cbn; done.
Qed.

(** A resumed coroutine takes away a registration it did not write itself only
    when Redis said that the key is taken. *)
Lemma resume_keeps t r s n i v :
  bound s n i v -> (forall b, wrote t r = Some b -> ~ (n = sName b /\ i = iId b)) ->
  (forall sid b, t = Refresh sid b -> ReplyInt r = REG_TAKEN -> ~ (n = sName b /\ i = iId b /\ v = sValue b)) ->
  bound (fst (fst (resume t r s))) n i v.
Proof.
  intros Hb Hw Ht. destruct t as [sid b'|sid b'|b'|]; cbn [wrote resume] in *.
  - unfold resume_Register. case_bool_decide; cbn [negb]; [|done].
    destruct (ReplyInt r =? REG_OK); [|by destruct (_ =? _)].
    specialize (Hw _ eq_refl). destruct Hb as (sid' & l & b & El & Hb & Hn & Hi & Hv).
    destruct (decide (sid' = sid)) as [->|Hne].
    + exists sid. eexists. exists b. cbn. rewrite lookup_insert_eq. split; [reflexivity|]. split; [|done].
      rewrite El. cbn. destruct (FindBinding _ _ _ _).
      * apply replace_first_elem; [done|]. apply not_true_iff_false. rewrite same_id_true. intros [E1 E2].
        apply Hw. subst. done.
      * apply elem_of_app. by left.
    + exists sid', l, b. cbn. rewrite lookup_insert_ne by done. done.
  - unfold resume_Refresh. destruct (match _ with Some _ => _ | None => _ end) eqn:Em; [done|].
    destruct (_ || _). { cbn [fst]. destruct (_ =? _); exact Hb. }
    destruct (Z.eqb_spec (ReplyInt r) REG_TAKEN) as [Er|]; [|done]. specialize (Ht _ _ eq_refl Er).
    destruct (bool_decide _); [|done]. destruct (FindBinding _ _ _ _) as [f|] eqn:Ef; [|done].
    apply negb_false_iff, bytes_eqb_eq in Em. destruct (FindBinding_some _ _ _ _ _ Ef) as (l0 & El0 & Ex & _ & Hn0 & Hi0).
    destruct Hb as (sid' & l & b & El & Hb & Hn & Hi & Hv). destruct (decide (sid' = sid)) as [->|Hne].
    + exists sid. eexists. exists b. cbn. rewrite lookup_insert_eq. split; [reflexivity|]. split; [|done].
      rewrite El0. cbn. rewrite El in El0. injection El0 as ->.
      destruct (erase_first_elem (same_id (sName b') (iId b')) _ _ Hb) as [|E]; [done|]. exfalso. apply Ht.
      rewrite Ex in E. injection E as ->. subst. done.
    + exists sid', l, b. cbn. rewrite lookup_insert_ne by done. done.
  - unfold resume_Withdraw. cbn [fst]. destruct (registered _ _ _); exact Hb.
  - unfold resume_Reload. destruct r; exact Hb.
Qed.

(** ** The invariant *)

(** What the last answer on its way that wrote (n, i) has written. *)
Fixpoint last_ok (ans : list (task * reply)) (n : list byte) (i : Z) : option (list byte) :=
  match ans with
  | [] => None
  | (t, r) :: ans =>
      match last_ok ans n i with
      | Some v => Some v
      | None =>
          match wrote t r with
          | Some b => if same_id n i b then Some (sValue b) else None
          | None => None
          end
      end
  end.

(** An answer "taken" is right as long as nothing newer wrote the key. *)
Fixpoint taken_ok (d : D) (ans : list (task * reply)) : Prop :=
  match ans with
  | [] => True
  | (t, r) :: ans =>
      (forall sid b, t = Refresh sid b -> ReplyInt r = REG_TAKEN -> last_ok ans (sName b) (iId b) = None ->
         GET d (ikey_of b) <> Some (sValue b)) /\
      taken_ok d ans
  end.

(** A withdrawal of (n, i) with value v has been sent. *)
Definition withdrawing (l : list (bool * task)) (n : list byte) (i : Z) (v : list byte) : Prop :=
  exists f b, (f, Withdraw b) ∈ l /\ sName b = n /\ iId b = i /\ sValue b = v.

(** Every live key has somebody who answers for it: the newest answer that wrote
    it, or a connection that holds it, or a withdrawal that will remove it. *)
Definition owned (s : server) (d : D) (l : list (bool * task)) (ans : list (task * reply)) : Prop :=
  forall n i v, named n i -> GET d (ikey n i) = Some v ->
    match last_ok ans n i with
    | Some v' => v = v'
    | None => bound s n i v \/ withdrawing l n i v
    end.

(** Holds in all runs. *)
Record well_formed (w : world D) : Prop := mkWellFormed {
  wf_server : server_good (srv w);
  wf_waiting : Forall (fun p => task_good (snd p)) (waiting w);
  wf_answered : Forall (fun p => task_good (fst p)) (answered w)
}.

(** Holds in runs without failures. *)
Record inv (w : world D) : Prop := mkInv {
  inv_wf : well_formed w;
  inv_flags : Forall (fun p => fst p = true) (waiting w);
  inv_owned : owned (srv w) (db w) (waiting w) (answered w);
  inv_taken : taken_ok (db w) (answered w)
}.

Lemma last_ok_snoc ans t r n i :
  last_ok (ans ++ [(t, r)]) n i =
  match wrote t r with
  | Some b => if same_id n i b then Some (sValue b) else last_ok ans n i
  | None => last_ok ans n i
  end.
Proof.
  induction ans as [|[t' r'] ans IH]; cbn; [by destruct (wrote t r) as [b|]; [destruct (same_id n i b)|]|].
  rewrite IH. destruct (wrote t r) as [b|]; [destruct (same_id n i b)|]; done.
Qed.

(** A command that did not write a key leaves of it what was there, or nothing. *)
Lemma executed_old t d d' r n i v :
  executed t d d' r -> named n i -> (forall b, wrote t r = Some b -> same_id n i b = false) ->
  GET d' (ikey n i) = Some v -> GET d (ikey n i) = Some v.
Proof.
  intros He Hn Hw Hg. destruct (ex_other _ _ _ _ He n i Hn) as [E|E]; [|congruence|congruence].
  intros b Hb [-> ->]. specialize (Hw b Hb). by rewrite same_id_refl in Hw.
Qed.

Lemma taken_ok_snoc t d d' r ans :
  executed t d d' r -> task_good t -> Forall (fun p => task_good (fst p)) ans ->
  taken_ok d ans -> taken_ok d' (ans ++ [(t, r)]).
Proof.
  intros He Ht Hans. induction Hans as [|[t' r'] ans Ht' Hans IH]; cbn.
  - intros _. split; [|done]. intros sid b -> Hr _ Hg. eapply (ex_taken _ _ _ _ He); [reflexivity|done|].
    eapply executed_old; [done|exact Ht| |done]. intros b'. cbn. by rewrite Hr.
  - intros [H1 H2]. split; [|auto]. intros sid b -> Hr Hl Hg. rewrite last_ok_snoc in Hl.
    assert (forall b', wrote t r = Some b' -> same_id (sName b) (iId b) b' = false) as Hw.
    { intros b' E. rewrite E in Hl. by destruct (same_id _ _ b'). }
    eapply (H1 _ _ eq_refl Hr).
    + destruct (wrote t r) as [b'|]; [|done]. by rewrite (Hw b' eq_refl) in Hl.
    + eapply executed_old; done.
Qed.

Lemma owned_execute s t d d' r rest ans :
  executed t d d' r -> owned s d ((true, t) :: rest) ans -> owned s d' rest (ans ++ [(t, r)]).
Proof.
  intros He Ho n i v Hn Hg. rewrite last_ok_snoc.
  destruct (wrote t r) as [b|] eqn:Ew; [destruct (same_id n i b) eqn:Es|].
  1: { apply same_id_true in Es as [<- <-]. destruct (ex_wrote _ _ _ _ He b Ew) as [E _]. congruence. }
  all: assert (GET d (ikey n i) = Some v) as Hg0 by (eapply executed_old; [done|done| |done]; intros b'; rewrite Ew; by intros [= <-]).
  all: specialize (Ho n i v Hn Hg0); destruct (last_ok ans n i); [done|].
  all: destruct Ho as [Ho|(f & b' & Hin & Hn' & Hi' & Hv')]; [by left|].
  all: apply elem_of_cons in Hin as [[= -> <-]|Hin]; [|right; by exists f, b'].
  all: exfalso; apply (ex_withdraw _ _ _ _ He b' eq_refl); subst; done.
Qed.

Lemma owned_perform s s' d l ts ans :
  (forall n i v, bound s n i v -> bound s' n i v \/ exists b, Withdraw b ∈ ts /\ sName b = n /\ iId b = i /\ sValue b = v) ->
  owned s d l ans -> owned s' d (l ++ map (pair true) ts) ans.
Proof.
  intros Hb Ho n i v Hn Hg. specialize (Ho n i v Hn Hg). destruct (last_ok ans n i); [done|].
  destruct Ho as [Ho|(f & b & Hin & Hw)].
  - destruct (Hb _ _ _ Ho) as [|(b & Hin & Hw)]; [by left|]. right. exists true, b. split; [|done].
    apply elem_of_app. right. by apply list_elem_of_fmap_2.
  - right. exists f, b. split; [|done]. apply elem_of_app. by left.
Qed.

Lemma owned_answer s t r d l ans :
  (forall sid b, t = Refresh sid b -> good b) ->
  owned s d l ((t, r) :: ans) -> taken_ok d ((t, r) :: ans) ->
  owned (fst (fst (resume t r s))) d (l ++ map (pair true) (snd (fst (resume t r s)))) ans.
Proof.
  intros Hgood Ho [Ht _] n i v Hn Hg. specialize (Ho n i v Hn Hg). cbn [last_ok] in Ho.
  destruct (last_ok ans n i) as [v'|] eqn:El; [done|].
  assert (forall b, Withdraw b ∈ snd (fst (resume t r s)) -> sName b = n -> iId b = i -> sValue b = v ->
    withdrawing (l ++ map (pair true) (snd (fst (resume t r s)))) n i v) as Hw.
  { intros b Hin. exists true, b. split; [|done]. apply elem_of_app. right. by apply list_elem_of_fmap_2. }
  assert ((forall b, wrote t r = Some b -> same_id n i b = false) -> bound s n i v \/ withdrawing l n i v ->
    bound (fst (fst (resume t r s))) n i v \/ withdrawing (l ++ map (pair true) (snd (fst (resume t r s)))) n i v) as Hk.
  { intros Hne [Hb|(f & b & Hin & Hb)].
    - left. apply resume_keeps; [done| |].
      + intros b Eb [-> ->]. specialize (Hne b Eb). by rewrite same_id_refl in Hne.
      + intros sid b -> Hr (-> & -> & ->). by eapply (Ht _ _ eq_refl Hr).
    - right. exists f, b. split; [|done]. apply elem_of_app. by left. }
  destruct (wrote t r) as [b|] eqn:Ew; [destruct (same_id n i b) eqn:Es|].
  - apply same_id_true in Es as [<- <-]. subst v. destruct (resume_wrote t r s b Ew); [by left|right; by apply (Hw b)].
  - apply Hk; [|done]. by intros b' [= <-].
  - by apply Hk.
Qed.

Lemma Forall_pair_map {A} (P : A -> Prop) (ts : list A) : Forall P ts -> Forall (fun p => P (snd p)) (map (pair true) ts).
Proof. induction 1; constructor; done. Qed.

Lemma well_formed_perform e w :
  effects_good e -> well_formed w -> well_formed (perform e w).
Proof.
  destruct e as [[s ts] out]. intros [Hs Ht] [H1 H2 H3]. cbn in *. split; cbn; [done| |done].
  apply Forall_app. split; [done|]. by apply Forall_pair_map.
Qed.

Lemma Forall_remove {A} (P : A -> Prop) l k : Forall P l -> Forall P (take k l ++ drop (S k) l).
Proof. intros H1. apply Forall_app. split; [by apply Forall_take|by apply Forall_drop]. Qed.

Lemma do_event_wf e w w' : well_formed w -> do_event e w = Some w' -> well_formed w'.
Proof.
  intros Hw E. pose proof (wf_server _ Hw) as Hs. pose proof (wf_waiting _ Hw) as Hwt. pose proof (wf_answered _ Hw) as Ha.
  destruct e; cbn [do_event] in E.
  - destruct (decide _); [done|]. apply (inj Some) in E as <-. apply well_formed_perform; [|done]. split; cbn; [|constructor].
    intros sid' l Hl. destruct (Hs sid' l Hl). split; [set_solver|done].
  - destruct (decide _); [|done]. apply (inj Some) in E as <-. apply well_formed_perform; [|done]. by apply OnDelSession_effect.
  - destruct (decide _); [|done]. destruct (Handle _ _ _ _) as [eff|] eqn:Eh; [|done]. apply (inj Some) in E as <-.
    apply well_formed_perform; [|done]. by eapply Handle_good.
  - apply (inj Some) in E as <-. apply well_formed_perform; [|done]. unfold StartReload. destruct (m_bReloading _); (split; cbn; [done|]).
    + constructor.
    + by apply Forall_singleton.
  - destruct (waiting w) as [|[f t] rest] eqn:Ew; [done|]. destruct (run_script _ _) as [d r]. apply (inj Some) in E as <-.
    apply Forall_cons in Hwt as [Ht Hrest]. split; cbn; [done|done|].
    apply Forall_app. split; [done|]. destruct f; [by apply Forall_singleton|constructor].
  - destruct (answered w) as [|[t r] rest] eqn:Ew; [done|]. apply (inj Some) in E as <-. apply Forall_cons in Ha as [Ht Hrest].
    apply well_formed_perform; [by apply resume_good|]. by split.
  - apply (inj Some) in E as <-. by split.
  - destruct (waiting w !! k) as [[[] t]|] eqn:Ek; [|done|done]. apply (inj Some) in E as <-.
    assert (task_good t) as Ht by (rewrite Forall_lookup in Hwt; exact (Hwt _ _ Ek)).
    apply well_formed_perform; [by apply resume_good|]. split; cbn; [done| |done]. by apply Forall_insert.
  - destruct (answered w !! k) as [[t r]|] eqn:Ek; [|done]. apply (inj Some) in E as <-.
    assert (task_good t) as Ht by (rewrite Forall_lookup in Ha; exact (Ha _ _ Ek)).
    apply well_formed_perform; [by apply resume_good|]. split; cbn; [done|done|by apply Forall_remove].
  - destruct (waiting w !! k) as [[[] t]|] eqn:Ek; [done| |done]. apply (inj Some) in E as <-. split; cbn; [done| by apply Forall_remove|done].
Qed.

Lemma do_event_inv e w w' : sound e = true -> inv w -> do_event e w = Some w' -> inv w'.
Proof.
  intros Hsound [Hwf Hfl Ho Ht] E. assert (well_formed w') as Hwf' by (by eapply do_event_wf).
  assert (forall eff, (forall n i v, bound (srv w) n i v -> bound (fst (fst eff)) n i v \/
            exists b, Withdraw b ∈ snd (fst eff) /\ sName b = n /\ iId b = i /\ sValue b = v) ->
          w' = perform eff w -> inv w') as Hp.
  { intros [[s ts] out] Hb ->. split; cbn; [done| |by eapply owned_perform|done].
    apply Forall_app. split; [done|]. clear. by induction ts; constructor. }
  destruct e; try done; cbn [do_event] in E.
  - destruct (decide _); [done|]. apply (inj Some) in E as <-. eapply Hp; [|reflexivity]. by left.
  - destruct (decide _); [|done]. apply (inj Some) in E as <-. eapply Hp; [|reflexivity]. apply OnDelSession_effect, Hwf.
  - destruct (decide _); [|done]. destruct (Handle _ _ _ _) as [eff|] eqn:Eh; [|done]. apply (inj Some) in E as <-.
    eapply Hp; [|reflexivity]. destruct (Handle_good _ _ _ _ _ (wf_server _ Hwf) Eh) as [_ ->]. by left.
  - apply (inj Some) in E as <-. eapply Hp; [|reflexivity]. unfold StartReload. destruct (m_bReloading _); by left.
  - destruct (waiting w) as [|[f t] rest] eqn:Ew; [done|]. destruct (run_script _ _) as [d r] eqn:Er. apply (inj Some) in E as <-.
    apply Forall_cons in Hfl as [Hf Hfl]. cbn in Hf. subst f. destruct Hwf as [_ Hwt Ha]. rewrite Ew in Hwt.
    apply Forall_cons in Hwt as [Hg _]. cbn in Hg. pose proof (execute_effect _ _ _ _ Hg Er) as He.
    split; cbn; [done|done|by eapply owned_execute|by eapply taken_ok_snoc].
  - destruct (answered w) as [|[t r] rest] eqn:Ew; [done|]. apply (inj Some) in E as <-.
    pose proof (wf_answered _ Hwf) as Ha. rewrite Ew in Ha. apply Forall_cons in Ha as [Hg _]. cbn in Hg.
    pose proof (owned_answer (srv w) t r (db w) (waiting w) rest) as Hown.
    destruct (resume t r (srv w)) as [[s ts] out] eqn:Eres. split; cbn; [done| | |apply Ht].
    + apply Forall_app. split; [done|]. clear. by induction ts; constructor.
    + apply Hown; [|done|done]. intros sid b ->. exact Hg.
  - apply (inj Some) in E as <-. split; cbn; [done|done| |].
    + intros n' i' v Hn Hg. apply Ho; [done|]. destruct (decide (ikey n i = ikey n' i')) as [Eq|Hne].
      * by rewrite Eq, GET_DEL in Hg.
      * by rewrite GET_DEL_ne in Hg.
    + clear - Ht RedisLaws0. induction (answered w) as [|[t r] ans IH]; [done|]. destruct Ht as [H1 H2]. split; [|auto].
      intros sid b Eb Hr Hl Hg. eapply H1; [done|done|done|]. destruct (decide (ikey n i = ikey_of b)) as [Eq|Hne].
      * by rewrite Eq, GET_DEL in Hg.
      * by rewrite GET_DEL_ne in Hg.
Qed.

(** Only an executed command and an expiry change the store. *)
Lemma do_event_db e w w' : well_formed w -> do_event e w = Some w' ->
  db w' = db w \/ (exists t r, task_good t /\ executed t (db w) (db w') r) \/ exists n i, db w' = DEL (ikey n i) (db w).
Proof.
  intros Hw E. assert (forall eff w1, db (perform eff w1) = db w1) as Hp by (by intros [[] ]).
  destruct e; cbn [do_event] in E.
  5: { destruct (waiting w) as [|[f t] rest] eqn:Ew; [done|]. destruct (run_script _ _) as [d r] eqn:Er.
       pose proof (wf_waiting _ Hw) as Hwt. rewrite Ew in Hwt. apply Forall_cons in Hwt as [Ht _]. cbn in Ht.
       apply (inj Some) in E as <-. right; left. exists t, r. split; [done|]. by apply execute_effect. }
  6: { apply (inj Some) in E as <-. right; right. by exists n, i. }
  all: left; repeat case_match; try done; apply (inj Some) in E as <-; by rewrite ?Hp.
Qed.

Lemma run_ind (P : world D -> Prop) (allowed : event -> bool) es w w' :
  (forall e w w', allowed e = true -> P w -> do_event e w = Some w' -> P w') ->
  forallb allowed es = true -> P w -> run es w = Some w' -> P w'.
Proof.
  intros Hstep. revert w; induction es as [|e es IH]; intros w Ha Hp E; cbn in *; [by injection E as <-|].
  apply andb_true_iff in Ha as [He Ha]. destruct (do_event e w) as [w1|] eqn:E1; [|done]. cbn in E. eapply IH; [done| |done].
  by eapply Hstep.
Qed.

Lemma start_inv d : (forall n i, named n i -> GET d (ikey n i) = None) -> inv (start d).
Proof.
  intros Hd. split; [split; [intros sid l; cbn; by rewrite lookup_empty|constructor|constructor]|constructor| |done].
  intros n i v Hn Hg. cbn in Hg. by rewrite Hd in Hg.
Qed.

(** ** What a reload finds *)

Abbreviation triple := (list byte * list byte * list byte)%type.

Definition flat (tr : list triple) : list (list byte) := concat (map (fun '(n, id, v) => [n; id; v]) tr).

(** The ids of one name, with what they hold. *)
Definition live_ids (n set : list byte) (ids : list (list byte)) (d : D) : list triple :=
  omap (fun id => v ← GET d (set ++ txt ":" ++ id); Some (n, id, v)) ids.

Lemma live_ids_elem n set ids d n' id v :
  (n', id, v) ∈ live_ids n set ids d <-> n' = n /\ id ∈ ids /\ GET d (set ++ txt ":" ++ id) = Some v.
Proof.
  unfold live_ids. rewrite list_elem_of_omap. split.
  - intros (id' & Hin & E). destruct (GET d _) eqn:Eg; [|done]. cbn in E. injection E as <- <- <-. done.
  - intros (-> & Hin & E). exists id. by rewrite E.
Qed.

(** [d'] differs from [d] only in ids whose instance has expired, and in [k1]. *)
Definition swept (k1 : key) (d d' : D) : Prop :=
  (forall k, GET d' k = GET d k) /\
  (forall set x, set <> k1 -> x ∈ SMEMBERS d' set -> x ∈ SMEMBERS d set) /\
  (forall set x v, set <> k1 -> x ∈ SMEMBERS d set -> GET d (set ++ txt ":" ++ x) = Some v -> x ∈ SMEMBERS d' set).

Lemma swept_refl k1 d : swept k1 d d.
Proof. unfold swept. naive_solver. Qed.

Lemma swept_trans k1 d d1 d2 : swept k1 d d1 -> swept k1 d1 d2 -> swept k1 d d2.
Proof.
  intros (G1 & S1 & L1) (G2 & S2 & L2). split_and!.
  - intros k. by rewrite G2, G1.
  - intros set x Hs Hx. eauto.
  - intros set x v Hs Hx Hg. eapply L2; [done|by eapply L1|by rewrite G1].
Qed.

Lemma swept_dead k1 set id d : GET d (set ++ txt ":" ++ id) = None -> swept k1 d (SREM set id d).
Proof.
  intros Hd. split_and!.
  - intros k. apply GET_SREM.
  - intros set' x _ Hx. by apply SMEMBERS_SREM in Hx as [? _].
  - intros set' x v _ Hx Hg. apply SMEMBERS_SREM. split; [done|]. intros [-> ->]. congruence.
Qed.

Lemma swept_name k1 n d : swept k1 d (SREM k1 n d).
Proof.
  split_and!.
  - intros k. apply GET_SREM.
  - intros set' x _ Hx. by apply SMEMBERS_SREM in Hx as [? _].
  - intros set' x v Hs Hx Hg. apply SMEMBERS_SREM. split; [done|]. intros [-> _]. done.
Qed.

Lemma list_ids_spec k1 n set ids : forall d,
  let '(d', out, alive) := list_ids n set ids d in out = flat (live_ids n set ids d) /\ swept k1 d d'.
Proof.
  induction ids as [|id ids IH]; intros d; cbn [list_ids]; [split; [done|apply swept_refl]|].
  unfold live_ids. cbn [omap list_omap]. destruct (GET d (set ++ txt ":" ++ id)) as [v|] eqn:Eg; cbn [mbind option_bind].
  - specialize (IH d). destruct (list_ids n set ids d) as [[d' out] alive]. destruct IH as [-> Hs]. done.
  - specialize (IH (SREM set id d)). destruct (list_ids n set ids (SREM set id d)) as [[d' out] alive].
    destruct IH as [-> Hs]. split; [|eapply swept_trans; [by apply swept_dead|done]].
    f_equal. apply list_omap_ext. clear - RedisLaws0. apply Forall2_same_length_lookup_2; [done|].
    intros i x y Hx Hy. assert (x = y) as -> by congruence. by rewrite GET_SREM.
Qed.

Lemma list_names_spec k1 a1 names : (forall n, a1 ++ n <> k1) -> forall d, exists tr,
  snd (list_names k1 a1 names d) = flat tr /\
  forall n id v, (n, id, v) ∈ tr <->
    n ∈ names /\ id ∈ SMEMBERS d (a1 ++ n) /\ GET d ((a1 ++ n) ++ txt ":" ++ id) = Some v.
Proof.
  intros Hk. induction names as [|n names IH]; intros d; cbn [list_names].
  { exists []. split; [done|]. intros n id v. rewrite !elem_of_nil. tauto. }
  pose proof (list_ids_spec k1 n (a1 ++ n) (SMEMBERS d (a1 ++ n)) d) as Hids.
  destruct (list_ids _ _ _ d) as [[d' out] alive]. destruct Hids as [-> Hs].
  set (d1 := if alive =? 0 then SREM k1 n d' else d').
  assert (swept k1 d d1) as (G & S & L).
  { unfold d1. destruct (alive =? 0); [|done]. eapply swept_trans; [done|apply swept_name]. }
  destruct (IH d1) as (tr & Etr & Htr). destruct (list_names k1 a1 names d1) as [d2 out2]. cbn [snd] in *. subst out2.
  exists (live_ids n (a1 ++ n) (SMEMBERS d (a1 ++ n)) d ++ tr). split.
  - unfold flat. by rewrite map_app, concat_app.
  - intros n' id v. rewrite elem_of_app, live_ids_elem, Htr, elem_of_cons, G. split.
    + intros [(-> & Hin & Hg)|(Hn & Hin & Hg)]; [tauto|]. split_and!; [tauto|by apply S|done].
    + intros ([->|Hn] & Hin & Hg); [by left|right]. split_and!; [done|by eapply L|done].
Qed.

Lemma snapshot_entries_flat tr :
  snapshot_entries (map Some (flat tr)) =
  omap (fun '(n, id, v) => '(ip, port, zone) ← ParseValue v; Some (mkInstance n (atoi id) ip port zone)) tr.
Proof.
  induction tr as [|[[n id] v] tr IH]; [done|]. cbn -[ParseValue atoi] in *. unfold flat in IH.
  rewrite IH. destruct (ParseValue v) as [[[ip port] zone]|]; done.
Qed.

Lemma reload_lemma d s x :
  let s' := fst (fst (resume Reload (snd (run_script (command m_sPrefix m_iExpireMilliseconds Reload) d)) s)) in
  m_bSnapshotOk s' = true /\
  (x ∈ m_vSnapshot s' <->
   exists n id v ip port zone,
     n ∈ SMEMBERS d (Key m_sPrefix (txt "svc")) /\
     id ∈ SMEMBERS d (Key m_sPrefix (txt "svc:" ++ n)) /\
     GET d (Key m_sPrefix (txt "svc:" ++ n ++ txt ":" ++ id)) = Some v /\
     ParseValue v = Some (ip, port, zone) /\ x = mkInstance n (atoi id) ip port zone).
Proof.
  cbn -[snapshot_entries]. unfold arg, run_list, Key. cbn [nth Nat.sub].
  destruct (list_names_spec (m_sPrefix ++ txt "svc") (m_sPrefix ++ txt "svc:") (SMEMBERS d (m_sPrefix ++ txt "svc"))) with (d := d) as (tr & Etr & Htr).
  { intros n E. rewrite <- app_assoc in E. by apply app_inv_head in E. }
  destruct (list_names _ _ _ d) as [d' out]. cbn [snd] in Etr. subst out. cbn -[snapshot_entries]. split; [done|].
  rewrite snapshot_entries_flat, list_elem_of_omap. split.
  - intros ([[n id] v] & Hin & E). apply Htr in Hin as (Hn & Hid & Hg). rewrite <- !app_assoc in *.
    destruct (ParseValue v) as [[[ip port] zone]|] eqn:Ep; [|done]. injection E as <-. exists n, id, v, ip, port, zone. done.
  - intros (n & id & v & ip & port & zone & Hn & Hid & Hg & Hp & ->). exists (n, id, v). split; [|by rewrite Hp].
    apply Htr. rewrite <- !app_assoc. done.
Qed.

(** The set of names, the set of one name's ids and an instance are three keys. *)
Lemma key_not_instance n i t : no_byte Byte.x3a t -> Key m_sPrefix t <> ikey n i.
Proof.
  intros Ht E. unfold instance_key, Key in E. apply app_inv_head in E. subst t.
  apply Forall_app in Ht as [Ht _]. by vm_compute in Ht; repeat apply Forall_cons in Ht as [? Ht].
Qed.

Lemma names_key_not_instance n i b : good b -> named n i -> Key m_sPrefix (txt "svc:" ++ sName b) <> ikey n i.
Proof.
  intros [Hb _] [Hn _] E. unfold instance_key, Key in E. apply app_inv_head, app_inv_head in E.
  apply (valid_not Byte.x3a) in Hb; [|done]. rewrite E in Hb. apply Forall_app in Hb as [_ Hb].
  apply Forall_app in Hb as [Hb _]. by apply Forall_cons in Hb as [? _].
Qed.

(** What a registration that was taken leaves in Redis. *)
Lemma registered_in_redis d d1 sid b :
  good b -> GET d (Key m_sPrefix (txt "svc")) = None -> GET d (Key m_sPrefix (txt "svc:" ++ sName b)) = None ->
  run_script (command m_sPrefix m_iExpireMilliseconds (Register sid b)) d = (d1, ReplyInteger REG_OK) ->
  sName b ∈ SMEMBERS d1 (Key m_sPrefix (txt "svc")) /\
  Decimal.to_string (iId b) ∈ SMEMBERS d1 (Key m_sPrefix (txt "svc:" ++ sName b)) /\
  GET d1 (Key m_sPrefix (txt "svc:" ++ sName b ++ txt ":" ++ Decimal.to_string (iId b))) = Some (sValue b).
Proof.
  intros Hg Hs Hn E. destruct (execute_effect (Register sid b) d d1 _ Hg E) as [Hw _ _ _].
  destruct (Hw b eq_refl) as [Hv _]. split_and!; [| |exact Hv].
  all: cbn in E; unfold run_register in E.
  all: assert (ikey_of b <> Key m_sPrefix (txt "svc")) as N1 by
    (intros Eq; by apply (key_not_instance (sName b) (iId b) (txt "svc")); [repeat constructor|]).
  all: assert (ikey_of b <> Key m_sPrefix (txt "svc:" ++ sName b)) as N2 by
    (intros Eq; by apply (names_key_not_instance (sName b) (iId b) b)).
  all: assert (d1 = SADD (Key m_sPrefix (txt "svc")) (sName b)
      (SADD (Key m_sPrefix (txt "svc:" ++ sName b)) (Decimal.to_string (iId b))
        (SET_PX (ikey_of b) (sValue b) (Decimal.to_string m_iExpireMilliseconds) d))) as ->
    by (unfold REG_OK in E; repeat case_match; simplify_eq; done).
  - apply SMEMBERS_SADD; [by rewrite GET_SADD, GET_SET_PX_ne|by right].
  - apply SMEMBERS_SADD; [by rewrite GET_SADD, GET_SET_PX_ne|left].
    apply SMEMBERS_SADD; [by rewrite GET_SET_PX_ne|by right].
Qed.

(** ** Properties *)

(** C8: nothing is left behind. From an empty registry, after any events in
    any order (connections opening and closing, registrations, heartbeats,
    reloads, keys expiring) in which no Redis call fails, once no command and no
    answer is under way, every instance alive in Redis is held, with exactly that
    value, by a connection that is open. *)
Theorem no_orphan d es w n i v :
  (forall n i, named n i -> GET d (ikey n i) = None) ->
  forallb sound es = true -> run es (start d) = Some w -> waiting w = [] -> answered w = [] ->
  named n i -> GET (db w) (ikey n i) = Some v ->
  exists sid l b, sid ∈ m_vAlive (srv w) /\ m_mBindings (srv w) !! sid = Some l /\ b ∈ l /\
    sName b = n /\ iId b = i /\ sValue b = v.
Proof.
  intros Hd Hs E Hw Ha Hn Hg.
  assert (inv w) as [Hwf _ Ho _] by (eapply (run_ind inv sound); [apply do_event_inv|done|by apply start_inv|done]).
  specialize (Ho n i v Hn Hg). rewrite Hw, Ha in Ho. cbn in Ho.
  destruct Ho as [(sid & l & b & Hl & Hb)|(f & b & []%not_elem_of_nil & _)].
  exists sid, l, b. split; [|done]. by apply (wf_server _ Hwf sid l).
Qed.

(** A registration that Redis has taken is published: after the next
    reload every pull that asks for its name, or for all names, succeeds and lists
    the instance with the address, port and zone that were registered. The keys of
    the two sets must not be in use for something else, and the address and the
    port must be free of blanks. *)
Theorem registration_published d d1 sid b s q :
  good b -> sIp b <> [] -> sPort b <> [] -> no_space (sIp b) -> no_space (sPort b) -> no_space (sZone b) ->
  sValue b = value_text (sIp b) (sPort b) (sZone b) ->
  GET d (Key m_sPrefix (txt "svc")) = None -> GET d (Key m_sPrefix (txt "svc:" ++ sName b)) = None ->
  run_script (command m_sPrefix m_iExpireMilliseconds (Register sid b)) d = (d1, ReplyInteger REG_OK) ->
  rp_vNames q = [] \/ sName b ∈ rp_vNames q ->
  let answer := snd (run_script (command m_sPrefix m_iExpireMilliseconds Reload) d1) in
  let a := pull_answer q (fst (fst (resume Reload answer s))) in
  pr_iCode a = OI_OK /\ mkRegInstance (sName b) (iId b) (sIp b) (sPort b) (sZone b) ∈ pr_vList a.
Proof.
  intros Hg Hi Hp Ni Np Nz Ev Hs Hn E Hq answer a.
  pose proof (reload_lemma d1 s (mkInstance (sName b) (iId b) (sIp b) (sPort b) (sZone b))) as [Hok Hin].
  fold answer in Hok, Hin. unfold a, pull_answer. rewrite Hok. split; [done|]. cbn [pr_vList].
  apply list_elem_of_fmap. eexists. split; [|apply list_elem_of_In, List.filter_In; split; [apply list_elem_of_In, Hin|]]; [done| |].
  - destruct (registered_in_redis _ _ _ _ Hg Hs Hn E) as (Hm1 & Hm2 & Hv).
    exists (sName b), (Decimal.to_string (iId b)), (sValue b), (sIp b), (sPort b), (sZone b).
    split_and!; try done; [by rewrite Ev; apply ParseValue_value|]. destruct Hg as [_ Hr]. rewrite atoi_to_string by lia. done.
  - unfold wanted. destruct (rp_vNames q) as [|n l]; [done|]. destruct Hq as [|Hq]; [done|].
    apply existsb_exists. exists (sName b). split; [by apply list_elem_of_In|apply bytes_eqb_refl].
Qed.

(** An address that is alive is never replaced by another one, not even
    when Redis calls fail: in any run, from any store, an event that finds a value
    under an instance's key leaves that value or nothing there. So a second
    process under the same name and id gets in only once the first has gone. *)
Theorem live_address_kept d es w e w' n i v v' :
  run es (start d) = Some w -> do_event e w = Some w' -> named n i ->
  GET (db w) (ikey n i) = Some v -> GET (db w') (ikey n i) = Some v' -> v = v'.
Proof.
  intros E Ee Hn Hg Hg'.
  assert (well_formed w) as Hwf.
  { eapply (run_ind well_formed (fun _ => true)); [intros e0 w0 w1 _; apply do_event_wf| | |done].
    - by apply forallb_forall.
    - split; [intros sid l; cbn; by rewrite lookup_empty|constructor|constructor]. }
  destruct (do_event_db e w w' Hwf Ee) as [Ed|[(t & r & Ht & He)|(n0 & i0 & Ed)]]; [congruence| |rewrite Ed in Hg'].
  - destruct (wrote t r) as [b|] eqn:Ewr; [destruct (same_id n i b) eqn:Es|].
    1: apply same_id_true in Es as [<- <-]; destruct (ex_wrote _ _ _ _ He _ Ewr) as [E1 [E2|E2]]; congruence.
    all: assert (GET (db w) (ikey n i) = Some v') by
      (eapply executed_old; [done|done| |done]; intros b'; rewrite Ewr; by intros [= <-]); congruence.
  - destruct (decide (ikey n0 i0 = ikey n i)) as [Eq|Hne].
    + by rewrite Eq, GET_DEL in Hg'.
    + rewrite GET_DEL_ne in Hg' by done. congruence.
Qed.

End World.

(** ** Runs *)

Section Runs.

Definition game : RegRegister := mkRegInstance (txt "game") 7 (txt "10.0.0.1") (txt "9000") [].

Definition bytes_of (r : result BytesStream.stream) : list byte :=
  match r with Ok s => BytesStream.data s | Err _ => [] end.

Definition register_game (sid : Z) : event :=
  Request sid PROTO_REG_REGISTER (bytes_of (serialize_RegInstance game (BytesStream.of_bytes []))).
Definition heartbeat_game (sid : Z) : event :=
  Request sid PROTO_REG_HEARTBEAT (bytes_of (serialize_RegHeartbeat (mkRegHeartbeat (txt "game") 7) (BytesStream.of_bytes []))).

Abbreviation prefix := (txt "p:").
Abbreviation run_game es := (run prefix 10000 es (start empty_store)).
Abbreviation game_key := (instance_key prefix (txt "game") 7).
Abbreviation game_value := (txt "10.0.0.1 9000").

(** A service registers, the registry reloads. *)
Definition registers : list event :=
  [Connect 1; register_game 1; Execute; Answer; ReloadTick; Execute; Answer].

Definition world_of (w : option (world Store)) : world Store := default (start empty_store) w.

Definition after_registering : world Store := world_of (run_game registers).

Lemma no_orphan_witness :
  exists sid l b, sid ∈ m_vAlive (srv after_registering) /\ m_mBindings (srv after_registering) !! sid = Some l /\
    b ∈ l /\ sName b = txt "game" /\ iId b = 7 /\ sValue b = game_value.
Proof.
  refine (no_orphan prefix 10000 empty_store registers after_registering (txt "game") 7 game_value _ _ _ _ _ _ _).
  - intros n i _. reflexivity.
  - reflexivity.
  - vm_compute. reflexivity.
  - vm_compute. reflexivity.
  - vm_compute. reflexivity.
  - split; [reflexivity|lia].
  - vm_compute. reflexivity.
Defined.

(** Two processes under one name and id: the second is turned away. *)
Definition contested : list event :=
  [Connect 1; register_game 1; Execute; Answer; Connect 2; register_game 2].

Definition before_contest : world Store := world_of (run_game contested).
Definition after_contest : world Store := world_of (do_event prefix 10000 Execute before_contest).

Lemma live_address_kept_witness :
  exists v, GET (db after_contest) game_key = Some v /\ game_value = v.
Proof.
  eexists. split; [vm_compute; reflexivity|].
  refine (live_address_kept prefix 10000 empty_store contested before_contest Execute after_contest (txt "game") 7
            game_value _ _ _ _ _ _).
  - vm_compute. reflexivity.
  - vm_compute. reflexivity.
  - split; [reflexivity|lia].
  - vm_compute. reflexivity.
  - vm_compute. reflexivity.
Defined.

Lemma registration_published_witness :
  let e := run_script (command prefix 10000 (Register 1 (binding_of game))) empty_store in
  let answer := snd (run_script (command prefix 10000 Reload) (fst e)) in
  let a := pull_answer (mkRegPull [txt "game"]) (fst (fst (resume Reload answer new_server))) in
  pr_iCode a = OI_OK /\ game ∈ pr_vList a.
Proof.
  apply (registration_published prefix 10000 empty_store _ 1 (binding_of game)); try (vm_compute; reflexivity).
  - split; [reflexivity|vm_compute; split; reflexivity || discriminate].
  - discriminate.
  - discriminate.
  - repeat constructor; discriminate.
  - repeat constructor; discriminate.
  - constructor.
  - right. left.
Defined.

(** A service whose connection was lost unnoticed connects again and registers;
    only then does the registry see the old connection closed. *)
Definition reconnects : list event :=
  [Connect 1; register_game 1; Execute; Answer; Connect 2; register_game 2; Execute; Answer; Close 1; Execute; Answer].

(** Closing a connection also withdraws what a newer connection has
    registered in the meantime under the same name, id and address: the second
    registration has been acknowledged and its connection is open and holds it,
    but neither Redis nor the snapshot has the instance, until the next heartbeat
    of the new connection puts it back. *)
Theorem reconnect_withdrawn :
  let w := world_of (run_game reconnects) in
  outbox w = [register_res 1 OI_OK; register_res 2 OI_OK] /\
  FindBinding 2 (txt "game") 7 (srv w) = Some (binding_of game) /\
  GET (db w) game_key = None /\ m_vSnapshot (srv w) = [] /\
  let w' := world_of (run prefix 10000 [heartbeat_game 2; Execute; Answer] w) in
  GET (db w') game_key = Some game_value /\
  m_vSnapshot (srv w') = [mkInstance (txt "game") 7 (txt "10.0.0.1") (txt "9000") []].
Proof. vm_compute. split_and!; reflexivity. Qed.

(** An address is not checked for blanks, so that two registrations of
    different services can have the same value in Redis: the second is taken for
    the first one's process, and after a reload pulls list an address nobody
    registered. *)
Theorem blank_in_address_ambiguous :
  let q := mkRegInstance (txt "game") 7 (txt "10.0.0.1") (txt "9000 z") [] in
  let q' := mkRegInstance (txt "game") 7 (txt "10.0.0.1") (txt "9000") (txt "z") in
  acceptable q = true /\ acceptable q' = true /\ q <> q' /\ sValue (binding_of q) = sValue (binding_of q') /\
  let d := fst (run_script (command prefix 10000 (Register 1 (binding_of q))) empty_store) in
  snd (run_script (command prefix 10000 (Register 2 (binding_of q'))) d) = ReplyInteger REG_OK /\
  pull_answer (mkRegPull []) (fst (fst (resume Reload (snd (run_script (command prefix 10000 Reload) d)) new_server))) =
    mkRegPullRes OI_OK [q'].
Proof. vm_compute. split_and!; try reflexivity. discriminate. Qed.

End Runs.
End RegistryWorld.
