(* ===== verification/ServiceTable.v ===== *)
(** * The instances a process follows

    cbaselib/base/src/oi_registry.cpp, class ServiceTable: for every service name
    the instance in use and the session managers that follow it.  Session managers
    are opaque values that can be compared; the calls of their ApplyService are the
    list [Apply] returns, in order.  Every method holds the table's mutex for all
    of its accesses and is one step. *)

From stdpp Require Import sorting.
From S2P Require Import Prelude Text RegistryServer.

Module ServiceTable.
Import Text RegistryServer.

Section Table.
Context {M : Type} `{EqDecision M}.

Record State : Type := mkState {
  st_iId : Z;
  st_sIp : list byte;
  st_sPort : list byte;
  bOnline : bool;
  vWatchers : list M
}.

Definition new_State : State := mkState 0 [] [] false [].

(** m_mServices. *)
Abbreviation table := (gmap (list byte) State).

(** The loop of Pick; [pBest] is the smallest id so far. *)
Fixpoint pick (pBest : option ServiceInstance) (sName : list byte) (iCurrent : Z) (vList : list ServiceInstance)
    : option ServiceInstance :=
  match vList with
  | [] => pBest
  | x :: vList =>
      if negb (bytes_eqb (si_sName x) sName) then pick pBest sName iCurrent vList
      else if (0 <? iCurrent) && (si_iId x =? iCurrent) then Some x
      else if match pBest with None => true | Some b => si_iId x <? si_iId b end then pick (Some x) sName iCurrent vList
      else pick pBest sName iCurrent vList
  end.

Definition Pick (vList : list ServiceInstance) (sName : list byte) (iCurrent : Z) : option ServiceInstance :=
  pick None sName iCurrent vList.

Definition Watchers (sName : list byte) (t : table) : list M :=
  match t !! sName with
  | None => []
  | Some s => vWatchers s
  end.

Definition Watch (pManager : M) (sName : list byte) (t : table) : table :=
  let s := default new_State (t !! sName) in
  if decide (pManager ∈ vWatchers s) then <[sName := s]> t
  else <[sName := mkState (st_iId s) (st_sIp s) (st_sPort s) (bOnline s) (vWatchers s ++ [pManager])]> t.

(** The order of std::map. *)
Fixpoint bytes_leb (a b : list byte) : bool :=
  match a, b with
  | [], _ => true
  | _ :: _, [] => false
  | x :: a, y :: b => (byteZ x <? byteZ y) || ((byteZ x =? byteZ y) && bytes_leb a b)
  end.

Definition bytes_le (a b : list byte) : Prop := bytes_leb a b = true.

#[export] Instance bytes_le_dec a b : Decision (bytes_le a b) := decide (bytes_leb a b = true).

Definition Names (t : table) : list (list byte) :=
  merge_sort bytes_le (map fst (filter (fun p => vWatchers (snd p) <> []) (map_to_list t))).

Record Change : Type := mkChange { pManager : M; ch_sIp : list byte; ch_sPort : list byte; ch_bOnline : bool }.

(** What the round for one name does: the new state, and whether it changed. *)
Definition follow (vList : list ServiceInstance) (sName : list byte) (s : State) : State * bool :=
  let stPick := Pick vList sName (if bOnline s then st_iId s else 0) in
  match stPick with
  | None =>
      if bOnline s then (mkState 0 [] [] false (vWatchers s), true) else (s, false)
  | Some x =>
      if bOnline s && (si_iId x =? st_iId s) && bytes_eqb (si_sIp x) (st_sIp s) && bytes_eqb (si_sPort x) (st_sPort s)
      then (s, false)
      else (mkState (si_iId x) (si_sIp x) (si_sPort x) true (vWatchers s), true)
  end.

Definition changes (s : State) : list Change :=
  map (fun p => mkChange p (st_sIp s) (st_sPort s) (bOnline s)) (vWatchers s).

Definition apply_name (vList : list ServiceInstance) (acc : table * list Change) (sName : list byte) : table * list Change :=
  let (t, vChanged) := acc in
  match t !! sName with
  | None => (t, vChanged)
  | Some s =>
      let (s', changed) := follow vList sName s in
      if changed then (<[sName := s']> t, vChanged ++ changes s') else (t, vChanged)
  end.

(** The table afterwards and the calls of ApplyService. *)
Definition Apply (vNames : list (list byte)) (vList : list ServiceInstance) (t : table) : table * list Change :=
  fold_left (apply_name vList) vNames (t, []).

(** ** Pick *)

(** An instance of the name with the current id, or one whose id is the smallest. *)
Definition instances (sName : list byte) (vList : list ServiceInstance) : list ServiceInstance :=
  List.filter (fun x => bytes_eqb (si_sName x) sName) vList.

Lemma pick_skip sName iCurrent vList b :
  (forall x, x ∈ instances sName vList -> ~ (0 < iCurrent /\ si_iId x = iCurrent)) ->
  match pick b sName iCurrent vList with
  | Some y => (b = Some y \/ y ∈ instances sName vList) /\
      (forall z, b = Some z \/ z ∈ instances sName vList -> si_iId y <= si_iId z)
  | None => b = None /\ instances sName vList = []
  end.
Proof.
  revert b; induction vList as [|x l IH]; intros b Hc; cbn [pick instances List.filter].
  - destruct b as [b|]; [|done]. split; [by left|]. intros z [[= ->]|[]%not_elem_of_nil]. done.
  - fold (instances sName l). cbn [instances List.filter] in Hc. fold (instances sName l) in Hc.
    destruct (bytes_eqb (si_sName x) sName); cbn [negb]; [|by apply IH].
    assert (forall y, y ∈ instances sName l -> ~ (0 < iCurrent /\ si_iId y = iCurrent)) as Hl.
    { intros y Hy. apply Hc. by right. }
    destruct ((0 <? iCurrent) && (si_iId x =? iCurrent)) eqn:E.
    { exfalso. apply (Hc x); [by left|]. lia. }
    assert (match b with None => True | Some b => si_iId b <= si_iId x end \/
            match b with None => True | Some b => si_iId x < si_iId b end) as Hb by (destruct b; lia).
    destruct (match b with None => true | Some b => si_iId x <? si_iId b end) eqn:Eb.
    + specialize (IH (Some x) Hl). destruct (pick (Some x) sName iCurrent l) as [y|]; [|by destruct IH].
      destruct IH as [Hin Hmin]. split.
      * right. destruct Hin as [[= ->]|Hin]; [by left|by right].
      * intros z [->|Hz]; [|apply Hmin; apply elem_of_cons in Hz as [->|Hz]; [by left|by right]].
        pose proof (Hmin x ltac:(by left)). lia.
    + destruct b as [b|]; [|done]. specialize (IH (Some b) Hl).
      destruct (pick (Some b) sName iCurrent l) as [y|]; [|by destruct IH].
      destruct IH as [Hin Hmin]. split.
      * destruct Hin as [?|?]; [by left|right; by right].
      * intros z [Hz|[->|Hz]%elem_of_cons]; [apply Hmin; by left| |apply Hmin; by right].
        pose proof (Hmin b ltac:(by left)). lia.
Qed.

Lemma pick_current sName iCurrent vList b :
  (exists x, x ∈ instances sName vList /\ 0 < iCurrent /\ si_iId x = iCurrent) ->
  exists y, pick b sName iCurrent vList = Some y /\ y ∈ instances sName vList /\ si_iId y = iCurrent.
Proof.
  revert b; induction vList as [|x l IH]; intros b (y & Hy & Hc & Hi); cbn [instances List.filter] in Hy; [by apply not_elem_of_nil in Hy|].
  fold (instances sName l) in Hy. cbn [pick instances List.filter]. fold (instances sName l).
  destruct (bytes_eqb (si_sName x) sName); cbn [negb]; [|by apply IH; exists y].
  destruct (Z.ltb_spec 0 iCurrent); [|lia]. destruct (Z.eqb_spec (si_iId x) iCurrent); cbn [andb].
  { exists x. split; [done|]. split; [by left|done]. }
  apply elem_of_cons in Hy as [->|Hy]; [done|].
  destruct (match b with None => true | Some b => si_iId x <? si_iId b end).
  - destruct (IH (Some x)) as (z & -> & Hz & Ez); [by exists y|]. exists z. split; [done|]. split; [by right|done].
  - destruct (IH b) as (z & -> & Hz & Ez); [by exists y|]. exists z. split; [done|]. split; [by right|done].
Qed.

(** The rule clients follow: stay where you are if you can, else the smallest id. *)
Definition chosen (sName : list byte) (iCurrent : Z) (vList : list ServiceInstance) (x : ServiceInstance) : Prop :=
  x ∈ instances sName vList /\
  ((0 < iCurrent /\ si_iId x = iCurrent) \/
   (forall y, y ∈ instances sName vList -> ~ (0 < iCurrent /\ si_iId y = iCurrent) /\ si_iId x <= si_iId y)).

Lemma Pick_spec vList sName iCurrent :
  match Pick vList sName iCurrent with
  | Some x => chosen sName iCurrent vList x
  | None => instances sName vList = []
  end.
Proof.
  unfold Pick. destruct (decide (Exists (fun x => 0 < iCurrent /\ si_iId x = iCurrent) (instances sName vList))) as [He|He].
  - apply Exists_exists in He as (x & Hx & H). destruct (pick_current sName iCurrent vList None) as (y & -> & Hy & E).
    { exists x. tauto. }
    split; [done|]. left. tauto.
  - assert (forall x, x ∈ instances sName vList -> ~ (0 < iCurrent /\ si_iId x = iCurrent)) as Hc.
    { intros x Hx H. apply He, Exists_exists. by exists x. }
    pose proof (pick_skip sName iCurrent vList None Hc) as H. destruct (pick None sName iCurrent vList) as [y|]; [|by destruct H].
    destruct H as [[|Hy] Hm]; [done|]. split; [done|]. right. intros z Hz. split; [by apply Hc|]. apply Hm. by right.
Qed.

(** ** Apply *)

(** What a watcher has been told. *)
Definition view (s : State) : option (Z * list byte * list byte) :=
  if bOnline s then Some (st_iId s, st_sIp s, st_sPort s) else None.

Definition current (s : State) : Z := if bOnline s then st_iId s else 0.

(** The state follows the rule. *)
Definition follows (sName : list byte) (vList : list ServiceInstance) (iCurrent : Z) (s : State) : Prop :=
  match view s with
  | Some (i, ip, port) => exists x, chosen sName iCurrent vList x /\ i = si_iId x /\ ip = si_sIp x /\ port = si_sPort x
  | None => instances sName vList = []
  end.

Lemma follow_spec vList sName s :
  let (s', changed) := follow vList sName s in
  vWatchers s' = vWatchers s /\ follows sName vList (current s) s' /\
  (if changed then view s' <> view s else s' = s).
Proof.
  unfold follow, follows. fold (current s). pose proof (Pick_spec vList sName (current s)) as Hp.
  destruct (Pick vList sName (current s)) as [x|]; cbn.
  - destruct (bOnline s && _ && _ && _) eqn:E; cbn.
    + rewrite !andb_true_iff, !bytes_eqb_eq, Z.eqb_eq in E. destruct E as [[[Eo Ei] Eip] Ep].
      split; [done|]. split; [|done]. unfold view. rewrite Eo. exists x. done.
    + split; [done|]. split; [by exists x|]. unfold view. cbn. destruct (bOnline s); [|done].
      intros [= Ei Eip Ep]. rewrite Ei, Eip, Ep, Z.eqb_refl, !bytes_eqb_refl in E. done.
  - destruct (bOnline s) eqn:Eo; cbn; unfold view; rewrite ?Eo; done.
Qed.

(** The calls for one name. *)
Definition told (t t' : table) (n : list byte) : list Change :=
  match t !! n, t' !! n with
  | Some s, Some s' => if decide (view s' = view s) then [] else changes s'
  | _, _ => []
  end.

Lemma Apply_from vList vNames : NoDup vNames -> forall t ch,
  let (t', ch') := fold_left (apply_name vList) vNames (t, ch) in
  (forall n, n ∉ vNames -> t' !! n = t !! n) /\
  (forall n s, n ∈ vNames -> t !! n = Some s ->
     exists s', t' !! n = Some s' /\ vWatchers s' = vWatchers s /\ follows n vList (current s) s') /\
  ch' = ch ++ concat (map (told t t') vNames).
Proof.
  induction 1 as [|n vNames Hn Hd IH]; intros t ch; cbn [fold_left map concat].
  - split_and!; [done|by intros ? ? ?%not_elem_of_nil|by rewrite app_nil_r].
  - set (acc := apply_name vList (t, ch) n).
    assert (exists t1 ch1, acc = (t1, ch ++ ch1) /\ (forall m, m <> n -> t1 !! m = t !! m) /\
      (forall s, t !! n = Some s -> exists s', t1 !! n = Some s' /\ vWatchers s' = vWatchers s /\ follows n vList (current s) s') /\
      ch1 = told t t1 n) as (t1 & ch1 & -> & Ho & Hs & E1).
    { unfold acc, apply_name, told. destruct (t !! n) as [s|] eqn:Et.
      - pose proof (follow_spec vList n s) as Hf. destruct (follow vList n s) as [s' changed]. destruct Hf as (Hw & Hf & Hc).
        destruct changed.
        + exists (<[n := s']> t), (changes s'). rewrite lookup_insert_eq. split_and!; try done.
          * intros m Hm. by apply lookup_insert_ne.
          * intros s0 [= <-]. by exists s'.
          * by rewrite decide_False.
        + subst s'. exists t, []. rewrite app_nil_r, Et. split_and!; try done; [|by rewrite decide_True].
          intros s0 [= <-]. by exists s.
      - exists t, []. rewrite app_nil_r. done. }
    specialize (IH t1 (ch ++ ch1)). destruct (fold_left _ vNames _) as [t' ch']. destruct IH as (IHo & IHs & ->). split_and!.
    + intros m Hm. rewrite not_elem_of_cons in Hm. rewrite IHo by tauto. apply Ho. tauto.
    + intros m s [->|Hm]%elem_of_cons Hl.
      * rewrite IHo by done. by apply Hs.
      * apply IHs; [done|]. rewrite Ho; [done|]. by intros ->.
    + rewrite <- app_assoc. f_equal. f_equal.
      * rewrite E1. unfold told. by rewrite (IHo n Hn).
      * f_equal. apply map_ext_in. intros m Hm%list_elem_of_In. unfold told. rewrite Ho; [done|]. by intros ->.
Qed.

(** Every name asked for follows the rule of the table: stay with the
    instance in use while it is listed, otherwise the smallest id listed, otherwise
    offline; other names are left alone. The watchers of a name are called, in
    order and with the new address, exactly if what they were last told has
    changed. *)
Theorem Apply_follows vNames vList t t' calls : NoDup vNames -> Apply vNames vList t = (t', calls) ->
  (forall n, n ∉ vNames -> t' !! n = t !! n) /\
  (forall n s, n ∈ vNames -> t !! n = Some s ->
     exists s', t' !! n = Some s' /\ vWatchers s' = vWatchers s /\ follows n vList (current s) s') /\
  calls = concat (map (told t t') vNames).
Proof. intros Hd E. pose proof (Apply_from vList vNames Hd t []) as H. unfold Apply in E. by rewrite E in H. Qed.

(** Names come sorted and without repetition, as Apply needs them. *)
Lemma Names_NoDup t : NoDup (Names t).
Proof.
  unfold Names. eapply NoDup_Permutation_proper; [apply merge_sort_Permutation|].
  pose proof (NoDup_fst_map_to_list t) as Hd. induction (map_to_list t) as [|[n s] l IH]; [constructor|].
  cbn in Hd. apply NoDup_cons in Hd as [Hn Hd]. rewrite filter_cons. destruct (decide _); [|by apply IH].
  cbn. constructor; [|by apply IH]. intros Hin. apply Hn. clear - Hin. apply list_elem_of_fmap in Hin as (p & -> & Hp).
  apply list_elem_of_filter in Hp as [_ Hp]. apply list_elem_of_fmap. by exists p.
Qed.

End Table.
Arguments State : clear implicits.
Arguments Change : clear implicits.

Lemma Apply_follows_witness :
  let i id := mkInstance (txt "db") id (txt "10.0.0.1") (txt "1") [] in
  let t : gmap (list byte) (State nat) := Watch 7%nat (txt "db") ∅ in
  snd (Apply [txt "db"] [i 3; i 2] t) = [mkChange 7%nat (txt "10.0.0.1") (txt "1") true] /\
  concat (map (told t (fst (Apply [txt "db"] [i 3; i 2] t))) [txt "db"]) = [mkChange 7%nat (txt "10.0.0.1") (txt "1") true].
Proof.
  split; [vm_compute; reflexivity|].
  refine (eq_trans (eq_sym (proj2 (proj2 (Apply_follows [txt "db"] _ _ _ _ (NoDup_singleton _) (surjective_pairing _))))) _).
  vm_compute. reflexivity.
Defined.

End ServiceTable.
