(* ===== verification/RegistryClient.v ===== *)
(** * The client of the registry

    cbaselib/base/src/oi_registry.cpp, class RegistryClient: a process's own
    registration and its pulls.  Pulls are answered in the order they were sent,
    without a call number, so the client keeps the pulls sent in a queue, takes
    the front for every answer and gives a connection up as a whole when a pull
    in it is overdue.  Pulls made before the connection is up wait in a second
    queue.

    Every method that touches the queues holds stPendingMutex and is one step; the
    synchronous PullSync and Publish are the steps between their waits.  The clock,
    the results of SendBytes and of StartClient, and the configuration are the
    environment's.  A callback is its call number in the list [finished]; what it
    does is further steps, which come after: FinishPull is always called last, or
    on pulls that have left the queues.  Allocation failures are not modelled. *)

From S2P Require Import Prelude Text BytesStream RpcData RegistryServer ServiceTable.

Module RegistryClient.
Import Text RpcData RegistryServer ServiceTable.

Definition INVALID_SID : Z := -1.
Definition OI_ERR_TIMEOUT : Z := -2.
Definition OI_ERR_CONNECT : Z := -3.
Definition OI_ERR_BUSY : Z := -5.
Definition kWaitMs : Z := 1000.
Definition INT64_MAX : Z := 2 ^ 63 - 1.

(** ** State *)

(** [pState]: the call whose callback is run with the answer, if any. *)
Record PendingPull : Type := mkPending {
  bSynchronous : bool;
  iDeadlineMilliseconds : Z;
  vNames : list (list byte);
  pState : option Z
}.

Record connection : Type := mkConnection {
  bConnected : bool;
  bConnecting : bool;
  bFailed : bool;
  iSessionId : Z;
  bAddressReady : bool
}.

Record registration : Type := mkRegistration {
  service : RegRegister;
  bPublished : bool;
  bRegistered : bool;
  bLost : bool;
  bRegistrationWaiting : bool
}.

(** What a synchronous caller waits for. *)
Record slot : Type := mkSlot { bGot : bool; iCode : Z; vResponseList : list ServiceInstance }.

Record timers : Type := mkTimers {
  bHeartbeatArmed : bool;
  iHeartbeatMilliseconds : Z;
  bPullArmed : bool;
  iPullMilliseconds : Z;
  bPullTimeoutArmed : bool
}.

Record finish : Type := mkFinish { fin_id : Z; fin_code : Z; fin_list : list ServiceInstance }.

(** [once]: the calls whose iOnce is set. *)
Record pulls : Type := mkPulls {
  vPendingPulls : list PendingPull;
  vDeferredPulls : list PendingPull;
  iPullResetCount : Z;
  once : gset Z;
  finished : list finish
}.

Inductive request : Type :=
| ReqRegister (m : RegRegister)
| ReqHeartbeat (m : RegHeartbeat)
| ReqPull (m : RegPull).

Inductive send_outcome : Type := Sent | NotSent | Threw.
Inductive start_outcome : Type := Starting | StartFailed | StopRequested.

(** The environment: the time, how much of it passes until each of the next
    readings of the clock, and what the next calls outside come to. *)
Record environment : Type := mkEnvironment {
  now : Z;
  delays : list N;
  sends : list send_outcome;
  starts : list start_outcome
}.

(** What has gone out: messages by session, sessions closed. *)
Record traffic : Type := mkTraffic { sent : list (Z * request); closed : list Z }.

Section Client.
Context {M : Type} `{EqDecision M}.

Record client : Type := mkClient {
  conn : connection;
  reg : registration;
  answer : slot;
  armed : timers;
  queues : pulls;
  env : environment;
  out : traffic;
  services : gmap (list byte) (State M);
  applied : list (Change M)
}.

Definition set_conn (c : connection) (s : client) : client :=
  mkClient c (reg s) (answer s) (armed s) (queues s) (env s) (out s) (services s) (applied s).
Definition set_reg (r : registration) (s : client) : client :=
  mkClient (conn s) r (answer s) (armed s) (queues s) (env s) (out s) (services s) (applied s).
Definition set_answer (a : slot) (s : client) : client :=
  mkClient (conn s) (reg s) a (armed s) (queues s) (env s) (out s) (services s) (applied s).
Definition set_armed (t : timers) (s : client) : client :=
  mkClient (conn s) (reg s) (answer s) t (queues s) (env s) (out s) (services s) (applied s).
Definition set_queues (q : pulls) (s : client) : client :=
  mkClient (conn s) (reg s) (answer s) (armed s) q (env s) (out s) (services s) (applied s).
Definition set_env (e : environment) (s : client) : client :=
  mkClient (conn s) (reg s) (answer s) (armed s) (queues s) e (out s) (services s) (applied s).
Definition set_out (o : traffic) (s : client) : client :=
  mkClient (conn s) (reg s) (answer s) (armed s) (queues s) (env s) o (services s) (applied s).
Definition set_services (t : gmap (list byte) (State M)) (l : list (Change M)) (s : client) : client :=
  mkClient (conn s) (reg s) (answer s) (armed s) (queues s) (env s) (out s) t (applied s ++ l).

(** Replaces the two queues. *)
Definition set_pending (p d : list PendingPull) (s : client) : client :=
  set_queues (mkPulls p d (iPullResetCount (queues s)) (once (queues s)) (finished (queues s))) s.

Definition new_client (start : Z) : client :=
  mkClient (mkConnection false false false INVALID_SID false)
    (mkRegistration new_RegInstance false false false false)
    (mkSlot false OI_ERR_FAIL []) (mkTimers false 1000 false 1000 false) (mkPulls [] [] 0 ∅ [])
    (mkEnvironment start [] [] []) (mkTraffic [] []) ∅ [].

(** ** The environment *)

(** SteadyMilliseconds. *)
Definition tick (s : client) : Z * client :=
  let e := env s in
  let t := now e + Z.of_N (hd 0%N (delays e)) in
  (t, set_env (mkEnvironment t (tl (delays e)) (sends e) (starts e)) s).

Definition SendBytes (sid : Z) (m : request) (s : client) : send_outcome * client :=
  let e := env s in
  let s := set_env (mkEnvironment (now e) (delays e) (tl (sends e)) (starts e)) s in
  match hd Sent (sends e) with
  | Sent => (Sent, set_out (mkTraffic (sent (out s) ++ [(sid, m)]) (closed (out s))) s)
  | o => (o, s)
  end.

Definition StartClient (s : client) : start_outcome * client :=
  let e := env s in
  (hd Starting (starts e), set_env (mkEnvironment (now e) (delays e) (sends e) (tl (starts e))) s).

Definition CloseSession (sid : Z) (s : client) : client :=
  set_out (mkTraffic (sent (out s)) (closed (out s) ++ [sid])) s.

(** ** Finishing a pull *)

Definition FinishPull (p : option Z) (code : Z) (l : list ServiceInstance) (s : client) : client :=
  match p with
  | None => s
  | Some i =>
      let q := queues s in
      if decide (i ∈ once q) then s
      else set_queues (mkPulls (vPendingPulls q) (vDeferredPulls q) (iPullResetCount q) ({[ i ]} ∪ once q)
                         (finished q ++ [mkFinish i code l])) s
  end.

(** What a pull ends with that gets no answer. *)
Definition lost_code (now : Z) (p : PendingPull) : Z :=
  if iDeadlineMilliseconds p <=? now then OI_ERR_TIMEOUT else OI_ERR_CONNECT.

(** The loops after the lock is released: the clock is read for every pull. *)
Definition finish_lost (ps : list PendingPull) (s : client) : client :=
  fold_left (fun s p => let (t, s) := tick s in FinishPull (pState p) (lost_code t p) [] s) ps s.

Definition finish_with (code : PendingPull -> Z) (ps : list PendingPull) (s : client) : client :=
  fold_left (fun s p => FinishPull (pState p) (code p) [] s) ps s.

(** ** The connection *)

Context (conf_string : list byte -> option (list byte)) (conf_int : list byte -> option Z) (conf_other : list byte -> bool).

Definition nonempty {A} (l : list A) : bool := match l with [] => false | _ => true end.

Definition Configured : bool :=
  match conf_string (txt "Registry.ip") with Some ip => nonempty ip | None => false end.

(** The address in the configuration is complete. *)
Definition address_configured : bool :=
  match conf_string (txt "Registry.ip"), conf_string (txt "Registry.port"), conf_string (txt "Registry.type") with
  | Some ip, Some port, Some _ => nonempty ip && nonempty port
  | _, _, _ => false
  end.

Definition OnConnectFailed (s : client) : client :=
  let c := conn s in
  let s := set_conn (mkConnection (bConnected c) false true (iSessionId c) (bAddressReady c)) s in
  let vFailed := vDeferredPulls (queues s) in
  finish_lost vFailed (set_pending (vPendingPulls (queues s)) [] s).

Definition Connect (s : client) : bool * client :=
  let c := conn s in
  if bConnected c then (true, s)
  else if negb (bAddressReady c) && negb address_configured then (false, s)
  else if bConnecting c then (true, set_conn (mkConnection false true (bFailed c) (iSessionId c) true) s)
  else
    let s := set_conn (mkConnection false true false (iSessionId c) true) s in
    match StartClient s with
    | (StopRequested, s) => (false, set_conn (mkConnection false false false (iSessionId c) true) s)
    | (Starting, s) => (true, s)
    | (StartFailed, s) => (true, OnConnectFailed s)
    end.

Definition Send (m : request) (s : client) : send_outcome * client :=
  if iSessionId (conn s) =? INVALID_SID then (NotSent, s) else SendBytes (iSessionId (conn s)) m s.

(** ** The queue of pulls sent *)

(** nullopt is an exception. *)
Definition ReadMaxPendingPulls : option Z :=
  let key := txt "Registry.max_pending_pulls" in
  match conf_int key with
  | Some v => if v <=? 0 then None else Some v
  | None => match conf_string key with
            | Some _ => None
            | None => if conf_other key then None else Some 4096
            end
  end.

Definition GetPendingPullCount (s : client) : Z := lenZ (vPendingPulls (queues s)) + lenZ (vDeferredPulls (queues s)).

Definition CanEnqueuePull (s : client) : option bool :=
  m ← ReadMaxPendingPulls; Some (GetPendingPullCount s <? u64 m).

Definition ArmPullTimeout (s : client) : client :=
  let t := armed s in
  if bPullTimeoutArmed t then s
  else set_armed (mkTimers (bHeartbeatArmed t) (iHeartbeatMilliseconds t) (bPullArmed t) (iPullMilliseconds t) true) s.

Definition push_pending (p : PendingPull) (s : client) : client :=
  set_pending (vPendingPulls (queues s) ++ [p]) (vDeferredPulls (queues s)) s.
Definition pop_back (s : client) : client :=
  set_pending (removelast (vPendingPulls (queues s))) (vDeferredPulls (queues s)) s.

(** A deadline of 0 stands for kWaitMs from now. *)
Definition with_deadline (p : PendingPull) (s : client) : PendingPull * client :=
  if iDeadlineMilliseconds p =? 0 then
    let (t, s) := tick s in (mkPending (bSynchronous p) (t + kWaitMs) (vNames p) (pState p), s)
  else (p, s).

Definition EnqueueSentPull (p : PendingPull) (s : client) : send_outcome * client :=
  let s := ArmPullTimeout s in
  let (p, s) := with_deadline p s in
  let s := push_pending p s in
  match Send (ReqPull (mkRegPull (vNames p))) s with
  | (Sent, s) => (Sent, s)
  | (o, s) => (o, pop_back s)
  end.

Definition expired (t : Z) (p : PendingPull) : bool := iDeadlineMilliseconds p <=? t.

(** The connection a pull is overdue on is given up. *)
Definition invalidate (t : Z) (s : client) : client :=
  let c := conn s in
  let q := queues s in
  let s := set_conn (mkConnection false (bConnecting c) true INVALID_SID (bAddressReady c)) s in
  let s := if iSessionId c =? INVALID_SID then s else CloseSession (iSessionId c) s in
  let r := reg s in
  let s := set_reg (mkRegistration (service r) (bPublished r) false (bLost r) (bRegistrationWaiting r)) s in
  let s := set_queues (mkPulls [] (vDeferredPulls q) (u64 (iPullResetCount q + 1)) (once q) (finished q)) s in
  fold_left (fun s p => if bSynchronous p then set_answer (mkSlot true (lost_code t p) (vResponseList (answer s))) s else s)
    (vPendingPulls q) s.

Definition ExpirePulls (s : client) : client :=
  let (t, s) := tick s in
  let q := queues s in
  let vExpired := List.filter (expired t) (vDeferredPulls q) in
  let s := set_pending (vPendingPulls q) (List.filter (fun p => negb (expired t p)) (vDeferredPulls q)) s in
  let overdue := existsb (expired t) (vPendingPulls q) in
  let s := if overdue then invalidate t s else s in
  let s := finish_with (fun _ => OI_ERR_TIMEOUT) vExpired s in
  if overdue then finish_with (lost_code t) (vPendingPulls q) s else s.

(** [i]: the call; fnDone runs once, with what FinishPull is given. *)
Definition PullAsync (i : Z) (sName : list byte) (iTimeoutMilliseconds : Z) (s : client) : client :=
  let (iStarted, s) := tick s in
  if iTimeoutMilliseconds <=? 0 then FinishPull (Some i) OI_ERR_TIMEOUT [] s
  else if negb (nonempty sName) || negb Configured then FinishPull (Some i) OI_ERR_FAIL [] s
  else
    let p := mkPending false (iStarted + Z.min iTimeoutMilliseconds (INT64_MAX - iStarted)) [sName] (Some i) in
    match CanEnqueuePull s with
    | None => FinishPull (Some i) OI_ERR_FAIL [] s
    | Some false => FinishPull (Some i) OI_ERR_BUSY [] s
    | Some true =>
        let (ok, s) := Connect s in
        if negb ok then FinishPull (Some i) OI_ERR_CONNECT [] s
        else
          let s := ArmPullTimeout s in
          let (t, s) := tick s in
          if expired t p then FinishPull (Some i) OI_ERR_TIMEOUT [] s
          else if bConnected (conn s) then
            match EnqueueSentPull p s with
            | (Sent, s) => s
            | (NotSent, s) => FinishPull (Some i) OI_ERR_CONNECT [] s
            | (Threw, s) => FinishPull (Some i) OI_ERR_FAIL [] s
            end
          else if bConnecting (conn s) then set_pending (vPendingPulls (queues s)) (vDeferredPulls (queues s) ++ [p]) s
          else FinishPull (Some i) OI_ERR_CONNECT [] s
    end.

(** ** Sessions *)

Definition SendRegister (s : client) : send_outcome * client := Send (ReqRegister (service (reg s))) s.

(** The loop over the deferred pulls: those sent need no callback any more. *)
Fixpoint send_deferred (ps : list PendingPull) (s : client) : list PendingPull * client :=
  match ps with
  | [] => ([], s)
  | p :: ps =>
      let (t, s) := tick s in
      let '(p, s) :=
        if expired t p then (p, s)
        else match EnqueueSentPull p s with
             | (Sent, s) => (mkPending (bSynchronous p) (iDeadlineMilliseconds p) (vNames p) None, s)
             | (_, s) => (p, s)
             end in
      let (ps, s) := send_deferred ps s in
      (p :: ps, s)
  end.

Definition OnAddSession (sid : Z) (s : client) : client :=
  let vFailed := vPendingPulls (queues s) in
  let vSend := vDeferredPulls (queues s) in
  let s := set_pending [] [] s in
  let s := set_conn (mkConnection true false false sid (bAddressReady (conn s))) s in
  let s := if bPublished (reg s) && negb (bLost (reg s)) then snd (SendRegister s) else s in
  let (vSend, s) := send_deferred vSend s in
  let s := finish_with (fun _ => OI_ERR_CONNECT) vFailed s in
  finish_lost vSend s.

Definition OnDelSession (sid : Z) (s : client) : client :=
  let c := conn s in
  if negb (iSessionId c =? sid) then s
  else
    let s := set_conn (mkConnection false (bConnecting c) true INVALID_SID (bAddressReady c)) s in
    let r := reg s in
    let s := set_reg (mkRegistration (service r) (bPublished r) false (bLost r) (bRegistrationWaiting r)) s in
    let vFailed := vPendingPulls (queues s) in
    let vDeferred := vDeferredPulls (queues s) in
    finish_lost vDeferred (finish_lost vFailed (set_pending [] [] s)).

(** ** Answers *)

Definition on_register_res (code : Z) (s : client) : client :=
  let r := reg s in
  let waiting := bRegistrationWaiting r in
  let r :=
    if code =? OI_OK then mkRegistration (service r) (bPublished r) true (bLost r) waiting
    else if (code =? OI_ERR_EXIST) && negb waiting then mkRegistration (service r) (bPublished r) (bRegistered r) true waiting
    else r in
  let s := set_reg r s in
  if waiting then set_answer (mkSlot true code (vResponseList (answer s))) s else s.

Definition on_heartbeat_res (code : Z) (s : client) : client :=
  let r := reg s in
  if code =? OI_ERR_EXIST then set_reg (mkRegistration (service r) (bPublished r) false true (bRegistrationWaiting r)) s
  else if negb (code =? OI_OK) then set_reg (mkRegistration (service r) (bPublished r) false (bLost r) (bRegistrationWaiting r)) s
  else s.

Definition instance_of (x : RegInstance) : ServiceInstance :=
  mkInstance (ri_sName x) (ri_iId x) (ri_sIp x) (ri_sPort x) (ri_sZone x).

Definition on_pull_res (m : RegPullRes) (s : client) : client :=
  match vPendingPulls (queues s) with
  | [] => s
  | p :: rest =>
      let s := set_pending rest (vDeferredPulls (queues s)) s in
      let (t, s) := tick s in
      let (code, vList) :=
        if expired t p then (OI_ERR_TIMEOUT, []) else (pr_iCode m, map instance_of (pr_vList m)) in
      match pState p with
      | Some i => FinishPull (Some i) code vList s
      | None =>
          if bSynchronous p then set_answer (mkSlot true code vList) s
          else if code =? OI_OK then
            let (t, calls) := Apply (vNames p) vList (services s) in set_services t calls s
          else s
      end
  end.

(** What deserialize throws is thrown on to ReadRegFrames. *)
Definition OnFrame (sid iId : Z) (stBody : BytesStream.stream) (s : client) : result client :=
  if negb (sid =? iSessionId (conn s)) then Ok s
  else if iId =? PROTO_REG_REGISTER_RES then
    let! (m, _) := deserialize_RegHeartbeatRes (mkRegHeartbeatRes OI_ERR_FAIL) stBody in
    Ok (on_register_res (hr_iCode m) s)
  else if iId =? PROTO_REG_HEARTBEAT_RES then
    let! (m, _) := deserialize_RegHeartbeatRes (mkRegHeartbeatRes OI_ERR_FAIL) stBody in
    Ok (on_heartbeat_res (hr_iCode m) s)
  else if iId =? PROTO_REG_PULL_RES then
    let! (m, _) := deserialize_RegPullRes (mkRegPullRes OI_ERR_FAIL []) stBody in
    Ok (on_pull_res m s)
  else Ok s.

(** ** Synchronous calls *)

(** Where the one synchronous call under way, which holds stSyncMutex, waits. *)
Inductive waiting : Type :=
| PullEnsure (sName : list byte)
| PullWait
| PublishEnsure
| PublishWait.

Inductive outcome : Type :=
| Waits (w : waiting)
| Pulled (ok : bool) (code : Z) (l : list ServiceInstance)
| Publishes (ok : bool)
| Throws.

Fixpoint unmark_sync (ps : list PendingPull) : list PendingPull :=
  match ps with
  | [] => []
  | p :: ps =>
      if bSynchronous p then mkPending false (iDeadlineMilliseconds p) (vNames p) (pState p) :: ps
      else p :: unmark_sync ps
  end.

Definition pull_failed (bSent : bool) (s : client) : outcome * client :=
  let s := set_pending (unmark_sync (vPendingPulls (queues s))) (vDeferredPulls (queues s)) s in
  (Pulled false (if bSent then OI_ERR_TIMEOUT else OI_ERR_CONNECT) [], ExpirePulls s).

Definition pull_send (sName : list byte) (s : client) : outcome * client :=
  match CanEnqueuePull s with
  | None => (Throws, s)
  | Some false => (Pulled false OI_ERR_BUSY [], s)
  | Some true =>
      let s := set_answer (mkSlot false OI_ERR_FAIL (vResponseList (answer s))) s in
      match EnqueueSentPull (mkPending true 0 [sName] None) s with
      | (Sent, s) => (Waits PullWait, s)
      | (NotSent, s) => pull_failed false s
      | (Threw, s) => (Throws, s)
      end
  end.

(** Ensure, up to the point where it waits for bConnected or calls [k]. *)
Definition ensure (k : client -> outcome * client) (wait : waiting) (failed : client -> outcome * client) (s : client)
    : outcome * client :=
  if bConnected (conn s) then k s
  else
    let (ok, s) := Connect s in
    if negb ok then failed s
    else if bConnected (conn s) then k s
    else (Waits wait, s).

Definition pull_unconnected (s : client) : outcome * client := (Pulled false OI_ERR_FAIL [], s).

Definition PullSync (in_poll : bool) (sName : list byte) (s : client) : outcome * client :=
  if negb (nonempty sName) || negb Configured then pull_unconnected s
  else if in_poll then (Throws, s)
  else ensure (pull_send sName) (PullEnsure sName) pull_unconnected s.

(** After WaitFlag(bGot). *)
Definition pull_woken (s : client) : outcome * client :=
  let a := answer s in
  if bGot a then
    if (iCode a =? OI_ERR_TIMEOUT) || (iCode a =? OI_ERR_CONNECT) then (Pulled false (iCode a) [], s)
    else (Pulled true (iCode a) (vResponseList a), s)
  else pull_failed true s.

(** Lookup, on what PullSync came back with. *)
Definition Lookup (sName : list byte) (o : outcome) : option (list byte * list byte) :=
  match o with
  | Pulled true code vList =>
      if negb (code =? OI_OK) then None
      else x ← Pick vList sName 0; Some (si_sIp x, si_sPort x)
  | _ => None
  end.

(** A configured interval. *)
Definition interval (key : list byte) (old : Z) : Z :=
  let v := default old (conf_int key) in if v <=? 0 then 1000 else v.

Definition ArmPull (s : client) : client :=
  let t := armed s in
  if bPullArmed t then s
  else set_armed (mkTimers (bHeartbeatArmed t) (iHeartbeatMilliseconds t) true
                    (interval (txt "Registry.pull_ms") (iPullMilliseconds t)) (bPullTimeoutArmed t)) s.

Definition ArmHeartbeat (s : client) : client :=
  let t := armed s in
  if bHeartbeatArmed t then s
  else set_armed (mkTimers true (interval (txt "Registry.heartbeat_ms") (iHeartbeatMilliseconds t)) (bPullArmed t)
                    (iPullMilliseconds t) (bPullTimeoutArmed t)) s.

Definition Watch (pManager : M) (sName : list byte) (s : client) : client :=
  if negb (nonempty sName) || negb Configured then s
  else ArmPull (set_services (ServiceTable.Watch pManager sName (services s)) [] s).

(** The timer's pull of everything followed; an exception is the timer's. *)
Definition Pull (s : client) : client :=
  let vNamesLocal := Names (services s) in
  if negb (nonempty vNamesLocal) then s
  else if negb (bConnected (conn s)) then snd (Connect s)
  else match CanEnqueuePull s with
       | Some true => snd (EnqueueSentPull (mkPending false 0 vNamesLocal None) s)
       | _ => s
       end.

Definition Touch (s : client) : client :=
  let r := reg s in
  if negb (bPublished r) || bLost r then s
  else if negb (bConnected (conn s)) then snd (Connect s)
  else if negb (bRegistered r) then snd (SendRegister s)
  else snd (Send (ReqHeartbeat (mkRegHeartbeat (ri_sName (service r)) (ri_iId (service r)))) s).

(** ** Publish *)

Context (unspecified : list byte -> list byte -> bool).  (* NetAddr: Init && IsUnspecified *)

Definition TakeAdvertise (sKey sValue : list byte) : list byte :=
  match conf_string sKey with
  | Some v => if nonempty v then v else sValue
  | None => sValue
  end.

Definition PublishAddress (sSection sBindIp sBindPort : list byte) : option (list byte * list byte) :=
  let sIp := TakeAdvertise (txt "Service.advertise_ip") sBindIp in
  let sPort := TakeAdvertise (txt "Service.advertise_port") sBindPort in
  let sIp := TakeAdvertise (sSection ++ txt ".advertise_ip") sIp in
  let sPort := TakeAdvertise (sSection ++ txt ".advertise_port") sPort in
  if negb (nonempty sIp) || negb (nonempty sPort) || bytes_eqb sIp (txt "*") || unspecified sIp sPort then None
  else Some (sIp, sPort).

Definition publish_end (bGotLocal : bool) (code : Z) (s : client) : outcome * client :=
  if bGotLocal && (code =? OI_ERR_EXIST) then (Publishes false, s)
  else
    let r := reg s in
    let s := set_reg (mkRegistration (service r) true (bRegistered r) (bLost r) (bRegistrationWaiting r)) s in
    (Publishes true, ArmHeartbeat s).

Definition publish_send (s : client) : outcome * client :=
  let s := set_answer (mkSlot false OI_ERR_FAIL (vResponseList (answer s))) s in
  let r := reg s in
  let s := set_reg (mkRegistration (service r) (bPublished r) (bRegistered r) (bLost r) true) s in
  match SendRegister s with
  | (Threw, s) => (Throws, s)
  | (_, s) => (Waits PublishWait, s)
  end.

Definition publish_unconnected (s : client) : outcome * client := publish_end false OI_ERR_FAIL s.

Definition publish_woken (s : client) : outcome * client :=
  let a := answer s in
  let r := reg s in
  let s := set_reg (mkRegistration (service r) (bPublished r) (bRegistered r) (bLost r) false) s in
  publish_end (bGot a) (iCode a) s.

Definition Publish (in_poll : bool) (sSection sIp sPort : list byte) (s : client) : outcome * client :=
  if bytes_eqb sSection (txt "Registry") || negb Configured then (Publishes true, s)
  else
    let sName := default [] (conf_string (txt "Service.name")) in
    let sZone := default [] (conf_string (txt "Service.zone")) in
    if negb (nonempty sName) then (Publishes true, s)
    else if negb (ValidSpacePart sName) || (nonempty sZone && negb (ValidSpacePart sZone)) then (Publishes false, s)
    else match conf_int (txt "Service.id") with
    | None => (Publishes false, s)
    | Some i =>
        if i <=? 0 then (Publishes false, s)
        else match PublishAddress sSection sIp sPort with
        | None => (Publishes true, s)
        | Some (sAdvertiseIp, sAdvertisePort) =>
            let r := reg s in
            if bPublished r then (Publishes true, s)
            else if in_poll then (Throws, s)
            else
              let s := set_reg (mkRegistration (mkRegInstance sName i sAdvertiseIp sAdvertisePort sZone) false
                                  (bRegistered r) (bLost r) (bRegistrationWaiting r)) s in
              ensure publish_send PublishEnsure publish_unconnected s
        end
    end.

(** A wait ends: the flag is set, or the connection failed, or the time is over. *)
Definition wake (w : waiting) (s : client) : outcome * client :=
  match w with
  | PullEnsure sName => if bConnected (conn s) then pull_send sName s else pull_unconnected s
  | PullWait => pull_woken s
  | PublishEnsure => if bConnected (conn s) then publish_send s else publish_unconnected s
  | PublishWait => publish_woken s
  end.

End Client.
Arguments client : clear implicits.
End RegistryClient.
