(* ===== verification/RegistryPulls.v ===== *)
(** * Runs of the registry client

    The client of RegistryClient.v under any sequence of events: sessions coming
    and going, answers, timers, calls from the application, sends that fail, time
    passing.  What its pulls come to: every call is called back exactly once, with
    its own answer and in time, and their number is bounded. *)

From S2P Require Import Prelude Text BytesStream RpcData RegistryServer ServiceTable RegistryClient.

Module RegistryPulls.
Import Text RpcData RegistryServer ServiceTable RegistryClient.

(** A call of PullAsync. *)
Record call : Type := mkCall { call_id : Z; call_name : list byte; call_deadline : Z }.

(** What the environment does while an event is handled. *)
Record input : Type := mkInput { in_delays : list N; in_sends : list send_outcome; in_starts : list start_outcome }.

Inductive event (M : Type) : Type :=
| AddSession (sid : Z)
| DelSession (sid : Z)
| ConnectFailed
| Frame (sid iId : Z) (stBody : list byte)
| Expire
| CallPullAsync (i : Z) (sName : list byte) (iTimeoutMilliseconds : Z)
| CallPullSync (in_poll : bool) (sName : list byte)
| CallPublish (in_poll : bool) (sSection sIp sPort : list byte)
| Wake
| PullTick
| TouchTick
| CallWatch (m : M) (sName : list byte).
Arguments AddSession {M}. Arguments DelSession {M}. Arguments ConnectFailed {M}. Arguments Frame {M}.
Arguments Expire {M}. Arguments CallPullAsync {M}. Arguments CallPullSync {M}. Arguments CallPublish {M}.
Arguments Wake {M}. Arguments PullTick {M}. Arguments TouchTick {M}. Arguments CallWatch {M}.

(** [frames]: the pull answers that have arrived, by session; [broken]: sessions
    with a bad frame, which deliver no more; [waits]: the synchronous call under
    way; [returned]: what synchronous calls have come back with. *)
Record world (M : Type) : Type := mkWorld {
  cl : client M;
  calls : list call;
  frames : list (Z * list byte);
  broken : gset Z;
  waits : option waiting;
  returned : list outcome
}.
Arguments mkWorld {M}. Arguments cl {M}. Arguments calls {M}. Arguments frames {M}.
Arguments broken {M}. Arguments waits {M}. Arguments returned {M}.

(** The names asked for on a session, and the answers that have come on it. *)
Definition asked_on (sid : Z) (l : list (Z * request)) : list (list (list byte)) :=
  omap (fun e => match e with (k, ReqPull m) => if k =? sid then Some (rp_vNames m) else None | _ => None end) l.

Definition answers_on (sid : Z) (l : list (Z * list byte)) : list (list byte) :=
  omap (fun e => if fst e =? sid then Some (snd e) else None) l.

Section World.
Context {M : Type} `{EqDecision M}.
Context (conf_string : list byte -> option (list byte)) (conf_int : list byte -> option Z) (conf_other : list byte -> bool).
Context (unspecified : list byte -> list byte -> bool).

Definition with_input (x : input) (s : client M) : client M :=
  set_env (mkEnvironment (now (env s)) (in_delays x) (in_sends x) (in_starts x)) s.

Definition set_cl (s : client M) (w : world M) : world M := mkWorld s (calls w) (frames w) (broken w) (waits w) (returned w).

Definition settle (r : outcome * client M) (w : world M) : world M :=
  match r with
  | (Waits k, s) => mkWorld s (calls w) (frames w) (broken w) (Some k) (returned w)
  | (o, s) => mkWorld s (calls w) (frames w) (broken w) None (returned w ++ [o])
  end.

(** The deadline PullAsync gives a call that starts now. *)
Definition deadline_from (s : client M) (iTimeoutMilliseconds : Z) : Z :=
  let t := fst (tick s) in t + Z.min iTimeoutMilliseconds (INT64_MAX - t).

(** One event; [None] for one that cannot happen: a session number that has been
    in use, a frame of a broken session, more answers than questions, a call
    number used before, a second synchronous call. *)
Definition do_event (x : input) (e : event M) (w : world M) : option (world M) :=
  let s := with_input x (cl w) in
  match e with
  | AddSession sid =>
      if (sid =? INVALID_SID) || existsb (fun p => fst p =? sid) (sent (out s)) || existsb (fun p => fst p =? sid) (frames w)
      then None else Some (set_cl (OnAddSession sid s) w)
  | DelSession sid => Some (set_cl (OnDelSession sid s) w)
  | ConnectFailed => Some (set_cl (OnConnectFailed s) w)
  | Frame sid iId stBody =>
      if decide (sid ∈ broken w) then None
      else match OnFrame sid iId (BytesStream.of_bytes stBody) s with
           | Err _ => Some (mkWorld s (calls w) (frames w) ({[ sid ]} ∪ broken w) (waits w) (returned w))
           | Ok s' =>
               if iId =? PROTO_REG_PULL_RES then
                 if decide (length (answers_on sid (frames w)) < length (asked_on sid (sent (out s))))%nat
                 then Some (mkWorld s' (calls w) (frames w ++ [(sid, stBody)]) (broken w) (waits w) (returned w))
                 else None
               else Some (set_cl s' w)
           end
  | Expire => Some (set_cl (ExpirePulls s) w)
  | CallPullAsync i sName t =>
      if decide (i ∈ map call_id (calls w)) then None
      else Some (mkWorld (PullAsync conf_string conf_int conf_other i sName t s)
                   (calls w ++ [mkCall i sName (deadline_from s t)]) (frames w) (broken w) (waits w) (returned w))
  | CallPullSync in_poll sName =>
      match waits w with
      | None => Some (settle (PullSync conf_string conf_int conf_other in_poll sName s) w)
      | Some _ => None
      end
  | CallPublish in_poll sSection sIp sPort =>
      match waits w with
      | None => Some (settle (Publish conf_string conf_int unspecified in_poll sSection sIp sPort s) w)
      | Some _ => None
      end
  | Wake =>
      match waits w with
      | Some k => Some (settle (wake conf_string conf_int conf_other k s) w)
      | None => None
      end
  | PullTick => Some (set_cl (Pull conf_string conf_int conf_other s) w)
  | TouchTick => Some (set_cl (Touch conf_string s) w)
  | CallWatch m sName => Some (set_cl (Watch conf_string conf_int m sName s) w)
  end.

Fixpoint run (es : list (input * event M)) (w : world M) : option (world M) :=
  match es with
  | [] => Some w
  | (x, e) :: es => w ← do_event x e w; run es w
  end.

Definition start (t : Z) : world M := mkWorld (new_client t) [] [] ∅ None [].

Definition capacity : nat :=
  match ReadMaxPendingPulls conf_string conf_int conf_other with Some m => Z.to_nat (u64 m) | None => 0 end.

(** ** Accounts

    [ok cs fr s l]: the calls [cs] are accounted for by what is finished, by the
    two queues and by the pulls [l] a step has in its hands; the queue of pulls
    sent is what the other side has been asked on this session and has not
    answered. *)

Definition ids (ps : list PendingPull) : list Z := omap pState ps.
Definition owe (i : Z) (ps : list PendingPull) : nat := cnt i (ids ps).
#[local] Arguments asked_on : simpl never.
#[local] Arguments answers_on : simpl never.
#[local] Arguments owe : simpl never.
Definition fins (s : client M) : list Z := map fin_id (finished (queues s)).

Abbreviation pending s := (vPendingPulls (queues s)).
Abbreviation deferred s := (vDeferredPulls (queues s)).
Abbreviation sid_of s := (iSessionId (conn s)).
Abbreviation asked sid s := (asked_on sid (sent (out s))).

Lemma owe_app i a b : owe i (a ++ b) = (owe i a + owe i b)%nat.
Proof. unfold owe, ids. by rewrite omap_app, cnt_app. Qed.

Lemma owe_cons i p l : owe i (p :: l) = (owe i [p] + owe i l)%nat.
Proof. exact (owe_app i [p] l). Qed.

Lemma owe_middle i p a b : owe i (a ++ p :: b) = owe i (p :: a ++ b).
Proof. rewrite (owe_cons i p (a ++ b)), !owe_app, (owe_cons i p b). lia. Qed.

Lemma owe_none i p : pState p = None -> owe i [p] = 0%nat.
Proof. unfold owe, ids. cbn. by intros ->. Qed.

Lemma owe_same i p q : pState p = pState q -> owe i [p] = owe i [q].
Proof. unfold owe, ids. cbn. by intros ->. Qed.

Lemma owe_pos i ps : (0 < owe i ps)%nat <-> exists p, p ∈ ps /\ pState p = Some i.
Proof. unfold owe. rewrite cnt_pos. apply list_elem_of_omap. Qed.

(** A pull with a callback is its call's. *)
Definition known (cs : list call) (p : PendingPull) : Prop :=
  match pState p with
  | None => True
  | Some i => iDeadlineMilliseconds p <> 0 /\
      exists n, mkCall i n (iDeadlineMilliseconds p) ∈ cs /\ vNames p = [n]
  end.

Definition local_codes : list Z := [OI_ERR_TIMEOUT; OI_ERR_CONNECT; OI_ERR_FAIL; OI_ERR_BUSY].

(** How a call can end: without an answer, or with the answer to its request, the
    [k]th of both on some session. *)
Definition answered (cs : list call) (fr : list (Z * list byte)) (sn : list (Z * request)) (f : finish) : Prop :=
  exists n dl sid k body m rest,
    mkCall (fin_id f) n dl ∈ cs /\ asked_on sid sn !! k = Some [n] /\ answers_on sid fr !! k = Some body /\
    deserialize_RegPullRes (mkRegPullRes OI_ERR_FAIL []) (BytesStream.of_bytes body) = Ok (m, rest) /\
    fin_code f = pr_iCode m /\ fin_list f = map instance_of (pr_vList m).

Definition justified cs fr sn (f : finish) : Prop :=
  (fin_code f ∈ local_codes /\ fin_list f = []) \/ answered cs fr sn f.

Definition paired (fr : list (Z * list byte)) (s : client M) : Prop :=
  if sid_of s =? INVALID_SID then pending s = []
  else map vNames (pending s) = drop (length (answers_on (sid_of s) fr)) (asked (sid_of s) s).

Record ok (cs : list call) (fr : list (Z * list byte)) (s : client M) (l : list PendingPull) : Prop := mkOk {
  ok_once i : i ∈ once (queues s) <-> i ∈ fins s;
  ok_all i : (cnt i (fins s) + owe i (pending s) + owe i (deferred s) + owe i l = cnt i (map call_id cs))%nat;
  ok_known : Forall (known cs) (pending s) /\ Forall (known cs) (deferred s) /\ Forall (known cs) l;
  ok_paired : paired fr s;
  ok_asked sid : (length (answers_on sid fr) <= length (asked sid s))%nat;
  ok_justified : Forall (justified cs fr (sent (out s))) (finished (queues s));
  ok_time : 0 <= now (env s)
}.

(** What steps may do without touching the accounts. *)
Record alike (s s' : client M) : Prop := mkAlike {
  al_queues : queues s' = queues s;
  al_sid : sid_of s' = sid_of s;
  al_sent : sent (out s') = sent (out s);
  al_now : now (env s) <= now (env s')
}.

Lemma alike_refl s : alike s s.
Proof. by constructor. Qed.

Lemma ok_alike cs fr s s' l : alike s s' -> ok cs fr s l -> ok cs fr s' l.
Proof.
  intros [Eq Es Et En] [H1 H2 H3 H4 H5 H6 H7]. unfold paired, fins in *.
  split; unfold paired, fins; rewrite ?Eq, ?Es, ?Et; try done. lia.
Qed.

Lemma tick_alike s : alike s (snd (tick s)).
Proof. split; cbn; try done. lia. Qed.

Lemma tick_ok cs fr s l t s' : tick s = (t, s') -> ok cs fr s l -> ok cs fr s' l.
Proof. intros E. apply ok_alike. replace s' with (snd (tick s)) by (by rewrite E). apply tick_alike. Qed.

Lemma set_conn_alike c s : iSessionId c = sid_of s -> alike s (set_conn c s).
Proof. by constructor. Qed.

Lemma ArmPullTimeout_alike s : alike s (ArmPullTimeout s).
Proof. unfold ArmPullTimeout. destruct (bPullTimeoutArmed _); by constructor. Qed.

Lemma asked_send sid sid' m (s : client M) : asked_on sid (sent (out s) ++ [(sid', m)]) =
  asked sid s ++ match m with ReqPull m => if sid' =? sid then [rp_vNames m] else [] | _ => [] end.
Proof.
  unfold asked_on. rewrite omap_app. f_equal. cbn. destruct m; try done. by destruct (sid' =? sid).
Qed.

Section Accounts.
Context (cs : list call) (fr : list (Z * list byte)) (Hcs : NoDup (map call_id cs)).

Lemma justified_more sn sn' f : justified cs fr sn f -> justified cs fr (sn ++ sn') f.
Proof.
  intros [?|(n & dl & sid & k & body & m & rest & H1 & H2 & H3)]; [by left|right].
  exists n, dl, sid, k, body, m, rest. split; [done|]. split; [|done]. unfold asked_on. rewrite omap_app.
  by apply lookup_app_l_Some.
Qed.

Lemma ok_calm s l l' : (forall i, owe i l = owe i l') -> Forall (known cs) l' -> ok cs fr s l -> ok cs fr s l'.
Proof.
  intros Ho Hk [H1 H2 H3 H4 H5 H6 H7]. split; try done; [|tauto]. intros i. rewrite <- Ho. apply H2.
Qed.

(** FinishPull of a pull in hand, with one of the codes for no answer. *)
Lemma FinishPull_ok s p l code list :
  justified cs fr (sent (out s)) (mkFinish (default 0 (pState p)) code list) ->
  ok cs fr s (p :: l) -> ok cs fr (FinishPull (pState p) code list s) l.
Proof.
  intros Hj [H1 H2 H3 H4 H5 H6 H7]. pose proof (Forall_cons_1 _ _ _ (proj2 (proj2 H3))) as [_ Hl].
  destruct (pState p) as [i|] eqn:Ep; cbn [FinishPull].
  - assert (i ∉ once (queues s)) as Hn.
    { rewrite H1, <- cnt_pos. specialize (H2 i). pose proof (cnt_NoDup i _ Hcs).
      assert (0 < owe i (p :: l))%nat by (apply owe_pos; exists p; split; [by left|done]). lia. }
    rewrite decide_False by done. unfold fins in *. split; cbn; try done; [| |tauto|].
    + intros j. rewrite elem_of_union, elem_of_singleton, H1, map_app, elem_of_app. cbn. rewrite list_elem_of_singleton. tauto.
    + intros j. specialize (H2 j). rewrite owe_cons in H2. rewrite map_app, cnt_app. cbn.
      assert (owe j [p] = cnt j [i]) by (unfold owe, ids; cbn; by rewrite Ep). lia.
    + apply Forall_app. split; [done|]. by constructor.
  - apply (ok_calm s (p :: l)); [|done|by split]. intros i. rewrite owe_cons, owe_none by done. done.
Qed.

Lemma finish_local s p l code : code ∈ local_codes -> ok cs fr s (p :: l) -> ok cs fr (FinishPull (pState p) code [] s) l.
Proof. intros Hc. apply FinishPull_ok. by left. Qed.

Lemma lost_code_local t p : lost_code t p ∈ local_codes.
Proof. unfold lost_code, local_codes. destruct (_ <=? _); set_solver. Qed.

Lemma finish_lost_ok ps l s : ok cs fr s (ps ++ l) -> ok cs fr (finish_lost ps s) l.
Proof.
  revert s; induction ps as [|p ps IH]; intros s H; [done|]. unfold finish_lost. cbn [fold_left].
  destruct (tick s) as [t s1] eqn:Et. apply IH. apply finish_local; [apply lost_code_local|]. by eapply tick_ok.
Qed.

Lemma finish_with_ok code ps l s : (forall p, code p ∈ local_codes) -> ok cs fr s (ps ++ l) -> ok cs fr (finish_with code ps s) l.
Proof.
  intros Hc. revert s; induction ps as [|p ps IH]; intros s H; [done|]. unfold finish_with. cbn [fold_left].
  apply IH. by apply finish_local.
Qed.

(** Pulls move between the queues and the hands. *)
Lemma rearrange s s' l l' :
  once (queues s') = once (queues s) -> finished (queues s') = finished (queues s) ->
  sent (out s') = sent (out s) -> now (env s) <= now (env s') ->
  (forall i, owe i (pending s') + owe i (deferred s') + owe i l' = owe i (pending s) + owe i (deferred s) + owe i l)%nat ->
  Forall (known cs) (pending s') /\ Forall (known cs) (deferred s') /\ Forall (known cs) l' ->
  paired fr s' -> ok cs fr s l -> ok cs fr s' l'.
Proof.
  intros Eo Ef Es En Ha Hk Hp [H1 H2 H3 H4 H5 H6 H7]. unfold fins in *.
  split; unfold fins; rewrite ?Eo, ?Ef, ?Es; try done; [|lia].
  intros i. specialize (H2 i). specialize (Ha i). lia.
Qed.

(** Both queues are emptied on a change of session. *)
Lemma detach_ok s c l : iSessionId c = INVALID_SID \/ asked (iSessionId c) s = [] -> ok cs fr s l ->
  ok cs fr (set_conn c (set_pending [] [] s)) (pending s ++ deferred s ++ l).
Proof.
  intros Hc H. apply (rearrange s _ l); try done; cbn.
  - intros i. rewrite !owe_app. change (owe i []) with 0%nat. lia.
  - destruct H as [_ _ H3 _ _ _ _]. rewrite !Forall_app. split_and!; try done; tauto.
  - unfold paired. cbn. destruct (iSessionId c =? INVALID_SID) eqn:E; [done|].
    destruct Hc as [Hc|Hc]; [by rewrite Hc in E|]. by rewrite Hc, drop_nil.
Qed.

Lemma paired_pending s s' : pending s' = pending s -> sid_of s' = sid_of s -> sent (out s') = sent (out s) ->
  paired fr s -> paired fr s'.
Proof. unfold paired. by intros -> -> ->. Qed.

Lemma OnConnectFailed_ok s l : ok cs fr s l -> ok cs fr (OnConnectFailed s) l.
Proof.
  intros H. unfold OnConnectFailed. apply finish_lost_ok. apply (rearrange s _ l); try done; cbn.
  - intros i. rewrite owe_app. change (owe i []) with 0%nat. lia.
  - destruct H as [_ _ H3 _ _ _ _]. rewrite Forall_app. split_and!; try done; tauto.
  - by apply (paired_pending s); [..|apply H].
Qed.

Lemma StartClient_alike s : alike s (snd (StartClient s)).
Proof. by constructor. Qed.

Lemma alike_trans s s1 s2 : alike s s1 -> alike s1 s2 -> alike s s2.
Proof. intros [] []. split; etransitivity; eauto. Qed.

Lemma Connect_ok s l : ok cs fr s l -> ok cs fr (snd (Connect conf_string s)) l.
Proof.
  intros H. unfold Connect. destruct (bConnected (conn s)); [done|]. destruct (negb _ && negb _); [done|].
  destruct (bConnecting (conn s)); cbn [snd]; [by eapply ok_alike; [by apply set_conn_alike|]|].
  set (s1 := set_conn _ s). assert (ok cs fr (snd (StartClient s1)) l) as H1.
  { eapply ok_alike; [|exact H]. by constructor. }
  destruct (StartClient s1) as [o s2] eqn:E. cbn [snd] in H1. destruct o; cbn [snd]; [done|by apply OnConnectFailed_ok|].
  eapply ok_alike; [|exact H1]. apply set_conn_alike. replace s2 with (snd (StartClient s1)) by (by rewrite E). done.
Qed.

(** A message that is no pull. *)
Lemma Send_ok s l m : match m with ReqPull _ => False | _ => True end -> ok cs fr s l -> ok cs fr (snd (Send m s)) l.
Proof.
  intros Hm H. unfold Send. destruct (_ =? _); [done|]. unfold SendBytes.
  destruct (hd Sent _); cbn [snd]; [|by eapply ok_alike; [|exact H]; constructor..].
  destruct H as [H1 H2 H3 H4 H5 H6 H7].
  assert (forall sid, asked_on sid (sent (out s) ++ [(sid_of s, m)]) = asked sid s) as Ha.
  { intros sid. rewrite asked_send. destruct m; [by rewrite app_nil_r..|done]. }
  split; cbn; try done.
  - unfold paired in *. cbn. by rewrite Ha.
  - intros sid. by rewrite Ha.
  - eapply Forall_impl; [exact H6|]. intros f. apply justified_more.
Qed.

Lemma with_deadline_spec p s : let (p', s') := with_deadline p s in
  alike s s' /\ pState p' = pState p /\ vNames p' = vNames p /\ (known cs p -> known cs p').
Proof.
  unfold with_deadline. destruct (Z.eqb_spec (iDeadlineMilliseconds p) 0) as [E|E].
  - destruct (tick s) as [t s1] eqn:Et. split; [replace s1 with (snd (tick s)) by (by rewrite Et); apply tick_alike|].
    split; [done|]. split; [done|]. unfold known. cbn. destruct (pState p); [|done]. intros [? _]. done.
  - split; [apply alike_refl|done].
Qed.

(** A pull is sent, and waits for its answer, or nothing has happened to it. *)
Lemma EnqueueSentPull_ok s p l : ok cs fr s (p :: l) ->
  let (o, s') := EnqueueSentPull p s in ok cs fr s' (if o is Sent then l else p :: l).
Proof.
  intros H. unfold EnqueueSentPull. apply (ok_alike _ _ _ _ _ (ArmPullTimeout_alike s)) in H. revert H.
  generalize (ArmPullTimeout s) as s0. clear s. intros s H. pose proof (with_deadline_spec p s) as Hd.
  destruct (with_deadline p s) as [p' s1]. destruct Hd as (Hal & Ep & Ev & Hk). apply (ok_alike _ _ _ _ _ Hal) in H.
  assert (forall s2, alike s1 s2 -> ok cs fr (pop_back (push_pending p' s2)) (p :: l)) as Hpop.
  { intros s2 Ha. apply (ok_alike _ _ _ s2) in H; [|done]. eapply ok_alike; [|exact H]. unfold pop_back, push_pending.
    constructor; cbn; try done. rewrite removelast_last. by destruct (queues s2). }
  unfold Send. cbn [conn push_pending set_pending set_queues]. destruct (Z.eqb_spec (sid_of s1) INVALID_SID) as [E|E].
  { apply (Hpop s1), alike_refl. }
  unfold SendBytes. cbn [env push_pending set_pending set_queues].
  destruct (hd Sent (sends (env s1))).
  2,3: apply (Hpop (set_env (mkEnvironment (now (env s1)) (delays (env s1)) (tl (sends (env s1))) (starts (env s1))) s1)); by constructor.
  destruct H as [H1 H2 H3 H4 H5 H6 H7]. destruct H3 as (K1 & K2 & [K3 K4]%Forall_cons).
  split; cbn; try done.
  - intros i. specialize (H2 i). rewrite owe_cons in H2. rewrite owe_app, (owe_same i p' p) by done. unfold fins in *. cbn. lia.
  - split_and!; try done. apply Forall_app. split; [done|]. constructor; [by apply Hk|done].
  - unfold paired in *. cbn. destruct (Z.eqb_spec (sid_of s1) INVALID_SID); [done|].
    rewrite map_app, H4, asked_send, Z.eqb_refl. cbn. rewrite drop_app_le by apply H5. done.
  - intros sid. rewrite asked_send, length_app. specialize (H5 sid). lia.
  - eapply Forall_impl; [exact H6|]. intros f. apply justified_more.
Qed.

Lemma send_deferred_ok ps l s : ok cs fr s (ps ++ l) ->
  let (ps', s') := send_deferred ps s in ok cs fr s' (ps' ++ l).
Proof.
  revert l s; induction ps as [|p ps IH]; intros l s H; [done|]. cbn [send_deferred].
  destruct (tick s) as [t s1] eqn:Et. apply (tick_ok _ _ _ _ _ _ Et) in H.
  assert (exists p' s2, (if expired t p then (p, s1) else
      match EnqueueSentPull p s1 with
      | (Sent, s) => (mkPending (bSynchronous p) (iDeadlineMilliseconds p) (vNames p) None, s)
      | (_, s) => (p, s) end) = (p', s2) /\ ok cs fr s2 (p' :: ps ++ l)) as (p' & s2 & -> & H2).
  { destruct (expired t p); [by exists p, s1|]. pose proof (EnqueueSentPull_ok s1 p (ps ++ l) H) as He.
    destruct (EnqueueSentPull p s1) as [o s2]. destruct o; eexists _, s2; (split; [done|]); [|done..].
    apply (ok_calm s2 (ps ++ l)); [|constructor; [done|by apply He]|done].
    intros i. symmetry. by rewrite owe_cons, owe_none. }
  assert (ok cs fr s2 (ps ++ p' :: l)) as H3.
  { apply (ok_calm s2 (p' :: ps ++ l)); [| |exact H2].
    - intros i. by rewrite owe_middle.
    - destruct H2 as [_ _ (_ & _ & Hk) _ _ _ _]. apply Forall_cons in Hk as [? [? ?]%Forall_app].
      apply Forall_app. split; [done|]. by constructor. }
  specialize (IH (p' :: l) s2 H3). destruct (send_deferred ps s2) as [ps' s3].
  apply (ok_calm s3 (ps' ++ p' :: l)); [| |exact IH].
  - intros i. by rewrite owe_middle.
  - destruct IH as [_ _ (_ & _ & Hk) _ _ _ _]. apply Forall_app in Hk as [? [? ?]%Forall_cons].
    constructor; [done|]. by apply Forall_app.
Qed.

Lemma OnAddSession_ok sid s : sid <> INVALID_SID -> asked sid s = [] -> ok cs fr s [] -> ok cs fr (OnAddSession sid s) [].
Proof.
  intros Hi Ha H. unfold OnAddSession.
  set (s0 := set_pending [] [] s). set (c := mkConnection true false false sid (bAddressReady (conn s0))).
  set (s1 := set_conn c s0).
  assert (ok cs fr s1 (deferred s ++ pending s)) as H1.
  { pose proof (detach_ok s c [] (or_intror Ha) H) as H1. rewrite app_nil_r in H1.
    eapply ok_calm; [| |exact H1].
    - intros i. rewrite !owe_app. lia.
    - destruct H1 as [_ _ (_ & _ & Hk) _ _ _ _]. apply Forall_app in Hk as [? ?]. by apply Forall_app. }
  set (s2 := if bPublished (reg s1) && negb (bLost (reg s1)) then snd (SendRegister s1) else s1).
  assert (ok cs fr s2 (deferred s ++ pending s)) as H2.
  { unfold s2. destruct (_ && _); [|done]. by apply Send_ok. }
  pose proof (send_deferred_ok _ _ _ H2) as H3. destruct (send_deferred (deferred s) s2) as [vSend s3].
  apply finish_lost_ok. rewrite app_nil_r. apply finish_with_ok.
  - intros _. unfold local_codes. set_solver.
  - eapply ok_calm; [| |exact H3].
    + intros i. rewrite !owe_app. lia.
    + destruct H3 as [_ _ (_ & _ & Hk) _ _ _ _]. apply Forall_app in Hk as [? ?]. by apply Forall_app.
Qed.

Lemma OnDelSession_ok sid s : ok cs fr s [] -> ok cs fr (OnDelSession sid s) [].
Proof.
  intros H. unfold OnDelSession. destruct (negb _); [done|].
  apply finish_lost_ok. rewrite app_nil_r. apply finish_lost_ok.
  pose proof (detach_ok s (mkConnection false (bConnecting (conn s)) true INVALID_SID (bAddressReady (conn s))) [] (or_introl eq_refl) H) as H1.
  rewrite app_nil_r in H1. eapply ok_alike; [|exact H1]. by constructor.
Qed.

Lemma owe_filter (f : PendingPull -> bool) i l : (owe i (List.filter f l) + owe i (List.filter (fun p => negb (f p)) l) = owe i l)%nat.
Proof.
  induction l as [|p l IH]; [done|]. cbn. rewrite (owe_cons i p l). destruct (f p); cbn; rewrite (owe_cons i p (List.filter _ l)); lia.
Qed.

Lemma Forall_filter (P : PendingPull -> Prop) f l : Forall P l -> Forall P (List.filter f l).
Proof. induction 1; cbn; [constructor|]. destruct (f _); [by constructor|done]. Qed.

Lemma invalidate_alike t s : exists s1, alike (set_conn (mkConnection false (bConnecting (conn s)) true INVALID_SID (bAddressReady (conn s)))
    (set_queues (mkPulls [] (deferred s) (u64 (iPullResetCount (queues s) + 1)) (once (queues s)) (finished (queues s))) s)) s1 /\ invalidate t s = s1.
Proof.
  eexists. split; [|reflexivity]. unfold invalidate.
  match goal with |- alike _ (fold_left ?f _ _) => assert (forall ps a, alike a (fold_left f ps a)) as Hf end.
  { clear. intros l. induction l as [|p l IH]; intros a; [apply alike_refl|]. cbn. eapply alike_trans; [|apply IH].
    destruct (bSynchronous p); by constructor. }
  eapply alike_trans; [|apply Hf]. destruct (_ =? _); by constructor.
Qed.

Lemma invalidate_now t (s : client M) : pending (invalidate t s) = [] /\ deferred (invalidate t s) = deferred s /\ env (invalidate t s) = env s.
Proof.
  unfold invalidate.
  match goal with |- context [fold_left ?f _ _] => assert (forall ps a, queues (fold_left f ps a) = queues a /\ env (fold_left f ps a) = env a) as Hf end.
  { clear. intros l. induction l as [|p l IH]; intros a; [done|]. cbn. destruct (bSynchronous p); by rewrite !(proj1 (IH _)), !(proj2 (IH _)). }
  rewrite !(proj1 (Hf _ _)), !(proj2 (Hf _ _)). by destruct (_ =? _).
Qed.

Lemma ExpirePulls_ok s : ok cs fr s [] -> ok cs fr (ExpirePulls s) [].
Proof.
  intros H. unfold ExpirePulls. destruct (tick s) as [t s1] eqn:Et. apply (tick_ok _ _ _ _ _ _ Et) in H. clear Et s.
  set (s2 := set_pending _ _ s1). set (vExpired := List.filter (expired t) (deferred s1)).
  assert (ok cs fr s2 vExpired) as H2.
  { apply (rearrange s1 _ []); try done; cbn.
    - intros i. unfold vExpired. pose proof (owe_filter (expired t) i (deferred s1)). change (owe i []) with 0%nat. lia.
    - destruct H as [_ _ (K1 & K2 & _) _ _ _ _]. split_and!; [done|by apply Forall_filter..].
    - by apply (paired_pending s1); [..|apply H]. }
  destruct (existsb _ _).
  - apply finish_with_ok; [intros p; apply lost_code_local|]. rewrite app_nil_r. apply finish_with_ok; [intros _; unfold local_codes; set_solver|].
    destruct (invalidate_alike t s2) as (s3 & Hal & ->). eapply ok_alike; [exact Hal|].
    apply (rearrange s2 _ vExpired); try done; cbn.
    + intros i. rewrite owe_app. change (owe i []) with 0%nat. lia.
    + destruct H2 as [_ _ (K1 & K2 & K3) _ _ _ _]. cbn in K1, K2. split_and!; [done|done|]. by apply Forall_app.
  - apply finish_with_ok; [intros _; unfold local_codes; set_solver|]. by rewrite app_nil_r.
Qed.

End Accounts.

(** ** Answers *)

Lemma answers_snoc k sid body fr : answers_on k (fr ++ [(sid, body)]) = answers_on k fr ++ (if sid =? k then [body] else []).
Proof. unfold answers_on. rewrite omap_app. f_equal. cbn. by destruct (sid =? k). Qed.

Lemma justified_frame cs fr x sn f : justified cs fr sn f -> justified cs (fr ++ [x]) sn f.
Proof.
  intros [?|(n & dl & sid & k & body & m & rest & H1 & H2 & H3 & H4)]; [by left|right].
  exists n, dl, sid, k, body, m, rest. split_and!; try tauto. unfold answers_on. rewrite omap_app.
  by apply lookup_app_l_Some.
Qed.

(** Everything but the pairing of the session a frame has come on. *)
Lemma ok_frame cs fr s s' l l' sid body :
  once (queues s') = once (queues s) -> finished (queues s') = finished (queues s) ->
  sent (out s') = sent (out s) -> now (env s) <= now (env s') ->
  (forall i, owe i (pending s') + owe i (deferred s') + owe i l' = owe i (pending s) + owe i (deferred s) + owe i l)%nat ->
  Forall (known cs) (pending s') /\ Forall (known cs) (deferred s') /\ Forall (known cs) l' ->
  (length (answers_on sid fr) < length (asked sid s))%nat -> paired (fr ++ [(sid, body)]) s' ->
  ok cs fr s l -> ok cs (fr ++ [(sid, body)]) s' l'.
Proof.
  intros Eo Ef Es En Ha Hk Hr Hp H.
  destruct H as [H1 H2 H3 H4 H5 H6 H7]. unfold fins in *.
  split; unfold fins; rewrite ?Eo, ?Ef, ?Es; try done; [| |by (eapply Forall_impl; [exact H6|]; intros f; apply justified_frame)|lia].
  - intros i. specialize (H2 i). specialize (Ha i). lia.
  - intros k. rewrite answers_snoc, length_app. specialize (H5 k). destruct (Z.eqb_spec sid k) as [<-|]; cbn; lia.
Qed.

Lemma set_answer_alike a s : alike s (set_answer a s).
Proof. by constructor. Qed.

Lemma on_pull_res_ok cs fr s sid body m rest : NoDup (map call_id cs) ->
  sid_of s = sid -> (length (answers_on sid fr) < length (asked sid s))%nat ->
  deserialize_RegPullRes (mkRegPullRes OI_ERR_FAIL []) (BytesStream.of_bytes body) = Ok (m, rest) ->
  ok cs fr s [] -> ok cs (fr ++ [(sid, body)]) (on_pull_res m s) [].
Proof.
  intros Hcs Hsid Hlt Em H. unfold on_pull_res. pose proof (ok_paired _ _ _ _ H) as Hp. unfold paired in Hp. rewrite Hsid in Hp.
  destruct (pending s) as [|p ps] eqn:Eps.
  { apply (ok_frame cs fr s s [] []); try done; [apply H|]. unfold paired. rewrite Hsid, Eps.
    destruct (Z.eqb_spec sid INVALID_SID); [done|]. exfalso. symmetry in Hp. cbn in Hp.
    apply (f_equal length) in Hp. rewrite length_drop in Hp. cbn in Hp. lia. }
  destruct (Z.eqb_spec sid INVALID_SID) as [|Hne]; [done|].
  set (k := length (answers_on sid fr)) in *. cbn [map] in Hp.
  assert (asked sid s !! k = Some (vNames p) /\ map vNames ps = drop (S k) (asked sid s)) as [Hk Hrest].
  { split; [by rewrite <- (Nat.add_0_r k), <- lookup_drop, <- Hp|]. rewrite <- Nat.add_1_r, <- drop_drop, <- Hp. done. }
  destruct (ok_known _ _ _ _ H) as (Hk1 & Hk2 & _). rewrite Eps in Hk1. apply Forall_cons in Hk1 as [Hkp Hkps].
  set (s1 := set_pending ps (deferred s) s).
  assert (ok cs (fr ++ [(sid, body)]) s1 [p]) as H1.
  { apply (ok_frame cs fr s s1 [] [p]); try done; cbn.
    - intros i. rewrite Eps, (owe_cons i p ps). change (owe i []) with 0%nat. lia.
    - split_and!; [done|done|by constructor].
    - unfold paired. cbn. rewrite Hsid. destruct (Z.eqb_spec sid INVALID_SID); [done|].
      rewrite answers_snoc, Z.eqb_refl, length_app. cbn. fold k. by rewrite Nat.add_1_r. }
  assert (sent (out s1) = sent (out s)) as Esn by done. clearbody s1.
  destruct (tick s1) as [t s2] eqn:Et. pose proof (tick_ok _ _ _ _ _ _ Et H1) as H2.
  assert (sent (out s2) = sent (out s)) as Esn2 by (rewrite <- Esn; replace s2 with (snd (tick s1)) by (by rewrite Et); done).
  clear Et. destruct (if expired t p then _ else _) as [code vList] eqn:Ec. destruct (pState p) as [i|] eqn:Ei.
  - rewrite <- Ei. apply FinishPull_ok; [done| |done]. rewrite Ei. cbn [default]. destruct (expired t p).
    + left. injection Ec as <- <-. unfold local_codes. set_solver.
    + right. injection Ec as <- <-. unfold known in Hkp. rewrite Ei in Hkp. destruct Hkp as (_ & n & Hc & En).
      exists n, (iDeadlineMilliseconds p), sid, k, body, m, rest. cbn. split_and!; try done.
      * by rewrite Esn2, Hk, En.
      * rewrite answers_snoc, Z.eqb_refl, lookup_app_r by done. unfold k. by rewrite Nat.sub_diag.
  - apply (ok_calm cs (fr ++ [(sid, body)]) s2 [p] []) in H2; [|by intros j; rewrite owe_none|constructor].
    destruct (bSynchronous p); [by eapply ok_alike; [|exact H2]; constructor|].
    destruct (code =? OI_OK); [|done]. destruct (Apply _ _ _) as [t' calls]. by eapply ok_alike; [|exact H2]; constructor.
Qed.

Lemma OnFrame_ok cs fr s s' sid iId body : NoDup (map call_id cs) ->
  OnFrame sid iId (BytesStream.of_bytes body) s = Ok s' -> ok cs fr s [] ->
  (if iId =? PROTO_REG_PULL_RES then (length (answers_on sid fr) < length (asked sid s))%nat else True) ->
  ok cs (if iId =? PROTO_REG_PULL_RES then fr ++ [(sid, body)] else fr) s' [].
Proof.
  intros Hcs E H Hlt. unfold OnFrame in E. destruct (Z.eqb_spec sid (sid_of s)) as [Es|Hne]; cbn [negb] in E.
  - destruct (Z.eqb_spec iId PROTO_REG_REGISTER_RES) as [->|_]; [|destruct (Z.eqb_spec iId PROTO_REG_HEARTBEAT_RES) as [->|_]].
    + mono E. destruct a as [m r]. injection E as <-. cbn. eapply ok_alike; [|exact H]. unfold on_register_res.
      destruct (bRegistrationWaiting _), (hr_iCode m =? OI_OK), (hr_iCode m =? OI_ERR_EXIST); by constructor.
    + mono E. destruct a as [m r]. injection E as <-. cbn. eapply ok_alike; [|exact H]. unfold on_heartbeat_res.
      destruct (hr_iCode m =? OI_OK), (hr_iCode m =? OI_ERR_EXIST); by constructor.
    + destruct (iId =? PROTO_REG_PULL_RES); [|by injection E as <-].
      mono E. destruct a as [m r]. injection E as <-. by eapply on_pull_res_ok.
  - injection E as <-. destruct (iId =? PROTO_REG_PULL_RES); [|done].
    apply (ok_frame cs fr s s [] []); try done; [apply H|]. pose proof (ok_paired _ _ _ _ H) as Hp. unfold paired in *.
    rewrite answers_snoc. destruct (Z.eqb_spec sid (sid_of s)); [done|]. by rewrite app_nil_r.
Qed.

(** ** Calls *)

Lemma known_more cs c p : known cs p -> known (cs ++ [c]) p.
Proof.
  unfold known. destruct (pState p); [|done]. intros (? & n & Hn & ?). split; [done|]. exists n. split; [|done].
  apply elem_of_app. by left.
Qed.

Lemma justified_call cs c fr sn f : justified cs fr sn f -> justified (cs ++ [c]) fr sn f.
Proof.
  intros [?|(n & dl & sid & k & body & m & rest & H1 & H2)]; [by left|right].
  exists n, dl, sid, k, body, m, rest. split; [|done]. apply elem_of_app. by left.
Qed.

(** A new call is in the caller's hands. *)
Lemma ok_call cs fr s c l :
  Forall (known (cs ++ [c])) l -> (forall i, owe i l = cnt i [call_id c]) ->
  ok cs fr s [] -> ok (cs ++ [c]) fr s l.
Proof.
  intros Hl Ho [H1 H2 (K1 & K2 & _) H4 H5 H6 H7]. split; try done.
  - intros i. specialize (H2 i). rewrite Ho, map_app, cnt_app. cbn. change (owe i []) with 0%nat in H2. lia.
  - split_and!; [..|done]; (eapply Forall_impl; [eassumption|]; intros; by apply known_more).
  - eapply Forall_impl; [exact H6|]. intros f. apply justified_call.
Qed.

(** It can be finished at once. *)
Lemma FinishPull_call cs fr s c code : code ∈ local_codes -> call_id c ∉ map call_id cs ->
  ok cs fr s [] -> ok (cs ++ [c]) fr (FinishPull (Some (call_id c)) code [] s) [].
Proof.
  intros Hc Hn [H1 H2 (K1 & K2 & _) H4 H5 H6 H7]. cbn [FinishPull].
  assert (call_id c ∉ once (queues s)) as Ho.
  { rewrite H1, <- cnt_pos. rewrite <- cnt_pos in Hn. specialize (H2 (call_id c)). lia. }
  rewrite decide_False by done. unfold fins in *. split; cbn; try done.
  - intros j. rewrite elem_of_union, elem_of_singleton, H1, map_app, elem_of_app. cbn. rewrite list_elem_of_singleton. tauto.
  - intros j. specialize (H2 j). rewrite !map_app, !cnt_app. cbn. lia.
  - split_and!; [..|constructor]; (eapply Forall_impl; [eassumption|]; intros; by apply known_more).
  - apply Forall_app. split; [eapply Forall_impl; [exact H6|]; intros f; apply justified_call|].
    constructor; [by left|constructor].
Qed.

Ltac local := unfold local_codes; set_solver.

Lemma PullAsync_ok cs fr s i sName t : i ∉ map call_id cs -> NoDup (map call_id cs) -> ok cs fr s [] ->
  ok (cs ++ [mkCall i sName (deadline_from s t)]) fr (PullAsync conf_string conf_int conf_other i sName t s) [].
Proof.
  intros Hn Hd H. unfold PullAsync, deadline_from. destruct (tick s) as [t0 s1] eqn:Et. cbn [fst].
  assert (0 <= t0) as Ht0.
  { pose proof (ok_time _ _ _ _ H). unfold tick in Et. injection Et as <- _. lia. }
  apply (tick_ok _ _ _ _ _ _ Et) in H. clear Et s.
  set (dl := t0 + Z.min t (INT64_MAX - t0)). set (c := mkCall i sName dl).
  destruct (Z.leb_spec t 0); [apply (FinishPull_call cs fr s1 c); [local|done..]|].
  destruct (_ || _); [apply (FinishPull_call cs fr s1 c); [local|done..]|].
  set (p := mkPending false dl [sName] (Some i)).
  assert (NoDup (map call_id (cs ++ [c]))) as Hd'.
  { rewrite map_app. apply NoDup_app. split_and!; [done| |by apply NoDup_singleton].
    intros x Hx ->%list_elem_of_singleton. done. }
  assert (ok (cs ++ [c]) fr s1 [p]) as H1.
  { apply ok_call; [|done|done]. constructor; [|constructor]. unfold known. cbn. split.
    - unfold dl, INT64_MAX. lia.
    - exists sName. split; [|done]. apply elem_of_app. right. by left. }
  clear H. change (Some i) with (pState p).
  destruct (CanEnqueuePull _ _ _ s1) as [[]|]; [|apply finish_local; [done|local|done]..].
  pose proof (Connect_ok _ fr Hd' s1 [p] H1) as H2. destruct (Connect conf_string s1) as [b s2]. cbn [snd] in H2.
  destruct b; cbn [negb]; [|apply finish_local; [done|local|done]].
  apply (ok_alike _ _ _ _ _ (ArmPullTimeout_alike s2)) in H2. destruct (tick (ArmPullTimeout s2)) as [t1 s3] eqn:Et.
  apply (tick_ok _ _ _ _ _ _ Et) in H2.
  destruct (expired t1 p); [apply finish_local; [done|local|done]|].
  destruct (bConnected (conn s3)).
  - pose proof (EnqueueSentPull_ok _ fr s3 p [] H2) as H3. destruct (EnqueueSentPull p s3) as [o s4].
    destruct o; [done|apply finish_local; [done|local|done]..].
  - destruct (bConnecting (conn s3)); [|apply finish_local; [done|local|done]].
    apply (rearrange _ fr s3 _ [p]); try done; cbn.
    + intros j. rewrite owe_app. change (owe j []) with 0%nat. lia.
    + destruct H2 as [_ _ (K1 & K2 & K3) _ _ _ _]. split_and!; [done| |constructor]. by apply Forall_app.
    + by apply (paired_pending fr s3); [..|apply H2].
Qed.

Section Sync.
Context (cs : list call) (fr : list (Z * list byte)) (Hcs : NoDup (map call_id cs)).

Lemma unmark_sync_same ps : ids (unmark_sync ps) = ids ps /\ map vNames (unmark_sync ps) = map vNames ps /\
  length (unmark_sync ps) = length ps /\ (Forall (known cs) ps -> Forall (known cs) (unmark_sync ps)).
Proof.
  induction ps as [|p ps (E1 & E2 & E3 & E4)]; [done|]. cbn. destruct (bSynchronous p); cbn.
  - split_and!; [done..|]. intros [? ?]%Forall_cons. by constructor.
  - unfold ids in *. cbn. rewrite E1, E2, E3. split_and!; [done..|]. intros [? ?]%Forall_cons. constructor; auto.
Qed.

Lemma pull_failed_ok b s : ok cs fr s [] -> ok cs fr (snd (pull_failed b s)) [].
Proof.
  intros H. apply ExpirePulls_ok; [done|]. destruct (unmark_sync_same (pending s)) as (E1 & E2 & _ & E4).
  apply (rearrange _ fr s _ []); try done; cbn.
  - intros i. unfold owe. by rewrite E1.
  - destruct H as [_ _ (K1 & K2 & K3) _ _ _ _]. auto.
  - pose proof (ok_paired _ _ _ _ H) as Hp. unfold paired in *. cbn. rewrite E2. destruct (_ =? _); [|done].
    by rewrite Hp.
Qed.

Lemma pull_send_ok n s : ok cs fr s [] -> ok cs fr (snd (pull_send conf_string conf_int conf_other n s)) [].
Proof.
  intros H. unfold pull_send. destruct (CanEnqueuePull _ _ _ s) as [[]|]; [|done..].
  set (s1 := set_answer _ s). set (p := mkPending true 0 [n] None).
  assert (ok cs fr s1 [p]) as H1.
  { apply (ok_calm cs fr s1 []); [|by repeat constructor|by eapply ok_alike; [|exact H]; constructor].
    intros i. by rewrite owe_none. }
  pose proof (EnqueueSentPull_ok _ _ _ _ _ H1) as H2. destruct (EnqueueSentPull p s1) as [o s2].
  assert (forall s3, ok cs fr s3 [p] -> ok cs fr s3 []) as Hp.
  { intros s3. apply ok_calm; [|constructor]. intros i. by rewrite owe_none. }
  destruct o; cbn [snd]; [done|apply pull_failed_ok|]; by apply Hp.
Qed.

Lemma ensure_ok k w f s :
  (forall s, ok cs fr s [] -> ok cs fr (snd (k s)) []) -> (forall s, ok cs fr s [] -> ok cs fr (snd (f s)) []) ->
  ok cs fr s [] -> ok cs fr (snd (ensure conf_string k w f s)) [].
Proof.
  intros Hk Hf H. unfold ensure. destruct (bConnected (conn s)); [by apply Hk|].
  pose proof (Connect_ok cs fr Hcs s [] H) as H1. destruct (Connect conf_string s) as [b s1]. cbn [snd] in H1.
  destruct b; cbn [negb]; [|by apply Hf]. destruct (bConnected (conn s1)); [by apply Hk|done].
Qed.

Lemma publish_end_alike b c s : alike s (snd (publish_end conf_int b c s)).
Proof. unfold publish_end. destruct (_ && _); [apply alike_refl|]. cbn. unfold ArmHeartbeat. destruct (bHeartbeatArmed _); by constructor. Qed.

Lemma publish_send_ok s : ok cs fr s [] -> ok cs fr (snd (publish_send s)) [].
Proof.
  intros H. unfold publish_send. set (s1 := set_reg _ _).
  assert (ok cs fr (snd (SendRegister s1)) []) as H1.
  { apply Send_ok; [done|]. by eapply ok_alike; [|exact H]; constructor. }
  destruct (SendRegister s1) as [o s2]. by destruct o.
Qed.

Lemma PullSync_ok b n s : ok cs fr s [] -> ok cs fr (snd (PullSync conf_string conf_int conf_other b n s)) [].
Proof.
  intros H. unfold PullSync. destruct (_ || _); [done|]. destruct b; [done|].
  apply ensure_ok; [intros; by apply pull_send_ok|done|done].
Qed.

Lemma Publish_ok b x ip port s : ok cs fr s [] -> ok cs fr (snd (Publish conf_string conf_int unspecified b x ip port s)) [].
Proof.
  intros H. unfold Publish. repeat (case_match; try done).
  apply ensure_ok; [intros; by apply publish_send_ok| |by eapply ok_alike; [|exact H]; constructor].
  intros s1 Hs1. by eapply ok_alike; [apply publish_end_alike|].
Qed.

Lemma wake_ok k s : ok cs fr s [] -> ok cs fr (snd (wake conf_string conf_int conf_other k s)) [].
Proof.
  intros H. destruct k as [n| | |]; cbn [wake].
  - destruct (bConnected _); [by apply pull_send_ok|done].
  - unfold pull_woken. destruct (bGot _); [|by apply pull_failed_ok]. by destruct (_ || _).
  - destruct (bConnected _); [by apply publish_send_ok|]. eapply ok_alike; [apply publish_end_alike|done].
  - unfold publish_woken. eapply ok_alike; [apply publish_end_alike|]. by eapply ok_alike; [|exact H]; constructor.
Qed.

Lemma Pull_ok s : ok cs fr s [] -> ok cs fr (Pull conf_string conf_int conf_other s) [].
Proof.
  intros H. unfold Pull. destruct (negb _); [done|]. destruct (negb _); [by apply Connect_ok|].
  destruct (CanEnqueuePull _ _ _ s) as [[]|]; [|done..]. set (p := mkPending false 0 _ None).
  assert (ok cs fr s [p]) as H1.
  { apply (ok_calm cs fr s []); [|by repeat constructor|done]. intros i. by rewrite owe_none. }
  pose proof (EnqueueSentPull_ok _ _ _ _ _ H1) as H2. destruct (EnqueueSentPull p s) as [o s2]. cbn [snd].
  destruct o; [done|..]; (apply (ok_calm cs fr s2 [p]); [by intros i; rewrite owe_none|constructor|done]).
Qed.

Lemma Touch_ok s : ok cs fr s [] -> ok cs fr (Touch conf_string s) [].
Proof.
  intros H. unfold Touch. destruct (_ || _); [done|]. destruct (negb _); [by apply Connect_ok|].
  destruct (negb _); by apply Send_ok.
Qed.

Lemma Watch_alike m n s : alike s (Watch conf_string conf_int m n s).
Proof. unfold Watch. destruct (_ || _); [apply alike_refl|]. unfold ArmPull. destruct (bPullArmed _); by constructor. Qed.

End Sync.

(** ** How many pulls wait *)

Definition size (s : client M) : nat := (length (pending s) + length (deferred s))%nat.

Lemma alike_size s s' : alike s s' -> size s' = size s.
Proof. intros [Eq _ _ _]. unfold size. by rewrite Eq. Qed.

Lemma FinishPull_size p c l s : size (FinishPull p c l s) = size s.
Proof. destruct p; cbn [FinishPull]; [|done]. by destruct (decide _). Qed.

Lemma finish_lost_size ps s : size (finish_lost ps s) = size s.
Proof.
  revert s; induction ps as [|p ps IH]; intros s; [done|]. unfold finish_lost in *. cbn [fold_left].
  pose proof (alike_size _ _ (tick_alike s)) as Ht. destruct (tick s) as [t s1]. cbn [snd] in Ht. by rewrite IH, FinishPull_size.
Qed.

Lemma finish_with_size c ps s : size (finish_with c ps s) = size s.
Proof. revert s; induction ps as [|p ps IH]; intros s; [done|]. unfold finish_with in *. cbn [fold_left]. by rewrite IH, FinishPull_size. Qed.

Lemma Send_size m s : size (snd (Send m s)) = size s.
Proof. unfold Send, SendBytes. destruct (_ =? _); [done|]. by destruct (hd Sent _). Qed.

Lemma EnqueueSentPull_size p s :
  let (o, s') := EnqueueSentPull p s in size s' = if o is Sent then S (size s) else size s.
Proof.
  unfold EnqueueSentPull. rewrite <- (alike_size _ _ (ArmPullTimeout_alike s)). generalize (ArmPullTimeout s) as s0. clear s. intros s.
  pose proof (with_deadline_spec [] p s) as Hd. destruct (with_deadline p s) as [p' s1]. destruct Hd as (Hal & _).
  rewrite <- (alike_size _ _ Hal). clear Hal s. unfold Send, SendBytes. cbn.
  destruct (_ =? _); [|destruct (hd Sent _)]; unfold size; cbn; rewrite ?removelast_last, ?length_app; cbn; lia.
Qed.

Lemma OnConnectFailed_size s : (size (OnConnectFailed s) <= size s)%nat.
Proof. unfold OnConnectFailed. rewrite finish_lost_size. unfold size. cbn. lia. Qed.

Lemma Connect_size s : (size (snd (Connect conf_string s)) <= size s)%nat.
Proof.
  unfold Connect. destruct (bConnected _); [done|]. destruct (_ && _); [done|]. destruct (bConnecting _); [done|].
  set (s1 := set_conn _ s). change (size s) with (size s1). clearbody s1.
  pose proof (alike_size _ _ (StartClient_alike s1)) as He. destruct (StartClient s1) as [o s2]. cbn [snd] in He. rewrite <- He.
  destruct o; cbn [snd]; [done|apply OnConnectFailed_size|done].
Qed.

Lemma send_deferred_size ps s : (size (snd (send_deferred ps s)) <= size s + length ps)%nat.
Proof.
  revert s; induction ps as [|p ps IH]; intros s; cbn [send_deferred length]; [cbn; lia|].
  pose proof (alike_size _ _ (tick_alike s)) as Ht. destruct (tick s) as [t s1]. cbn [snd] in Ht.
  pose proof (EnqueueSentPull_size p s1) as He. destruct (EnqueueSentPull p s1) as [o s2].
  destruct (expired t p).
  - specialize (IH s1). destruct (send_deferred ps s1). cbn in *. lia.
  - specialize (IH s2). destruct o; destruct (send_deferred ps s2); cbn in *; lia.
Qed.

Lemma OnAddSession_size sid s : (size (OnAddSession sid s) <= size s)%nat.
Proof.
  unfold OnAddSession. set (s1 := set_conn _ _).
  set (s2 := if bPublished (reg s1) && negb (bLost (reg s1)) then snd (SendRegister s1) else s1).
  assert (size s2 = 0%nat) as E2.
  { unfold s2. destruct (_ && _); [unfold SendRegister; rewrite Send_size|]; done. }
  pose proof (send_deferred_size (deferred s) s2) as H. destruct (send_deferred (deferred s) s2) as [ps s3].
  rewrite finish_lost_size, finish_with_size. cbn in H. unfold size at 2. lia.
Qed.

Lemma OnDelSession_size sid s : (size (OnDelSession sid s) <= size s)%nat.
Proof. unfold OnDelSession. destruct (negb _); [done|]. rewrite !finish_lost_size. unfold size. cbn. lia. Qed.

Lemma ExpirePulls_size s : (size (ExpirePulls s) <= size s)%nat.
Proof.
  unfold ExpirePulls. pose proof (alike_size _ _ (tick_alike s)) as Ht. destruct (tick s) as [t s1]. cbn [snd] in Ht. rewrite <- Ht. clear.
  set (s2 := set_pending _ _ s1). assert (size s2 <= size s1)%nat as H2.
  { unfold size, s2. cbn. pose proof (List.filter_length_le (fun p => negb (expired t p)) (deferred s1)). lia. }
  destruct (existsb _ _); rewrite !finish_with_size; [|done]. etransitivity; [|exact H2].
  destruct (invalidate_alike t s2) as (s3 & Hal & ->). rewrite (alike_size _ _ Hal). unfold size. cbn. lia.
Qed.

(** What is let in has room. *)
Lemma CanEnqueuePull_room s : CanEnqueuePull conf_string conf_int conf_other s = Some true ->
  (size s < capacity)%nat.
Proof.
  unfold CanEnqueuePull, capacity, size. destruct (ReadMaxPendingPulls _ _ _) as [m|]; [|done]. cbn.
  intros [= E%Z.ltb_lt]. unfold GetPendingPullCount, lenZ in E. lia.
Qed.

Abbreviation cap := (capacity).

Lemma EnqueueSentPull_room p s : (size s < cap)%nat -> (size (snd (EnqueueSentPull p s)) <= cap)%nat.
Proof.
  intros H. pose proof (EnqueueSentPull_size p s) as He. destruct (EnqueueSentPull p s) as [o s']. cbn. destruct o; lia.
Qed.

Lemma PullAsync_size i n t s : (size s <= cap)%nat -> (size (PullAsync conf_string conf_int conf_other i n t s) <= cap)%nat.
Proof.
  intros H. unfold PullAsync. pose proof (alike_size _ _ (tick_alike s)) as Ht. destruct (tick s) as [t0 s1]. cbn [snd] in Ht.
  destruct (_ <=? _); [by rewrite FinishPull_size, Ht|]. destruct (_ || _); [by rewrite FinishPull_size, Ht|].
  pose proof (CanEnqueuePull_room s1) as Hr. destruct (CanEnqueuePull _ _ _ s1) as [[]|]; [|by rewrite FinishPull_size, Ht..].
  specialize (Hr eq_refl). pose proof (Connect_size s1) as Hc. destruct (Connect _ s1) as [b s2]. cbn [snd] in Hc.
  destruct b; cbn [negb]; [|rewrite FinishPull_size; lia]. rewrite <- (alike_size _ _ (ArmPullTimeout_alike s2)) in Hc.
  pose proof (alike_size _ _ (tick_alike (ArmPullTimeout s2))) as Ht1. destruct (tick (ArmPullTimeout s2)) as [t1 s3]. cbn [snd] in Ht1.
  set (p := mkPending _ _ _ _). destruct (expired t1 p); [rewrite FinishPull_size; lia|]. destruct (bConnected (conn s3)).
  - pose proof (EnqueueSentPull_room p s3 ltac:(lia)) as He. destruct (EnqueueSentPull p s3) as [o s4]. cbn [snd] in He.
    destruct o; rewrite ?FinishPull_size; done.
  - destruct (bConnecting _); [|rewrite FinishPull_size; lia]. unfold size in *. cbn. rewrite length_app. cbn. lia.
Qed.

Lemma pull_failed_size b s : (size (snd (pull_failed b s)) <= size s)%nat.
Proof.
  unfold pull_failed. cbn [snd]. etransitivity; [apply ExpirePulls_size|]. unfold size. cbn.
  destruct (unmark_sync_same [] (pending s)) as (_ & _ & -> & _). done.
Qed.

Lemma pull_send_size n s : (size s <= cap)%nat -> (size (snd (pull_send conf_string conf_int conf_other n s)) <= cap)%nat.
Proof.
  intros H. unfold pull_send. pose proof (CanEnqueuePull_room s) as Hr. destruct (CanEnqueuePull _ _ _ s) as [[]|]; [|done..].
  specialize (Hr eq_refl). set (s1 := set_answer _ s). change (size s) with (size s1) in Hr.
  set (p := mkPending _ _ _ _). pose proof (EnqueueSentPull_room p s1 Hr) as He.
  destruct (EnqueueSentPull p s1) as [o s2]. cbn [snd] in He.
  destruct o; cbn [snd]; [done| |done]. pose proof (pull_failed_size false s2). lia.
Qed.

Lemma ensure_size k w f s :
  (forall s, (size s <= cap)%nat -> (size (snd (k s)) <= cap)%nat) -> (forall s, (size s <= cap)%nat -> (size (snd (f s)) <= cap)%nat) ->
  (size s <= cap)%nat -> (size (snd (ensure conf_string k w f s)) <= cap)%nat.
Proof.
  intros Hk Hf H. unfold ensure. destruct (bConnected _); [by apply Hk|].
  pose proof (Connect_size s) as Hc. destruct (Connect _ s) as [b s1]. cbn [snd] in Hc.
  destruct b; cbn [negb]; [|apply Hf; lia]. destruct (bConnected _); [apply Hk; lia|cbn; lia].
Qed.

Lemma publish_send_size s : size (snd (publish_send s)) = size s.
Proof.
  unfold publish_send. set (s1 := set_reg _ _). change (size s) with (size s1). clearbody s1.
  pose proof (Send_size (ReqRegister (service (reg s1))) s1) as H. unfold SendRegister. destruct (Send _ s1) as [o s2]. by destruct o.
Qed.

Lemma publish_end_size b c s : size (snd (publish_end conf_int b c s)) = size s.
Proof. apply alike_size, publish_end_alike. Qed.

Lemma wake_size k s : (size s <= cap)%nat -> (size (snd (wake conf_string conf_int conf_other k s)) <= cap)%nat.
Proof.
  intros H. destruct k; cbn [wake].
  - destruct (bConnected _); [by apply pull_send_size|done].
  - unfold pull_woken. destruct (bGot _); [by destruct (_ || _)|]. pose proof (pull_failed_size true s). lia.
  - destruct (bConnected _); [by rewrite publish_send_size|]. unfold publish_unconnected. by rewrite publish_end_size.
  - unfold publish_woken. by rewrite publish_end_size.
Qed.

Lemma OnFrame_size sid k b s s' : OnFrame sid k b s = Ok s' -> (size s' <= size s)%nat.
Proof.
  unfold OnFrame. destruct (negb _); [by intros [= <-]|]. destruct (k =? _); [|destruct (k =? _); [|destruct (k =? _)]].
  - intros E. mono E. destruct a as [m r]. injection E as <-. unfold on_register_res. repeat case_match; done.
  - intros E. mono E. destruct a as [m r]. injection E as <-. unfold on_heartbeat_res. repeat case_match; done.
  - intros E. mono E. destruct a as [m r]. injection E as <-. unfold on_pull_res.
    destruct (pending s) as [|p ps] eqn:Ep; [done|]. set (s1 := set_pending _ _ s).
    assert (size s1 <= size s)%nat as H1 by (unfold size; rewrite Ep; cbn; lia). clearbody s1.
    pose proof (alike_size _ _ (tick_alike s1)) as Ht. destruct (tick s1) as [t s2]. cbn [snd] in Ht. rewrite <- Ht in H1.
    destruct (if expired t p then _ else _) as [code l]. destruct (pState p); [by rewrite FinishPull_size|].
    destruct (bSynchronous p); [done|]. destruct (_ =? _); [|done]. by destruct (Apply _ _ _).
  - by intros [= <-].
Qed.

(** ** Runs *)

Record inv (w : world M) : Prop := mkInv {
  inv_ids : NoDup (map call_id (calls w));
  inv_ok : ok (calls w) (frames w) (cl w) [];
  inv_size : (size (cl w) <= cap)%nat
}.

Lemma with_input_alike x s : alike s (with_input x s).
Proof. by constructor. Qed.

Lemma not_used {A} (sid : Z) (l : list (Z * A)) : existsb (fun p => fst p =? sid) l = false -> forall p, p ∈ l -> fst p <> sid.
Proof.
  intros H p Hp E. assert (existsb (fun p => fst p =? sid) l = true); [|congruence].
  apply existsb_exists. exists p. split; [by apply list_elem_of_In|]. by apply Z.eqb_eq.
Qed.

Lemma unused_asked sid l : (forall p : Z * request, p ∈ l -> fst p <> sid) -> asked_on sid l = [].
Proof.
  intros H. unfold asked_on. induction l as [|[k m] l IH]; [done|]. cbn. destruct m.
  1,2: apply IH; intros p Hp; apply H; by right.
  destruct (Z.eqb_spec k sid) as [->|]; [by destruct (H (sid, ReqPull m)); [left|]|]. apply IH. intros p Hp. apply H. by right.
Qed.

Lemma settle_inv r w : ok (calls w) (frames w) (snd r) [] -> (size (snd r) <= cap)%nat -> NoDup (map call_id (calls w)) -> inv (settle r w).
Proof. intros H1 H2 H3. destruct r as [o s]. by destruct o. Qed.

Lemma event_inv x e w w' : inv w -> do_event x e w = Some w' -> inv w'.
Proof.
  intros [Hd Hok Hsz] E. unfold do_event in E.
  apply (ok_alike _ _ _ _ _ (with_input_alike x (cl w))) in Hok. rewrite <- (alike_size _ _ (with_input_alike x (cl w))) in Hsz.
  revert Hok Hsz E. generalize (with_input x (cl w)) as s. intros s Hok Hsz E. destruct e as [sid|sid| |sid k body| |i n t|b n|b x1 x2 x3| | | |m n].
  - destruct (_ || _) eqn:Eu; [done|]. injection E as <-. rewrite !orb_false_iff in Eu. destruct Eu as [[Ei Es] _].
    split; cbn; [done| |by etransitivity; [apply OnAddSession_size|]]. apply OnAddSession_ok; [done|lia| |done].
    apply unused_asked. by apply not_used.
  - injection E as <-. split; cbn; [done|by apply OnDelSession_ok|by etransitivity; [apply OnDelSession_size|]].
  - injection E as <-. split; cbn; [done|by apply OnConnectFailed_ok|by etransitivity; [apply OnConnectFailed_size|]].
  - destruct (decide _); [done|]. destruct (OnFrame _ _ _ s) as [s'|f] eqn:Ef; [|by injection E as <-].
    pose proof (OnFrame_ok _ _ _ _ _ _ _ Hd Ef Hok) as Hf. pose proof (OnFrame_size _ _ _ _ _ Ef) as Hz.
    destruct (k =? PROTO_REG_PULL_RES); [destruct (decide _); [|done]|]; injection E as <-; (split; cbn; [done|by apply Hf|lia]).
  - injection E as <-. split; cbn; [done|by apply ExpirePulls_ok|by etransitivity; [apply ExpirePulls_size|]].
  - destruct (decide _) as [|Hn]; [done|]. injection E as <-. split; cbn; [|by apply PullAsync_ok|by apply PullAsync_size].
    rewrite map_app. apply NoDup_app. split_and!; [done| |by apply NoDup_singleton].
    intros j Hj ->%list_elem_of_singleton. done.
  - destruct (waits w); [done|]. injection E as <-. apply settle_inv; [by apply PullSync_ok| |done].
    unfold PullSync. destruct (_ || _); [done|]. destruct b; [done|]. apply ensure_size; [intros; by apply pull_send_size|done|done].
  - destruct (waits w); [done|]. injection E as <-. apply settle_inv; [by apply Publish_ok| |done].
    unfold Publish. repeat (case_match; try done).
    apply ensure_size; [intros; by rewrite publish_send_size|intros; unfold publish_unconnected; by rewrite publish_end_size|done].
  - destruct (waits w); [|done]. injection E as <-. apply settle_inv; [by apply wake_ok|by apply wake_size|done].
  - injection E as <-. split; cbn; [done|by apply Pull_ok|]. unfold Pull. destruct (negb _); [done|].
    destruct (negb _); [by etransitivity; [apply Connect_size|]|]. pose proof (CanEnqueuePull_room s) as Hr.
    destruct (CanEnqueuePull _ _ _ s) as [[]|]; [|done..]. by apply EnqueueSentPull_room, Hr.
  - injection E as <-. split; cbn; [done|by apply Touch_ok|]. unfold Touch, SendRegister. destruct (_ || _); [done|].
    destruct (negb _); [by etransitivity; [apply Connect_size|]|]. destruct (negb _); by rewrite Send_size.
  - injection E as <-. split; cbn; [done|by eapply ok_alike; [apply Watch_alike|]|]. by rewrite (alike_size _ _ (Watch_alike m n s)).
Qed.

Lemma new_inv t : 0 <= t -> inv (start t).
Proof.
  intros Ht. split; cbn; [constructor| |unfold size; cbn; lia].
  split; cbn; try done. intros i. unfold fins. cbn. by rewrite elem_of_empty, elem_of_nil.
Qed.

Lemma events_inv es w w' : inv w -> run es w = Some w' -> inv w'.
Proof.
  revert w; induction es as [|[x e] es IH]; intros w H E; cbn in E; [by injection E as <-|].
  destruct (do_event x e w) as [w1|] eqn:E1; [|done]. cbn in E. eapply IH; [|done]. by eapply event_inv.
Qed.

(** After a scan nothing overdue waits. *)
Lemma finish_with_frame c ps (s : client M) :
  pending (finish_with c ps s) = pending s /\ deferred (finish_with c ps s) = deferred s /\ env (finish_with c ps s) = env s.
Proof.
  revert s; induction ps as [|p ps IH]; intros s; [done|]. unfold finish_with in *. cbn [fold_left].
  destruct (IH (FinishPull (pState p) (c p) [] s)) as (-> & -> & ->). destruct (pState p); [|done]. cbn [FinishPull]. by destruct (decide _).
Qed.

Lemma ExpirePulls_clears (s : client M) p : p ∈ pending (ExpirePulls s) \/ p ∈ deferred (ExpirePulls s) ->
  now (env (ExpirePulls s)) < iDeadlineMilliseconds p.
Proof.
  unfold ExpirePulls. assert (now (env (snd (tick s))) = fst (tick s)) as Ht by done. destruct (tick s) as [t s1]. cbn [fst snd] in Ht.
  set (s2 := set_pending _ _ s1). destruct (existsb _ _) eqn:Eo.
  - destruct (finish_with_frame (lost_code t) (pending s1) (finish_with (fun _ => OI_ERR_TIMEOUT) (List.filter (expired t) (deferred s1)) (invalidate t s2))) as (-> & -> & ->).
    destruct (finish_with_frame (fun _ => OI_ERR_TIMEOUT) (List.filter (expired t) (deferred s1)) (invalidate t s2)) as (-> & -> & ->).
    destruct (invalidate_now t s2) as (-> & -> & ->). cbn. rewrite Ht. intros [[]%not_elem_of_nil|H].
    apply list_elem_of_In, List.filter_In in H as [_ H]. unfold expired in H. lia.
  - destruct (finish_with_frame (fun _ => OI_ERR_TIMEOUT) (List.filter (expired t) (deferred s1)) s2) as (-> & -> & ->).
    cbn. rewrite Ht. intros [H|H].
    + assert (expired t p = false) as He; [|unfold expired in He; lia]. destruct (expired t p) eqn:He; [|done].
      assert (existsb (expired t) (pending s1) = true); [|congruence]. apply existsb_exists. exists p. split; [by apply list_elem_of_In|done].
    + apply list_elem_of_In, List.filter_In in H as [_ H]. unfold expired in H. lia.
Qed.

Lemma call_unique cs c c' : NoDup (map call_id cs) -> c ∈ cs -> c' ∈ cs -> call_id c = call_id c' -> c = c'.
Proof.
  intros Hd. induction cs as [|c0 cs IH]; [by intros ?%not_elem_of_nil|]. cbn in Hd. apply NoDup_cons in Hd as [Hn Hd].
  assert (forall c, c ∈ cs -> call_id c <> call_id c0) as Hne.
  { intros c1 Hc E. apply Hn. rewrite <- E. by apply list_elem_of_fmap_2. }
  intros [->|Hc]%elem_of_cons [->|Hc']%elem_of_cons E; [done|by destruct (Hne c')|by destruct (Hne c)|by apply IH].
Qed.

(** ** Properties *)

(** C2: every call of PullAsync is called back at most once and is never lost:
    after any run the calls made are, each exactly once, the calls called back and
    those in the two queues, whatever connections, sends, answers and timers do. *)
Theorem pulls_finish_once es t w : 0 <= t -> run es (start t) = Some w ->
  NoDup (map fin_id (finished (queues (cl w)))) /\
  map call_id (calls w) ≡ₚ map fin_id (finished (queues (cl w))) ++ ids (pending (cl w) ++ deferred (cl w)).
Proof.
  intros Ht E. destruct (events_inv es (start t) w (new_inv t Ht) E) as [Hd Hok _].
  assert (map call_id (calls w) ≡ₚ fins (cl w) ++ ids (pending (cl w) ++ deferred (cl w))) as Hp.
  { apply cnt_Permutation. intros i. pose proof (ok_all _ _ _ _ Hok i) as Ha. change (owe i []) with 0%nat in Ha.
    rewrite cnt_app. fold (owe i (pending (cl w) ++ deferred (cl w))). rewrite owe_app. lia. }
  split; [|exact Hp]. rewrite Hp in Hd. by apply NoDup_app in Hd as [Hd _].
Qed.

(** C10: answers are not mixed up although they carry no call number: a call
    that did not end by timeout, refusal or loss of the connection ended with code
    and list of the k-th answer on a session whose k-th request was for its name. *)
Theorem answers_paired es t w f : 0 <= t -> run es (start t) = Some w ->
  f ∈ finished (queues (cl w)) ->
  (fin_code f ∈ [OI_ERR_TIMEOUT; OI_ERR_CONNECT; OI_ERR_FAIL; OI_ERR_BUSY] /\ fin_list f = []) \/
  answered (calls w) (frames w) (sent (out (cl w))) f.
Proof.
  intros Ht E Hf. destruct (events_inv es (start t) w (new_inv t Ht) E) as [_ Hok _].
  pose proof (ok_justified _ _ _ _ Hok) as Hj. rewrite Forall_forall in Hj. exact (Hj f Hf).
Qed.

(** Every call ends in time: after the first scan of ExpirePulls that
    finds a call's deadline reached, the call has been called back. *)
Theorem overdue_pulls_end es t w x w' c : 0 <= t -> run es (start t) = Some w -> do_event x Expire w = Some w' ->
  c ∈ calls w' -> call_deadline c <= now (env (cl w')) ->
  call_id c ∈ map fin_id (finished (queues (cl w'))).
Proof.
  intros Ht E Ex Hc Hdl. pose proof (events_inv es (start t) w (new_inv t Ht) E) as Hi.
  pose proof (event_inv x Expire w w' Hi Ex) as [Hd Hok _]. apply (inj Some) in Ex as <-. clear E Hi.
  set (s := ExpirePulls (with_input x (cl w))) in *.
  change (calls (set_cl s w)) with (calls w) in *. change (cl (set_cl s w)) with s in *. apply cnt_pos. pose proof (ok_all _ _ _ _ Hok (call_id c)) as Ha. change (owe _ []) with 0%nat in Ha.
  assert (0 < cnt (call_id c) (map call_id (calls w)))%nat by (apply cnt_pos, list_elem_of_fmap; by exists c).
  destruct (decide (0 < owe (call_id c) (pending s) + owe (call_id c) (deferred s))%nat) as [Ho|]; [|unfold fins in Ha; lia].
  exfalso. assert (exists p, (p ∈ pending s \/ p ∈ deferred s) /\ pState p = Some (call_id c)) as (p & Hp & Ep).
  { destruct (decide (0 < owe (call_id c) (pending s))%nat) as [Ho1|].
    - apply owe_pos in Ho1 as (p & ? & ?). exists p. tauto.
    - assert (0 < owe (call_id c) (deferred s))%nat as Ho1 by lia. apply owe_pos in Ho1 as (p & ? & ?). exists p. tauto. }
  assert (known (calls w) p) as Hk.
  { destruct (ok_known _ _ _ _ Hok) as (K1 & K2 & _). rewrite Forall_forall in K1, K2. destruct Hp; auto. }
  unfold known in Hk. rewrite Ep in Hk. destruct Hk as (_ & n & Hin & _).
  assert (mkCall (call_id c) n (iDeadlineMilliseconds p) = c) as Ec.
  { by apply (call_unique (calls w)). }
  apply (f_equal call_deadline) in Ec. cbn [call_deadline] in Ec.
  pose proof (ExpirePulls_clears _ p Hp) as Hlt. fold s in Hlt. lia.
Qed.

(** Pulls under way never exceed the configured maximum. *)
Theorem pulls_bounded es t w : 0 <= t -> run es (start t) = Some w ->
  GetPendingPullCount (cl w) <= default 0 (u64 <$> ReadMaxPendingPulls conf_string conf_int conf_other).
Proof.
  intros Ht E. destruct (events_inv es (start t) w (new_inv t Ht) E) as [_ _ Hs].
  unfold GetPendingPullCount, lenZ, size, capacity in *. destruct (ReadMaxPendingPulls _ _ _) as [m|]; cbn; [|lia].
  pose proof (Z.mod_pos_bound m (2 ^ 64) ltac:(lia)). unfold u64 in *. lia.
Qed.

End World.

(** ** A run *)

Section Runs.

Definition conf (key : list byte) : option (list byte) :=
  if bytes_eqb key (txt "Registry.ip") then Some (txt "10.0.0.9")
  else if bytes_eqb key (txt "Registry.port") then Some (txt "7000")
  else if bytes_eqb key (txt "Registry.type") then Some (txt "tcp")
  else None.

Definition no_int (_ : list byte) : option Z := None.
Definition no_other (_ : list byte) : bool := false.
Definition no_address (_ _ : list byte) : bool := false.

Definition pull_answer_bytes : list byte :=
  match serialize_RegPullRes (mkRegPullRes OI_OK [mkRegInstance (txt "db") 2 (txt "10.0.0.2") (txt "1") []]) (BytesStream.of_bytes []) with
  | Ok s => BytesStream.data s
  | Err _ => []
  end.

Definition after (n : N) : input := mkInput [n] [] [].

(** Two pulls wait for the connection; the first is answered, the second not. *)
Definition two_pulls : list (input * event nat) :=
  [(after 5, CallPullAsync 1 (txt "db") 1000); (after 5, CallPullAsync 2 (txt "gate") 100); (after 3, AddSession 7);
   (after 4, Frame 7 PROTO_REG_PULL_RES pull_answer_bytes)].

Definition do_two (e : input * event nat) (w : world nat) : world nat :=
  default w (do_event conf no_int no_other no_address (fst e) (snd e) w).
Definition world_two : world nat := default (start 0) (run conf no_int no_other no_address two_pulls (start 0)).
Definition world_expired : world nat := do_two (after 200, Expire) world_two.

Lemma pulls_finish_once_witness :
  map fin_id (finished (queues (cl world_two))) = [1] /\
  map call_id (calls world_two) ≡ₚ map fin_id (finished (queues (cl world_two))) ++
    ids (vPendingPulls (queues (cl world_two)) ++ vDeferredPulls (queues (cl world_two))).
Proof.
  split; [vm_compute; reflexivity|].
  refine (proj2 (pulls_finish_once conf no_int no_other no_address two_pulls 0 world_two _ _)).
  - vm_compute. discriminate.
  - vm_compute. reflexivity.
Defined.

Lemma answers_paired_witness :
  let f := mkFinish 1 OI_OK [mkInstance (txt "db") 2 (txt "10.0.0.2") (txt "1") []] in
  (fin_code f ∈ [OI_ERR_TIMEOUT; OI_ERR_CONNECT; OI_ERR_FAIL; OI_ERR_BUSY] /\ fin_list f = []) \/
  answered (calls world_two) (frames world_two) (sent (out (cl world_two))) f.
Proof.
  refine (answers_paired conf no_int no_other no_address two_pulls 0 world_two _ _ _ _).
  - vm_compute. discriminate.
  - vm_compute. reflexivity.
  - assert (finished (queues (cl world_two)) = [mkFinish 1 OI_OK [mkInstance (txt "db") 2 (txt "10.0.0.2") (txt "1") []]]) as ->
      by (vm_compute; reflexivity). left.
Defined.

Lemma overdue_pulls_end_witness : 2 ∈ map fin_id (finished (queues (cl world_expired))).
Proof.
  refine (overdue_pulls_end conf no_int no_other no_address two_pulls 0 world_two (after 200) world_expired
            (mkCall 2 (txt "gate") 110) _ _ _ _ _).
  - vm_compute. discriminate.
  - vm_compute. reflexivity.
  - vm_compute. reflexivity.
  - assert (calls world_expired = [mkCall 1 (txt "db") 1005; mkCall 2 (txt "gate") 110]) as -> by (vm_compute; reflexivity).
    right. left.
  - vm_compute. discriminate.
Defined.

Lemma pulls_bounded_witness : GetPendingPullCount (cl world_two) <= 4096 /\ GetPendingPullCount (cl world_two) = 1.
Proof.
  split; [|vm_compute; reflexivity].
  refine (pulls_bounded conf no_int no_other no_address two_pulls 0 world_two _ _).
  - vm_compute. discriminate.
  - vm_compute. reflexivity.
Defined.

End Runs.
End RegistryPulls.
