(* ===== verification/HttpClient.v ===== *)
(** * The HTTP client: the queue of requests

    cbaselib/http/src/oi_http.cpp, Client::Impl and Call: requests wait in a queue
    and are sent one at a time over one connection, which is opened when needed
    and kept or closed after a response.

    Everything runs on the loop thread, but the methods call each other in turn
    (Pump, CloseSession, OnSessionClosed, FinishEof, OnHttpFinished), so they are
    one recursive function [exec] over the calls to make ([turn] is one of them),
    with fuel for the depth; that [depth] is enough is part of
    [client_never_stalls].  What happens in separate turns of the loop are the
    events of [do_event].  Requests and sessions are numbers; the session
    manager's part (CloseSession, PassiveClose, the connection under way) is
    modelled as far as the client sees it.  SendBytes succeeds or fails as the
    environment says.  A connection that fails at once calls OnConnectFailed as the
    last step of BeginConnect, the last call of Pump; here it is [ConnectFails] as
    the next event. *)

From S2P Require Import Prelude Text Http.

Module HttpClient.
Import Text Http.

(** ** State *)

Inductive Gate : Type := Idle | Ready | Waiting.

(** Call::Request. *)
Record Request : Type := mkRequest {
  sRequest : list byte;
  sBody : list byte;
  sError : list byte;
  iGate : Gate;
  iDone : bool;
  iStatus : Z;
  bFailed : bool
}.

Definition new_Request (l : list byte) : Request := mkRequest l [] [] Idle false 0 false.

(** A connection: in the manager's table, closed, and the parser. *)
Record connection : Type := mkConnection { mapped : bool; isClosed : bool; parser : session }.

Record client : Type := mkClient {
  m_vQueue : list Z;
  m_pFlight : option Z;
  m_pSession : option Z;
  m_iSessionId : Z;
  m_bConnected : bool;
  m_bConnecting : bool;
  m_bClosed : bool;
  requests : gmap Z Request;
  sessions : gmap Z connection;
  bConnectPending : bool;          (* the manager is connecting *)
  scheduled : list Z;              (* callers resumed through Schedule *)
  published : list Z;              (* requests whose result is out, in order *)
  sent : list (Z * list byte);     (* what was handed to SendBytes, by session *)
  sends : list bool;               (* what the next SendBytes come to *)
  stopping : bool                  (* ThreadPool::StopRequested *)
}.

Definition INVALID_SID : Z := -1.

Definition set_queue (l : list Z) (s : client) : client :=
  mkClient l (m_pFlight s) (m_pSession s) (m_iSessionId s) (m_bConnected s) (m_bConnecting s) (m_bClosed s) (requests s)
    (sessions s) (bConnectPending s) (scheduled s) (published s) (sent s) (sends s) (stopping s).
Definition set_flight (f : option Z) (s : client) : client :=
  mkClient (m_vQueue s) f (m_pSession s) (m_iSessionId s) (m_bConnected s) (m_bConnecting s) (m_bClosed s) (requests s)
    (sessions s) (bConnectPending s) (scheduled s) (published s) (sent s) (sends s) (stopping s).
Definition set_session (p : option Z) (i : Z) (b : bool) (s : client) : client :=
  mkClient (m_vQueue s) (m_pFlight s) p i b (m_bConnecting s) (m_bClosed s) (requests s)
    (sessions s) (bConnectPending s) (scheduled s) (published s) (sent s) (sends s) (stopping s).
Definition set_connecting (c p : bool) (s : client) : client :=
  mkClient (m_vQueue s) (m_pFlight s) (m_pSession s) (m_iSessionId s) (m_bConnected s) c (m_bClosed s) (requests s)
    (sessions s) p (scheduled s) (published s) (sent s) (sends s) (stopping s).
Definition set_closed (s : client) : client :=
  mkClient (m_vQueue s) (m_pFlight s) (m_pSession s) (m_iSessionId s) (m_bConnected s) (m_bConnecting s) true (requests s)
    (sessions s) (bConnectPending s) (scheduled s) (published s) (sent s) (sends s) (stopping s).
Definition set_requests (m : gmap Z Request) (sch pub : list Z) (s : client) : client :=
  mkClient (m_vQueue s) (m_pFlight s) (m_pSession s) (m_iSessionId s) (m_bConnected s) (m_bConnecting s) (m_bClosed s) m
    (sessions s) (bConnectPending s) sch pub (sent s) (sends s) (stopping s).
Definition set_sessions (m : gmap Z connection) (s : client) : client :=
  mkClient (m_vQueue s) (m_pFlight s) (m_pSession s) (m_iSessionId s) (m_bConnected s) (m_bConnecting s) (m_bClosed s) (requests s)
    m (bConnectPending s) (scheduled s) (published s) (sent s) (sends s) (stopping s).
Definition set_sent (l : list (Z * list byte)) (o : list bool) (s : client) : client :=
  mkClient (m_vQueue s) (m_pFlight s) (m_pSession s) (m_iSessionId s) (m_bConnected s) (m_bConnecting s) (m_bClosed s) (requests s)
    (sessions s) (bConnectPending s) (scheduled s) (published s) l o (stopping s).

Definition set_stopping (s : client) : client :=
  mkClient (m_vQueue s) (m_pFlight s) (m_pSession s) (m_iSessionId s) (m_bConnected s) (m_bConnecting s) (m_bClosed s) (requests s)
    (sessions s) (bConnectPending s) (scheduled s) (published s) (sent s) (sends s) true.

Definition new_client : client := mkClient [] None None INVALID_SID false false false ∅ ∅ false [] [] [] [] false.

Definition update_parser (sid : Z) (p : session) (s : client) : client :=
  match sessions s !! sid with
  | Some h => set_sessions (<[sid := mkConnection (mapped h) (isClosed h) p]> (sessions s)) s
  | None => s
  end.

(** A session that can be used. *)
Definition is_open (sid : Z) (s : client) : bool :=
  match sessions s !! sid with Some h => negb (isClosed h) | None => false end.

(** ** Results *)

Definition Publish (i : Z) (bFail : bool) (pWhy : list byte) (s : client) : client :=
  match requests s !! i with
  | None => s
  | Some r =>
      if iDone r then s
      else
        let err := if bFail && (lenZ (sError r) =? 0) then pWhy else sError r in
        let r' := mkRequest [] (sBody r) err Ready true (iStatus r) bFail in
        set_requests (<[i := r']> (requests s))
          (match iGate r with Waiting => scheduled s ++ [i] | _ => scheduled s end) (published s ++ [i]) s
  end.

(** The status, and the body of a success, are written before. *)
Definition write_result (i : Z) (f : finished) (s : client) : client :=
  match requests s !! i with
  | None => s
  | Some r =>
      let r' := mkRequest (sRequest r) (if f_bFail f then sBody r else f_sBody f) (sError r) (iGate r) (iDone r) (f_iStatus f) (bFailed r) in
      set_requests (<[i := r']> (requests s)) (scheduled s) (published s) s
  end.

Definition FailFront (pWhy : list byte) (s : client) : client :=
  match m_vQueue s with
  | [] => s
  | i :: q => Publish i true pWhy (set_queue q s)
  end.

(** ** The calls *)

Section Client.
Context (m_sHost : list byte) (m_iPort : Z) (m_bReuse : bool).

Inductive action : Type :=
| Pump
| CloseSession (sid : Z)
| OnSessionClosed (sid : Z)
| FinishEof (sid : Z)
| OnHttpFinished (sid : Z) (f : finished).

(** SessionManager::StartConnect, as far as the client sees it: nothing is started once the
    process is stopping, nor while a session to the address is in the table.  The awaiter
    that is told so is not awaited.  bServiceDown stays false, for the client has no service
    name and ApplyService leaves it alone. *)
Definition StartConnect (s : client) : client :=
  if stopping s then s
  else if negb (bConnectPending s) && existsb (fun p => mapped (snd p)) (map_to_list (sessions s)) then s
  else set_connecting (m_bConnecting s) true s.

(** SessionManager::BeginConnect, from StartClient: on the loop thread CallOnLoop calls. *)
Definition StartClient (s : client) : client := if stopping s then s else StartConnect s.

(** Client::Impl::BeginConnect; UseAddress only sets the address. *)
Definition BeginConnect (s : client) : client := StartClient s.

(** SendBytes of the request on the current session. *)
Definition SendBytes (sid : Z) (l : list byte) (s : client) : bool * client :=
  if is_open sid s && hd true (sends s) then (true, set_sent (sent s ++ [(sid, l)]) (tl (sends s)) s)
  else (false, set_sent (sent s) (tl (sends s)) s).

Definition abandon (sid : Z) (s : client) : client :=
  match sessions s !! sid with
  | Some h => update_parser sid (Abandon (parser h)) s
  | None => s
  end.

(** The five calls; [again] makes the calls in them. *)
Definition on_Pump (again : action -> client -> result client) (s : client) : result client :=
  match m_pFlight s, m_vQueue s with
  | None, i :: q =>
      if m_bClosed s then Ok s
      else match m_pSession s with
      | Some sid =>
          if m_bConnected s && is_open sid s then
            let s := set_flight (Some i) (set_queue q s) in
            let s := update_parser sid BeginResponse s in
            let (ok, s) := SendBytes (m_iSessionId s) (match requests s !! i with Some r => sRequest r | None => [] end) s in
            if ok then Ok s
            else
              let s := abandon sid (set_flight None s) in
              let s := Publish i true (txt "send") s in
              if is_open sid s then again (CloseSession (m_iSessionId s)) s else Ok s
          else if m_bConnecting s then Ok s
          else Ok (BeginConnect (set_connecting true (bConnectPending s) s))
      | None =>
          if m_bConnecting s then Ok s
          else Ok (BeginConnect (set_connecting true (bConnectPending s) s))
      end
  | _, _ => Ok s
  end.

Definition on_CloseSession (again : action -> client -> result client) (sid : Z) (s : client) : result client :=
  match sessions s !! sid with
  | Some h =>
      if mapped h then again (OnSessionClosed sid) (set_sessions (<[sid := mkConnection false true (parser h)]> (sessions s)) s)
      else Ok s
  | None => Ok s
  end.

Definition on_SessionClosed (again : action -> client -> result client) (sid : Z) (s : client) : result client :=
  let! s :=
    if decide (m_pSession s = Some sid) then
      let! s := again (FinishEof sid) s in
      Ok (if decide (m_pSession s = Some sid) then set_session None INVALID_SID false s else s)
    else Ok s in
  if m_bClosed s then Ok s else again Pump s.

Definition on_FinishEof (again : action -> client -> result client) (sid : Z) (s : client) : result client :=
  match sessions s !! sid with
  | None => Ok s
  | Some h =>
      let! (p, f) := Http.FinishEof (parser h) in
      let s := update_parser sid p s in
      match f with
      | None => Ok s
      | Some f => again (OnHttpFinished sid f) s
      end
  end.

Definition on_HttpFinished (again : action -> client -> result client) (sid : Z) (f : finished) (s : client) : result client :=
  let s :=
    match m_pFlight s with
    | Some i =>
        if decide (m_pSession s = Some sid) then
          Publish i (f_bFail f) (f_pWhy f) (write_result i f (set_flight None s))
        else s
    | None => s
    end in
  let bDrop := f_bFail f || f_bClose f || negb m_bReuse in
  if bDrop && bool_decide (m_pSession s = Some sid) && is_open sid s then again (CloseSession sid) (abandon sid s)
  else if m_bClosed s then Ok s
  else again Pump s.

Definition turn (again : action -> client -> result client) (a : action) (s : client) : result client :=
  match a with
  | Pump => on_Pump again s
  | CloseSession sid => on_CloseSession again sid s
  | OnSessionClosed sid => on_SessionClosed again sid s
  | FinishEof sid => on_FinishEof again sid s
  | OnHttpFinished sid f => on_HttpFinished again sid f s
  end.

Fixpoint exec (fuel : nat) (a : action) (s : client) : result client :=
  match fuel with
  | O => Err OutOfFuel
  | S fuel => turn (exec fuel) a s
  end.

Definition depth : nat := 8.

Definition call (a : action) (s : client) : result client := exec depth a s.

Definition bad_host : bool := (m_iPort <=? 0) || (65535 <? m_iPort) || (lenZ m_sHost =? 0).

Definition EnqueueOnLoop (i : Z) (s : client) : result client :=
  if m_bClosed s then Ok (Publish i true (txt "closed") s)
  else if bad_host then Ok (Publish i true (txt "host") s)
  else call Pump (set_queue (m_vQueue s ++ [i]) s).

(** ArmTimer in EnqueueOnLoop. *)
Definition ArmTimer (i : Z) (s : client) (timers : list Z) : list Z := if m_bClosed s || bad_host then timers else i :: timers.

Fixpoint erase_first (i : Z) (l : list Z) : list Z :=
  match l with
  | [] => []
  | x :: l => if x =? i then l else x :: erase_first i l
  end.

Definition OnTimeout (i : Z) (s : client) : result client :=
  match requests s !! i with
  | None => Ok s
  | Some r =>
      if iDone r then Ok s
      else if decide (m_pFlight s = Some i) then
        let s := match m_pSession s with Some sid => abandon sid s | None => s end in
        let s := Publish i true (txt "timeout") (set_flight None s) in
        if match m_pSession s with Some sid => is_open sid s | None => false end then call (CloseSession (m_iSessionId s)) s
        else if m_bClosed s then Ok s
        else call Pump s
      else if decide (i ∈ m_vQueue s) then Ok (Publish i true (txt "timeout") (set_queue (erase_first i (m_vQueue s)) s))
      else Ok s
  end.

Definition OnAddSession (sid : Z) (s : client) : result client :=
  let s := set_connecting false (bConnectPending s) (set_session (Some sid) sid true s) in
  if m_bClosed s then call (CloseSession (m_iSessionId s)) s else call Pump s.

Definition OnDelSession (sid : Z) (s : client) : client :=
  if decide (m_pSession s = Some sid) then set_session None INVALID_SID false s else s.

Definition OnConnectFailed (s : client) : result client :=
  let s := set_connecting false (bConnectPending s) (set_session None INVALID_SID false s) in
  if m_bClosed s then Ok s else call Pump (FailFront (txt "connect") s).

(** HttpSession::OnDataIn, with what it calls. *)
Definition OnDataIn (sid : Z) (stInput : list byte) (s : client) : result client :=
  match sessions s !! sid with
  | None => Ok s
  | Some h =>
      let! (p, f, idle) := Http.OnDataIn stInput (parser h) in
      let s := update_parser sid p s in
      match f with
      | Some f => call (OnHttpFinished sid f) s
      | None =>
          if idle && bool_decide (m_pSession s = Some sid) && is_open sid s then call (CloseSession sid) s  (* OnIdleBytes *)
          else Ok s
      end
  end.

(** HttpSession::OnClose, when the channel is destroyed. *)
Definition OnClose (sid : Z) (s : client) : result client :=
  let! s := call (FinishEof sid) s in Ok (OnDelSession sid s).

(** NetSession::PassiveClose. *)
Definition PassiveClose (sid : Z) (s : client) : result client :=
  match sessions s !! sid with
  | None => Ok s
  | Some h => call (CloseSession sid) (set_sessions (<[sid := mkConnection (mapped h) true (parser h)]> (sessions s)) s)
  end.

Fixpoint close_all (sids : list Z) (s : client) : result client :=
  match sids with
  | [] => Ok s
  | sid :: sids => let! s := call (CloseSession sid) s in close_all sids s
  end.

Definition Shutdown (s : client) : result client :=
  if m_bClosed s then Ok s
  else
    let s := set_closed s in
    let s := match m_pSession s with Some sid => abandon sid s | None => s end in
    let flight := m_pFlight s in
    let queue := m_vQueue s in
    let s := set_queue [] (set_flight None s) in
    let s := match flight with Some i => Publish i true (txt "closed") s | None => s end in
    let s := fold_left (fun s i => Publish i true (txt "closed") s) queue s in
    let s := set_connecting (m_bConnecting s) false s in            (* CancelConnect *)
    close_all (map fst (List.filter (fun p => mapped (snd p)) (map_to_list (sessions s)))) s.

(** ** Events *)

(** [posted]: requests on their way to the loop; [timers]: requests with a timer;
    [suspended]: callers that have been through the exchange of await_suspend;
    [resumed_at_once]: those it told not to suspend; [next_sid]: the manager's
    counter. *)
Record world : Type := mkWorld {
  cl : client;
  posted : list Z;
  timers : list Z;
  suspended : list Z;
  resumed_at_once : list Z;
  next_sid : Z
}.

Definition start : world := mkWorld new_client [] [] [] [] 1.

Definition set_cl (s : client) (w : world) : world :=
  mkWorld s (posted w) (timers w) (suspended w) (resumed_at_once w) (next_sid w).

Definition exchange_waiting (i : Z) (r : Request) (s : client) : client :=
  set_requests (<[i := mkRequest (sRequest r) (sBody r) (sError r) Waiting (iDone r) (iStatus r) (bFailed r)]> (requests s))
    (scheduled s) (published s) s.

Inductive event : Type :=
| Await (i : Z) (l : list byte)      (* await_suspend, up to Enqueue *)
| RunPosted (k : nat)                (* a posted request reaches the loop *)
| Suspend (i : Z)                    (* the end of await_suspend *)
| TimerFires (i : Z)
| Data (sid : Z) (l : list byte)
| PeerCloses (sid : Z)
| ChannelDestroyed (sid : Z)
| Connected
| ConnectFails
| ShutsDown
| RequestStop.                      (* the process begins to stop *)

(** The results of the next SendBytes come with the event. *)
Definition do_event (outcomes : list bool) (e : event) (w : world) : option (result world) :=
  let s := set_sent (sent (cl w)) outcomes (cl w) in
  let back (r : result client) := Some (let! s := r in Ok (set_cl s w)) in
  match e with
  | Await i l =>
      match requests s !! i with
      | Some _ => None
      | None =>
          Some (Ok (mkWorld (set_requests (<[i := new_Request l]> (requests s)) (scheduled s) (published s) s)
                      (posted w ++ [i]) (timers w) (suspended w) (resumed_at_once w) (next_sid w)))
      end
  | RunPosted k =>
      match posted w !! k with
      | None => None
      | Some i =>
          let s0 := s in
          Some (let! s := EnqueueOnLoop i s in
                Ok (mkWorld s (take k (posted w) ++ drop (S k) (posted w)) (ArmTimer i s0 (timers w)) (suspended w) (resumed_at_once w) (next_sid w)))
      end
  | Suspend i =>
      match requests s !! i with
      | None => None
      | Some r =>
          if decide (i ∈ suspended w) then None
          else Some (Ok (mkWorld (exchange_waiting i r s) (posted w) (timers w) (suspended w ++ [i])
                           (match iGate r with Ready => resumed_at_once w ++ [i] | _ => resumed_at_once w end) (next_sid w)))
      end
  | TimerFires i =>
      if decide (i ∈ timers w) then
        Some (let! s := OnTimeout i s in
              Ok (mkWorld s (posted w) (erase_first i (timers w)) (suspended w) (resumed_at_once w) (next_sid w)))
      else None
  | Data sid l => if is_open sid s then back (OnDataIn sid l s) else None
  | PeerCloses sid => if is_open sid s then back (PassiveClose sid s) else None
  | ChannelDestroyed sid =>
      match sessions s !! sid with
      | Some h => if isClosed h then back (let! s := OnClose sid s in Ok (set_sessions (delete sid (sessions s)) s)) else None
      | None => None
      end
  | Connected =>
      if bConnectPending s then
        let sid := next_sid w in
        let s := set_connecting (m_bConnecting s) false s in
        let s := set_sessions (<[sid := mkConnection true false new_session]> (sessions s)) s in
        Some (let! s := OnAddSession sid s in
              Ok (mkWorld s (posted w) (timers w) (suspended w) (resumed_at_once w) (sid + 1)))
      else None
  | ConnectFails =>
      if bConnectPending s then back (OnConnectFailed (set_connecting (m_bConnecting s) false s)) else None
  | ShutsDown => back (Shutdown s)
  | RequestStop => Some (Ok (set_cl (set_stopping s) w))
  end.

Fixpoint run (es : list (list bool * event)) (w : world) : option (result world) :=
  match es with
  | [] => Some (Ok w)
  | (o, e) :: es =>
      match do_event o e w with
      | Some (Ok w) => run es w
      | r => r
      end
  end.

(** ** Accounts of requests

    [base ex su ro s]: every request is in exactly one place: in the hands [ex] of
    somebody outside, in the queue, in flight, or published; and its caller has
    been resumed exactly once if it has asked to wait ([su]) and the result is out,
    [ro] being those that were told not to suspend. *)

Definition in_flight (s : client) : list Z := option_list (m_pFlight s).

Definition gate_ok (su : list Z) (i : Z) (r : Request) : Prop :=
  match iGate r with
  | Idle => i ∉ su /\ iDone r = false
  | Ready => iDone r = true
  | Waiting => i ∈ su
  end.

Definition resumed (su : list Z) (i : Z) (r : Request) : nat := if bool_decide (i ∈ su) && iDone r then 1 else 0.

Record base (ex su ro : list Z) (s : client) : Prop := mkBase {
  b_place i : (cnt i ex + cnt i (m_vQueue s) + cnt i (in_flight s) + cnt i (published s) =
               match requests s !! i with Some _ => 1 | None => 0 end)%nat;
  b_done i r : requests s !! i = Some r -> iDone r = true <-> i ∈ published s;
  b_gate i r : requests s !! i = Some r -> gate_ok su i r;
  b_resumed i : (cnt i (scheduled s) + cnt i ro = match requests s !! i with Some r => resumed su i r | None => 0 end)%nat;
  b_suspended i : i ∈ su -> is_Some (requests s !! i)
}.

(** What [base] depends on. *)
Lemma base_same ex su ro s s' :
  m_vQueue s' = m_vQueue s -> m_pFlight s' = m_pFlight s -> requests s' = requests s -> scheduled s' = scheduled s ->
  published s' = published s -> base ex su ro s -> base ex su ro s'.
Proof.
  intros E1 E2 E3 E4 E5 [H1 H2 H3 H4 H5]. unfold in_flight in *.
  split; unfold in_flight; rewrite ?E1, ?E2, ?E3, ?E4, ?E5; done.
Qed.

(** A request changes hands between the queue, the flight and outside. *)
Lemma base_move ex ex' su ro s q f :
  (forall i, cnt i ex' + cnt i q + cnt i (option_list f) = cnt i ex + cnt i (m_vQueue s) + cnt i (in_flight s))%nat ->
  base ex su ro s -> base ex' su ro (set_flight f (set_queue q s)).
Proof.
  intros Hm [H1 H2 H3 H4 H5]. split; cbn; try done. intros i. unfold in_flight. cbn. specialize (H1 i). specialize (Hm i).
  unfold in_flight in *. lia.
Qed.

Lemma write_result_base ex su ro i f s : base ex su ro s -> base ex su ro (write_result i f s).
Proof.
  intros [H1 H2 H3 H4 H5]. unfold write_result. destruct (requests s !! i) as [r|] eqn:Er; [|by split].
  set (r' := mkRequest _ _ _ _ _ _ _).
  assert (forall j, <[i := r']> (requests s) !! j = if decide (j = i) then Some r' else requests s !! j) as Hl.
  { intros j. destruct (decide (j = i)) as [->|]; [apply lookup_insert_eq|by apply lookup_insert_ne]. }
  split; cbn.
  - intros j. rewrite Hl. destruct (decide (j = i)) as [->|]; [|apply H1]. specialize (H1 i). by rewrite Er in H1.
  - intros j q. rewrite Hl. destruct (decide (j = i)) as [->|]; [|apply H2]. intros [= <-]. by apply (H2 i r).
  - intros j q. rewrite Hl. destruct (decide (j = i)) as [->|]; [|apply H3]. intros [= <-]. by apply (H3 i r).
  - intros j. rewrite Hl. destruct (decide (j = i)) as [->|]; [|apply H4]. specialize (H4 i). by rewrite Er in H4.
  - intros j Hj. rewrite Hl. destruct (decide (j = i)); [done|]. by apply H5.
Qed.

(** Publish of a request in hand. *)
Lemma Publish_base ex su ro i b w s : base (i :: ex) su ro s -> base ex su ro (Publish i b w s).
Proof.
  intros [H1 H2 H3 H4 H5]. assert (exists r, requests s !! i = Some r /\ iDone r = false) as (r & Er & Ed).
  { pose proof (H1 i) as H. rewrite cnt_cons in H. destruct (Z.eq_dec i i); [|done].
    destruct (requests s !! i) as [r|] eqn:Er; [|lia]. exists r. split; [done|]. destruct (iDone r) eqn:Ed; [|done].
    apply (H2 i r Er) in Ed. apply cnt_pos in Ed. lia. }
  unfold Publish. rewrite Er, Ed. set (r' := mkRequest _ _ _ _ _ _ _).
  assert (forall j, <[i := r']> (requests s) !! j = if decide (j = i) then Some r' else requests s !! j) as Hl.
  { intros j. destruct (decide (j = i)) as [->|]; [apply lookup_insert_eq|by apply lookup_insert_ne]. }
  split; cbn.
  - intros j. rewrite Hl. specialize (H1 j). unfold in_flight in *. cbn. rewrite cnt_cons in H1. rewrite cnt_app, (cnt_cons j i []), cnt_nil.
    destruct (decide (j = i)) as [->|]; [rewrite Er in H1|]; destruct (Z.eq_dec _ _); lia || congruence.
  - intros j q. rewrite Hl, elem_of_app, list_elem_of_singleton. destruct (decide (j = i)) as [->|Hne]; [by intros [= <-]; tauto|].
    intros Eq. rewrite (H2 j q Eq). tauto.
  - intros j q. rewrite Hl. destruct (decide (j = i)) as [->|Hne]; [by intros [= <-]|apply H3].
  - intros j. rewrite Hl. specialize (H4 j). pose proof (H3 i r Er) as Hg. unfold gate_ok in Hg. unfold resumed in *.
    destruct (decide (j = i)) as [->|Hne].
    + rewrite Er, Ed, andb_false_r in H4. cbn [iDone r']. rewrite andb_true_r. case_bool_decide.
      * destruct (iGate r); [tauto|congruence|]. rewrite cnt_app, (cnt_cons i i []), cnt_nil. destruct (Z.eq_dec i i); lia || done.
      * destruct (iGate r); [lia..|done].
    + destruct (iGate r); [done..|]. rewrite cnt_app, (cnt_cons j i []), cnt_nil. destruct (Z.eq_dec i j); congruence || lia.
  - intros j Hj. rewrite Hl. destruct (decide (j = i)); [done|]. by apply H5.
Qed.

(** ** Sessions *)

(** At rest at most the current session is open; it is awaiting a response
    exactly if a request is in flight. *)
Record sess (s : client) : Prop := mkSess {
  s_all sid h : sessions s !! sid = Some h ->
    mapped h = negb (isClosed h) /\ (isClosed h = false -> m_pSession s = Some sid) /\
    (m_bActive (parser h) = true -> isClosed h = false /\ placed (parser h));
  s_current sid : m_pSession s = Some sid ->
    m_bConnected s = true /\ m_iSessionId s = sid /\
    exists h, sessions s !! sid = Some h /\ isClosed h = false /\ m_bActive (parser h) = bool_decide (is_Some (m_pFlight s));
  s_none : m_pSession s = None -> m_bConnected s = false /\ m_pFlight s = None;
  s_closed : m_bClosed s = true -> m_vQueue s = [] /\ m_pFlight s = None /\ bConnectPending s = false;
  s_pending : bConnectPending s = true -> m_bConnecting s = true /\ m_pSession s = None;
  s_connecting : m_bConnecting s = true -> m_bClosed s = false -> bConnectPending s = true \/ stopping s = true
}.

(** Nobody waits without something under way, unless the process is stopping. *)
Definition moving (s : client) : Prop :=
  m_bClosed s = false -> m_vQueue s <> [] -> m_pFlight s = None -> bConnectPending s = true \/ stopping s = true.

(** While a session is being closed. *)
Record parted (s : client) : Prop := mkParted {
  p_all sid h : sessions s !! sid = Some h -> mapped h = false /\ isClosed h = true /\ m_bActive (parser h) = false;
  p_flight : m_pFlight s = None;
  p_closed : m_bClosed s = true -> m_vQueue s = [] /\ bConnectPending s = false;
  p_pending : bConnectPending s = true -> m_bConnecting s = true;
  p_connecting : m_bConnecting s = true -> m_bClosed s = false -> bConnectPending s = true \/ stopping s = true
}.

Lemma parted_not_open s sid : parted s -> is_open sid s = false.
Proof. intros Hp. unfold is_open. destruct (sessions s !! sid) as [h|] eqn:E; [|done]. destruct (p_all _ Hp _ _ E) as (_ & -> & _). done. Qed.

Lemma parted_sess s : parted s -> m_pSession s = None -> m_bConnected s = false -> sess s.
Proof.
  intros [H1 H2 H3 H4 H5] E Eb. split; try done.
  - intros sid h Hs. destruct (H1 _ _ Hs) as (-> & -> & ->). done.
  - intros sid. by rewrite E.
  - intros Hc. destruct (H3 Hc). done.
  - intros Hb. split; [auto|done].
Qed.

Lemma set_connecting_same s : set_connecting (m_bConnecting s) (bConnectPending s) s = s.
Proof. by destruct s. Qed.

Lemma StartClient_parted s : (forall sid h, sessions s !! sid = Some h -> mapped h = false) ->
  StartClient s = set_connecting (m_bConnecting s) (bConnectPending s || negb (stopping s)) s.
Proof.
  intros Hp. unfold StartClient, StartConnect. destruct (stopping s); [by rewrite orb_false_r, set_connecting_same|]. rewrite orb_true_r. replace (existsb _ _) with false; [by rewrite andb_false_r|]. symmetry.
  destruct (existsb _ _) eqn:E; [|done]. apply existsb_exists in E as ([sid h] & Hin & Hm).
  apply list_elem_of_In, elem_of_map_to_list in Hin. pose proof (Hp _ _ Hin). cbn in Hm. congruence.
Qed.

(** Unfolds the call at hand. *)
Ltac one_turn := cbn [turn]; unfold on_Pump, on_CloseSession, on_SessionClosed, on_FinishEof, on_HttpFinished; cbn beta iota zeta.

Lemma exec_S n a s : exec (S n) a s = turn (exec n) a s.
Proof. done. Qed.

Lemma Pump_parted n ex su ro s : parted s -> base ex su ro s -> m_bClosed s = false -> exists s', exec (S n) Pump s = Ok s' /\
  parted s' /\ base ex su ro s' /\ moving s' /\ m_pSession s' = m_pSession s /\ m_bConnected s' = m_bConnected s /\ m_bClosed s' = false.
Proof.
  intros Hp Hb Hc. rewrite exec_S. one_turn. rewrite (p_flight _ Hp). destruct (m_vQueue s) as [|i q] eqn:Eq.
  { exists s. split_and!; try done. intros _ H. by rewrite Eq in H. }
  rewrite Hc. assert (exists s', (if m_bConnecting s then Ok s else Ok (BeginConnect (set_connecting true (bConnectPending s) s))) = Ok s' /\
    parted s' /\ base ex su ro s' /\ moving s' /\ m_pSession s' = m_pSession s /\ m_bConnected s' = m_bConnected s /\ m_bClosed s' = false) as Hr.
  { destruct (m_bConnecting s) eqn:Ec.
    - exists s. split_and!; try done. intros _ _ _. by apply Hp.
    - eexists. split; [done|]. unfold BeginConnect. destruct Hp as [H1 H2 H3 H4 H5].
      rewrite StartClient_parted by (intros sid h Hs; by destruct (H1 _ _ Hs)).
      cbn [bConnectPending set_connecting stopping]. assert (bConnectPending s || negb (stopping s) = true \/ stopping s = true) as Hmv by (destruct (bConnectPending s), (stopping s); auto).
      split_and!; try done; [split; cbn; try done; congruence|by eapply base_same; [..|exact Hb]|by intros _ _ _]. }
  destruct (m_pSession s) as [sid|]; [|exact Hr]. rewrite (parted_not_open _ _ Hp), andb_false_r. exact Hr.
Qed.

Lemma set_requests_same s : set_requests (requests s) (scheduled s) (published s) s = s.
Proof. by destruct s. Qed.

(** Publish and the writing of a result touch the requests only. *)
Lemma Publish_shape i b w s : exists m sch pub, Publish i b w s = set_requests m sch pub s.
Proof.
  unfold Publish. destruct (requests s !! i) as [r|]; [destruct (iDone r)|]; [|by do 3 eexists|];
    exists (requests s), (scheduled s), (published s); by rewrite set_requests_same.
Qed.

Lemma write_result_shape i f s : exists m sch pub, write_result i f s = set_requests m sch pub s.
Proof.
  unfold write_result. destruct (requests s !! i) as [r|]; [by do 3 eexists|].
  exists (requests s), (scheduled s), (published s). by rewrite set_requests_same.
Qed.

Lemma parted_requests m sch pub s : parted s -> parted (set_requests m sch pub s).
Proof. intros [H1 H2 H3 H4 H5]. by split. Qed.

Lemma sess_requests m sch pub s : sess s -> sess (set_requests m sch pub s).
Proof. intros [H1 H2 H3 H4 H5 H6]. by split. Qed.

Lemma moving_requests m sch pub s : moving s -> moving (set_requests m sch pub s).
Proof. done. Qed.

(** *** The parser *)

Lemma FinishEof_inactive p : m_bActive p = false -> Http.FinishEof p = Ok (p, None).
Proof. intros H. unfold Http.FinishEof. by rewrite H. Qed.

Lemma reported_some r : reported r -> exists p f, r = (p, Some f) /\ m_bActive p = false.
Proof. destruct r as [p f]. intros [[f' E] H]. cbn in *. subst f. by exists p, f'. Qed.

Lemma FinishEof_active p : m_bActive p = true -> placed p ->
  exists p' f, Http.FinishEof p = Ok (p', Some f) /\ m_bActive p' = false.
Proof.
  intros Ha Hp. unfold Http.FinishEof. rewrite Ha. cbn [negb].
  destruct (Consume_ok p Hp) as (r & -> & Hr). cbn [rbind]. destruct r as [s|r].
  - destruct Hr as [_ Hs]. rewrite Ha in Hs. destruct (_ || _).
    + destruct (reported_some _ (Fail_reported (txt "eof") s Hs)) as (p' & f & -> & ?). by exists p', f.
    + match goal with |- context [Succeed ?n ?t] => destruct (reported_some _ (Succeed_reported n t Hs)) as (p' & f & -> & ?) end.
      by exists p', f.
  - destruct (reported_some _ (Hr Ha)) as (p' & f & -> & ?). by exists p', f.
Qed.

Lemma OnDataIn_inactive l p : m_bActive p = false -> Http.OnDataIn l p = Ok (p, None, 0 <? lenZ l).
Proof. intros H. unfold Http.OnDataIn. by rewrite H. Qed.

Lemma OnDataIn_some l p : m_bActive p = true -> placed p ->
  (exists p' f, Http.OnDataIn l p = Ok (p', Some f, false) /\ m_bActive p' = false) \/
  (exists p', Http.OnDataIn l p = Ok (p', None, false) /\ m_bActive p' = true /\ placed p').
Proof.
  intros Ha Hp. unfold Http.OnDataIn. rewrite Ha. cbn [negb]. destruct (_ <? _).
  { destruct (reported_some _ (Fail_reported (txt "size") p Ha)) as (p' & f & -> & ?). left. by exists p', f. }
  destruct (Consume_ok (ext l p) (placed_ext l p Hp)) as (r & Er & Hr). change (set_incoming (m_sIncoming p ++ l) p) with (ext l p).
  rewrite Er. cbn [rbind]. destruct r as [s|r].
  - right. exists s. destruct Hr as [? Hs]. split; [done|]. split; [|done]. rewrite Hs. exact Ha.
  - left. destruct (reported_some _ (Hr Ha)) as (p' & f & -> & ?). by exists p', f.
Qed.

(** *** Closing the current session *)

Lemma part_sessions s sid h p : sess s -> sessions s !! sid = Some h -> isClosed h = false -> m_bActive p = false ->
  forall sid' h', <[sid := mkConnection false true p]> (sessions s) !! sid' = Some h' ->
    mapped h' = false /\ isClosed h' = true /\ m_bActive (parser h') = false.
Proof.
  intros Hs Hl Ho Hp sid' h'. destruct (decide (sid' = sid)) as [->|Hne].
  - rewrite lookup_insert_eq. by intros [= <-].
  - rewrite lookup_insert_ne by done. intros Hl'. destruct (s_all _ Hs _ _ Hl) as (_ & Hc & _). specialize (Hc Ho).
    destruct (s_all _ Hs _ _ Hl') as (Hm & Hc' & Ha). destruct (isClosed h') eqn:E.
    + split_and!; [by rewrite Hm|done|]. destruct (m_bActive (parser h')); [by destruct (Ha eq_refl)|done].
    + specialize (Hc' eq_refl). congruence.
Qed.

Lemma close_tail n ex su ro s : parted s -> base ex su ro s -> exists s',
  (let! s0 := Ok (set_session None INVALID_SID false s) in if m_bClosed s0 then Ok s0 else exec (S n) Pump s0) = Ok s' /\
  base ex su ro s' /\ sess s' /\ moving s' /\ m_pSession s' = None /\ m_bClosed s' = m_bClosed s.
Proof.
  intros Hp Hb. cbn [rbind]. set (s0 := set_session None INVALID_SID false s).
  assert (parted s0) as Hp0 by (destruct Hp; by split). assert (base ex su ro s0) as Hb0 by (by eapply base_same; [..|exact Hb]).
  destruct (m_bClosed s0) eqn:Ec.
  - exists s0. split_and!; try done; [by apply parted_sess|]. intros H. congruence.
  - destruct (Pump_parted n ex su ro s0 Hp0 Hb0 Ec) as (s' & E & Hp' & Hb' & Hm & Es & Eb & Ec'). exists s'.
    split_and!; try done; [by apply parted_sess|]. change (m_bClosed s0) with (m_bClosed s) in Ec. congruence.
Qed.

Lemma CloseSession_ok n ex su ro s sid h : base ex su ro s -> sess s -> sessions s !! sid = Some h -> isClosed h = false ->
  exists s', exec (5 + n) (CloseSession sid) s = Ok s' /\ base ex su ro s' /\ sess s' /\ moving s' /\
    m_pSession s' = None /\ m_bClosed s' = m_bClosed s.
Proof.
  intros Hb Hs Hl Ho. destruct (s_all _ Hs _ _ Hl) as (Hm & Hcur & Hact). specialize (Hcur Ho). rewrite Ho in Hm.
  destruct (s_current _ Hs _ Hcur) as (Hcn & Hid & h' & Hl' & _ & Hfl). rewrite Hl in Hl'. injection Hl' as <-.
  change (5 + n)%nat with (S (S (S (S (S n))))). rewrite exec_S. one_turn. rewrite Hl, Hm. cbn [negb].
  set (s1 := set_sessions _ s). rewrite exec_S. one_turn. change (m_pSession s1) with (m_pSession s). rewrite Hcur, decide_True by done.
  rewrite (exec_S _ (FinishEof sid)). one_turn.
  change (sessions s1) with (<[sid := mkConnection false true (parser h)]> (sessions s)). rewrite lookup_insert_eq. cbn [parser].
  destruct (m_bActive (parser h)) eqn:Ea.
  - destruct (FinishEof_active (parser h) Ea) as (p' & f & Ef & Hp'); [by apply Hact|]. rewrite Ef. cbn [rbind].
    set (s2 := update_parser sid p' s1).
    assert (s2 = set_sessions (<[sid := mkConnection false true p']> (sessions s)) s) as E2.
    { unfold s2, update_parser, s1. cbn. rewrite lookup_insert_eq. cbn. unfold set_sessions. cbn. by rewrite insert_insert_eq. }
    rewrite E2. clearbody s2. clear E2 s1. rewrite exec_S. one_turn. cbn [m_pFlight m_pSession set_sessions].
    symmetry in Hfl. apply bool_decide_eq_true in Hfl as [i Hi]. rewrite Hi, Hcur, decide_True by done.
    set (s2' := set_flight None _). destruct (write_result_shape i f s2') as (m1 & a1 & b1 & E1).
    assert (base (i :: ex) su ro (write_result i f s2')) as Hb1.
    { apply write_result_base. apply (base_same (i :: ex) su ro (set_flight None (set_queue (m_vQueue s) s))); try done.
      apply (base_move ex); [|done]. intros j. unfold in_flight. rewrite Hi. simpl option_list. rewrite !(cnt_cons j i), !cnt_nil. lia. }
    destruct (Publish_shape i (f_bFail f) (f_pWhy f) (write_result i f s2')) as (m2 & a2 & b2 & E3).
    apply (Publish_base ex su ro i (f_bFail f) (f_pWhy f)) in Hb1.
    assert (parted s2') as Hp2.
    { destruct Hs as [K1 K2 K3 K4 K5 K6]. split; cbn; try done.
      - intros sid' h'. apply (part_sessions s sid h p'); [by split|done..].
      - intros Hc. destruct (K4 Hc) as (? & ? & ?). done.
      - intros Hc. by destruct (K5 Hc). }
    assert (m_bClosed s = false) as Hcl.
    { destruct (m_bClosed s) eqn:Ec; [|done]. destruct (s_closed _ Hs Ec) as (_ & ? & _). congruence. }
    rewrite E1 in E3, Hb1 |- *. rewrite E3 in Hb1 |- *. cbn [m_pSession set_requests set_flight set_sessions s2'].
    set (s3 := set_requests m2 a2 b2 _) in *. assert (parted s3) as Hp3 by (by apply parted_requests, parted_requests).
    rewrite (parted_not_open _ sid Hp3), andb_false_r. change (m_bClosed s3) with (m_bClosed s). rewrite Hcl.
    destruct (Pump_parted n ex su ro s3 Hp3 Hb1 Hcl) as (s4 & E4 & Hp4 & Hb4 & _ & Es4 & _ & Ec4). rewrite E4. cbn [rbind].
    assert (m_pSession s4 = Some sid) as -> by (rewrite Es4; exact Hcur). rewrite decide_True by done.
    destruct (close_tail (S (S n)) ex su ro s4 Hp4 Hb4) as (s5 & E5 & Hr). exists s5. split; [exact E5|]. rewrite Ec4 in Hr. exact Hr.
  - rewrite (FinishEof_inactive _ Ea). cbn [rbind]. set (s2 := update_parser sid (parser h) s1).
    assert (s2 = set_sessions (<[sid := mkConnection false true (parser h)]> (sessions s)) s) as E2.
    { unfold s2, update_parser, s1. cbn. rewrite lookup_insert_eq. cbn. unfold set_sessions. cbn. by rewrite insert_insert_eq. }
    clearbody s2. subst s2. cbn [m_pSession set_sessions]. rewrite Hcur, decide_True by done.
    symmetry in Hfl. apply bool_decide_eq_false in Hfl.
    assert (m_pFlight s = None) as Hn by (destruct (m_pFlight s); [by destruct Hfl|done]).
    apply (close_tail (S (S n)) ex su ro (set_sessions (<[sid := mkConnection false true (parser h)]> (sessions s)) s)).
    + destruct Hs as [K1 K2 K3 K4 K5 K6]. split; cbn; try done.
      * intros sid' h'. apply (part_sessions s sid h (parser h)); [by split|done..].
      * intros Hc. destruct (K4 Hc) as (? & ? & ?). done.
      * intros Hc. by destruct (K5 Hc).
    + by eapply base_same; [..|exact Hb].
Qed.

(** *** Pump and OnHttpFinished *)

Definition fine (ex su ro : list Z) (s : client) : Prop := base ex su ro s /\ sess s /\ moving s.

(** The parser of the current session and the flight change together. *)
Lemma sess_current s sid h p f :
  sess s -> m_pSession s = Some sid -> sessions s !! sid = Some h -> isClosed h = false -> m_bClosed s = false ->
  m_bActive p = bool_decide (is_Some f) -> (m_bActive p = true -> placed p) ->
  sess (set_flight f (set_sessions (<[sid := mkConnection (mapped h) false p]> (sessions s)) s)).
Proof.
  intros Hs Hcur Hl Ho Hc Hp Hpl. destruct (s_all _ Hs _ _ Hl) as (Hm & _ & _). rewrite Ho in Hm.
  destruct (s_current _ Hs _ Hcur) as (Hcn & Hid & _). destruct Hs as [K1 K2 K3 K4 K5 K6]. split; cbn; try done.
  - intros sid' h'. destruct (decide (sid' = sid)) as [->|Hne].
    + rewrite lookup_insert_eq. intros [= <-]. cbn. rewrite Hm. split_and!; [done|done|]. intros Ha. split; [done|by apply Hpl].
    + rewrite lookup_insert_ne by done. apply K1.
  - intros sid' E. rewrite Hcur in E. injection E as <-. split_and!; [done|done|]. rewrite lookup_insert_eq. by eexists.
  - congruence.
  - congruence.
Qed.

(** Likewise with the current session at rest, even in a client that is closed. *)
Lemma sess_rest s sid h p :
  sess s -> m_pSession s = Some sid -> sessions s !! sid = Some h -> isClosed h = false -> m_bActive p = false ->
  sess (set_flight None (set_sessions (<[sid := mkConnection (mapped h) false p]> (sessions s)) s)).
Proof.
  intros Hs Hcur Hl Ho Hp. destruct (s_all _ Hs _ _ Hl) as (Hm & _ & _). rewrite Ho in Hm.
  destruct (s_current _ Hs _ Hcur) as (Hcn & Hid & _). destruct Hs as [K1 K2 K3 K4 K5 K6]. split; cbn; try done.
  - intros sid' h'. destruct (decide (sid' = sid)) as [->|Hne].
    + rewrite lookup_insert_eq. intros [= <-]. cbn. rewrite Hm, Hp. done.
    + rewrite lookup_insert_ne by done. apply K1.
  - intros sid' E. rewrite Hcur in E. injection E as <-. split_and!; [done|done|]. rewrite lookup_insert_eq. by eexists.
  - congruence.
  - intros Hc. destruct (K4 Hc) as (? & _ & ?). done.
Qed.

Lemma sess_sent l o s : sess s -> sess (set_sent l o s).
Proof. intros [H1 H2 H3 H4 H5 H6]. by split. Qed.

Lemma base_sent ex su ro l o s : base ex su ro s -> base ex su ro (set_sent l o s).
Proof. intros H. by eapply base_same; [..|exact H]. Qed.

Lemma update_parser_eq sid h p s : sessions s !! sid = Some h ->
  update_parser sid p s = set_sessions (<[sid := mkConnection (mapped h) (isClosed h) p]> (sessions s)) s.
Proof. unfold update_parser. by intros ->. Qed.

Lemma abandon_eq sid h s : sessions s !! sid = Some h ->
  abandon sid s = set_sessions (<[sid := mkConnection (mapped h) (isClosed h) (Abandon (parser h))]> (sessions s)) s.
Proof. intros E. unfold abandon. rewrite E. by apply update_parser_eq. Qed.

Lemma is_open_eq sid h s : sessions s !! sid = Some h -> is_open sid s = negb (isClosed h).
Proof. unfold is_open. by intros ->. Qed.

Lemma no_mapped s : sess s -> m_pSession s = None -> forall sid h, sessions s !! sid = Some h -> mapped h = false.
Proof.
  intros Hs Hn sid h Hl. destruct (s_all _ Hs _ _ Hl) as (-> & Hc & _). destruct (isClosed h); [done|]. specialize (Hc eq_refl). congruence.
Qed.

Lemma Pump_ok n ex su ro s : base ex su ro s -> sess s ->
  exists s', exec (6 + n) Pump s = Ok s' /\ fine ex su ro s' /\ m_bClosed s' = m_bClosed s.
Proof.
  intros Hb Hs. change (6 + n)%nat with (S (5 + n)). rewrite exec_S. one_turn.
  destruct (m_pFlight s) as [j|] eqn:Ef; [exists s; unfold fine, moving; split_and!; try done; congruence|].
  destruct (m_vQueue s) as [|i q] eqn:Eq; [exists s; unfold fine, moving; split_and!; try done; congruence|].
  destruct (m_bClosed s) eqn:Ec; [exists s; unfold fine, moving; split_and!; try done; congruence|].
  destruct (m_pSession s) as [sid|] eqn:Ecur.
  - destruct (s_current _ Hs _ Ecur) as (Hcn & Hid & h & Hl & Ho & _). rewrite Hcn, (is_open_eq _ _ _ Hl), Ho. cbn [negb andb].
    set (s1 := set_flight (Some i) (set_queue q s)). assert (sessions s1 !! sid = Some h) as Hl1 by done.
    assert (base ex su ro s1) as Hb1.
    { apply (base_move ex); [|done]. intros j. unfold in_flight. rewrite Ef, Eq. simpl option_list. rewrite !cnt_cons, !cnt_nil. lia. }
    rewrite (update_parser_eq _ _ _ _ Hl1), Ho. set (s2 := set_sessions _ s1).
    assert (sess s2) as Hs2.
    { assert (sess (set_queue q s)) as Hq.
      { destruct Hs as [K1 K2 K3 K4 K5 K6]. split; cbn; try done. congruence. }
      apply (sess_current _ sid h BeginResponse (Some i) Hq); done. }
    assert (base ex su ro s2) as Hb2 by (by eapply base_same; [..|exact Hb1]).
    assert (sessions s2 !! sid = Some (mkConnection (mapped h) false BeginResponse)) as Hl2 by (cbn; apply lookup_insert_eq).
    assert (m_iSessionId s2 = sid) as Hid2 by done.
    unfold SendBytes. rewrite Hid2, (is_open_eq _ _ _ Hl2). cbn [negb isClosed andb].
    destruct (hd true (sends s2)).
    { eexists. split; [done|]. split; [|done]. unfold fine. split_and!; [by apply base_sent|by apply sess_sent|]. intros _ _ H. done. }
    set (s3 := set_sent (sent s2) (tl (sends s2)) s2). assert (sessions (set_flight None s3) !! sid = Some (mkConnection (mapped h) false BeginResponse)) as Hl3 by done.
    rewrite (abandon_eq _ _ _ Hl3). cbn [mapped isClosed parser].
    set (s4 := set_sessions _ (set_flight None s3)).
    assert (sess s4) as Hs4.
    { apply (sess_rest s3 sid (mkConnection (mapped h) false BeginResponse) (Abandon BeginResponse)); try done. by apply sess_sent. }
    assert (base (i :: ex) su ro s4) as Hb4.
    { apply (base_same (i :: ex) su ro (set_flight None (set_queue (m_vQueue s2) s2))); try done.
      apply (base_move ex); [|done]. intros j. unfold in_flight. cbn. rewrite !cnt_cons, !cnt_nil. lia. }
    apply (Publish_base ex su ro i true (txt "send")) in Hb4.
    destruct (Publish_shape i true (txt "send") s4) as (m & a & b & E4). rewrite E4 in Hb4 |- *.
    set (s5 := set_requests m a b s4) in *.
    assert (sessions s5 !! sid = Some (mkConnection (mapped h) false (Abandon BeginResponse))) as Hl5 by (cbn; apply lookup_insert_eq).
    rewrite (is_open_eq _ _ _ Hl5). cbn [isClosed negb]. change (m_iSessionId s5) with (m_iSessionId s). rewrite Hid.
    destruct (CloseSession_ok n ex su ro s5 sid _ Hb4 (sess_requests _ _ _ _ Hs4) Hl5 eq_refl) as (s6 & E6 & Hb6 & Hs6 & Hm6 & _ & Hc6).
    exists s6. split; [exact E6|]. split; [done|]. rewrite Hc6. exact Ec.
  - destruct (m_bConnecting s) eqn:Ecn.
    + exists s. split; [done|]. split; [|done]. unfold fine. split_and!; [done|done|]. intros _ _ _. by apply Hs.
    + eexists. split; [done|]. unfold BeginConnect. rewrite StartClient_parted by (by apply (no_mapped s)). cbn.
      assert (bConnectPending s || negb (stopping s) = true \/ stopping s = true) as Hmv by (destruct (bConnectPending s), (stopping s); auto).
      split; [|done]. unfold fine. split_and!; [by eapply base_same; [..|exact Hb]| |by intros _ _ _].
      destruct Hs as [K1 K2 K3 K4 K5 K6]. split; cbn; try done; congruence.
Qed.

(** The parser has come to a result: its session is at rest, the flight not yet
    over. *)
Lemma OnHttpFinished_ok ex su ro s sid h f i :
  base ex su ro s -> sess (set_flight None s) -> m_pFlight s = Some i -> m_pSession s = Some sid -> m_bClosed s = false ->
  sessions s !! sid = Some h -> isClosed h = false ->
  exists s', call (OnHttpFinished sid f) s = Ok s' /\ fine ex su ro s'.
Proof.
  intros Hb Hs Hf Hcur Hc Hl Ho. unfold call, depth. rewrite exec_S. one_turn. rewrite Hf, Hcur, decide_True by done.
  set (s0 := set_flight None s). assert (base (i :: ex) su ro (write_result i f s0)) as Hb1.
  { apply write_result_base. apply (base_same (i :: ex) su ro (set_flight None (set_queue (m_vQueue s) s))); try done.
    apply (base_move ex); [|done]. intros j. unfold in_flight. rewrite Hf. simpl option_list. rewrite !cnt_cons, !cnt_nil. lia. }
  destruct (write_result_shape i f s0) as (m1 & a1 & b1 & E1).
  destruct (Publish_shape i (f_bFail f) (f_pWhy f) (write_result i f s0)) as (m2 & a2 & b2 & E2).
  apply (Publish_base ex su ro i (f_bFail f) (f_pWhy f)) in Hb1. rewrite E1 in E2, Hb1 |- *. rewrite E2 in Hb1 |- *.
  set (s1 := set_requests m2 a2 b2 (set_requests m1 a1 b1 s0)) in *.
  assert (sess s1) as Hs1 by (by apply sess_requests, sess_requests).
  assert (sessions s1 !! sid = Some h) as Hl1 by done.
  change (m_pSession s1) with (m_pSession s). change (m_bClosed s1) with (m_bClosed s).
  rewrite Hcur, bool_decide_true by done. rewrite (is_open_eq _ _ _ Hl1), Ho, Hc. cbn [negb].
  destruct (f_bFail f || f_bClose f || negb m_bReuse); cbn [andb].
  - rewrite (abandon_eq _ _ _ Hl1), Ho. set (s2 := set_sessions _ s1).
    assert (sess s2) as Hs2.
    { assert (s2 = set_flight None (set_sessions (<[sid := mkConnection (mapped h) false (Abandon (parser h))]> (sessions s1)) s1)) as -> by done.
      by apply sess_rest. }
    destruct (CloseSession_ok 2 ex su ro s2 sid (mkConnection (mapped h) false (Abandon (parser h)))) as (s3 & E3 & Hb3 & Hs3 & Hm3 & _).
    + by eapply base_same; [..|exact Hb1].
    + done.
    + cbn. apply lookup_insert_eq.
    + done.
    + exists s3. done.
  - destruct (Pump_ok 1 ex su ro s1 Hb1 Hs1) as (s2 & E2' & Hfine & _). exists s2. done.
Qed.

(** *** Events *)

Lemma fine_sent ex su ro l o s : fine ex su ro s -> fine ex su ro (set_sent l o s).
Proof. intros (Hb & Hs & Hm). split_and!; [by apply base_sent|by apply sess_sent|done]. Qed.

(** Publishing a request in hand disturbs nothing. *)
Lemma Publish_fine ex su ro i b w s : base (i :: ex) su ro s -> sess s -> moving s -> fine ex su ro (Publish i b w s).
Proof.
  intros Hb Hs Hm. unfold fine. split; [by apply Publish_base|]. destruct (Publish_shape i b w s) as (m & x & y & ->).
  split; [by apply sess_requests|by apply moving_requests].
Qed.

Lemma base_take ex su ro i q s : (forall j, cnt j (i :: q) = cnt j (m_vQueue s)) -> base ex su ro s -> base (i :: ex) su ro (set_queue q s).
Proof.
  intros Hq Hb. apply (base_same (i :: ex) su ro (set_flight (m_pFlight s) (set_queue q s))); try done.
  apply (base_move ex); [|done]. intros j. specialize (Hq j). rewrite cnt_cons in Hq |- *. unfold in_flight. lia.
Qed.

Lemma EnqueueOnLoop_ok ex su ro i s : base (i :: ex) su ro s -> sess s -> moving s ->
  exists s', EnqueueOnLoop i s = Ok s' /\ fine ex su ro s'.
Proof.
  intros Hb Hs Hm. unfold EnqueueOnLoop. destruct (m_bClosed s) eqn:Ec; [eexists; split; [done|by apply Publish_fine]|].
  destruct bad_host; [eexists; split; [done|by apply Publish_fine]|].
  destruct (Pump_ok 2 ex su ro (set_queue (m_vQueue s ++ [i]) s)) as (s' & E & Hf & _).
  - apply (base_same ex su ro (set_flight (m_pFlight s) (set_queue (m_vQueue s ++ [i]) s))); try done.
    apply (base_move (i :: ex)); [|done]. intros j. rewrite cnt_app, !cnt_cons, cnt_nil. unfold in_flight. lia.
  - destruct Hs as [K1 K2 K3 K4 K5 K6]. split; cbn; try done. congruence.
  - exists s'. done.
Qed.

Lemma cnt_erase i l : i ∈ l -> forall j, cnt j (i :: erase_first i l) = cnt j l.
Proof.
  induction l as [|x l IH]; intros Hi j; [by apply not_elem_of_nil in Hi|]. cbn [erase_first].
  destruct (Z.eqb_spec x i) as [->|Hne]; [done|]. apply elem_of_cons in Hi as [->|Hi]; [done|].
  specialize (IH Hi j). rewrite !cnt_cons in *. lia.
Qed.

Lemma OnTimeout_ok ex su ro i s : fine ex su ro s -> exists s', OnTimeout i s = Ok s' /\ fine ex su ro s'.
Proof.
  intros (Hb & Hs & Hm). unfold OnTimeout. destruct (requests s !! i) as [r|]; [|by eexists].
  destruct (iDone r); [by eexists|]. destruct (decide (m_pFlight s = Some i)) as [Ef|_].
  - destruct (m_pSession s) as [sid|] eqn:Ecur; [|by destruct (s_none _ Hs Ecur); congruence].
    destruct (s_current _ Hs _ Ecur) as (_ & Hid & h & Hl & Ho & _).
    rewrite (abandon_eq _ _ _ Hl), Ho. set (s1 := set_flight None _).
    assert (sess s1) as Hs1 by (by apply sess_rest).
    assert (base (i :: ex) su ro s1) as Hb1.
    { apply (base_same (i :: ex) su ro (set_flight None (set_queue (m_vQueue s) s))); try done.
      apply (base_move ex); [|done]. intros j. unfold in_flight. rewrite Ef. simpl option_list. rewrite !cnt_cons, !cnt_nil. lia. }
    apply (Publish_base ex su ro i true (txt "timeout")) in Hb1.
    destruct (Publish_shape i true (txt "timeout") s1) as (m & a & b & E). rewrite E in Hb1 |- *.
    set (s2 := set_requests m a b s1) in *. change (m_pSession s2) with (m_pSession s). rewrite Ecur.
    assert (sessions s2 !! sid = Some (mkConnection (mapped h) false (Abandon (parser h)))) as Hl2 by (cbn; apply lookup_insert_eq).
    rewrite (is_open_eq _ _ _ Hl2). cbn [isClosed negb]. change (m_iSessionId s2) with (m_iSessionId s). rewrite Hid.
    destruct (CloseSession_ok 3 ex su ro s2 sid _ Hb1 (sess_requests _ _ _ _ Hs1) Hl2 eq_refl) as (s3 & E3 & Hb3 & Hs3 & Hm3 & _).
    exists s3. done.
  - destruct (decide (i ∈ m_vQueue s)) as [Hi|]; [|by eexists]. eexists. split; [done|]. apply Publish_fine.
    + apply base_take; [by apply cnt_erase|done].
    + destruct Hs as [K1 K2 K3 K4 K5 K6]. split; cbn; try done. intros Hc. destruct (K4 Hc) as (E & ? & ?). by rewrite E.
    + intros Hc Hq Hf. apply Hm; [done| |done]. intros E. apply Hq. cbn. by rewrite E.
Qed.

Lemma OnDataIn_ok ex su ro sid l s : fine ex su ro s -> is_open sid s = true -> exists s', OnDataIn sid l s = Ok s' /\ fine ex su ro s'.
Proof.
  intros (Hb & Hs & Hm) Hopen. unfold OnDataIn, is_open in *. destruct (sessions s !! sid) as [h|] eqn:Hl; [|done].
  apply negb_true_iff in Hopen. destruct (s_all _ Hs _ _ Hl) as (Hmp & Hcur & Hact). specialize (Hcur Hopen).
  destruct (s_current _ Hs _ Hcur) as (Hcn & Hid & h' & Hl' & _ & Hfl). rewrite Hl in Hl'. injection Hl' as <-.
  assert (forall s', fine ex su ro s' -> forall r, Ok s' = r -> exists s'', r = Ok s'' /\ fine ex su ro s'') as Hok by (intros s' H r <-; by eexists).
  destruct (m_bActive (parser h)) eqn:Ea.
  - assert (exists i, m_pFlight s = Some i) as [i Hi] by (symmetry in Hfl; by apply bool_decide_eq_true in Hfl).
    assert (m_bClosed s = false) as Hc by (destruct (m_bClosed s) eqn:Ec; [destruct (s_closed _ Hs Ec) as (_ & ? & _); congruence|done]).
    destruct (OnDataIn_some l (parser h) Ea (proj2 (Hact eq_refl))) as [(p' & f & -> & Hp')|(p' & -> & Hp' & Hpl)]; cbn [rbind];
      rewrite (update_parser_eq _ _ _ _ Hl), Hopen; set (s1 := set_sessions _ s).
    + apply (OnHttpFinished_ok ex su ro s1 sid (mkConnection (mapped h) false p') f i); try done.
      * by eapply base_same; [..|exact Hb].
      * by apply sess_rest.
      * cbn. apply lookup_insert_eq.
    + cbn [andb]. exists s1. split; [done|]. split_and!; [by eapply base_same; [..|exact Hb]| |done].
      assert (s1 = set_flight (Some i) s1) as -> by (unfold s1, set_flight, set_sessions; cbn; by rewrite Hi).
      by apply sess_current.
  - rewrite (OnDataIn_inactive _ _ Ea). cbn [rbind]. rewrite (update_parser_eq _ _ _ _ Hl), Hopen.
    assert (m_pFlight s = None) as Hn by (symmetry in Hfl; apply bool_decide_eq_false in Hfl; destruct (m_pFlight s); [by destruct Hfl|done]).
    set (s1 := set_sessions _ s).
    assert (base ex su ro s1) as Hb1 by (by eapply base_same; [..|exact Hb]).
    assert (sess s1) as Hs1.
    { assert (s1 = set_flight None s1) as -> by (unfold s1, set_flight, set_sessions; cbn; by rewrite Hn). by apply sess_rest. }
    assert (sessions s1 !! sid = Some (mkConnection (mapped h) false (parser h))) as Hl1 by (cbn; apply lookup_insert_eq).
    destruct (_ && _ && _).
    + destruct (CloseSession_ok 3 ex su ro s1 sid _ Hb1 Hs1 Hl1 eq_refl) as (s2 & E2 & Hb2 & Hs2 & Hm2 & _). exists s2. done.
    + exists s1. split; [done|]. split_and!; done.
Qed.

Lemma PassiveClose_ok ex su ro sid s : fine ex su ro s -> is_open sid s = true -> exists s', PassiveClose sid s = Ok s' /\ fine ex su ro s'.
Proof.
  intros (Hb & Hs & Hm) Hopen. unfold PassiveClose, is_open in *. destruct (sessions s !! sid) as [h|] eqn:Hl; [|done].
  apply negb_true_iff in Hopen. destruct (s_all _ Hs _ _ Hl) as (Hmp & _ & _). rewrite Hopen in Hmp. cbn in Hmp.
  destruct (CloseSession_ok 3 ex su ro s sid h Hb Hs Hl Hopen) as (s2 & E2 & Hb2 & Hs2 & Hm2 & _). exists s2. split; [|done].
  unfold call, depth. rewrite <- E2. change (5 + 3)%nat with 8%nat. rewrite (exec_S 7 _ s), exec_S. one_turn.
  rewrite Hl. cbn [sessions set_sessions]. rewrite lookup_insert_eq. cbn [mapped parser]. rewrite Hmp. f_equal.
  unfold set_sessions. cbn. by rewrite insert_insert_eq.
Qed.

Lemma Connected_ok ex su ro sid s : fine ex su ro s -> bConnectPending s = true ->
  exists s', OnAddSession sid (set_sessions (<[sid := mkConnection true false new_session]> (sessions s)) (set_connecting (m_bConnecting s) false s)) = Ok s' /\
    fine ex su ro s'.
Proof.
  intros (Hb & Hs & Hm) Hp. destruct (s_pending _ Hs Hp) as [Hcn Hcur]. destruct (s_none _ Hs Hcur) as [_ Hf].
  assert (m_bClosed s = false) as Hc by (destruct (m_bClosed s) eqn:Ec; [destruct (s_closed _ Hs Ec) as (_ & _ & ?); congruence|done]).
  unfold OnAddSession. cbn [m_bClosed set_connecting set_session set_sessions]. rewrite Hc.
  match goal with |- context [call Pump ?t] => set (s1 := t) end.
  destruct (Pump_ok 2 ex su ro s1) as (s2 & E & Hfine & _); [by eapply base_same; [..|exact Hb]| |by exists s2].
  pose proof (no_mapped s Hs Hcur) as Hnm. destruct Hs as [K1 K2 K3 K4 K5 K6]. split; cbn; try done; try congruence.
  - intros sid' h. destruct (decide (sid' = sid)) as [->|Hne]; [rewrite lookup_insert_eq; by intros [= <-]|].
    rewrite lookup_insert_ne by done. intros Hl. destruct (K1 _ _ Hl) as (Hm1 & Hc1 & Ha1). rewrite (Hnm _ _ Hl) in Hm1.
    split_and!; [by rewrite (Hnm _ _ Hl)| |done]. intros Ho. by rewrite Ho in Hm1.
  - intros sid' [= <-]. split_and!; [done|done|]. rewrite lookup_insert_eq. eexists. split_and!; [done..|]. by rewrite Hf.
Qed.

Lemma ConnectFails_ok ex su ro s : fine ex su ro s -> bConnectPending s = true ->
  exists s', OnConnectFailed (set_connecting (m_bConnecting s) false s) = Ok s' /\ fine ex su ro s'.
Proof.
  intros (Hb & Hs & Hm) Hp. destruct (s_pending _ Hs Hp) as [Hcn Hcur]. destruct (s_none _ Hs Hcur) as [_ Hf].
  assert (m_bClosed s = false) as Hc by (destruct (m_bClosed s) eqn:Ec; [destruct (s_closed _ Hs Ec) as (_ & _ & ?); congruence|done]).
  unfold OnConnectFailed. cbn [m_bClosed set_connecting set_session]. rewrite Hc.
  match goal with |- context [FailFront _ ?t] => set (s1 := t) end.
  assert (sess s1) as Hs1.
  { pose proof (no_mapped s Hs Hcur) as Hnm. destruct Hs as [K1 K2 K3 K4 K5 K6]. split; cbn; try done; try congruence.
    intros sid h Hl. destruct (K1 _ _ Hl) as (Hm1 & Hc1 & Ha1). split_and!; [done| |done]. intros Ho. rewrite (Hnm _ _ Hl) in Hm1. by rewrite Ho in Hm1. }
  assert (base ex su ro s1) as Hb1 by (by eapply base_same; [..|exact Hb]).
  unfold FailFront. destruct (m_vQueue s1) as [|i q] eqn:Eq.
  - destruct (Pump_ok 2 ex su ro s1 Hb1 Hs1) as (s2 & E & Hfine & _). by exists s2.
  - set (s2 := set_queue q s1). assert (base ex su ro (Publish i true (txt "connect") s2)) as Hb2.
    { apply Publish_base, base_take; [|done]. intros j. by rewrite Eq. }
    destruct (Publish_shape i true (txt "connect") s2) as (m & a & b & E2). rewrite E2 in Hb2 |- *.
    destruct (Pump_ok 2 ex su ro _ Hb2) as (s3 & E & Hfine & _); [|by exists s3]. apply sess_requests.
    destruct Hs1 as [K1 K2 K3 K4 K5 K6]. split; cbn; try done. congruence.
Qed.

Lemma OnClose_ok ex su ro sid h s : fine ex su ro s -> sessions s !! sid = Some h -> isClosed h = true ->
  exists s', (let! s := OnClose sid s in Ok (set_sessions (delete sid (sessions s)) s)) = Ok s' /\ fine ex su ro s'.
Proof.
  intros (Hb & Hs & Hm) Hl Ho. destruct (s_all _ Hs _ _ Hl) as (Hmp & _ & Hact).
  assert (m_bActive (parser h) = false) as Ha by (destruct (m_bActive (parser h)); [destruct (Hact eq_refl); congruence|done]).
  unfold OnClose, call, depth. rewrite exec_S. one_turn. rewrite Hl, (FinishEof_inactive _ Ha). cbn [rbind].
  rewrite (update_parser_eq _ _ _ _ Hl). unfold OnDelSession. cbn [m_pSession set_sessions].
  rewrite decide_False.
  2: { intros E. destruct (s_current _ Hs _ E) as (_ & _ & h' & Hl' & Ho' & _). congruence. }
  eexists. split; [done|]. split_and!; [by eapply base_same; [..|exact Hb]| |done].
  destruct Hs as [K1 K2 K3 K4 K5 K6]. split; cbn; try done.
  - intros sid' h'. rewrite delete_insert_eq. intros [Hne Hl']%lookup_delete_Some. by apply K1.
  - intros sid' E. destruct (K2 _ E) as (? & ? & h' & Hl' & Ho' & ?). split_and!; [done|done|]. exists h'. split; [|done].
    rewrite delete_insert_eq, lookup_delete_ne; [done|]. intros ->. congruence.
Qed.

Lemma publish_all ex su ro q w s : base (q ++ ex) su ro s -> exists m a b,
  fold_left (fun s i => Publish i true w s) q s = set_requests m a b s /\ base ex su ro (set_requests m a b s).
Proof.
  revert s; induction q as [|i q IH]; intros s Hb; cbn [fold_left app] in *.
  - exists (requests s), (scheduled s), (published s). by rewrite set_requests_same.
  - apply (Publish_base (q ++ ex) su ro i true w) in Hb. destruct (Publish_shape i true w s) as (m & a & b & E). rewrite E in Hb |- *.
    destruct (IH _ Hb) as (m' & a' & b' & E' & Hb'). by exists m', a', b'.
Qed.

Lemma close_all_ok ex su ro sids s : base ex su ro s -> sess s -> moving s -> exists s', close_all sids s = Ok s' /\ fine ex su ro s'.
Proof.
  revert s; induction sids as [|sid sids IH]; intros s Hb Hs Hm; cbn [close_all]; [by eexists|].
  assert (exists s', call (CloseSession sid) s = Ok s' /\ fine ex su ro s') as (s1 & -> & Hb1 & Hs1 & Hm1); [|by apply IH].
  destruct (sessions s !! sid) as [h|] eqn:Hl.
  - destruct (isClosed h) eqn:Ho.
    + destruct (s_all _ Hs _ _ Hl) as (Hmp & _). rewrite Ho in Hmp. exists s. unfold call, depth. rewrite exec_S. one_turn.
      by rewrite Hl, Hmp.
    + destruct (CloseSession_ok 3 ex su ro s sid h Hb Hs Hl Ho) as (s2 & E2 & Hb2 & Hs2 & Hm2 & _). by exists s2.
  - exists s. unfold call, depth. rewrite exec_S. one_turn. by rewrite Hl.
Qed.

Lemma Shutdown_ok ex su ro s : fine ex su ro s -> exists s', Shutdown s = Ok s' /\ fine ex su ro s'.
Proof.
  intros (Hb & Hs & Hm). unfold Shutdown. destruct (m_bClosed s) eqn:Ec; [by eexists|].
  set (s1 := set_closed s).
  set (s2 := match m_pSession s1 with Some sid => abandon sid s1 | None => s1 end).
  assert (exists m, s2 = set_sessions m s1 /\ sess (set_flight None (set_sessions m s))) as (m2 & E2 & Hs2).
  { unfold s2. change (m_pSession s1) with (m_pSession s). destruct (m_pSession s) as [sid|] eqn:Ecur.
    - destruct (s_current _ Hs _ Ecur) as (_ & _ & h & Hl & Ho & _). assert (sessions s1 !! sid = Some h) as Hl1 by done.
      rewrite (abandon_eq _ _ _ Hl1), Ho. eexists. split; [done|]. exact (sess_rest s sid h (Abandon (parser h)) Hs Ecur Hl Ho eq_refl).
    - exists (sessions s1). split; [by destruct s1|]. destruct (s_none _ Hs Ecur) as [Hcn Hf].
      destruct Hs as [K1 K2 K3 K4 K5 K6]. split; cbn; try done; congruence. }
  rewrite E2. clear s2 E2. cbn [m_pFlight m_vQueue set_sessions set_closed s1].
  set (s3 := set_queue [] (set_flight None _)).
  assert (base (in_flight s ++ m_vQueue s ++ ex) su ro s3) as Hb3.
  { apply (base_same _ su ro (set_flight None (set_queue [] s))); try done.
    apply (base_move ex); [|done]. intros j. rewrite !cnt_app, !cnt_nil. simpl option_list. rewrite ?cnt_nil. unfold in_flight. lia. }
  set (s4 := match m_pFlight s with Some i => _ | None => s3 end).
  assert (exists m a b, s4 = set_requests m a b s3 /\ base (m_vQueue s ++ ex) su ro s4) as (m4 & a4 & b4 & E4 & Hb4).
  { unfold s4, in_flight in *. destruct (m_pFlight s) as [i|]; simpl option_list in Hb3; cbn [app] in Hb3.
    - destruct (Publish_shape i true (txt "closed") s3) as (m & a & b & E). exists m, a, b. split; [done|]. by apply Publish_base.
    - exists (requests s3), (scheduled s3), (published s3). split; [by rewrite set_requests_same|done]. }
  destruct (publish_all ex su ro _ (txt "closed") _ Hb4) as (m5 & a5 & b5 & E5 & Hb5). rewrite E5, E4 in *. clear E5 E4 s4.
  set (s5 := set_requests m5 a5 b5 _) in *.
  apply close_all_ok; [by eapply base_same; [..|exact Hb5]| |].
  - destruct Hs2 as [K1 K2 K3 K4 K5 K6]. split; cbn; try done.
  - intros Hc. done.
Qed.

Lemma insert_request (m : gmap Z Request) i r j : <[i := r]> m !! j = if decide (j = i) then Some r else m !! j.
Proof. destruct (decide (j = i)) as [->|]; [apply lookup_insert_eq|by apply lookup_insert_ne]. Qed.

Lemma Await_base ex su ro i l s : requests s !! i = None -> base ex su ro s ->
  base (ex ++ [i]) su ro (set_requests (<[i := new_Request l]> (requests s)) (scheduled s) (published s) s).
Proof.
  intros En [H1 H2 H3 H4 H5]. split; cbn; intros j; rewrite ?insert_request.
  - specialize (H1 j). unfold in_flight in *. cbn. rewrite cnt_app, cnt_cons, cnt_nil.
    destruct (decide (j = i)) as [->|Hne]; [rewrite En in H1|]; destruct (Z.eq_dec _ _); lia || congruence.
  - intros r. destruct (decide (j = i)) as [->|]; [|apply H2]. intros [= <-]. cbn. split; [done|].
    intros Hp%cnt_pos. specialize (H1 i). rewrite En in H1. lia.
  - intros r. destruct (decide (j = i)) as [->|]; [|apply H3]. intros [= <-]. split; [|done].
    intros Hi. destruct (H5 i Hi). congruence.
  - specialize (H4 j). destruct (decide (j = i)) as [->|]; [|done]. rewrite En in H4. rewrite H4. unfold resumed. by rewrite andb_false_r.
  - intros Hj. destruct (decide (j = i)); [done|]. by apply H5.
Qed.

(** The exchange of await_suspend. *)
Lemma Suspend_base ex su ro i r s : requests s !! i = Some r -> i ∉ su -> base ex su ro s ->
  base ex (su ++ [i]) (match iGate r with Ready => ro ++ [i] | _ => ro end) (exchange_waiting i r s).
Proof.
  intros Er Hi [H1 H2 H3 H4 H5]. split; cbn; intros j; rewrite ?insert_request.
  - specialize (H1 j). unfold in_flight in *. cbn. destruct (decide (j = i)) as [->|]; [by rewrite Er in H1|done].
  - intros q. destruct (decide (j = i)) as [->|]; [|apply H2]. intros [= <-]. by apply (H2 i r).
  - intros q. destruct (decide (j = i)) as [->|Hne].
    + intros [= <-]. unfold gate_ok. cbn. apply elem_of_app. right. by left.
    + intros Hq. specialize (H3 j q Hq). unfold gate_ok in *.
      destruct (iGate q); [|done|apply elem_of_app; by left]. destruct H3. split; [|done].
      by intros [?| ->%list_elem_of_singleton]%elem_of_app.
  - specialize (H4 j). pose proof (H3 i r Er) as Hg. unfold gate_ok in Hg. destruct (decide (j = i)) as [->|Hne].
    + rewrite Er in H4. unfold resumed in *. rewrite bool_decide_false in H4 by done. rewrite bool_decide_true.
      2: { apply elem_of_app. right. by left. }
      cbn [iDone andb] in *. destruct (iGate r); [|rewrite Hg, cnt_app, cnt_cons, cnt_nil; destruct (Z.eq_dec i i); [lia|done]|done].
      destruct Hg as [_ ->]. lia.
    + assert (forall q, resumed (su ++ [i]) j q = resumed su j q) as Hr.
      { intros q. unfold resumed. replace (bool_decide (j ∈ su ++ [i])) with (bool_decide (j ∈ su)); [done|].
        apply bool_decide_ext. rewrite elem_of_app, list_elem_of_singleton. tauto. }
      assert (cnt j (match iGate r with Ready => ro ++ [i] | _ => ro end) = cnt j ro) as ->.
      { destruct (iGate r); [done| |done]. rewrite cnt_app, cnt_cons, cnt_nil. destruct (Z.eq_dec i j); [congruence|lia]. }
      rewrite H4. destruct (requests s !! j); [by rewrite Hr|done].
  - rewrite elem_of_app, list_elem_of_singleton. intros Hj. destruct (decide (j = i)); [done|].
    apply H5. tauto.
Qed.

Definition winv (w : world) : Prop := fine (posted w) (suspended w) (resumed_at_once w) (cl w).

Lemma winv_back s w r : (exists s', r = Ok s' /\ fine (posted w) (suspended w) (resumed_at_once w) s') ->
  Some (let! s := r in Ok (set_cl s w)) = Some s -> exists w', s = Ok w' /\ winv w'.
Proof. intros (s' & -> & H) E. injection E as <-. cbn. by eexists. Qed.

Lemma event_ok o e w r : winv w -> do_event o e w = Some r -> exists w', r = Ok w' /\ winv w'.
Proof.
  unfold winv at 1. intros Hw. unfold do_event. apply (fine_sent _ _ _ (sent (cl w)) o) in Hw. revert Hw.
  generalize (set_sent (sent (cl w)) o (cl w)) as s. intros s Hw E. destruct e as [i l|k|i|i|sid l|sid|sid| | | |].
  - destruct (requests s !! i) eqn:Er; [done|]. apply (inj Some) in E as <-. eexists. split; [done|]. destruct Hw as (Hb & Hs & Hm).
    split_and!; [by apply Await_base|by apply sess_requests|done].
  - destruct (posted w !! k) as [i|] eqn:Ek; [|done]. apply (inj Some) in E as <-. destruct Hw as (Hb & Hs & Hm).
    destruct (EnqueueOnLoop_ok (take k (posted w) ++ drop (S k) (posted w)) (suspended w) (resumed_at_once w) i s) as (s' & -> & Hf); [|done|done|by eexists].
    destruct Hb as [H1 H2 H3 H4 H5]. split; try done. intros j. specialize (H1 j). rewrite <- H1.
    rewrite <- (take_drop_middle _ _ _ Ek) at 3. rewrite cnt_cons, !cnt_app, (cnt_cons j i). lia.
  - destruct (requests s !! i) as [q|] eqn:Er; [|done]. destruct (decide _) as [|Hi]; [done|]. apply (inj Some) in E as <-.
    destruct Hw as (Hb & Hs & Hm). eexists. split; [done|]. split_and!; [by apply Suspend_base|by apply sess_requests|done].
  - destruct (decide _); [|done]. apply (inj Some) in E as <-. destruct (OnTimeout_ok _ _ _ i s Hw) as (s' & -> & Hf). by eexists.
  - destruct (is_open sid s) eqn:Ho; [|done]. eapply winv_back; [|exact E]. by apply OnDataIn_ok.
  - destruct (is_open sid s) eqn:Ho; [|done]. eapply winv_back; [|exact E]. by apply PassiveClose_ok.
  - destruct (sessions s !! sid) as [h|] eqn:Hl; [|done]. destruct (isClosed h) eqn:Ho; [|done].
    eapply winv_back; [|exact E]. by eapply OnClose_ok.
  - destruct (bConnectPending s) eqn:Hp; [|done]. apply (inj Some) in E as <-.
    destruct (Connected_ok _ _ _ (next_sid w) s Hw Hp) as (s' & E' & Hf). cbn [sessions set_connecting]. rewrite E'. by eexists.
  - destruct (bConnectPending s) eqn:Hp; [|done]. eapply winv_back; [|exact E]. by apply ConnectFails_ok.
  - eapply winv_back; [|exact E]. by apply Shutdown_ok.
  - apply (inj Some) in E as <-. eexists. split; [done|]. destruct Hw as (Hb & Hs & Hm). split_and!; [by eapply base_same; [..|exact Hb]| |by intros _ _ _; right]. destruct Hs as [K1 K2 K3 K4 K5 K6]. split; cbn; auto.
Qed.

Lemma start_fine : winv start.
Proof.
  split; [|split].
  - split; cbn; intros; try done. by apply not_elem_of_nil in H.
  - split; cbn; try done.
  - intros _ H. by destruct H.
Qed.

Lemma run_ok es w r : winv w -> run es w = Some r -> exists w', r = Ok w' /\ winv w'.
Proof.
  revert w; induction es as [|[o e] es IH]; intros w Hw E; cbn [run] in E; [injection E as <-; by eexists|].
  destruct (do_event o e w) as [r1|] eqn:E1; [|done]. destruct (event_ok _ _ _ _ Hw E1) as (w1 & -> & Hw1). by eapply IH.
Qed.

(** ** Timers *)

(** What the calls never do: take a request into the hands of the client, or take a result
    back. *)
Definition held (s : client) : list Z := m_vQueue s ++ in_flight s.
Definition keeps (s s' : client) : Prop := (forall i, i ∈ held s' -> i ∈ held s) /\ (forall i, i ∈ published s -> i ∈ published s').

Lemma keeps_refl s : keeps s s.
Proof. done. Qed.
Lemma keeps_trans s1 s2 s3 : keeps s1 s2 -> keeps s2 s3 -> keeps s1 s3.
Proof. intros [H1 H2] [H3 H4]. split; auto. Qed.

Lemma keeps_same s s' : m_vQueue s' = m_vQueue s -> m_pFlight s' = m_pFlight s -> published s' = published s -> keeps s s'.
Proof. intros E1 E2 E3. unfold keeps, held, in_flight. by rewrite E1, E2, E3. Qed.

Lemma Publish_keeps i b w s : keeps s (Publish i b w s).
Proof.
  unfold Publish. destruct (requests s !! i) as [r|]; [|done]. destruct (iDone r); [done|]. split; [done|]. intros j Hj. cbn. apply elem_of_app. by left.
Qed.
Lemma Publish_out i b w s r : requests s !! i = Some r -> iDone r = false -> i ∈ published (Publish i b w s).
Proof. intros Er Ed. unfold Publish. rewrite Er, Ed. cbn. apply elem_of_app. right. by left. Qed.

Lemma rest_keeps s : keeps s (set_flight None s).
Proof. split; [|done]. intros i. unfold held. cbn. rewrite app_nil_r, elem_of_app. by left. Qed.
Lemma write_result_keeps i f s : keeps s (write_result i f s).
Proof. destruct (write_result_shape i f s) as (m & a & b & E). unfold write_result in *. destruct (requests s !! i); [|done]. by apply keeps_same. Qed.
Lemma update_parser_keeps sid p s : keeps s (update_parser sid p s).
Proof. unfold update_parser. destruct (sessions s !! sid); [by apply keeps_same|done]. Qed.
Lemma abandon_keeps sid s : keeps s (abandon sid s).
Proof. unfold abandon. destruct (sessions s !! sid); [apply update_parser_keeps|done]. Qed.
Lemma BeginConnect_keeps s : keeps s (BeginConnect s).
Proof. unfold BeginConnect, StartClient, StartConnect. destruct (stopping s); [done|]. destruct (_ && _); [done|by apply keeps_same]. Qed.

Lemma take_keeps i q s : m_vQueue s = i :: q -> m_pFlight s = None -> keeps s (set_flight (Some i) (set_queue q s)).
Proof. intros Eq Ef. split; [|done]. intros j. unfold held, in_flight. cbn. rewrite Eq, Ef. cbn [option_list]. rewrite !elem_of_app, !elem_of_cons. pose proof (not_elem_of_nil j). tauto. Qed.

(** A call that [keeps], after steps that do. *)
Definition keeping (again : action -> client -> result client) : Prop := forall a s s', again a s = Ok s' -> keeps s s'.

Lemma Pump_keeps again s s' : keeping again -> on_Pump again s = Ok s' -> keeps s s'.
Proof.
  intros Ha. unfold on_Pump. destruct (m_pFlight s) eqn:Ef; [by intros [= <-]|]. destruct (m_vQueue s) as [|i q] eqn:Eq; [by intros [= <-]|]. destruct (m_bClosed s); [by intros [= <-]|].
  assert (forall t, (if m_bConnecting s then Ok s else Ok (BeginConnect (set_connecting true (bConnectPending s) s))) = Ok t -> keeps s t) as Hgo.
  { intros t. destruct (m_bConnecting s); intros [= <-]; [done|]. eapply keeps_trans; [|apply BeginConnect_keeps]. by apply keeps_same. }
  destruct (m_pSession s) as [sid|]; [|apply Hgo]. destruct (_ && _); [|apply Hgo]. set (s1 := set_flight (Some i) (set_queue q s)). assert (keeps s s1) as H1 by by apply take_keeps.
  set (s2 := update_parser sid BeginResponse s1). assert (keeps s s2) as H2 by (eapply keeps_trans; [exact H1|apply update_parser_keeps]). unfold SendBytes. destruct (_ && _).
  - intros [= <-]. eapply keeps_trans; [exact H2|by apply keeps_same].
  - set (s3 := set_sent _ _ s2). set (s4 := Publish _ _ _ (abandon sid (set_flight None s3))).
    assert (keeps s s4) as H4.
    { eapply keeps_trans; [exact H2|]. eapply (keeps_trans _ s3); [by apply keeps_same|]. eapply keeps_trans; [apply rest_keeps|]. eapply keeps_trans; [apply abandon_keeps|apply Publish_keeps]. }
    destruct (is_open sid s4); [|by intros [= <-]]. intros H. eapply keeps_trans; [exact H4|by eapply Ha].
Qed.

Lemma HttpFinished_keeps again sid f s s' : keeping again -> on_HttpFinished again sid f s = Ok s' -> keeps s s'.
Proof.
  intros Ha. unfold on_HttpFinished. match goal with |- context [is_open sid ?t] => set (s1 := t) end.
  assert (keeps s s1) as H1.
  { unfold s1. destruct (m_pFlight s) as [i|]; [|done]. destruct (decide _); [|done]. eapply keeps_trans; [apply rest_keeps|]. eapply keeps_trans; [apply write_result_keeps|apply Publish_keeps]. }
  clearbody s1. destruct (_ && _ && _).
  - intros H. eapply keeps_trans; [exact H1|]. eapply keeps_trans; [apply abandon_keeps|by eapply Ha].
  - destruct (m_bClosed s1); [by intros [= <-]|]. intros H. eapply keeps_trans; [exact H1|by eapply Ha].
Qed.

Lemma turn_keeps again a s s' : keeping again -> turn again a s = Ok s' -> keeps s s'.
Proof.
  intros Ha. destruct a as [|sid|sid|sid|sid f]; cbn [turn]; [by apply Pump_keeps| | | |by apply HttpFinished_keeps].
  - unfold on_CloseSession. destruct (sessions s !! sid) as [h|]; [|by intros [= <-]]. destruct (mapped h); [|by intros [= <-]]. intros H. eapply keeps_trans; [|by eapply Ha]. by apply keeps_same.
  - unfold on_SessionClosed. intros H. mono H. assert (keeps s a) as H1.
    { destruct (decide _); [|by injection E as <-]. mono E. injection E as <-. eapply keeps_trans; [by eapply Ha|]. destruct (decide _); [by apply keeps_same|done]. }
    destruct (m_bClosed a); [by injection H as <-|]. eapply keeps_trans; [exact H1|by eapply Ha].
  - unfold on_FinishEof. destruct (sessions s !! sid) as [h|]; [|by intros [= <-]]. intros H. mono H. destruct a as [p f]. destruct f as [f|].
    + eapply keeps_trans; [apply update_parser_keeps|by eapply Ha].
    + injection H as <-. apply update_parser_keeps.
Qed.

Lemma exec_keeps n : keeping (exec n).
Proof. induction n as [|n IH]; intros a s s'; [done|]. rewrite exec_S. by apply turn_keeps. Qed.

Lemma call_keeps a s s' : call a s = Ok s' -> keeps s s'.
Proof. apply exec_keeps. Qed.

Lemma erase_timer_sub i j l : j ∈ erase_first i l -> j ∈ l.
Proof. induction l as [|x l IH]; [done|]. cbn [erase_first]. rewrite elem_of_cons. destruct (x =? i); [tauto|]. rewrite elem_of_cons. tauto. Qed.
Lemma erase_timer_other i j l : j <> i -> j ∈ l -> j ∈ erase_first i l.
Proof.
  intros Hne. induction l as [|x l IH]; [done|]. cbn [erase_first]. rewrite elem_of_cons. destruct (Z.eqb_spec x i) as [->|]; [by intros [->|]|]. rewrite elem_of_cons. tauto.
Qed.

Lemma EnqueueOnLoop_held i s s' tm : EnqueueOnLoop i s = Ok s' -> (forall j, j ∈ held s -> j ∈ tm) -> forall j, j ∈ held s' -> j ∈ ArmTimer i s tm.
Proof.
  intros E Ht j Hj. unfold EnqueueOnLoop, ArmTimer in *. destruct (m_bClosed s); [injection E as <-; apply (Publish_keeps i) in Hj; auto|]. destruct bad_host; [injection E as <-; apply (Publish_keeps i) in Hj; auto|].
  apply (call_keeps _ _ _ E) in Hj. unfold held, in_flight in *. cbn in Hj |- *. rewrite elem_of_cons. rewrite !elem_of_app, list_elem_of_singleton in Hj. destruct Hj as [[Hj| ->]|Hj]; [right; apply Ht; apply elem_of_app; by left|by left|right; apply Ht; apply elem_of_app; by right].
Qed.

(** A timer that fires ends its request. *)
Lemma OnTimeout_keeps i s s' : OnTimeout i s = Ok s' -> keeps s s'.
Proof.
  unfold OnTimeout. destruct (requests s !! i) as [r|]; [|by intros [= <-]]. destruct (iDone r); [by intros [= <-]|]. destruct (decide _).
  - set (s1 := Publish _ _ _ _). assert (keeps s s1) as H1 by (eapply keeps_trans; [|apply Publish_keeps]; eapply keeps_trans; [|apply rest_keeps]; destruct (m_pSession s); [apply abandon_keeps|done]).
    clearbody s1. destruct (match m_pSession s1 with Some sid => is_open sid s1 | None => false end); [intros H; eapply keeps_trans; [exact H1|by eapply call_keeps]|]. destruct (m_bClosed s1); [by intros [= <-]|]. intros H. eapply keeps_trans; [exact H1|by eapply call_keeps].
  - destruct (decide _); [|by intros [= <-]]. intros [= <-]. eapply keeps_trans; [|apply Publish_keeps]. split; [|done]. intros j. unfold held, in_flight. cbn. rewrite !elem_of_app. intros [H%erase_timer_sub|H]; tauto.
Qed.

Lemma OnTimeout_out ex su ro i s s' : fine ex su ro s -> i ∈ held s -> OnTimeout i s = Ok s' -> i ∈ published s'.
Proof.
  intros (Hb & _) Hi. pose proof (b_place _ _ _ _ Hb i) as Hc. assert (exists r, requests s !! i = Some r /\ iDone r = false) as (r & Er & Ed).
  { unfold held in Hi. apply cnt_pos in Hi. rewrite cnt_app in Hi. destruct (requests s !! i) as [r|] eqn:Er; [|lia]. exists r. split; [done|]. destruct (iDone r) eqn:Ed; [|done]. apply (b_done _ _ _ _ Hb i r Er), cnt_pos in Ed. lia. }
  unfold OnTimeout. rewrite Er, Ed. destruct (decide (m_pFlight s = Some i)) as [Ef|Ef].
  - set (t := set_flight None _). assert (requests t !! i = Some r) as Et.
    { unfold t. destruct (m_pSession s) as [sid|]; [|done]. unfold abandon, update_parser. destruct (sessions s !! sid); [|done]. cbn. by destruct (sessions s !! sid). }
    pose proof (Publish_out i true (txt "timeout") t r Et Ed) as Ho. set (s1 := Publish _ _ _ t) in *. clearbody s1.
    destruct (match m_pSession s1 with Some sid => is_open sid s1 | None => false end); [intros H; by apply (call_keeps _ _ _ H)|]. destruct (m_bClosed s1); [by intros [= <-]|]. intros H. by apply (call_keeps _ _ _ H).
  - unfold held, in_flight in Hi. apply elem_of_app in Hi as [Hq|Hf]; [rewrite decide_True by done; intros [= <-]; by apply (Publish_out i true (txt "timeout") (set_queue (erase_first i (m_vQueue s)) s) r)|].
    destruct (m_pFlight s) as [j|]; [|by apply not_elem_of_nil in Hf]. apply list_elem_of_singleton in Hf as ->. done.
Qed.

Lemma OnDataIn_keeps sid l s s' : OnDataIn sid l s = Ok s' -> keeps s s'.
Proof.
  unfold OnDataIn. destruct (sessions s !! sid) as [h|]; [|by intros [= <-]]. intros H. mono H. destruct a as [[p f] idle]. pose proof (update_parser_keeps sid p s) as H1. destruct f as [f|]; [eapply keeps_trans; [exact H1|by eapply call_keeps]|].
  destruct (_ && _ && _); [eapply keeps_trans; [exact H1|by eapply call_keeps]|by injection H as <-].
Qed.

Lemma PassiveClose_keeps sid s s' : PassiveClose sid s = Ok s' -> keeps s s'.
Proof. unfold PassiveClose. destruct (sessions s !! sid) as [h|]; [|by intros [= <-]]. intros H. eapply keeps_trans; [|by eapply call_keeps]. by apply keeps_same. Qed.

Lemma OnClose_keeps sid s s' : OnClose sid s = Ok s' -> keeps s s'.
Proof. unfold OnClose. intros H. mono H. injection H as <-. eapply keeps_trans; [by eapply call_keeps|]. unfold OnDelSession. destruct (decide _); [by apply keeps_same|done]. Qed.

Lemma OnAddSession_keeps sid s s' : OnAddSession sid s = Ok s' -> keeps s s'.
Proof. unfold OnAddSession. cbv zeta. destruct (m_bClosed _); intros H; (eapply keeps_trans; [|by eapply call_keeps]); by apply keeps_same. Qed.

Lemma OnConnectFailed_keeps s s' : OnConnectFailed s = Ok s' -> keeps s s'.
Proof.
  unfold OnConnectFailed. set (t := set_connecting _ _ _). assert (keeps s t) as H1 by by apply keeps_same. clearbody t. destruct (m_bClosed t); [by intros [= <-]|]. intros H. eapply keeps_trans; [exact H1|]. eapply keeps_trans; [|by eapply call_keeps].
  unfold FailFront. destruct (m_vQueue t) as [|i q] eqn:Eq; [done|]. eapply keeps_trans; [|apply Publish_keeps]. split; [|done]. intros j. unfold held, in_flight. cbn. rewrite Eq, !elem_of_app, elem_of_cons. tauto.
Qed.

Lemma close_all_keeps sids : forall s s', close_all sids s = Ok s' -> keeps s s'.
Proof. induction sids as [|sid sids IH]; intros s s' H; cbn [close_all] in H; [by injection H as <-|]. mono H. eapply keeps_trans; [by eapply call_keeps|by apply IH]. Qed.

Lemma publish_all_keeps q w : forall s, keeps s (fold_left (fun s i => Publish i true w s) q s).
Proof. induction q as [|i q IH]; intros s; [done|]. cbn. eapply keeps_trans; [apply Publish_keeps|apply IH]. Qed.

Lemma Shutdown_keeps s s' : Shutdown s = Ok s' -> keeps s s'.
Proof.
  unfold Shutdown. destruct (m_bClosed s); [by intros [= <-]|]. cbv zeta. set (s1 := match m_pSession (set_closed s) with Some _ => _ | None => _ end). assert (keeps s s1) as H1.
  { eapply (keeps_trans _ (set_closed s)); [by apply keeps_same|]. unfold s1. destruct (m_pSession _); [apply abandon_keeps|done]. }
  clearbody s1. set (s2 := set_queue [] (set_flight None s1)). assert (keeps s1 s2) as H2 by (split; [intros i H; by apply not_elem_of_nil in H|done]).
  intros H. eapply keeps_trans; [exact H1|]. eapply keeps_trans; [exact H2|]. eapply keeps_trans; [|by eapply close_all_keeps]. eapply (keeps_trans _ (match m_pFlight s1 with Some i => Publish i true (txt "closed") s2 | None => s2 end)); [destruct (m_pFlight s1); [apply Publish_keeps|done]|].
  eapply keeps_trans; [apply publish_all_keeps|by apply keeps_same].
Qed.

(** Every request the client holds has its timer. *)
Definition timed (w : world) : Prop := forall i, i ∈ held (cl w) -> i ∈ timers w.

Lemma held_out ex su ro i s : fine ex su ro s -> i ∈ published s -> i ∉ held s.
Proof. intros (Hb & _) Hp Hi. pose proof (b_place _ _ _ _ Hb i) as Hc. apply cnt_pos in Hp. unfold held in Hi. apply cnt_pos in Hi. rewrite cnt_app in Hi. destruct (requests s !! i); lia. Qed.

Lemma event_timed o e w w' : winv w -> timed w -> do_event o e w = Some (Ok w') -> timed w'.
Proof.
  intros Hw Ht E. pose proof E as E0. destruct (event_ok o e w (Ok w') Hw E) as (w1 & [= <-] & Hw'). clear E0. unfold winv in Hw. apply (fine_sent _ _ _ (sent (cl w)) o) in Hw. unfold do_event in E. set (s := set_sent (sent (cl w)) o (cl w)) in *.
  assert (forall i, i ∈ held s -> i ∈ timers w) as Hs by done. clearbody s.
  assert (forall t, keeps s t -> forall i, i ∈ held t -> i ∈ timers w) as Hk by (intros t [H _] i Hi; auto).
  assert (forall r, Some (let! s := r in Ok (set_cl s w)) = Some (Ok w') -> (forall t, r = Ok t -> keeps s t) -> timed w') as Hback.
  { intros r [= E'] Hr. mono E'. injection E' as <-. intros i. apply Hk. by apply Hr. }
  destruct e as [i l|k|i|i|sid l|sid|sid| | | |].
  - destruct (requests s !! i); [done|]. injection E as <-. exact Hs.
  - destruct (posted w !! k) as [i|]; [|done]. injection E as E. mono E. injection E as <-. intros j. by apply (EnqueueOnLoop_held i s).
  - destruct (requests s !! i) as [q|]; [|done]. destruct (decide _); [done|]. injection E as <-. exact Hs.
  - destruct (decide _) as [Hi|]; [|done]. injection E as E. mono E. injection E as <-. intros j Hj. cbn in Hj |- *. pose proof (OnTimeout_keeps _ _ _ E0) as [Hk1 _]. destruct (decide (j = i)) as [->|Hne]; [|by apply erase_timer_other, Hs, Hk1].
    exfalso. pose proof (OnTimeout_out _ _ _ i s a Hw (Hk1 _ Hj) E0) as Hp. by apply (held_out _ _ _ i _ Hw').
  - destruct (is_open sid s); [|done]. apply (Hback _ E). intros t. apply OnDataIn_keeps.
  - destruct (is_open sid s); [|done]. apply (Hback _ E). intros t. apply PassiveClose_keeps.
  - destruct (sessions s !! sid) as [h|]; [|done]. destruct (isClosed h); [|done]. apply (Hback _ E). intros t H. mono H. injection H as <-. eapply keeps_trans; [by eapply OnClose_keeps|by apply keeps_same].
  - destruct (bConnectPending s); [|done]. injection E as E. mono E. injection E as <-. intros i. apply Hk. eapply keeps_trans; [|by eapply OnAddSession_keeps]. by apply keeps_same.
  - destruct (bConnectPending s); [|done]. apply (Hback _ E). intros t H. eapply keeps_trans; [|by eapply OnConnectFailed_keeps]. by apply keeps_same.
  - apply (Hback _ E). intros t. apply Shutdown_keeps.
  - injection E as <-. exact Hs.
Qed.

Lemma run_timed es : forall w w', winv w -> timed w -> run es w = Some (Ok w') -> timed w'.
Proof.
  induction es as [|[o e] es IH]; intros w w' Hw Ht E; cbn [run] in E; [by injection E as <-|]. destruct (do_event o e w) as [r1|] eqn:E1; [|done]. destruct (event_ok _ _ _ _ Hw E1) as (w1 & -> & Hw1). apply (IH w1); [done|by apply (event_timed o e w)|done].
Qed.

Lemma start_timed : timed start.
Proof. intros i Hi. by apply not_elem_of_nil in Hi. Qed.

Lemma timer_ends o i w : winv w -> timed w -> i ∈ held (cl w) -> exists w', do_event o (TimerFires i) w = Some (Ok w') /\ i ∈ published (cl w').
Proof.
  intros Hw Ht Hi. pose proof (Ht i Hi) as Htm. unfold winv in Hw. apply (fine_sent _ _ _ (sent (cl w)) o) in Hw. cbn [do_event]. rewrite decide_True by done.
  set (s := set_sent _ o _) in *. destruct (OnTimeout_ok _ _ _ i s Hw) as (s' & E & _). rewrite E. eexists. split; [reflexivity|]. by apply (OnTimeout_out _ _ _ i s s' Hw).
Qed.

(** ** Properties *)

(** C5: whatever happens to connections, sends and timers, every request is
    at all times in exactly one place: on its way to the loop, in the queue, in
    flight or finished, so no request is lost or finished twice; and its caller is
    resumed exactly once, by Schedule or by not suspending, as soon as the request
    is finished and the caller has asked to wait, in either order. *)
Theorem calls_resumed_once es w i q : run es start = Some (Ok w) -> requests (cl w) !! i = Some q ->
  cnt i (posted w ++ m_vQueue (cl w) ++ in_flight (cl w) ++ published (cl w)) = 1%nat /\
  cnt i (scheduled (cl w) ++ resumed_at_once w) =
    (if bool_decide (i ∈ suspended w) && bool_decide (i ∈ published (cl w)) then 1 else 0)%nat.
Proof.
  intros E Hq. destruct (run_ok _ _ _ start_fine E) as (w' & [= <-] & [H1 H2 H3 H4 H5] & _).
  specialize (H1 i). specialize (H4 i). rewrite Hq in H1, H4. rewrite !cnt_app. split; [lia|]. rewrite H4. unfold resumed.
  replace (iDone q) with (bool_decide (i ∈ published (cl w))); [done|]. destruct (iDone q) eqn:Ed.
  - apply bool_decide_eq_true. by apply (H2 i q Hq).
  - apply bool_decide_eq_false. intros Hp. apply (H2 i q Hq) in Hp. congruence.
Qed.

(** C30: the client never stalls: however its methods call each other, every
    event comes to an end, and until the client is shut down a request in flight
    has an open connection that awaits its response, and if requests are queued
    with none in flight a connection is being made, unless the process is stopping, when
    StartClient makes none any more.  In any case each of these requests has a timer, and
    when that fires the request is finished; after the shutdown nothing waits. *)
Theorem client_never_stalls es r : run es start = Some r ->
  exists w, r = Ok w /\
    let s := cl w in
    (forall i, m_pFlight s = Some i -> exists sid h,
       m_pSession s = Some sid /\ sessions s !! sid = Some h /\ isClosed h = false /\ m_bActive (parser h) = true) /\
    (m_bClosed s = false -> m_vQueue s <> [] -> m_pFlight s = None -> bConnectPending s = true \/ stopping s = true) /\
    (forall i, i ∈ m_vQueue s ++ in_flight s -> i ∈ timers w /\
       forall o, exists w', do_event o (TimerFires i) w = Some (Ok w') /\ i ∈ published (cl w')) /\
    (m_bClosed s = true -> m_vQueue s = [] /\ m_pFlight s = None).
Proof.
  intros E. destruct (run_ok _ _ _ start_fine E) as (w & -> & Hw). pose proof (run_timed _ _ _ start_fine start_timed E) as Ht. pose proof Hw as (_ & Hs & Hm). exists w. split; [done|]. cbv zeta. split_and!.
  - intros i Hi. destruct (m_pSession (cl w)) as [sid|] eqn:Ecur; [|destruct (s_none _ Hs Ecur); congruence].
    destruct (s_current _ Hs _ Ecur) as (_ & _ & h & Hl & Ho & Ha). exists sid, h. rewrite Ha. split_and!; try done.
    by rewrite Hi.
  - exact Hm.
  - intros i Hi. split; [by apply Ht|]. intros o. by apply timer_ends.
  - intros Hc. destruct (s_closed _ Hs Hc) as (? & ? & _). done.
Qed.

End Client.

(** ** A run *)

Section Runs.

Definition response : list byte :=
  txt "HTTP/1.1 200 OK" ++ CRLF ++ txt "Content-Length: 2" ++ CRLF ++ CRLF ++ txt "ok".

(** Two requests; the first is answered, the second fails to send and its caller
    suspends only afterwards; the third waits for a new connection. *)
Definition three_requests : list (list bool * event) :=
  [([], Await 1 (txt "a")); ([], RunPosted 0); ([], Suspend 1); ([], Connected);
   ([], Await 2 (txt "b")); ([], RunPosted 0); ([false], Data 1 response); ([], Suspend 2);
   ([], Await 3 (txt "c")); ([], RunPosted 0)].

Definition world_three : world :=
  match run (txt "host") 80 true three_requests start with Some (Ok w) => w | _ => start end.

Lemma calls_resumed_once_witness :
  (published (cl world_three) = [1; 2] /\ m_vQueue (cl world_three) = [3] /\ scheduled (cl world_three) = [1] /\
   resumed_at_once world_three = [2]) /\
  cnt 2 (posted world_three ++ m_vQueue (cl world_three) ++ in_flight (cl world_three) ++ published (cl world_three)) = 1%nat.
Proof.
  split; [split_and!; vm_compute; reflexivity|].
  refine (proj1 (calls_resumed_once (txt "host") 80 true three_requests world_three 2 (mkRequest [] [] (txt "send") Waiting true 0 true) _ _)).
  - vm_compute. reflexivity.
  - vm_compute. reflexivity.
Defined.

Lemma client_never_stalls_witness :
  m_vQueue (cl world_three) = [3] /\ bConnectPending (cl world_three) = true /\
  exists w, Ok world_three = Ok w /\ forall i, i ∈ m_vQueue (cl w) ++ in_flight (cl w) -> i ∈ timers w /\
    forall o, exists w', do_event (txt "host") 80 true o (TimerFires i) w = Some (Ok w') /\ i ∈ published (cl w').
Proof.
  split_and!; [vm_compute; reflexivity..|].
  refine (let '(ex_intro _ w (conj E (conj _ (conj _ (conj H _))))) :=
            client_never_stalls (txt "host") 80 true three_requests (Ok world_three) _ in ex_intro _ w (conj E H)).
  vm_compute. reflexivity.
Defined.

End Runs.
End HttpClient.
