(* ===== verification/RpcCalls.v ===== *)
(** * Calls waiting for their answer

    cbaselib/proto/src/oi_rpc_call.cpp: the tables of the calls under way.  A call
    has a number; its slot is in one of 64 shards, each with a mutex, and each
    shard also lists its calls by the session they were sent on and by the 200 ms
    in which their time is up.  Every definition here is what happens under one
    shard's mutex; RpcClient.v puts the pieces into the order of the code.

    A slot keeps iterators into the two lists.  An iterator is modelled by what it
    points to and where; using one that points to nothing is [Undefined], and
    [tables_wf] is why this never happens.  [pGuard] is the counter of an awaiter
    that a running callback keeps alive; the counters are [guards], by call.
    Allocation failures are not modelled. *)

From stdpp Require Import sorting.
From S2P Require Import Prelude.

Module RpcCalls.

(** ** Data *)

Definition INVALID_SID : Z := -1.
Definition OI_OK : Z := 0.
Definition OI_ERR_FAIL : Z := -1.
Definition OI_ERR_TIMEOUT : Z := -2.
Definition OI_ERR_CONNECT : Z := -3.
Definition OI_ERR_BUSY : Z := -5.

Definition kCallShards : Z := 64.
Definition kSweepMs : Z := 200.
Definition RPC_REQ_MASK : Z := 2 ^ 63.

Record RpcExpire : Type := mkExpire { iDeadlineMilliseconds : Z; e_iCallId : Z }.

(** [bHasExpiry] is whether [stExpiry] is there: the bucket and the node in it. *)
Record RpcCoroSlot : Type := mkSlot {
  pSender : option Z;
  pManager : Z;
  iSessionId : Z;
  iResponseId : Z;
  iCallId : Z;
  bAwaitingConnect : bool;
  bGuardArmed : bool;
  pGuard : bool;
  stExpiry : option (Z * RpcExpire);
  bIndexed : bool
}.

Definition key_of (s : RpcCoroSlot) : Z * Z := (pManager s, iSessionId s).

Definition set_expiry (e : option (Z * RpcExpire)) (s : RpcCoroSlot) : RpcCoroSlot :=
  mkSlot (pSender s) (pManager s) (iSessionId s) (iResponseId s) (iCallId s) (bAwaitingConnect s) (bGuardArmed s) (pGuard s) e (bIndexed s).
Definition set_indexed (b : bool) (s : RpcCoroSlot) : RpcCoroSlot :=
  mkSlot (pSender s) (pManager s) (iSessionId s) (iResponseId s) (iCallId s) (bAwaitingConnect s) (bGuardArmed s) (pGuard s) (stExpiry s) b.
Definition set_sid (sid : Z) (s : RpcCoroSlot) : RpcCoroSlot :=
  mkSlot (pSender s) (pManager s) sid (iResponseId s) (iCallId s) (bAwaitingConnect s) (bGuardArmed s) (pGuard s) (stExpiry s) (bIndexed s).
Definition set_awaiting (b : bool) (s : RpcCoroSlot) : RpcCoroSlot :=
  mkSlot (pSender s) (pManager s) (iSessionId s) (iResponseId s) (iCallId s) b (bGuardArmed s) (pGuard s) (stExpiry s) (bIndexed s).
Definition set_armed (s : RpcCoroSlot) : RpcCoroSlot :=
  mkSlot (pSender s) (pManager s) (iSessionId s) (iResponseId s) (iCallId s) (bAwaitingConnect s) true (pGuard s) (stExpiry s) (bIndexed s).

Record RpcCallShard : Type := mkShard {
  mSlots : gmap Z RpcCoroSlot;
  mExpire : gmap Z (list RpcExpire);
  mSessions : gmap (Z * Z) (list Z)
}.

Definition empty_shard : RpcCallShard := mkShard ∅ ∅ ∅.

Definition set_slots (m : gmap Z RpcCoroSlot) (sh : RpcCallShard) : RpcCallShard := mkShard m (mExpire sh) (mSessions sh).
Definition set_expire (m : gmap Z (list RpcExpire)) (sh : RpcCallShard) : RpcCallShard := mkShard (mSlots sh) m (mSessions sh).
Definition set_sessions (m : gmap (Z * Z) (list Z)) (sh : RpcCallShard) : RpcCallShard := mkShard (mSlots sh) (mExpire sh) m.

Record tables : Type := mkTables {
  g_call_shards : gmap Z RpcCallShard;
  g_call_seq : Z;
  guards : gmap Z Z
}.

Definition new_tables : tables := mkTables ∅ 1 ∅.

Definition ShardOf (i : Z) : Z := i mod kCallShards.
Definition shard_at (k : Z) (t : tables) : RpcCallShard := default empty_shard (g_call_shards t !! k).
Definition put_shard (k : Z) (sh : RpcCallShard) (g : gmap Z Z) (t : tables) : tables :=
  mkTables (<[k := sh]> (g_call_shards t)) (g_call_seq t) g.

Definition count (i : Z) (g : gmap Z Z) : Z := match g !! i with Some n => n | None => 0 end.

(** ** The lists *)

(** list::erase of the node an iterator points to. *)
Fixpoint erase_node {A} (f : A -> bool) (l : list A) : result (list A) :=
  match l with
  | [] => Err Undefined
  | x :: l => if f x then Ok l else let! l := erase_node f l in Ok (x :: l)
  end.

(** An entry of a map that goes when its list is empty. *)
Definition put_list {K A} `{Countable K} (k : K) (l : list A) (m : gmap K (list A)) : gmap K (list A) :=
  match l with [] => delete k m | _ => <[k := l]> m end.

Definition AddSessionIndex (s : RpcCoroSlot) (sid : Z) (sh : RpcCallShard) : RpcCallShard :=
  let key := (pManager s, sid) in
  set_sessions (<[key := default [] (mSessions sh !! key) ++ [iCallId s]]> (mSessions sh)) sh.

Definition RemoveSessionIndex (s : RpcCoroSlot) (sh : RpcCallShard) : result (RpcCoroSlot * RpcCallShard) :=
  if negb (bIndexed s) then Ok (s, sh)
  else
    match mSessions sh !! key_of s with
    | None => Err Undefined
    | Some l =>
        let! l := erase_node (Z.eqb (iCallId s)) l in
        Ok (set_indexed false s, set_sessions (put_list (key_of s) l (mSessions sh)) sh)
    end.

Definition ArmRpcGuard (s : RpcCoroSlot) (g : gmap Z Z) : RpcCoroSlot * gmap Z Z :=
  if negb (pGuard s) || bGuardArmed s then (s, g)
  else (set_armed s, <[iCallId s := count (iCallId s) g + 1]> g).

Definition same_node (e e' : RpcExpire) : bool := e_iCallId e =? e_iCallId e'.

Definition RemoveRpcExpiry (s : RpcCoroSlot) (sh : RpcCallShard) : result (RpcCoroSlot * RpcCallShard) :=
  match stExpiry s with
  | None => Ok (s, sh)
  | Some (k, e) =>
      match mExpire sh !! k with
      | None => Err Undefined
      | Some q =>
          let! q := erase_node (same_node e) q in
          Ok (set_expiry None s, set_expire (put_list k q (mExpire sh)) sh)
      end
  end.

(** ** Taking a slot out *)

(** With a source, only the slot of a call sent there for that protocol. *)
Definition from_source (src : option (Z * Z * Z)) (s : RpcCoroSlot) : bool :=
  match src with
  | None => true
  | Some (m, sid, resp) => (pManager s =? m) && (iSessionId s =? sid) && (iResponseId s =? resp)
  end.

Definition TakeRpcSlot (i : Z) (src : option (Z * Z * Z)) (t : tables) : result (option RpcCoroSlot * tables) :=
  let sh := shard_at (ShardOf i) t in
  match mSlots sh !! i with
  | None => Ok (None, t)
  | Some s =>
      if negb (from_source src s) then Ok (None, t)
      else
        let! (s, sh) := RemoveRpcExpiry s sh in
        let! (s, sh) := RemoveSessionIndex s sh in
        let (s, g) := ArmRpcGuard s (guards t) in
        Ok (Some s, put_shard (ShardOf i) (set_slots (delete i (mSlots sh)) sh) g t)
  end.

(** The part of AbandonRpcCall under the mutex. *)
Definition AbandonSlot (i : Z) (t : tables) : result (option RpcCoroSlot * tables) :=
  let sh := shard_at (ShardOf i) t in
  match mSlots sh !! i with
  | None => Ok (None, t)
  | Some s =>
      let! (s, sh) := RemoveRpcExpiry s sh in
      let! (s, sh) := RemoveSessionIndex s sh in
      Ok (Some s, put_shard (ShardOf i) (set_slots (delete i (mSlots sh)) sh) (guards t) t)
  end.

(** ** The sweep *)

(** One bucket: the nodes that stay and the slots that are due. *)
Fixpoint sweep_bucket (iNow : Z) (vQ : list RpcExpire) (sh : RpcCallShard) (g : gmap Z Z)
    : result (list RpcExpire * list RpcCoroSlot * RpcCallShard * gmap Z Z) :=
  match vQ with
  | [] => Ok ([], [], sh, g)
  | e :: vQ =>
      match mSlots sh !! e_iCallId e with
      | None => sweep_bucket iNow vQ sh g
      | Some s =>
          if iNow <? iDeadlineMilliseconds e then
            let! (kept, fired, sh, g) := sweep_bucket iNow vQ sh g in Ok (e :: kept, fired, sh, g)
          else
            let! (s, sh) := RemoveSessionIndex (set_expiry None s) sh in
            let (s, g) := ArmRpcGuard s g in
            let! (kept, fired, sh, g) := sweep_bucket iNow vQ (set_slots (delete (e_iCallId e) (mSlots sh)) sh) g in
            Ok (kept, s :: fired, sh, g)
      end
  end.

(** The buckets in the order of their keys, up to the present one. *)
Fixpoint sweep_keys (iNow : Z) (ks : list Z) (sh : RpcCallShard) (g : gmap Z Z)
    : result (list RpcCoroSlot * RpcCallShard * gmap Z Z) :=
  match ks with
  | [] => Ok ([], sh, g)
  | k :: ks =>
      if Z.quot iNow kSweepMs <? k then Ok ([], sh, g)
      else
        match mExpire sh !! k with
        | None => Err Undefined
        | Some vQ =>
            let! (kept, fired, sh, g) := sweep_bucket iNow vQ sh g in
            let! (fired', sh, g) := sweep_keys iNow ks (set_expire (put_list k kept (mExpire sh)) sh) g in
            Ok (fired ++ fired', sh, g)
        end
  end.

Definition keys_in_order (m : gmap Z (list RpcExpire)) : list Z := merge_sort Z.le (map fst (map_to_list m)).

Definition sweep_shard (iNow k : Z) (t : tables) : result (list RpcCoroSlot * tables) :=
  let sh := shard_at k t in
  let! (fired, sh, g) := sweep_keys iNow (keys_in_order (mExpire sh)) sh (guards t) in
  Ok (fired, put_shard k sh g t).

(** ** Sending *)

Definition MarkRpcAwaitingConnect (i : Z) (t : tables) : bool * tables :=
  let sh := shard_at (ShardOf i) t in
  match mSlots sh !! i with
  | None => (false, t)
  | Some s => (true, put_shard (ShardOf i) (set_slots (<[i := set_awaiting true s]> (mSlots sh)) sh) (guards t) t)
  end.

Definition ClaimRpcSend (i sid : Z) (t : tables) : result (bool * tables) :=
  let sh := shard_at (ShardOf i) t in
  match mSlots sh !! i with
  | None => Ok (false, t)
  | Some s =>
      let! (s, sh) :=
        if iSessionId s =? sid then Ok (s, sh)
        else
          let! (s, sh) := RemoveSessionIndex s (AddSessionIndex s sid sh) in
          Ok (set_sid sid (set_indexed true s), sh) in
      Ok (true, put_shard (ShardOf i) (set_slots (<[i := set_awaiting false s]> (mSlots sh)) sh) (guards t) t)
  end.

Definition INT64_MAX : Z := 2 ^ 63 - 1.

Definition deadline (iNow iTimeoutMilliseconds : Z) : Z :=
  if INT64_MAX - iNow <? iTimeoutMilliseconds then INT64_MAX else iNow + iTimeoutMilliseconds.

(** The call's number and the tables with its slot. *)
Definition BindRpcCall (m sid resp iTimeoutMilliseconds : Z) (guard : bool) (sender : option Z) (iNow : Z) (t : tables) : Z * tables :=
  let i := Z.land (g_call_seq t) (Z.lnot RPC_REQ_MASK) in
  let sh := shard_at (ShardOf i) t in
  let s := default (mkSlot sender m sid resp i false false guard None false) (mSlots sh !! i) in
  let sh := AddSessionIndex s sid sh in
  let s := set_indexed true s in
  let (s, sh) :=
    if 0 <? iTimeoutMilliseconds then
      let e := mkExpire (deadline iNow iTimeoutMilliseconds) i in
      let k := Z.quot (iDeadlineMilliseconds e) kSweepMs in
      (set_expiry (Some (k, e)) s, set_expire (<[k := default [] (mExpire sh !! k) ++ [e]]> (mExpire sh)) sh)
    else (s, sh) in
  (i, mkTables (<[ShardOf i := set_slots (<[i := s]> (mSlots sh)) sh]> (g_call_shards t)) (u64 (g_call_seq t + 1)) (guards t)).

(** ** A session that closes *)

(** Up to [n] calls of the session leave the shard. *)
Fixpoint fail_batch (n : nat) (key : Z * Z) (sh : RpcCallShard) (g : gmap Z Z)
    : result (list RpcCoroSlot * RpcCallShard * gmap Z Z) :=
  match n, mSessions sh !! key with
  | S n, Some (i :: l) =>
      match mSlots sh !! i with
      | None => Err Undefined
      | Some s =>
          let! (s, sh) := RemoveRpcExpiry s sh in
          let (s, g) := ArmRpcGuard (set_indexed false s) g in
          let sh := set_sessions (<[key := l]> (mSessions sh)) (set_slots (delete i (mSlots sh)) sh) in
          let! (failed, sh, g) := fail_batch n key sh g in
          Ok (s :: failed, sh, g)
      end
  | _, _ => Ok ([], sh, g)
  end.

Definition kBatch : nat := 32.

(** One round of the loop of FailRpcCalls in shard [k]; [None] ends it. *)
Definition fail_round (key : Z * Z) (k : Z) (t : tables) : result (option (list RpcCoroSlot) * tables) :=
  let sh := shard_at k t in
  match mSessions sh !! key with
  | None => Ok (None, t)
  | Some _ =>
      let! (failed, sh, g) := fail_batch kBatch key sh (guards t) in
      let sh := match mSessions sh !! key with Some [] => set_sessions (delete key (mSessions sh)) sh | _ => sh end in
      Ok (Some failed, put_shard k sh g t)
  end.

(** ** Statistics *)

Record RpcWaitStats : Type := mkStats {
  iCalls : Z;
  iExpirations : Z;
  iBuckets : Z;
  iSessionEntries : Z;
  iSessionBuckets : Z
}.

Definition total {A} (f : A -> Z) (l : list A) : Z := foldr (fun x n => f x + n) 0 l.

Definition GetRpcWaitStats (t : tables) : RpcWaitStats :=
  let shards := map snd (map_to_list (g_call_shards t)) in
  mkStats
    (total (fun sh => Z.of_nat (size (mSlots sh))) shards)
    (total (fun sh => total (fun b => lenZ (snd b)) (map_to_list (mExpire sh))) shards)
    (total (fun sh => Z.of_nat (size (mExpire sh))) shards)
    (total (fun sh => total (fun b => lenZ (snd b)) (map_to_list (mSessions sh))) shards)
    (total (fun sh => Z.of_nat (size (mSessions sh))) shards).

(** ** The lists agree with the slots *)

Definition listed {K A} `{Countable K} (k : K) (m : gmap K (list A)) : list A := default [] (m !! k).

Record wf (n : Z) (sh : RpcCallShard) : Prop := mkWf {
  wf_slot i s : mSlots sh !! i = Some s ->
    iCallId s = i /\ bIndexed s = true /\ bGuardArmed s = false /\ ShardOf i = n /\ i < RPC_REQ_MASK;
  wf_session key l : mSessions sh !! key = Some l -> l <> [] /\ NoDup l;
  wf_indexed key i : i ∈ listed key (mSessions sh) <-> exists s, mSlots sh !! i = Some s /\ key_of s = key;
  wf_bucket k q : mExpire sh !! k = Some q -> q <> [] /\ NoDup (map e_iCallId q);
  wf_expiring k e : e ∈ listed k (mExpire sh) <-> exists s, mSlots sh !! e_iCallId e = Some s /\ stExpiry s = Some (k, e);
  wf_key i s k e : mSlots sh !! i = Some s -> stExpiry s = Some (k, e) ->
    e_iCallId e = i /\ k = Z.quot (iDeadlineMilliseconds e) kSweepMs
}.

Definition tables_wf (t : tables) : Prop := forall k, wf k (shard_at k t).

Definition slot (i : Z) (t : tables) : option RpcCoroSlot := mSlots (shard_at (ShardOf i) t) !! i.

Lemma listed_put {K A} `{Countable K} (k k' : K) (l : list A) m :
  listed k' (put_list k l m) = if decide (k' = k) then l else listed k' m.
Proof.
  unfold listed, put_list. destruct (decide (k' = k)) as [->|Hne]; destruct l;
    rewrite ?lookup_delete_eq, ?lookup_insert_eq, ?lookup_delete_ne, ?lookup_insert_ne by done; done.
Qed.

Lemma put_lookup {K A} `{Countable K} (k k' : K) (l l' : list A) m :
  put_list k l m !! k' = Some l' -> (k' = k /\ l' = l /\ l <> []) \/ (k' <> k /\ m !! k' = Some l').
Proof.
  unfold put_list. destruct l; intros E.
  - apply lookup_delete_Some in E as [? ?]. right. by split.
  - apply lookup_insert_Some in E as [[-> <-]|[? ?]]; [by left|right; by split].
Qed.

Lemma lookup_listed {K A} `{Countable K} (k : K) (l : list A) m : m !! k = Some l -> listed k m = l.
Proof. unfold listed. by intros ->. Qed.

Lemma listed_lookup {K A} `{Countable K} (k : K) (x : A) m : x ∈ listed k m -> m !! k = Some (listed k m).
Proof. unfold listed. destruct (m !! k); [done|]. by intros ?%not_elem_of_nil. Qed.

Lemma put_same {K A} `{Countable K} (k : K) (l : list A) m : m !! k = Some l -> l <> [] -> put_list k l m = m.
Proof. intros E Hl. unfold put_list. destruct l; [done|]. by apply insert_id. Qed.

Lemma put_put {K A} `{Countable K} (k : K) (l l' : list A) m : put_list k l (put_list k l' m) = put_list k l m.
Proof.
  unfold put_list. destruct l, l'; rewrite ?insert_insert_eq, ?delete_insert_eq, ?insert_delete_eq; try done.
  by rewrite delete_delete_eq.
Qed.

(** The other elements. *)
Definition others {A} (f : A -> Z) (i : Z) (l : list A) : list A := List.filter (fun x => negb (i =? f x)) l.

Lemma erase_others {A} (f : A -> Z) i l : NoDup (map f l) -> i ∈ map f l -> erase_node (fun x => i =? f x) l = Ok (others f i l).
Proof.
  unfold others. induction l as [|x l IH]; cbn [map erase_node List.filter]; intros Hn Hi; [by apply not_elem_of_nil in Hi|].
  apply NoDup_cons in Hn as [Hx Hn]. destruct (Z.eqb_spec i (f x)) as [->|Hne]; cbn [negb].
  - f_equal. symmetry. clear -Hx. induction l as [|y l IH]; [done|]. cbn [map List.filter] in *. apply not_elem_of_cons in Hx as [Hy Hx].
    destruct (Z.eqb_spec (f x) (f y)); [done|]. cbn. by rewrite IH.
  - apply elem_of_cons in Hi as [?|Hi]; [done|]. by rewrite IH.
Qed.

Lemma elem_of_others {A} (f : A -> Z) i l x : x ∈ others f i l <-> x ∈ l /\ f x <> i.
Proof. unfold others. rewrite !list_elem_of_In, filter_In. destruct (Z.eqb_spec i (f x)); cbn; intuition congruence. Qed.

Lemma others_map {A} (f : A -> Z) i l : map f (others f i l) = others id i (map f l).
Proof. unfold others. induction l as [|x l IH]; [done|]. cbn [map List.filter]. unfold id at 1. destruct (_ =? _); cbn; by rewrite IH. Qed.

Lemma NoDup_others i l : NoDup l -> NoDup (others id i l).
Proof. unfold others. intros H. apply NoDup_ListNoDup, List.NoDup_filter. by apply NoDup_ListNoDup. Qed.

Lemma others_notin {A} (f : A -> Z) i l : i ∉ map f l -> others f i l = l.
Proof.
  unfold others. induction l as [|x l IH]; [done|]. cbn [map List.filter]. intros [Hx Hi]%not_elem_of_cons.
  destruct (Z.eqb_spec i (f x)); [done|]. cbn. by rewrite IH.
Qed.

(** ** Taking out, as it should be *)

(** The shard without a call: what every way of taking it out amounts to. *)
Definition forget (i : Z) (sh : RpcCallShard) : RpcCallShard :=
  match mSlots sh !! i with
  | None => sh
  | Some s =>
      mkShard (delete i (mSlots sh))
        (match stExpiry s with
         | Some (k, _) => put_list k (others e_iCallId i (listed k (mExpire sh))) (mExpire sh)
         | None => mExpire sh
         end)
        (put_list (key_of s) (others id i (listed (key_of s) (mSessions sh))) (mSessions sh))
  end.

Lemma wf_forget n i sh : wf n sh -> wf n (forget i sh).
Proof.
  intros Hwf. unfold forget. destruct (mSlots sh !! i) as [s|] eqn:Es; [|done]. destruct Hwf as [H1 H2 H3 H4 H5 H6].
  split; cbn [mSlots mExpire mSessions].
  - intros j s'. rewrite lookup_delete_Some. intros [_ E]. by apply H1.
  - intros key l E. apply put_lookup in E as [(-> & -> & Hl)|[_ E]]; [|exact (H2 _ _ E)]. split; [done|].
    apply NoDup_others. unfold listed in *. destruct (mSessions sh !! key_of s) eqn:E; [exact (proj2 (H2 _ _ E))|by constructor].
  - intros key j. rewrite listed_put. case_decide as Hk; [subst key; rewrite elem_of_others|]; rewrite H3.
    + split; [intros ((s' & E & Ek) & Hj)|intros (s' & E & Ek)].
      * exists s'. split; [|done]. by rewrite lookup_delete_ne.
      * apply lookup_delete_Some in E as [Hj E]. split; [by exists s'|done].
    + split; intros (s' & E & Ek); exists s'; split; try done.
      * rewrite lookup_delete_ne; [done|]. intros ->. congruence.
      * by apply lookup_delete_Some in E as [_ ?].
  - intros k q. destruct (stExpiry s) as [[k0 e0]|]; [|apply H4]. intros E.
    apply put_lookup in E as [(-> & -> & Hq)|[_ E]]; [|exact (H4 _ _ E)]. split; [done|].
    rewrite others_map. apply NoDup_others. unfold listed in *. destruct (mExpire sh !! k0) eqn:E; [exact (proj2 (H4 _ _ E))|by constructor].
  - intros k e. assert (e ∈ listed k (mExpire sh) -> e_iCallId e = i -> exists e0, stExpiry s = Some (k, e0)) as Hi.
    { intros (s' & E & Ee)%H5 <-. rewrite Es in E. injection E as <-. by eexists. }
    assert ((exists s', delete i (mSlots sh) !! e_iCallId e = Some s' /\ stExpiry s' = Some (k, e)) <->
            e ∈ listed k (mExpire sh) /\ e_iCallId e <> i) as ->.
    { rewrite H5. split; [intros (s' & E & Ee)|intros [(s' & E & Ee) Hne]].
      - apply lookup_delete_Some in E as [? E]. split; [by exists s'|done].
      - exists s'. split; [|done]. by rewrite lookup_delete_ne. }
    destruct (stExpiry s) as [[k0 e0]|] eqn:Ex.
    + rewrite listed_put. case_decide as Hk; [subst k; by rewrite elem_of_others|].
      split; [intros He; split; [done|]|by intros [? _]]. intros ?. destruct (Hi He) as [? [= ? ?]]; congruence.
    + split; [intros He; split; [done|]|by intros [? _]]. intros ?. by destruct (Hi He) as [? ?].
  - intros j s' k e. rewrite lookup_delete_Some. intros [_ E]. by apply H6.
Qed.

(** A slot that has left the table, and its counter. *)
Definition taken (s : RpcCoroSlot) : RpcCoroSlot :=
  let s := set_indexed false (set_expiry None s) in if pGuard s then set_armed s else s.

Definition arm (s : RpcCoroSlot) (g : gmap Z Z) : gmap Z Z :=
  if pGuard s then <[iCallId s := count (iCallId s) g + 1]> g else g.

Lemma ArmRpcGuard_fresh s g : bGuardArmed s = false ->
  ArmRpcGuard s g = (if pGuard s then set_armed s else s, arm s g).
Proof. unfold ArmRpcGuard, arm. intros ->. rewrite orb_false_r. by destruct (pGuard s). Qed.

Lemma RemoveRpcExpiry_ok n i s sh : wf n sh -> mSlots sh !! i = Some s ->
  RemoveRpcExpiry s sh = Ok (set_expiry None s,
    set_expire (match stExpiry s with
                | Some (k, _) => put_list k (others e_iCallId i (listed k (mExpire sh))) (mExpire sh)
                | None => mExpire sh
                end) sh).
Proof.
  intros [H1 H2 H3 H4 H5 H6] Es. unfold RemoveRpcExpiry. destruct (stExpiry s) as [[k e]|] eqn:Ex.
  - destruct (H6 _ _ _ _ Es Ex) as [Ei _]. assert (e ∈ listed k (mExpire sh)) as He by (apply H5; exists s; by rewrite Ei).
    rewrite (listed_lookup _ _ _ He). unfold same_node. rewrite Ei, erase_others; [done| |].
    + exact (proj2 (H4 _ _ (listed_lookup _ _ _ He))).
    + rewrite <- Ei. by apply list_elem_of_fmap_2.
  - destruct s, sh; cbn in *. by rewrite Ex.
Qed.

Lemma RemoveSessionIndex_ok i s sh l : bIndexed s = true -> iCallId s = i -> mSessions sh !! key_of s = Some l -> NoDup l -> i ∈ l ->
  RemoveSessionIndex s sh = Ok (set_indexed false s, set_sessions (put_list (key_of s) (others id i l) (mSessions sh)) sh).
Proof.
  intros Eb <- El Hn Hi. unfold RemoveSessionIndex. rewrite Eb, El. cbn [negb].
  change (Z.eqb (iCallId s)) with (fun x => iCallId s =? id x). by rewrite erase_others; rewrite ?map_id.
Qed.

(** Calls taken out one after the other, each for a reason. *)
Inductive extract (why : RpcCoroSlot -> Prop) : RpcCallShard -> gmap Z Z -> list RpcCoroSlot -> RpcCallShard -> gmap Z Z -> Prop :=
| extract_none sh g : extract why sh g [] sh g
| extract_one sh g i s l sh' g' : mSlots sh !! i = Some s -> why s ->
    extract why (forget i sh) (arm s g) l sh' g' -> extract why sh g (taken s :: l) sh' g'.

Lemma extract_app why sh g l sh' g' l' sh'' g'' :
  extract why sh g l sh' g' -> extract why sh' g' l' sh'' g'' -> extract why sh g (l ++ l') sh'' g''.
Proof. induction 1; [done|]. intros ?. cbn. econstructor; [done..|auto]. Qed.

Lemma extract_wf why n sh g l sh' g' : extract why sh g l sh' g' -> wf n sh -> wf n sh'.
Proof. induction 1; [done|]. intros ?. auto using wf_forget. Qed.

(** Both removals together. *)
Lemma take_out_ok n i s sh : wf n sh -> mSlots sh !! i = Some s -> exists s1 sh1 sh2,
  RemoveRpcExpiry s sh = Ok (s1, sh1) /\ RemoveSessionIndex s1 sh1 = Ok (set_indexed false (set_expiry None s), sh2) /\
  set_slots (delete i (mSlots sh2)) sh2 = forget i sh.
Proof.
  intros Hwf Es. rewrite (RemoveRpcExpiry_ok n i) by done. destruct (wf_slot _ _ Hwf _ _ Es) as (Ei & Eb & _).
  assert (i ∈ listed (key_of s) (mSessions sh)) as Hi by (apply (wf_indexed _ _ Hwf); by exists s).
  do 3 eexists. split; [done|]. split; [apply (RemoveSessionIndex_ok i _ _ (listed (key_of s) (mSessions sh))); try done|].
  - cbn. by apply listed_lookup in Hi.
  - apply listed_lookup in Hi. exact (proj2 (wf_session _ _ Hwf _ _ Hi)).
  - unfold forget. by rewrite Es.
Qed.

Lemma shard_at_put k k' sh g t : shard_at k' (put_shard k sh g t) = if decide (k' = k) then sh else shard_at k' t.
Proof.
  unfold shard_at, put_shard. cbn. destruct (decide (k' = k)) as [->|Hne]; [by rewrite lookup_insert_eq|by rewrite lookup_insert_ne].
Qed.

Lemma put_shard_wf k sh g t : tables_wf t -> wf k sh -> tables_wf (put_shard k sh g t).
Proof. intros Ht Hs k'. rewrite shard_at_put. case_decide as E; [by rewrite E|apply Ht]. Qed.

Lemma slot_wf i s t : tables_wf t -> slot i t = Some s ->
  iCallId s = i /\ bIndexed s = true /\ bGuardArmed s = false /\ i < RPC_REQ_MASK.
Proof. intros Ht E. destruct (wf_slot _ _ (Ht _) _ _ E) as (? & ? & ? & ? & ?). done. Qed.

(** The tables without a call. *)
Definition without (i : Z) (g : gmap Z Z) (t : tables) : tables := put_shard (ShardOf i) (forget i (shard_at (ShardOf i) t)) g t.

Lemma without_wf i g t : tables_wf t -> tables_wf (without i g t).
Proof. intros Ht. apply put_shard_wf; [done|]. apply wf_forget, Ht. Qed.

Lemma forget_slots i j sh : mSlots (forget i sh) !! j = if decide (j = i) then None else mSlots sh !! j.
Proof.
  unfold forget. destruct (mSlots sh !! i) eqn:E; cbn; [rewrite lookup_delete|]; repeat case_decide; congruence.
Qed.

Lemma slot_without i j g t : slot j (without i g t) = if decide (j = i) then None else slot j t.
Proof.
  unfold slot, without. rewrite shard_at_put. case_decide as Ek; [|by rewrite decide_False by congruence].
  rewrite forget_slots, Ek. done.
Qed.

Lemma TakeRpcSlot_ok i src t : tables_wf t -> TakeRpcSlot i src t =
  Ok (match slot i t with
      | Some s => if from_source src s then (Some (taken s), without i (arm s (guards t)) t) else (None, t)
      | None => (None, t)
      end).
Proof.
  intros Ht. unfold TakeRpcSlot, slot. destruct (mSlots _ !! i) as [s|] eqn:Es; [|done]. destruct (from_source src s); [|done]. cbn [negb].
  destruct (take_out_ok _ i s _ (Ht _) Es) as (s1 & sh1 & sh2 & -> & E2 & E3). cbn [rbind]. rewrite E2. cbn [rbind].
  destruct (slot_wf i s t Ht Es) as (_ & _ & Eg & _). rewrite ArmRpcGuard_fresh by done. rewrite E3. done.
Qed.

Lemma AbandonSlot_ok i t : tables_wf t -> AbandonSlot i t =
  Ok (match slot i t with
      | Some s => (Some (set_indexed false (set_expiry None s)), without i (guards t) t)
      | None => (None, t)
      end).
Proof.
  intros Ht. unfold AbandonSlot, slot. destruct (mSlots _ !! i) as [s|] eqn:Es; [|done].
  destruct (take_out_ok _ i s _ (Ht _) Es) as (s1 & sh1 & sh2 & -> & E2 & E3). cbn [rbind]. rewrite E2. cbn [rbind]. by rewrite E3.
Qed.

(** *** A session that closes *)

(** An emptied list is erased after the batch. *)
Definition tidy (key : Z * Z) (sh : RpcCallShard) : RpcCallShard :=
  match mSessions sh !! key with Some [] => set_sessions (delete key (mSessions sh)) sh | _ => sh end.

Lemma fail_step n key sh i l : wf n sh -> mSessions sh !! key = Some (i :: l) -> exists s,
  mSlots sh !! i = Some s /\ key_of s = key /\
  forall sh1 s1, RemoveRpcExpiry s sh = Ok (s1, sh1) ->
    s1 = set_expiry None s /\
    tidy key (set_sessions (<[key := l]> (mSessions sh1)) (set_slots (delete i (mSlots sh1)) sh1)) = forget i sh.
Proof.
  intros Hwf El. pose proof (proj2 (wf_session _ _ Hwf _ _ El)) as Hn.
  assert (i ∈ listed key (mSessions sh)) as Hi by (rewrite (lookup_listed _ _ _ El); by left).
  apply (wf_indexed _ _ Hwf) in Hi as (s & Es & Ek). exists s. split_and!; [done..|]. intros sh1 s1.
  rewrite (RemoveRpcExpiry_ok n i) by done. intros [= <- <-]. split; [done|].
  unfold tidy, forget. rewrite Es. cbn. rewrite lookup_insert_eq, Ek, (lookup_listed _ _ _ El).
  assert (others id i (i :: l) = l) as ->.
  { unfold others. cbn [List.filter]. unfold id at 1. rewrite Z.eqb_refl. cbn.
    apply (others_notin id). rewrite map_id. by apply NoDup_cons in Hn as [? _]. }
  unfold put_list. destruct l; [|done]. unfold set_sessions. cbn. by rewrite delete_insert_eq.
Qed.

Lemma fail_batch_ok n b key sh g : wf n (tidy key sh) -> exists l sh' g',
  fail_batch b key sh g = Ok (l, sh', g') /\ extract (fun s => key_of s = key) (tidy key sh) g l (tidy key sh') g' /\
  (length l + length (listed key (mSessions sh')) = length (listed key (mSessions sh)))%nat /\
  (length l = b \/ listed key (mSessions sh') = []).
Proof.
  revert sh g; induction b as [|b IH]; intros sh g Hwf; cbn [fail_batch].
  { exists [], sh, g. split_and!; [done|constructor|done|by left]. }
  destruct (mSessions sh !! key) as [[|i l]|] eqn:El.
  - exists [], sh, g. split_and!; [done|constructor|done|]. right. by apply lookup_listed.
  - assert (tidy key sh = sh) as Et by (unfold tidy; by rewrite El). rewrite Et in Hwf |- *.
    destruct (fail_step n key sh i l Hwf El) as (s & Es & Ek & Hs). rewrite Es.
    rewrite (RemoveRpcExpiry_ok n i) by done. cbn [rbind].
    destruct (Hs _ _ (RemoveRpcExpiry_ok n i s sh Hwf Es)) as [_ Ef]. clear Hs.
    destruct (wf_slot _ _ Hwf _ _ Es) as (_ & _ & Eg & _). rewrite ArmRpcGuard_fresh by done.
    set (sh2 := set_sessions _ (set_slots _ _)) in *.
    destruct (IH sh2 (arm (set_indexed false (set_expiry None s)) g)) as (fl & sh' & g' & E & Hx & Hl & Hb).
    { rewrite Ef. by apply wf_forget. }
    rewrite E. cbn [rbind]. do 3 eexists. split; [done|]. rewrite Ef in Hx.
    assert (length (listed key (mSessions sh2)) = length l) as El2 by (unfold listed, sh2; cbn; by rewrite lookup_insert_eq).
    split_and!.
    + econstructor; [done..|]. exact Hx.
    + cbn. rewrite (lookup_listed _ _ _ El). cbn. lia.
    + cbn. destruct Hb as [->|Hb]; [by left|by right].
  - exists [], sh, g. split_and!; [done|constructor|done|]. right. unfold listed. by rewrite El.
Qed.

Definition calls_of (key : Z * Z) (k : Z) (t : tables) : list Z := listed key (mSessions (shard_at k t)).

(** A round takes calls of the session out, at least one, or there are none. *)
Lemma fail_round_ok key k t : tables_wf t -> 
  (fail_round key k t = Ok (None, t) /\ calls_of key k t = []) \/
  exists l sh' g', fail_round key k t = Ok (Some l, put_shard k sh' g' t) /\ extract (fun s => key_of s = key) (shard_at k t) (guards t) l sh' g' /\
    (length (listed key (mSessions sh')) < length (calls_of key k t))%nat.
Proof.
  intros Ht. unfold fail_round, calls_of. destruct (mSessions (shard_at k t) !! key) as [l|] eqn:El.
  - right. assert (tidy key (shard_at k t) = shard_at k t) as Et.
    { unfold tidy. rewrite El. destruct l; [|done]. by destruct (wf_session _ _ (Ht k) _ _ El). }
    destruct (fail_batch_ok k kBatch key (shard_at k t) (guards t)) as (fl & sh' & g' & -> & Hx & Hl & Hb); [by rewrite Et|].
    rewrite Et in Hx. cbn [rbind]. exists fl, (tidy key sh'), g'. split_and!; try done.
    assert (length (listed key (mSessions (tidy key sh'))) = length (listed key (mSessions sh'))) as ->.
    { unfold tidy. destruct (mSessions sh' !! key) as [[|]|] eqn:E; [|done..]. unfold listed. cbn. by rewrite lookup_delete_eq, E. }
    rewrite (lookup_listed _ _ _ El) in *. pose proof (proj1 (wf_session _ _ (Ht k) _ _ El)) as Hne.
    destruct Hb as [Hb|Hb]; [unfold kBatch in Hb; lia|]. rewrite Hb. cbn. destruct l; [done|cbn; lia].
  - left. split; [done|]. unfold listed. by rewrite El.
Qed.

(** *** The sweep *)

Definition due (iNow : Z) (s : RpcCoroSlot) : Prop :=
  match stExpiry s with Some (_, e) => iDeadlineMilliseconds e <= iNow | None => False end.

(** The shard with bucket [k] as the loop has it. *)
Definition with_bucket (k : Z) (q : list RpcExpire) (sh : RpcCallShard) : RpcCallShard :=
  set_expire (put_list k q (mExpire sh)) sh.

Lemma others_middle {A} (f : A -> Z) e (pre q : list A) : NoDup (map f (pre ++ e :: q)) -> others f (f e) (pre ++ e :: q) = pre ++ q.
Proof.
  rewrite map_app. cbn. rewrite NoDup_app, NoDup_cons. intros (_ & Hd & He & _). unfold others. rewrite List.filter_app. cbn [List.filter].
  rewrite Z.eqb_refl. cbn [negb]. f_equal.
  - apply (others_notin f). intros H. apply (Hd _ H). by left.
  - by apply (others_notin f).
Qed.

Lemma forget_bucket n k pre e q s sh : wf n (with_bucket k (pre ++ e :: q) sh) ->
  mSlots sh !! e_iCallId e = Some s -> stExpiry s = Some (k, e) ->
  forget (e_iCallId e) (with_bucket k (pre ++ e :: q) sh) =
  with_bucket k (pre ++ q) (mkShard (delete (e_iCallId e) (mSlots sh)) (mExpire sh)
    (put_list (key_of s) (others id (e_iCallId e) (listed (key_of s) (mSessions sh))) (mSessions sh))).
Proof.
  intros Hwf Es Ex. unfold forget. cbn [mSlots mExpire mSessions with_bucket set_expire]. rewrite Es, Ex.
  rewrite listed_put, decide_True, put_put by done. rewrite others_middle; [done|].
  apply (proj2 (wf_bucket _ _ Hwf k (pre ++ e :: q) ltac:(cbn; unfold put_list; destruct pre; cbn; by rewrite lookup_insert_eq))).
Qed.

Lemma sweep_bucket_ok n k iNow vQ pre sh g : wf n (with_bucket k (pre ++ vQ) sh) -> exists fired sh' g',
  let kept := List.filter (fun e => iNow <? iDeadlineMilliseconds e) vQ in
  sweep_bucket iNow vQ sh g = Ok (kept, fired, sh', g') /\ mExpire sh' = mExpire sh /\
  extract (due iNow) (with_bucket k (pre ++ vQ) sh) g fired (with_bucket k (pre ++ kept) sh') g'.
Proof.
  revert pre sh g; induction vQ as [|e vQ IH]; intros pre sh g Hwf; cbn [sweep_bucket List.filter].
  { exists [], sh, g. split_and!; [done..|constructor]. }
  assert (e ∈ listed k (mExpire (with_bucket k (pre ++ e :: vQ) sh))) as He.
  { cbn. rewrite listed_put, decide_True by done. apply elem_of_app. right. by left. }
  apply (wf_expiring _ _ Hwf) in He as (s & Es & Ex). cbn [mSlots with_bucket set_expire] in Es. rewrite Es.
  destruct (Z.ltb_spec iNow (iDeadlineMilliseconds e)) as [Hlt|Hle].
  - destruct (IH (pre ++ [e]) sh g) as (fired & sh' & g' & -> & Em & Hx); [by rewrite <- app_assoc|]. cbn [rbind].
    exists fired, sh', g'. split_and!; [done..|]. by rewrite <- !app_assoc in Hx.
  - destruct (wf_slot _ _ Hwf _ _ Es) as (Ei & Eb & Eg & _).
    assert (e_iCallId e ∈ listed (key_of s) (mSessions sh)) as Hi by (apply (wf_indexed _ _ Hwf); by exists s).
    rewrite (RemoveSessionIndex_ok (e_iCallId e) _ _ (listed (key_of s) (mSessions sh))); try done.
    2: { cbn. by apply listed_lookup in Hi. }
    2: { apply listed_lookup in Hi. exact (proj2 (wf_session _ _ Hwf _ _ Hi)). }
    cbn [rbind]. rewrite ArmRpcGuard_fresh by done. set (sh1 := set_slots _ _).
    pose proof (forget_bucket n k pre e vQ s sh Hwf Es Ex) as Ef. change (mkShard _ _ _) with sh1 in Ef.
    destruct (IH pre sh1 (arm (set_indexed false (set_expiry None s)) g)) as (fired & sh' & g' & -> & Em & Hx).
    { rewrite <- Ef. by apply wf_forget. }
    cbn [rbind]. do 3 eexists. split; [done|]. split; [by rewrite Em|]. econstructor; [exact Es|unfold due; by rewrite Ex|].
    rewrite Ef. exact Hx.
Qed.

Lemma extract_slots why sh g l sh' g' i s : extract why sh g l sh' g' -> mSlots sh' !! i = Some s -> mSlots sh !! i = Some s.
Proof. induction 1 as [|sh g j s0 l sh' g' E Hw Hx IH]; [done|]. intros ?%IH. rewrite forget_slots in *. by case_decide. Qed.

Lemma with_bucket_same k q sh : mExpire sh !! k = Some q -> q <> [] -> with_bucket k q sh = sh.
Proof. intros E Hq. unfold with_bucket. rewrite put_same by done. by destruct sh. Qed.

Lemma sweep_keys_ok n iNow ks sh g : wf n sh -> NoDup ks -> StronglySorted Z.le ks ->
  (forall k, k ∈ ks -> is_Some (mExpire sh !! k)) -> exists fired sh' g',
  sweep_keys iNow ks sh g = Ok (fired, sh', g') /\ extract (due iNow) sh g fired sh' g' /\
  forall i s k e, mSlots sh' !! i = Some s -> stExpiry s = Some (k, e) -> k ∈ ks -> iNow < iDeadlineMilliseconds e.
Proof.
  revert sh g; induction ks as [|k ks IH]; intros sh g Hwf Hn Hs Hk; cbn [sweep_keys].
  { exists [], sh, g. split_and!; [done|constructor|]. by intros i s k e _ _ ?%not_elem_of_nil. }
  destruct (Z.ltb_spec (Z.quot iNow kSweepMs) k) as [Hlt|Hle].
  { exists [], sh, g. split_and!; [done|constructor|]. intros i s k' e Es Ex Hk'. destruct (wf_key _ _ Hwf _ _ _ _ Es Ex) as [_ ->].
    assert (k <= Z.quot (iDeadlineMilliseconds e) kSweepMs) as Hge.
    { apply elem_of_cons in Hk' as [->|Hk']; [lia|]. inversion_clear Hs as [|? ? _ Hf]. rewrite Forall_forall in Hf. by apply Hf. }
    destruct (Z.lt_ge_cases iNow (iDeadlineMilliseconds e)); [done|].
    assert (Z.quot (iDeadlineMilliseconds e) kSweepMs <= Z.quot iNow kSweepMs) by (apply Z.quot_le_mono; [done|lia]). lia. }
  destruct (Hk k) as [q Eq]; [by left|]. rewrite Eq. destruct (wf_bucket _ _ Hwf _ _ Eq) as [Hq _].
  apply NoDup_cons in Hn as [Hkn Hn]. inversion_clear Hs as [|? ? Hs' _].
  pose proof (sweep_bucket_ok n k iNow q [] sh g) as (fired & sh1 & g1 & E1 & Em & Hx); [by rewrite with_bucket_same|].
  cbn [app] in Hx. rewrite with_bucket_same in Hx by done. rewrite E1. cbn [rbind].
  change (set_expire (put_list k _ (mExpire sh1)) sh1) with (with_bucket k (List.filter (fun e => iNow <? iDeadlineMilliseconds e) q) sh1).
  set (kept := List.filter _ q) in *. pose proof (extract_wf _ _ _ _ _ _ _ Hx Hwf) as Hwf1.
  destruct (IH (with_bucket k kept sh1) g1) as (fired' & sh' & g' & -> & Hx' & Hd); try done.
  { intros k' Hk'. cbn. unfold put_list. destruct kept; [rewrite lookup_delete_ne|rewrite lookup_insert_ne]; try (intros ->; done);
      rewrite Em; apply Hk; by right. }
  cbn [rbind]. exists (fired ++ fired'), sh', g'. split_and!; [done|by eapply extract_app|].
  intros i s k' e Es Ex Hk'. apply elem_of_cons in Hk' as [->|Hk']; [|by eapply Hd].
  apply (extract_slots _ _ _ _ _ _ _ _ Hx') in Es. destruct (wf_key _ _ Hwf1 _ _ _ _ Es Ex) as [Ei _].
  assert (e ∈ kept) as He.
  { assert (e ∈ listed k (mExpire (with_bucket k kept sh1))) as He by (apply (wf_expiring _ _ Hwf1); exists s; by rewrite Ei).
    cbn in He. by rewrite listed_put, decide_True in He by done. }
  unfold kept in He. apply list_elem_of_In, filter_In in He as [_ He]. by apply Z.ltb_lt.
Qed.

Lemma keys_in_order_ok m : NoDup (keys_in_order m) /\ StronglySorted Z.le (keys_in_order m) /\
  forall k, k ∈ keys_in_order m <-> is_Some (m !! k).
Proof.
  unfold keys_in_order. pose proof (merge_sort_Permutation Z.le (map fst (map_to_list m))) as Hp. split_and!.
  - rewrite Hp. apply NoDup_fst_map_to_list.
  - apply StronglySorted_merge_sort; apply _.
  - intros k. rewrite Hp, list_elem_of_fmap. split.
    + intros ([k' q] & -> & Hi%elem_of_map_to_list). by eexists.
    + intros [q Hq%elem_of_map_to_list]. by exists (k, q).
Qed.

(** The sweep takes out exactly the calls that are due. *)
Lemma sweep_shard_ok iNow k t : tables_wf t -> exists fired sh' g',
  sweep_shard iNow k t = Ok (fired, put_shard k sh' g' t) /\ extract (due iNow) (shard_at k t) (guards t) fired sh' g' /\
  forall i s, mSlots sh' !! i = Some s -> ~ due iNow s.
Proof.
  intros Ht. unfold sweep_shard. destruct (keys_in_order_ok (mExpire (shard_at k t))) as (Hn & Hs & Hk).
  destruct (sweep_keys_ok k iNow (keys_in_order (mExpire (shard_at k t))) (shard_at k t) (guards t)) as (fired & sh' & g' & -> & Hx & Hd);
    [done..|intros k'; by apply Hk|]. cbn [rbind]. exists fired, sh', g'. split_and!; [done..|].
  intros i s Es Hdue. unfold due in Hdue. destruct (stExpiry s) as [[k' e]|] eqn:Ex; [|done].
  assert (iNow < iDeadlineMilliseconds e); [|lia]. eapply Hd; [done..|]. apply Hk.
  pose proof (extract_slots _ _ _ _ _ _ _ _ Hx Es) as Es0. destruct (wf_key _ _ (Ht k) _ _ _ _ Es0 Ex) as [Ei _].
  assert (e ∈ listed k' (mExpire (shard_at k t))) as He by (apply (wf_expiring _ _ (Ht k)); exists s; by rewrite Ei).
  apply listed_lookup in He. by eexists.
Qed.

(** *** New calls and sending *)

Lemma listed_insert {K A} `{Countable K} (k k' : K) (l : list A) m :
  listed k' (<[k := l]> m) = if decide (k' = k) then l else listed k' m.
Proof. unfold listed. destruct (decide (k' = k)) as [->|]; [by rewrite lookup_insert_eq|by rewrite lookup_insert_ne]. Qed.

(** An entry at the end of a list. *)
Definition push_list {K A} `{Countable K} (k : K) (x : A) (m : gmap K (list A)) : gmap K (list A) := <[k := listed k m ++ [x]]> m.

Lemma elem_of_push {K A} `{Countable K} (k k' : K) (x y : A) m :
  y ∈ listed k' (push_list k x m) <-> y ∈ listed k' m \/ (k' = k /\ y = x).
Proof.
  unfold push_list. rewrite listed_insert. case_decide as E; [|intuition]. subst. rewrite elem_of_app, list_elem_of_singleton. intuition.
Qed.

Lemma push_lookup {K A} `{Countable K} (f : A -> Z) (k k' : K) (x : A) l m :
  (forall l, m !! k' = Some l -> l <> [] /\ NoDup (map f l)) -> f x ∉ map f (listed k m) ->
  push_list k x m !! k' = Some l -> l <> [] /\ NoDup (map f l).
Proof.
  intros Hm Hx E. unfold push_list in E. apply lookup_insert_Some in E as [[<- <-]|[Hne E]]; [|by apply Hm].
  split; [by destruct (listed k m)|]. rewrite map_app. apply NoDup_app. split_and!.
  - unfold listed in *. destruct (m !! k); [by apply Hm|constructor].
  - intros y Hy [->|?%not_elem_of_nil]%elem_of_cons; done.
  - cbn. apply NoDup_singleton.
Qed.

Lemma push_id_lookup (k k' : Z * Z) (x : Z) l m :
  (forall l, m !! k' = Some l -> l <> [] /\ NoDup l) -> x ∉ listed k m -> push_list k x m !! k' = Some l -> l <> [] /\ NoDup l.
Proof.
  intros Hm Hx E. destruct (push_lookup (fun x : Z => x) k k' x l m) as [Hl Hn]; [|by rewrite map_id|done|].
  - intros l' El. rewrite map_id. by apply Hm.
  - by rewrite map_id in Hn.
Qed.

Lemma wf_add n i s sh : wf n sh -> mSlots sh !! i = None ->
  iCallId s = i -> bIndexed s = true -> bGuardArmed s = false -> ShardOf i = n -> i < RPC_REQ_MASK ->
  (forall k e, stExpiry s = Some (k, e) -> e_iCallId e = i /\ k = Z.quot (iDeadlineMilliseconds e) kSweepMs) ->
  wf n (mkShard (<[i := s]> (mSlots sh)) (match stExpiry s with Some (k, e) => push_list k e (mExpire sh) | None => mExpire sh end)
          (push_list (key_of s) i (mSessions sh))).
Proof.
  intros [H1 H2 H3 H4 H5 H6] En Ei Eb Eg Esh Em Hx. split; cbn [mSlots mExpire mSessions].
  - intros j s'. rewrite lookup_insert. case_decide as Ej; [|apply H1]. intros [= <-]. by subst j.
  - intros key l. apply push_id_lookup; [apply H2|]. rewrite H3. intros (s' & E & _). congruence.
  - intros key j. rewrite elem_of_push, H3. split.
    + intros [(s' & E & Ek)|[-> ->]]; [|exists s; by rewrite lookup_insert_eq].
      exists s'. rewrite lookup_insert_ne; [done|]. intros ->. congruence.
    + intros (s' & E & Ek). rewrite lookup_insert in E. case_decide; [|left; by exists s'].
      right. injection E as <-. by subst.
  - intros k q. destruct (stExpiry s) as [[k0 e0]|] eqn:Ex; [|apply H4]. destruct (Hx _ _ eq_refl) as [E0 _].
    apply push_lookup; [apply H4|]. rewrite list_elem_of_fmap. intros (e & Ee & (s' & E & _)%H5). congruence.
  - intros k e. assert (e ∈ listed k (mExpire sh) -> e_iCallId e <> i) as Hne by (intros (s' & E & _)%H5 Eei; congruence).
    transitivity (e ∈ listed k (mExpire sh) \/ stExpiry s = Some (k, e)).
    { destruct (stExpiry s) as [[k0 e0]|] eqn:Ex; [rewrite elem_of_push|]; intuition congruence. }
    rewrite H5. split.
    + intros [(s' & E & Ee)|Ee]; [|destruct (Hx _ _ Ee) as [-> _]; exists s; by rewrite lookup_insert_eq].
      exists s'. rewrite lookup_insert_ne; [done|]. intros ->. congruence.
    + intros (s' & E & Ee). rewrite lookup_insert in E. case_decide; [right; congruence|left; by exists s'].
  - intros j s' k e. rewrite lookup_insert. case_decide as Ej; [|by apply H6]. intros [= <-] Ex. subst j. by apply Hx.
Qed.

(** A slot that changes in ways the lists do not see. *)
Lemma shard_wf_update n i s s' sh : wf n sh -> mSlots sh !! i = Some s ->
  iCallId s' = iCallId s -> bIndexed s' = bIndexed s -> bGuardArmed s' = bGuardArmed s -> key_of s' = key_of s -> stExpiry s' = stExpiry s ->
  wf n (set_slots (<[i := s']> (mSlots sh)) sh).
Proof.
  intros [H1 H2 H3 H4 H5 H6] Es E1 E2 E3 E4 E5.
  assert (forall j (P : RpcCoroSlot -> Prop), (P s' <-> P s) ->
    (exists q, <[i := s']> (mSlots sh) !! j = Some q /\ P q) <-> (exists q, mSlots sh !! j = Some q /\ P q)) as Hq.
  { intros j P HP. rewrite lookup_insert. case_decide as Ej; [|done]. subst j. rewrite Es.
    split; intros (q & [= <-] & H); eexists; (split; [done|]); by apply HP. }
  split; cbn [mSlots mExpire mSessions set_slots]; try done.
  - intros j q. rewrite lookup_insert. case_decide as Ej; [|apply H1]. intros [= <-]. subst j. rewrite E1, E2, E3. by apply H1.
  - intros key j. rewrite H3, (Hq j (fun q => key_of q = key)); [done|by rewrite E4].
  - intros k e. rewrite H5, (Hq (e_iCallId e) (fun q => stExpiry q = Some (k, e))); [done|by rewrite E5].
  - intros j q k e. rewrite lookup_insert. case_decide as Ej; [|apply H6]. intros [= <-]. subst j. rewrite E5. by apply H6.
Qed.

(** A call that moves to another session. *)
Lemma wf_rekey n i s sid sh : wf n sh -> mSlots sh !! i = Some s -> sid <> iSessionId s ->
  wf n (mkShard (<[i := set_sid sid s]> (mSlots sh)) (mExpire sh)
          (put_list (key_of s) (others id i (listed (key_of s) (mSessions sh))) (push_list (pManager s, sid) i (mSessions sh)))).
Proof.
  intros [H1 H2 H3 H4 H5 H6] Es Hsid. assert ((pManager s, sid) <> key_of s) as Hk by (unfold key_of; congruence).
  split; cbn [mSlots mExpire mSessions]; try done.
  - intros j q. rewrite lookup_insert. case_decide as Ej; [|apply H1]. intros [= <-]. subst j. by apply (H1 i s).
  - intros key l E. apply put_lookup in E as [(-> & -> & Hl)|[_ E]].
    + split; [done|]. apply NoDup_others. unfold listed. destruct (mSessions sh !! key_of s) eqn:E; [exact (proj2 (H2 _ _ E))|by constructor].
    + revert E. apply push_id_lookup; [apply H2|]. rewrite H3. intros (s' & E & Ek). rewrite Es in E. injection E as <-. done.
  - intros key j. rewrite listed_put. case_decide as Ek; [subst key; rewrite elem_of_others, H3|rewrite elem_of_push, H3].
    + split; [intros [(s' & E & Ek) Hj]; exists s'; by rewrite lookup_insert_ne|]. intros (s' & E & Ek). rewrite lookup_insert in E.
      case_decide; [injection E as <-; by destruct Hk|]. split; [by exists s'|done].
    + split.
      * intros [(s' & E & Ek')|[-> ->]]; [|eexists; by rewrite lookup_insert_eq]. exists s'. rewrite lookup_insert_ne; [done|]. intros ->. congruence.
      * intros (s' & E & Ek'). rewrite lookup_insert in E. case_decide; [|left; by exists s']. right. by injection E as <-.
  - intros k e. rewrite H5. split; intros (s' & E & Ee).
    + rewrite lookup_insert. case_decide as Ej; [|by exists s']. eexists. split; [done|]. rewrite <- Ej, Es in E. by injection E as <-.
    + rewrite lookup_insert in E. case_decide as Ej; [|by exists s']. exists s. rewrite <- Ej. split; [done|]. apply (inj Some) in E as <-. exact Ee.
  - intros j q k e. rewrite lookup_insert. case_decide as Ej; [|apply H6]. intros [= <-] Ex. subst j. exact (H6 _ _ _ _ Es Ex).
Qed.

Lemma slot_put i k sh g t : slot i (put_shard k sh g t) = if decide (ShardOf i = k) then mSlots sh !! i else slot i t.
Proof. unfold slot. rewrite shard_at_put. by case_decide. Qed.

Lemma slot_update i j s g t : slot j (put_shard (ShardOf i) (set_slots (<[i := s]> (mSlots (shard_at (ShardOf i) t))) (shard_at (ShardOf i) t)) g t) =
  if decide (j = i) then Some s else slot j t.
Proof.
  rewrite slot_put. cbn. rewrite lookup_insert. unfold slot. repeat case_decide; subst; congruence.
Qed.

Lemma MarkRpcAwaitingConnect_ok i t : tables_wf t -> exists t',
  MarkRpcAwaitingConnect i t = (bool_decide (is_Some (slot i t)), t') /\ tables_wf t' /\ guards t' = guards t /\ g_call_seq t' = g_call_seq t /\
  forall j, slot j t' = if decide (j = i) then set_awaiting true <$> slot i t else slot j t.
Proof.
  intros Ht. unfold MarkRpcAwaitingConnect. destruct (mSlots (shard_at (ShardOf i) t) !! i) as [s|] eqn:Es.
  - eexists. assert (slot i t = Some s) as E by exact Es. rewrite E, bool_decide_true by (by eexists). split_and!; [done| |done..|].
    + apply put_shard_wf; [done|]. apply (shard_wf_update _ i s); [apply Ht|done..].
    + intros j. apply slot_update.
  - exists t. assert (slot i t = None) as E by exact Es. rewrite E, bool_decide_false by (by intros [? ?]). split_and!; try done.
    intros j. case_decide; [by subst|done].
Qed.

Lemma ClaimRpcSend_ok i sid t : tables_wf t -> exists t',
  ClaimRpcSend i sid t = Ok (bool_decide (is_Some (slot i t)), t') /\ tables_wf t' /\ guards t' = guards t /\ g_call_seq t' = g_call_seq t /\
  forall j, slot j t' = if decide (j = i) then (fun s => set_awaiting false (set_sid sid s)) <$> slot i t else slot j t.
Proof.
  intros Ht. unfold ClaimRpcSend. destruct (mSlots (shard_at (ShardOf i) t) !! i) as [s|] eqn:Es.
  2: { exists t. assert (slot i t = None) as E by exact Es. rewrite E, bool_decide_false by (by intros [? ?]). split_and!; try done.
       intros j. case_decide; [by subst|done]. }
  assert (slot i t = Some s) as E by exact Es. rewrite E, bool_decide_true by (by eexists).
  destruct (wf_slot _ _ (Ht _) _ _ Es) as (Ei & Eb & _). destruct (Z.eqb_spec (iSessionId s) sid) as [Hsid|Hsid]; cbn [rbind].
  - assert (set_awaiting false (set_sid sid s) = set_awaiting false s) as Ea by (subst sid; by destruct s).
    eexists. split_and!; [done| |done..|].
    + apply put_shard_wf; [done|]. apply (shard_wf_update _ i s); [apply Ht|done..].
    + intros j. rewrite slot_update. cbn. by rewrite Ea.
  - pose proof (wf_rekey _ i s sid _ (Ht _) Es (not_eq_sym Hsid)) as Hwf.
    assert (i ∈ listed (key_of s) (mSessions (shard_at (ShardOf i) t))) as Hi by (apply (wf_indexed _ _ (Ht _)); by exists s).
    apply listed_lookup in Hi as El. assert ((pManager s, sid) <> key_of s) as Hk by (unfold key_of; congruence).
    rewrite (RemoveSessionIndex_ok i _ _ (listed (key_of s) (mSessions (shard_at (ShardOf i) t)))); try done.
    2: { cbn. by rewrite lookup_insert_ne by congruence. }
    2: { exact (proj2 (wf_session _ _ (Ht _) _ _ El)). }
    cbn [rbind]. assert (set_indexed true (set_indexed false s) = s) as -> by (destruct s; cbn in *; by subst).
    cbn [mSlots mSessions set_sessions AddSessionIndex] in *. rewrite Ei. eexists. split_and!; [done| |done..|].
    + apply put_shard_wf; [done|]. apply (shard_wf_update _ i (set_sid sid s) (set_awaiting false (set_sid sid s))) in Hwf; cbn in *; [|by rewrite lookup_insert_eq|done..].
      rewrite insert_insert_eq in Hwf. exact Hwf.
    + intros j. rewrite slot_put. cbn. rewrite lookup_insert. unfold slot. repeat case_decide; subst; congruence.
Qed.

(** The slot of a new call. *)
Definition new_slot (m sid resp iTimeoutMilliseconds : Z) (guard : bool) (sender : option Z) (iNow i : Z) : RpcCoroSlot :=
  mkSlot sender m sid resp i false false guard
    (if 0 <? iTimeoutMilliseconds then
       let e := mkExpire (deadline iNow iTimeoutMilliseconds) i in Some (Z.quot (iDeadlineMilliseconds e) kSweepMs, e)
     else None) true.

Lemma BindRpcCall_ok m sid resp timeout guard sender now t :
  tables_wf t -> 0 <= g_call_seq t < RPC_REQ_MASK -> slot (g_call_seq t) t = None -> exists t',
  BindRpcCall m sid resp timeout guard sender now t = (g_call_seq t, t') /\ tables_wf t' /\ guards t' = guards t /\
  g_call_seq t' = g_call_seq t + 1 /\
  forall j, slot j t' = if decide (j = g_call_seq t) then Some (new_slot m sid resp timeout guard sender now (g_call_seq t)) else slot j t.
Proof.
  intros Ht Hseq En. unfold BindRpcCall.
  assert (Z.land (g_call_seq t) (Z.lnot RPC_REQ_MASK) = g_call_seq t) as ->.
  { rewrite <- Z.ldiff_land. apply Z.bits_inj'. intros b Hb. rewrite Z.ldiff_spec. unfold RPC_REQ_MASK in *.
    destruct (Z.eq_dec b 63) as [->|Hne].
    - rewrite Z.pow2_bits_true, andb_false_r by lia. symmetry.
      destruct (Z.eq_dec (g_call_seq t) 0) as [->|]; [apply Z.testbit_0_l|]. apply Z.bits_above_log2; [lia|]. apply Z.log2_lt_pow2; lia.
    - by rewrite Z.pow2_bits_false, andb_true_r by lia. }
  set (i := g_call_seq t) in *. unfold slot in En. rewrite En. cbn [default].
  set (s := new_slot m sid resp timeout guard sender now i). set (sh := shard_at (ShardOf i) t) in *.
  assert (u64 (i + 1) = i + 1) as -> by (unfold RPC_REQ_MASK in Hseq; apply u64_small; lia).
  match goal with |- context [let (_, _) := ?p in _] => assert (p = (s, mkShard (mSlots sh)
    (match stExpiry s with Some (k, e) => push_list k e (mExpire sh) | None => mExpire sh end) (push_list (key_of s) i (mSessions sh)))) as -> end.
  { unfold s, new_slot. by destruct (0 <? timeout). }
  set (sh' := mkShard (mSlots sh) _ _). set (t0 := mkTables (g_call_shards t) (i + 1) (guards t)).
  assert (mkTables (<[ShardOf i := set_slots (<[i := s]> (mSlots sh')) sh']> (g_call_shards t)) (i + 1) (guards t) =
          put_shard (ShardOf i) (set_slots (<[i := s]> (mSlots sh')) sh') (guards t) t0) as -> by done.
  eexists. split_and!; [done| |done|done|].
  - apply put_shard_wf; [exact Ht|]. apply (wf_add (ShardOf i) i s sh); try done; [lia|]. intros k e Ex. unfold s, new_slot in Ex. cbn in Ex.
    destruct (0 <? timeout); [|done]. by injection Ex as <- <-.
  - intros j. rewrite slot_put. cbn. rewrite lookup_insert. change (slot j t0) with (slot j t). unfold slot, sh.
    repeat case_decide; subst; congruence.
Qed.

Lemma new_tables_wf : tables_wf new_tables.
Proof.
  intros k. unfold shard_at. cbn. split; cbn; try done.
  - intros key i. split; [by intros ?%not_elem_of_nil|by intros (s & ? & _)].
  - intros k' e. split; [by intros ?%not_elem_of_nil|by intros (s & ? & _)].
Qed.

(** *** Statistics *)

Lemma NoDup_lists {K A} `{Countable K} (f : A -> Z) (m : gmap K (list A)) (owner : Z -> option K) :
  (forall k l, m !! k = Some l -> NoDup (map f l) /\ forall x, x ∈ l -> owner (f x) = Some k) ->
  NoDup (map f (concat (map snd (map_to_list m)))).
Proof.
  intros Hm. assert (forall L : list (K * list A), NoDup (map fst L) -> (forall k l, (k, l) ∈ L -> NoDup (map f l) /\ forall x, x ∈ l -> owner (f x) = Some k) ->
    NoDup (map f (concat (map snd L)))) as H'.
  { induction L as [|[k l] L IH]; intros Hn HL; [constructor|]. cbn. cbn in Hn. apply NoDup_cons in Hn as [Hk Hn]. rewrite map_app.
    destruct (HL k l) as [Hl Ho]; [by left|]. apply NoDup_app. split_and!; [done| |apply IH; [done|intros k' l' Hk'; apply HL; by right]].
    intros i (x & -> & Hx)%list_elem_of_fmap (y & Ey & Hy)%list_elem_of_fmap. specialize (Ho _ Hx).
    apply list_elem_of_In, in_concat in Hy as (l' & Hl'%list_elem_of_In & Hy%list_elem_of_In).
    apply list_elem_of_fmap in Hl' as ([k' l''] & -> & Hin). destruct (HL k' l'') as [_ Ho']; [by right|].
    specialize (Ho' _ Hy). apply Hk, list_elem_of_fmap. exists (k', l''). split; [cbn; congruence|done]. }
  apply H'; [apply NoDup_fst_map_to_list|]. intros k l Hin%elem_of_map_to_list. by apply Hm.
Qed.

Lemma elem_of_lists {K A} `{Countable K} (x : A) (m : gmap K (list A)) :
  x ∈ concat (map snd (map_to_list m)) <-> exists k, x ∈ listed k m.
Proof.
  rewrite list_elem_of_In, in_concat. split.
  - intros (l & Hl%list_elem_of_In & Hx%list_elem_of_In). apply list_elem_of_fmap in Hl as ([k l'] & -> & Hin%elem_of_map_to_list).
    exists k. by rewrite (lookup_listed _ _ _ Hin).
  - intros (k & Hx). apply listed_lookup in Hx as E. exists (listed k m). split; apply list_elem_of_In; [|done].
    apply list_elem_of_fmap. exists (k, listed k m). split; [done|]. by apply elem_of_map_to_list.
Qed.

Lemma total_length {K A} (L : list (K * list A)) : total (fun b => lenZ (snd b)) L = lenZ (concat (map snd L)).
Proof.
  unfold total, lenZ. induction L as [|[k l] L IH]; [done|]. cbn [foldr map snd concat]. rewrite IH, length_app. lia.
Qed.

Lemma shard_counts n sh : wf n sh ->
  total (fun b => lenZ (snd b)) (map_to_list (mSessions sh)) = Z.of_nat (size (mSlots sh)) /\
  total (fun b => lenZ (snd b)) (map_to_list (mExpire sh)) <= Z.of_nat (size (mSlots sh)).
Proof.
  intros Hwf. pose proof (NoDup_fst_map_to_list (mSlots sh)) as Hd. rewrite !total_length. unfold lenZ.
  rewrite <- length_map_to_list, <- (length_map fst (map_to_list (mSlots sh))). split.
  - f_equal. apply Permutation_length, NoDup_Permutation; [|done|].
    + rewrite <- (map_id (concat _)). apply (NoDup_lists (fun i => i) _ (fun i => key_of <$> mSlots sh !! i)). intros k l E. rewrite map_id.
      split; [exact (proj2 (wf_session _ _ Hwf _ _ E))|]. intros i Hi. rewrite <- (lookup_listed _ _ _ E) in Hi.
      apply (wf_indexed _ _ Hwf) in Hi as (s & -> & <-). done.
    + intros i. rewrite elem_of_lists, list_elem_of_fmap. split.
      * intros (k & (s & E & _)%(wf_indexed _ _ Hwf)). exists (i, s). split; [done|]. by apply elem_of_map_to_list.
      * intros ([j s] & -> & E%elem_of_map_to_list). exists (key_of s). apply (wf_indexed _ _ Hwf). by exists s.
  - rewrite <- (length_map e_iCallId (concat _)). apply inj_le. apply submseteq_length, NoDup_submseteq.
    + apply (NoDup_lists e_iCallId _ (fun i => s ← mSlots sh !! i; fst <$> stExpiry s)). intros k l E.
      split; [exact (proj2 (wf_bucket _ _ Hwf _ _ E))|]. intros e He. rewrite <- (lookup_listed _ _ _ E) in He.
      apply (wf_expiring _ _ Hwf) in He as (s & -> & Ex). cbn. by rewrite Ex.
    + intros i (e & -> & (k & (s & E & _)%(wf_expiring _ _ Hwf))%elem_of_lists)%list_elem_of_fmap.
      apply list_elem_of_fmap. exists (e_iCallId e, s). split; [done|]. by apply elem_of_map_to_list.
Qed.

Lemma total_le {A} (f g : A -> Z) l : (forall x, x ∈ l -> f x <= g x) -> total f l <= total g l.
Proof.
  unfold total. induction l as [|x l IH]; intros Hl; cbn [foldr]; [lia|]. specialize (IH (fun y Hy => Hl y (list_elem_of_further _ _ _ Hy))).
  specialize (Hl x (list_elem_of_here _ _)). lia.
Qed.

Lemma total_eq {A} (f g : A -> Z) l : (forall x, x ∈ l -> f x = g x) -> total f l = total g l.
Proof. intros H. apply Z.le_antisymm; apply total_le; intros x Hx; by rewrite (H x Hx). Qed.

Lemma stats_agree t : tables_wf t ->
  iSessionEntries (GetRpcWaitStats t) = iCalls (GetRpcWaitStats t) /\ iExpirations (GetRpcWaitStats t) <= iCalls (GetRpcWaitStats t).
Proof.
  intros Ht. unfold GetRpcWaitStats. cbn [iSessionEntries iCalls iExpirations].
  assert (forall sh, sh ∈ map snd (map_to_list (g_call_shards t)) -> exists k, wf k sh) as Hwf.
  { intros sh ([k sh'] & -> & E%elem_of_map_to_list)%list_elem_of_fmap. exists k. specialize (Ht k). unfold shard_at in Ht. by rewrite E in Ht. }
  split; [apply total_eq|apply total_le]; intros sh [k Hk]%Hwf; by apply (shard_counts k).
Qed.

End RpcCalls.
