(* ===== verification/RpcClient.v ===== *)
(** * Clients and their calls

    cbaselib/proto/src/oi_rpc_session_manager.cpp and inc/oi_rpc_session_manager.h,
    class ProtoClientManager: a client's connection and the calls held back until
    there is one; and those parts of oi_rpc_call.cpp and inc/oi_rpc_coro.h that use
    the tables of RpcCalls.v: WakeRpcCall, FinishRpcSlot, AbandonRpcCall,
    FailRpcCalls, SweepRpcCalls, DeliverRpc, RpcCallAwaiter.

    All of this runs on many threads.  What a thread does under one lock is a
    [task]; a thread is the list of the tasks it has before it; a step runs the
    first task of some thread, which may put others in its place.  HoldCallLocked
    and SubmitCall take a shard's mutex inside the client's lock, once, so they are
    one task.  The client modelled is [self]; other managers have sessions only. *)

From S2P Require Import Prelude RpcCalls.

Module RpcClient.
Import RpcCalls.

(** ** The client *)

Record HeldCall : Type := mkHeld { h_iCallId : Z; stData : list byte }.

(** m_mHeldIndex, which finds a held call by its number, is the search by number. *)
Record client : Type := mkClient {
  m_iSessionId : Z;
  m_bConnected : bool;
  m_bEverConnected : bool;
  m_vPending : list (list byte);
  m_iPendingBytes : Z;
  m_vHeldCalls : list HeldCall;
  m_iHeldBytes : Z;
  m_iHeldMaxCount : Z;
  m_iHeldMaxBytes : Z
}.

Definition new_client (iCount iBytes : Z) : client := mkClient INVALID_SID false false [] 0 [] 0 iCount iBytes.

Definition set_connection (sid : Z) (b ever : bool) (c : client) : client :=
  mkClient sid b ever (m_vPending c) (m_iPendingBytes c) (m_vHeldCalls c) (m_iHeldBytes c) (m_iHeldMaxCount c) (m_iHeldMaxBytes c).
Definition set_pending (l : list (list byte)) (n : Z) (c : client) : client :=
  mkClient (m_iSessionId c) (m_bConnected c) (m_bEverConnected c) l n (m_vHeldCalls c) (m_iHeldBytes c) (m_iHeldMaxCount c) (m_iHeldMaxBytes c).
Definition set_held (l : list HeldCall) (n : Z) (c : client) : client :=
  mkClient (m_iSessionId c) (m_bConnected c) (m_bEverConnected c) (m_vPending c) (m_iPendingBytes c) l n (m_iHeldMaxCount c) (m_iHeldMaxBytes c).

Definition usable (c : client) : bool := m_bConnected c && negb (m_iSessionId c =? INVALID_SID).

(** false: there is no room. *)
Definition HoldCallLocked (i : Z) (l : list byte) (c : client) (t : tables) : bool * client * tables :=
  if (m_iHeldMaxCount c <=? lenZ (m_vHeldCalls c)) || (m_iHeldMaxBytes c <? m_iHeldBytes c) ||
     (u64 (m_iHeldMaxBytes c - m_iHeldBytes c) <? lenZ l) then (false, c, t)
  else
    let (found, t) := MarkRpcAwaitingConnect i t in
    if negb found then (true, c, t)
    else (true, set_held (m_vHeldCalls c ++ [mkHeld i l]) (u64 (m_iHeldBytes c + lenZ l)) c, t).

Fixpoint find_held (i : Z) (l : list HeldCall) : option HeldCall :=
  match l with
  | [] => None
  | h :: l => if h_iCallId h =? i then Some h else find_held i l
  end.

Fixpoint erase_held (i : Z) (l : list HeldCall) : list HeldCall :=
  match l with
  | [] => []
  | h :: l => if h_iCallId h =? i then l else h :: erase_held i l
  end.

Definition DropPendingCall (i : Z) (c : client) : client :=
  match find_held i (m_vHeldCalls c) with
  | None => c
  | Some h => set_held (erase_held i (m_vHeldCalls c)) (u64 (m_iHeldBytes c - lenZ (stData h))) c
  end.

(** What SendRawOrPend keeps when there is no connection; [None]: it sends. *)
Definition SendRawOrPend (l : list byte) (iMaxPendingBytes iMaxSendQueueBytes : Z) (c : client) : option (bool * client) :=
  if usable c then None
  else
    let n := Z.min iMaxPendingBytes iMaxSendQueueBytes in
    if (n <? m_iPendingBytes c) || (u64 (n - m_iPendingBytes c) <? lenZ l) then Some (false, c)
    else Some (true, set_pending (m_vPending c ++ [l]) (u64 (m_iPendingBytes c + lenZ l)) c).

(** The loop of OnAddSession: what is sent, until SendBytes fails. *)
Fixpoint send_pending (results : list bool) (vPending : list (list byte)) (n : Z) : list (list byte) * list (list byte) * Z :=
  match vPending with
  | [] => ([], [], n)
  | l :: rest =>
      if hd true results then
        let '(out, stay, n) := send_pending (tl results) rest (u64 (n - lenZ l)) in (l :: out, stay, n)
      else ([], vPending, n)
  end.

(** OnAddSession under the lock. *)
Definition OnAddSession (sid : Z) (results : list bool) (c : client) : list (list byte) * client :=
  let '(out, stay, n) := send_pending results (m_vPending c) (m_iPendingBytes c) in
  (out, set_connection sid true true (set_pending stay n c)).

Definition OnDelSession (sid : Z) (c : client) : client :=
  if m_iSessionId c =? sid then set_connection INVALID_SID false (m_bEverConnected c) c else c.

(** ** Threads *)

Inductive outcome : Type :=
| Replied (m sid resp : Z) (stBody : list byte)
| Failed (iCode : Z).

Inductive task : Type :=
| Submit (i : Z) (l : list byte)               (* SubmitCall under the client's lock *)
| ClaimSend (sid i : Z) (l : list byte)        (* the loop of FlushHeldCalls: ClaimRpcSend *)
| SendOn (m sid i : Z) (l : list byte)         (* SendBytesResult and what follows *)
| Wake (i iCode : Z)                           (* WakeRpcCall: TakeRpcSlot *)
| Finish (s : RpcCoroSlot) (o : outcome)       (* FinishRpcSlot: DropPendingCall *)
| Complete (s : RpcCoroSlot) (o : outcome)     (* FinishRpcSlot: the callbacks *)
| Release (i : Z)                              (* FinishRpcSlot: GuardRelease *)
| FlushHeldCalls (sid : Z)
| FailHeldCalls
| FailRpcCalls (m sid k : Z)                   (* from shard k on *)
| SweepRpcCalls (iNow k : Z) (vFired : list RpcCoroSlot)
| Abandon (i : Z)                              (* AbandonRpcCall under the mutex *)
| DropHeld (s : RpcCoroSlot)                   (* AbandonRpcCall: DropPendingCall *)
| WaitRpcGuard (i : Z).

(** [issued]: manager and protocol of each call; [claimed]: the sessions calls were
    bound to; [sent]: what SendBytesResult has taken; [destroyed]: awaiters gone. *)
Record state : Type := mkState {
  tabs : tables;
  cl : client;
  open : gset (Z * Z);
  issued : gmap Z (Z * Z);
  claimed : list (Z * Z * Z);
  sent : list (Z * Z * Z);
  finished : list (Z * outcome);
  abandoned : list Z;
  destroyed : list Z
}.

Definition set_tabs (t : tables) (s : state) : state :=
  mkState t (cl s) (open s) (issued s) (claimed s) (sent s) (finished s) (abandoned s) (destroyed s).
Definition set_cl (c : client) (s : state) : state :=
  mkState (tabs s) c (open s) (issued s) (claimed s) (sent s) (finished s) (abandoned s) (destroyed s).
Definition set_open (o : gset (Z * Z)) (s : state) : state :=
  mkState (tabs s) (cl s) o (issued s) (claimed s) (sent s) (finished s) (abandoned s) (destroyed s).
Definition claim (x : Z * Z * Z) (s : state) : state :=
  mkState (tabs s) (cl s) (open s) (issued s) (claimed s ++ [x]) (sent s) (finished s) (abandoned s) (destroyed s).
Definition log_sent (x : Z * Z * Z) (s : state) : state :=
  mkState (tabs s) (cl s) (open s) (issued s) (claimed s) (sent s ++ [x]) (finished s) (abandoned s) (destroyed s).
Definition log_finished (x : Z * outcome) (s : state) : state :=
  mkState (tabs s) (cl s) (open s) (issued s) (claimed s) (sent s) (finished s ++ [x]) (abandoned s) (destroyed s).
Definition log_abandoned (i : Z) (s : state) : state :=
  mkState (tabs s) (cl s) (open s) (issued s) (claimed s) (sent s) (finished s) (abandoned s ++ [i]) (destroyed s).
Definition log_destroyed (i : Z) (s : state) : state :=
  mkState (tabs s) (cl s) (open s) (issued s) (claimed s) (sent s) (finished s) (abandoned s) (destroyed s ++ [i]).

Section World.
Context (self : Z).

(** Whose DropPendingCall a slot calls: the sender's, else the manager's. *)
Definition drops_here (s : RpcCoroSlot) : bool :=
  match pSender s with Some c => c =? self | None => pManager s =? self end.

Definition drop_if_awaiting (s : RpcCoroSlot) (c : client) : client :=
  if bAwaitingConnect s && drops_here s then DropPendingCall (iCallId s) c else c.

(** SessionManager::SendBytesResult; [iResult] is what Session::SendResult returns. *)
Definition SendBytesResult (m sid iResult : Z) (s : state) : Z :=
  if decide ((m, sid) ∈ open s) then iResult else OI_ERR_CONNECT.

Definition timeout_code (s : RpcCoroSlot) : Z := if bAwaitingConnect s then OI_ERR_CONNECT else OI_ERR_TIMEOUT.

Definition finish_all (code : RpcCoroSlot -> Z) (l : list RpcCoroSlot) : list task := map (fun s => Finish s (Failed (code s))) l.

Definition SubmitCall (i : Z) (l : list byte) (s : state) : result (state * list task) :=
  let c := cl s in
  if usable c then
    let! (found, t) := ClaimRpcSend i (m_iSessionId c) (tabs s) in
    Ok (if found then (claim (self, m_iSessionId c, i) (set_tabs t s), [SendOn self (m_iSessionId c) i l]) else (set_tabs t s, []))
  else if negb (m_bEverConnected c) then
    let '(held, c, t) := HoldCallLocked i l c (tabs s) in
    Ok (set_cl c (set_tabs t s), if held then [] else [Wake i OI_ERR_BUSY])
  else Ok (s, [Wake i OI_ERR_CONNECT]).

(** One turn of FlushHeldCalls: ClaimRpcSend, then what is sent. *)
Definition flush_one (sid i : Z) (l : list byte) (s : state) : result (state * list task) :=
  let! (found, t) := ClaimRpcSend i sid (tabs s) in
  Ok (if found then (claim (self, sid, i) (set_tabs t s), [SendOn self sid i l]) else (set_tabs t s, [])).

(** SendBytesResult, and WakeRpcCall if it fails. *)
Definition send_or_wake (m sid i iResult : Z) (s : state) : state * list task :=
  let code := SendBytesResult m sid iResult s in
  if code =? OI_OK then (log_sent (m, sid, i) s, []) else (s, [Wake i code]).

Definition WakeRpcCall (i iCode : Z) (s : state) : result (state * list task) :=
  let! (r, t) := TakeRpcSlot i None (tabs s) in
  Ok (set_tabs t s, match r with Some x => [Finish x (Failed iCode)] | None => [] end).

(** FinishRpcSlot in three parts: DropPendingCall, the callbacks, GuardRelease. *)
Definition FinishRpcSlot (x : RpcCoroSlot) (o : outcome) (s : state) : state * list task :=
  (set_cl (drop_if_awaiting x (cl s)) s, [Complete x o]).

Definition call_back (x : RpcCoroSlot) (o : outcome) (s : state) : state * list task :=
  (log_finished (iCallId x, o) s, if bGuardArmed x then [Release (iCallId x)] else []).

Definition GuardRelease (i : Z) (s : state) : state :=
  let t := tabs s in set_tabs (mkTables (g_call_shards t) (g_call_seq t) (<[i := count i (guards t) - 1]> (guards t))) s.

Definition flush_held (sid : Z) (s : state) : state * list task :=
  (set_cl (set_held [] 0 (cl s)) s, map (fun h => ClaimSend sid (h_iCallId h) (stData h)) (m_vHeldCalls (cl s))).

Definition fail_held (s : state) : state * list task :=
  (set_cl (set_pending [] 0 (set_held [] 0 (cl s))) s, map (fun h => Wake (h_iCallId h) OI_ERR_CONNECT) (m_vHeldCalls (cl s))).

(** One turn of the inner loop of FailRpcCalls on shard [k]. *)
Definition fail_calls (m sid k : Z) (s : state) : result (state * list task) :=
  let! (r, t) := fail_round (m, sid) k (tabs s) in
  Ok (set_tabs t s,
      match r with
      | Some l => finish_all (fun _ => OI_ERR_CONNECT) l ++ [FailRpcCalls m sid k]
      | None => if k + 1 <? kCallShards then [FailRpcCalls m sid (k + 1)] else []
      end).

(** One shard of SweepRpcCalls. *)
Definition sweep_calls (iNow k : Z) (vFired : list RpcCoroSlot) (s : state) : result (state * list task) :=
  let! (fired, t) := sweep_shard iNow k (tabs s) in
  Ok (set_tabs t s,
      if k + 1 <? kCallShards then [SweepRpcCalls iNow (k + 1) (vFired ++ fired)] else finish_all timeout_code (vFired ++ fired)).

(** AbandonRpcCall, and WaitRpcGuard after it. *)
Definition AbandonRpcCall (i : Z) (s : state) : result (state * list task) :=
  let! (r, t) := AbandonSlot i (tabs s) in
  Ok (match r with
      | Some x => (log_abandoned i (set_tabs t s), [DropHeld x; WaitRpcGuard i])
      | None => (set_tabs t s, [WaitRpcGuard i])
      end).

Definition wait_guard (i : Z) (s : state) : state * list task :=
  if count i (guards (tabs s)) =? 0 then (log_destroyed i s, []) else (s, [WaitRpcGuard i]).

Definition exec (iResult : Z) (a : task) (s : state) : result (state * list task) :=
  match a with
  | Submit i l => SubmitCall i l s
  | ClaimSend sid i l => flush_one sid i l s
  | SendOn m sid i l => Ok (send_or_wake m sid i iResult s)
  | Wake i iCode => WakeRpcCall i iCode s
  | Finish x o => Ok (FinishRpcSlot x o s)
  | Complete x o => Ok (call_back x o s)
  | Release i => Ok (GuardRelease i s, [])
  | FlushHeldCalls sid => Ok (flush_held sid s)
  | FailHeldCalls => Ok (fail_held s)
  | FailRpcCalls m sid k => fail_calls m sid k s
  | SweepRpcCalls iNow k vFired => sweep_calls iNow k vFired s
  | Abandon i => AbandonRpcCall i s
  | DropHeld x => Ok (set_cl (drop_if_awaiting x (cl s)) s, [])
  | WaitRpcGuard i => Ok (wait_guard i s)
  end.

Definition TryPendCall (i : Z) (l : list byte) (s : state) : bool * state * list task :=
  let c := cl s in
  if m_bEverConnected c || usable c then (false, s, [])
  else
    let '(held, c, t) := HoldCallLocked i l c (tabs s) in
    (true, set_cl c (set_tabs t s), if held then [] else [Wake i OI_ERR_BUSY]).

(** ** Events *)

(** [last_sid]: the session managers' counters; [now]: the steady clock.  A call
    whose request cannot be encoded has no [frame]. *)
Record world : Type := mkWorld {
  st : state;
  threads : list (list task);
  last_sid : gmap Z Z;
  now : Z
}.

Inductive event : Type :=
| CallClient (resp iTimeoutMilliseconds : Z) (frame : option (list byte))          (* RpcCallAwaiter::Dispatch through the client *)
| CallSession (m sid resp iTimeoutMilliseconds : Z) (frame : option (list byte))   (* Dispatch on a session *)
| Reply (m sid resp i : Z) (stBody : list byte)                         (* DeliverRpc of an answer *)
| Opened (m : Z) (results : list bool)                                  (* AddSession *)
| CloseSession (m sid : Z)
| Deleted (sid : Z)                                                     (* OnDelSession of the client *)
| ConnectGivenUp                                                        (* OnConnectFailed without reconnecting, OnServiceDown *)
| Sweep
| Destroy (i : Z)                                                       (* ~RpcCallAwaiter *)
| Raw (l : list byte) (iMaxPendingBytes iMaxSendQueueBytes : Z)         (* SendRawOrPend *)
| Passes (d : Z)
| Aborted (m : Z)                                                       (* AbortSession: a session number is skipped *)
| Step (k : nat) (iResult : Z).                                         (* thread [k] goes on *)

Definition set_st (s : state) (w : world) : world := mkWorld s (threads w) (last_sid w) (now w).
Definition spawn (ts : list task) (w : world) : world := mkWorld (st w) (threads w ++ [ts]) (last_sid w) (now w).

Definition sid_after (m : Z) (w : world) : Z := match last_sid w !! m with Some n => n + 1 | None => 1 end.

Definition bind (m sid resp iTimeoutMilliseconds : Z) (sender : option Z) (w : world) : Z * state :=
  let s := st w in
  let (i, t) := BindRpcCall m sid resp iTimeoutMilliseconds true sender (now w) (tabs s) in
  (i, mkState t (cl s) (open s) (<[i := (m, resp)]> (issued s)) (claimed s) (sent s) (finished s) (abandoned s) (destroyed s)).

(** An answer: the part of DeliverRpc for them. *)
Definition DeliverRpc (m sid resp i : Z) (stBody : list byte) (w : world) : result world :=
  let! (r, t) := TakeRpcSlot i (Some (m, sid, resp)) (tabs (st w)) in
  Ok (spawn (match r with Some x => [Finish x (Replied m sid resp stBody)] | None => [] end) (set_st (set_tabs t (st w)) w)).

Definition AddSession (m : Z) (results : list bool) (w : world) : world :=
  let sid := sid_after m w in
  let s := set_open (open (st w) ∪ {[ (m, sid) ]}) (st w) in
  let w := mkWorld s (threads w) (<[m := sid]> (last_sid w)) (now w) in
  if m =? self then spawn [FlushHeldCalls sid] (set_st (set_cl (snd (OnAddSession sid results (cl s))) s) w) else w.

(** [None]: cannot happen now. *)
Definition do_event (e : event) (w : world) : option (result world) :=
  let s := st w in
  match e with
  | CallClient resp timeout frame =>
      let (i, s) := bind self INVALID_SID resp timeout (Some self) w in
      Some (Ok (spawn [match frame with Some l => Submit i l | None => Wake i OI_ERR_FAIL end] (set_st s w)))
  | CallSession m sid resp timeout frame =>
      let (i, s) := bind m sid resp timeout None w in
      Some (Ok (spawn [match frame with Some l => SendOn m sid i l | None => Wake i OI_ERR_FAIL end] (set_st (claim (m, sid, i) s) w)))
  | Reply m sid resp i stBody =>
      if 0 <? sid then Some (DeliverRpc m sid resp i stBody w) else None
  | Opened m results => Some (Ok (AddSession m results w))
  | CloseSession m sid =>
      if decide ((m, sid) ∈ open s) then Some (Ok (spawn [FailRpcCalls m sid 0] (set_st (set_open (open s ∖ {[ (m, sid) ]}) s) w)))
      else None
  | Deleted sid => if decide ((self, sid) ∈ open s) then None else Some (Ok (set_st (set_cl (OnDelSession sid (cl s)) s) w))
  | ConnectGivenUp => Some (Ok (spawn [FailHeldCalls] w))
  | Sweep => Some (Ok (spawn [SweepRpcCalls (now w) 0 []] w))
  | Destroy i => match issued s !! i with Some _ => Some (Ok (spawn [Abandon i] w)) | None => None end
  | Raw l a b =>
      Some (Ok (match SendRawOrPend l a b (cl s) with Some (_, c) => set_st (set_cl c s) w | None => w end))
  | Passes d => if 0 <=? d then Some (Ok (mkWorld s (threads w) (last_sid w) (now w + d))) else None
  | Aborted m => Some (Ok (mkWorld s (threads w) (<[m := sid_after m w]> (last_sid w)) (now w)))
  | Step k iResult =>
      match threads w !! k with
      | Some (a :: ts) =>
          Some (let! (s, new) := exec iResult a s in
                Ok (mkWorld s (<[k := new ++ ts]> (threads w)) (last_sid w) (now w)))
      | _ => None
      end
  end.

Fixpoint run (es : list event) (w : world) : option (result world) :=
  match es with
  | [] => Some (Ok w)
  | e :: es =>
      match do_event e w with
      | Some (Ok w) => run es w
      | r => r
      end
  end.

(** A client with its limits of held calls, at some time of the clock. *)
Definition start (iCount iBytes iNow : Z) : world :=
  mkWorld (mkState new_tables (new_client iCount iBytes) ∅ ∅ [] [] [] [] []) [] ∅ iNow.

End World.
End RpcClient.
