(* ===== verification/RpcRuns.v ===== *)
(** * Runs of calls

    The tables and the client of RpcCalls.v and RpcClient.v under any number of
    threads: where each call is, what it waits for, and how it ends. *)

From Stdlib Require Import Strings.Byte.
From S2P Require Import Prelude RpcCalls RpcClient.

Module RpcRuns.
Import RpcCalls RpcClient.

Ltac red_exec := cbn [exec]; unfold flush_one, send_or_wake, WakeRpcCall, FinishRpcSlot, call_back, GuardRelease, flush_held, fail_held, fail_calls, sweep_calls, AbandonRpcCall, wait_guard.

(** ** What the tables do to the set of calls *)

Definition ids (l : list RpcCoroSlot) : list Z := map iCallId l.

(** The calls [l] have left, each for a reason. *)
Record extracted (why : RpcCoroSlot -> Prop) (t : tables) (l : list RpcCoroSlot) (t' : tables) : Prop := mkExtracted {
  ex_wf : tables_wf t';
  ex_seq : g_call_seq t' = g_call_seq t;
  ex_slot i : slot i t' = if decide (i ∈ ids l) then None else slot i t;
  ex_nodup : NoDup (ids l);
  ex_from x : x ∈ l -> exists x0, slot (iCallId x) t = Some x0 /\ why x0 /\ x = taken x0;
  ex_guard i : (forall j x, slot j t = Some x -> pGuard x = true) -> count i (guards t') = count i (guards t) + Z.of_nat (cnt i (ids l))
}.

Lemma taken_id x : iCallId (taken x) = iCallId x.
Proof. unfold taken. by destruct (pGuard _). Qed.

Lemma count_arm i x g : count i (arm x g) = count i g + (if pGuard x then Z.of_nat (cnt i [iCallId x]) else 0).
Proof.
  unfold arm. destruct (pGuard x); [|lia]. rewrite cnt_cons, cnt_nil. unfold count. rewrite lookup_insert.
  destruct (Z.eq_dec (iCallId x) i) as [->|Hne]; [rewrite decide_True by done|rewrite decide_False by done]; lia.
Qed.

Lemma extract_ok why n sh g l sh' g' : extract why sh g l sh' g' -> wf n sh ->
  (forall i, mSlots sh' !! i = if decide (i ∈ ids l) then None else mSlots sh !! i) /\ NoDup (ids l) /\
  (forall x, x ∈ l -> exists x0, mSlots sh !! iCallId x = Some x0 /\ why x0 /\ x = taken x0) /\
  (forall i, (forall j x, mSlots sh !! j = Some x -> pGuard x = true) -> count i g' = count i g + Z.of_nat (cnt i (ids l))).
Proof.
  induction 1 as [sh g|sh g i s l sh' g' Es Hw Hx IH]; intros Hwf.
  { split_and!; [done|apply NoDup_nil_2|by intros x ?%not_elem_of_nil|intros; change (ids []) with (@nil Z); rewrite cnt_nil; lia]. }
  destruct (IH (wf_forget _ _ _ Hwf)) as (H1 & H2 & H3 & H4). destruct (wf_slot _ _ Hwf _ _ Es) as (Ei & _).
  assert (i ∉ ids l) as Hi.
  { intros (x & Ex & Hx')%list_elem_of_fmap. destruct (H3 _ Hx') as (x0 & E & _). rewrite forget_slots, <- Ex, decide_True in E by done. done. }
  cbn [ids map]. rewrite taken_id, Ei. split_and!.
  - intros j. rewrite H1, forget_slots. destruct (decide (j = i)) as [->|Hne].
    + rewrite (decide_True (P := i ∈ i :: ids l)) by (by left). by case_decide.
    + assert (j ∈ i :: ids l <-> j ∈ ids l) as Hj by (rewrite elem_of_cons; intuition). repeat case_decide; tauto || done.
  - by constructor.
  - intros x [->|Hx']%elem_of_cons; [exists s; by rewrite taken_id, Ei|]. destruct (H3 _ Hx') as (x0 & E & Hr). exists x0.
    rewrite forget_slots in E. by case_decide.
  - intros j Hg. rewrite H4.
    + rewrite count_arm, (Hg _ _ Es), Ei. unfold ids. rewrite (cnt_cons j i (map _ l)), (cnt_cons j i []), cnt_nil. lia.
    + intros j' x E. rewrite forget_slots in E. case_decide; [done|]. by eapply Hg.
Qed.

Lemma extract_extracted why k t l sh' g' : tables_wf t -> extract why (shard_at k t) (guards t) l sh' g' ->
  extracted why t l (put_shard k sh' g' t).
Proof.
  intros Ht Hx. destruct (extract_ok _ k _ _ _ _ _ Hx (Ht k)) as (H1 & H2 & H3 & H4).
  assert (forall x, x ∈ l -> exists x0, slot (iCallId x) t = Some x0 /\ why x0 /\ x = taken x0 /\ ShardOf (iCallId x) = k) as H3'.
  { intros x Hxl. destruct (H3 _ Hxl) as (x0 & E & Hr & Et). exists x0. destruct (wf_slot _ _ (Ht k) _ _ E) as (_ & _ & _ & Es & _).
    unfold slot. by rewrite Es. }
  split; try done.
  - apply put_shard_wf; [done|]. by eapply extract_wf.
  - intros i. rewrite slot_put. case_decide as Ek; [rewrite H1; unfold slot; by rewrite Ek|].
    rewrite decide_False; [done|]. intros (x & -> & Hxl)%list_elem_of_fmap. by destruct (H3' _ Hxl) as (? & _ & _ & _ & ?).
  - intros x Hxl. destruct (H3' _ Hxl) as (x0 & ? & ? & ? & _). by exists x0.
  - intros i Hg. cbn. apply H4. intros j x E. destruct (wf_slot _ _ (Ht k) _ _ E) as (_ & _ & _ & Es & _). apply (Hg j). unfold slot. by rewrite Es.
Qed.

Lemma extracted_nothing why t : tables_wf t -> extracted why t [] t.
Proof.
  intros Ht. split; try done; [apply NoDup_nil_2|by intros x ?%not_elem_of_nil|intros; change (ids []) with (@nil Z); rewrite cnt_nil; lia].
Qed.

(** The three ways a call leaves. *)
Lemma Take_extracted i src t : tables_wf t -> exists l t', extracted (from_source src) t l t' /\
  TakeRpcSlot i src t = Ok (match l with x :: _ => Some x | [] => None end, t') /\
  ((l = [] /\ t' = t /\ forall x, slot i t = Some x -> from_source src x = false) \/
   exists x, slot i t = Some x /\ l = [taken x]).
Proof.
  intros Ht. rewrite TakeRpcSlot_ok by done. destruct (slot i t) as [x|] eqn:Es.
  - destruct (from_source src x) eqn:Ef.
    + exists [taken x]. eexists. split_and!; [|done|right; by exists x]. apply extract_extracted; [done|].
      econstructor; [exact Es|by rewrite Ef|constructor].
    + exists [], t. split_and!; [by apply extracted_nothing|done|left]. split_and!; [done..|]. by intros ? [= <-].
  - exists [], t. split_and!; [by apply extracted_nothing|done|left]. done.
Qed.

Lemma fail_extracted key k t : tables_wf t -> exists l t', extracted (fun x => key_of x = key) t l t' /\
  ((fail_round key k t = Ok (Some l, t')) \/
   (fail_round key k t = Ok (None, t') /\ l = [] /\ forall i x, slot i t = Some x -> key_of x = key -> ShardOf i <> k)).
Proof.
  intros Ht. destruct (fail_round_ok key k t Ht) as [[E Hn]|(l & sh' & g' & E & Hx & _)].
  - exists [], t. split; [by apply extracted_nothing|]. right. split_and!; [done..|]. intros i x Es Ek <-.
    assert (i ∈ calls_of key (ShardOf i) t) as Hi by (apply (wf_indexed _ _ (Ht _)); by exists x). rewrite Hn in Hi. by apply not_elem_of_nil in Hi.
  - exists l. eexists. split; [by apply extract_extracted|]. by left.
Qed.

Lemma sweep_extracted iNow k t : tables_wf t -> exists l t', extracted (due iNow) t l t' /\ sweep_shard iNow k t = Ok (l, t') /\
  forall i x, slot i t' = Some x -> ShardOf i = k -> ~ due iNow x.
Proof.
  intros Ht. destruct (sweep_shard_ok iNow k t Ht) as (l & sh' & g' & E & Hx & Hd). exists l. eexists.
  split_and!; [by apply extract_extracted|done|]. intros i x Es Ek. rewrite slot_put, decide_True in Es by done. by eapply Hd.
Qed.

(** ** The invariant *)

(** Slots a task has in hand, calls whose counter it will release, calls it will
    submit. *)
Definition carried (a : task) : list RpcCoroSlot :=
  match a with
  | Finish x _ | Complete x _ => [x]
  | SweepRpcCalls _ _ l => l
  | _ => []
  end.
Definition releasing (a : task) : list Z := match a with Release i => [i] | _ => [] end.
Definition submitting (a : task) : list Z := match a with Submit i _ => [i] | _ => [] end.

Definition all {A} (f : task -> list A) (T : list task) : list A := concat (map f T).

Definition held_ids (c : client) : list Z := map h_iCallId (m_vHeldCalls c).

Definition present (i : Z) (t : tables) : nat := match slot i t with Some _ => 1 | None => 0 end.

Definition is_issued (i : Z) (t : tables) : bool := (1 <=? i) && (i <? g_call_seq t).

(** Each call is in one place, and its counter is what runs for it. *)
Record accounts (s : state) (C R : list Z) : Prop := mkAccounts {
  ac_wf : tables_wf (tabs s);
  ac_seq : 1 <= g_call_seq (tabs s);
  ac_place i : (present i (tabs s) + cnt i C + cnt i (map fst (finished s)) + cnt i (abandoned s) =
    if is_issued i (tabs s) then 1 else 0)%nat;
  ac_guard i : count i (guards (tabs s)) = Z.of_nat (cnt i C + cnt i R);
  ac_slot i x : slot i (tabs s) = Some x -> pGuard x = true /\ issued s !! i = Some (pManager x, iResponseId x) /\
    (iSessionId x = INVALID_SID \/ (key_of x, i) ∈ claimed s);
  ac_issued i q : issued s !! i = Some q -> is_issued i (tabs s) = true
}.

(** An answer is that of the request sent on its session. *)
Definition matched (s : state) (i : Z) (o : outcome) : Prop :=
  match o with
  | Replied m sid resp _ => issued s !! i = Some (m, resp) /\ (m, sid, i) ∈ claimed s
  | Failed _ => True
  end.

Section Runs.
Context (self : Z).

(** A call of the client. *)
Definition owned (s : state) (i : Z) : Prop := exists resp, issued s !! i = Some (self, resp).

Definition task_ok (s : state) (a : task) : Prop :=
  match a with
  | Submit i _ | ClaimSend _ i _ => owned s i
  | Finish x o | Complete x o => bGuardArmed x = true /\ matched s (iCallId x) o
  | SweepRpcCalls _ k l => 0 <= k /\ Forall (fun x => bGuardArmed x = true) l
  | FailRpcCalls _ _ k => 0 <= k
  | Abandon i => is_issued i (tabs s) = true
  | DropHeld x => is_issued (iCallId x) (tabs s) = true /\ slot (iCallId x) (tabs s) = None
  | WaitRpcGuard i => is_issued i (tabs s) = true /\ slot i (tabs s) = None
  | _ => True
  end.

(** What a waiting call waits for. *)
Definition about (i : Z) (key : Z * Z) (a : task) : Prop :=
  match a with
  | Submit j _ | ClaimSend _ j _ | Wake j _ => j = i
  | SendOn m sid j _ => j = i /\ (m, sid) = key
  | FailRpcCalls m sid k => (m, sid) = key /\ k <= ShardOf i
  | _ => False
  end.

Definition reason (T : list task) (s : state) (i : Z) (x : RpcCoroSlot) : Prop :=
  (exists a, a ∈ T /\ about i (key_of x) a) \/
  (bAwaitingConnect x = true /\ i ∈ held_ids (cl s)) \/
  (key_of x ∈ open s /\ (key_of x, i) ∈ sent s).

(** The client's books. *)
Record books (c : client) (iCount iBytes : Z) : Prop := mkBooks {
  bk_limits : m_iHeldMaxCount c = iCount /\ m_iHeldMaxBytes c = iBytes;
  bk_count : lenZ (m_vHeldCalls c) <= iCount;
  bk_sum : m_iHeldBytes c = total (fun h => lenZ (stData h)) (m_vHeldCalls c);
  bk_bytes : m_iHeldBytes c <= iBytes
}.

Record inv (iCount iBytes : Z) (T : list task) (s : state) : Prop := mkInv {
  iv_accounts : accounts s (ids (all carried T)) (all releasing T);
  iv_tasks a : a ∈ T -> task_ok s a;
  iv_reason i x : slot i (tabs s) = Some x -> reason T s i x;
  iv_submit i : (cnt i (all submitting T) + cnt i (held_ids (cl s)) <= if is_issued i (tabs s) then 1 else 0)%nat;
  iv_held : m_vHeldCalls (cl s) = [] \/ m_bEverConnected (cl s) = false \/ exists sid, FlushHeldCalls sid ∈ T;
  iv_owned i : i ∈ held_ids (cl s) -> owned s i;
  iv_books : books (cl s) iCount iBytes;
  iv_finished i o : (i, o) ∈ finished s -> matched s i o;
  iv_destroyed i : i ∈ destroyed s -> is_issued i (tabs s) = true /\ slot i (tabs s) = None /\ count i (guards (tabs s)) = 0
}.

Lemma all_app {A} (f : task -> list A) T T' : all f (T ++ T') = all f T ++ all f T'.
Proof. unfold all. by rewrite map_app, concat_app. Qed.

Lemma all_cons {A} (f : task -> list A) a T : all f (a :: T) = f a ++ all f T.
Proof. done. Qed.

#[local] Instance all_proper {A} (f : task -> list A) : Proper (Permutation ==> Permutation) (all f).
Proof.
  intros T T' H. induction H as [|a T T' _ IH|a b T|T1 T2 T3 _ IH1 _ IH2]; [done| | |by rewrite IH1].
  - rewrite !all_cons. by rewrite IH.
  - rewrite !all_cons, !app_assoc. by rewrite (Permutation_app_comm (f a)).
Qed.

#[local] Instance ids_proper : Proper (Permutation ==> Permutation) ids.
Proof. intros l l' H. unfold ids. by apply Permutation_map. Qed.

(** Only which tasks there are matters, not whose they are. *)
Lemma inv_perm iCount iBytes T T' s : T ≡ₚ T' -> inv iCount iBytes T s -> inv iCount iBytes T' s.
Proof.
  intros Hp [[A1 A2 A3 A4 A5 A6] H2 H3 H4 H5 H5' H6 H7 H8].
  assert (forall i, cnt i (ids (all carried T')) = cnt i (ids (all carried T))) as C1 by (intros i; by rewrite Hp).
  assert (forall i, cnt i (all releasing T') = cnt i (all releasing T)) as C2 by (intros i; by rewrite Hp).
  assert (forall i, cnt i (all submitting T') = cnt i (all submitting T)) as C3 by (intros i; by rewrite Hp).
  split.
  - split; try done; intros i; rewrite C1, ?C2; auto.
  - intros a Ha. apply H2. by rewrite Hp.
  - intros i x Es. destruct (H3 i x Es) as [(a & Ha & Hr)|Hr]; [left; exists a; by rewrite <- Hp|by right].
  - intros i. rewrite C3. apply H4.
  - destruct H5 as [?|[?|(sid & Hf)]]; [by left|right; by left|right; right; exists sid; by rewrite <- Hp].
  - done.
  - done.
  - done.
  - done.
Qed.

(** ** Preservation *)

Definition later (s s' : state) : Prop :=
  (forall i q, issued s !! i = Some q -> issued s' !! i = Some q) /\ claimed s ⊆ claimed s' /\
  g_call_seq (tabs s) <= g_call_seq (tabs s') /\
  (forall i, is_issued i (tabs s) = true -> slot i (tabs s) = None -> slot i (tabs s') = None).

Lemma matched_later s s' i o : later s s' -> matched s i o -> matched s' i o.
Proof. intros (H1 & H2 & _). destruct o; cbn; [|done]. intros [? ?]. split; auto. Qed.

Lemma is_issued_later i s s' : later s s' -> is_issued i (tabs s) = true -> is_issued i (tabs s') = true.
Proof. intros (_ & _ & H & _). unfold is_issued. rewrite !andb_true_iff, !Z.leb_le, !Z.ltb_lt. lia. Qed.

Lemma owned_later s s' i : later s s' -> owned s i -> owned s' i.
Proof. intros (H & _) [resp E]. exists resp. by apply H. Qed.

Lemma task_ok_later s s' a : later s s' -> task_ok s a -> task_ok s' a.
Proof.
  intros H. destruct a; cbn; try done.
  - by apply owned_later.
  - by apply owned_later.
  - intros [? ?]. split; [done|by eapply matched_later].
  - intros [? ?]. split; [done|by eapply matched_later].
  - by apply is_issued_later.
  - intros [Hi Hs]. split; [by eapply is_issued_later|]. by apply H.
  - intros [Hi Hs]. split; [by eapply is_issued_later|]. by apply H.
Qed.

Lemma reason_next a new R s s' i x :
  reason (a :: R) s i x ->
  (about i (key_of x) a -> reason (new ++ R) s' i x) ->
  (bAwaitingConnect x = true -> i ∈ held_ids (cl s) -> reason (new ++ R) s' i x) ->
  open s' = open s -> sent s ⊆ sent s' -> reason (new ++ R) s' i x.
Proof.
  intros [(b & Hb & Hab)|[[? ?]|[Ho Hs]]] Ha Hh Eo Es.
  - apply elem_of_cons in Hb as [->|Hb]; [by apply Ha|]. left. exists b. split; [|done]. apply elem_of_app. by right.
  - by apply Hh.
  - right. right. rewrite Eo. split; [done|]. by apply Es.
Qed.

(** Calls that are over stay so. *)
Definition calm (s s' : state) : Prop :=
  forall i, slot i (tabs s) = None -> count i (guards (tabs s)) = 0 -> count i (guards (tabs s')) = 0.

(** One step of one thread. *)
Lemma inv_gen iCount iBytes a new R s s' :
  inv iCount iBytes (a :: R) s -> later s s' -> calm s s' -> g_call_seq (tabs s') = g_call_seq (tabs s) ->
  accounts s' (ids (all carried (new ++ R))) (all releasing (new ++ R)) ->
  (forall b, b ∈ new -> task_ok s' b) ->
  (forall i x, slot i (tabs s') = Some x -> reason (new ++ R) s' i x) ->
  (forall i, cnt i (all submitting new) + cnt i (held_ids (cl s')) <= cnt i (submitting a) + cnt i (held_ids (cl s)))%nat ->
  (m_vHeldCalls (cl s') = [] \/ m_bEverConnected (cl s') = false \/ exists sid, FlushHeldCalls sid ∈ new ++ R) ->
  (forall i, i ∈ held_ids (cl s') -> owned s' i) ->
  books (cl s') iCount iBytes ->
  (forall i o, (i, o) ∈ finished s' -> matched s' i o) ->
  (forall i, i ∈ destroyed s' -> i ∈ destroyed s \/ (a = WaitRpcGuard i /\ count i (guards (tabs s)) = 0)) ->
  inv iCount iBytes (new ++ R) s'.
Proof.
  intros [A H2 H3 H4 H5 H5' H6 H7 H8] Hl Hc Eq A' Hn Hr Hs Hh Ho Hb Hfin Hd. split; try done.
  - intros b [Hb'|Hb']%elem_of_app; [by apply Hn|]. eapply task_ok_later; [exact Hl|]. apply H2. by right.
  - intros i. assert (is_issued i (tabs s') = is_issued i (tabs s)) as -> by (unfold is_issued; by rewrite Eq).
    specialize (H4 i). specialize (Hs i). rewrite all_cons, cnt_app in H4. rewrite all_app, cnt_app. lia.
  - intros i Hi. assert (is_issued i (tabs s) = true /\ slot i (tabs s) = None /\ count i (guards (tabs s)) = 0) as (Hi1 & Hi2 & Hi3).
    { destruct (Hd i Hi) as [Hi'|[-> Hi']]; [by apply H8|]. by destruct (H2 _ (list_elem_of_here _ _)). }
    split_and!; [by eapply is_issued_later|by apply Hl|by apply Hc].
Qed.

(** A step that leaves the client alone. *)
Lemma inv_next iCount iBytes a new R s s' :
  inv iCount iBytes (a :: R) s -> later s s' -> calm s s' -> cl s' = cl s -> g_call_seq (tabs s') = g_call_seq (tabs s) ->
  (forall sid, a <> FlushHeldCalls sid) ->
  accounts s' (ids (all carried (new ++ R))) (all releasing (new ++ R)) ->
  (forall b, b ∈ new -> task_ok s' b) ->
  (forall i x, slot i (tabs s') = Some x -> reason (new ++ R) s' i x) ->
  all submitting new = [] ->
  (forall i o, (i, o) ∈ finished s' -> matched s' i o) ->
  (forall i, i ∈ destroyed s' -> i ∈ destroyed s \/ (a = WaitRpcGuard i /\ count i (guards (tabs s)) = 0)) ->
  inv iCount iBytes (new ++ R) s'.
Proof.
  intros Hi Hl Hc Ec Eq Hf A' Hn Hr Hs Hfin Hd. apply (inv_gen _ _ _ _ _ _ _ Hi); rewrite ?Ec; try done.
  - intros i. rewrite Hs, cnt_nil. lia.
  - destruct (iv_held _ _ _ _ Hi) as [?|[?|(sid & Hsid)]]; [by left|right; by left|right; right].
    apply elem_of_cons in Hsid as [E|Hsid]; [by destruct (Hf sid)|]. exists sid. apply elem_of_app. by right.
  - intros i Hh. by eapply owned_later, (iv_owned _ _ _ _ Hi).
  - by apply (iv_books _ _ _ _ Hi).
Qed.

Lemma extracted_present why t l t' i : extracted why t l t' -> present i t = (present i t' + cnt i (ids l))%nat.
Proof.
  intros Hx. unfold present. rewrite (ex_slot _ _ _ _ Hx i). pose proof (cnt_NoDup i _ (ex_nodup _ _ _ _ Hx)). case_decide as Hi.
  - apply cnt_pos in Hi as Hp. apply list_elem_of_fmap in Hi as (x & -> & Hx').
    destruct (ex_from _ _ _ _ Hx x Hx') as (x0 & -> & _). lia.
  - assert (~ (0 < cnt i (ids l))%nat) by (by rewrite cnt_pos). lia.
Qed.

Lemma accounts_extract why s C R l t' : accounts s C R -> extracted why (tabs s) l t' -> accounts (set_tabs t' s) (ids l ++ C) R.
Proof.
  intros [A1 A2 A3 A4 A5 A6] Hx. split; cbn [tabs set_tabs finished abandoned issued claimed].
  - apply Hx.
  - by rewrite (ex_seq _ _ _ _ Hx).
  - intros i. specialize (A3 i). rewrite (extracted_present _ _ _ _ i Hx) in A3. rewrite cnt_app.
    unfold is_issued in *. rewrite (ex_seq _ _ _ _ Hx). lia.
  - intros i. rewrite (ex_guard _ _ _ _ Hx i) by (intros j x E; by destruct (A5 _ _ E)). rewrite A4, cnt_app. lia.
  - intros i x E. rewrite (ex_slot _ _ _ _ Hx i) in E. case_decide; [done|]. by apply A5.
  - intros i q E. unfold is_issued. rewrite (ex_seq _ _ _ _ Hx). by eapply A6.
Qed.

Lemma extracted_later why s l t' : extracted why (tabs s) l t' -> later s (set_tabs t' s).
Proof.
  intros Hx. split_and!; [done..| |].
  - cbn. rewrite (ex_seq _ _ _ _ Hx). lia.
  - intros i _ E. cbn. rewrite (ex_slot _ _ _ _ Hx i). by case_decide.
Qed.

Lemma extracted_calm why s C R l t' : accounts s C R -> extracted why (tabs s) l t' -> calm s (set_tabs t' s).
Proof.
  intros A Hx i E Hc. cbn. rewrite (ex_guard _ _ _ _ Hx i) by (intros j x Ej; by destruct (ac_slot _ _ _ A _ _ Ej)).
  pose proof (extracted_present _ _ _ _ i Hx) as Hp. unfold present in Hp. rewrite E in Hp. lia.
Qed.

(** The slots in hand have their counters raised. *)
Lemma extracted_armed why s C R l t' : accounts s C R -> extracted why (tabs s) l t' -> Forall (fun x => bGuardArmed x = true) l.
Proof.
  intros A Hx. apply Forall_forall. intros x Hxl. destruct (ex_from _ _ _ _ Hx x Hxl) as (x0 & E & _ & ->).
  destruct (ac_slot _ _ _ A _ _ E) as (Hg & _). unfold taken. cbn. by rewrite Hg.
Qed.

(** Calls leave the tables into tasks of the thread. *)
Lemma extract_inv iCount iBytes why a new R s l t' :
  inv iCount iBytes (a :: R) s -> extracted why (tabs s) l t' ->
  (forall sid, a <> FlushHeldCalls sid) -> releasing a = [] ->
  (forall i, cnt i (ids (all carried new)) = (cnt i (ids (carried a)) + cnt i (ids l))%nat) ->
  all releasing new = [] -> all submitting new = [] ->
  (forall b, b ∈ new -> task_ok (set_tabs t' s) b) ->
  (forall i x, slot i t' = Some x -> about i (key_of x) a -> exists b, b ∈ new /\ about i (key_of x) b) ->
  inv iCount iBytes (new ++ R) (set_tabs t' s).
Proof.
  intros Hi Hx Hf Hra Hc Hr Hs Hn Ha. pose proof (iv_accounts _ _ _ _ Hi) as A.
  eapply inv_next; [exact Hi|by eapply extracted_later|by eapply extracted_calm|done|by apply (ex_seq _ _ _ _ Hx)|done| |done| |done| |].
  - pose proof (accounts_extract _ _ _ _ _ _ A Hx) as [A1 A2 A3 A4 A5 A6].
    rewrite !all_cons, Hra in A4. split; try done; intros i.
    + specialize (A3 i). rewrite all_cons in A3. unfold ids in *. rewrite all_app, !map_app, !cnt_app in *. rewrite Hc. lia.
    + rewrite A4. unfold ids in *. rewrite !all_app, !map_app, !cnt_app in *. rewrite Hc, Hr. cbn [app]. rewrite cnt_nil. lia.
  - intros i x E. pose proof E as E0. cbn in E0. rewrite (ex_slot _ _ _ _ Hx i) in E0. case_decide; [done|].
    pose proof (iv_reason _ _ _ _ Hi i x E0) as Hre. eapply reason_next; [exact Hre| | |done|done].
    + intros Hab. left. destruct (Ha i x E Hab) as (b & Hb & Hbb). exists b. split; [|done]. apply elem_of_app. by left.
    + intros. right. by left.
  - intros i o Hio. eapply matched_later; [by eapply extracted_later|]. by apply (iv_finished _ _ _ _ Hi).
  - intros i Hd. by left.
Qed.

Definition step_ok (iCount iBytes iResult : Z) (a : task) : Prop := forall R s, inv iCount iBytes (a :: R) s ->
  exists s' new, exec self iResult a s = Ok (s', new) /\ inv iCount iBytes (new ++ R) s'.

Lemma elem_of_finish_all code l b : b ∈ finish_all code l <-> exists x, x ∈ l /\ b = Finish x (Failed (code x)).
Proof. unfold finish_all. rewrite list_elem_of_fmap. split; intros (x & ? & ?); exists x; done. Qed.

Lemma finish_all_carried code l : all carried (finish_all code l) = l.
Proof. unfold all, finish_all. induction l as [|x l IH]; [done|]. cbn. by rewrite IH. Qed.

Lemma finish_all_others code l : all releasing (finish_all code l) = [] /\ all submitting (finish_all code l) = [].
Proof. unfold all, finish_all. induction l as [|x l [IH1 IH2]]; [done|]. cbn. by rewrite IH1, IH2. Qed.

Lemma Wake_step iCount iBytes iResult i iCode : step_ok iCount iBytes iResult (Wake i iCode).
Proof.
  intros R s Hi. red_exec. pose proof (iv_accounts _ _ _ _ Hi) as A.
  destruct (Take_extracted i None (tabs s) (ac_wf _ _ _ A)) as (l & t' & Hx & -> & Hl). cbn [rbind].
  do 2 eexists. split; [done|]. pose proof (extracted_armed _ _ _ _ _ _ A Hx) as Har. rewrite Forall_forall in Har.
  assert (slot i t' = None) as Hn.
  { rewrite (ex_slot _ _ _ _ Hx i). destruct Hl as [(-> & -> & Hl)|(x & E & ->)].
    - cbn. rewrite decide_False by apply not_elem_of_nil. destruct (slot i (tabs s)) as [x|]; [|done]. by specialize (Hl x eq_refl).
    - rewrite decide_True; [done|]. cbn. rewrite taken_id. destruct (slot_wf i x _ (ac_wf _ _ _ A) E) as (-> & _). by left. }
  eapply extract_inv; [exact Hi|exact Hx|done|done| | | | |].
  - intros j. destruct Hl as [(-> & _)|(x & _ & ->)]; done.
  - by destruct l.
  - by destruct l.
  - intros b Hb. destruct l as [|x l]; [by apply not_elem_of_nil in Hb|]. apply list_elem_of_singleton in Hb as ->.
    split; [|done]. apply Har. by left.
  - intros j x E <-. congruence.
Qed.

Lemma Sweep_step iCount iBytes iResult iNow k vFired : step_ok iCount iBytes iResult (SweepRpcCalls iNow k vFired).
Proof.
  intros R s Hi. red_exec. pose proof (iv_accounts _ _ _ _ Hi) as A.
  destruct (sweep_extracted iNow k (tabs s) (ac_wf _ _ _ A)) as (l & t' & Hx & -> & _). cbn [rbind].
  do 2 eexists. split; [done|]. pose proof (extracted_armed _ _ _ _ _ _ A Hx) as Har.
  destruct (iv_tasks _ _ _ _ Hi _ (list_elem_of_here _ _)) as [Hk Hf].
  assert (Forall (fun x => bGuardArmed x = true) (vFired ++ l)) as Hall by (by apply Forall_app).
  eapply extract_inv; [exact Hi|exact Hx|done|done| | | | |by intros j x _ ?].
  - intros j. destruct (_ <? _); rewrite ?finish_all_carried; cbn; rewrite ?app_nil_r; unfold ids; by rewrite map_app, cnt_app.
  - destruct (_ <? _); [done|apply finish_all_others].
  - destruct (_ <? _); [done|apply finish_all_others].
  - rewrite Forall_forall in Hall. intros b Hb. destruct (_ <? _).
    + apply list_elem_of_singleton in Hb as ->. split; [lia|]. by apply Forall_forall.
    + apply elem_of_finish_all in Hb as (x & Hx' & ->). split; [by apply Hall|done].
Qed.

Lemma ShardOf_range i : 0 <= ShardOf i < kCallShards.
Proof. unfold ShardOf. by apply Z.mod_pos_bound. Qed.

Lemma Fail_step iCount iBytes iResult m sid k : step_ok iCount iBytes iResult (FailRpcCalls m sid k).
Proof.
  intros R s Hi. red_exec. pose proof (iv_accounts _ _ _ _ Hi) as A.
  destruct (fail_extracted (m, sid) k (tabs s) (ac_wf _ _ _ A)) as (l & t' & Hx & Hr).
  pose proof (extracted_armed _ _ _ _ _ _ A Hx) as Har. rewrite Forall_forall in Har.
  pose proof (iv_tasks _ _ _ _ Hi _ (list_elem_of_here _ _)) as Hk. cbn in Hk.
  destruct Hr as [->|(-> & -> & Hn)]; cbn [rbind]; do 2 eexists; (split; [done|]);
    (eapply extract_inv; [exact Hi|exact Hx|done|done|..]).
  - intros j. rewrite all_app, finish_all_carried. cbn. by rewrite app_nil_r.
  - rewrite all_app. by rewrite (proj1 (finish_all_others _ _)).
  - rewrite all_app. by rewrite (proj2 (finish_all_others _ _)).
  - intros b [Hb|Hb]%elem_of_app; [|by apply list_elem_of_singleton in Hb as ->].
    apply elem_of_finish_all in Hb as (x & Hxl & ->). split; [by apply Har|done].
  - intros i x _ Hab. exists (FailRpcCalls m sid k). split; [|done]. apply elem_of_app. right. by left.
  - intros j. by destruct (_ <? _).
  - by destruct (_ <? _).
  - by destruct (_ <? _).
  - intros b Hb. destruct (_ <? _); [|by apply not_elem_of_nil in Hb]. apply list_elem_of_singleton in Hb as ->. cbn. lia.
  - intros i x E [Ek Hle]. rewrite (ex_slot _ _ _ _ Hx i) in E. case_decide; [done|]. specialize (Hn i x E (eq_sym Ek)).
    pose proof (ShardOf_range i). destruct (Z.ltb_spec (k + 1) kCallShards); [|lia].
    exists (FailRpcCalls m sid (k + 1)). split; [by left|]. split; [done|lia].
Qed.

(** Slots may change but not come or go. *)
Lemma accounts_same s s' C R : accounts s C R ->
  tables_wf (tabs s') -> guards (tabs s') = guards (tabs s) -> g_call_seq (tabs s') = g_call_seq (tabs s) ->
  finished s' = finished s -> abandoned s' = abandoned s -> issued s' = issued s ->
  (forall j, present j (tabs s') = present j (tabs s)) ->
  (forall j x, slot j (tabs s') = Some x -> exists x0, slot j (tabs s) = Some x0 /\ pGuard x = pGuard x0 /\ pManager x = pManager x0 /\
    iResponseId x = iResponseId x0 /\ (iSessionId x0 = INVALID_SID \/ (key_of x0, j) ∈ claimed s -> iSessionId x = INVALID_SID \/ (key_of x, j) ∈ claimed s')) ->
  accounts s' C R.
Proof.
  intros [A1 A2 A3 A4 A5 A6] Hwf Eg Es Ef Ea Ei Hp Hs. split; unfold is_issued; rewrite ?Es, ?Ef, ?Ea, ?Ei, ?Eg; try done.
  - intros j. rewrite Hp. apply A3.
  - intros j x E. destruct (Hs j x E) as (x0 & E0 & E1 & E2 & E3 & Hc). destruct (A5 _ _ E0) as (? & ? & ?). rewrite E1, E2, E3. auto.
Qed.

(** A step that leaves the tables and the client alone. *)
Lemma inv_tables iCount iBytes a new R s s' :
  inv iCount iBytes (a :: R) s -> tabs s' = tabs s -> cl s' = cl s -> open s' = open s -> issued s' = issued s -> claimed s' = claimed s ->
  abandoned s' = abandoned s -> sent s ⊆ sent s' ->
  (forall sid, a <> FlushHeldCalls sid) -> all submitting new = [] ->
  (forall i, cnt i (ids (all carried new)) + cnt i (map fst (finished s')) = cnt i (ids (carried a)) + cnt i (map fst (finished s)))%nat ->
  (forall i, cnt i (ids (all carried new)) + cnt i (all releasing new) = cnt i (ids (carried a)) + cnt i (releasing a))%nat ->
  (forall b, b ∈ new -> task_ok s' b) ->
  (forall i x, slot i (tabs s) = Some x -> about i (key_of x) a ->
     (key_of x ∈ open s' /\ (key_of x, i) ∈ sent s') \/ exists b, b ∈ new /\ about i (key_of x) b) ->
  (forall i o, (i, o) ∈ finished s' -> matched s' i o) ->
  (forall i, i ∈ destroyed s' -> i ∈ destroyed s \/ (a = WaitRpcGuard i /\ count i (guards (tabs s)) = 0)) ->
  inv iCount iBytes (new ++ R) s'.
Proof.
  intros Hi Et Ec Eo Eis Ecl Eab Hsent Hf Hsn Hcnt Hg Hn Ha Hfin Hd. pose proof (iv_accounts _ _ _ _ Hi) as [A1 A2 A3 A4 A5 A6].
  eapply inv_next; [exact Hi| | |done|by rewrite Et|done| |done| |done|done|done].
  - split_and!; [by rewrite Eis|by rewrite Ecl|by rewrite Et|by rewrite Et].
  - intros i. by rewrite Et.
  - rewrite !all_cons in A4. split; rewrite ?Et, ?Eab, ?Eis, ?Ecl; try done; intros i.
    + specialize (A3 i). specialize (Hcnt i). rewrite all_cons in A3. unfold ids in *. rewrite all_app, !map_app, !cnt_app in *. lia.
    + rewrite A4. specialize (Hg i). unfold ids in *. rewrite !all_app, !map_app, !cnt_app in *. lia.
  - intros i x E. rewrite Et in E. eapply reason_next; [by apply (iv_reason _ _ _ _ Hi)| | |done|done].
    + intros Hab. destruct (Ha i x E Hab) as [Hs|(b & Hb & Hbb)]; [by right; right|]. left. exists b. split; [|done]. apply elem_of_app. by left.
    + intros Haw Hh. right. left. by rewrite Ec.
Qed.

Lemma SendOn_step iCount iBytes iResult m sid i l : step_ok iCount iBytes iResult (SendOn m sid i l).
Proof.
  intros R s Hi. red_exec. pose proof (iv_finished _ _ _ _ Hi) as Hfin. destruct (Z.eqb_spec (SendBytesResult m sid iResult s) OI_OK) as [E|E].
  - do 2 eexists. split; [done|]. eapply inv_tables; [exact Hi|try done..|].
    + intros x Hx. apply elem_of_app. by left.
    + intros b Hb. by apply not_elem_of_nil in Hb.
    + intros j x _ [<- Ek]. left. cbn. rewrite <- Ek. split; [|apply elem_of_app; right; by left].
      unfold SendBytesResult in E. by case_decide.
    + intros j Hd. by left.
  - do 2 eexists. split; [done|]. eapply inv_tables; [exact Hi|try done..|].
    + intros b Hb. by apply list_elem_of_singleton in Hb as ->.
    + intros j x _ [<- _]. right. eexists. split; [by left|done].
    + intros j Hd. by left.
Qed.

Lemma Complete_step iCount iBytes iResult x o : step_ok iCount iBytes iResult (Complete x o).
Proof.
  intros R s Hi. red_exec. pose proof (iv_finished _ _ _ _ Hi) as Hfin.
  destruct (iv_tasks _ _ _ _ Hi _ (list_elem_of_here _ _)) as [Hg Hm]. rewrite Hg. do 2 eexists. split; [done|].
  eapply inv_tables; [exact Hi|try done..|].
  - intros i. cbn. rewrite map_app, cnt_app. cbn. rewrite !cnt_cons, !cnt_nil. lia.
  - intros b Hb. by apply list_elem_of_singleton in Hb as ->.
  - intros i o' [Hio|Hio]%elem_of_app; [by apply Hfin|]. apply list_elem_of_singleton in Hio as [= -> ->]. done.
  - intros i Hd. by left.
Qed.

Lemma Wait_step iCount iBytes iResult i : step_ok iCount iBytes iResult (WaitRpcGuard i).
Proof.
  intros R s Hi. red_exec. pose proof (iv_finished _ _ _ _ Hi) as Hfin. pose proof (iv_tasks _ _ _ _ Hi _ (list_elem_of_here _ _)) as Hw.
  destruct (Z.eqb_spec (count i (guards (tabs s))) 0) as [E|E]; do 2 eexists; (split; [done|]); (eapply inv_tables; [exact Hi|try done..|]).
  - intros b Hb. by apply not_elem_of_nil in Hb.
  - intros j [Hj|Hj]%elem_of_app; [by left|]. apply list_elem_of_singleton in Hj as ->. by right.
  - intros b Hb. by apply list_elem_of_singleton in Hb as ->.
  - intros j Hd. by left.
Qed.

Lemma Release_step iCount iBytes iResult i : step_ok iCount iBytes iResult (Release i).
Proof.
  intros R s Hi. red_exec. pose proof (iv_finished _ _ _ _ Hi) as Hfin. pose proof (iv_accounts _ _ _ _ Hi) as [A1 A2 A3 A4 A5 A6].
  do 2 eexists. split; [done|]. set (t' := mkTables _ _ _).
  assert (forall j, count j (guards t') = count j (guards (tabs s)) - Z.of_nat (cnt j [i])) as Hg.
  { intros j. unfold t'. cbn [guards]. rewrite cnt_cons, cnt_nil. unfold count. rewrite lookup_insert.
    destruct (Z.eq_dec i j) as [->|Hne]; [rewrite decide_True by done|rewrite decide_False by done]; lia. }
  rewrite !all_cons in A4. cbn [releasing carried app] in A4.
  eapply inv_next; [exact Hi|done| |done..| | | |done|done|by left].
  - intros j _ E. cbn. rewrite Hg. specialize (A4 j). rewrite cnt_cons, cnt_nil. rewrite (cnt_cons j i (all releasing R)) in A4. lia.
  - split; cbn [tabs set_tabs finished abandoned issued claimed]; try done. intros j. rewrite Hg, A4. cbn [app].
    rewrite (cnt_cons j i (all releasing R)), (cnt_cons j i []), cnt_nil. lia.
  - intros b Hb. by apply not_elem_of_nil in Hb.
  - intros j x E. eapply reason_next; [by apply (iv_reason _ _ _ _ Hi)|done| |done|done]. intros. right. by left.
Qed.

Lemma Abandon_step iCount iBytes iResult i : step_ok iCount iBytes iResult (Abandon i).
Proof.
  intros R s Hi. red_exec. pose proof (iv_finished _ _ _ _ Hi) as Hfin. pose proof (iv_accounts _ _ _ _ Hi) as [A1 A2 A3 A4 A5 A6].
  pose proof (iv_tasks _ _ _ _ Hi _ (list_elem_of_here _ _)) as Hiss. cbn in Hiss.
  rewrite AbandonSlot_ok by done. destruct (slot i (tabs s)) as [x|] eqn:Es; cbn [rbind]; do 2 eexists; (split; [done|]).
  - set (t' := without i (guards (tabs s)) (tabs s)). assert (forall j, slot j t' = if decide (j = i) then None else slot j (tabs s)) as Hs by (intros j; apply slot_without).
    assert (later s (log_abandoned i (set_tabs t' s))) as Hl.
    { split_and!; [done|done|cbn; lia|]. intros j _ E. cbn. rewrite Hs. by case_decide. }
    eapply inv_next; [exact Hi|exact Hl|intros j _ Hj; exact Hj|done|done|done| | | |done|exact Hfin|by left].
    + split; cbn [tabs set_tabs finished abandoned issued claimed log_abandoned]; try done.
      * by apply without_wf.
      * intros j. specialize (A3 j). rewrite cnt_app, cnt_cons, cnt_nil. unfold present in *. rewrite Hs.
        change (is_issued j t') with (is_issued j (tabs s)). change (all carried ([DropHeld _; WaitRpcGuard i] ++ R)) with (all carried R).
        change (all carried (Abandon i :: R)) with (all carried R) in A3. destruct (Z.eq_dec i j) as [<-|Hne].
        -- rewrite decide_True by done. rewrite Es in A3. lia.
        -- rewrite decide_False by done. lia.
      * intros j y E. rewrite Hs in E. case_decide; [done|]. by apply A5.
    + destruct (slot_wf i x _ A1 Es) as (Ei & _). assert (slot i t' = None) as Hi' by (by rewrite Hs, decide_True).
      intros b [->|[->|[]%not_elem_of_nil]%elem_of_cons]%elem_of_cons; (split; [|cbn; by rewrite ?Ei]); cbn; by rewrite ?Ei.
    + intros j y E. cbn in E. rewrite Hs in E. case_decide; [done|].
      eapply reason_next; [by apply (iv_reason _ _ _ _ Hi)|done| |done|done]. intros. right. by left.
  - eapply inv_next; [exact Hi|done|intros j _ Hj; exact Hj|done|done|done| | | |done|exact Hfin|by left].
    + split; try done.
    + intros b ->%list_elem_of_singleton. done.
    + intros j y E. eapply reason_next; [by apply (iv_reason _ _ _ _ Hi)|done| |done|done]. intros. right. by left.
Qed.

(** A call is bound to a session, to be sent on it. *)
Lemma claim_step iCount iBytes a R s i sid l t' found :
  inv iCount iBytes (a :: R) s -> owned s i -> (forall sid, a <> FlushHeldCalls sid) ->
  carried a = [] -> releasing a = [] -> (forall j key, about j key a -> j = i) ->
  ClaimRpcSend i sid (tabs s) = Ok (found, t') ->
  inv iCount iBytes ((if found then [SendOn self sid i l] else []) ++ R)
    (if found then claim (self, sid, i) (set_tabs t' s) else set_tabs t' s).
Proof.
  intros Hi [resp Ho] Hf Hc Hr Ha Ecl. pose proof (iv_accounts _ _ _ _ Hi) as A. pose proof A as [A1 A2 A3 A4 A5 A6].
  destruct (ClaimRpcSend_ok i sid (tabs s) A1) as (t'' & E & Hwf & Eg & Eq & Hs). rewrite E in Ecl. injection Ecl as <- ->.
  assert (forall j, present j t' = present j (tabs s)) as Hp.
  { intros j. unfold present. rewrite Hs. case_decide as Ej; [subst; by destruct (slot i (tabs s))|done]. }
  rewrite !all_cons, Hc, Hr in A. cbn [app] in A.
  destruct (slot i (tabs s)) as [x|] eqn:Es; [rewrite bool_decide_true by (by eexists)|rewrite bool_decide_false by (by intros [? ?])].
  - destruct (A5 _ _ Es) as (_ & Em & _). rewrite Ho in Em. injection Em as Em _.
    assert (later s (claim (self, sid, i) (set_tabs t' s))) as Hl.
    { split_and!; [done|intros y Hy; apply elem_of_app; by left|cbn; lia|]. intros j _ Ej. cbn. rewrite Hs. case_decide; [congruence|done]. }
    eapply inv_next; [exact Hi|exact Hl|intros j _; cbn; by rewrite Eg|done|done|done| | | |done| |by left].
    + eapply accounts_same; [exact A|done..|]. intros j y Ey. cbn in Ey. rewrite Hs in Ey. case_decide as Ej.
      * subst j. exists x. injection Ey as <-. split_and!; [done..|]. intros _. right. unfold key_of. cbn. rewrite <- Em. apply elem_of_app. right. by left.
      * exists y. split_and!; [done..|]. intros [?|?]; [by left|right]. cbn. apply elem_of_app. by left.
    + intros b ->%list_elem_of_singleton. done.
    + intros j y Ey. cbn in Ey. rewrite Hs in Ey. case_decide as Ej.
      * subst j. injection Ey as <-. left. exists (SendOn self sid i l). split; [by left|]. split; [done|]. unfold key_of. cbn. by rewrite <- Em.
      * eapply reason_next; [by apply (iv_reason _ _ _ _ Hi)| | |done|done]; [intros ->%Ha; done|]. intros. right. by left.
    + intros j o Hj. eapply matched_later; [exact Hl|]. by apply (iv_finished _ _ _ _ Hi).
  - assert (forall j, slot j t' = slot j (tabs s)) as Hs' by (intros j; rewrite Hs; case_decide; [by subst|done]).
    assert (later s (set_tabs t' s)) as Hl.
    { split_and!; [done|done|cbn; lia|]. intros j _ Ej. cbn. by rewrite Hs'. }
    eapply inv_next; [exact Hi|exact Hl|intros j _; cbn; by rewrite Eg|done|done|done| | | |done| |by left].
    + eapply accounts_same; [exact A|done..|]. intros j y Ey. cbn in Ey. rewrite Hs' in Ey. exists y. done.
    + intros b []%not_elem_of_nil.
    + intros j y Ey. cbn in Ey. rewrite Hs' in Ey. eapply reason_next; [by apply (iv_reason _ _ _ _ Hi)| | |done|done].
      * intros ->%Ha. congruence.
      * intros. right. by left.
    + intros j o Hj. eapply matched_later; [exact Hl|]. by apply (iv_finished _ _ _ _ Hi).
Qed.

Lemma ClaimSend_step iCount iBytes iResult sid i l : step_ok iCount iBytes iResult (ClaimSend sid i l).
Proof.
  intros R s Hi. red_exec. pose proof (ac_wf _ _ _ (iv_accounts _ _ _ _ Hi)) as Hwf.
  destruct (ClaimRpcSend_ok i sid (tabs s) Hwf) as (t' & E & _). rewrite E. cbn [rbind].
  pose proof (claim_step _ _ _ _ _ i sid l _ _ Hi (iv_tasks _ _ _ _ Hi _ (list_elem_of_here _ _)) ltac:(done) eq_refl eq_refl
    ltac:(intros j key <-; done) E) as H. destruct (bool_decide _); by do 2 eexists.
Qed.

(** ** The client's books *)

Definition held_bytes (l : list HeldCall) : Z := total (fun h => lenZ (stData h)) l.

Lemma held_bytes_cons h l : held_bytes (h :: l) = lenZ (stData h) + held_bytes l.
Proof. done. Qed.

Lemma held_bytes_pos l : 0 <= held_bytes l.
Proof. induction l as [|h l IH]; [done|]. rewrite held_bytes_cons. unfold lenZ. lia. Qed.

Lemma held_bytes_app l l' : held_bytes (l ++ l') = held_bytes l + held_bytes l'.
Proof. induction l as [|h l IH]; [done|]. cbn [app]. rewrite !held_bytes_cons, IH. lia. Qed.

Lemma find_held_erase i l h : find_held i l = Some h -> exists a b, l = a ++ h :: b /\ erase_held i l = a ++ b /\ h_iCallId h = i.
Proof.
  induction l as [|y l IH]; [done|]. cbn. destruct (Z.eqb_spec (h_iCallId y) i) as [E|E].
  - intros [= ->]. by exists [], l.
  - intros H. destruct (IH H) as (a & b & -> & -> & Eh). by exists (y :: a), b.
Qed.

(** What is left after a call is dropped. *)
Lemma DropPendingCall_ok iCount iBytes i c : iBytes < 2 ^ 64 -> books c iCount iBytes ->
  books (DropPendingCall i c) iCount iBytes /\ m_bEverConnected (DropPendingCall i c) = m_bEverConnected c /\
  (m_vHeldCalls c = [] -> m_vHeldCalls (DropPendingCall i c) = []) /\
  (forall j, (cnt j (held_ids (DropPendingCall i c)) <= cnt j (held_ids c))%nat) /\
  (forall j, j <> i -> j ∈ held_ids c -> j ∈ held_ids (DropPendingCall i c)).
Proof.
  intros Hlim [H1 H2 H3 H4]. unfold DropPendingCall. destruct (find_held i (m_vHeldCalls c)) as [h|] eqn:Eh.
  2: { split_and!; done || (intros; lia) || (by split). }
  apply find_held_erase in Eh as (a & b & El & -> & Ei). fold (held_bytes (m_vHeldCalls c)) in H3. rewrite El, held_bytes_app, held_bytes_cons in H3.
  pose proof (held_bytes_pos a). pose proof (held_bytes_pos b). assert (0 <= lenZ (stData h)) by (unfold lenZ; lia).
  unfold held_ids. cbn [m_vHeldCalls set_held m_bEverConnected]. rewrite El. split_and!.
  - rewrite El in H2. unfold lenZ in H2. rewrite length_app in H2. cbn in H2. split; cbn [m_vHeldCalls m_iHeldBytes m_iHeldMaxCount m_iHeldMaxBytes set_held]; try done.
    + unfold lenZ. rewrite length_app. lia.
    + fold (held_bytes (a ++ b)). rewrite held_bytes_app, u64_small; lia.
    + rewrite u64_small; lia.
  - done.
  - by destruct a.
  - intros j. rewrite !map_app, !cnt_app. cbn. rewrite cnt_cons. lia.
  - intros j Hj. rewrite !map_app, !elem_of_app. cbn. rewrite elem_of_cons, Ei. intuition.
Qed.

(** A step that concerns the client only. *)
Lemma inv_client iCount iBytes a new R s c :
  inv iCount iBytes (a :: R) s -> all carried new = carried a -> all releasing new = releasing a -> submitting a = [] -> all submitting new = [] ->
  (forall i, cnt i (held_ids c) <= cnt i (held_ids (cl s)))%nat ->
  (m_vHeldCalls c = [] \/ (m_bEverConnected c = m_bEverConnected (cl s) /\ (m_vHeldCalls (cl s) = [] -> m_vHeldCalls c = []) /\
    forall sid, a <> FlushHeldCalls sid)) ->
  books c iCount iBytes -> (forall i, a <> WaitRpcGuard i) ->
  (forall b, b ∈ new -> task_ok (set_cl c s) b) ->
  (forall i x, slot i (tabs s) = Some x -> about i (key_of x) a -> exists b, b ∈ new /\ about i (key_of x) b) ->
  (forall i x, slot i (tabs s) = Some x -> i ∈ held_ids (cl s) -> i ∈ held_ids c \/ exists b, b ∈ new /\ about i (key_of x) b) ->
  inv iCount iBytes (new ++ R) (set_cl c s).
Proof.
  intros Hi Ec Er Esa Esn Hcnt Hheld Hb Hw Hn Ha Hh. eapply inv_gen; [exact Hi| |by intros j _|done| |done| | | | |done| |by left].
  - split_and!; [done|done|cbn; lia|done].
  - pose proof (iv_accounts _ _ _ _ Hi) as [A1 A2 A3 A4 A5 A6]. rewrite all_cons in A3. rewrite !all_cons in A4.
    split; cbn [tabs set_cl finished abandoned issued claimed]; rewrite ?all_app, ?Ec, ?Er; done.
  - intros i x E. eapply reason_next; [by apply (iv_reason _ _ _ _ Hi)| | |done|done].
    + intros Hab. destruct (Ha i x E Hab) as (b & Hb' & Hbb). left. exists b. split; [|done]. apply elem_of_app. by left.
    + intros Haw Hhi. destruct (Hh i x E Hhi) as [?|(b & Hb' & Hbb)]; [right; by left|]. left. exists b. split; [|done]. apply elem_of_app. by left.
  - intros i. rewrite Esn, Esa, !cnt_nil. cbn. specialize (Hcnt i). lia.
  - destruct Hheld as [?|(Ee & Hnil & Hf)]; [by left|]. destruct (iv_held _ _ _ _ Hi) as [?|[?|(sid & Hs)]]; cbn.
    + left. auto.
    + right. left. congruence.
    + apply elem_of_cons in Hs as [E|Hs]; [by destruct (Hf sid)|]. right. right. exists sid. apply elem_of_app. by right.
  - intros i Hi'. apply (iv_owned _ _ _ _ Hi). apply cnt_pos. cbn in Hi'. apply cnt_pos in Hi'. specialize (Hcnt i). lia.
  - apply (iv_finished _ _ _ _ Hi).
Qed.

Lemma drop_if_awaiting_ok iCount iBytes x c : iBytes < 2 ^ 64 -> books c iCount iBytes ->
  let c' := drop_if_awaiting self x c in
  books c' iCount iBytes /\ m_bEverConnected c' = m_bEverConnected c /\ (m_vHeldCalls c = [] -> m_vHeldCalls c' = []) /\
  (forall j, (cnt j (held_ids c') <= cnt j (held_ids c))%nat) /\ (forall j, j <> iCallId x -> j ∈ held_ids c -> j ∈ held_ids c').
Proof. intros Hlim Hb c'. subst c'. unfold drop_if_awaiting. destruct (_ && _); [by apply DropPendingCall_ok|done]. Qed.

(** A call that is waiting is in no other hands. *)
Lemma carried_gone iCount iBytes T s i x y : inv iCount iBytes T s -> x ∈ all carried T -> slot i (tabs s) = Some y -> i <> iCallId x.
Proof.
  intros Hi Hx E ->. pose proof (ac_place _ _ _ (iv_accounts _ _ _ _ Hi) (iCallId x)) as H. unfold present in H. rewrite E in H.
  assert (0 < cnt (iCallId x) (ids (all carried T)))%nat by (apply cnt_pos; unfold ids; by apply list_elem_of_fmap_2).
  destruct (is_issued _ _); lia.
Qed.

Lemma Finish_step iCount iBytes iResult x o : iBytes < 2 ^ 64 -> step_ok iCount iBytes iResult (Finish x o).
Proof.
  intros Hlim R s Hi. red_exec. do 2 eexists. split; [done|].
  destruct (drop_if_awaiting_ok _ _ x _ Hlim (iv_books _ _ _ _ Hi)) as (Hb & He & Hn & Hc & Hk).
  eapply inv_client; try done; [by right|..].
  - intros b ->%list_elem_of_singleton. exact (iv_tasks _ _ _ _ Hi _ (list_elem_of_here _ _)).
  - intros i y E Hh. left. apply Hk; [|done]. eapply carried_gone; [exact Hi| |exact E]. rewrite all_cons. apply elem_of_app. left. by left.
Qed.

Lemma DropHeld_step iCount iBytes iResult x : iBytes < 2 ^ 64 -> step_ok iCount iBytes iResult (DropHeld x).
Proof.
  intros Hlim R s Hi. red_exec. do 2 eexists. split; [done|].
  destruct (drop_if_awaiting_ok _ _ x _ Hlim (iv_books _ _ _ _ Hi)) as (Hb & He & Hn & Hc & Hk).
  destruct (iv_tasks _ _ _ _ Hi _ (list_elem_of_here _ _)) as [_ Hx].
  eapply inv_client; try done; [by right|..].
  - intros b []%not_elem_of_nil.
  - intros i y E Hh. left. apply Hk; [|done]. intros ->. cbn in Hx. congruence.
Qed.

Lemma books_empty iCount iBytes c : 0 <= iCount -> 0 <= iBytes -> books c iCount iBytes -> books (set_held [] 0 c) iCount iBytes.
Proof. intros Hc Hb [H1 H2 H3 H4]. by split. Qed.

Lemma books_pending iCount iBytes c l n : books c iCount iBytes -> books (set_pending l n c) iCount iBytes.
Proof. intros [H1 H2 H3 H4]. by split. Qed.

Lemma all_map {A B} (f : task -> list A) (g : B -> task) l : (forall x, f (g x) = []) -> all f (map g l) = [].
Proof. intros H. unfold all. induction l as [|x l IH]; [done|]. cbn. by rewrite H, IH. Qed.

Lemma Flush_step iCount iBytes iResult sid : 0 <= iCount -> 0 <= iBytes -> step_ok iCount iBytes iResult (FlushHeldCalls sid).
Proof.
  intros Hcn Hlim R s Hi. red_exec. do 2 eexists. split; [done|]. eapply inv_client; [exact Hi|..].
  - by apply all_map.
  - by apply all_map.
  - done.
  - by apply all_map.
  - intros i. cbn. rewrite cnt_nil. lia.
  - by left.
  - apply books_empty; [done..|]. by apply (iv_books _ _ _ _ Hi).
  - done.
  - intros b (h & -> & Hh)%list_elem_of_fmap. apply (iv_owned _ _ _ _ Hi). by apply list_elem_of_fmap_2.
  - done.
  - intros i x _ (h & -> & Hh)%list_elem_of_fmap. right. eexists. split; [by apply list_elem_of_fmap_2|]. done.
Qed.

Lemma FailHeld_step iCount iBytes iResult : 0 <= iCount -> 0 <= iBytes -> step_ok iCount iBytes iResult FailHeldCalls.
Proof.
  intros Hcn Hlim R s Hi. red_exec. do 2 eexists. split; [done|]. eapply inv_client; [exact Hi|..].
  - by apply all_map.
  - by apply all_map.
  - done.
  - by apply all_map.
  - intros i. cbn. rewrite cnt_nil. lia.
  - by left.
  - apply books_pending, books_empty; [done..|]. by apply (iv_books _ _ _ _ Hi).
  - done.
  - intros b (h & -> & Hh)%list_elem_of_fmap. done.
  - done.
  - intros i x _ (h & -> & Hh)%list_elem_of_fmap. right. eexists. split; [by apply list_elem_of_fmap_2|]. done.
Qed.

Lemma HoldCallLocked_ok iCount iBytes i l c t : iBytes < 2 ^ 64 -> books c iCount iBytes -> tables_wf t ->
  (HoldCallLocked i l c t = (false, c, t)) \/
  exists t' c', HoldCallLocked i l c t = (true, c', t') /\ tables_wf t' /\ guards t' = guards t /\ g_call_seq t' = g_call_seq t /\
    (forall j, slot j t' = if decide (j = i) then set_awaiting true <$> slot i t else slot j t) /\
    (c' = c /\ slot i t = None \/
     exists n, c' = set_held (m_vHeldCalls c ++ [mkHeld i l]) n c /\ books c' iCount iBytes).
Proof.
  intros Hlim [[H1 H1'] H2 H3 H4] Ht. unfold HoldCallLocked. rewrite H1, H1'.
  destruct (Z.leb_spec iCount (lenZ (m_vHeldCalls c))); [by left|]. destruct (Z.ltb_spec iBytes (m_iHeldBytes c)); [by left|].
  pose proof (held_bytes_pos (m_vHeldCalls c)) as Hp. fold (held_bytes (m_vHeldCalls c)) in H3.
  rewrite u64_small by lia. destruct (Z.ltb_spec (iBytes - m_iHeldBytes c) (lenZ l)); [by left|]. cbn [orb]. right.
  destruct (MarkRpcAwaitingConnect_ok i t Ht) as (t' & -> & Hwf & Eg & Eq & Hs). exists t'.
  destruct (slot i t) as [x|] eqn:Es.
  - rewrite bool_decide_true by (by eexists). cbn [negb]. assert (0 <= lenZ l) by (unfold lenZ; lia). rewrite u64_small by lia.
    eexists. split_and!; try done. right. eexists. split; [done|].
    split; cbn [m_vHeldCalls m_iHeldBytes m_iHeldMaxCount m_iHeldMaxBytes set_held]; try done.
    + unfold lenZ in *. rewrite length_app. cbn. lia.
    + fold (held_bytes (m_vHeldCalls c ++ [mkHeld i l])). rewrite held_bytes_app, held_bytes_cons. cbn. lia.
    + lia.
  - rewrite bool_decide_false by (by intros [? ?]). cbn [negb]. exists c. split_and!; try done. by left.
Qed.

Lemma Submit_step iCount iBytes iResult i l : iBytes < 2 ^ 64 -> step_ok iCount iBytes iResult (Submit i l).
Proof.
  intros Hlim R s Hi. red_exec. unfold SubmitCall. pose proof (iv_tasks _ _ _ _ Hi _ (list_elem_of_here _ _)) as Ho. cbn in Ho.
  pose proof (iv_accounts _ _ _ _ Hi) as A. pose proof A as [A1 A2 A3 A4 A5 A6]. rewrite !all_cons in A. cbn [carried releasing app] in A.
  destruct (usable (cl s)) eqn:Eu.
  { destruct (ClaimRpcSend_ok i (m_iSessionId (cl s)) (tabs s) A1) as (t' & E & _). rewrite E. cbn [rbind].
    pose proof (claim_step _ _ _ _ _ i (m_iSessionId (cl s)) l _ _ Hi Ho ltac:(done) eq_refl eq_refl ltac:(intros j key <-; done) E) as H.
    destruct (bool_decide _); by do 2 eexists. }
  assert (forall code, inv iCount iBytes ([Wake i code] ++ R) s) as Hwake.
  { intros code. eapply inv_tables; [exact Hi|done..| | | | | | |].
    - done.
    - done.
    - done.
    - intros b ->%list_elem_of_singleton. done.
    - intros j x _ <-. right. exists (Wake i code). split; [by left|done].
    - apply (iv_finished _ _ _ _ Hi).
    - by left. }
  destruct (m_bEverConnected (cl s)) eqn:Ee; cbn [negb]; [by do 2 eexists|].
  destruct (HoldCallLocked_ok iCount iBytes i l (cl s) (tabs s) Hlim (iv_books _ _ _ _ Hi) A1) as [->|(t' & c' & -> & Hwf & Eg & Eq & Hs & Hc)].
  { do 2 eexists. split; [done|]. replace (set_cl (cl s) (set_tabs (tabs s) s)) with s by (by destruct s). apply Hwake. }
  do 2 eexists. split; [done|]. assert (forall j, present j t' = present j (tabs s)) as Hp.
  { intros j. unfold present. rewrite Hs. case_decide; [subst; by destruct (slot i (tabs s))|done]. }
  assert (later s (set_cl c' (set_tabs t' s))) as Hl.
  { split_and!; [done|done|cbn; lia|]. intros j _ Ej. specialize (Hp j). unfold present in Hp. rewrite Ej in Hp. cbn. by destruct (slot j t'). }
  assert (m_bEverConnected c' = false) as Ee' by (destruct Hc as [[-> _]|(n & -> & _)]; done).
  eapply inv_gen; [exact Hi|exact Hl|intros j _; cbn; by rewrite Eg|done| | | | |right; by left| | | |by left].
  - eapply accounts_same; [exact A|done..|]. intros j x E. cbn in E. rewrite Hs in E. case_decide as Ej; [subst j|by exists x].
    destruct (slot i (tabs s)) as [x0|]; [|done]. injection E as <-. by exists x0.
  - intros b []%not_elem_of_nil.
  - intros j x E. cbn in E. rewrite Hs in E. case_decide as Ej.
    + subst j. destruct (slot i (tabs s)) as [x0|]; [|done]. injection E as <-. right. left. split; [done|]. destruct Hc as [[_ ?]|(n & -> & _)]; [done|].
      cbn. unfold held_ids. cbn. rewrite map_app. apply elem_of_app. right. by left.
    + eapply reason_next; [by apply (iv_reason _ _ _ _ Hi)| | |done|done]; [intros ?; congruence|]. intros Haw Hh. right. left. split; [done|].
      destruct Hc as [[-> _]|(n & -> & _)]; [done|]. cbn. unfold held_ids. cbn. rewrite map_app. apply elem_of_app. by left.
  - intros j. change (all submitting []) with (@nil Z). rewrite cnt_nil. cbn [cl set_cl]. destruct Hc as [[-> _]|(n & -> & _)]; [lia|].
    unfold held_ids. cbn [m_vHeldCalls set_held submitting]. rewrite map_app, cnt_app. cbn [map h_iCallId]. lia.
  - intros j Hj. eapply owned_later; [exact Hl|]. destruct Hc as [[-> _]|(n & -> & _)]; [by apply (iv_owned _ _ _ _ Hi)|].
    unfold held_ids in Hj. cbn in Hj. rewrite map_app in Hj. apply elem_of_app in Hj as [Hj|Hj]; [by apply (iv_owned _ _ _ _ Hi)|].
    apply list_elem_of_singleton in Hj as ->. done.
  - destruct Hc as [[-> _]|(n & -> & Hb)]; [by apply (iv_books _ _ _ _ Hi)|done].
  - intros j o Hj. eapply matched_later; [exact Hl|]. by apply (iv_finished _ _ _ _ Hi).
Qed.

Lemma exec_ok iCount iBytes iResult a : 0 <= iCount -> 0 <= iBytes < 2 ^ 64 -> step_ok iCount iBytes iResult a.
Proof.
  intros Hc [Hb Hlim]. destruct a; auto using Submit_step, ClaimSend_step, SendOn_step, Wake_step, Finish_step, Complete_step, Release_step,
    Flush_step, FailHeld_step, Fail_step, Sweep_step, Abandon_step, DropHeld_step, Wait_step.
Qed.

(** ** Events *)

(** A task that nothing is known of. *)
Lemma inv_spawn iCount iBytes b T s : inv iCount iBytes T s -> carried b = [] -> releasing b = [] -> submitting b = [] -> task_ok s b ->
  inv iCount iBytes (b :: T) s.
Proof.
  intros [[A1 A2 A3 A4 A5 A6] H2 H3 H4 H5 H5' H6 H7 H8] Ec Er Es Hb. split; try done.
  - split; rewrite ?all_cons, ?Ec, ?Er; done.
  - by intros a [->|Ha]%elem_of_cons; [|apply H2].
  - intros i x E. destruct (H3 i x E) as [(a & Ha & Hab)|?]; [|by right]. left. exists a. split; [by right|done].
  - intros i. by rewrite all_cons, Es.
  - destruct H5 as [?|[?|(sid & Hs)]]; [by left|right; by left|]. right. right. exists sid. by right.
Qed.

(** A new call. *)
Lemma bind_inv iCount iBytes T w m sid resp timeout sender b s' i :
  inv iCount iBytes T (st w) -> g_call_seq (tabs (st w)) < RPC_REQ_MASK ->
  bind m sid resp timeout sender w = (i, s') -> about i (m, sid) b -> carried b = [] -> releasing b = [] ->
  (submitting b = [] \/ submitting b = [i]) ->
  (forall s'', issued s'' !! i = Some (m, resp) -> task_ok s'' b) ->
  forall s'', s'' = s' /\ sid = INVALID_SID \/ s'' = claim (m, sid, i) s' -> inv iCount iBytes (b :: T) s''.
Proof.
  intros [A H2 H3 H4 H5 H5' H6 H7 H8] Hlt Eb Hab Ec Er Es Hb s'' Hs''. pose proof A as [A1 A2 A3 A4 A5 A6]. unfold bind in Eb.
  set (seq := g_call_seq (tabs (st w))) in *.
  assert (forall j, is_issued j (tabs (st w)) = true -> 1 <= j < seq) as Hiss.
  { intros j. unfold is_issued. rewrite andb_true_iff, Z.leb_le, Z.ltb_lt. done. }
  assert (slot seq (tabs (st w)) = None) as Hfree.
  { specialize (A3 seq). unfold present in A3. destruct (slot seq _) eqn:E; [|done]. destruct (is_issued seq (tabs (st w))) eqn:Ei; [|lia].
    apply Hiss in Ei. lia. }
  destruct (BindRpcCall_ok m sid resp timeout true sender (now w) (tabs (st w)) A1 ltac:(lia) Hfree) as (t' & Ebd & Hwf & Eg & Eq & Hs).
  rewrite Ebd in Eb. fold seq in Eb, Eq, Hs. injection Eb as <- <-. set (x := new_slot _ _ _ _ _ _ _ _) in *.
  assert (forall j, is_issued j t' = (is_issued j (tabs (st w)) || (j =? seq))) as Hiss'.
  { intros j. unfold is_issued. rewrite Eq. fold seq. destruct (Z.leb_spec 1 j), (Z.ltb_spec j (seq + 1)), (Z.ltb_spec j seq), (Z.eqb_spec j seq); try done; lia. }
  assert (is_issued seq (tabs (st w)) = false) as Hnew by (unfold is_issued; fold seq; rewrite Z.ltb_irrefl; apply andb_false_r).
  assert (issued (st w) !! seq = None) as Hni.
  { destruct (issued (st w) !! seq) eqn:E; [|done]. apply A6 in E. congruence. }
  assert (tabs s'' = t' /\ cl s'' = cl (st w) /\ open s'' = open (st w) /\ issued s'' = <[seq := (m, resp)]> (issued (st w)) /\
    claimed (st w) ⊆ claimed s'' /\ sent s'' = sent (st w) /\ finished s'' = finished (st w) /\ abandoned s'' = abandoned (st w) /\
    destroyed s'' = destroyed (st w) /\ (sid = INVALID_SID \/ (m, sid, seq) ∈ claimed s'')) as (Et & Ecl & Eo & Eis & Hcl & Esn & Ef & Ea & Ed & Hkey).
  { destruct Hs'' as [[-> ->]| ->]; cbn; split_and!; try done; [by left|intros y Hy; apply elem_of_app; by left|].
    right. apply elem_of_app. right. by left. }
  assert (later (st w) s'') as Hl.
  { split_and!; [|done|rewrite Et, Eq; fold seq; lia|].
    - intros j q E. rewrite Eis, lookup_insert_ne; [done|]. intros ->. congruence.
    - intros j Hj E. rewrite Et, Hs. case_decide; [|done]. apply Hiss in Hj. lia. }
  split.
  - split; rewrite ?Et, ?Ef, ?Ea, ?Eg; try done.
    + lia.
    + intros j. rewrite all_cons, Ec. cbn [app]. specialize (A3 j). unfold present in *. rewrite Hs, Hiss'. case_decide as Ej.
      * subst j. rewrite Hfree, Hnew in A3. rewrite Hnew, Z.eqb_refl. cbn. lia.
      * destruct (Z.eqb_spec j seq); [done|]. rewrite orb_false_r. done.
    + intros j. rewrite !all_cons, Ec, Er. apply A4.
    + intros j y E. rewrite Hs in E. rewrite Eis. case_decide as Ej.
      * subst j. injection E as <-. rewrite lookup_insert_eq. split_and!; [done..|]. destruct Hkey as [->|?]; [by left|by right].
      * rewrite lookup_insert_ne by done. destruct (A5 _ _ E) as (? & ? & Hk). split_and!; [done..|]. destruct Hk as [?|?]; [by left|right]. by apply Hcl.
    + intros j q. rewrite Eis, lookup_insert, Hiss'. case_decide as Ej; [subst; by rewrite Z.eqb_refl, orb_true_r|]. intros ->%A6. done.
  - intros a [->|Ha']%elem_of_cons; [|by eapply task_ok_later, H2]. apply Hb. by rewrite Eis, lookup_insert_eq.
  - intros j y E. rewrite Et, Hs in E. case_decide as Ej.
    + subst j. injection E as <-. left. exists b. split; [by left|done].
    + destruct (H3 j y E) as [(a & Ha' & Hab')|[[? ?]|[? ?]]]; [left; exists a; split; [by right|done]|right; left|right; right].
      * by rewrite Ecl.
      * by rewrite Eo, Esn.
  - intros j. rewrite all_cons, cnt_app, Ecl, Et, Hiss'. specialize (H4 j). destruct Es as [->| ->]; rewrite ?cnt_cons, ?cnt_nil.
    + destruct (is_issued j (tabs (st w))); cbn; [lia|]. destruct (j =? seq); lia.
    + destruct (Z.eq_dec seq j) as [<-|Hne]; [rewrite Hnew in *; rewrite Z.eqb_refl; cbn; lia|].
      destruct (Z.eqb_spec j seq); [congruence|]. rewrite orb_false_r. lia.
  - rewrite Ecl. destruct H5 as [?|[?|(sd & Hsd)]]; [by left|right; by left|]. right. right. exists sd. by right.
  - intros j. rewrite Ecl. intros Hj. by eapply owned_later, H5'.
  - by rewrite Ecl.
  - intros j o. rewrite Ef. intros Hj. by eapply matched_later, H7.
  - intros j. rewrite Ed. intros Hj. destruct (H8 j Hj) as (Hj1 & Hj2 & Hj3). rewrite Et, Eg. split_and!; [by rewrite Hiss', Hj1| |done].
    rewrite Hs. case_decide; [|done]. apply Hiss in Hj1. lia.
Qed.

Definition winv (iCount iBytes : Z) (w : world) : Prop := inv iCount iBytes (concat (threads w)) (st w).

(** The connections and the client's other books change. *)
Lemma inv_open iCount iBytes T s o c :
  inv iCount iBytes T s -> m_vHeldCalls c = m_vHeldCalls (cl s) -> books c iCount iBytes ->
  (m_bEverConnected c = m_bEverConnected (cl s) \/ exists sid, FlushHeldCalls sid ∈ T) ->
  (forall key, key ∈ open s -> key ∈ o \/ exists m sid, key = (m, sid) /\ FailRpcCalls m sid 0 ∈ T) ->
  inv iCount iBytes T (set_cl c (set_open o s)).
Proof.
  intros [[A1 A2 A3 A4 A5 A6] H2 H3 H4 H5 H5' H6 H7 H8] Eh Hb He Ho. split; try done; cbn [cl set_cl]; unfold held_ids in *; rewrite ?Eh; try done.
  - intros i x E. destruct (H3 i x E) as [?|[[? ?]|[Hop Hs]]]; [by left|right; left; split; [done|]; cbn; unfold held_ids; by rewrite Eh|].
    destruct (Ho _ Hop) as [?|(m & sid & Ek & Hf)]; [by right; right|]. left. exists (FailRpcCalls m sid 0). split; [done|].
    split; [done|]. pose proof (ShardOf_range i). lia.
  - destruct H5 as [?|[?|?]]; [by left| |by right; right]. destruct He as [->|?]; [right; by left|by right; right].
Qed.

Lemma concat_spawn ts w : concat (threads (spawn ts w)) = concat (threads w) ++ ts.
Proof. unfold spawn. cbn [threads]. rewrite concat_app. cbn [concat]. by rewrite app_nil_r. Qed.

Lemma spawn_one iCount iBytes b w : inv iCount iBytes (b :: concat (threads w)) (st w) -> winv iCount iBytes (spawn [b] w).
Proof. unfold winv. rewrite concat_spawn. apply inv_perm. by rewrite <- Permutation_cons_append. Qed.

Lemma call_event_inv iCount iBytes e w r : 0 <= iCount -> 0 <= iBytes < 2 ^ 64 -> g_call_seq (tabs (st w)) < RPC_REQ_MASK ->
  winv iCount iBytes w -> do_event self e w = Some r -> exists w', r = Ok w' /\ winv iCount iBytes w'.
Proof.
  intros Hc Hby Hlt Hw. destruct e as [resp tm frame|m sid resp tm frame|m sid resp i body|m results|m sid|sid| | |i|l a b|d|m|k iResult]; cbn [do_event]; unfold DeliverRpc, AddSession; cbv zeta.
  - destruct (bind _ _ _ _ _ w) as [i s'] eqn:Eb. intros [= <-]. eexists. split; [done|]. apply spawn_one. cbn [st set_st threads].
    eapply (bind_inv _ _ _ _ _ _ _ _ _ _ _ _ Hw Hlt Eb); [by destruct frame|by destruct frame|by destruct frame|destruct frame; [by right|by left]| |by left].
    intros s'' E. destruct frame; [|done]. by exists resp.
  - destruct (bind _ _ _ _ _ w) as [i s'] eqn:Eb. intros [= <-]. eexists. split; [done|]. apply spawn_one. cbn [st set_st threads].
    eapply (bind_inv _ _ _ _ _ _ _ _ _ _ _ _ Hw Hlt Eb); [by destruct frame|by destruct frame|by destruct frame|destruct frame; by left| |by right].
    intros s'' E. by destruct frame.
  - destruct (Z.ltb_spec 0 sid) as [Hsid|]; [|done]. intros E. apply (inj Some) in E as <-.
    pose proof (iv_accounts _ _ _ _ Hw) as A. destruct (Take_extracted i (Some (m, sid, resp)) (tabs (st w)) (ac_wf _ _ _ A)) as (l & t' & Hx & -> & Hl).
    cbn [rbind]. eexists. split; [done|]. unfold winv. rewrite concat_spawn. cbn [st set_st threads spawn].
    pose proof (extracted_armed _ _ _ _ _ _ A Hx) as Har. rewrite Forall_forall in Har.
    eapply inv_perm; [apply Permutation_app_comm|]. eapply (extract_inv _ _ _ FailHeldCalls); [by apply inv_spawn|exact Hx|done|done| | | | |done].
    + intros j. destruct Hl as [(-> & _)|(x & _ & ->)]; done.
    + by destruct l.
    + by destruct l.
    + intros b Hb. destruct l as [|x l]; [by apply not_elem_of_nil in Hb|]. apply list_elem_of_singleton in Hb as ->.
      split; [apply Har; by left|]. destruct (ex_from _ _ _ _ Hx x) as (x0 & Ex & Hsrc & ->); [by left|].
      destruct (ac_slot _ _ _ A _ _ Ex) as (_ & Hi & Hk). unfold from_source in Hsrc.
      apply Is_true_true in Hsrc. rewrite !andb_true_iff, !Z.eqb_eq in Hsrc. destruct Hsrc as [[<- <-] <-]. split; [done|]. destruct Hk as [E|?]; [unfold INVALID_SID in E; lia|done].
  - intros E. apply (inj Some) in E as <-. eexists. split; [done|]. set (sid := sid_after m w).
    assert (forall c T, m_vHeldCalls c = m_vHeldCalls (cl (st w)) -> books c iCount iBytes ->
      (m_bEverConnected c = m_bEverConnected (cl (st w)) \/ exists sid, FlushHeldCalls sid ∈ T) -> inv iCount iBytes T (st w) ->
      inv iCount iBytes T (set_cl c (set_open (open (st w) ∪ {[ (m, sid) ]}) (st w)))) as Hopen.
    { intros c T Hh Hb He Hi. apply inv_open; [done..|]. intros key Hk. left. apply elem_of_union. by left. }
    destruct (m =? self).
    + apply spawn_one. unfold OnAddSession. destruct (send_pending _ _ _) as [[out stay] n]. cbn [snd st set_st threads].
      apply Hopen; [done| | |by apply inv_spawn].
      * destruct (iv_books _ _ _ _ Hw) as [B1 B2 B3 B4]. by split.
      * right. exists sid. by left.
    + unfold winv. cbn [st threads]. specialize (Hopen (cl (st w)) (concat (threads w)) eq_refl (iv_books _ _ _ _ Hw) (or_introl eq_refl) Hw).
      by destruct (st w).
  - destruct (decide _) as [Hop|]; [|done]. intros E. apply (inj Some) in E as <-. eexists. split; [done|]. apply spawn_one. cbn [st set_st threads].
    replace (set_open _ (st w)) with (set_cl (cl (st w)) (set_open (open (st w) ∖ {[ (m, sid) ]}) (st w))) by (by destruct (st w)).
    apply inv_open; [by apply inv_spawn|done|apply (iv_books _ _ _ _ Hw)|by left|]. intros key Hk. destruct (decide (key = (m, sid))) as [->|Hne].
    + right. exists m, sid. split; [done|]. by left.
    + left. apply elem_of_difference. split; [done|]. by rewrite elem_of_singleton.
  - destruct (decide _) as [|_]; [done|]. intros E. apply (inj Some) in E as <-. eexists. split; [done|]. unfold winv. cbn [st set_st threads].
    replace (set_cl _ (st w)) with (set_cl (OnDelSession sid (cl (st w))) (set_open (open (st w)) (st w))) by (by destruct (st w)).
    unfold OnDelSession. destruct (_ =? _); (apply inv_open; [done|done| |by left|by left]); destruct (iv_books _ _ _ _ Hw) as [B1 B2 B3 B4]; by split.
  - intros E. apply (inj Some) in E as <-. eexists. split; [done|]. apply spawn_one. by apply inv_spawn.
  - intros E. apply (inj Some) in E as <-. eexists. split; [done|]. apply spawn_one. by apply inv_spawn.
  - destruct (issued (st w) !! i) as [q|] eqn:Eq; [|done]. intros E. apply (inj Some) in E as <-. eexists. split; [done|]. apply spawn_one.
    apply inv_spawn; try done. by apply (ac_issued _ _ _ (iv_accounts _ _ _ _ Hw) i q).
  - intros E. apply (inj Some) in E as <-. eexists. split; [done|]. unfold SendRawOrPend. destruct (usable _); [done|]. 
    assert (forall c, m_vHeldCalls c = m_vHeldCalls (cl (st w)) -> m_bEverConnected c = m_bEverConnected (cl (st w)) -> books c iCount iBytes ->
      winv iCount iBytes (set_st (set_cl c (st w)) w)) as Hcl.
    { intros c Hh He Hb. unfold winv. cbn [st set_st threads].
      replace (set_cl c (st w)) with (set_cl c (set_open (open (st w)) (st w))) by (by destruct (st w)). apply inv_open; [done..|by left|by left]. }
    destruct (_ || _); apply Hcl; try done; [apply (iv_books _ _ _ _ Hw)|apply books_pending, (iv_books _ _ _ _ Hw)].
  - destruct (_ <=? _); [|done]. intros E. apply (inj Some) in E as <-. by eexists.
  - intros E. apply (inj Some) in E as <-. by eexists.
  - destruct (threads w !! k) as [[|a ts]|] eqn:Ek; [done| |done]. intros E. apply (inj Some) in E as <-.
    assert (forall new, concat (<[k := new ++ ts]> (threads w)) ≡ₚ new ++ concat (take k (threads w) ++ ts :: drop (S k) (threads w))) as Hins.
    { intros new. rewrite insert_take_drop by (by apply lookup_lt_is_Some; eexists). rewrite !concat_app. cbn [concat].
      rewrite <- (app_assoc new). apply Permutation_app_swap_app. }
    destruct (exec_ok iCount iBytes iResult a Hc Hby (concat (take k (threads w) ++ ts :: drop (S k) (threads w))) (st w)) as (s' & new & -> & Hi).
    { eapply inv_perm; [|exact Hw]. rewrite <- (Hins [a]). cbn [app]. by rewrite list_insert_id. }
    cbn [rbind]. eexists. split; [done|]. unfold winv. cbn [st threads]. eapply inv_perm; [symmetry; apply Hins|done].
Qed.

(** ** Call numbers *)

Lemma event_seq iCount iBytes e w w' : 0 <= iCount -> 0 <= iBytes < 2 ^ 64 -> g_call_seq (tabs (st w)) < RPC_REQ_MASK ->
  winv iCount iBytes w -> do_event self e w = Some (Ok w') -> g_call_seq (tabs (st w')) <= g_call_seq (tabs (st w)) + 1.
Proof.
  intros Hc Hby Hlt Hw. pose proof (iv_accounts _ _ _ _ Hw) as A. pose proof (ac_wf _ _ _ A) as Ht.
  assert (forall m sid resp tm sender i s', bind m sid resp tm sender w = (i, s') -> g_call_seq (tabs s') <= g_call_seq (tabs (st w)) + 1) as Hbind.
  { intros m sid resp tm sender i s' E. unfold bind in E. destruct (BindRpcCall _ _ _ _ _ _ _ _) as [j t'] eqn:Eb. injection E as _ <-. cbn [tabs].
    unfold BindRpcCall in Eb. destruct (0 <? tm); injection Eb as _ <-; cbn [g_call_seq]; rewrite u64_small; unfold RPC_REQ_MASK in Hlt;
      pose proof (ac_seq _ _ _ A); lia. }
  destruct e as [resp tm frame|m sid resp tm frame|m sid resp i body|m results|m sid|sid| | |i|l a b|d|m|k iResult]; cbn [do_event]; unfold DeliverRpc, AddSession; cbv zeta.
  - destruct (bind _ _ _ _ _ w) as [i s'] eqn:Eb. intros [= <-]. by eapply Hbind.
  - destruct (bind _ _ _ _ _ w) as [i s'] eqn:Eb. intros [= <-]. by eapply (Hbind _ _ _ _ _ _ _ Eb).
  - destruct (0 <? sid); [|done]. rewrite TakeRpcSlot_ok by done. cbn [rbind].
    destruct (slot i _) as [x|]; [destruct (from_source _ _)|]; intros [= <-]; cbn; lia.
  - intros [= <-]. destruct (m =? self); cbn; lia.
  - destruct (decide _); [|done]. intros [= <-]. cbn. lia.
  - destruct (decide _); [done|]. intros [= <-]. cbn. lia.
  - intros [= <-]. cbn. lia.
  - intros [= <-]. cbn. lia.
  - destruct (issued _ !! _); [|done]. intros [= <-]. cbn. lia.
  - intros [= <-]. destruct (SendRawOrPend _ _ _ _) as [[? ?]|]; cbn; lia.
  - destruct (_ <=? _); [|done]. intros [= <-]. cbn. lia.
  - intros [= <-]. cbn. lia.
  - destruct (threads w !! k) as [[|a ts]|]; [done| |done]. intros E. apply (inj Some) in E.
    assert (forall s' new, exec self iResult a (st w) = Ok (s', new) -> g_call_seq (tabs s') = g_call_seq (tabs (st w))) as He.
    { clear E. intros s' new. destruct a; red_exec; unfold SubmitCall.
      - destruct (usable _).
        + destruct (ClaimRpcSend_ok i (m_iSessionId (cl (st w))) (tabs (st w)) Ht) as (t' & -> & _ & _ & Eq & _). cbn [rbind].
          destruct (bool_decide _); intros [= <- _]; exact Eq.
        + destruct (negb _); [|by intros [= <- _]].
          destruct (HoldCallLocked_ok iCount iBytes i l (cl (st w)) (tabs (st w)) ltac:(lia) (iv_books _ _ _ _ Hw) Ht) as [->|(t' & c' & -> & _ & _ & Eq & _)];
            by intros [= <- _].
      - destruct (ClaimRpcSend_ok i sid (tabs (st w)) Ht) as (t' & -> & _ & _ & Eq & _). cbn [rbind]. destruct (bool_decide _); intros [= <- _]; exact Eq.
      - destruct (_ =? _); by intros [= <- _].
      - rewrite TakeRpcSlot_ok by done. cbn [rbind]. destruct (slot i _); by intros [= <- _].
      - by intros [= <- _].
      - by intros [= <- _].
      - by intros [= <- _].
      - by intros [= <- _].
      - by intros [= <- _].
      - destruct (fail_extracted (m, sid) k0 (tabs (st w)) Ht) as (l & t' & Hx & [->|[-> _]]); cbn [rbind]; intros [= <- _]; apply (ex_seq _ _ _ _ Hx).
      - destruct (sweep_extracted iNow k0 (tabs (st w)) Ht) as (l & t' & Hx & -> & _). cbn [rbind]. intros [= <- _]. apply (ex_seq _ _ _ _ Hx).
      - rewrite AbandonSlot_ok by done. cbn [rbind]. destruct (slot i _); by intros [= <- _].
      - by intros [= <- _].
      - destruct (_ =? _); by intros [= <- _]. }
    destruct (exec self iResult a (st w)) as [[s' new]|] eqn:Ex; [|done]. cbn [rbind] in E. injection E as <-. cbn. rewrite (He _ _ eq_refl). lia.
Qed.

Lemma call_start_inv iCount iBytes iNow : 0 <= iCount -> 0 <= iBytes -> winv iCount iBytes (start iCount iBytes iNow).
Proof.
  intros Hc Hb. split; cbn; try done.
  - split; cbn; try done. apply new_tables_wf.
    intros i. unfold is_issued. cbn. destruct (Z.leb_spec 1 i), (Z.ltb_spec i 1); try done; lia.
  - intros a []%not_elem_of_nil.
  - intros i. rewrite cnt_nil. lia.
  - by left.
  - intros i []%not_elem_of_nil.
  - intros i o []%not_elem_of_nil.
  - intros i []%not_elem_of_nil.
Qed.

Definition limits_ok (iCount iBytes : Z) : Prop := 0 <= iCount /\ 0 <= iBytes < 2 ^ 64.

Lemma runs_inv iCount iBytes es w r : limits_ok iCount iBytes -> g_call_seq (tabs (st w)) + Z.of_nat (length es) < RPC_REQ_MASK ->
  winv iCount iBytes w -> run self es w = Some r -> exists w', r = Ok w' /\ winv iCount iBytes w'.
Proof.
  intros [Hc Hby]. revert w; induction es as [|e es IH]; intros w Hlt Hw E; cbn [run length] in *; [injection E as <-; by eexists|].
  destruct (do_event self e w) as [r1|] eqn:E1; [|done].
  assert (g_call_seq (tabs (st w)) < RPC_REQ_MASK) as Hs by lia.
  destruct (call_event_inv _ _ _ _ _ Hc Hby Hs Hw E1) as (w1 & -> & Hw1).
  pose proof (event_seq _ _ _ _ _ Hc Hby Hs Hw E1). apply (IH w1); [lia|done..].
Qed.

Lemma runs_ok iCount iBytes iNow es r : limits_ok iCount iBytes -> Z.of_nat (length es) < RPC_REQ_MASK - 1 ->
  run self es (start iCount iBytes iNow) = Some r -> exists w, r = Ok w /\ winv iCount iBytes w.
Proof.
  intros Hl Hlen E. eapply runs_inv; [exact Hl| |by apply call_start_inv; destruct Hl as [? [? ?]]|exact E]. cbn. lia.
Qed.

(** ** Properties *)

(** C3: whatever the threads do in whatever order, every call made is at all
    times in exactly one place, each once: in the tables, in the hands of the one
    thread that will finish it, finished, or given up by its caller; so of an
    answer, a timeout, a failure to send and a closing connection only one ends it. *)
Theorem calls_finish_once iCount iBytes iNow es w i : limits_ok iCount iBytes -> Z.of_nat (length es) < RPC_REQ_MASK - 1 ->
  run self es (start iCount iBytes iNow) = Some (Ok w) ->
  (present i (tabs (st w)) + cnt i (ids (all carried (concat (threads w)))) + cnt i (map fst (finished (st w))) + cnt i (abandoned (st w)) =
   if is_issued i (tabs (st w)) then 1 else 0)%nat.
Proof. intros Hl Hlen E. destruct (runs_ok _ _ _ _ _ Hl Hlen E) as (w' & [= <-] & Hw). apply (ac_place _ _ _ (iv_accounts _ _ _ _ Hw)). Qed.

(** C4: no call is forgotten: when no thread is in the middle of something,
    a call in the tables either waits with the client for its first connection or
    was sent on a session that is still open, whatever the order in which sends,
    connections, disconnections and timeouts happened. *)
Theorem no_call_stranded iCount iBytes iNow es w i x : limits_ok iCount iBytes -> Z.of_nat (length es) < RPC_REQ_MASK - 1 ->
  run self es (start iCount iBytes iNow) = Some (Ok w) ->
  concat (threads w) = [] -> slot i (tabs (st w)) = Some x ->
  (bAwaitingConnect x = true /\ i ∈ held_ids (cl (st w)) /\ m_bEverConnected (cl (st w)) = false) \/
  (key_of x ∈ open (st w) /\ (key_of x, i) ∈ sent (st w)).
Proof.
  intros Hl Hlen E Ht Es. destruct (runs_ok _ _ _ _ _ Hl Hlen E) as (w' & [= <-] & Hw). unfold winv in Hw. rewrite Ht in Hw.
  destruct (iv_reason _ _ _ _ Hw i x Es) as [(a & []%not_elem_of_nil & _)|[[Haw Hh]|H]]; [|by right]. left. split_and!; [done..|].
  destruct (iv_held _ _ _ _ Hw) as [En|[?|(sid & []%not_elem_of_nil)]]; [|done]. unfold held_ids in Hh. rewrite En in Hh. by apply not_elem_of_nil in Hh.
Qed.

(** C13: a call is finished with an answer only if the answer came on a
    session of its manager to which the call had been bound before its request was
    sent there, and under its own protocol number; other sessions and protocols
    cannot end it. *)
Theorem replies_to_their_calls iCount iBytes iNow es w i m sid resp body : limits_ok iCount iBytes -> Z.of_nat (length es) < RPC_REQ_MASK - 1 ->
  run self es (start iCount iBytes iNow) = Some (Ok w) ->
  (i, Replied m sid resp body) ∈ finished (st w) -> issued (st w) !! i = Some (m, resp) /\ (m, sid, i) ∈ claimed (st w).
Proof. intros Hl Hlen E Hf. destruct (runs_ok _ _ _ _ _ Hl Hlen E) as (w' & [= <-] & Hw). exact (iv_finished _ _ _ _ Hw _ _ Hf). Qed.

(** C14: once the destructor of an awaiter has returned, its call is out of
    the tables and no thread has it in hand, so no callback touches the memory that
    has been released. *)
Theorem no_callback_after_destruction iCount iBytes iNow es w i : limits_ok iCount iBytes -> Z.of_nat (length es) < RPC_REQ_MASK - 1 ->
  run self es (start iCount iBytes iNow) = Some (Ok w) -> i ∈ destroyed (st w) ->
  slot i (tabs (st w)) = None /\
  forall a, a ∈ concat (threads w) -> match a with
    | Finish x _ | Complete x _ => iCallId x <> i
    | SweepRpcCalls _ _ l => i ∉ ids l
    | Release j => j <> i
    | _ => True
    end.
Proof.
  intros Hl Hlen E Hd. destruct (runs_ok _ _ _ _ _ Hl Hlen E) as (w' & [= <-] & Hw). destruct (iv_destroyed _ _ _ _ Hw i Hd) as (_ & Hs & Hg).
  split; [done|]. rewrite (ac_guard _ _ _ (iv_accounts _ _ _ _ Hw)) in Hg. intros a Ha.
  assert (forall x, x ∈ carried a -> iCallId x <> i) as Hc.
  { intros x Hx <-. assert (0 < cnt (iCallId x) (ids (all carried (concat (threads w)))))%nat; [|lia]. apply cnt_pos. unfold ids. apply list_elem_of_fmap_2.
    unfold all. apply list_elem_of_In, in_concat. exists (carried a). split; apply list_elem_of_In; [by apply list_elem_of_fmap_2|done]. }
  destruct a; try done; cbn in Hc.
  - apply Hc. by left.
  - apply Hc. by left.
  - intros ->. assert (0 < cnt i (all releasing (concat (threads w))))%nat; [|lia]. apply cnt_pos.
    unfold all. apply list_elem_of_In, in_concat. exists [i]. split; apply list_elem_of_In; [|by left].
    change [i] with (releasing (Release i)). by apply list_elem_of_fmap_2.
  - intros (x & -> & Hx)%list_elem_of_fmap. by apply (Hc x).
Qed.

(** The sweep of a shard, which looks only at the buckets up to the
    present one, takes out exactly the calls whose deadline has come and leaves the
    others as they are. *)
Theorem sweep_exact iCount iBytes iNow es w k iTime : limits_ok iCount iBytes -> Z.of_nat (length es) < RPC_REQ_MASK - 1 ->
  run self es (start iCount iBytes iNow) = Some (Ok w) ->
  exists fired t', sweep_shard iTime k (tabs (st w)) = Ok (fired, t') /\ NoDup (ids fired) /\
    forall i x, ShardOf i = k -> slot i (tabs (st w)) = Some x ->
      (due iTime x -> slot i t' = None /\ taken x ∈ fired) /\ (~ due iTime x -> slot i t' = Some x /\ i ∉ ids fired).
Proof.
  intros Hl Hlen E. destruct (runs_ok _ _ _ _ _ Hl Hlen E) as (w' & [= <-] & Hw). pose proof (ac_wf _ _ _ (iv_accounts _ _ _ _ Hw)) as Ht.
  destruct (sweep_extracted iTime k (tabs (st w)) Ht) as (l & t' & Hx & Es & Hd). exists l, t'. split_and!; [done|apply Hx|].
  intros i x Ek Ei. pose proof (ex_slot _ _ _ _ Hx i) as Hs. rewrite Ei in Hs. destruct (decide (i ∈ ids l)) as [Hin|Hin].
  - apply list_elem_of_fmap in Hin as (y & -> & Hy). destruct (ex_from _ _ _ _ Hx y Hy) as (x0 & E0 & Hdue & Ey). rewrite Ei in E0. injection E0 as <-.
    split; [|done]. intros _. split; [done|]. congruence.
  - specialize (Hd i x Hs Ek). by split.
Qed.

(** No iterator kept in a slot is ever dangling: no run of the threads
    ends in undefined behaviour; and the lists by session and by time hold exactly
    the calls of the tables, so the statistics agree and nothing leaks in them. *)
Theorem tables_agree iCount iBytes iNow es r : limits_ok iCount iBytes -> Z.of_nat (length es) < RPC_REQ_MASK - 1 ->
  run self es (start iCount iBytes iNow) = Some r ->
  exists w, r = Ok w /\ tables_wf (tabs (st w)) /\
    iSessionEntries (GetRpcWaitStats (tabs (st w))) = iCalls (GetRpcWaitStats (tabs (st w))) /\
    iExpirations (GetRpcWaitStats (tabs (st w))) <= iCalls (GetRpcWaitStats (tabs (st w))).
Proof.
  intros Hl Hlen E. destruct (runs_ok _ _ _ _ _ Hl Hlen E) as (w & -> & Hw). pose proof (ac_wf _ _ _ (iv_accounts _ _ _ _ Hw)) as Ht.
  exists w. split_and!; [done..|by apply stats_agree|by apply stats_agree].
Qed.

(** The calls held back for the first connection stay within the limits
    in number and in bytes, and the byte count is that of the calls held. *)
Theorem held_calls_bounded iCount iBytes iNow es w : limits_ok iCount iBytes -> Z.of_nat (length es) < RPC_REQ_MASK - 1 ->
  run self es (start iCount iBytes iNow) = Some (Ok w) ->
  lenZ (m_vHeldCalls (cl (st w))) <= iCount /\ m_iHeldBytes (cl (st w)) = held_bytes (m_vHeldCalls (cl (st w))) /\
  m_iHeldBytes (cl (st w)) <= iBytes.
Proof. intros Hl Hlen E. destruct (runs_ok _ _ _ _ _ Hl Hlen E) as (w' & [= <-] & Hw). by destruct (iv_books _ _ _ _ Hw). Qed.

End Runs.

(** ** A run *)

Section Example.

Definition frame : option (list byte) := Some [x01; x02].

(** Two calls are held back; the second times out before the connection is there;
    the first is sent and answered; a third is sent; the awaiter of the second
    goes away. *)
Definition before_sweep : list event :=
  [CallClient 7 1000 frame; Step 0 0; CallClient 7 50 frame; Step 1 0; Passes 400].

Definition session_events : list event :=
  before_sweep ++ [Sweep] ++ repeat (Step 2 0) 67 ++
  [Opened 1 []; Step 3 0; Step 3 0; Step 3 0; Reply 1 1 7 1 [x05]; Step 4 0; Step 4 0; Step 4 0;
   CallClient 7 0 frame; Step 5 0; Step 5 0; Destroy 2; Step 6 0; Step 6 0].

Definition world_of (es : list event) : world :=
  match run 1 es (start 10 1000 100) with Some (Ok w) => w | _ => start 10 1000 100 end.

Lemma limits_example : limits_ok 10 1000.
Proof. unfold limits_ok. lia. Defined.

Lemma calls_finish_once_witness :
  map fst (finished (st (world_of session_events))) = [2; 1] /\
  (present 2 (tabs (st (world_of session_events))) + cnt 2 (ids (all carried (concat (threads (world_of session_events))))) +
   cnt 2 (map fst (finished (st (world_of session_events)))) + cnt 2 (abandoned (st (world_of session_events))) =
   if is_issued 2 (tabs (st (world_of session_events))) then 1 else 0)%nat.
Proof.
  split; [vm_compute; reflexivity|].
  refine (calls_finish_once 1 10 1000 100 session_events (world_of session_events) 2 limits_example _ _); vm_compute; reflexivity.
Defined.

Lemma no_call_stranded_witness :
  let x := mkSlot (Some 1) 1 1 7 3 false false true None true in
  (bAwaitingConnect x = true /\ 3 ∈ held_ids (cl (st (world_of session_events))) /\ m_bEverConnected (cl (st (world_of session_events))) = false) \/
  (key_of x ∈ open (st (world_of session_events)) /\ (key_of x, 3) ∈ sent (st (world_of session_events))).
Proof.
  refine (no_call_stranded 1 10 1000 100 session_events (world_of session_events) 3 _ limits_example _ _ _ _); vm_compute; reflexivity.
Defined.

Lemma replies_to_their_calls_witness :
  issued (st (world_of session_events)) !! 1 = Some (1, 7) /\ (1, 1, 1) ∈ claimed (st (world_of session_events)).
Proof.
  refine (replies_to_their_calls 1 10 1000 100 session_events (world_of session_events) 1 1 1 7 [x05] limits_example _ _ _);
    [vm_compute; reflexivity..|].
  assert (finished (st (world_of session_events)) = [(2, Failed OI_ERR_CONNECT); (1, Replied 1 1 7 [x05])]) as -> by (vm_compute; reflexivity).
  right. left.
Defined.

Lemma no_callback_after_destruction_witness : slot 2 (tabs (st (world_of session_events))) = None.
Proof.
  refine (proj1 (no_callback_after_destruction 1 10 1000 100 session_events (world_of session_events) 2 limits_example _ _ _));
    [vm_compute; reflexivity..|].
  assert (destroyed (st (world_of session_events)) = [2]) as -> by (vm_compute; reflexivity). left.
Defined.

Lemma sweep_exact_witness :
  match slot 2 (tabs (st (world_of before_sweep))) with Some x => stExpiry x = Some (0, mkExpire 150 2) | None => False end /\
  exists fired t', sweep_shard 500 2 (tabs (st (world_of before_sweep))) = Ok (fired, t') /\ NoDup (ids fired).
Proof.
  split; [vm_compute; reflexivity|].
  refine (let '(ex_intro _ fired (ex_intro _ t' (conj E (conj Hn _)))) :=
    sweep_exact 1 10 1000 100 before_sweep (world_of before_sweep) 2 500 limits_example _ _ in ex_intro _ fired (ex_intro _ t' (conj E Hn)));
    vm_compute; reflexivity.
Defined.

Lemma tables_agree_witness :
  iCalls (GetRpcWaitStats (tabs (st (world_of before_sweep)))) = 2 /\
  exists w, Ok (world_of before_sweep) = Ok w /\ iSessionEntries (GetRpcWaitStats (tabs (st w))) = iCalls (GetRpcWaitStats (tabs (st w))).
Proof.
  split; [vm_compute; reflexivity|].
  refine (let '(ex_intro _ w (conj E (conj _ (conj H _)))) :=
    tables_agree 1 10 1000 100 before_sweep (Ok (world_of before_sweep)) limits_example _ _ in ex_intro _ w (conj E H)); vm_compute; reflexivity.
Defined.

Lemma held_calls_bounded_witness :
  m_iHeldBytes (cl (st (world_of before_sweep))) = 4 /\ lenZ (m_vHeldCalls (cl (st (world_of before_sweep)))) <= 10.
Proof.
  split; [vm_compute; reflexivity|].
  refine (proj1 (held_calls_bounded 1 10 1000 100 before_sweep (world_of before_sweep) limits_example _ _)); vm_compute; reflexivity.
Defined.

End Example.
End RpcRuns.
