(* ===== verification/ProtoSession.v ===== *)
(** * Receiving RPC frames

    The way of bytes from a TCP socket to DeliverRpc: TCP_Channel::DataIn
    (cbaselib/net/src/oi_tcp_channel.cpp), Session::SwapInBuff (net/src/oi_session.cpp),
    ProtoSession::OnDataIn with the timer of incomplete frames
    (proto/src/oi_rpc_session.cpp), and EncodePbFrame (proto/src/oi_parser.cpp).  All
    of it runs on the poll thread.  The kernel's answers to recv, whether a timer can
    be made, and closing by other threads are inputs; DeliverRpc is a function on a
    state of its own that says whether the session was closed meanwhile. *)

From S2P Require Import Prelude BytesStream RegFrame.

Module ProtoSession.
Import BytesStream.

Definition SESSION_MANAGER_NORMAL_CLOSE : Z := -20000.
Definition PARSER_ERR_OTHER : Z := RegFrame.PARSER_ERR_OTHER.
Definition EMSGSIZE : Z := 90.
Definition ENOBUFS : Z := 105.
Definition ETIMEDOUT : Z := 110.

Definition EncodePbFrame (iId : Z) (stBody : stream) : result stream :=
  if 0x7FFFFFFF <? Size stBody then Err ParserException
  else
    let iSize := u32 (Size stBody) in
    WritePbRaw (u32 iId) (if 0 <? iSize then Some (data stBody) else None) iSize empty_stream.

(** ** A session *)

(** [iErrorCode]: none while the status is IO_ST_CONNECTED; [m_pIncompleteTimer]: when
    the timer is due. *)
Record session : Type := mkSession {
  stInputBuffer : list byte;
  iErrorCode : option Z;
  m_pIncompleteTimer : option Z
}.

Definition new_session : session := mkSession [] None None.
Definition set_buffer (l : list byte) (s : session) : session := mkSession l (iErrorCode s) (m_pIncompleteTimer s).
Definition set_timer (t : option Z) (s : session) : session := mkSession (stInputBuffer s) (iErrorCode s) t.

Definition IsClosed (s : session) : bool := match iErrorCode s with Some _ => true | None => false end.

(** NetSession::Close: the first reason stays. *)
Definition Close (iError : Z) (s : session) : session :=
  if IsClosed s then s else mkSession (stInputBuffer s) (Some iError) (m_pIncompleteTimer s).

Definition PassiveClose (iError : Z) (s : session) : session := Close iError s.
Definition ActiveClose (s : session) : session := Close SESSION_MANAGER_NORMAL_CLOSE s.

Definition CancelIncompleteTimer (s : session) : session := set_timer None s.

Section Receive.
Context (m_iFrameBytes m_iFrameTimeoutMilliseconds iMaxReceiveBufferBytes : Z) (m_bDatagram : bool).
Context {A : Type} (DeliverRpc : Z -> stream -> A -> A * bool).

Definition ReceiveAllowance (s : session) : Z :=
  if lenZ (stInputBuffer s) <? iMaxReceiveBufferBytes then iMaxReceiveBufferBytes - lenZ (stInputBuffer s) else 0.

(** [made]: the timer could be allocated, initialised and started. *)
Definition ArmIncompleteTimer (now : Z) (made : bool) (s : session) : session :=
  match m_pIncompleteTimer s with
  | Some _ => s
  | None =>
      if IsClosed s then s
      else if made then set_timer (Some (now + m_iFrameTimeoutMilliseconds)) s
      else PassiveClose ENOBUFS s
  end.

(** The timer's callback. *)
Definition OnIncomplete (s : session) : session := PassiveClose ETIMEDOUT (CancelIncompleteTimer s).

Definition OnClose (s : session) : session := CancelIncompleteTimer s.

(** The loop of OnDataIn. *)
Fixpoint read_frames (fuel : nat) (s : stream) (ses : session) (a : A) : result (stream * session * A) :=
  match fuel with
  | O => Err OutOfFuel
  | S fuel =>
      if RemainSize s =? 0 then Ok (s, ses, a)
      else
        let! bTooLong :=
          (if 8 <=? RemainSize s then let! l := peek_at 4 4 s in Ok (m_iFrameBytes <? le_decode l) else Ok false) in
        if bTooLong then Ok (s, if m_bDatagram then ses else PassiveClose EMSGSIZE ses, a)
        else
          let s := StartTransaction s in
          let! (st, (iId, iSize, s)) := PreparePbHeader s in
          match st with
          | PB_HEADER_NEED_MORE => Ok (RollBack s, ses, a)
          | PB_HEADER_BAD => Ok (s, if m_bDatagram then ses else PassiveClose PARSER_ERR_OTHER ses, a)
          | PB_HEADER_OK =>
              let ses := CancelIncompleteTimer ses in
              let! stBody := payload iSize s in
              let s := AddCurPos iSize s in
              let (a, bClosed) := DeliverRpc iId (of_bytes stBody) a in
              read_frames fuel s (if bClosed then ActiveClose ses else ses) a
          end
  end.

Definition OnDataIn (now : Z) (made : bool) (ses : session) (a : A) : result (session * A) :=
  let stOutputStream := of_bytes (stInputBuffer ses) in
  let! (s, ses, a) := read_frames (S (length (stInputBuffer ses))) stOutputStream (set_buffer [] ses) a in
  let ses := set_buffer (drop (Z.to_nat (m_iCurrentPosition s)) (data s)) ses in
  Ok (if m_bDatagram then set_buffer [] ses
      else if IsClosed ses then set_buffer [] (CancelIncompleteTimer ses)
      else if negb (lenZ (stInputBuffer ses) =? 0) then ArmIncompleteTimer now made ses
      else CancelIncompleteTimer ses, a).

Definition SwapInBuff (now : Z) (made : bool) (stInputBufferLocal : list byte) (ses : session) (a : A) : result (session * A) :=
  if ReceiveAllowance ses <? lenZ stInputBufferLocal then Ok (PassiveClose ENOBUFS ses, a)
  else OnDataIn now made (set_buffer (stInputBuffer ses ++ stInputBufferLocal) ses) a.

(** ** TCP_Channel::DataIn *)

(** What recv answers: up to [n] bytes of those that have arrived, EAGAIN, EINTR, the
    end of the connection, or another error (with errno as it is when it is read).  The
    free room of the channel's buffer, never less than 16 K here, only shortens a read,
    as [n] does. *)
Inductive recv : Type := Got (n : Z) | Again | Interrupted | PeerClosed | Broken (iErrno : Z).

Definition iRoundMax : Z := 4 * 1024 * 1024.

Fixpoint data_in (now : Z) (made : bool) (rs : list recv) (iRound : Z) (stInput net : list byte) (ses : session) (a : A)
    : result (list byte * session * A) :=
  let iAllowance := ReceiveAllowance ses in
  let read_finish := (let! (ses, a) := SwapInBuff now made stInput ses a in Ok (net, ses, a)) in
  if iAllowance <=? lenZ stInput then
    let! (ses, a) := SwapInBuff now made stInput ses a in
    Ok (net, if negb (IsClosed ses) && (ReceiveAllowance ses =? 0) then PassiveClose ENOBUFS ses else ses, a)
  else if iRoundMax <=? iRound then read_finish
  else
    match rs with
    | Got n :: rs =>
        let iReadLimit := Z.min (iAllowance - lenZ stInput) (iRoundMax - iRound) in
        match take (Z.to_nat (Z.min n iReadLimit)) net with
        | [] => read_finish
        | l => data_in now made rs (iRound + lenZ l) (stInput ++ l) (drop (length l) net) ses a
        end
    | Interrupted :: rs => data_in now made rs iRound stInput net ses a
    | Again :: _ | [] => read_finish
    | PeerClosed :: _ => let! (ses, a) := SwapInBuff now made stInput ses a in Ok (net, PassiveClose 0 ses, a)
    | Broken e :: _ => let! (ses, a) := SwapInBuff now made stInput ses a in Ok (net, PassiveClose e ses, a)
    end.

Definition DataIn (now : Z) (made : bool) (rs : list recv) (net : list byte) (ses : session) (a : A)
    : result (list byte * session * A) := data_in now made rs 0 [] net ses a.

(** ** A connection *)

(** [net]: bytes that have arrived and are not read yet; [read_at]: when each of the
    bytes read so far was read; [gone]: the channel has been destroyed. *)
Record connection : Type := mkConnection {
  net : list byte;
  ses : session;
  handled : A;
  read_at : list Z;
  gone : bool
}.

Definition start (a : A) : connection := mkConnection [] new_session a [] false.

Inductive event : Type :=
| Arrive (l : list byte)
| Readable (now : Z) (made : bool) (rs : list recv)
| Writable (iFault : option Z)
| TimerDue (now : Z)
| ClosedElsewhere.

(** NetChannel::TryClose, the end of every OnPoll. *)
Definition TryClose (c : connection) : connection :=
  if IsClosed (ses c) then mkConnection (net c) (OnClose (ses c)) (handled c) (read_at c) true else c.

(** [None]: cannot happen. *)
Definition do_event (e : event) (c : connection) : option (result connection) :=
  if gone c then None
  else
    match e with
    | Arrive l => Some (Ok (mkConnection (net c ++ l) (ses c) (handled c) (read_at c) false))
    | Readable now made rs =>
        Some (let! (n, s, a) := DataIn now made rs (net c) (ses c) (handled c) in
              Ok (TryClose (mkConnection n s a (read_at c ++ replicate (length (net c) - length n) now) false)))
    | Writable fault =>
        let s := match fault with Some e => PassiveClose e (ses c) | None => ses c end in
        Some (Ok (TryClose (mkConnection (net c) s (handled c) (read_at c) false)))
    | TimerDue now =>
        match m_pIncompleteTimer (ses c) with
        | Some t => if t <=? now then Some (Ok (mkConnection (net c) (OnIncomplete (ses c)) (handled c) (read_at c) false)) else None
        | None => None
        end
    | ClosedElsewhere => Some (Ok (mkConnection (net c) (ActiveClose (ses c)) (handled c) (read_at c) false))
    end.

Fixpoint run (es : list event) (c : connection) : option (result connection) :=
  match es with
  | [] => Some (Ok c)
  | e :: es =>
      match do_event e c with
      | Some (Ok c) => run es c
      | r => r
      end
  end.

(** ** The loop on any bytes *)

(** What is wrong with the bytes at the front, if anything is. *)
Definition verdict (l : list byte) : option Z :=
  if lenZ l <? 8 then None
  else if m_iFrameBytes <? le_decode (sub 4 4 l) then Some EMSGSIZE
  else if INT32_MAX <? le_decode (sub 0 4 l) then Some PARSER_ERR_OTHER
  else None.

Definition frame_in (f : frame_t) : Prop := frame_ok f /\ lenZ (snd f) <= m_iFrameBytes.

(** The beginning of a frame, or nothing. *)
Definition partial (l : list byte) : Prop := split1 l = None /\ lenZ l < 8 + m_iFrameBytes.

(** The frames one after another, and whether the session was closed meanwhile. *)
Fixpoint deliver (fs : list frame_t) (a : A) : A * bool :=
  match fs with
  | [] => (a, false)
  | f :: fs =>
      let (a, b) := DeliverRpc (fst f) (of_bytes (snd f)) a in
      let (a, b') := deliver fs a in (a, b || b')
  end.

Definition or_else (x y : option Z) : option Z := match x with Some _ => x | None => y end.

(** The session after the frames [fs], before [rest]. *)
Definition after (fs : list frame_t) (bClosed : bool) (rest : list byte) (s : session) : session :=
  mkSession (stInputBuffer s)
    (or_else (or_else (iErrorCode s) (if bClosed then Some SESSION_MANAGER_NORMAL_CLOSE else None))
       (if m_bDatagram then None else verdict rest))
    (match fs with [] => m_pIncompleteTimer s | _ => None end).

Hypothesis frame_limit : 8 <= m_iFrameBytes <= INT32_MAX.

Lemma Close_or c s : Close c s = mkSession (stInputBuffer s) (or_else (iErrorCode s) (Some c)) (m_pIncompleteTimer s).
Proof. unfold Close, IsClosed. by destruct s as [? [?|] ?]. Qed.

Lemma split1_size l f rest : split1 l = Some (f, rest) -> lenZ (snd f) = le_decode (sub 4 4 l).
Proof.
  unfold split1. destruct (lenZ l <? 8) eqn:E8; [done|]. apply Z.ltb_ge in E8. pose proof (le_decode_sub4 4 l ltac:(lia) ltac:(lia)).
  destruct (_ || _) eqn:Eo; [done|]. rewrite !orb_false_iff, !Z.ltb_ge in Eo. intros [= <- _]. cbn [snd]. apply lenZ_sub; lia.
Qed.

Lemma read_frames_any fuel : forall pre rest sn s a, fits (pre ++ rest) -> (length rest < fuel)%nat ->
  exists fs rest' sn', rest = frames_bytes fs ++ rest' /\ Forall frame_in fs /\
    (verdict rest' = None -> partial rest') /\
    read_frames fuel (cur pre rest sn) s a =
      Ok (cur (pre ++ frames_bytes fs) rest' sn', after fs (snd (deliver fs a)) rest' s, fst (deliver fs a)).
Proof.
  induction fuel as [|fuel IH]; intros pre rest sn s a Hf Hfuel; [lia|].
  assert (forall st sn', (verdict rest = None -> partial rest) ->
    st = mkSession (stInputBuffer s) (or_else (iErrorCode s) (if m_bDatagram then None else verdict rest)) (m_pIncompleteTimer s) ->
    exists fs rest' sn'', rest = frames_bytes fs ++ rest' /\ Forall frame_in fs /\
      (verdict rest' = None -> partial rest') /\
      Ok (cur pre rest sn', st, a) = Ok (cur (pre ++ frames_bytes fs) rest' sn'', after fs (snd (deliver fs a)) rest' s, fst (deliver fs a))) as Hstop.
  { intros st sn' Hs ->. exists [], rest, sn'. change (frames_bytes []) with (@nil byte). rewrite app_nil_r.
    split_and!; [done|by constructor|done|]. unfold after. cbn. by destruct (iErrorCode s). }
  assert (lenZ rest < 8 -> partial rest) as Hshort.
  { intros Hl. split; [|lia]. unfold split1. destruct (Z.ltb_spec (lenZ rest) 8); [done|lia]. }
  cbn [read_frames]. rewrite RemainSize_cur by done. destruct (Z.eqb_spec (lenZ rest) 0) as [E0|_].
  { apply Hstop; [intros _; apply Hshort; lia|]. unfold verdict. rewrite E0. cbn. by destruct s as [? [?|] ?], m_bDatagram. }
  destruct (Z.leb_spec 8 (lenZ rest)) as [H8|H8]; cbn [rbind].
  2:{ change (StartTransaction (cur pre rest sn)) with (cur pre rest (lenZ pre)). unfold PreparePbHeader. rewrite RemainSize_cur by done.
      destruct (Z.ltb_spec (lenZ rest) 8); [|lia]. cbn [rbind]. change (RollBack (cur pre rest (lenZ pre))) with (cur pre rest (lenZ pre)).
      apply Hstop; [intros _; by apply Hshort|]. unfold verdict. destruct (Z.ltb_spec (lenZ rest) 8); [|lia]. by destruct s as [? [?|] ?], m_bDatagram. }
  rewrite peek_at_in by (lia || done). cbn [rbind].
  pose proof (le_decode_sub4 0 rest ltac:(lia) ltac:(lia)) as R0.
  pose proof (le_decode_sub4 4 rest ltac:(lia) ltac:(lia)) as R4.
  assert (verdict rest = if m_iFrameBytes <? le_decode (sub 4 4 rest) then Some EMSGSIZE
    else if INT32_MAX <? le_decode (sub 0 4 rest) then Some PARSER_ERR_OTHER else None) as Ev
    by (unfold verdict; destruct (Z.ltb_spec (lenZ rest) 8); [lia|done]).
  destruct (Z.ltb_spec m_iFrameBytes (le_decode (sub 4 4 rest))) as [Hbig|Hbig].
  { apply Hstop; [by rewrite Ev|]. rewrite Ev. unfold PassiveClose. rewrite Close_or. by destruct s as [? [?|] ?], m_bDatagram. }
  change (StartTransaction (cur pre rest sn)) with (cur pre rest (lenZ pre)).
  destruct (split1 rest) as [[f rest']|] eqn:E1.
  - apply split1_some in E1 as E2. destruct E2 as [Hok ->]. rewrite RegFrame.PreparePbHeader_frame by done. cbn [rbind].
    rewrite payload_cur. cbn [rbind]. rewrite AddCurPos_cur by (unfold frame_bytes in Hf; by rewrite <- !app_assoc in * ).
    assert (frame_in f) as Hin.
    { split; [done|]. rewrite (split1_size _ _ _ E1). lia. }
    assert (lenZ (frame_bytes f ++ rest') = 8 + lenZ (snd f) + lenZ rest') as El by (rewrite lenZ_app, lenZ_frame; lia).
    destruct (DeliverRpc (fst f) (of_bytes (snd f)) a) as [a' b] eqn:Ed.
    replace ((pre ++ le_encode 4 (fst f) ++ le_encode 4 (lenZ (snd f))) ++ snd f) with (pre ++ frame_bytes f)
      by (unfold frame_bytes; by rewrite <- !app_assoc).
    destruct (IH (pre ++ frame_bytes f) rest' (lenZ pre) (if b then ActiveClose (CancelIncompleteTimer s) else CancelIncompleteTimer s) a')
      as (fs & rest'' & sn' & -> & Hfs & Hv & Er).
    { by rewrite <- app_assoc. }
    { unfold lenZ in *. lia. }
    exists (f :: fs), rest'', sn'. rewrite frames_bytes_cons, <- app_assoc. split_and!; [done|by constructor|done|].
    rewrite Er. cbn [deliver]. rewrite Ed. destruct (deliver fs a') as [a'' b']. cbn [fst snd]. rewrite <- app_assoc. do 3 f_equal.
    unfold after, ActiveClose, CancelIncompleteTimer, set_timer. destruct b; rewrite ?Close_or; cbn; destruct (iErrorCode s), fs; try done.
    all: by destruct b'.
  - assert (PreparePbHeader (cur pre rest (lenZ pre)) = Ok (if INT32_MAX <? le_decode (sub 0 4 rest) then PB_HEADER_BAD else PB_HEADER_NEED_MORE,
      (0, 0, cur pre rest (lenZ pre))) /\ (INT32_MAX <? le_decode (sub 0 4 rest) = false -> lenZ rest < 8 + le_decode (sub 4 4 rest))) as [-> Hl].
    { unfold split1 in E1. unfold PreparePbHeader. rewrite RemainSize_cur by done. destruct (Z.ltb_spec (lenZ rest) 8); [lia|].
      rewrite !peek_at_in by (lia || done). cbn [rbind]. rewrite !s32_ltb by done.
      destruct (Z.ltb_spec INT32_MAX (le_decode (sub 4 4 rest))); [lia|]. rewrite orb_false_r in *.
      destruct (INT32_MAX <? _); [by split|]. cbn [orb] in *. destruct (Z.ltb_spec (lenZ rest) (8 + le_decode (sub 4 4 rest))); [by split|done]. }
    cbn [rbind]. destruct (INT32_MAX <? _) eqn:Eb.
    + apply Hstop; [by rewrite Ev|]. rewrite Ev. unfold PassiveClose. rewrite Close_or. by destruct s as [? [?|] ?], m_bDatagram.
    + change (RollBack (cur pre rest (lenZ pre))) with (cur pre rest (lenZ pre)). specialize (Hl eq_refl).
      apply Hstop; [intros _; split; [done|lia]|]. rewrite Ev. by destruct s as [? [?|] ?], m_bDatagram.
Qed.


(** A datagram session takes the whole frames at the front of each packet and forgets
    the rest of it; what is wrong with a packet never closes it. *)
Lemma datagram_alone now made l a : m_bDatagram = true -> lenZ l <= iMaxReceiveBufferBytes <= PTRDIFF_MAX ->
  exists fs rest, l = frames_bytes fs ++ rest /\ Forall frame_in fs /\ (verdict rest = None -> partial rest) /\
    SwapInBuff now made l new_session a =
      Ok (mkSession [] (if snd (deliver fs a) then Some SESSION_MANAGER_NORMAL_CLOSE else None) None, fst (deliver fs a)).
Proof.
  intros Hd Hl. unfold SwapInBuff, ReceiveAllowance. change (lenZ (stInputBuffer new_session)) with 0. pose proof (lenZ_nonneg l).
  replace ((if 0 <? iMaxReceiveBufferBytes then iMaxReceiveBufferBytes - 0 else 0) <? lenZ l) with false
    by (destruct (Z.ltb_spec 0 iMaxReceiveBufferBytes); symmetry; apply Z.ltb_ge; lia).
  unfold OnDataIn, set_buffer, new_session. cbn [stInputBuffer iErrorCode m_pIncompleteTimer]. rewrite app_nil_l, of_bytes_cur.
  destruct (read_frames_any (S (length l)) [] l 0 (mkSession [] None None) a) as (fs & rest & sn & E & Hfs & Hv & Er);
    [rewrite app_nil_l; lia|lia|].
  exists fs, rest. split_and!; [done..|]. rewrite Er. cbn [rbind]. rewrite Hd.
  unfold after. rewrite Hd. cbn. destruct (snd (deliver fs a)), fs; done.
Qed.

(** ** What OnDataIn does *)

Definition deadline_of (now : Z) (fs : list frame_t) (s : session) : Z :=
  match fs, m_pIncompleteTimer s with [], Some t => t | _, _ => now + m_iFrameTimeoutMilliseconds end.

(** A session that has delivered [fs], with [rest] behind them. *)
Definition settle (now : Z) (made : bool) (fs : list frame_t) (bClosed : bool) (rest : list byte) (s : session) : session :=
  match or_else (or_else (iErrorCode s) (if bClosed then Some SESSION_MANAGER_NORMAL_CLOSE else None)) (verdict rest) with
  | Some c => mkSession [] (Some c) None
  | None =>
      match rest with
      | [] => new_session
      | _ => if made || bool_decide (fs = [] /\ m_pIncompleteTimer s <> None) then mkSession rest None (Some (deadline_of now fs s))
             else mkSession rest (Some ENOBUFS) None
      end
  end.

Lemma OnDataIn_any now made s a : m_bDatagram = false -> fits (stInputBuffer s) ->
  exists fs rest, stInputBuffer s = frames_bytes fs ++ rest /\ Forall frame_in fs /\ (verdict rest = None -> partial rest) /\
    OnDataIn now made s a = Ok (settle now made fs (snd (deliver fs a)) rest s, fst (deliver fs a)).
Proof.
  intros Hd Hf. unfold OnDataIn. rewrite of_bytes_cur.
  destruct (read_frames_any (S (length (stInputBuffer s))) [] (stInputBuffer s) 0 (set_buffer [] s) a Hf) as (fs & rest & sn & E & Hfs & Hv & ->); [lia|].
  exists fs, rest. split_and!; [done..|]. cbn [rbind cur data m_iCurrentPosition]. rewrite app_nil_l.
  replace (drop (Z.to_nat (lenZ (frames_bytes fs))) (frames_bytes fs ++ rest)) with rest by (unfold lenZ; by rewrite Nat2Z.id, drop_app_length).
  f_equal. f_equal. rewrite Hd. unfold settle, after. rewrite Hd. cbn [set_buffer stInputBuffer iErrorCode m_pIncompleteTimer].
  destruct (or_else _ (verdict rest)) as [c|]; [done|]. unfold IsClosed; cbn [iErrorCode].
  destruct rest as [|b rest]; [done|]. destruct (Z.eqb_spec (lenZ (b :: rest)) 0) as [En|]; [rewrite lenZ_cons in En; pose proof (lenZ_nonneg rest); lia|].
  cbn [negb]. unfold ArmIncompleteTimer, deadline_of; cbn. destruct fs, (m_pIncompleteTimer s), made; cbn; try done.
  all: rewrite bool_decide_decide; destruct (decide _) as [[? ?]|?]; try done.
Qed.

(** ** What DataIn does *)

Definition calm (rs : list recv) : Prop := Forall (fun r => match r with PeerClosed | Broken _ => False | _ => True end) rs.

(** One round hands over once what it has read, and may close the session after. *)
Lemma data_in_swaps now made rs : forall iRound stInput nt s a, lenZ stInput <= ReceiveAllowance s ->
  exists l nt' (fin : session -> session), nt = l ++ nt' /\ lenZ (stInput ++ l) <= ReceiveAllowance s /\
    data_in now made rs iRound stInput nt s a =
      (let! (s', a') := SwapInBuff now made (stInput ++ l) s a in Ok (nt', fin s', a')) /\
    (forall s', fin s' = s' \/ exists c, fin s' = PassiveClose c s') /\
    (calm rs -> forall s', 0 < ReceiveAllowance s' -> fin s' = s').
Proof.
  assert (forall stInput nt s a (fin : session -> session) R, lenZ stInput <= ReceiveAllowance s ->
    (forall s', fin s' = s' \/ exists c, fin s' = PassiveClose c s') -> (R -> forall s', 0 < ReceiveAllowance s' -> fin s' = s') ->
    exists l nt' (fin' : session -> session), nt = l ++ nt' /\ lenZ (stInput ++ l) <= ReceiveAllowance s /\
      (let! (s', a') := SwapInBuff now made stInput s a in Ok (nt, fin s', a')) =
        (let! (s', a') := SwapInBuff now made (stInput ++ l) s a in Ok (nt', fin' s', a')) /\
      (forall s', fin' s' = s' \/ exists c, fin' s' = PassiveClose c s') /\
      (R -> forall s', 0 < ReceiveAllowance s' -> fin' s' = s')) as Hend.
  { intros stInput nt s a fin R Hl Hf Hc. exists [], nt, fin. by rewrite app_nil_r. }
  induction rs as [|r rs IH]; intros iRound stInput nt s a Hl; cbn [data_in]; (destruct (_ <=? lenZ stInput);
    [refine (Hend _ _ _ _ (fun s' => if negb (IsClosed s') && (ReceiveAllowance s' =? 0) then PassiveClose ENOBUFS s' else s') _ Hl _ _);
      [intros s'; destruct (_ && _); [right; by eexists|by left]|
       intros _ s' Hs; destruct (Z.eqb_spec (ReceiveAllowance s') 0); [lia|by rewrite andb_false_r]]|]);
    (destruct (_ <=? iRound); [by apply (Hend _ _ _ _ id); [|left|]|]).
  - by apply (Hend _ _ _ _ id); [|left|].
  - assert (calm (r :: rs) -> calm rs) as Hcalm by (intros Hc; by apply Forall_cons in Hc as [_ Hc]).
    destruct r as [n| | | |e].
    + set (k := Z.to_nat _). destruct (take k nt) as [|b l] eqn:Et; [by apply (Hend _ _ _ _ id); [|left|]|]. rewrite <- Et. clear b l Et.
      assert (drop (length (take k nt)) nt = drop k nt) as ->.
      { rewrite length_take. destruct (decide (k <= length nt)%nat); [by rewrite Nat.min_l|]. rewrite Nat.min_r, !drop_ge by lia. done. }
      assert (lenZ (stInput ++ take k nt) <= ReceiveAllowance s) as Hl'.
      { rewrite lenZ_app. unfold lenZ in *. rewrite length_take. unfold k. lia. }
      destruct (IH (iRound + lenZ (take k nt)) (stInput ++ take k nt) (drop k nt) s a Hl') as (l & nt' & fin & E & Hle & Eq & Hf & Hc).
      exists (take k nt ++ l), nt', fin. rewrite app_assoc. split_and!; [by rewrite <- app_assoc, <- E, take_drop|done|exact Eq|done|].
      intros Hr. apply Hc. by apply Hcalm.
    + by apply (Hend _ _ _ _ id); [|left|].
    + destruct (IH iRound stInput nt s a Hl) as (l & nt' & fin & ? & ? & ? & ? & Hc). exists l, nt', fin. split_and!; try done. intros. apply Hc; [by apply Hcalm|done].
    + refine (Hend _ _ _ _ (PassiveClose 0) _ Hl _ _); [intros; right; by eexists|]. intros Hc. by apply Forall_cons in Hc as [? _].
    + refine (Hend _ _ _ _ (PassiveClose e) _ Hl _ _); [intros; right; by eexists|]. intros Hc. by apply Forall_cons in Hc as [? _].
Qed.

(** ** Runs of a TCP session *)

Hypothesis receive_limit : m_iFrameBytes + 8 <= iMaxReceiveBufferBytes <= PTRDIFF_MAX.
Hypothesis tcp : m_bDatagram = false.

Lemma ReceiveAllowance_le s : lenZ (stInputBuffer s) <= iMaxReceiveBufferBytes ->
  ReceiveAllowance s = iMaxReceiveBufferBytes - lenZ (stInputBuffer s).
Proof. intros. unfold ReceiveAllowance. destruct (Z.ltb_spec (lenZ (stInputBuffer s)) iMaxReceiveBufferBytes); lia. Qed.

(** One round, on any bytes: the frames that are complete are delivered. *)
Lemma DataIn_any now made rs nt s a : lenZ (stInputBuffer s) <= iMaxReceiveBufferBytes ->
  exists l nt' fs rest (fin : session -> session), nt = l ++ nt' /\ stInputBuffer s ++ l = frames_bytes fs ++ rest /\
    Forall frame_in fs /\ (verdict rest = None -> partial rest) /\ lenZ (stInputBuffer s ++ l) <= iMaxReceiveBufferBytes /\
    DataIn now made rs nt s a = Ok (nt', fin (settle now made fs (snd (deliver fs a)) rest s), fst (deliver fs a)) /\
    (forall s', fin s' = s' \/ exists c, fin s' = PassiveClose c s') /\
    (calm rs -> forall s', 0 < ReceiveAllowance s' -> fin s' = s').
Proof.
  intros Hs. unfold DataIn. pose proof (ReceiveAllowance_le s Hs) as Ha.
  destruct (data_in_swaps now made rs 0 [] nt s a) as (l & nt' & fin & -> & Hl & -> & Hf & Hc); [rewrite lenZ_nil; lia|].
  rewrite app_nil_l in *.
  assert (lenZ (stInputBuffer s ++ l) <= iMaxReceiveBufferBytes) as Hlen by (rewrite lenZ_app; lia).
  destruct (OnDataIn_any now made (set_buffer (stInputBuffer s ++ l) s) a tcp) as (fs & rest & E & Hfs & Hv & Eo); [cbn; lia|].
  exists l, nt', fs, rest, fin. cbn [set_buffer stInputBuffer] in E. split_and!; try done.
  unfold SwapInBuff. destruct (Z.ltb_spec (ReceiveAllowance s) (lenZ l)); [lia|]. rewrite Eo. done.
Qed.

(** When the first byte that waits was read. *)
Definition waiting_since (c : connection) : option Z :=
  head (drop (length (read_at c) - length (stInputBuffer (ses c))) (read_at c)).

Record tidy (c : connection) : Prop := mkTidy {
  td_size : lenZ (stInputBuffer (ses c)) <= iMaxReceiveBufferBytes;
  td_read : (length (stInputBuffer (ses c)) <= length (read_at c))%nat;
  td_open : IsClosed (ses c) = false ->
    partial (stInputBuffer (ses c)) /\
    m_pIncompleteTimer (ses c) = (fun t => t + m_iFrameTimeoutMilliseconds) <$> waiting_since c
}.

(** The bytes behind the frames just read: they are new, or there was no frame. *)
Lemma rest_new buf l fs rest : Forall frame_in fs -> split1 buf = None -> buf ++ l = frames_bytes fs ++ rest ->
  (fs = [] /\ rest = buf ++ l) \/ (fs <> [] /\ (length rest < length l)%nat).
Proof.
  intros Hfs Hb E. destruct fs as [|f fs]; [by left|]. right. split; [done|]. apply Forall_cons in Hfs as [[Hf _] _].
  destruct (decide (length (frame_bytes f) <= length buf)%nat) as [Hle|Hgt].
  - exfalso. rewrite frames_bytes_cons, <- app_assoc in E.
    assert (buf = frame_bytes f ++ drop (length (frame_bytes f)) buf) as Eb.
    { assert (take (length (frame_bytes f)) buf = frame_bytes f) as Et.
      { rewrite <- (take_app_le _ l) by lia. by rewrite E, take_app_length. }
      rewrite <- Et at 1. by rewrite take_drop. }
    by rewrite Eb, split1_frame in Hb.
  - apply (f_equal length) in E. rewrite frames_bytes_cons, !length_app in E. lia.
Qed.

Lemma head_old (ra : list Z) n k now : (0 < n <= length ra)%nat ->
  head (drop (length (ra ++ replicate k now) - (n + k)) (ra ++ replicate k now)) = head (drop (length ra - n) ra).
Proof.
  intros Hn. rewrite length_app, length_replicate. replace (length ra + k - (n + k))%nat with (length ra - n)%nat by lia.
  rewrite drop_app_le by lia. destruct (drop (length ra - n) ra) eqn:E; [|done]. apply (f_equal length) in E. rewrite length_drop in E. cbn in E. lia.
Qed.

Lemma head_new (ra : list Z) n k now : (0 < n <= k)%nat ->
  head (drop (length (ra ++ replicate k now) - n) (ra ++ replicate k now)) = Some now.
Proof.
  intros Hn. rewrite length_app, length_replicate, drop_app_ge by lia. replace (length ra + k - n - length ra)%nat with (k - n)%nat by lia.
  destruct k; [lia|]. rewrite drop_replicate. by replace (S k - (S k - n))%nat with (S (n - 1)) by lia.
Qed.

Lemma TryClose_tidy c : tidy c -> tidy (TryClose c).
Proof.
  intros T. unfold TryClose. destruct (IsClosed (ses c)) eqn:Ec; [|done]. destruct T as [H1 H2 H3]. split; [done..|]. unfold IsClosed in *. cbn. by rewrite Ec.
Qed.

Lemma Close_tidy code c a n g : tidy c -> tidy (mkConnection n (Close code (ses c)) a (read_at c) g).
Proof.
  intros [H1 H2 H3]. unfold Close. destruct (IsClosed (ses c)) eqn:Ec; split; try done. cbn. by rewrite Ec.
Qed.

Lemma settle_tidy now made fs b rest s n a ra l : Forall frame_in fs -> (verdict rest = None -> partial rest) ->
  stInputBuffer s ++ l = frames_bytes fs ++ rest -> lenZ (stInputBuffer s ++ l) <= iMaxReceiveBufferBytes ->
  tidy (mkConnection (l ++ n) s a ra false) ->
  forall a' g, tidy (mkConnection n (settle now made fs b rest s) a' (ra ++ replicate (length l) now) g).
Proof.
  intros Hfs Hv E Hlen [T1 T2 T3] a' g. cbn in T1, T2, T3.
  assert (length rest <= length (stInputBuffer s ++ l))%nat as Hrest by (rewrite E, length_app; lia).
  assert (length rest <= length (ra ++ replicate (length l) now))%nat as Hra by (rewrite length_app, length_replicate in *; lia).
  unfold settle. destruct (or_else _ (verdict rest)) as [c|] eqn:Eo; [split; cbn; [unfold lenZ; cbn; lia|lia|done]|].
  assert (iErrorCode s = None /\ verdict rest = None) as [Es Ev] by (by destruct (iErrorCode s), b, (verdict rest)).
  destruct rest as [|x rest]; [split; cbn; [unfold lenZ; cbn; lia|lia|intros _; split; [by apply Hv|]]|].
  { unfold waiting_since. cbn. by rewrite Nat.sub_0_r, drop_all. }
  destruct (made || _); [|split; cbn [ses read_at stInputBuffer]; [unfold lenZ in *; lia|done|done]].
  split; cbn [ses read_at stInputBuffer m_pIncompleteTimer]; [unfold lenZ in *; lia|done|]. intros _. split; [by apply Hv|].
  destruct T3 as [[Hp _] Ht]; [by unfold IsClosed; rewrite Es|]. unfold waiting_since in *. cbn in Ht. cbn [ses read_at stInputBuffer].
  destruct (rest_new _ _ _ _ Hfs Hp E) as [[-> E']|[Hne Hlt]]; unfold deadline_of.
  - rewrite Ht. destruct (stInputBuffer s) as [|y buf] eqn:Eb.
    + cbn in E'. cbn [length]. rewrite Nat.sub_0_r, drop_all. cbn [head fmap option_fmap option_map].
      rewrite head_new; [done|]. rewrite <- E'. cbn. lia.
    + rewrite E', (length_app (y :: buf) l), head_old by (cbn in *; lia).
      destruct (drop (length ra - length (y :: buf)) ra) as [|t q] eqn:Ed; [|done].
      apply (f_equal length) in Ed. rewrite length_drop in Ed. cbn in *. lia.
  - destruct fs as [|f fs]; [done|]. rewrite head_new; [done|]. cbn in *. lia.
Qed.

Lemma start_tidy a : tidy (start a).
Proof. split; cbn; [unfold lenZ; cbn; lia|lia|]. intros _. split; [|done]. split; [done|unfold lenZ; cbn; lia]. Qed.

Lemma do_event_tidy e c r : tidy c -> do_event e c = Some r -> exists c', r = Ok c' /\ tidy c'.
Proof.
  intros T. unfold do_event. destruct (gone c) eqn:Eg; [done|]. destruct e as [l|now made rs|fault|now|].
  - intros [= <-]. eexists. split; [done|]. by destruct T; split.
  - destruct (DataIn_any now made rs (net c) (ses c) (handled c) (td_size _ T)) as (l & n' & fs & rest & fin & En & E & Hfs & Hv & Hlen & -> & Hf & _).
    cbn [rbind]. intros [= <-]. eexists. split; [done|]. apply TryClose_tidy.
    rewrite En, length_app. replace (length l + length n' - length n')%nat with (length l) by lia.
    assert (tidy (mkConnection (l ++ n') (ses c) (handled c) (read_at c) false)) as T' by (by destruct T; split).
    pose proof (settle_tidy now made fs (snd (deliver fs (handled c))) rest _ _ _ _ _ Hfs Hv E Hlen T' (fst (deliver fs (handled c))) false) as T2.
    destruct (Hf (settle now made fs (snd (deliver fs (handled c))) rest (ses c))) as [->|[code ->]]; [done|].
    apply (Close_tidy code _ (fst (deliver fs (handled c))) n' false T2).
  - intros [= <-]. eexists. split; [done|]. apply TryClose_tidy. destruct fault; [by apply Close_tidy|by destruct T; split].
  - destruct (m_pIncompleteTimer (ses c)) as [t|] eqn:Et; [|done]. destruct (t <=? now); [|done]. intros [= <-]. eexists. split; [done|].
    unfold OnIncomplete, PassiveClose, CancelIncompleteTimer, set_timer, Close. destruct T as [T1 T2 T3]. unfold IsClosed in *. cbn.
    destruct (iErrorCode (ses c)) eqn:Ei; split; cbn; done.
  - intros [= <-]. eexists. split; [done|]. by apply Close_tidy.
Qed.

Lemma run_tidy es : forall c r, tidy c -> run es c = Some r -> exists c', r = Ok c' /\ tidy c'.
Proof.
  induction es as [|e es IH]; intros c r T E; cbn [run] in E; [injection E as <-; by eexists|].
  destruct (do_event e c) as [r'|] eqn:Ee; [|done]. destruct (do_event_tidy _ _ _ T Ee) as (c' & -> & T'). by apply (IH c').
Qed.

(** Whatever bytes arrive in whatever pieces and whatever the handlers do, the session
    is never in undefined behaviour; while it is open, less than one frame waits in its
    buffer, there is room to receive more, and the timer of incomplete frames is set
    exactly if something waits, to the time its first byte was read plus the timeout:
    bytes trickling in do not put it off, and a frame completed in time takes it away. *)
Theorem partial_frame_deadline es a r : run es (start a) = Some r ->
  exists c, r = Ok c /\
    (IsClosed (ses c) = false ->
      lenZ (stInputBuffer (ses c)) < 8 + m_iFrameBytes /\ 0 < ReceiveAllowance (ses c) /\
      m_pIncompleteTimer (ses c) = (fun t => t + m_iFrameTimeoutMilliseconds) <$> waiting_since c).
Proof.
  intros E. destruct (run_tidy _ _ _ (start_tidy a) E) as (c & -> & [T1 T2 T3]). exists c. split; [done|]. intros Ho.
  destruct (T3 Ho) as [[_ Hl] Ht]. split_and!; [done| |done]. rewrite ReceiveAllowance_le; lia.
Qed.

(** ** The frames of a byte stream *)

Lemma frames_unique fs : forall rest gs, Forall frame_in fs -> Forall frame_in gs -> frames_bytes fs ++ rest = frames_bytes gs ->
  fs = take (length fs) gs /\ rest = frames_bytes (drop (length fs) gs).
Proof.
  induction fs as [|f fs IH]; intros rest gs Hfs Hgs E; [by split|]. apply Forall_cons in Hfs as [[Hf _] Hfs].
  rewrite frames_bytes_cons, <- app_assoc in E. destruct gs as [|g gs].
  { apply (f_equal lenZ) in E. rewrite lenZ_app, lenZ_frame in E. change (lenZ (frames_bytes [])) with 0 in E.
    pose proof (lenZ_nonneg (snd f)). pose proof (lenZ_nonneg (frames_bytes fs ++ rest)). lia. }
  apply Forall_cons in Hgs as [[Hg _] Hgs]. rewrite frames_bytes_cons in E.
  pose proof (split1_frame f (frames_bytes fs ++ rest) Hf) as E1. rewrite E, split1_frame in E1 by done. injection E1 as -> E1.
  destruct (IH rest gs Hfs Hgs (eq_sym E1)) as [E2 E3]. cbn [length take drop]. by rewrite <- E2.
Qed.

Lemma verdict_app l k c : verdict l = Some c -> verdict (l ++ k) = Some c.
Proof.
  unfold verdict. destruct (Z.ltb_spec (lenZ l) 8); [done|]. rewrite lenZ_app. pose proof (lenZ_nonneg k).
  destruct (Z.ltb_spec (lenZ l + lenZ k) 8); [lia|]. by rewrite !sub_app_l by lia.
Qed.

Lemma verdict_frames gs : Forall frame_in gs -> verdict (frames_bytes gs) = None.
Proof.
  intros Hgs. destruct gs as [|g gs]; [done|]. apply Forall_cons in Hgs as [[Hg Hl] _]. rewrite frames_bytes_cons.
  pose proof (split1_frame g (frames_bytes gs) Hg) as E1. apply split1_size in E1 as Es. unfold split1 in E1. unfold verdict.
  destruct (lenZ _ <? 8); [done|]. rewrite <- Es. destruct (Z.ltb_spec m_iFrameBytes (lenZ (snd g))); [lia|].
  destruct (INT32_MAX <? le_decode (sub 0 4 (frame_bytes g ++ frames_bytes gs))); [done|]. done.
Qed.

Lemma deliver_app fs gs a : deliver (fs ++ gs) a =
  (fst (deliver gs (fst (deliver fs a))), snd (deliver fs a) || snd (deliver gs (fst (deliver fs a)))).
Proof.
  revert a; induction fs as [|f fs IH]; intros a; cbn [app deliver fst snd orb]; [by destruct (deliver gs a)|].
  destruct (DeliverRpc _ _ a) as [a' b]. rewrite IH. destruct (deliver fs a') as [a'' b']. cbn [fst snd]. by rewrite orb_assoc.
Qed.

(** ** What becomes of the stream *)

(** Events in which nothing else than the bytes read can close the session: reads and
    writes do not fail, the timer of incomplete frames is made and does not fire, nobody
    closes the session from elsewhere. *)
Definition smooth (e : event) : Prop :=
  match e with
  | Arrive _ | Writable None => True
  | Readable _ made rs => made = true /\ calm rs
  | _ => False
  end.

Definition arrived (es : list event) : list byte := concat (map (fun e => match e with Arrive l => l | _ => [] end) es).

(** What has been read of the stream [T], and what of it has been delivered; and if all went
    smoothly ([Q]) and no handler has closed the session, why it is closed. *)
Definition reads (Q : Prop) (a : A) (T : list byte) (c : connection) : Prop :=
  lenZ (stInputBuffer (ses c)) <= iMaxReceiveBufferBytes /\
  exists fs rest, T = frames_bytes fs ++ rest /\ Forall frame_in fs /\ handled c = fst (deliver fs a) /\
    (gone c = false -> rest = stInputBuffer (ses c) ++ net c /\ partial (stInputBuffer (ses c))) /\
    (iErrorCode (ses c) = None -> gone c = false) /\
    (Q -> snd (deliver fs a) = false -> forall code, iErrorCode (ses c) = Some code -> verdict rest = Some code /\ gone c = true).

(** Where a step of the run leaves the session open, or closed and for what. *)
Lemma TryClose_gone c : gone c = false -> gone (TryClose c) = IsClosed (ses c).
Proof. unfold TryClose. by destruct (IsClosed (ses c)). Qed.

Lemma TryClose_rest c : stInputBuffer (ses (TryClose c)) = stInputBuffer (ses c) /\ iErrorCode (ses (TryClose c)) = iErrorCode (ses c) /\ net (TryClose c) = net c /\ handled (TryClose c) = handled c.
Proof. unfold TryClose. by destruct (IsClosed (ses c)). Qed.

Lemma settle_buffer now made fs b rest s : lenZ (stInputBuffer (settle now made fs b rest s)) <= lenZ rest.
Proof. unfold settle. pose proof (lenZ_nonneg rest). destruct (or_else _ _); [done|]. destruct rest; [done|]. by destruct (_ || _). Qed.

Lemma settle_open now made fs b rest s : iErrorCode (settle now made fs b rest s) = None -> iErrorCode s = None /\ verdict rest = None /\ stInputBuffer (settle now made fs b rest s) = rest.
Proof.
  unfold settle. destruct (or_else _ (verdict rest)) as [c|] eqn:E; [done|]. intros H. assert (iErrorCode s = None /\ verdict rest = None) as [-> ->] by (by destruct (iErrorCode s), b, (verdict rest)).
  split_and!; [done..|]. destruct rest; [done|]. by destruct (_ || _).
Qed.

Lemma settle_smooth now fs rest s code : iErrorCode s = None -> iErrorCode (settle now true fs false rest s) = Some code -> verdict rest = Some code.
Proof. unfold settle. intros ->. cbn [or_else]. destruct (verdict rest); [cbn; by intros [= ->]|]. by destruct rest. Qed.

Lemma PassiveClose_closed c s : IsClosed (PassiveClose c s) = true.
Proof. unfold PassiveClose. rewrite Close_or. unfold IsClosed. cbn. by destruct (iErrorCode s). Qed.

Lemma PassiveClose_buffer c s : stInputBuffer (PassiveClose c s) = stInputBuffer s.
Proof. unfold PassiveClose. by rewrite Close_or. Qed.

(** One round of reading. *)
Lemma Readable_reads Q a T c now made rs r : reads Q a T c -> gone c = false -> do_event (Readable now made rs) c = Some r ->
  exists c', r = Ok c' /\ reads (Q /\ smooth (Readable now made rs)) a T c'.
Proof.
  intros (Hlen & fs & rest & -> & Hfs & Ha & Hbuf & _ & Hq) Hg. destruct (Hbuf Hg) as [-> Hp]. unfold do_event. rewrite Hg.
  destruct (DataIn_any now made rs (net c) (ses c) (handled c) Hlen) as (l & n' & fs' & rest & fin & En & E & Hfs' & Hv & Hl & -> & Hfin & Hcalm).
  cbn [rbind]. intros [= <-]. eexists. split; [done|]. set (s1 := settle now made fs' (snd (deliver fs' (handled c))) rest (ses c)). set (ra := read_at c ++ _).
  set (c1 := mkConnection n' (fin s1) (fst (deliver fs' (handled c))) ra false). destruct (TryClose_rest c1) as (B1 & B2 & B3 & B4). pose proof (TryClose_gone c1 eq_refl) as B5. cbn [ses net handled c1] in B1, B2, B3, B4, B5.
  assert (lenZ rest <= iMaxReceiveBufferBytes) as Hr by (apply (f_equal lenZ) in E; rewrite (lenZ_app (frames_bytes fs')) in E; pose proof (lenZ_nonneg (frames_bytes fs')); lia).
  assert (lenZ (stInputBuffer (fin s1)) <= iMaxReceiveBufferBytes) as Hb.
  { pose proof (settle_buffer now made fs' (snd (deliver fs' (handled c))) rest (ses c)) as Hs. fold s1 in Hs. destruct (Hfin s1) as [->|[code ->]]; [lia|]. rewrite PassiveClose_buffer. lia. }
  split; [by rewrite B1|]. exists (fs ++ fs'), (rest ++ n'). split_and!; [|by apply Forall_app|by rewrite B4, deliver_app, Ha|..].
  - rewrite En, frames_bytes_app, (app_assoc (stInputBuffer (ses c))), E. by rewrite <- !app_assoc.
  - rewrite B5, B1, B3. intros Ho. destruct (Hfin s1) as [Ef|[code Ef]]; [|rewrite Ef, PassiveClose_closed in Ho; done]. rewrite Ef in *. unfold IsClosed in Ho. destruct (iErrorCode s1) eqn:Ei; [done|].
    destruct (settle_open _ _ _ _ _ _ Ei) as (_ & Ev & Eb). fold s1 in Eb. rewrite Eb. split; [done|by apply Hv].
  - rewrite B2, B5. unfold IsClosed. by intros ->.
  - rewrite B2, B5, deliver_app, <- Ha. cbn [snd]. intros [HQ [-> Hc]] [D1 D2]%orb_false_iff code Ecode. split; [|unfold IsClosed; by rewrite Ecode].
    assert (iErrorCode (ses c) = None) as Eo by (destruct (iErrorCode (ses c)) as [code'|] eqn:Eo; [|done]; destruct (Hq HQ D1 code' eq_refl) as [_ ?]; congruence).
    assert (fin s1 = s1) as Ef.
    { apply Hcalm; [done|]. pose proof (settle_buffer now true fs' (snd (deliver fs' (handled c))) rest (ses c)) as Hs. fold s1 in Hs. rewrite ReceiveAllowance_le by lia. destruct (iErrorCode s1) as [x|] eqn:Ei.
      - assert (stInputBuffer s1 = []) as ->; [|unfold lenZ; cbn; lia]. unfold s1, settle in Ei |- *. rewrite Eo, D2 in Ei |- *. cbn [or_else] in *. destruct (verdict rest); [done|]. by destruct rest.
      - destruct (settle_open _ _ _ _ _ _ Ei) as (_ & Ev & Eb). fold s1 in Eb. rewrite Eb. destruct (Hv Ev) as [_ Hpl]. lia. }
    rewrite Ef in Ecode. unfold s1 in Ecode. rewrite D2 in Ecode. apply settle_smooth in Ecode; [|done]. by apply verdict_app.
Qed.

(** A step that only closes the session, or does nothing to it. *)
Lemma closing_reads Q Q' a T c c' : reads Q a T c -> gone c = false -> stInputBuffer (ses c') = stInputBuffer (ses c) -> net c' = net c -> handled c' = handled c ->
  (iErrorCode (ses c') = None -> gone c' = false) -> (Q' -> Q /\ iErrorCode (ses c') = iErrorCode (ses c) /\ (iErrorCode (ses c) = None -> gone c' = false)) -> reads Q' a T c'.
Proof.
  intros (Hlen & fs & rest & ET & Hfs & Ha & Hbuf & Ho & Hq) Hg Eb En Eh Ho' HQ. split; [by rewrite Eb|]. exists fs, rest. split_and!; [done|done|by rewrite Eh|intros _; rewrite Eb, En; by apply Hbuf|done|].
  intros (H1 & E & _)%HQ D code Ecode. rewrite E in Ecode. destruct (Hq H1 D code Ecode) as [_ ?]. congruence.
Qed.

Lemma do_event_reads Q a T e c r : reads Q a T c -> do_event e c = Some r -> exists c', r = Ok c' /\ reads (Q /\ smooth e) a (T ++ arrived [e]) c'.
Proof.
  intros Hr E. destruct (gone c) eqn:Hg; [by unfold do_event in E; rewrite Hg in E|].
  destruct e as [l|now made rs|fault|now|]; unfold arrived; cbn [map concat]; rewrite ?app_nil_r; [|by apply (Readable_reads Q a T c)|..]; unfold do_event in E; rewrite Hg in E.
  - injection E as <-. eexists. split; [done|]. destruct Hr as (Hlen & fs & rest & -> & Hfs & Ha & Hbuf & Ho & Hq). destruct (Hbuf Hg) as [-> Hp]. split; [done|]. exists fs, (stInputBuffer (ses c) ++ net c ++ l). cbn.
    split_and!; [by rewrite <- !app_assoc|done|done|done|done|]. intros [HQ _] D code Ecode. destruct (Hq HQ D code Ecode) as [_ ?]. congruence.
  - injection E as <-. eexists. split; [done|]. set (c1 := mkConnection _ _ _ _ false). destruct (TryClose_rest c1) as (B1 & B2 & B3 & B4). pose proof (TryClose_gone c1 eq_refl) as B5. cbn [ses net handled c1] in *.
    apply (closing_reads Q _ a T c); try done; [rewrite B1; destruct fault; [apply PassiveClose_buffer|done]|rewrite B2, B5; unfold IsClosed; by intros ->|]. intros [HQ Hs]. destruct fault; [done|]. rewrite B2, B5. split_and!; try done. unfold IsClosed. by intros ->.
  - destruct (m_pIncompleteTimer (ses c)) as [t|]; [|done]. destruct (t <=? now); [|done]. injection E as <-. eexists. split; [done|]. apply (closing_reads Q _ a T c); try done; [|by intros [_ []]]. cbn [ses]. unfold OnIncomplete. by rewrite PassiveClose_buffer.
  - injection E as <-. eexists. split; [done|]. apply (closing_reads Q _ a T c); try done; [|by intros [_ []]]. cbn. unfold ActiveClose. by rewrite Close_or.
Qed.

Lemma run_reads a es : forall Q T c r, reads Q a T c -> run es c = Some r -> exists c', r = Ok c' /\ reads (Q /\ Forall smooth es) a (T ++ arrived es) c'.
Proof.
  induction es as [|e es IH]; intros Q T c r Hr E; cbn [run] in E.
  - injection E as <-. exists c. unfold arrived. cbn. rewrite app_nil_r. split; [done|]. destruct Hr as (Hlen & fs & rest & H1 & H2 & H3 & H4 & H5 & H6). split; [done|]. exists fs, rest. split_and!; try done. intros [HQ _]. by apply H6.
  - destruct (do_event e c) as [r'|] eqn:Ee; [|done]. destruct (do_event_reads _ _ _ _ _ _ Hr Ee) as (c' & -> & Hr'). destruct (IH _ _ _ _ Hr' E) as (c'' & -> & Hr''). exists c''. split; [done|].
    unfold arrived in *. cbn [map concat] in *. rewrite app_nil_r, <- app_assoc in Hr''. destruct Hr'' as (Hlen & fs & rest & H1 & H2 & H3 & H4 & H5 & H6). split; [done|]. exists fs, rest. split_and!; try done. intros [HQ Hs]. apply Forall_cons in Hs as [? ?]. by apply H6.
Qed.

(** C15: whatever happens to a session, what it has delivered are the first frames
    of the bytes that arrived, once each and in order, however they are cut and read, and
    while its channel is there the bytes behind them are those it keeps and those not read.
    If reads and writes do not fail, the timer of incomplete frames does not fire, nobody
    closes the session from elsewhere and no handler does, it is closed only by a frame
    beyond the limits, with the code for it: so when the bytes are those of frames within
    the limits it stays open, and once everything has been read every frame has been
    delivered; the limits on memory never close it. *)
Theorem stream_delivered es a r : run es (start a) = Some r ->
  exists c fs rest, r = Ok c /\ arrived es = frames_bytes fs ++ rest /\ Forall frame_in fs /\ handled c = fst (deliver fs a) /\
    (gone c = false -> rest = stInputBuffer (ses c) ++ net c /\ partial (stInputBuffer (ses c))) /\
    (Forall smooth es -> snd (deliver fs a) = false ->
      (forall code, iErrorCode (ses c) = Some code -> verdict rest = Some code) /\
      forall gs more, Forall frame_in gs -> arrived es ++ more = frames_bytes gs ->
        iErrorCode (ses c) = None /\ fs = take (length fs) gs /\ (net c = [] -> more = [] -> fs = gs /\ stInputBuffer (ses c) = [])).
Proof.
  intros E. assert (reads True a [] (start a)) as H0.
  { split; [unfold lenZ; cbn; lia|]. exists [], []. cbn. split_and!; try done. intros _. split; [done|]. split; [done|unfold lenZ; cbn; lia]. }
  destruct (run_reads a es _ _ _ _ H0 E) as (c & -> & (_ & fs & rest & ET & Hfs & Ha & Hbuf & Ho & Hq)). rewrite app_nil_l in ET.
  exists c, fs, rest. split_and!; try done. intros Hs D. specialize (Hq (conj I Hs) D). split; [intros code Ec; by apply Hq|]. intros gs more Hgs Eg. rewrite ET, <- app_assoc in Eg.
  destruct (frames_unique _ _ _ Hfs Hgs Eg) as [E1 E2]. assert (Forall frame_in (drop (length fs) gs)) as Hd by (by apply Forall_drop).
  destruct (iErrorCode (ses c)) as [code|].
  { destruct (Hq code eq_refl) as [Hc _]. apply (verdict_app _ more) in Hc. rewrite E2, verdict_frames in Hc; done. }
  split_and!; [done..|]. intros En ->. destruct (Hbuf (Ho eq_refl)) as [-> [Hp _]]. rewrite En, !app_nil_r in E2. rewrite E2 in Hp.
  destruct (drop (length fs) gs) as [|g gs'] eqn:Ed.
  - split; [|done]. rewrite <- (take_drop (length fs) gs), Ed, app_nil_r. exact E1.
  - apply Forall_cons in Hd as [[Hg _] _]. by rewrite frames_bytes_cons, split1_frame in Hp.
Qed.

End Receive.

(** The frame EncodePbFrame makes of a body is the one the receiver takes apart. *)
Lemma EncodePbFrame_frame iId stBody : 0 <= iId <= INT32_MAX -> Size stBody <= INT32_MAX ->
  EncodePbFrame iId stBody = Ok (of_bytes (frame_bytes (iId, data stBody))).
Proof.
  intros Hi Hs. unfold EncodePbFrame. unfold Size, INT32_MAX in *. pose proof (lenZ_nonneg (data stBody)).
  destruct (Z.ltb_spec 0x7FFFFFFF (lenZ (data stBody))); [lia|]. rewrite !u32_small by lia.
  by rewrite WritePbRaw_frame_ltb by (split; unfold INT32_MAX; cbn; lia).
Qed.

(** ** Examples *)

Section Example.

(** A handler that keeps what it is given. *)
Definition keep (iId : Z) (stBody : stream) (a : list frame_t) : list frame_t * bool := (a ++ [(iId, data stBody)], false).

Definition sent_frames : list frame_t := [(5, txt "ab"); (6, []); (7, txt "cde")].
Definition wire : list byte := frames_bytes sent_frames.

Definition trickle : list event :=
  [Arrive (take 13 wire); Readable 100 true [Got 4; Interrupted; Got 100]; Arrive (take 3 (drop 13 wire));
   Readable 104 true [Got 2; Again]; Readable 107 true [Got 9]].

Definition whole : list event := trickle ++ [Arrive (drop 16 wire); Readable 109 true [Got 7; Got 90]].

Definition the_connection (r : result (connection (A := list frame_t))) : connection :=
  match r with Ok c => c | _ => start [] end.

Definition frames_then (es : list event) : connection (A := list frame_t) :=
  match run 16 10 32 false keep es (start []) with Some r => the_connection r | None => start [] end.

Lemma partial_frame_deadline_witness :
  waiting_since (frames_then trickle) = Some 100 /\
  m_pIncompleteTimer (ses (frames_then trickle)) = Some 110.
Proof.
  split; [vm_compute; reflexivity|].
  destruct (partial_frame_deadline 16 10 32 false keep ltac:(unfold INT32_MAX; lia) ltac:(unfold PTRDIFF_MAX; lia) eq_refl trickle []
    (Ok (frames_then trickle)) ltac:(vm_compute; reflexivity)) as (c & E & H).
  apply (f_equal the_connection) in E. cbv beta iota delta [the_connection] in E. subst c. destruct (H ltac:(vm_compute; reflexivity)) as (_ & _ & ->). vm_compute. reflexivity.
Defined.

Lemma keep_quiet fs : forall a, snd (deliver keep fs a) = false.
Proof. induction fs as [|f fs IH]; intros a; [done|]. cbn. specialize (IH (a ++ [(fst f, data (of_bytes (snd f)))])). by destruct (deliver keep fs _). Qed.

Lemma stream_delivered_witness : handled (frames_then whole) = sent_frames /\ stInputBuffer (ses (frames_then whole)) = [].
Proof.
  destruct (stream_delivered 16 10 32 false keep ltac:(unfold INT32_MAX; lia) ltac:(unfold PTRDIFF_MAX; lia) eq_refl whole []
    (Ok (frames_then whole)) ltac:(vm_compute; reflexivity)) as (c & fs & rest & E & _ & _ & Ha & _ & H).
  apply (f_equal the_connection) in E. cbv beta iota delta [the_connection] in E. subst c.
  destruct (H ltac:(unfold whole, trickle; repeat constructor) (keep_quiet fs [])) as [_ H1]. destruct (H1 sent_frames []) as (_ & _ & H').
  - repeat constructor; vm_compute; congruence.
  - vm_compute. reflexivity.
  - destruct H' as [-> Hb]; [vm_compute; reflexivity|done|]. split; [|exact Hb]. rewrite Ha. vm_compute. reflexivity.
Defined.

End Example.
End ProtoSession.
