(* ===== verification/SendQueue.v ===== *)
(** * Sending on a TCP session

    The send queue of a session: Session::SendResult, SwapOutBuff, OnBytesSent,
    SendDrained (cbaselib/net/src/oi_session.cpp), NetSession::Close
    (net/src/oi_net_session.cpp), TCP_Channel::DataOut (net/src/oi_tcp_channel.cpp),
    Channel::AllowSend and ForbidSend (net/src/oi_channel.cpp), and the part of
    net/src/oi_poll.cpp that keeps libuv's events as the channel wants them.

    Any thread may send or close; the poll thread writes.  What is done under the
    session's lock is one step, and so is what the poll thread does between two such
    steps.  The kernel's answers to send are inputs. *)

From S2P Require Import Prelude.

Module SendQueue.

Definition OI_OK : Z := 0.
Definition OI_ERR_CONNECT : Z := -3.
Definition OI_ERR_BUSY : Z := -5.
Definition SESSION_MANAGER_NORMAL_CLOSE : Z := -20000.

(** [iErrorCode]: none while IO_ST_CONNECTED; [bAttached]: pChannel is not NULL. *)
Record session : Type := mkSession {
  iErrorCode : option Z;
  iQueuedBytes : Z;
  iMaxSendQueueBytes : Z;
  stOutputBuffer : list byte;
  bAttached : bool
}.

(** The write bit of iEventMask and of the mask libuv watches, the channel's own buffer,
    and how many IO_OP_MOD of this channel are queued for the poll thread. *)
Record channel : Type := mkChannel {
  bEventWrite : bool;
  bWatchWrite : bool;
  stChannelBuffer : list byte;
  iOps : nat
}.

(** Where the poll thread is with this channel: outside, in the loop of DataOut, before
    OnBytesSent, at write_finish, before TryClose, or done with the channel for good. *)
Inductive place : Type := Outside | Writing | Noting (iBytes : Z) | Finishing | Leaving | Destroyed.

Record state : Type := mkState {
  se : session;
  ch : channel;
  pc : place;
  wire : list byte;
  accepted : list byte
}.

Definition set_se (x : session) (s : state) : state := mkState x (ch s) (pc s) (wire s) (accepted s).
Definition set_ch (x : channel) (s : state) : state := mkState (se s) x (pc s) (wire s) (accepted s).
Definition set_pc (p : place) (s : state) : state := mkState (se s) (ch s) p (wire s) (accepted s).

Definition start (iMax : Z) : state := mkState (mkSession None 0 iMax [] true) (mkChannel false false [] 0) Outside [] [].

Definition IsClosed (x : session) : bool := match iErrorCode x with Some _ => true | None => false end.

(** IOEventMod: the poll thread changes what is watched at once, others queue it. *)
Definition IOEventMod (bInLoop b : bool) (c : channel) : channel :=
  if bInLoop then mkChannel b b (stChannelBuffer c) (iOps c)
  else mkChannel b (bWatchWrite c) (stChannelBuffer c) (S (iOps c)).

(** ApplyOp for IO_OP_MOD: the mask wanted now, not the one when it was queued. *)
Definition apply_mod (c : channel) : channel := mkChannel (bEventWrite c) (bEventWrite c) (stChannelBuffer c) (pred (iOps c)).

(** Session::AllowSend, then Channel::AllowSend. *)
Definition AllowSend (bInLoop : bool) (s : state) : state :=
  if bAttached (se s) && negb (bEventWrite (ch s)) then set_ch (IOEventMod bInLoop true (ch s)) s else s.

Definition ForbidSend (s : state) : state :=
  if bAttached (se s) && negb (IsClosed (se s)) && bEventWrite (ch s) then set_ch (IOEventMod true false (ch s)) s else s.

Definition SendResult (bInLoop : bool) (stBytes : list byte) (s : state) : Z * state :=
  let x := se s in
  if IsClosed x then (OI_ERR_CONNECT, s)
  else if (iMaxSendQueueBytes x <? iQueuedBytes x) || (u64 (iMaxSendQueueBytes x - iQueuedBytes x) <? lenZ stBytes) then (OI_ERR_BUSY, s)
  else
    let x := mkSession (iErrorCode x) (u64 (iQueuedBytes x + lenZ stBytes)) (iMaxSendQueueBytes x) (stOutputBuffer x ++ stBytes) (bAttached x) in
    (OI_OK, AllowSend bInLoop (mkState x (ch s) (pc s) (wire s) (accepted s ++ stBytes))).

Definition OnBytesSent (iBytes : Z) (x : session) : result session :=
  if iBytes <=? iQueuedBytes x then
    Ok (mkSession (iErrorCode x) (u64 (iQueuedBytes x - iBytes)) (iMaxSendQueueBytes x) (stOutputBuffer x) (bAttached x))
  else Err AssertFail.

Definition SwapOutBuff (s : state) : state :=
  let x := se s in
  let c := ch s in
  mkState (mkSession (iErrorCode x) (iQueuedBytes x) (iMaxSendQueueBytes x) [] (bAttached x))
    (mkChannel (bEventWrite c) (bWatchWrite c) (stChannelBuffer c ++ stOutputBuffer x) (iOps c)) (pc s) (wire s) (accepted s).

Definition SendDrained (s : state) : state :=
  match stOutputBuffer (se s) with [] => ForbidSend s | _ => s end.

Definition Close (bInLoop : bool) (iError : Z) (s : state) : state :=
  let x := se s in
  if IsClosed x then s
  else AllowSend bInLoop (set_se (mkSession (Some iError) (iQueuedBytes x) (iMaxSendQueueBytes x) (stOutputBuffer x) (bAttached x)) s).

(** NetChannel::TryClose, the end of OnPoll. *)
Definition TryClose (s : state) : state :=
  let x := se s in
  if IsClosed x then
    set_pc Destroyed (set_se (mkSession (iErrorCode x) (iQueuedBytes x) (iMaxSendQueueBytes x) (stOutputBuffer x) false) s)
  else set_pc Outside s.

(** What send answers: [n] bytes written, EAGAIN, EINTR, or another error. *)
Inductive sent : Type := Wrote (n : Z) | Again | Interrupted | Broken (iErrno : Z).

(** One turn of the loop of DataOut. *)
Definition write_turn (r : sent) (s : state) : option state :=
  let c := ch s in
  match stChannelBuffer c with
  | [] => Some (set_pc Finishing s)
  | l =>
      match r with
      | Wrote n =>
          if (0 <? n) && (n <=? lenZ l) then
            Some (mkState (se s) (mkChannel (bEventWrite c) (bWatchWrite c) (drop (Z.to_nat n) l) (iOps c)) (Noting n)
                    (wire s ++ take (Z.to_nat n) l) (accepted s))
          else None
      | Again => Some (set_pc Leaving s)
      | Interrupted => Some s
      | Broken e => Some (set_pc Leaving (Close true e s))
      end
  end.

Inductive event : Type :=
| Send (bInLoop : bool) (stBytes : list byte)
| ActiveClose (bInLoop : bool)
| PassiveClose (iError : Z)          (* by the poll thread outside DataOut *)
| Poll (bWritable : bool)            (* OnPoll begins: writable, or something else *)
| Turn (r : sent)                    (* the poll thread goes on in DataOut *)
| ApplyOp.

(** [None]: cannot happen now. *)
Definition step (e : event) (s : state) : option (result state) :=
  match e with
  | Send b l => Some (Ok (snd (SendResult b l s)))
  | ActiveClose b => Some (Ok (Close b SESSION_MANAGER_NORMAL_CLOSE s))
  | PassiveClose c => match pc s with Outside => Some (Ok (Close true c s)) | _ => None end
  | Poll w =>
      match pc s with
      | Outside =>
          if w then if bWatchWrite (ch s) then Some (Ok (set_pc Writing (SwapOutBuff s))) else None
          else Some (Ok (set_pc Leaving s))
      | _ => None
      end
  | Turn r =>
      match pc s with
      | Writing => match write_turn r s with Some s => Some (Ok s) | None => None end
      | Noting n => Some (let! x := OnBytesSent n (se s) in Ok (set_pc Writing (set_se x s)))
      | Finishing => Some (Ok (set_pc Leaving (SendDrained s)))
      | Leaving => Some (Ok (TryClose s))
      | _ => None
      end
  | ApplyOp =>
      match pc s with
      | Outside => if (0 <? iOps (ch s))%nat then Some (Ok (set_ch (apply_mod (ch s)) s)) else None
      | _ => None
      end
  end.

Fixpoint run (es : list event) (s : state) : option (result state) :=
  match es with
  | [] => Some (Ok s)
  | e :: es =>
      match step e s with
      | Some (Ok s) => run es s
      | r => r
      end
  end.

(** ** The invariant *)

Definition unsent (s : state) : list byte := stChannelBuffer (ch s) ++ stOutputBuffer (se s).
Definition noting (p : place) : Z := match p with Noting n => n | _ => 0 end.
Definition in_DataOut (p : place) : Prop := match p with Writing | Noting _ | Finishing => True | _ => False end.

Record wf (iMax : Z) (s : state) : Prop := mkWf {
  wf_order : accepted s = wire s ++ unsent s;
  wf_max : iMaxSendQueueBytes (se s) = iMax;
  wf_count : iQueuedBytes (se s) = lenZ (unsent s) + noting (pc s);
  wf_bound : iQueuedBytes (se s) <= iMax;
  wf_noting : 0 <= noting (pc s);
  wf_attached : bAttached (se s) = negb (match pc s with Destroyed => true | _ => false end);
  wf_watch : bWatchWrite (ch s) = true -> bEventWrite (ch s) = true;
  wf_ops : bEventWrite (ch s) = true -> bWatchWrite (ch s) = true \/ (0 < iOps (ch s))%nat;
  wf_wanted : pc s <> Destroyed -> IsClosed (se s) = true \/ unsent s <> [] \/ in_DataOut (pc s) -> bEventWrite (ch s) = true;
  wf_finishing : pc s = Finishing -> stChannelBuffer (ch s) = []
}.

Lemma start_wf iMax : 0 <= iMax -> wf iMax (start iMax).
Proof. intros. split; cbn; try done; try lia. intros _ [?|[E|?]]; [done|by destruct E|done]. Qed.

(** AllowSend establishes the clauses on the events. *)
Lemma AllowSend_wf b iMax s :
  accepted s = wire s ++ unsent s -> iMaxSendQueueBytes (se s) = iMax -> iQueuedBytes (se s) = lenZ (unsent s) + noting (pc s) ->
  iQueuedBytes (se s) <= iMax -> 0 <= noting (pc s) -> bAttached (se s) = negb (match pc s with Destroyed => true | _ => false end) ->
  (bWatchWrite (ch s) = true -> bEventWrite (ch s) = true) ->
  (bEventWrite (ch s) = true -> bWatchWrite (ch s) = true \/ (0 < iOps (ch s))%nat) ->
  (pc s = Finishing -> stChannelBuffer (ch s) = []) -> wf iMax (AllowSend b s).
Proof.
  intros H1 H2 H3 H4 H5 H6 H7 H8 H9. unfold AllowSend. destruct (bAttached (se s)) eqn:Ea; cbn [andb].
  - destruct (bEventWrite (ch s)) eqn:Ee; cbn [negb]; [split; rewrite ?Ea, ?Ee; try done; intros _; by apply H8|].
    unfold IOEventMod, set_ch, unsent in *. destruct b; (split; cbn; rewrite ?Ea; try done; intros _; first [by left|right; lia]).
  - split; rewrite ?Ea; try done. intros Hp. by destruct (pc s).
Qed.

Lemma SendResult_wf b l iMax s : 0 <= iMax < 2 ^ 64 -> wf iMax s -> wf iMax (snd (SendResult b l s)).
Proof.
  intros Hm W. unfold SendResult. destruct (IsClosed (se s)); [done|]. destruct (_ || _) eqn:Eo; [done|].
  destruct W as [H1 H2 H3 H4 H5 H6 H7 H8 H9 H10]. rewrite orb_false_iff, !Z.ltb_ge, H2 in Eo.
  pose proof (lenZ_nonneg (unsent s)) as Hu. pose proof (lenZ_nonneg l). rewrite u64_small in Eo by lia.
  cbn [snd]. apply AllowSend_wf; unfold unsent in *; cbn; rewrite ?H2, ?app_assoc; try done; rewrite ?lenZ_app in *; rewrite ?u64_small; try lia.
  by rewrite H1, <- !app_assoc.
Qed.

Lemma Close_wf b c iMax s : wf iMax s -> wf iMax (Close b c s).
Proof. intros W. unfold Close. destruct (IsClosed (se s)); [done|]. destruct W. by apply AllowSend_wf. Qed.

Lemma ForbidSend_wf iMax s : wf iMax s -> pc s = Finishing -> stOutputBuffer (se s) = [] -> wf iMax (set_pc Leaving (ForbidSend s)).
Proof.
  intros [H1 H2 H3 H4 H5 H6 H7 H8 H9 H10] Hp Ho. unfold ForbidSend. rewrite Hp in *.
  assert (unsent s = []) as Hu by (unfold unsent; by rewrite H10, Ho).
  destruct (bAttached (se s) && negb (IsClosed (se s)) && bEventWrite (ch s)) eqn:Ea.
  - apply andb_true_iff in Ea as [[_ Hc]%andb_true_iff _]. apply negb_true_iff in Hc.
    split; unfold unsent, set_ch, set_pc, IOEventMod in *; cbn; try done. rewrite Hc, Hu. intros _ [?|[?|?]]; done.
  - split; unfold unsent, set_pc in *; cbn; try done. intros _ Hw. apply H9; [done|]. right; by right.
Qed.

Lemma set_pc_wf iMax p s : wf iMax s -> noting (pc s) = 0 -> noting p = 0 -> pc s <> Destroyed -> p <> Destroyed -> p <> Finishing ->
  (in_DataOut p -> in_DataOut (pc s)) -> wf iMax (set_pc p s).
Proof.
  intros [H1 H2 H3 H4 H5 H6 H7 H8 H9 H10] Hn Hn' Hp Hp' Hf Hi. split; unfold unsent, set_pc in *; cbn; try done; try lia.
  - rewrite H6. by destruct (pc s), p.
  - intros _ [?|[?|?]]; apply H9; auto.
Qed.

Lemma TryClose_wf iMax s : wf iMax s -> pc s = Leaving -> wf iMax (TryClose s).
Proof.
  intros W Hp. unfold TryClose. destruct (IsClosed (se s)) eqn:Ec.
  - destruct W as [H1 H2 H3 H4 H5 H6 H7 H8 H9 H10]. rewrite Hp in *. by split.
  - apply set_pc_wf; rewrite ?Hp; done.
Qed.

Lemma step_wf e iMax s r : 0 <= iMax < 2 ^ 64 -> wf iMax s -> step e s = Some r -> exists s', r = Ok s' /\ wf iMax s'.
Proof.
  intros Hm W. pose proof W as [H1 H2 H3 H4 H5 H6 H7 H8 H9 H10]. destruct e as [b l|b|c|w|a|]; cbn [step].
  - intros [= <-]. eexists. split; [done|]. by apply SendResult_wf.
  - intros [= <-]. eexists. split; [done|]. by apply Close_wf.
  - destruct (pc s); try done. intros [= <-]. eexists. split; [done|]. by apply Close_wf.
  - destruct (pc s) eqn:Ep; try done. destruct w.
    + destruct (bWatchWrite (ch s)) eqn:Ew; [|done]. intros [= <-]. eexists. split; [done|]. unfold SwapOutBuff, set_pc, unsent in *.
      split; cbn; rewrite ?app_nil_r, ?Ep, ?Ew; try done; try lia; intros _; first [by left|by apply H7|intros _; by apply H7].
    + intros [= <-]. eexists. split; [done|]. apply set_pc_wf; rewrite ?Ep; done.
  - destruct (pc s) as [| |n| | |] eqn:Ep; try done.
    + unfold write_turn. destruct (stChannelBuffer (ch s)) as [|y l] eqn:Eb.
      { intros [= <-]. eexists. split; [done|]. unfold set_pc, unsent in *. split; cbn; try done. intros _ _. apply H9; [done|right; by right]. }
      destruct a as [n| | |c]; try destruct (_ && _) eqn:En; intros [= <-]; eexists; (split; [done|]).
      * apply andb_true_iff in En as [En1%Z.ltb_lt En2%Z.leb_le].
        assert (wire s ++ unsent s = (wire s ++ take (Z.to_nat n) (y :: l)) ++ drop (Z.to_nat n) (y :: l) ++ stOutputBuffer (se s)) as Ew.
        { unfold unsent. rewrite Eb, <- app_assoc. f_equal. by rewrite app_assoc, take_drop. }
        split; unfold unsent in *; cbn [se ch pc wire accepted stChannelBuffer bEventWrite bWatchWrite iOps noting in_DataOut]; try done.
        -- by rewrite H1.
        -- rewrite H3, Eb, !lenZ_app. cbn [noting]. unfold lenZ in *. rewrite length_drop. lia.
        -- lia.
        -- intros _ _. apply H9; [done|right; by right].
      * apply set_pc_wf; rewrite ?Ep; done.
      * done.
      * apply (Close_wf true c) in W. assert (pc (Close true c s) = Writing) as Ep'.
        { rewrite <- Ep. unfold Close, AllowSend, set_se, set_ch. destruct (IsClosed _); [done|]. cbn. by destruct (_ && _). }
        apply set_pc_wf; rewrite ?Ep'; done.
    + cbn [noting] in *. unfold OnBytesSent. destruct (Z.leb_spec n (iQueuedBytes (se s))); [|pose proof (lenZ_nonneg (unsent s)); lia].
      cbn [rbind]. intros [= <-]. eexists. split; [done|]. pose proof (lenZ_nonneg (unsent s)). unfold set_pc, set_se, unsent in *.
      split; unfold unsent; cbn; try done; rewrite ?u64_small by lia; try lia. intros _ _. apply H9; [done|right; by right].
    + intros [= <-]. eexists. split; [done|]. unfold SendDrained. destruct (stOutputBuffer (se s)) eqn:Eo; [by apply ForbidSend_wf|].
      apply set_pc_wf; rewrite ?Ep; done.
    + intros [= <-]. eexists. split; [done|]. by apply TryClose_wf.
  - destruct (pc s) eqn:Ep; try done. destruct (_ <? _)%nat eqn:Eo; [|done]. intros [= <-]. eexists. split; [done|].
    unfold apply_mod, set_ch, unsent in *. split; cbn; rewrite ?Ep; try done. intros ?. by left.
Qed.

Lemma run_wf es iMax : forall s r, 0 <= iMax < 2 ^ 64 -> wf iMax s -> run es s = Some r -> exists s', r = Ok s' /\ wf iMax s'.
Proof.
  induction es as [|e es IH]; intros s r Hm W E; cbn [run] in E; [injection E as <-; by eexists|].
  destruct (step e s) as [r'|] eqn:Ee; [|done]. destruct (step_wf _ _ _ _ Hm W Ee) as (s' & -> & W'). by apply (IH s').
Qed.

(** ** Properties *)

(** C18: whatever threads send and close while the poll thread writes, and
    whatever the kernel takes, what SendResult has accepted is what was written, then
    what waits in the channel's buffer, then what waits in the session's, byte for byte
    and in order; the count of queued bytes is that of what waits (and of what is
    written but not yet noted), it never exceeds the limit, and the assertion in
    OnBytesSent holds. *)
Theorem sent_in_order es iMax r : 0 <= iMax < 2 ^ 64 -> run es (start iMax) = Some r ->
  exists s, r = Ok s /\ accepted s = wire s ++ stChannelBuffer (ch s) ++ stOutputBuffer (se s) /\
    iQueuedBytes (se s) = lenZ (stChannelBuffer (ch s)) + lenZ (stOutputBuffer (se s)) + noting (pc s) /\
    iQueuedBytes (se s) <= iMax.
Proof.
  intros Hm E. destruct (run_wf _ _ _ _ Hm (start_wf iMax ltac:(lia)) E) as (s & -> & W). exists s.
  destruct W as [H1 H2 H3 H4 _ _ _ _ _ _]. split_and!; try done. by rewrite H3, <- lenZ_app.
Qed.

Definition loop_event (e : event) : Prop := match e with Poll _ | Turn _ | ApplyOp => True | _ => False end.

Lemma run_app es fs s s' : run es s = Some (Ok s') -> run (es ++ fs) s = run fs s'.
Proof.
  revert s; induction es as [|e es IH]; intros s; cbn [run app]; [by intros [= ->]|]. destruct (step e s) as [[s1|x]|]; try done. apply IH.
Qed.

(** The poll thread gets to see what it is wanted for. *)
Lemma watched iMax s : wf iMax s -> pc s = Outside -> bEventWrite (ch s) = true ->
  exists es s', Forall loop_event es /\ run es s = Some (Ok s') /\ wf iMax s' /\ se s' = se s /\ stChannelBuffer (ch s') = stChannelBuffer (ch s) /\
    pc s' = Outside /\ wire s' = wire s /\ accepted s' = accepted s /\ bWatchWrite (ch s') = true.
Proof.
  intros W Hp He. destruct (bWatchWrite (ch s)) eqn:Ew.
  - exists [], s. split_and!; done || by constructor.
  - destruct (wf_ops _ _ W He) as [?|Ho]; [congruence|]. exists [ApplyOp], (set_ch (apply_mod (ch s)) s). split_and!; try done; [by repeat constructor|..].
    + cbn [run step]. rewrite Hp. destruct (Nat.ltb_spec 0 (iOps (ch s))); [done|lia].
    + destruct W as [H1 H2 H3 H4 H5 H6 H7 H8 H9 H10]. unfold set_ch, apply_mod, unsent in *. split; cbn; try done. intros ?. by left.
Qed.

(** One pass of DataOut in which the kernel takes everything. *)
Lemma pass iMax s : 0 <= iMax < 2 ^ 64 -> wf iMax s -> pc s = Outside -> bWatchWrite (ch s) = true -> IsClosed (se s) = false -> unsent s <> [] ->
  let es := [Poll true; Turn (Wrote (lenZ (unsent s))); Turn Again; Turn Again; Turn Again; Turn Again] in
  exists s', run es s = Some (Ok s') /\ wire s' = wire s ++ unsent s /\ accepted s' = accepted s /\ unsent s' = [] /\ iQueuedBytes (se s') = 0 /\
    pc s' = Outside.
Proof.
  intros Hm W Hp Hw Hc Hu es. subst es. pose proof (wf_count _ _ W) as H3. pose proof (wf_bound _ _ W) as H4. rewrite Hp in H3. cbn [noting] in H3.
  destruct s as [[e q m out att] [ev ww cb ops] p wr acc]. unfold unsent, IsClosed in *. cbn in Hp, Hw, Hc, Hu, H3, H4 |- *. subst p ww.
  destruct e; [done|]. unfold SwapOutBuff, write_turn. cbn. remember (cb ++ out) as u eqn:Eu. clear Eu W. destruct u as [|y l]; [done|].
  pose proof (lenZ_nonneg l). rewrite lenZ_cons in *.
  destruct (Z.ltb_spec 0 (1 + lenZ l)); [|lia]. rewrite Z.leb_refl. cbn [andb].
  replace (Z.to_nat (1 + lenZ l)) with (length (y :: l)) by (unfold lenZ; cbn; lia). rewrite drop_all, firstn_all.
  cbn -[lenZ]. unfold OnBytesSent. cbn -[lenZ]. destruct (Z.leb_spec (1 + lenZ l) q); [|lia]. cbn -[lenZ].
  unfold SendDrained, ForbidSend, TryClose. cbn -[lenZ]. destruct att, ev; cbn -[lenZ]; (eexists; split_and!; try done; cbn -[lenZ]; rewrite u64_small by lia; lia).
Qed.

(** C16: no wake-up is lost: in whatever order others sent, whenever the poll
    thread is outside the channel and something waits on an open session, the write
    event is watched or an operation that will watch it is queued, so that the poll
    thread, left alone with a socket that takes bytes, writes everything; and a closed
    session that is not destroyed yet is woken likewise and destroyed. *)
Theorem queue_drains es iMax s : 0 <= iMax < 2 ^ 64 -> run es (start iMax) = Some (Ok s) -> pc s = Outside ->
  exists es' s', Forall loop_event es' /\ run es' s = Some (Ok s') /\
    (IsClosed (se s) = false -> wire s' = accepted s /\ unsent s' = [] /\ iQueuedBytes (se s') = 0) /\
    (IsClosed (se s) = true -> pc s' = Destroyed).
Proof.
  intros Hm E Hp. destruct (run_wf _ _ _ _ Hm (start_wf iMax ltac:(lia)) E) as (s0 & [= <-] & W).
  destruct (IsClosed (se s)) eqn:Ec.
  - exists [Poll false; Turn Again], (TryClose (set_pc Leaving s)). split_and!; [by repeat constructor| |done|].
    + cbn [run step]. by rewrite Hp.
    + intros _. unfold TryClose. cbn [se set_pc]. by rewrite Ec.
  - destruct (decide (unsent s = [])) as [Hu|Hu].
    + exists [], s. split_and!; [by constructor|done| |done]. intros _. rewrite (wf_order _ _ W), Hu, app_nil_r. split_and!; [done..|].
      rewrite (wf_count _ _ W), Hu, Hp. done.
    + assert (bEventWrite (ch s) = true) as He by (apply (wf_wanted _ _ W); [by rewrite Hp|right; by left]).
      destruct (watched iMax s W Hp He) as (es1 & s1 & Hes & R1 & W1 & E1 & E2 & Hp1 & E3 & E4 & Hw).
      assert (unsent s1 = unsent s) as Eu by (unfold unsent; by rewrite E1, E2).
      destruct (pass iMax s1 Hm W1 Hp1 Hw ltac:(by rewrite E1) ltac:(by rewrite Eu)) as (s' & R2 & F1 & F2 & F3 & F4 & _).
      eexists (es1 ++ _), s'. split_and!; [|by rewrite (run_app _ _ _ _ R1); exact R2| |done].
      * apply Forall_app. split; [done|]. by repeat constructor.
      * intros _. rewrite F1, E3, Eu. split_and!; [|done..]. symmetry. apply (wf_order _ _ W).
Qed.

(** ** Examples *)

Section Example.

(** Two threads send, the kernel takes the bytes in parts. *)
Definition busy : list event :=
  [Send false (txt "abcd"); ApplyOp; Poll true; Turn (Wrote 3); Send false (txt "efg"); Turn Again; Send true (txt "hijk"); Turn Again; Turn Again].

Definition state_of (es : list event) : state := match run es (start 8) with Some (Ok s) => s | _ => start 8 end.

Lemma sent_in_order_witness :
  wire (state_of busy) = txt "abc" /\
  exists s, Ok (state_of busy) = Ok s /\ accepted s = wire s ++ stChannelBuffer (ch s) ++ stOutputBuffer (se s) /\ iQueuedBytes (se s) <= 8.
Proof.
  split; [vm_compute; reflexivity|].
  destruct (sent_in_order busy 8 (Ok (state_of busy)) ltac:(lia) ltac:(vm_compute; reflexivity)) as (s & E & H1 & _ & H2).
  exists s. split; [exact E|]. split; [exact H1|exact H2].
Defined.

Lemma queue_drains_witness :
  accepted (state_of busy) = txt "abcdefghijk" /\
  exists es' s', run es' (state_of busy) = Some (Ok s') /\ wire s' = accepted (state_of busy).
Proof.
  split; [vm_compute; reflexivity|].
  destruct (queue_drains busy 8 (state_of busy) ltac:(lia) ltac:(vm_compute; reflexivity) ltac:(vm_compute; reflexivity)) as (es' & s' & _ & R & H & _).
  exists es', s'. split; [exact R|]. apply H. vm_compute. reflexivity.
Defined.

End Example.
End SendQueue.
