(* ===== verification/RpcServer.v ===== *)
(** * Serving RPC requests

    The receiving side of calls: DeliverRpc for requests and one-way messages and the
    admission limits in front of it (cbaselib/proto/src/oi_rpc_call.cpp: RpcAdmission,
    RpcAdmissionLease, AcquireRpc), and the coroutines around the handlers,
    RunHandledRpc and RunHandledNotify (proto/inc/oi_rpc_coro.h).

    The limits are guarded by a mutex and each use is one step.  A coroutine runs from
    its start to the end of its handler, which is an event with what the handler
    returned; encoding and sending follow in the same step.  Which messages decode and
    whether SendBytes accepts a frame are inputs; answers to calls are in RpcClient.v. *)

From S2P Require Import Prelude BytesStream RpcCalls ProtoSession.

Module RpcServer.
Import BytesStream.

Definition RPC_REQ_MASK : Z := RpcCalls.RPC_REQ_MASK.
Definition OI_ERR_FAIL : Z := RpcCalls.OI_ERR_FAIL.
Definition OI_ERR_BUSY : Z := RpcCalls.OI_ERR_BUSY.

(** A manager and a session of it. *)
Definition key : Type := Z * Z.

(** ** Admission *)

Record Usage : Type := mkUsage { iCount : Z; iBytes : Z }.

Record limits : Type := mkLimits { iMaxCount : Z; iMaxBytes : Z; iSessionMaxCount : Z; iSessionMaxBytes : Z }.

Record RpcAdmission : Type := mkAdmission { stTotal : Usage; mSessions : gmap key Usage }.

Record RpcAdmissionLease : Type := mkLease { stKey : key; l_iBytes : Z }.

Definition new_admission : RpcAdmission := mkAdmission (mkUsage 0 0) ∅.

(** ReadLimit for a configured value; otherwise std::invalid_argument. *)
Definition ReadLimit (iValue : Z) : option Z := if (iValue <=? 0) || (SIZE_MAX <? iValue) then None else Some iValue.

Definition take_one (n : Z) (u : Usage) : Usage := mkUsage (u64 (iCount u + 1)) (u64 (iBytes u + n)).
Definition give_one (n : Z) (u : Usage) : Usage := mkUsage (u64 (iCount u - 1)) (u64 (iBytes u - n)).

Definition AcquireRpc (lm : limits) (k : key) (n : Z) (a : RpcAdmission) : option (RpcAdmissionLease * RpcAdmission) :=
  let stUsage := default (mkUsage 0 0) (mSessions a !! k) in
  if (iMaxCount lm <=? iCount (stTotal a)) || (u64 (iMaxBytes lm - iBytes (stTotal a)) <? n) ||
     (iSessionMaxCount lm <=? iCount stUsage) || (u64 (iSessionMaxBytes lm - iBytes stUsage) <? n) then None
  else Some (mkLease k n, mkAdmission (take_one n (stTotal a)) (<[k := take_one n stUsage]> (mSessions a))).

(** ~RpcAdmissionLease. *)
Definition release (l : RpcAdmissionLease) (a : RpcAdmission) : result RpcAdmission :=
  match mSessions a !! stKey l with
  | None => Err Undefined
  | Some u =>
      let u := give_one (l_iBytes l) u in
      Ok (mkAdmission (give_one (l_iBytes l) (stTotal a))
            (if iCount u =? 0 then delete (stKey l) (mSessions a) else <[stKey l := u]> (mSessions a)))
  end.

(** ** Handlers *)

(** What a protocol number is bound to: HandleRpc with the number of its answers, or
    HandleNotify. *)
Inductive handler : Type := HandleRpc (iResponseId : Z) | HandleNotify.

(** What a handler did: its code and, when that is 0, what its response serialises to
    (nothing if that throws); or it threw. *)
Inductive outcome : Type := Returned (iRetcode : Z) (stResponse : option (list byte)) | Threw.

Record task : Type := mkTask {
  lease : RpcAdmissionLease;
  iId : Z;
  pHandle : handler;
  stBody : stream
}.

(** The call number in front of a body. *)
Definition call_id (s : stream) : result Z := let! (iRaw, _) := get_fixed fx_uint64 s in Ok iRaw.

Inductive message : Type := Notify | Request (iCallId : Z) | Answer (iCallId : Z).

Definition classify (iRaw : Z) : message :=
  if iRaw =? 0 then Notify
  else if negb (Z.land iRaw RPC_REQ_MASK =? 0) then Request (Z.ldiff iRaw RPC_REQ_MASK)
  else Answer (Z.ldiff iRaw RPC_REQ_MASK).

(** Body and frame of a request, an answer and an error. *)
Definition request_body (iCallId : Z) (stRequest : list byte) : list byte :=
  le_encode 8 (Z.lor iCallId RPC_REQ_MASK) ++ stRequest.
Definition answer_body (iCallId iRetcode : Z) (stResponse : list byte) : list byte :=
  le_encode 8 iCallId ++ le_encode 4 iRetcode ++ stResponse.

Definition encode (iResponseId iCallId iRetcode : Z) (stResponse : option (list byte)) : result (list byte) :=
  match (if iRetcode =? 0 then stResponse else Some []) with
  | None => Err ParserException
  | Some l => let! s := ProtoSession.EncodePbFrame iResponseId (of_bytes (answer_body iCallId iRetcode l)) in Ok (data s)
  end.

(** The reply RunHandledRpc writes; nothing if not even the error can be encoded. *)
Definition reply_frame (iResponseId iCallId iRetcode : Z) (stResponse : option (list byte)) : option (list byte) :=
  match encode iResponseId iCallId iRetcode stResponse with
  | Ok l => Some l
  | Err _ => match encode iResponseId iCallId OI_ERR_FAIL None with Ok l => Some l | Err _ => None end
  end.

Section Server.
Context (lm : limits) (handlers : Z -> option handler) (decodes : Z -> list byte -> bool).

(** [out]: the frames SendBytes has accepted; [shut]: the sessions CloseSession was
    called for; [asked]: the requests taken, each with its session, protocol and call
    number; [unanswered]: those whose session had to be closed instead of an answer;
    [ignored]: those that went to a handler of one-way messages. *)
Record server : Type := mkServer {
  adm : RpcAdmission;
  tasks : list task;
  out : list (key * list byte);
  shut : list key;
  asked : list (key * Z * Z);
  unanswered : list (key * Z * Z);
  ignored : list (key * Z * Z)
}.

Definition start : server := mkServer new_admission [] [] [] [] [] [].

Definition set_adm (a : RpcAdmission) (ts : list task) (s : server) : server := mkServer a ts (out s) (shut s) (asked s) (unanswered s) (ignored s).
Definition ask (x : key * Z * Z) (s : server) : server :=
  mkServer (adm s) (tasks s) (out s) (shut s) (asked s ++ [x]) (unanswered s) (ignored s).
Definition ignore (l : list (key * Z * Z)) (s : server) : server :=
  mkServer (adm s) (tasks s) (out s) (shut s) (asked s) (unanswered s) (ignored s ++ l).

(** SendBytes of the answer to call [i], and CloseSession if it refuses. *)
Definition send_or_close (bSent : bool) (k : key) (id i : Z) (stFrame : option (list byte)) (s : server) : server :=
  match stFrame, bSent with
  | Some l, true => mkServer (adm s) (tasks s) (out s ++ [(k, l)]) (shut s) (asked s) (unanswered s) (ignored s)
  | _, _ => mkServer (adm s) (tasks s) (out s) (shut s ++ [k]) (asked s) (unanswered s ++ [(k, id, i)]) (ignored s)
  end.

(** DeliverRpc for what is not an answer; [bSent] is for the answer OI_ERR_BUSY. *)
Definition DeliverRpc (iId : Z) (stBody : stream) (k : key) (bSent : bool) (s : server) : server :=
  match call_id (StartTransaction stBody) with
  | Err _ => s
  | Ok iRaw =>
      match classify iRaw with
      | Answer _ => s
      | m =>
          match handlers iId with
          | None => s
          | Some h =>
              let s := match m with Request i => ask (k, iId, i) s | _ => s end in
              match AcquireRpc lm k (Size stBody) (adm s) with
              | Some (l, a) => set_adm a (tasks s ++ [mkTask l iId h stBody]) s
              | None =>
                  match m with
                  | Request i => send_or_close bSent k iId i (reply_frame iId i OI_ERR_BUSY None) s
                  | _ => s
                  end
              end
          end
      end
  end.

Definition RunHandledRpc (iResponseId : Z) (t : task) (o : outcome) (bSent : bool) (s : server) : server :=
  match get_fixed fx_uint64 (stBody t) with
  | Err _ => s
  | Ok (iRaw, rest) =>
      let bNotify := iRaw =? 0 in
      let iCallId := Z.ldiff iRaw RPC_REQ_MASK in
      let (iRetcode, stResponse) :=
        if negb (decodes (iId t) (drop (Z.to_nat (m_iCurrentPosition rest)) (data rest))) then (OI_ERR_FAIL, None)
        else match o with Returned r l => (r, l) | Threw => (OI_ERR_FAIL, None) end in
      if bNotify then s
      else send_or_close bSent (stKey (lease t)) (iId t) iCallId (reply_frame iResponseId iCallId iRetcode stResponse) s
  end.

(** The request of a task, if it is one. *)
Definition promised (t : task) : list (key * Z * Z) :=
  match call_id (stBody t) with
  | Ok iRaw => if iRaw =? 0 then [] else [(stKey (lease t), iId t, Z.ldiff iRaw RPC_REQ_MASK)]
  | _ => []
  end.

(** RunHandledNotify answers nothing, whatever happens. *)
Definition run_handled (t : task) (o : outcome) (bSent : bool) (s : server) : server :=
  match pHandle t with
  | HandleRpc iResponseId => RunHandledRpc iResponseId t o bSent s
  | HandleNotify => ignore (promised t) s
  end.

Inductive event : Type :=
| Deliver (iId : Z) (stBody : list byte) (k : key) (bSent : bool)
| Finished (n : nat) (o : outcome) (bSent : bool)     (* the handler of task [n] *)
| Closed (k : key).                                    (* the session goes for other reasons *)

(** [None]: cannot happen; a closed session accepts nothing. *)
Definition do_event (e : event) (s : server) : option (result server) :=
  match e with
  | Deliver iId l k bSent => if bSent && bool_decide (k ∈ shut s) then None else Some (Ok (DeliverRpc iId (of_bytes l) k bSent s))
  | Finished n o bSent =>
      match tasks s !! n with
      | None => None
      | Some t =>
          if bSent && bool_decide (stKey (lease t) ∈ shut s) then None
          else
            let s := run_handled t o bSent s in
            Some (let! a := release (lease t) (adm s) in Ok (set_adm a (delete n (tasks s)) s))
      end
  | Closed k => Some (Ok (mkServer (adm s) (tasks s) (out s) (shut s ++ [k]) (asked s) (unanswered s) (ignored s)))
  end.

Fixpoint run (es : list event) (s : server) : option (result server) :=
  match es with
  | [] => Some (Ok s)
  | e :: es =>
      match do_event e s with
      | Some (Ok s) => run es s
      | r => r
      end
  end.

(** ** The account of the limits *)

Definition held (k : key) (ts : list task) : list task := List.filter (fun t => bool_decide (stKey (lease t) = k)) ts.
Fixpoint bytes (ts : list task) : Z := match ts with [] => 0 | t :: ts => l_iBytes (lease t) + bytes ts end.
Definition usage (ts : list task) : Usage := mkUsage (lenZ ts) (bytes ts).
Definition usage_of (k : key) (ts : list task) : option Usage := match held k ts with [] => None | l => Some (usage l) end.

Definition limits_ok : Prop :=
  0 < iMaxCount lm <= SIZE_MAX /\ 0 < iMaxBytes lm <= SIZE_MAX /\ 0 < iSessionMaxCount lm <= SIZE_MAX /\ 0 < iSessionMaxBytes lm <= SIZE_MAX.

Record account (a : RpcAdmission) (ts : list task) : Prop := mkAccount {
  ac_total : stTotal a = usage ts;
  ac_sessions k : mSessions a !! k = usage_of k ts;
  ac_limit : lenZ ts <= iMaxCount lm /\ bytes ts <= iMaxBytes lm;
  ac_session_limit k : lenZ (held k ts) <= iSessionMaxCount lm /\ bytes (held k ts) <= iSessionMaxBytes lm;
  ac_sizes : Forall (fun t => 0 <= l_iBytes (lease t)) ts
}.

Lemma bytes_perm ts ts' : ts ≡ₚ ts' -> bytes ts = bytes ts'.
Proof. induction 1; cbn; lia. Qed.

Lemma held_perm k ts ts' : ts ≡ₚ ts' -> held k ts ≡ₚ held k ts'.
Proof.
  induction 1 as [|t l l' _ IH|t t' l|l l' l'' _ IH1 _ IH2]; cbn; [done| | |by etrans]; [by destruct (bool_decide _); [constructor|]|].
  do 2 destruct (bool_decide _); [apply perm_swap|done..].
Qed.

Lemma lenZ_perm {T} (l l' : list T) : l ≡ₚ l' -> lenZ l = lenZ l'.
Proof. intros H. unfold lenZ. by rewrite H. Qed.

Lemma usage_perm ts ts' : ts ≡ₚ ts' -> usage ts = usage ts'.
Proof. intros H. unfold usage. by rewrite (bytes_perm _ _ H), (lenZ_perm _ _ H). Qed.

Lemma usage_of_perm k ts ts' : ts ≡ₚ ts' -> usage_of k ts = usage_of k ts'.
Proof.
  intros H. apply (held_perm k) in H. unfold usage_of. pose proof (usage_perm _ _ H) as Hu.
  destruct (held k ts), (held k ts'); [done|by apply Permutation_nil_cons in H|by symmetry in H; apply Permutation_nil_cons in H|by rewrite Hu].
Qed.

Lemma account_perm a ts ts' : ts ≡ₚ ts' -> account a ts -> account a ts'.
Proof.
  intros H [H1 H2 H3 H4 H5]. split.
  - by rewrite <- (usage_perm _ _ H).
  - intros k. by rewrite <- (usage_of_perm _ _ _ H).
  - by rewrite <- (bytes_perm _ _ H), <- (lenZ_perm _ _ H).
  - intros k. pose proof (held_perm k _ _ H) as Hh. by rewrite <- (bytes_perm _ _ Hh), <- (lenZ_perm _ _ Hh).
  - by rewrite <- H.
Qed.

Lemma bytes_nonneg ts : Forall (fun t => 0 <= l_iBytes (lease t)) ts -> 0 <= bytes ts.
Proof. induction 1; cbn; lia. Qed.

Lemma Forall_held k (P : task -> Prop) ts : Forall P ts -> Forall P (held k ts).
Proof. induction 1; cbn; [done|]. destruct (bool_decide _); by try constructor. Qed.

Lemma start_account : limits_ok -> account new_admission [].
Proof. intros (?&?&?&?). split; try done; cbn; unfold lenZ; cbn; lia || (intros; lia) || constructor. Qed.

(** A lease more, a lease less. *)
Lemma acquire_account k n a l a' ts t : limits_ok -> 0 <= n -> account a ts -> AcquireRpc lm k n a = Some (l, a') -> lease t = l ->
  account a' (t :: ts) /\ l = mkLease k n.
Proof.
  intros (L1 & L2 & L3 & L4) Hn [H1 H2 [H3 H3'] H4 H5]. unfold AcquireRpc. rewrite H1, H2. pose proof (H4 k) as H4k.
  pose proof (lenZ_nonneg ts) as N1. pose proof (bytes_nonneg _ H5) as N2. pose proof (lenZ_nonneg (held k ts)) as N3.
  pose proof (bytes_nonneg _ (Forall_held k _ _ H5)) as N4. unfold SIZE_MAX in *.
  assert (default (mkUsage 0 0) (usage_of k ts) = usage (held k ts)) as -> by (unfold usage_of; by destruct (held k ts)).
  unfold usage at 1 2 3 4. cbn [iCount iBytes]. destruct (_ || _) eqn:Eo; [done|].
  rewrite !orb_false_iff, !Z.leb_gt, !Z.ltb_ge in Eo. destruct Eo as [[[E1 E2] E3] E4]. rewrite u64_small in E2, E4 by lia.
  intros [= <- <-] Hl. split; [|done].
  assert (forall ts', 0 <= lenZ ts' -> lenZ ts' + 1 < 2 ^ 64 -> 0 <= bytes ts' -> bytes ts' + n < 2 ^ 64 -> take_one n (usage ts') = usage (t :: ts')) as Htake.
  { intros ts' ????. unfold take_one, usage. cbn [iCount iBytes bytes]. rewrite Hl. cbn [l_iBytes]. rewrite !u64_small, lenZ_cons by lia.
    f_equal; lia. }
  assert (forall k', held k' (t :: ts) = if decide (k = k') then t :: held k' ts else held k' ts) as Hh.
  { intros k'. cbn [held List.filter]. rewrite Hl. cbn [stKey]. rewrite bool_decide_decide. by destruct (decide _). }
  split; cbn [stTotal mSessions].
  - rewrite Htake by lia. done.
  - intros k'. unfold usage_of. rewrite Hh. destruct (decide (k = k')) as [<-|Hne]; [rewrite lookup_insert, decide_True by done|rewrite lookup_insert_ne by done; apply H2].
    by rewrite Htake by lia.
  - rewrite lenZ_cons. cbn [bytes]. rewrite Hl. cbn [l_iBytes]. lia.
  - intros k'. rewrite Hh. destruct (decide (k = k')) as [<-|]; [|done]. rewrite lenZ_cons. cbn [bytes].
    rewrite Hl. cbn [l_iBytes]. unfold usage in E3, E4. cbn [iCount iBytes] in E3, E4. lia.
  - constructor; [by rewrite Hl|done].
Qed.

Lemma held_cons k t ts : held k (t :: ts) = if decide (stKey (lease t) = k) then t :: held k ts else held k ts.
Proof. cbn [held List.filter]. rewrite bool_decide_decide. by destruct (decide _). Qed.

Lemma give_usage t ts : limits_ok -> Forall (fun t => 0 <= l_iBytes (lease t)) (t :: ts) -> lenZ (t :: ts) <= SIZE_MAX -> bytes (t :: ts) <= SIZE_MAX ->
  give_one (l_iBytes (lease t)) (usage (t :: ts)) = usage ts.
Proof.
  intros _ Hs H1 H2. apply Forall_cons in Hs as [Ht Hs]. pose proof (bytes_nonneg _ Hs). pose proof (lenZ_nonneg ts). unfold SIZE_MAX in *.
  unfold give_one, usage. cbn [iCount iBytes bytes] in *. rewrite lenZ_cons in *. rewrite !u64_small by lia. f_equal; lia.
Qed.

Lemma release_account a t ts : limits_ok -> account a (t :: ts) -> exists a', release (lease t) a = Ok a' /\ account a' ts.
Proof.
  intros Hl [H1 H2 [H3 H3'] H4 H5]. pose proof Hl as (L1 & L2 & L3 & L4). unfold release. set (k := stKey (lease t)).
  assert (held k (t :: ts) = t :: held k ts) as Eh by (rewrite held_cons; by rewrite decide_True).
  pose proof (H4 k) as H4k. pose proof (Forall_held k _ _ H5) as H5k. rewrite Eh in *. rewrite H2. unfold usage_of. rewrite Eh.
  rewrite (give_usage t (held k ts)) by (done || lia). eexists. split; [done|]. split; cbn [stTotal mSessions].
  - rewrite H1. apply give_usage; done || lia.
  - intros k'. unfold usage at 1. cbn [iCount]. destruct (Z.eqb_spec (lenZ (held k ts)) 0) as [E|E].
    + apply lenZ_0 in E. destruct (decide (k = k')) as [<-|Hne]; [rewrite lookup_delete, decide_True by done|rewrite lookup_delete_ne by done].
      * unfold usage_of. by rewrite E.
      * rewrite H2. unfold usage_of. by rewrite held_cons, decide_False by done.
    + destruct (decide (k = k')) as [<-|Hne]; [rewrite lookup_insert, decide_True by done|rewrite lookup_insert_ne by done].
      * unfold usage_of. by destruct (held k ts).
      * rewrite H2. unfold usage_of. by rewrite held_cons, decide_False by done.
  - apply Forall_cons in H5 as [Ht H5]. cbn [bytes] in *. rewrite lenZ_cons in *. lia.
  - intros k'. specialize (H4 k'). rewrite held_cons in H4. destruct (decide _); [|done]. apply Forall_cons in H5 as [Ht H5]. cbn [bytes] in *. rewrite lenZ_cons in *. lia.
  - by apply Forall_cons in H5 as [_ H5].
Qed.

(** ** The account of the requests *)

Definition is_answer (i : Z) (l : list byte) : Prop :=
  exists resp ret rest, frame_ok (resp, answer_body i ret rest) /\ l = frame_bytes (resp, answer_body i ret rest).

Lemma encode_frame resp i ret r l : encode resp i ret r = Ok l -> exists ret' rest,
  frame_ok (u32 resp, answer_body i ret' rest) /\ l = frame_bytes (u32 resp, answer_body i ret' rest).
Proof.
  unfold encode. destruct (if ret =? 0 then r else Some []) as [rest|]; [|done]. unfold ProtoSession.EncodePbFrame.
  set (b := of_bytes _). destruct (Z.ltb_spec 0x7FFFFFFF (Size b)) as [|Hs]; [done|]. unfold Size in Hs. pose proof (lenZ_nonneg (data b)).
  unfold Size. rewrite (u32_small (lenZ (data b))) by lia. intros E.
  assert (0 <= u32 resp <= INT32_MAX) as Hr.
  { pose proof (u32_range resp). split; [lia|]. unfold WritePbRaw in E. destruct (Z.ltb_spec (s32 (u32 resp)) 0) as [|Hn]; [done|].
    pose proof (s32_neg_iff (u32 resp) ltac:(lia)). unfold INT32_MAX. lia. }
  rewrite WritePbRaw_frame_ltb in E by (split; unfold INT32_MAX in *; cbn [fst snd]; lia). injection E as <-.
  exists ret, rest. split; [split; unfold INT32_MAX in *; cbn [fst snd]; [lia|exact Hs]|done].
Qed.

Lemma reply_frame_frame resp i ret r l : reply_frame resp i ret r = Some l -> exists ret' rest,
  frame_ok (u32 resp, answer_body i ret' rest) /\ l = frame_bytes (u32 resp, answer_body i ret' rest).
Proof.
  unfold reply_frame. destruct (encode resp i ret r) eqn:E; [intros [= <-]; by eapply encode_frame|].
  destruct (encode resp i OI_ERR_FAIL None) eqn:E'; [|done]. intros [= <-]. by eapply encode_frame.
Qed.

Lemma reply_frame_answer resp i ret r l : reply_frame resp i ret r = Some l -> is_answer i l.
Proof. intros E. destruct (reply_frame_frame _ _ _ _ _ E) as (ret' & rest & H). by exists (u32 resp), ret', rest. Qed.

Definition asker (x : key * Z * Z) : key := fst (fst x).

Record sinv (s : server) : Prop := mkSinv {
  si_account : account (adm s) (tasks s);
  si_tasks : Forall (fun t => handlers (iId t) = Some (pHandle t) /\ exists iRaw, call_id (stBody t) = Ok iRaw) (tasks s);
  si_asked : exists answered, asked s ≡ₚ concat (map promised (tasks s)) ++ answered ++ unanswered s ++ ignored s /\
    Forall2 (fun x o => fst o = asker x /\ is_answer (snd x) (snd o)) answered (out s);
  si_shut : Forall (fun x => asker x ∈ shut s) (unanswered s);
  si_ignored : Forall (fun x => handlers (snd (fst x)) = Some HandleNotify) (ignored s)
}.

Lemma start_sinv : limits_ok -> sinv start.
Proof. intros Hl. split; [by apply start_account|by constructor| |by constructor|by constructor]. exists []. by split; [|constructor]. Qed.

(** An answer that is due, however it is sent. *)
Lemma send_or_close_sinv bSent k id i r s ts : (forall l, r = Some l -> is_answer i l) ->
  (exists answered, asked s ≡ₚ (k, id, i) :: concat (map promised ts) ++ answered ++ unanswered s ++ ignored s /\
    Forall2 (fun x o => fst o = asker x /\ is_answer (snd x) (snd o)) answered (out s)) ->
  Forall (fun x => asker x ∈ shut s) (unanswered s) ->
  let s' := send_or_close bSent k id i r s in
  adm s' = adm s /\ tasks s' = tasks s /\ ignored s' = ignored s /\
  (exists answered, asked s' ≡ₚ concat (map promised ts) ++ answered ++ unanswered s' ++ ignored s' /\
    Forall2 (fun x o => fst o = asker x /\ is_answer (snd x) (snd o)) answered (out s')) /\
  Forall (fun x => asker x ∈ shut s') (unanswered s').
Proof.
  intros Hr (answered & Ha & Ho) Hs. unfold send_or_close. cbv zeta.
  assert (exists answered, asked s ≡ₚ concat (map promised ts) ++ answered ++ (unanswered s ++ [(k, id, i)]) ++ ignored s /\
    Forall2 (fun x o => fst o = asker x /\ is_answer (snd x) (snd o)) answered (out s)) as Hno.
  { exists answered. split; [|done]. rewrite Ha, <- !app_assoc. cbn [app]. by rewrite <- !Permutation_middle. }
  assert (Forall (fun x => asker x ∈ shut s ++ [k]) (unanswered s ++ [(k, id, i)])) as Hsh.
  { apply Forall_app. split; [|constructor; [|constructor]; apply elem_of_app; right; by left].
    eapply Forall_impl; [exact Hs|]. intros x Hx. apply elem_of_app. by left. }
  destruct r as [l|]; [destruct bSent|]; cbn; (split_and!; [done..| |]); try done.
  exists (answered ++ [(k, id, i)]). split.
  - rewrite Ha, <- !app_assoc. cbn [app]. by rewrite <- !Permutation_middle.
  - apply Forall2_app; [done|]. constructor; [|constructor]. split; [done|]. by apply Hr.
Qed.

Lemma classify_notify iRaw : classify iRaw = Notify -> iRaw = 0.
Proof. unfold classify. destruct (Z.eqb_spec iRaw 0); [done|]. by destruct (negb _). Qed.

Lemma classify_request iRaw i : classify iRaw = Request i -> iRaw <> 0 /\ i = Z.ldiff iRaw RPC_REQ_MASK.
Proof. unfold classify. destruct (Z.eqb_spec iRaw 0); [done|]. destruct (negb _); [by intros [= <-]|done]. Qed.

Lemma DeliverRpc_sinv id l k bSent s : limits_ok -> sinv s -> sinv (DeliverRpc id (of_bytes l) k bSent s).
Proof.
  intros Hl Hi. unfold DeliverRpc. change (StartTransaction (of_bytes l)) with (of_bytes l).
  destruct (call_id (of_bytes l)) as [iRaw|] eqn:Ec; [|done]. destruct (classify iRaw) as [|i|] eqn:Em; [| |done].
  - apply classify_notify in Em. destruct (handlers id) as [h|] eqn:Eh; [|done].
    destruct (AcquireRpc _ _ _ _) as [[le a]|] eqn:Ea; [|done]. destruct Hi as [A T (ans & P & F) S I].
    set (t := mkTask le id h (of_bytes l)).
    destruct (acquire_account k (Size (of_bytes l)) (adm s) le a (tasks s) t Hl (lenZ_nonneg _) A Ea eq_refl) as [A' _].
    split; cbn; try done.
    + eapply account_perm; [|exact A']. apply Permutation_cons_append.
    + apply Forall_app. split; [done|]. constructor; [|constructor]. split; [done|by exists iRaw].
    + exists ans. split; [|done]. rewrite map_app, concat_app. cbn [map concat]. unfold promised at 2, t. cbn [stBody]. rewrite Ec, Em. cbn. by rewrite app_nil_r.
  - apply classify_request in Em as [Hn Ei]. destruct (handlers id) as [h|] eqn:Eh; [|done]. cbn [adm ask].
    destruct (AcquireRpc _ _ _ _) as [[le a]|] eqn:Ea; destruct Hi as [A T (ans & P & F) S I].
    + set (t := mkTask le id h (of_bytes l)).
      destruct (acquire_account k (Size (of_bytes l)) (adm s) le a (tasks s) t Hl (lenZ_nonneg _) A Ea eq_refl) as [A' El].
      split; cbn; try done.
      * eapply account_perm; [|exact A']. apply Permutation_cons_append.
      * apply Forall_app. split; [done|]. constructor; [|constructor]. split; [done|by exists iRaw].
      * exists ans. split; [|done]. rewrite map_app, concat_app. cbn [map concat]. unfold promised at 2, t. cbn [stBody iId lease]. rewrite Ec.
        destruct (Z.eqb_spec iRaw 0); [done|]. rewrite El, P, Ei, app_nil_r, <- !app_assoc. cbn [stKey app].
        by rewrite <- !Permutation_middle, app_nil_r.
    + destruct (send_or_close_sinv bSent k id i (reply_frame id i OI_ERR_BUSY None) (ask (k, id, i) s) (tasks s)) as (E1 & E2 & E3 & E4 & E5);
        [intros; by eapply reply_frame_answer| |done|].
      { exists ans. split; [|done]. cbn. rewrite P. symmetry. apply Permutation_cons_append. }
      cbn zeta in *. split; [by rewrite E1, E2|by rewrite E2|rewrite E2; exact E4|exact E5|by rewrite E3].
Qed.

Lemma run_handled_sinv t o bSent s ts : handlers (iId t) = Some (pHandle t) -> (exists iRaw, call_id (stBody t) = Ok iRaw) ->
  (exists answered, asked s ≡ₚ promised t ++ concat (map promised ts) ++ answered ++ unanswered s ++ ignored s /\
    Forall2 (fun x o => fst o = asker x /\ is_answer (snd x) (snd o)) answered (out s)) ->
  Forall (fun x => asker x ∈ shut s) (unanswered s) -> Forall (fun x => handlers (snd (fst x)) = Some HandleNotify) (ignored s) ->
  let s' := run_handled t o bSent s in
  adm s' = adm s /\ tasks s' = tasks s /\
  (exists answered, asked s' ≡ₚ concat (map promised ts) ++ answered ++ unanswered s' ++ ignored s' /\
    Forall2 (fun x o => fst o = asker x /\ is_answer (snd x) (snd o)) answered (out s')) /\
  Forall (fun x => asker x ∈ shut s') (unanswered s') /\ Forall (fun x => handlers (snd (fst x)) = Some HandleNotify) (ignored s').
Proof.
  intros Hh (iRaw & Ec) (ans & P & F) S I. unfold run_handled. cbv zeta. destruct (pHandle t) as [resp|] eqn:Eh.
  - unfold RunHandledRpc. unfold promised in P. rewrite Ec in P. unfold call_id in Ec. destruct (get_fixed _ _) as [[raw rest]|]; [|done].
    cbn [rbind] in Ec. injection Ec as ->. destruct (if negb _ then _ else _) as [ret r]. destruct (Z.eqb_spec iRaw 0).
    + split_and!; try done. by exists ans.
    + destruct (send_or_close_sinv bSent (stKey (lease t)) (iId t) (Z.ldiff iRaw RPC_REQ_MASK) (reply_frame resp (Z.ldiff iRaw RPC_REQ_MASK) ret r) s ts)
        as (E1 & E2 & E3 & E4 & E5); [intros; by eapply reply_frame_answer|by exists ans|done|]. cbn zeta in *. split_and!; try done. by rewrite E3.
  - cbn. split_and!; try done.
    + exists ans. split; [|done]. rewrite P. rewrite (Permutation_app_comm (promised t)), <- !app_assoc. done.
    + apply Forall_app. split; [done|]. unfold promised. rewrite Ec. destruct (_ =? _); [constructor|]. constructor; [|constructor]. cbn. by rewrite Hh.
Qed.

Lemma promised_perm ts ts' : ts ≡ₚ ts' -> concat (map promised ts) ≡ₚ concat (map promised ts').
Proof.
  induction 1 as [|t l l' _ IH|t t' l|l l' l'' _ IH1 _ IH2]; cbn; [done|by rewrite IH| |by etrans].
  apply Permutation_app_swap_app.
Qed.

Lemma do_event_sinv e s r : limits_ok -> sinv s -> do_event e s = Some r -> exists s', r = Ok s' /\ sinv s'.
Proof.
  intros Hl Hi. destruct e as [id l k b|n o b|k]; cbn [do_event].
  - destruct (_ && _); [done|]. intros [= <-]. eexists. split; [done|]. by apply DeliverRpc_sinv.
  - destruct (tasks s !! n) as [t|] eqn:Et; [|done]. destruct (_ && _); [done|]. cbv zeta. intros E. apply (inj Some) in E as <-.
    destruct Hi as [A T (ans & P & F) S I]. pose proof (delete_Permutation _ _ _ Et) as Hp.
    assert (handlers (iId t) = Some (pHandle t) /\ exists iRaw, call_id (stBody t) = Ok iRaw) as [Hh Hc]
      by (rewrite Forall_lookup in T; by apply (T n)).
    destruct (run_handled_sinv t o b s (delete n (tasks s)) Hh Hc) as (E1 & E2 & E4 & E5 & E6); [|done|done|].
    { exists ans. split; [|done]. rewrite P, (promised_perm _ _ Hp). cbn [map concat]. by rewrite <- app_assoc. }
    cbn zeta in *. rewrite E1, E2. apply (account_perm _ _ _ Hp) in A. destruct (release_account _ _ _ Hl A) as (a' & -> & A'). cbn [rbind].
    eexists. split; [done|]. split; cbn; try done. by apply (Forall_delete _ _ n) in T.
  - intros [= <-]. eexists. split; [done|]. destruct Hi as [A T P S I]. split; cbn; try done.
    eapply Forall_impl; [exact S|]. intros x Hx. apply elem_of_app. by left.
Qed.

Lemma run_sinv es : forall s r, limits_ok -> sinv s -> run es s = Some r -> exists s', r = Ok s' /\ sinv s'.
Proof.
  induction es as [|e es IH]; intros s r Hl Hi E; cbn [run] in E; [injection E as <-; by eexists|].
  destruct (do_event e s) as [r'|] eqn:Ee; [|done]. destruct (do_event_sinv _ _ _ Hl Hi Ee) as (s' & -> & Hi'). by apply (IH s').
Qed.

(** ** Properties *)

(** C19: the account of the limits is exact: whatever requests come and whenever
    handlers end, the totals are the number and the bytes of the requests being served,
    in all and for each session, sessions without any have no entry, no limit is ever
    exceeded, nothing wraps around, and a lease always finds its entry again. *)
Theorem admission_exact es r : limits_ok -> run es start = Some r ->
  exists s, r = Ok s /\ stTotal (adm s) = usage (tasks s) /\ (forall k, mSessions (adm s) !! k = usage_of k (tasks s)) /\
    lenZ (tasks s) <= iMaxCount lm /\ bytes (tasks s) <= iMaxBytes lm /\
    forall k, lenZ (held k (tasks s)) <= iSessionMaxCount lm /\ bytes (held k (tasks s)) <= iSessionMaxBytes lm.
Proof.
  intros Hl E. destruct (run_sinv _ _ _ Hl (start_sinv Hl) E) as (s & -> & [[H1 H2 [H3 H3'] H4 _] _ _ _ _]). exists s. by split_and!.
Qed.

(** C17: every request taken is in exactly one place: being served, answered by
    exactly one frame on its own session that carries its call number, given up with
    its session closed, or it was addressed to a handler of one-way messages; refused
    requests, undecodable ones, handlers that throw and responses that do not serialise
    are answered like the others. *)
Theorem requests_answered es r : limits_ok -> run es start = Some r ->
  exists s answered, r = Ok s /\
    asked s ≡ₚ concat (map promised (tasks s)) ++ answered ++ unanswered s ++ ignored s /\
    Forall2 (fun x o => fst o = asker x /\ is_answer (snd x) (snd o)) answered (out s) /\
    Forall (fun x => asker x ∈ shut s) (unanswered s) /\
    Forall (fun x => handlers (snd (fst x)) = Some HandleNotify) (ignored s).
Proof.
  intros Hl E. destruct (run_sinv _ _ _ Hl (start_sinv Hl) E) as (s & -> & [_ _ (ans & P & F) S I]). exists s, ans. by split_and!.
Qed.

End Server.

(** ** Call numbers on their way *)

Lemma call_id_encode n rest : 0 <= n < 2 ^ 64 -> lenZ rest + 8 <= PTRDIFF_MAX -> call_id (of_bytes (le_encode 8 n ++ rest)) = Ok n.
Proof.
  intros Hn Hr. unfold call_id. rewrite of_bytes_cur.
  rewrite (get_fixed_cur fx_uint64 (le_encode 8 n) [] rest 0) by (rewrite ?app_nil_l, ?lenZ_app, lenZ_le_encode; cbn; lia).
  unfold fx_uint64, int_fixed. cbn [fx_get rbind]. by rewrite le_decode_encode_small by lia.
Qed.

Lemma mask_bit i : 0 <= i < 2 ^ 63 -> Z.land i RPC_REQ_MASK = 0.
Proof.
  intros Hi. apply Z.bits_inj'. intros n Hn. rewrite Z.land_spec, Z.bits_0. change RPC_REQ_MASK with (2 ^ 63).
  rewrite Z.pow2_bits_eqb by lia. destruct (Z.eqb_spec 63 n) as [<-|]; [|by rewrite andb_false_r]. rewrite andb_true_r.
  destruct (Z.eq_dec i 0) as [->|]; [done|]. apply Z.bits_above_log2; [lia|]. apply Z.log2_lt_pow2; lia.
Qed.

Lemma unmask i : 0 <= i < 2 ^ 63 -> Z.ldiff i RPC_REQ_MASK = i.
Proof. intros Hi. pose proof (mask_bit i Hi) as E. pose proof (Z.lor_ldiff_and i RPC_REQ_MASK) as E'. by rewrite E, Z.lor_0_r in E'. Qed.

Lemma classify_answer i : 0 < i < 2 ^ 63 -> classify i = Answer i.
Proof. intros Hi. unfold classify. destruct (Z.eqb_spec i 0); [lia|]. rewrite mask_bit, unmask by lia. done. Qed.

Lemma masked i : 0 <= i < 2 ^ 63 -> Z.lor i RPC_REQ_MASK = i + 2 ^ 63.
Proof. intros Hi. rewrite <- Z.add_nocarry_lor by (by apply mask_bit). done. Qed.

Lemma classify_request_number i : 0 <= i < 2 ^ 63 -> classify (Z.lor i RPC_REQ_MASK) = Request i.
Proof.
  intros Hi. unfold classify. rewrite masked by done. destruct (Z.eqb_spec (i + 2 ^ 63) 0); [lia|]. rewrite <- masked by done.
  rewrite Z.land_lor_distr_l, mask_bit, Z.land_diag, Z.lor_0_l by done. cbn [Z.eqb negb].
  assert (Z.ldiff (Z.lor i RPC_REQ_MASK) RPC_REQ_MASK = i) as ->; [|done].
  rewrite Z.ldiff_land, Z.land_lor_distr_l, <- !Z.ldiff_land, unmask, Z.ldiff_diag, Z.lor_0_r by done. done.
Qed.

(** A call finds its way back: the frame of a request is taken apart into
    its protocol and body and recognised as a request with its call number, and every
    reply the server makes for it, error replies included, is taken apart into the same
    protocol and recognised as the answer to that call. *)
Theorem calls_find_their_way i id req : 0 < i < 2 ^ 63 -> 0 <= id <= INT32_MAX -> lenZ req + 8 <= INT32_MAX ->
  (exists f, ProtoSession.EncodePbFrame id (of_bytes (request_body i req)) = Ok f /\
    split1 (data f) = Some ((id, request_body i req), []) /\
    (let! iRaw := call_id (of_bytes (request_body i req)) in Ok (classify iRaw)) = Ok (Request i)) /\
  forall ret r l, reply_frame id i ret r = Some l -> exists body,
    split1 l = Some ((id, body), []) /\ (let! iRaw := call_id (of_bytes body) in Ok (classify iRaw)) = Ok (Answer i).
Proof.
  intros Hi Hid Hr. unfold INT32_MAX in Hid, Hr. split.
  - assert (lenZ (request_body i req) <= INT32_MAX) as Hb by (unfold request_body, INT32_MAX; rewrite lenZ_app, lenZ_le_encode; lia).
    eexists. split; [by apply ProtoSession.EncodePbFrame_frame|]. split.
    + cbn [data of_bytes]. rewrite <- (app_nil_r (frame_bytes _)). by apply split1_frame.
    + unfold request_body. rewrite call_id_encode by (rewrite ?masked by lia; unfold PTRDIFF_MAX; lia). cbn [rbind]. rewrite classify_request_number by lia. done.
  - intros ret r l E. destruct (reply_frame_frame _ _ _ _ _ E) as (ret' & rest & Hok & ->). rewrite u32_small in * by lia.
    exists (answer_body i ret' rest). split; [rewrite <- (app_nil_r (frame_bytes _)); by apply split1_frame|].
    destruct Hok as [_ Hl]. cbn [snd] in Hl. unfold answer_body in *. rewrite !lenZ_app, !lenZ_le_encode in Hl. unfold INT32_MAX in Hl.
    rewrite call_id_encode by (rewrite ?lenZ_app, ?lenZ_le_encode; unfold PTRDIFF_MAX; lia). cbn [rbind]. by rewrite classify_answer.
Qed.

(** ** Examples *)

Section Example.

Definition small : limits := mkLimits 3 100 2 64.
Definition table (id : Z) : option handler := if id =? 5 then Some (HandleRpc 5) else if id =? 6 then Some HandleNotify else None.
Definition decodable (_ : Z) (l : list byte) : bool := negb (lenZ l =? 1).

(** Two requests, a third that is refused, a message, a request that does not decode,
    and a session that accepts no more. *)
Definition traffic : list event :=
  [Deliver 5 (request_body 1 []) (7, 1) true; Deliver 5 (request_body 2 (txt "a")) (7, 1) true;
   Deliver 5 (request_body 3 []) (7, 1) true; Deliver 6 (le_encode 8 0) (7, 2) true;
   Finished 1 (Returned 0 (Some (txt "never"))) true; Finished 1 Threw true; Finished 0 (Returned 0 None) false].

Definition server_after (es : list event) : server :=
  match run small table decodable es start with Some (Ok s) => s | _ => start end.

Lemma small_ok : limits_ok small.
Proof. unfold limits_ok, SIZE_MAX. cbn. lia. Defined.

Lemma admission_exact_witness :
  lenZ (tasks (server_after (take 4 traffic))) = 3 /\
  exists s, Ok (server_after (take 4 traffic)) = Ok s /\ stTotal (adm s) = usage (tasks s) /\ lenZ (tasks s) <= 3.
Proof.
  split; [vm_compute; reflexivity|].
  destruct (admission_exact small table decodable (take 4 traffic) (Ok (server_after (take 4 traffic))) small_ok ltac:(vm_compute; reflexivity))
    as (s & E & H1 & _ & H2 & _).
  exists s. split; [exact E|]. split; [exact H1|exact H2].
Defined.

Lemma requests_answered_witness :
  map asker (asked (server_after traffic)) = [(7, 1); (7, 1); (7, 1)] /\ unanswered (server_after traffic) = [(7, 1, 5, 1)] /\
  exists s answered, Ok (server_after traffic) = Ok s /\ asked s ≡ₚ concat (map promised (tasks s)) ++ answered ++ unanswered s ++ ignored s /\
    length answered = length (out s).
Proof.
  split; [vm_compute; reflexivity|]. split; [vm_compute; reflexivity|].
  destruct (requests_answered small table decodable traffic (Ok (server_after traffic)) small_ok ltac:(vm_compute; reflexivity))
    as (s & ans & E & P & F & _).
  exists s, ans. split; [exact E|]. split; [exact P|]. exact (Forall2_length _ _ _ F).
Defined.

Lemma calls_find_their_way_witness :
  exists l body, reply_frame 5 1 0 (Some (txt "ok")) = Some l /\ split1 l = Some ((5, body), []) /\
    (let! iRaw := call_id (of_bytes body) in Ok (classify iRaw)) = Ok (Answer 1).
Proof.
  destruct (calls_find_their_way 1 5 (txt "hi") ltac:(lia) ltac:(unfold INT32_MAX; lia) ltac:(unfold INT32_MAX; vm_compute; discriminate)) as [_ H].
  destruct (H 0 (Some (txt "ok")) (frame_bytes (5, answer_body 1 0 (txt "ok"))) ltac:(vm_compute; reflexivity)) as (body & H1 & H2).
  exists (frame_bytes (5, answer_body 1 0 (txt "ok"))), body. split; [vm_compute; reflexivity|]. split; [exact H1|exact H2].
Defined.

End Example.
End RpcServer.
