(* ===== verification/Address.v ===== *)
(** * Socket addresses

    Ipv4Addr, Ipv6Addr and NetAddr of cbaselib/net/src/oi_socket.cpp: reading the
    address and the port of a configuration, printing them, the text by which sessions
    to an address are found (Endpoint), and Resolve.  inet_pton and inet_ntop are the
    system's: a class, with the laws the code relies on. *)

From S2P Require Import Prelude Decimal Text.

Module Address.
Import Decimal Text.

Definition text : Type := list byte.

(** ** The C library *)

(** What a function sees of c_str(). *)
Fixpoint cstr (s : text) : text :=
  match s with
  | [] => []
  | b :: s => if byteZ b =? 0 then [] else b :: cstr s
  end.

Definition is_space (b : byte) : bool := (byteZ b =? 32) || ((9 <=? byteZ b) && (byteZ b <=? 13)).

Fixpoint skip_spaces (s : text) : text :=
  match s with
  | [] => []
  | b :: t => if is_space b then skip_spaces t else s
  end.

Definition LONG_MAX : Z := 2 ^ 63 - 1.

(** strtol(s, &pEnd, 10): the value and the text at pEnd. *)
Definition strtol (s : text) : Z * text :=
  let s0 := cstr s in
  let s1 := skip_spaces s0 in
  let (neg, s2) := match s1 with
                   | b :: t => if byteZ b =? 45 then (true, t) else if byteZ b =? 43 then (false, t) else (false, s1)
                   | [] => (false, s1)
                   end in
  let n := span_while is_digit s2 in
  if n =? 0 then (0, s0)
  else
    let v := dec_value 0 (sub 0 n s2) in
    (if neg then Z.max (- v) (- LONG_MAX - 1) else Z.min v LONG_MAX, drop (Z.to_nat n) s2).

(** Addresses of the two families as numbers, in the system's text. *)
Class Inet : Type := mkInet {
  pton4 : text -> option Z;
  ntop4 : Z -> text;
  pton6 : text -> option Z;
  ntop6 : Z -> text
}.

Definition char4 (b : byte) : bool := is_digit b || (byteZ b =? 46).
Definition char6 (b : byte) : bool := negb (byteZ b =? 0) && negb (byteZ b =? 91) && negb (byteZ b =? 93).

(** A text printed is read back as the address it was printed from and has the
    characters of its family; only IPv6 texts have a colon. *)
Class InetLaws (I : Inet) : Prop := mkInetLaws {
  pton4_range : forall s a, pton4 s = Some a -> 0 <= a < 2 ^ 32;
  pton6_range : forall s a, pton6 s = Some a -> 0 <= a < 2 ^ 128;
  pton_ntop4 : forall a, 0 <= a < 2 ^ 32 -> pton4 (ntop4 a) = Some a;
  pton_ntop6 : forall a, 0 <= a < 2 ^ 128 -> pton6 (ntop6 a) = Some a;
  ntop4_chars : forall a, 0 <= a < 2 ^ 32 -> ntop4 a <> [] /\ forallb char4 (ntop4 a) = true;
  ntop6_chars : forall a, 0 <= a < 2 ^ 128 -> ntop6 a <> [] /\ forallb char6 (ntop6 a) = true;
  pton4_ntop6 : forall a, 0 <= a < 2 ^ 128 -> pton4 (ntop6 a) = None
}.

(** ** Addresses *)

Section Addr.
Context {I : Inet}.

Inductive NetAddr : Type := Unspec | V4 (a iPort : Z) | V6 (a iPort : Z).

Definition StripIpv6Brackets (s : text) : text :=
  match s with
  | b :: _ :: _ =>
      if (byteZ b =? 91) && (byteZ (List.last s Byte.x00) =? 93) then range 1 (lenZ s - 1) s else s
  | _ => s
  end.

(** The port of Fill; [None]: bBadPort. *)
Definition port_of (sPort : text) : option Z :=
  let (n, pEnd) := strtol sPort in
  match sPort, pEnd with
  | _ :: _, [] => if (n <? 0) || (65535 <? n) then None else Some n
  | _, _ => None
  end.

(** [None]: false; otherwise the address, Unspec if the text is none. *)
Definition Fill (sIp sPort : text) : option NetAddr :=
  match port_of sPort with
  | None => None
  | Some n =>
      match pton4 (cstr sIp) with
      | Some a => Some (V4 a n)
      | None =>
          match pton6 (cstr (StripIpv6Brackets sIp)) with
          | Some a => Some (V6 a n)
          | None => Some Unspec
          end
      end
  end.

(** NetAddr::Init: true with the address. *)
Definition Init (sIp sPort : text) : option NetAddr :=
  match Fill sIp sPort with
  | None | Some Unspec => None
  | r => r
  end.

Definition Host (x : NetAddr) : text :=
  match x with Unspec => [] | V4 a _ => ntop4 a | V6 a _ => ntop6 a end.
Definition Port (x : NetAddr) : Z :=
  match x with Unspec => 0 | V4 _ n | V6 _ n => n end.

Definition endpoint4 (sHost : text) (n : Z) : text :=
  match sHost with [] => [] | _ => sHost ++ txt ":" ++ to_string n end.
Definition endpoint6 (sHost : text) (n : Z) : text :=
  match sHost with [] => [] | _ => txt "[" ++ sHost ++ txt "]:" ++ to_string n end.

(** NetAddr::Endpoint(). *)
Definition EndpointOf (x : NetAddr) : text :=
  match x with Unspec => [] | V4 a n => endpoint4 (ntop4 a) n | V6 a n => endpoint6 (ntop6 a) n end.

(** NetAddr::Endpoint(sIp, sPort). *)
Definition Endpoint (sIp sPort : text) : text :=
  match Init sIp sPort with
  | Some x => EndpointOf x
  | None => sIp ++ txt ":" ++ sPort
  end.

(** NetAddr::Init(const addrinfo* ): the first IPv4 address, else the first IPv6 one. *)
Fixpoint first4 (l : list NetAddr) : option NetAddr :=
  match l with [] => None | V4 a n :: _ => Some (V4 a n) | _ :: l => first4 l end.
Fixpoint first6 (l : list NetAddr) : option NetAddr :=
  match l with [] => None | V6 a n :: _ => Some (V6 a n) | _ :: l => first6 l end.
Definition InitList (l : list NetAddr) : option NetAddr :=
  match first4 l with Some x => Some x | None => first6 l end.

(** OnResolve for the port asked for: what fnDone is called with; [None]: bOk false. *)
Definition OnResolve (bStatusOk : bool) (l : list NetAddr) (sPort : text) : option NetAddr :=
  match (if bStatusOk then InitList l else None) with
  | Some x => match Host x with [] => None | h => Init h sPort end
  | None => None
  end.

(** What Resolve does: call back at once, with an address or without, or look up. *)
Inductive resolution : Type := Done (r : option NetAddr) | LookUp.

Definition Resolve (sHost sPort : text) (bStarted : bool) : resolution :=
  match Fill sHost sPort with
  | None => Done None
  | Some Unspec => if bStarted then LookUp else Done None
  | Some x => Done (Some x)
  end.

(** ** Lemmas *)

Context {L : InetLaws I}.

Definition known (x : NetAddr) : Prop :=
  match x with
  | Unspec => False
  | V4 a n => 0 <= a < 2 ^ 32 /\ 0 <= n <= 65535
  | V6 a n => 0 <= a < 2 ^ 128 /\ 0 <= n <= 65535
  end.

Lemma port_of_range p n : port_of p = Some n -> 0 <= n <= 65535.
Proof.
  unfold port_of. destruct (strtol p) as [m e]. destruct p, e; try done.
  destruct (Z.ltb_spec m 0); cbn; [done|]. destruct (Z.ltb_spec 65535 m); [done|]. intros [= <-]. lia.
Qed.

Lemma Init_known h p x : Init h p = Some x -> known x.
Proof.
  unfold Init, Fill. destruct (port_of p) as [n|] eqn:Ep; [|done]. apply port_of_range in Ep.
  destruct (pton4 _) eqn:E4; [intros [= <-]; split; [by eapply pton4_range|done]|].
  destruct (pton6 _) eqn:E6; [intros [= <-]; split; [by eapply pton6_range|done]|done].
Qed.

Lemma EndpointOf_nonempty x : known x -> EndpointOf x <> [].
Proof.
  destruct x as [|a n|a n]; [done|..]; intros [E _]; cbn.
  - destruct (ntop4_chars a E) as [H _]. by destruct (ntop4 a).
  - destruct (ntop6_chars a E) as [H _]. by destruct (ntop6 a).
Qed.

Lemma Endpoint_nonempty h p : Endpoint h p <> [].
Proof.
  unfold Endpoint. destruct (Init h p) as [x|] eqn:E; [apply EndpointOf_nonempty; by eapply Init_known|]. by destruct h.
Qed.

(** No printed address is touched by c_str() or by the brackets of IPv6. *)
Lemma cstr_id (f : byte -> bool) s : (forall b, f b = true -> byteZ b <> 0) -> forallb f s = true -> cstr s = s.
Proof.
  intros Hf. induction s as [|b s IH]; [done|]. cbn [forallb cstr]. intros [Hb Hs]%andb_true_iff.
  destruct (Z.eqb_spec (byteZ b) 0); [by apply Hf in Hb|]. by rewrite IH.
Qed.

Lemma strip_id s : forallb char6 s = true -> StripIpv6Brackets s = s.
Proof.
  destruct s as [|b [|c s]]; [done..|]. cbn -[List.last byteZ]. intros [Hb _]%andb_true_iff. unfold char6 in Hb.
  destruct (byteZ b =? 91); [|done]. by destruct (byteZ b =? 0).
Qed.

Lemma char4_nonzero b : char4 b = true -> byteZ b <> 0.
Proof. unfold char4, is_digit. repeat destr_bool; lia || done. Qed.

Lemma char6_nonzero b : char6 b = true -> byteZ b <> 0.
Proof. unfold char6. repeat destr_bool; lia || done. Qed.

(** The text of an address is read back as it, with any port. *)
Lemma Fill_Host x p n : known x -> port_of p = Some n ->
  Fill (Host x) p = Some (match x with Unspec => Unspec | V4 a _ => V4 a n | V6 a _ => V6 a n end).
Proof.
  intros K Ep. unfold Fill. rewrite Ep. destruct x as [|a m|a m]; [done|..]; destruct K as [E _]; cbn [Host].
  - destruct (ntop4_chars a E) as [_ H]. by rewrite (cstr_id char4), pton_ntop4 by (done || apply char4_nonzero).
  - destruct (ntop6_chars a E) as [_ H]. rewrite (cstr_id char6) by (done || apply char6_nonzero). rewrite pton4_ntop6 by done.
    rewrite strip_id by done. by rewrite (cstr_id char6), pton_ntop6 by (done || apply char6_nonzero).
Qed.

Lemma app_colon_inj s t m n : forallb char4 s = true -> forallb char4 t = true -> s ++ Byte.x3a :: m = t ++ Byte.x3a :: n -> s = t /\ m = n.
Proof.
  revert t. induction s as [|b s IH]; intros [|c t]; cbn [app forallb].
  - by intros _ _ [= ->].
  - intros _ [Hc _]%andb_true_iff [= <- _]. done.
  - intros [Hb _]%andb_true_iff _ [= -> _]. done.
  - intros [_ Hs]%andb_true_iff [_ Ht]%andb_true_iff [= -> E]. destruct (IH t Hs Ht E) as [-> ->]. done.
Qed.

Lemma app_bracket_inj s t m n : forallb char6 s = true -> forallb char6 t = true -> s ++ Byte.x5d :: m = t ++ Byte.x5d :: n -> s = t /\ m = n.
Proof.
  revert t. induction s as [|b s IH]; intros [|c t]; cbn [app forallb].
  - by intros _ _ [= ->].
  - intros _ [Hc _]%andb_true_iff [= <- _]. done.
  - intros [Hb _]%andb_true_iff _ [= -> _]. done.
  - intros [_ Hs]%andb_true_iff [_ Ht]%andb_true_iff [= -> E]. destruct (IH t Hs Ht E) as [-> ->]. done.
Qed.

Lemma EndpointOf_inj x y : known x -> known y -> EndpointOf x = EndpointOf y -> x = y.
Proof.
  intros Kx Ky. destruct x as [|a n|a n]; [done|..]; destruct Kx as [Ea Hn]; (destruct y as [|b m|b m]; [done|..]); destruct Ky as [Eb Hm]; cbn [EndpointOf].
  - destruct (ntop4_chars a Ea) as [N1 H1], (ntop4_chars b Eb) as [N2 H2]. intros E.
    assert (ntop4 a ++ Byte.x3a :: to_string n = ntop4 b ++ Byte.x3a :: to_string m) as E1 by (destruct (ntop4 a), (ntop4 b); done).
    destruct (app_colon_inj _ _ _ _ H1 H2 E1) as [E2 E3]. apply to_string_inj in E3; [|lia..].
    apply (f_equal pton4) in E2. rewrite !pton_ntop4 in E2 by done. congruence.
  - destruct (ntop4_chars a Ea) as [N1 H1], (ntop6_chars b Eb) as [N2 H2]. destruct (ntop4 a) as [|c s]; [done|]. destruct (ntop6 b); [done|].
    intros [= -> _]. done.
  - destruct (ntop6_chars a Ea) as [N1 H1], (ntop4_chars b Eb) as [N2 H2]. destruct (ntop6 a); [done|]. destruct (ntop4 b) as [|c s]; [done|].
    intros [= <- _]. done.
  - destruct (ntop6_chars a Ea) as [N1 H1], (ntop6_chars b Eb) as [N2 H2]. intros E.
    assert (ntop6 a ++ Byte.x5d :: (Byte.x3a :: to_string n) = ntop6 b ++ Byte.x5d :: (Byte.x3a :: to_string m)) as E1.
    { destruct (ntop6 a), (ntop6 b); try done. cbn in E |- *. congruence. }
    destruct (app_bracket_inj _ _ _ _ H1 H2 E1) as [E2 [= E3]]. apply to_string_inj in E3; [|lia..].
    apply (f_equal pton6) in E2. rewrite !pton_ntop6 in E2 by done. congruence.
Qed.

Lemma InitList_in l x : InitList l = Some x -> x ∈ l /\ x <> Unspec.
Proof.
  unfold InitList. assert (forall y, first4 l = Some y -> y ∈ l /\ y <> Unspec) as H4.
  { induction l as [|[|a n|a n] l IH]; intros y; cbn; [done|..]; try (intros H; destruct (IH y H); split; [by right|done]).
    intros [= <-]. split; [by left|done]. }
  assert (forall y, first6 l = Some y -> y ∈ l /\ y <> Unspec) as H6.
  { clear H4. induction l as [|[|a n|a n] l IH]; intros y; cbn; [done|..]; try (intros H; destruct (IH y H); split; [by right|done]).
    intros [= <-]. split; [by left|done]. }
  destruct (first4 l) eqn:E; [intros [= <-]; by apply H4|by apply H6].
Qed.

(** The texts by which sessions are found stand for the addresses: however
    the addresses of two configurations are written (brackets, zeros, spaces before the
    port), their endpoints are equal exactly if family, address and port are. *)
Theorem endpoints_compare h1 p1 x h2 p2 y : Init h1 p1 = Some x -> Init h2 p2 = Some y ->
  (Endpoint h1 p1 = Endpoint h2 p2 <-> x = y).
Proof.
  intros E1 E2. unfold Endpoint. rewrite E1, E2. split; [|by intros ->].
  apply EndpointOf_inj; by eapply Init_known.
Qed.

(** An address that a lookup has found keeps its meaning when it is stored
    as text and read again: it is the address of its own host text and the port asked
    for, so connecting by the text and comparing by the endpoint speak of the same
    address as the lookup. *)
Theorem resolved_address_stays b l p x : Forall (fun y => y = Unspec \/ known y) l -> OnResolve b l p = Some x ->
  Host x <> [] /\ Init (Host x) p = Some x /\ EndpointOf x = Endpoint (Host x) p /\
  Resolve (Host x) p true = Done (Some x).
Proof.
  intros Hl. unfold OnResolve. destruct b; [|done]. destruct (InitList l) as [y|] eqn:El; [|done].
  destruct (InitList_in _ _ El) as [Hy Hu]. rewrite Forall_forall in Hl. destruct (Hl y Hy) as [?|Ky]; [done|].
  destruct (Host y) as [|c h] eqn:Eh; [done|]. rewrite <- Eh. intros Ei.
  assert (exists n, port_of p = Some n) as [n Ep] by (unfold Init, Fill in Ei; destruct (port_of p); [eauto|done]).
  assert (Host x = Host y) as Ex.
  { unfold Init in Ei. rewrite (Fill_Host y p n Ky Ep) in Ei. destruct y; [done|..]; by injection Ei as <-. }
  rewrite Ex, Eh. split; [done|]. rewrite <- Eh. split; [done|]. split; [unfold Endpoint; by rewrite Ei|].
  unfold Resolve. unfold Init in Ei. destruct (Fill (Host y) p) as [[]|]; try done; by injection Ei as <-.
Qed.

End Addr.

(** ** Examples *)

Section Example.

(** A system whose texts are the numbers themselves, IPv6 ones after a colon. *)
#[local] Instance numbers : Inet := {|
  pton4 s := from_chars false 0 (2 ^ 32 - 1) s;
  ntop4 a := to_string a;
  pton6 s := match s with b :: s => if byteZ b =? 58 then from_chars false 0 (2 ^ 128 - 1) s else None | [] => None end;
  ntop6 a := Byte.x3a :: dec_aux 40 a []
|}.

Lemma decimal4 n : 0 <= n < 2 ^ 32 -> to_string n <> [] /\ forallb is_digit (to_string n) = true.
Proof.
  intros Hn. unfold to_string. destruct (Z.ltb_spec n 0); [lia|]. destruct (to_dec_spec n) as (H1 & H2 & _); [lia|done].
Qed.

Lemma decimal6 n : 0 <= n < 2 ^ 128 ->
  dec_aux 40 n [] <> [] /\ forallb is_digit (dec_aux 40 n []) = true /\ from_chars false 0 (2 ^ 128 - 1) (dec_aux 40 n []) = Some n.
Proof.
  intros Hn. destruct (dec_aux_spec 40 n []) as (ds & -> & H1 & H2 & H3); [|lia|].
  { assert (2 ^ 128 < 10 ^ Z.of_nat 40) by (by vm_compute). lia. }
  rewrite app_nil_r. split_and!; [done..|]. unfold from_chars. destruct ds as [|b ds]; [done|]. cbn [andb].
  destruct (Z.eqb_spec (lenZ (b :: ds)) 0) as [E|]; [by apply lenZ_0 in E|]. rewrite H2, H3. cbn [negb orb].
  destruct (Z.leb_spec 0 n), (Z.leb_spec n (2 ^ 128 - 1)); done || lia.
Qed.

Lemma forallb_weaken {A} (f g : A -> bool) l : (forall x, f x = true -> g x = true) -> forallb f l = true -> forallb g l = true.
Proof. intros H. rewrite !forallb_forall. auto. Qed.

#[local] Instance numbers_laws : InetLaws numbers.
Proof.
  split; cbn -[from_chars to_string dec_aux Z.pow].
  - intros s a E. apply from_chars_range in E. lia.
  - intros [|b s] a E; [done|]. destruct (byteZ b =? 58); [|done]. apply from_chars_range in E. lia.
  - intros a Ha. apply from_chars_to_string; lia.
  - intros a Ha. apply decimal6. lia.
  - intros a Ha. destruct (decimal4 a) as [H1 H2]; [lia|]. split; [done|]. eapply forallb_weaken; [|exact H2].
    intros x Hx. unfold char4. by rewrite Hx.
  - intros a Ha. destruct (decimal6 a) as (H1 & H2 & _); [lia|]. split; [done|]. eapply forallb_weaken; [|exact H2]. intros x Hx. apply andb_true_iff in Hx as [Hx1 Hx2].
    apply Z.leb_le in Hx1, Hx2. unfold char6. destruct (Z.eqb_spec (byteZ x) 0); [lia|]. destruct (Z.eqb_spec (byteZ x) 91); [lia|].
    destruct (Z.eqb_spec (byteZ x) 93); [lia|done].
  - intros a Ha. unfold from_chars. cbn [andb forallb]. destruct (_ =? 0); done.
Qed.

Lemma endpoints_compare_witness :
  Endpoint (txt "[:0077]") (txt " +080") = Endpoint (txt ":77") (txt "80") /\ Endpoint (txt "077") (txt "80") <> Endpoint (txt ":77") (txt "80").
Proof.
  split.
  - apply (endpoints_compare (txt "[:0077]") (txt " +080") (V6 77 80) (txt ":77") (txt "80") (V6 77 80)); by vm_compute.
  - intros E. apply (endpoints_compare (txt "077") (txt "80") (V4 77 80) (txt ":77") (txt "80") (V6 77 80)) in E; by vm_compute.
Defined.

Lemma resolved_address_stays_witness :
  let x := V4 5 8080 in Host x <> [] /\ Init (Host x) (txt "8080") = Some x /\ EndpointOf x = Endpoint (Host x) (txt "8080") /\
  Resolve (Host x) (txt "8080") true = Done (Some x).
Proof. apply (resolved_address_stays true [V6 9 0; V4 5 0]); [|by vm_compute].
  apply Forall_cons; split; [right; cbn; lia|]. apply Forall_cons; split; [right; cbn; lia|done].
Defined.

End Example.
End Address.
