(* ===== verification/Connects.v ===== *)
(** * Connections of a client's session manager

    cbaselib/net/src/oi_session_manager.cpp for a manager that connects: StartClient and
    its awaiter, the generations of connection attempts, ConnectResolver, ApplyService
    and the table of sessions, with SocketConnect (net/src/oi_net_helper.cpp) and
    ConnectChannel (net/src/oi_connect_channel.cpp) that end an attempt.

    Everything but BeginConnect, CloseSession and the awaiters runs on the poll thread.
    The functions call each other and the virtual methods of the subclass, which may call
    back; the poll thread is therefore a stack of [task]s, a step runs the topmost one,
    and a [Callback] on it stands for the subclass until it returns.  What the system
    answers (name lookups, connect) is the step's input. *)

From stdpp Require Import sorting.
From S2P Require Import Prelude Text Address.

Module Connects.
Import Text Address.

(** SessionManager::ConnectWait; [vWaiters]: the coroutines suspended on it. *)
Record ConnectWait : Type := mkWait { bDone : bool; bResult : bool; vWaiters : list Z }.

Record manager : Type := mkManager {
  m_vConnectWaiters : list Z;
  iConnectGeneration : Z;
  bConnectPending : bool;
  mSessionMap : gmap Z text;
  iCurrentSessionId : Z;
  sIpAddress : text;
  sPort : text;
  sEndpoint : text;
  bServiceDown : bool;
  bServiceSeen : bool
}.

Inductive task : Type :=
| StartConnect (w : Z)
| OnResolved (g : Z) (r : option text)
| CompleteConnect (g : Z)
| AbortSession (g : Z)
| FinishTrue (ws : list Z)                      (* the end of CompleteConnect *)
| ApplyService (sIp sPort : text) (bOnline : bool) (w : Z)
| CloseSessions (l : list Z)                    (* the loop of CloseEndpoint *)
| Reconnect (sEndpointLocal : text) (w : Z)     (* the end of ApplyService *)
| Callback.

(** [posted]: calls of StartConnect queued by CallOnLoop; [resolving], [connecting]: the
    generations of lookups and sockets under way; [expired]: waits whose awaiter is gone;
    [suspended], [scheduled]: coroutines that began to wait, that were woken. *)
Record state : Type := mkState {
  mgr : manager;
  waits : gmap Z ConnectWait;
  stack : list task;
  posted : list Z;
  resolving : list Z;
  connecting : list Z;
  expired : gset Z;
  suspended : list Z;
  scheduled : list Z;
  stopping : bool
}.

Definition set_mgr (m : manager) (s : state) : state :=
  mkState m (waits s) (stack s) (posted s) (resolving s) (connecting s) (expired s) (suspended s) (scheduled s) (stopping s).
Definition set_stack (l : list task) (s : state) : state :=
  mkState (mgr s) (waits s) l (posted s) (resolving s) (connecting s) (expired s) (suspended s) (scheduled s) (stopping s).
Definition set_posted (l : list Z) (s : state) : state :=
  mkState (mgr s) (waits s) (stack s) l (resolving s) (connecting s) (expired s) (suspended s) (scheduled s) (stopping s).
Definition set_jobs (r c : list Z) (s : state) : state :=
  mkState (mgr s) (waits s) (stack s) (posted s) r c (expired s) (suspended s) (scheduled s) (stopping s).

(** ** The manager *)

Definition set_attempt (ws : list Z) (g : Z) (b : bool) (m : manager) : manager :=
  mkManager ws g b (mSessionMap m) (iCurrentSessionId m) (sIpAddress m) (sPort m) (sEndpoint m) (bServiceDown m) (bServiceSeen m).
Definition set_sessions (l : gmap Z text) (i : Z) (m : manager) : manager :=
  mkManager (m_vConnectWaiters m) (iConnectGeneration m) (bConnectPending m) l i (sIpAddress m) (sPort m) (sEndpoint m) (bServiceDown m) (bServiceSeen m).
Definition set_address (h p e : text) (m : manager) : manager :=
  mkManager (m_vConnectWaiters m) (iConnectGeneration m) (bConnectPending m) (mSessionMap m) (iCurrentSessionId m) h p e (bServiceDown m) (bServiceSeen m).
Definition set_service (down seen : bool) (m : manager) : manager :=
  mkManager (m_vConnectWaiters m) (iConnectGeneration m) (bConnectPending m) (mSessionMap m) (iCurrentSessionId m) (sIpAddress m) (sPort m) (sEndpoint m) down seen.

Definition HasEndpoint (e : text) (m : manager) : bool := existsb (fun x => bytes_eqb (snd x) e) (map_to_list (mSessionMap m)).

(** The sessions CloseEndpoint finds, in the order of the map. *)
Definition sessions_to (e : text) (m : manager) : list Z :=
  match e with
  | [] => []
  | _ => merge_sort Z.le (map fst (List.filter (fun x => bytes_eqb (snd x) e) (map_to_list (mSessionMap m))))
  end.

(** ** Waits *)

(** ConnectWait::Finish. *)
Definition Finish (b : bool) (w : Z) (s : state) : state :=
  match waits s !! w with
  | Some x =>
      if bDone x then s
      else mkState (mgr s) (<[w := mkWait true b []]> (waits s)) (stack s) (posted s) (resolving s) (connecting s) (expired s)
             (suspended s) (scheduled s ++ vWaiters x) (stopping s)
  | None => s
  end.

(** Finish through weak pointers. *)
Definition finish_all (b : bool) (ws : list Z) (s : state) : state :=
  fold_left (fun s w => if decide (w ∈ expired s) then s else Finish b w s) ws s.

Definition FinishConnectWaiters (b : bool) (s : state) : state :=
  let m := mgr s in
  finish_all b (m_vConnectWaiters m) (set_mgr (set_attempt [] (iConnectGeneration m) (bConnectPending m) m) s).

(** The loop at the end of m_vConnectWaiters in StartConnect, on the reversed list. *)
Fixpoint drop_expired (e : gset Z) (l : list Z) : list Z :=
  match l with
  | [] => []
  | w :: l => if decide (w ∈ e) then drop_expired e l else w :: l
  end.

(** A new awaiter; [w] is its number. *)
Definition new_wait (w : Z) (s : state) : state :=
  mkState (mgr s) (<[w := mkWait false false []]> (waits s)) (stack s) (posted s) (resolving s) (connecting s) (expired s)
    (suspended s) (scheduled s) (stopping s).
Definition expire (w : Z) (s : state) : state :=
  mkState (mgr s) (waits s) (stack s) (posted s) (resolving s) (connecting s) ({[w]} ∪ expired s) (suspended s) (scheduled s) (stopping s).

(** ConnectAwaiter::Suspend. *)
Definition Suspend (w h : Z) (s : state) : state :=
  match waits s !! w with
  | Some x =>
      if bDone x then s
      else mkState (mgr s) (<[w := mkWait false (bResult x) (vWaiters x ++ [h])]> (waits s)) (stack s) (posted s) (resolving s) (connecting s)
             (expired s) (suspended s ++ [h]) (scheduled s) (stopping s)
  | None => s
  end.

(** BeginConnect; on the poll thread CallOnLoop calls at once. *)
Definition BeginConnect (bInLoop : bool) (w : Z) (s : state) : state :=
  if stopping s then Finish false w s
  else if bInLoop then set_stack (StartConnect w :: stack s) s
  else set_posted (posted s ++ [w]) s.

(** CloseSession; true: the session was there, OnSessionClosed follows. *)
Definition CloseSession (sid : Z) (s : state) : bool * state :=
  let m := mgr s in
  match mSessionMap m !! sid with
  | Some _ => (true, set_mgr (set_sessions (delete sid (mSessionMap m)) (iCurrentSessionId m) m) s)
  | None => (false, s)
  end.

Definition CancelConnect (s : state) : state :=
  let m := mgr s in
  if bConnectPending m then
    FinishConnectWaiters false (set_mgr (set_attempt (m_vConnectWaiters m) (iConnectGeneration m + 1) false m) s)
  else s.

(** ** The tasks *)

(** What the system answers, and what a callback does. *)
Inductive answer : Type :=
| Asked (bStarted : bool)     (* NetAddr::Resolve: uv_getaddrinfo if it comes to that *)
| NoSocket                    (* ConnectChannel::StartConnect: CreateSocket failed *)
| InProgress                  (* connect: EINPROGRESS *)
| Connected                   (* connect: 0 *)
| NotConnected                (* connect: another error *)
| UserStart (w : Z)           (* a callback: StartClient, the awaiter is kept *)
| UserClose (sid : Z)         (* ... CloseSession *)
| UserCancel                  (* ... CancelConnect *)
| Return.                     (* ... is done *)

Section Run.
Context {I : Inet} (bNamed : bool).

Definition push (ts : list task) (s : state) : state := set_stack (ts ++ stack s) s.

(** [w] is on its way in StartConnect; [a]: what Resolve does. *)
Definition run_StartConnect (w : Z) (a : answer) (s : state) : option state :=
  let m := mgr s in
  if stopping s || bServiceDown m then Some (Finish false w s)
  else if negb (bConnectPending m) && HasEndpoint (Endpoint (sIpAddress m) (sPort m)) m then Some (Finish true w s)
  else
    let ws := reverse (drop_expired (expired s) (reverse (m_vConnectWaiters m))) ++ [w] in
    if bConnectPending m then Some (set_mgr (set_attempt ws (iConnectGeneration m) true m) s)
    else
      let g := iConnectGeneration m + 1 in
      let s := set_mgr (set_attempt ws g true m) s in
      match a with
      | Asked bStarted =>
          match Resolve (sIpAddress m) (sPort m) bStarted with
          | Done r => Some (push [OnResolved g (Host <$> r)] s)
          | LookUp => Some (set_jobs (resolving s ++ [g]) (connecting s) s)
          end
      | _ => None
      end.

Definition run_AbortSession (g : Z) (s : state) : state :=
  let m := mgr s in
  if negb (g =? iConnectGeneration m) || negb (bConnectPending m) then s
  else
    let s := FinishConnectWaiters false (set_mgr (set_attempt (m_vConnectWaiters m) g false m) s) in
    push [Callback] (set_mgr (set_sessions (mSessionMap (mgr s)) (iCurrentSessionId (mgr s) + 1) (mgr s)) s).

(** [r]: the host text of the address found.  stAddr.Endpoint() is the endpoint of that
    text and the port, which does not change within a generation (Address.v,
    [resolved_address_stays]).  [a]: what ConnectChannel::StartConnect and SocketConnect
    meet with. *)
Definition run_OnResolved (g : Z) (r : option text) (a : answer) (s : state) : option state :=
  let m := mgr s in
  if negb (g =? iConnectGeneration m) || negb (bConnectPending m) then Some s
  else
    match bServiceDown m, r with
    | false, Some (x :: h) =>
        let h := x :: h in
        let e := Endpoint h (sPort m) in
        let s := set_mgr (set_address h (sPort m) e m) s in
        if HasEndpoint e (mgr s) then
          Some (FinishConnectWaiters true (set_mgr (set_attempt (m_vConnectWaiters m) g false (mgr s)) s))
        else
          match a with
          | NoSocket => Some (push [AbortSession g] s)
          | InProgress => Some (set_jobs (resolving s) (connecting s ++ [iConnectGeneration m]) s)
          | Connected => Some (push [CompleteConnect (iConnectGeneration m)] s)
          | NotConnected => Some (push [AbortSession (iConnectGeneration m); AbortSession g] s)
          | _ => None
          end
    | _, _ => Some (push [AbortSession g] s)
    end.

Definition run_CompleteConnect (g : Z) (s : state) : state :=
  let m := mgr s in
  if negb (g =? iConnectGeneration m) || negb (bConnectPending m) || bServiceDown m then s
  else
    let sid := iCurrentSessionId m + 1 in
    let l := <[sid := Endpoint (sIpAddress m) (sPort m)]> (mSessionMap m) in
    push [Callback; FinishTrue (m_vConnectWaiters m)] (set_mgr (set_sessions l sid (set_attempt [] g false m)) s).

(** [w] is the temporary awaiter of the StartClient at the end. *)
Definition run_ApplyService (sIp sPortLocal : text) (bOnline : bool) (w : Z) (s : state) : state :=
  let m := mgr s in
  if negb bNamed then s
  else if negb bOnline then
    if negb (bServiceSeen m) || bServiceDown m then s
    else
      let s := FinishConnectWaiters false s in
      let sPrevious := sEndpoint m in
      let m := set_address (sIpAddress m) (sPort m) [] (set_service true (bServiceSeen m) (set_attempt [] (iConnectGeneration m + 1) false (mgr s))) in
      push [CloseSessions (sessions_to sPrevious m); Callback] (set_mgr m s)
  else
    let sEndpointLocal := Endpoint sIp sPortLocal in
    let bWasDown := bServiceDown m in
    let bMoved := negb (bytes_eqb (sEndpoint m) sEndpointLocal) in
    let s := set_mgr (set_service (bServiceDown m) true m) s in
    if negb bWasDown && negb bMoved then s
    else
      let s := FinishConnectWaiters false s in
      let sPrevious := sEndpoint m in
      let m := set_address sIp sPortLocal sEndpointLocal (set_service false true (set_attempt [] (iConnectGeneration m + 1) false (mgr s))) in
      push [CloseSessions (if bytes_eqb sPrevious sEndpointLocal then [] else sessions_to sPrevious m); Reconnect sEndpointLocal w] (set_mgr m s).

Definition exec (a : answer) (t : task) (s : state) : option state :=
  match t with
  | StartConnect w => run_StartConnect w a s
  | OnResolved g r => run_OnResolved g r a s
  | CompleteConnect g => Some (run_CompleteConnect g s)
  | AbortSession g => Some (run_AbortSession g s)
  | FinishTrue ws => Some (finish_all true ws s)
  | ApplyService h p b w => Some (run_ApplyService h p b w s)
  | CloseSessions [] => Some s
  | CloseSessions (sid :: l) =>
      let (bClosed, s) := CloseSession sid s in
      Some (push (if bClosed then [Callback; CloseSessions l] else [CloseSessions l]) s)
  | Reconnect e w =>
      if HasEndpoint e (mgr s) then Some s
      else match waits s !! w with Some _ => None | None => Some (BeginConnect true w (expire w (new_wait w s))) end
  | Callback =>
      let s := push [Callback] s in
      match a with
      | UserStart w => match waits s !! w with Some _ => None | None => Some (BeginConnect true w (new_wait w s)) end
      | UserClose sid => let (bClosed, s) := CloseSession sid s in Some (if bClosed then push [Callback] s else s)
      | UserCancel => Some (CancelConnect s)
      | Return => Some (set_stack (tail (stack s)) s)
      | _ => None
      end
  end.

Inductive event : Type :=
| Step (a : answer)                                (* the poll thread goes on *)
| Begin (w : Z)                                    (* StartClient on another thread *)
| NextPosted
| Resolved (g : Z) (r : option text)               (* a lookup ends *)
| SocketReady (g : Z) (bOk : bool)                 (* a socket has connected or not *)
| Service (sIp sPort : text) (bOnline : bool) (w : Z)
| Cancel                                           (* CancelConnect on the poll thread *)
| Close (sid : Z)                                  (* CloseSession on another thread *)
| Await (w h : Z)
| Forget (w : Z)                                   (* an awaiter is destroyed *)
| Stop.                                            (* RequestStop *)

Fixpoint remove_one (g : Z) (l : list Z) : list Z :=
  match l with
  | [] => []
  | x :: l => if x =? g then l else x :: remove_one g l
  end.

Definition idle (s : state) : bool := match stack s with [] => true | _ => false end.

(** [None]: cannot happen now. *)
Definition do_event (e : event) (s : state) : option state :=
  match e with
  | Step a => match stack s with [] => None | t :: ts => exec a t (set_stack ts s) end
  | Begin w => match waits s !! w with Some _ => None | None => Some (BeginConnect false w (new_wait w s)) end
  | NextPosted =>
      match posted s with
      | w :: ws => if idle s then Some (push [StartConnect w] (set_posted ws s)) else None
      | [] => None
      end
  | Resolved g r =>
      if idle s && bool_decide (g ∈ resolving s) then Some (push [OnResolved g r] (set_jobs (remove_one g (resolving s)) (connecting s) s)) else None
  | SocketReady g b =>
      if idle s && bool_decide (g ∈ connecting s) then
        Some (push [if b then CompleteConnect g else AbortSession g] (set_jobs (resolving s) (remove_one g (connecting s)) s))
      else None
  | Service h p b w => if idle s then Some (push [ApplyService h p b w] s) else None
  | Cancel => if idle s then Some (CancelConnect s) else None
  | Close sid => Some (snd (CloseSession sid s))
  | Await w h => if decide (w ∈ expired s) then None else match waits s !! w with Some _ => Some (Suspend w h s) | None => None end
  | Forget w => match waits s !! w with Some (mkWait _ _ []) => Some (expire w s) | _ => None end
  | Stop => Some (mkState (mgr s) (waits s) (stack s) (posted s) (resolving s) (connecting s) (expired s) (suspended s) (scheduled s) true)
  end.

Fixpoint run (es : list event) (s : state) : option state :=
  match es with
  | [] => Some s
  | e :: es => match do_event e s with Some s => run es s | None => None end
  end.

(** A manager set up by Init for the address [h], [p]. *)
Definition start (h p : text) : state :=
  mkState (mkManager [] 0 false ∅ 0 h p (Endpoint h p) false false) ∅ [] [] [] [] ∅ [] [] false.

(** ** Waiting coroutines *)

Definition waiting (m : gmap Z ConnectWait) : list Z := concat (map (fun x => vWaiters (snd x)) (map_to_list m)).

(** What only finishing waits leaves alone. *)
Record same (s s' : state) : Prop := mkSame {
  same_mgr : mgr s' = mgr s;
  same_stack : stack s' = stack s;
  same_posted : posted s' = posted s;
  same_resolving : resolving s' = resolving s;
  same_connecting : connecting s' = connecting s;
  same_expired : expired s' = expired s
}.

Record account (s : state) : Prop := mkAccount {
  acc_quiet : forall w x, waits s !! w = Some x -> bDone x = true \/ w ∈ expired s -> vWaiters x = [];
  acc_perm : suspended s ≡ₚ scheduled s ++ waiting (waits s)
}.

(** The coroutine that waits on [w] still has to be told. *)
Definition live (s : state) (w : Z) : Prop := exists x, waits s !! w = Some x /\ bDone x = false /\ w ∉ expired s.

Definition at_place (s : state) (w : Z) : Prop :=
  w ∈ posted s \/ StartConnect w ∈ stack s \/ w ∈ m_vConnectWaiters (mgr s) \/ exists ws, FinishTrue ws ∈ stack s /\ w ∈ ws.

Definition under_way (s : state) (g : Z) : Prop :=
  g ∈ resolving s \/ g ∈ connecting s \/ (exists r, OnResolved g r ∈ stack s) \/ CompleteConnect g ∈ stack s \/ AbortSession g ∈ stack s.

Record winv (s : state) : Prop := mkWinv {
  w_account : account s;
  w_place : forall w, live s w -> at_place s w;
  w_pending : m_vConnectWaiters (mgr s) <> [] -> bConnectPending (mgr s) = true;
  w_down : bServiceDown (mgr s) = true -> bConnectPending (mgr s) = false;
  w_attempt : bConnectPending (mgr s) = true -> under_way s (iConnectGeneration (mgr s))
}.

Lemma waiting_split m w x : m !! w = Some x -> waiting m ≡ₚ vWaiters x ++ waiting (delete w m).
Proof. intros E. unfold waiting. by rewrite <- (map_to_list_delete m w x E). Qed.

Lemma waiting_new m w x : m !! w = None -> waiting (<[w := x]> m) ≡ₚ vWaiters x ++ waiting m.
Proof. intros E. unfold waiting. by rewrite (map_to_list_insert m w x E). Qed.

Lemma waiting_update m w x y : m !! w = Some x ->
  waiting m ≡ₚ vWaiters x ++ waiting (delete w m) /\ waiting (<[w := y]> m) ≡ₚ vWaiters y ++ waiting (delete w m).
Proof.
  intros E. split; [by apply waiting_split|]. rewrite <- insert_delete_eq. apply waiting_new, lookup_delete_eq.
Qed.

Lemma same_trans s1 s2 s3 : same s1 s2 -> same s2 s3 -> same s1 s3.
Proof. intros [] []. split; congruence. Qed.

Lemma Finish_same b w s : same s (Finish b w s).
Proof. unfold Finish. destruct (waits s !! w) as [x|]; [|done]. by destruct (bDone x). Qed.

Lemma finish_all_same b ws : forall s, same s (finish_all b ws s).
Proof.
  induction ws as [|w ws IH]; intros s; [done|]. unfold finish_all. cbn [fold_left].
  eapply same_trans; [|apply IH]. destruct (decide (w ∈ expired s)); [done|apply Finish_same].
Qed.

Lemma Finish_spec b w s : account s -> let s' := Finish b w s in same s s' /\ account s' /\ forall v, live s' v -> live s v /\ v <> w.
Proof.
  intros [Q P]. unfold Finish. destruct (waits s !! w) as [x|] eqn:E.
  - destruct (bDone x) eqn:Ed; cbn zeta.
    + split_and!; [done|done|]. intros v (y & Ev & Hd & He). split; [by exists y|]. intros ->. congruence.
    + split_and!; [done| |].
      * split; cbn.
        -- intros v y. destruct (decide (v = w)) as [->|Hn]; [rewrite lookup_insert_eq; by intros [= <-]|rewrite lookup_insert_ne by done; apply Q].
        -- destruct (waiting_update _ _ _ (mkWait true b []) E) as [H1 H2]. rewrite P, H1, H2. cbn. by rewrite app_assoc.
      * intros v (y & Ev & Hd & He). cbn in *. destruct (decide (v = w)) as [->|Hn].
        -- rewrite lookup_insert_eq in Ev. by injection Ev as <-.
        -- rewrite lookup_insert_ne in Ev by done. split; [by exists y|done].
  - cbn zeta. split_and!; [done|done|]. intros v (y & Ev & Hd & He). split; [by exists y|]. intros ->. congruence.
Qed.

Lemma finish_all_spec b ws : forall s, account s ->
  let s' := finish_all b ws s in same s s' /\ account s' /\ forall v, live s' v -> live s v /\ v ∉ ws.
Proof.
  induction ws as [|w ws IH]; intros s A; cbn zeta.
  - split_and!; [done|done|]. intros v H. split; [done|set_solver].
  - unfold finish_all. cbn [fold_left]. fold (finish_all b ws (if decide (w ∈ expired s) then s else Finish b w s)).
    destruct (decide (w ∈ expired s)) as [He|He].
    + destruct (IH s A) as (S & A' & L). split_and!; [done|done|]. intros v H. destruct (L v H) as [H1 H2]. split; [done|].
      apply not_elem_of_cons. split; [|done]. intros ->. destruct H1 as (_ & _ & _ & H1). done.
    + destruct (Finish_spec b w s A) as (S & A1 & L1). destruct (IH _ A1) as (S' & A' & L'). split_and!; [by eapply same_trans|done|].
      intros v H. destruct (L' v H) as [H1 H2]. destruct (L1 v H1). split; [done|]. by apply not_elem_of_cons.
Qed.

(** ** What is under way *)

Lemma account_eq s s' : waits s' = waits s -> expired s' = expired s -> suspended s' = suspended s -> scheduled s' = scheduled s ->
  account s -> account s'.
Proof. intros E1 E2 E3 E4 [Q P]. split; [rewrite E1, E2; done|rewrite E1, E3, E4; done]. Qed.

Lemma live_eq s s' v : waits s' = waits s -> expired s' = expired s -> live s' v -> live s v.
Proof. unfold live. by intros -> ->. Qed.

Lemma place_pop t s w : at_place (push [t] s) w ->
  at_place s w \/ t = StartConnect w \/ exists ws, t = FinishTrue ws /\ w ∈ ws.
Proof.
  unfold at_place. cbn. intros [H|[H|[H|(ws & H & Hw)]]]; [tauto| |tauto|].
  - apply elem_of_cons in H as [H|H]; [by right; left|tauto].
  - apply elem_of_cons in H as [H|H]; [right; right; eauto|left; right; right; right; eauto].
Qed.

Lemma place_more s s' ts w : posted s' = posted s -> stack s' = ts ++ stack s -> m_vConnectWaiters (mgr s') = m_vConnectWaiters (mgr s) ->
  at_place s w -> at_place s' w.
Proof.
  unfold at_place. intros -> -> ->. intros [H|[H|[H|(ws & H & Hw)]]]; [tauto| |tauto|].
  - right; left. apply elem_of_app. by right.
  - right; right; right. exists ws. split; [|done]. apply elem_of_app. by right.
Qed.

Lemma way_pop t s g : under_way (push [t] s) g ->
  under_way s g \/ (exists r, t = OnResolved g r) \/ t = CompleteConnect g \/ t = AbortSession g.
Proof.
  unfold under_way. cbn. intros [H|[H|[[r H]|[H|H]]]]; [tauto|tauto|..]; apply elem_of_cons in H as [H|H]; try tauto; eauto 10.
Qed.

Lemma way_more s s' ts g : (forall x, x ∈ resolving s -> x ∈ resolving s') -> (forall x, x ∈ connecting s -> x ∈ connecting s') ->
  stack s' = ts ++ stack s -> under_way s g -> under_way s' g.
Proof.
  unfold under_way. intros H1 H2 ->. intros [H|[H|[[r H]|[H|H]]]]; [auto|auto|..].
  - right; right; left. exists r. apply elem_of_app. by right.
  - right; right; right; left. apply elem_of_app. by right.
  - right; right; right; right. apply elem_of_app. by right.
Qed.

(** A step that neither finishes nor adds waits: it keeps the invariant if what it leaves
    under way can still end the attempt. *)
Lemma moved t s s' ts : winv (push [t] s) -> (forall v, t <> StartConnect v) -> (forall ws, t <> FinishTrue ws) ->
  account s' -> (forall v, live s' v -> live s v) -> posted s' = posted s -> stack s' = ts ++ stack s ->
  m_vConnectWaiters (mgr s') = m_vConnectWaiters (mgr s) -> bConnectPending (mgr s') = bConnectPending (mgr s) ->
  bServiceDown (mgr s') = bServiceDown (mgr s) ->
  (bConnectPending (mgr s) = true -> under_way s' (iConnectGeneration (mgr s'))) -> winv s'.
Proof.
  intros [A P Pe D At] T1 T2 A' L E1 E2 E3 E4 E5 U. cbn in *. split.
  - done.
  - intros v Hv. apply (place_more s s' ts); try done. destruct (place_pop t s v) as [H|[H|(ws & H & _)]]; [|done|by destruct (T1 v)|by destruct (T2 ws)].
    apply P. by apply L in Hv.
  - by rewrite E3, E4.
  - by rewrite E4, E5.
  - by rewrite E4.
Qed.

(** A step that finishes all waits of the attempt and ends it. *)
Lemma settled s s' ts : (forall v, live s v -> at_place s v) -> account s' ->
  (forall v, live s' v -> live s v /\ v ∉ m_vConnectWaiters (mgr s)) -> posted s' = posted s -> stack s' = ts ++ stack s ->
  m_vConnectWaiters (mgr s') = [] -> bConnectPending (mgr s') = false -> winv s'.
Proof.
  intros P A L E1 E2 E3 E4. split; [done| |by rewrite E3|by rewrite E4|by rewrite E4].
  intros v Hv. destruct (L v Hv) as [Hl Hn]. unfold at_place. rewrite E1, E2, E3. destruct (P v Hl) as [H|[H|[H|(ws & H & Hw)]]]; [tauto| |done|].
  - right; left. apply elem_of_app. by right.
  - right; right; right. exists ws. split; [|done]. apply elem_of_app. by right.
Qed.

Lemma FinishConnectWaiters_spec b s : account s -> let s' := FinishConnectWaiters b s in
  same (set_mgr (set_attempt [] (iConnectGeneration (mgr s)) (bConnectPending (mgr s)) (mgr s)) s) s' /\ account s' /\
  forall v, live s' v -> live s v /\ v ∉ m_vConnectWaiters (mgr s).
Proof.
  intros A. set (s0 := set_mgr _ s). assert (account s0) as A0 by (by apply (account_eq s)).
  exact (finish_all_spec b (m_vConnectWaiters (mgr s)) s0 A0).
Qed.

Lemma popped t s : winv (push [t] s) -> (forall v, t <> StartConnect v) -> (forall ws, t <> FinishTrue ws) ->
  account s /\ forall v, live s v -> at_place s v.
Proof.
  intros [A P _ _ _] T1 T2. split; [by apply (account_eq (push [t] s))|]. intros v Hv.
  destruct (place_pop t s v) as [H|[H|(ws & H & _)]]; [by apply P|done|by destruct (T1 v)|by destruct (T2 ws)].
Qed.

Lemma winv_sessions l i s : winv s -> winv (set_mgr (set_sessions l i (mgr s)) s).
Proof. intros [[Q A] P Pe D At]. by repeat split. Qed.

Lemma CloseSession_winv sid s : winv s -> winv (snd (CloseSession sid s)).
Proof. unfold CloseSession. destruct (_ !! sid); [apply winv_sessions|done]. Qed.

Lemma stale t g s : winv (push [t] s) -> (t = CompleteConnect g \/ t = AbortSession g \/ exists r, t = OnResolved g r) ->
  g <> iConnectGeneration (mgr s) \/ bConnectPending (mgr s) = false -> winv s.
Proof.
  intros W Ht Hg. apply (moved t s s []); try done; try by intros; destruct Ht as [->|[->|[? ->]]].
  - destruct W. by apply (account_eq (push [t] s)).
  - intros Hp. destruct Hg as [Hg|Hg]; [|congruence]. destruct (way_pop t s _ (w_attempt _ W Hp)) as [H|H]; [done|].
    destruct Ht as [->|[->|[? ->]]]; destruct H as [[? [=]]|[[=]|[=]]]; congruence.
Qed.

(** ** Every task keeps it *)

Lemma drop_expired_keeps e v l : v ∉ e -> v ∈ l -> v ∈ drop_expired e l.
Proof.
  intros He. induction l as [|w l IH]; [set_solver|]. cbn. destruct (decide (w ∈ e)); [|done].
  intros H. apply elem_of_cons in H as [->|H]; [done|auto].
Qed.

Lemma kept_waits s v : live s v -> v ∈ m_vConnectWaiters (mgr s) -> v ∈ reverse (drop_expired (expired s) (reverse (m_vConnectWaiters (mgr s)))).
Proof.
  intros (_ & _ & _ & He) H. apply elem_of_reverse, drop_expired_keeps; [done|]. by apply elem_of_reverse.
Qed.

(** The end of the coroutine's registration: [w] may have no place yet. *)
Lemma finish_one b w s : account s -> (forall v, live s v -> v <> w -> at_place s v) ->
  (m_vConnectWaiters (mgr s) <> [] -> bConnectPending (mgr s) = true) -> (bServiceDown (mgr s) = true -> bConnectPending (mgr s) = false) ->
  (bConnectPending (mgr s) = true -> under_way s (iConnectGeneration (mgr s))) -> winv (Finish b w s).
Proof.
  intros A P Pe D At. destruct (Finish_spec b w s A) as ([E1 E2 E3 E4 E5 E6] & A' & L). split; [done|..].
  - intros v Hv. destruct (L v Hv) as [H1 H2]. unfold at_place. rewrite E1, E2, E3. by apply P.
  - by rewrite E1.
  - by rewrite E1.
  - unfold under_way. by rewrite E1, E2, E4, E5.
Qed.

Lemma StartConnect_winv w a s s' : winv (push [StartConnect w] s) -> run_StartConnect w a s = Some s' -> winv s'.
Proof.
  intros [A P Pe D At]. assert (account s) as A0 by (by apply (account_eq (push [StartConnect w] s))).
  assert (forall v, live s v -> v <> w -> at_place s v) as P0.
  { intros v Hv Hn. destruct (place_pop _ s v (P v Hv)) as [H|[[= ->]|(ws & H & _)]]; done. }
  assert (bConnectPending (mgr s) = true -> under_way s (iConnectGeneration (mgr s))) as At0.
  { intros Hp. destruct (way_pop _ s _ (At Hp)) as [H|[[? H]|[H|H]]]; done. }
  unfold run_StartConnect. destruct (stopping s || bServiceDown (mgr s)) eqn:E0; [intros [= <-]; by apply finish_one|].
  destruct (negb (bConnectPending (mgr s)) && _) eqn:E1; [intros [= <-]; by apply finish_one|].
  apply orb_false_iff in E0 as [_ Ed]. set (ws := reverse _ ++ [w]).
  assert (forall s' ts, account s' -> (forall v, live s' v -> live s v) -> posted s' = posted s -> stack s' = ts ++ stack s ->
    m_vConnectWaiters (mgr s') = ws -> bConnectPending (mgr s') = true -> bServiceDown (mgr s') = false ->
    under_way s' (iConnectGeneration (mgr s')) -> winv s') as Hgo.
  { intros z ts Az Lz Z1 Z2 Z3 Z4 Z5 Z6. split; [done| |done|by rewrite Z5|done].
    intros v Hv. apply Lz in Hv. destruct (decide (v = w)) as [->|Hn].
    - right; right; left. rewrite Z3. apply elem_of_app. right. by apply list_elem_of_singleton.
    - unfold at_place. rewrite Z1, Z2, Z3. destruct (P0 v Hv Hn) as [H|[H|[H|(l & H & Hl)]]].
      + by left.
      + right; left. apply elem_of_app. by right.
      + right; right; left. apply elem_of_app. left. by apply kept_waits.
      + right; right; right. exists l. split; [|done]. apply elem_of_app. by right. }
  destruct (bConnectPending (mgr s)) eqn:Ep.
  - intros [= <-]. apply (Hgo _ []); try done; [by apply (account_eq s)|]. apply (way_more s _ []); auto.
  - destruct a; try done. destruct (Resolve _ _ _) as [r|]; intros [= <-].
    + apply (Hgo _ [OnResolved (iConnectGeneration (mgr s) + 1) (Host <$> r)]); try done; [by apply (account_eq s)|].
      right; right; left. eexists. by left.
    + apply (Hgo _ []); try done; [by apply (account_eq s)|]. left. cbn. apply elem_of_app. right. by apply list_elem_of_singleton.
Qed.

Lemma finished_all b t ts s s' m : winv (push [t] s) -> (forall v, t <> StartConnect v) -> (forall ws, t <> FinishTrue ws) ->
  m_vConnectWaiters m = m_vConnectWaiters (mgr s) -> bConnectPending m = false -> s' = push ts (FinishConnectWaiters b (set_mgr m s)) -> winv s'.
Proof.
  intros W T1 T2 Em Eb ->. destruct (popped t s W T1 T2) as [A P].
  assert (account (set_mgr m s)) as A1 by (by apply (account_eq s)).
  destruct (FinishConnectWaiters_spec b _ A1) as ([E1 E2 E3 E4 E5 E6] & A' & L). set (z := FinishConnectWaiters b (set_mgr m s)) in *.
  apply (settled s _ ts); try done.
  - by apply (account_eq z).
  - intros v Hv. destruct (L v Hv) as [H1 H2]. cbn in H2. by rewrite Em in H2.
  - cbn. by rewrite E2.
  - cbn. by rewrite E1.
  - cbn. by rewrite E1.
Qed.

Lemma push_nil s : push [] s = s.
Proof. by destruct s. Qed.

Lemma AbortSession_winv g s : winv (push [AbortSession g] s) -> winv (run_AbortSession g s).
Proof.
  intros W. unfold run_AbortSession. destruct (negb (g =? iConnectGeneration (mgr s)) || negb (bConnectPending (mgr s))) eqn:E.
  - apply (stale _ g s W); [auto|]. destruct (Z.eqb_spec g (iConnectGeneration (mgr s))), (bConnectPending (mgr s)); auto.
  - apply (winv_sessions _ _ (push [Callback] (FinishConnectWaiters false (set_mgr (set_attempt (m_vConnectWaiters (mgr s)) g false (mgr s)) s)))).
    eapply (finished_all false (AbortSession g) [Callback] s); [exact W|discriminate|discriminate| | |reflexivity]; reflexivity.
Qed.

Lemma OnResolved_winv g r a s s' : winv (push [OnResolved g r] s) -> run_OnResolved g r a s = Some s' -> winv s'.
Proof.
  intros W. unfold run_OnResolved. destruct (negb (g =? iConnectGeneration (mgr s)) || negb (bConnectPending (mgr s))) eqn:E.
  - intros [= <-]. apply (stale _ g s W); [eauto|]. destruct (Z.eqb_spec g (iConnectGeneration (mgr s))), (bConnectPending (mgr s)); auto.
  - apply orb_false_iff in E as [E1 E2]. apply negb_false_iff in E1. apply Z.eqb_eq in E1 as ->. apply negb_false_iff in E2.
    destruct (popped _ s W) as [A P]; [done..|].
    assert (forall ts x y m z, mgr z = m -> waits z = waits s -> expired z = expired s -> suspended z = suspended s -> scheduled z = scheduled s ->
      posted z = posted s -> stack z = ts ++ stack s -> resolving z = x -> connecting z = y ->
      m_vConnectWaiters m = m_vConnectWaiters (mgr s) -> bConnectPending m = bConnectPending (mgr s) -> bServiceDown m = bServiceDown (mgr s) ->
      under_way z (iConnectGeneration m) -> winv z) as Hgo.
    { intros ts x y m z <- Z1 Z2 Z3 Z4 Z5 Z6 _ _ M1 M2 M3 U. apply (moved _ s z ts W); try done; [by apply (account_eq s)|by intros v; apply live_eq]. }
    destruct (bServiceDown (mgr s)) eqn:Ed; [|destruct r as [[|x h]|]].
    1, 2, 4: intros [= <-]; apply (Hgo [AbortSession (iConnectGeneration (mgr s))] (resolving s) (connecting s) (mgr s)); try done;
      do 4 right; by left.
    destruct (HasEndpoint _ _) eqn:Eh.
    + intros [= <-]. rewrite <- (push_nil (FinishConnectWaiters _ _)).
      refine (finished_all true _ [] s _ (set_attempt (m_vConnectWaiters (mgr s)) (iConnectGeneration (mgr s)) false _) W _ _ _ _ eq_refl); done.
    + destruct a; intros [= <-]; cbn [mgr set_mgr].
      * eapply (Hgo [AbortSession (iConnectGeneration (mgr s))]); try reflexivity; [exact Ed|]. do 4 right. by left.
      * eapply (Hgo []); try reflexivity; [exact Ed|]. right; left. cbn. apply elem_of_app. right. by apply list_elem_of_singleton.
      * eapply (Hgo [CompleteConnect (iConnectGeneration (mgr s))]); try reflexivity; [exact Ed|]. do 3 right. left. by left.
      * eapply (Hgo [AbortSession (iConnectGeneration (mgr s)); AbortSession (iConnectGeneration (mgr s))]); try reflexivity; [exact Ed|].
        do 4 right. by left.
Qed.

Lemma CompleteConnect_winv g s : winv (push [CompleteConnect g] s) -> winv (run_CompleteConnect g s).
Proof.
  intros W. unfold run_CompleteConnect. destruct (negb (g =? iConnectGeneration (mgr s)) || negb (bConnectPending (mgr s)) || bServiceDown (mgr s)) eqn:E.
  - apply (stale _ g s W); [auto|]. pose proof (w_down _ W) as D. cbn in D.
    destruct (Z.eqb_spec g (iConnectGeneration (mgr s))), (bConnectPending (mgr s)), (bServiceDown (mgr s)); auto.
  - destruct (popped _ s W) as [A P]; [done..|]. split; cbn.
    + by apply (account_eq s).
    + intros v Hv. unfold at_place. cbn. destruct (P v) as [H|[H|[H|(ws & H & Hw)]]]; [by apply (live_eq s) in Hv|tauto| | |].
      * right; left. by do 2 right.
      * right; right; right. eexists. split; [right; by left|done].
      * right; right; right. exists ws. split; [by do 2 right|done].
    + done.
    + done.
    + done.
Qed.

(** Finishing first and starting a new generation after it comes to the same. *)
Lemma finished_first b t ts s m : winv (push [t] s) -> (forall v, t <> StartConnect v) -> (forall ws, t <> FinishTrue ws) ->
  m_vConnectWaiters m = [] -> bConnectPending m = false -> winv (push ts (set_mgr m (FinishConnectWaiters b s))).
Proof.
  intros W T1 T2 Em Eb. destruct (popped t s W T1 T2) as [A P].
  destruct (FinishConnectWaiters_spec b _ A) as ([E1 E2 E3 E4 E5 E6] & A' & L). set (z := FinishConnectWaiters b s) in *.
  apply (settled s _ ts); try done; [by apply (account_eq z)|]. cbn. by rewrite E2.
Qed.

Lemma ApplyService_winv h p b w s : winv (push [ApplyService h p b w] s) -> winv (run_ApplyService h p b w s).
Proof.
  intros W. assert (winv s) as W0.
  { apply (moved _ s s [] W); try done; [by destruct (popped _ s W) as [A P]|]. intros Hp.
    destruct (way_pop _ s _ (w_attempt _ W Hp)) as [H|[[? H]|[H|H]]]; done. }
  unfold run_ApplyService. destruct bNamed; [|done]. cbn [negb]. destruct b; cbn [negb].
  - set (s1 := set_mgr (set_service (bServiceDown (mgr s)) true (mgr s)) s).
    assert (winv s1) as W1 by (destruct W0 as [[Q A] P Pe D At]; by repeat split).
    assert (winv (push [ApplyService h p true w] s1)) as W2 by (destruct W as [[Q A] P Pe D At]; by repeat split).
    destruct (_ && _); [done|]. by apply (finished_first false (ApplyService h p true w)).
  - destruct (_ || _); [done|]. by apply (finished_first false (ApplyService h p false w)).
Qed.

Lemma push_winv ts s : winv s -> winv (push ts s).
Proof.
  intros [A P Pe D At]. split; [by apply (account_eq s)| |done|done|].
  - intros v Hv. by apply (place_more s _ ts), P.
  - intros Hp. by apply (way_more s _ ts), At.
Qed.

Lemma pop_winv t s : winv (push [t] s) -> (forall v, t <> StartConnect v) -> (forall ws, t <> FinishTrue ws) ->
  (forall g r, t <> OnResolved g r /\ t <> CompleteConnect g /\ t <> AbortSession g) -> winv s.
Proof.
  intros W T1 T2 T3. apply (moved t s s [] W); try done; [by destruct (popped _ s W)|]. intros Hp.
  destruct (T3 (iConnectGeneration (mgr s)) None) as (_ & H2 & H3).
  destruct (way_pop _ s _ (w_attempt _ W Hp)) as [H|[[r H]|[H|H]]]; [done| |done|done]. by destruct (T3 (iConnectGeneration (mgr s)) r) as [H1 _].
Qed.

Lemma CancelConnect_winv s : winv s -> winv (CancelConnect s).
Proof.
  intros W. unfold CancelConnect. destruct (bConnectPending (mgr s)) eqn:Ep; [|done].
  rewrite <- (push_nil (FinishConnectWaiters _ _)).
  refine (finished_all false Callback [] s _ (set_attempt (m_vConnectWaiters (mgr s)) _ false _) (push_winv _ _ W) _ _ _ _ eq_refl); done.
Qed.

Lemma new_wait_account w s : waits s !! w = None -> account s -> account (new_wait w s).
Proof.
  intros E [Q P]. split; cbn.
  - intros v x. destruct (decide (v = w)) as [->|Hn]; [rewrite lookup_insert_eq; by intros [= <-]|rewrite lookup_insert_ne by done; apply Q].
  - rewrite (waiting_new _ _ _ E). done.
Qed.

Lemma new_wait_live w v s : live (new_wait w s) v -> v <> w -> live s v.
Proof. intros (x & Ev & H) Hn. cbn in Ev. rewrite lookup_insert_ne in Ev by done. by exists x. Qed.

(** A wait that has just begun has no place until BeginConnect gives it one. *)
Lemma BeginConnect_winv b w s : account s -> (forall v, live s v -> v <> w -> at_place s v) ->
  (m_vConnectWaiters (mgr s) <> [] -> bConnectPending (mgr s) = true) -> (bServiceDown (mgr s) = true -> bConnectPending (mgr s) = false) ->
  (bConnectPending (mgr s) = true -> under_way s (iConnectGeneration (mgr s))) -> winv (BeginConnect b w s).
Proof.
  intros A P Pe D At. unfold BeginConnect. destruct (stopping s); [by apply finish_one|]. destruct b.
  - split; [by apply (account_eq s)| |done|done|].
    + intros v Hv. destruct (decide (v = w)) as [->|Hn]; [right; left; by left|].
      apply (place_more s _ [StartConnect w]); try done. apply P; [by apply (live_eq s) in Hv|done].
    + intros Hp. apply (way_more s _ [StartConnect w]); auto.
  - split; [by apply (account_eq s)| |done|done|done].
    intros v Hv. destruct (decide (v = w)) as [->|Hn]; [left; cbn; apply elem_of_app; right; by apply list_elem_of_singleton|].
    destruct (P v) as [H|H]; [by apply (live_eq s) in Hv|done| |by right]. left. cbn. apply elem_of_app. by left.
Qed.

Lemma StartClient_winv b w s : winv s -> waits s !! w = None -> winv (BeginConnect b w (new_wait w s)).
Proof.
  intros [A P Pe D At] E. apply BeginConnect_winv; [by apply new_wait_account| |done|done|done].
  intros v Hv Hn. by apply P, (new_wait_live w).
Qed.

(** Forget, and the awaiter dropped at the end of ApplyService. *)
Lemma expire_account w s : (forall x, waits s !! w = Some x -> vWaiters x = []) -> account s -> account (expire w s).
Proof.
  intros Hw [Q P]. split; [|done]. intros v x Ev [Hd|He]; [by apply (Q v); auto|]. cbn in He. apply elem_of_union in He as [He|He].
  - apply elem_of_singleton in He as ->. by apply Hw.
  - apply (Q v); auto.
Qed.

Lemma expire_live w v s : live (expire w s) v -> live s v.
Proof. intros (x & Ev & Hd & He). cbn in He. apply not_elem_of_union in He as [_ He]. by exists x. Qed.

Lemma expire_winv w s : (forall x, waits s !! w = Some x -> vWaiters x = []) -> winv s -> winv (expire w s).
Proof.
  intros Hw [A P Pe D At]. split; [by apply expire_account| |done|done|done]. intros v Hv. by apply expire_live, P in Hv.
Qed.

Lemma Suspend_winv w h s : winv s -> w ∉ expired s -> winv (Suspend w h s).
Proof.
  intros [[Q A] P Pe D At] He. unfold Suspend. destruct (waits s !! w) as [x|] eqn:E; [|by split]. destruct (bDone x) eqn:Ed; [by split|].
  split; [|..|done|done|done].
  - split; cbn.
    + intros v y. destruct (decide (v = w)) as [->|Hn]; [|rewrite lookup_insert_ne by done; apply Q].
      rewrite lookup_insert_eq. intros [= <-]. cbn. by intros [?|?].
    + destruct (waiting_update _ _ _ (mkWait false (bResult x) (vWaiters x ++ [h])) E) as [H1 H2].
      rewrite H2, A, H1. cbn. rewrite <- !app_assoc. f_equiv. f_equiv. by rewrite Permutation_app_comm.
  - intros v (y & Ev & Hd & Hx). cbn in *. destruct (decide (v = w)) as [->|Hn]; [apply P; by exists x|].
    rewrite lookup_insert_ne in Ev by done. apply P. by exists y.
Qed.

Lemma exec_winv a t s s' : winv (push [t] s) -> exec a t s = Some s' -> winv s'.
Proof.
  intros W. destruct t; cbn [exec].
  - by apply StartConnect_winv.
  - by apply OnResolved_winv.
  - intros [= <-]. by apply CompleteConnect_winv.
  - intros [= <-]. by apply AbortSession_winv.
  - intros [= <-]. destruct W as [A P Pe D At]. assert (account s) as A0 by (by apply (account_eq (push [FinishTrue ws] s))).
    destruct (finish_all_spec true ws s A0) as ([E1 E2 E3 E4 E5 E6] & A' & L). split; [done| |by rewrite E1|by rewrite E1|].
    + intros v Hv. destruct (L v Hv) as [H1 H2]. unfold at_place. rewrite E1, E2, E3.
      destruct (place_pop _ s v (P v H1)) as [H|[H|(l & [= <-] & H)]]; done.
    + rewrite E1. intros Hp. unfold under_way. rewrite E2, E4, E5. by destruct (way_pop _ s _ (At Hp)) as [H|[[? H]|[H|H]]].
  - intros [= <-]. by apply ApplyService_winv.
  - assert (winv s) as W0 by (by apply (pop_winv (CloseSessions l))).
    destruct l as [|sid l]; [by intros [= <-]|]. destruct (CloseSession sid s) as [b s1] eqn:E. intros [= <-].
    apply push_winv. change s1 with (snd (b, s1)). rewrite <- E. by apply CloseSession_winv.
  - assert (winv s) as W0 by (by apply (pop_winv (Reconnect sEndpointLocal w))).
    destruct (HasEndpoint _ _); [by intros [= <-]|]. destruct (waits s !! w) eqn:E; [done|]. intros [= <-].
    destruct W0 as [A P Pe D At]. apply BeginConnect_winv; [|..|done|done|done].
    + apply expire_account; [intros x; cbn; rewrite lookup_insert_eq; by intros [= <-]|]. by apply new_wait_account.
    + intros v Hv Hn. apply P. by apply expire_live, new_wait_live in Hv.
  - destruct a; try done.
    + destruct (waits _ !! w) eqn:E; [done|]. intros [= <-]. by apply StartClient_winv.
    + destruct (CloseSession sid _) as [b s1] eqn:E. intros [= <-]. assert (winv s1); [|by destruct b; [apply push_winv|]].
      change s1 with (snd (b, s1)). rewrite <- E. by apply CloseSession_winv.
    + intros [= <-]. by apply CancelConnect_winv.
    + intros [= <-]. by apply (pop_winv Callback).
Qed.

Lemma remove_one_in g x l : x ∈ l -> x = g \/ x ∈ remove_one g l.
Proof.
  induction l as [|y l IH]; [set_solver|]. intros H. apply elem_of_cons in H. cbn. destruct (Z.eqb_spec y g) as [->|Hn].
  - destruct H as [->|H]; auto.
  - destruct H as [->|H]; [right; by left|]. destruct (IH H); [auto|]. right. by right.
Qed.

Lemma do_event_winv e s s' : winv s -> do_event e s = Some s' -> winv s'.
Proof.
  intros W. destruct e; cbn [do_event].
  - destruct (stack s) as [|t ts] eqn:E; [done|]. apply exec_winv. destruct s; cbn in *. by subst.
  - destruct (waits s !! w) eqn:E; [done|]. intros [= <-]. by apply StartClient_winv.
  - destruct (posted s) as [|w ws] eqn:E; [done|]. destruct (idle s) eqn:Ei; [|done]. intros [= <-].
    destruct W as [A P Pe D At]. split; [by apply (account_eq s)| |done|done|].
    + intros v Hv. unfold at_place. cbn. destruct (P v) as [H|[H|[H|(l & H & Hl)]]]; [by apply (live_eq s) in Hv| |..].
      * rewrite E in H. apply elem_of_cons in H as [->|H]; [right; left; by left|by left].
      * right; left. by right.
      * by right; right; left.
      * right; right; right. exists l. split; [by right|done].
    + intros Hp. by apply (way_more s _ [StartConnect w]), At.
  - destruct (_ && _); [|done]. intros [= <-]. destruct W as [A P Pe D At]. split; [by apply (account_eq s)| |done|done|].
    + intros v Hv. by apply (place_more s _ [OnResolved g r]), P.
    + intros Hp. destruct (At Hp) as [H|H]; [|by apply (way_more (set_jobs (remove_one g (resolving s)) (connecting s) s) _ [OnResolved g r]); auto; right].
      cbn. destruct (remove_one_in g _ _ H) as [<-|H1]; [|by left]. right; right; left. exists r. by left.
  - destruct (_ && _); [|done]. intros [= <-]. destruct W as [A P Pe D At]. split; [by apply (account_eq s)| |done|done|].
    + intros v Hv. by apply (place_more s _ [if bOk then CompleteConnect g else AbortSession g]), P.
    + intros Hp. destruct (At Hp) as [H|[H|H]]; [by left| |].
      * cbn. destruct (remove_one_in g _ _ H) as [<-|H1]; [|right; by left]. destruct bOk; [do 3 right; left; by left|do 4 right; by left].
      * apply (way_more (set_jobs (resolving s) (remove_one g (connecting s)) s) _ [if bOk then CompleteConnect g else AbortSession g]); auto.
        by right; right.
  - destruct (idle s); [|done]. intros [= <-]. by apply push_winv.
  - destruct (idle s); [|done]. intros [= <-]. by apply CancelConnect_winv.
  - intros [= <-]. by apply CloseSession_winv.
  - destruct (decide (w ∈ expired s)); [done|]. destruct (waits s !! w); [|done]. intros [= <-]. by apply Suspend_winv.
  - destruct (waits s !! w) as [[b1 b2 [|h l]]|] eqn:E; try done. intros [= <-]. apply expire_winv; [|done]. intros x. rewrite E. by intros [= <-].
  - intros [= <-]. destruct W as [[Q A] P Pe D At]. by repeat split.
Qed.

Lemma run_winv es : forall s s', winv s -> run es s = Some s' -> winv s'.
Proof.
  induction es as [|e es IH]; intros s s' W; cbn [run]; [by intros [= <-]|].
  destruct (do_event e s) as [s1|] eqn:E; [|done]. apply IH. by eapply do_event_winv.
Qed.

Lemma start_winv h p : winv (start h p).
Proof. split; [by split|intros v (x & Ev & _); cbn in Ev; by rewrite lookup_empty in Ev|done..]. Qed.

Lemma waiting_none m : (forall w x, m !! w = Some x -> vWaiters x = []) -> waiting m = [].
Proof.
  intros H. unfold waiting. assert (Forall (fun x : Z * ConnectWait => vWaiters (snd x) = []) (map_to_list m)) as F.
  { apply Forall_forall. intros [w x] Hx. apply elem_of_map_to_list in Hx. by eapply H. }
  induction F as [|[w x] l Hx _ IH]; [done|]. cbn in *. by rewrite Hx.
Qed.

(** C11: no coroutine waiting for StartClient is forgotten or woken twice:
    in every run those that began to wait are those woken, once each, and those still
    waiting; and when the poll thread is at rest with no StartConnect queued and no
    lookup and no socket of the present attempt under way, none is waiting: however
    attempts fail, are cancelled, superseded by a move of the service or by callbacks
    that start new ones. *)
Theorem connects_resumed h p es s : run es (start h p) = Some s ->
  suspended s ≡ₚ scheduled s ++ waiting (waits s) /\
  (stack s = [] -> posted s = [] -> iConnectGeneration (mgr s) ∉ resolving s -> iConnectGeneration (mgr s) ∉ connecting s ->
    suspended s ≡ₚ scheduled s).
Proof.
  intros E. destruct (run_winv es _ _ (start_winv h p) E) as [[Q A] P Pe D At]. split; [done|]. intros Hs Hp Hr Hc.
  rewrite A, waiting_none, app_nil_r; [done|]. intros w x Ew.
  destruct (bDone x) eqn:Ed; [by apply (Q w); auto|]. destruct (decide (w ∈ expired s)); [by apply (Q w); auto|]. exfalso.
  assert (at_place s w) as H by (apply P; by exists x). unfold at_place in H. rewrite Hs, Hp in H.
  destruct H as [H|[H|[H|(ws & H & _)]]]; [set_solver|set_solver| |set_solver].
  assert (under_way s (iConnectGeneration (mgr s))) as U by (apply At, Pe; by destruct (m_vConnectWaiters (mgr s)); [set_solver|]).
  unfold under_way in U. rewrite Hs in U. destruct U as [U|[U|[[r U]|[U|U]]]]; set_solver.
Qed.

(** ** The table of sessions *)

Context {L : InetLaws I}.

Definition single (m : manager) : Prop := forall i j, is_Some (mSessionMap m !! i) -> is_Some (mSessionMap m !! j) -> i = j.

(** Every session goes to the present address, and none exists during an attempt or
    while the service is down. *)
Record neat (m : manager) : Prop := mkNeat {
  n_single : single m;
  n_table : forall sid e, mSessionMap m !! sid = Some e ->
    e = Endpoint (sIpAddress m) (sPort m) /\ e = sEndpoint m /\ bConnectPending m = false /\ bServiceDown m = false;
  n_address : bServiceDown m = false -> sEndpoint m = Endpoint (sIpAddress m) (sPort m);
  n_down : bServiceDown m = true -> bConnectPending m = false
}.

(** What CloseSessions leaves. *)
Definition after (l : list Z) (m : manager) : manager := set_sessions (foldr delete (mSessionMap m) l) (iCurrentSessionId m) m.

Record tidy (s : state) : Prop := mkTidy {
  t_single : single (mgr s);
  t_neat : neat (match stack s with CloseSessions l :: _ => after l (mgr s) | _ => mgr s end)
}.

Lemma neat_sub m M i : neat m -> M ⊆ mSessionMap m -> neat (set_sessions M i m).
Proof.
  intros [S T A D] H. split; cbn; [|..|done|done].
  - intros x y Hx Hy. cbn in *. apply S; by (eapply lookup_weaken_is_Some; [|exact H]).
  - intros sid e E. apply (T sid). by eapply lookup_weaken.
Qed.

Lemma foldr_delete_sub (l : list Z) (M : gmap Z text) : foldr delete M l ⊆ M.
Proof. induction l as [|x l IH]; [done|]. cbn. etrans; [apply delete_subseteq|done]. Qed.

Lemma neat_tidy s : neat (mgr s) -> tidy s.
Proof.
  intros N. split; [by destruct N|]. destruct (stack s) as [|[] ?]; try done. apply neat_sub; [done|]. apply foldr_delete_sub.
Qed.

Lemma tidy_eq s s' : mgr s' = mgr s -> stack s' = stack s -> tidy s -> tidy s'.
Proof. intros E1 E2 [S N]. split; by rewrite ?E2, E1. Qed.

Lemma neat_attempt ws g p m : neat m -> (p = true -> mSessionMap m = ∅ /\ bServiceDown m = false) -> neat (set_attempt ws g p m).
Proof.
  intros [S T A D] H. split; cbn; [done| |done|].
  - intros sid e E. destruct (T sid e E) as (E1 & E2 & E3 & E4). split_and!; try done. destruct p; [|done].
    destruct (H eq_refl) as [H1 _]. by rewrite H1 in E.
  - intros Hd. destruct p; [|done]. destruct (H eq_refl). congruence.
Qed.

Lemma HasEndpoint_in e m : HasEndpoint e m = true <-> exists sid, mSessionMap m !! sid = Some e.
Proof.
  unfold HasEndpoint. rewrite existsb_exists. split.
  - intros ([sid x] & Hx & He). apply bytes_eqb_eq in He as <-. exists sid. by apply elem_of_map_to_list, list_elem_of_In.
  - intros [sid E]. exists (sid, e). split; [by apply list_elem_of_In, elem_of_map_to_list|]. by apply bytes_eqb_eq.
Qed.

Lemma no_endpoint_empty m : neat m -> HasEndpoint (Endpoint (sIpAddress m) (sPort m)) m = false -> mSessionMap m = ∅.
Proof.
  intros N H. apply map_eq. intros sid. rewrite lookup_empty. destruct (_ !! sid) as [e|] eqn:E; [|done]. exfalso.
  destruct (n_table _ N sid e E) as [-> _]. rewrite <- not_true_iff_false, HasEndpoint_in in H. eauto.
Qed.

Lemma pending_empty m : neat m -> bConnectPending m = true -> mSessionMap m = ∅.
Proof.
  intros N H. apply map_eq. intros sid. rewrite lookup_empty. destruct (_ !! sid) as [e|] eqn:E; [|done].
  destruct (n_table _ N sid e E) as (_ & _ & ? & _). congruence.
Qed.

Lemma FinishConnectWaiters_mgr b s : mgr (FinishConnectWaiters b s) = set_attempt [] (iConnectGeneration (mgr s)) (bConnectPending (mgr s)) (mgr s).
Proof. unfold FinishConnectWaiters. by rewrite (same_mgr _ _ (finish_all_same _ _ _)). Qed.

Lemma Finish_mgr b w s : mgr (Finish b w s) = mgr s.
Proof. apply (same_mgr _ _ (Finish_same b w s)). Qed.

Lemma BeginConnect_neat b w s : neat (mgr s) -> neat (mgr (BeginConnect b w s)).
Proof. intros N. unfold BeginConnect. destruct (stopping s); [by rewrite Finish_mgr|by destruct b]. Qed.

Lemma CancelConnect_neat s : neat (mgr s) -> neat (mgr (CancelConnect s)).
Proof.
  intros N. unfold CancelConnect. destruct (bConnectPending (mgr s)); [|done]. rewrite FinishConnectWaiters_mgr.
  exact (neat_attempt [] (iConnectGeneration (mgr s) + 1) false _ N ltac:(discriminate)).
Qed.

Lemma StartConnect_neat w a s s' : neat (mgr s) -> run_StartConnect w a s = Some s' -> neat (mgr s').
Proof.
  intros N. unfold run_StartConnect. destruct (stopping s || bServiceDown (mgr s)) eqn:Ed; [intros [= <-]; by rewrite Finish_mgr|].
  destruct (negb (bConnectPending (mgr s)) && _) eqn:Eh; [intros [= <-]; by rewrite Finish_mgr|]. apply orb_false_iff in Ed as [_ Ed].
  set (ws := _ ++ [w]). assert (forall g, neat (set_attempt ws g true (mgr s))) as Hgo.
  { intros g. apply neat_attempt; [done|]. intros _. split; [|done]. destruct (bConnectPending (mgr s)) eqn:Ep; [by apply pending_empty|].
    by apply no_endpoint_empty. }
  destruct (bConnectPending (mgr s)); [intros [= <-]; apply Hgo|]. destruct a; try done. destruct (Resolve _ _ _); intros [= <-]; apply Hgo.
Qed.

Lemma AbortSession_neat g s : neat (mgr s) -> neat (mgr (run_AbortSession g s)).
Proof.
  intros N. unfold run_AbortSession. destruct (_ || _); [done|]. cbn [mgr push set_stack set_mgr]. rewrite FinishConnectWaiters_mgr.
  refine (neat_sub (set_attempt [] g false (mgr s)) _ _ _ _); [by apply neat_attempt|done].
Qed.

Lemma neat_address h m : neat m -> mSessionMap m = ∅ -> neat (set_address h (sPort m) (Endpoint h (sPort m)) m).
Proof. intros [S T A D] E. split; cbn; [done| |done|done]. intros sid e. cbn. by rewrite E. Qed.

Lemma OnResolved_neat g r a s s' : neat (mgr s) -> run_OnResolved g r a s = Some s' -> neat (mgr s').
Proof.
  intros N. unfold run_OnResolved. destruct (_ || _) eqn:E; [by intros [= <-]|]. apply orb_false_iff in E as [_ Ep]. apply negb_false_iff in Ep.
  destruct (bServiceDown (mgr s)) eqn:Ed; [by intros [= <-]|]. destruct r as [[|x h]|]; [by intros [= <-]| |by intros [= <-]].
  assert (neat (set_address (x :: h) (sPort (mgr s)) (Endpoint (x :: h) (sPort (mgr s))) (mgr s))) as N1 by (by apply neat_address, pending_empty).
  destruct (HasEndpoint _ _).
  - intros [= <-]. rewrite FinishConnectWaiters_mgr. exact (neat_attempt [] g false _ N1 ltac:(discriminate)).
  - destruct a; intros [= <-]; exact N1.
Qed.

Lemma CompleteConnect_neat g s : neat (mgr s) -> neat (mgr (run_CompleteConnect g s)).
Proof.
  intros N. unfold run_CompleteConnect. destruct (_ || _) eqn:E; [done|]. apply orb_false_iff in E as [E Ed]. apply orb_false_iff in E as [_ Ep].
  apply negb_false_iff in Ep. pose proof (pending_empty _ N Ep) as E0. destruct N as [S T A D]. split; cbn.
  - intros i j. cbn. rewrite E0, !lookup_insert_is_Some, !lookup_empty. intros [<-|[_ [? [=]]]] [<-|[_ [? [=]]]]. done.
  - intros sid e. cbn. rewrite E0. intros [[<- <-]|[_ He]]%lookup_insert_Some; [|done]. split_and!; try done. symmetry. auto.
  - auto.
  - done.
Qed.

Lemma closed_all l M : (forall sid, is_Some (M !! sid) -> sid ∈ l) -> foldr delete M l = (∅ : gmap Z text).
Proof.
  intros H. apply map_eq. intros sid. rewrite lookup_empty. destruct (decide (sid ∈ l)) as [Hin|Hn]; [by apply lookup_foldr_delete|].
  rewrite lookup_foldr_delete_not_elem_of by done. destruct (M !! sid) eqn:E; [|done]. destruct Hn. apply H. by rewrite E.
Qed.

Lemma sessions_to_all e m sid : e <> [] -> mSessionMap m !! sid = Some e -> sid ∈ sessions_to e m.
Proof.
  intros He E. unfold sessions_to. destruct e as [|x e]; [done|]. rewrite merge_sort_Permutation. apply list_elem_of_In, in_map_iff.
  exists (sid, x :: e). split; [done|]. apply filter_In. split; [by apply list_elem_of_In, elem_of_map_to_list|]. by apply bytes_eqb_eq.
Qed.

Lemma closing_tidy l ts m z : neat m -> mSessionMap (mgr z) = mSessionMap m -> (forall sid, is_Some (mSessionMap m !! sid) -> sid ∈ l) ->
  (bServiceDown (mgr z) = false -> sEndpoint (mgr z) = Endpoint (sIpAddress (mgr z)) (sPort (mgr z))) -> bConnectPending (mgr z) = false ->
  stack z = CloseSessions l :: ts -> tidy z.
Proof.
  intros [S _ _ _] Em Hl Ha Hp Es. split; [unfold single; by rewrite Em|]. rewrite Es.
  assert (foldr delete (mSessionMap (mgr z)) l = ∅) as E0 by (rewrite Em; by apply closed_all).
  split; [|..|exact Ha|done]; unfold single; cbn; rewrite E0.
  - intros i j [e Hi]. done.
  - intros sid e. done.
Qed.

Lemma ApplyService_tidy h p b w s : neat (mgr s) -> tidy (run_ApplyService h p b w s).
Proof.
  intros N. unfold run_ApplyService. destruct bNamed; [|by apply neat_tidy]. cbn [negb].
  pose proof N as [S T A D]. destruct b; cbn [negb].
  - destruct (negb (bServiceDown (mgr s)) && _) eqn:E; [apply neat_tidy; by destruct N|].
    eapply closing_tidy; [exact N| | | |reflexivity|reflexivity]; [| |done].
    + cbn -[FinishConnectWaiters]. by rewrite FinishConnectWaiters_mgr.
    + intros sid [e Hs]. destruct (T sid e Hs) as (E1 & E2 & E3 & E4). rewrite E4 in E. cbn in E. apply negb_false_iff, negb_true_iff in E.
      cbn -[FinishConnectWaiters sessions_to]. rewrite E. apply sessions_to_all; [rewrite A by done; apply Endpoint_nonempty|]. cbn -[FinishConnectWaiters]. rewrite FinishConnectWaiters_mgr. by rewrite <- E2.
  - destruct (_ || _) eqn:E; [by apply neat_tidy|].
    eapply closing_tidy; [exact N| | | |reflexivity|reflexivity]; [| |done].
    + cbn -[FinishConnectWaiters]. by rewrite FinishConnectWaiters_mgr.
    + intros sid [e Hs]. destruct (T sid e Hs) as (E1 & E2 & E3 & E4).
      cbn -[FinishConnectWaiters sessions_to]. apply sessions_to_all; [rewrite A by done; apply Endpoint_nonempty|]. cbn -[FinishConnectWaiters]. rewrite FinishConnectWaiters_mgr. by rewrite <- E2.
Qed.

Lemma CloseSession_mgr sid s b s1 : CloseSession sid s = (b, s1) ->
  mgr s1 = set_sessions (delete sid (mSessionMap (mgr s))) (iCurrentSessionId (mgr s)) (mgr s) /\ stack s1 = stack s /\
  (b = true -> is_Some (mSessionMap (mgr s) !! sid)).
Proof.
  unfold CloseSession. destruct (mSessionMap (mgr s) !! sid) eqn:E; intros [= <- <-]; [done|].
  rewrite delete_id by done. split_and!; [by destruct (mgr s)|done|done].
Qed.

(** The loop of CloseEndpoint takes its next session. *)
Lemma next_tidy sid l s : tidy (push [CloseSessions (sid :: l)] s) ->
  let (b, s1) := CloseSession sid s in tidy (push (if b then [Callback; CloseSessions l] else [CloseSessions l]) s1).
Proof.
  intros [S N]. cbn in *. destruct (CloseSession sid s) as [b s1] eqn:E. destruct (CloseSession_mgr _ _ _ _ E) as (Em & Es & Hb).
  destruct N as [_ T A D]. unfold after in *. cbn in *. rewrite delete_foldr_delete in T.
  assert (single (mgr s1)) as S1.
  { rewrite Em. intros i j Hi Hj. cbn in Hi, Hj. apply S; by (eapply lookup_weaken_is_Some; [|apply (delete_subseteq _ sid)]). }
  destruct b.
  - assert (mSessionMap (mgr s1) = ∅) as E0.
    { rewrite Em. cbn. apply map_eq. intros i. rewrite lookup_empty. destruct (decide (i = sid)) as [->|Hn]; [apply lookup_delete_eq|].
      rewrite lookup_delete_ne by done. destruct (mSessionMap (mgr s) !! i) eqn:Ei; [|done]. destruct Hn. apply S; [by rewrite Ei|auto]. }
    split; cbn; [done|]. split; [done|intros i e; by rewrite E0|..]; rewrite Em; done.
  - split; cbn; [done|]. unfold after. rewrite Em. cbn. split; cbn; [|exact T|exact A|exact D].
    intros i j Hi Hj. cbn in Hi, Hj. apply S; (eapply lookup_weaken_is_Some; [|etrans; [apply foldr_delete_sub|apply (delete_subseteq _ sid)]]); done.
Qed.

Lemma exec_tidy a t s s' : tidy (push [t] s) -> exec a t s = Some s' -> tidy s'.
Proof.
  intros H. destruct t; cbn [exec].
  - intros E. apply neat_tidy. eapply StartConnect_neat; [|exact E]. apply H.
  - intros E. apply neat_tidy. eapply OnResolved_neat; [|exact E]. apply H.
  - intros [= <-]. apply neat_tidy, CompleteConnect_neat, H.
  - intros [= <-]. apply neat_tidy, AbortSession_neat, H.
  - intros [= <-]. apply neat_tidy. rewrite (same_mgr _ _ (finish_all_same _ _ _)). apply H.
  - intros [= <-]. apply ApplyService_tidy, H.
  - destruct l as [|sid l].
    + intros [= <-]. apply neat_tidy. destruct H as [S N]. cbn in N. unfold after in N. cbn in N. by destruct s as [[] ? ? ? ? ? ? ? ? ?].
    + pose proof (next_tidy sid l s H) as Hn. destruct (CloseSession sid s) as [b s1]. by intros [= <-].
  - destruct (HasEndpoint _ _); [intros [= <-]; apply neat_tidy, H|]. destruct (waits s !! w); [done|].
    intros [= <-]. apply neat_tidy, BeginConnect_neat, H.
  - destruct a; try done.
    + destruct (waits _ !! w); [done|]. intros [= <-]. apply neat_tidy, BeginConnect_neat, H.
    + destruct (CloseSession sid _) as [b s1] eqn:E. intros [= <-]. destruct (CloseSession_mgr _ _ _ _ E) as (Em & _ & _).
      apply neat_tidy. assert (neat (mgr s1)); [|by destruct b]. rewrite Em. apply neat_sub; [apply H|]. apply delete_subseteq.
    + intros [= <-]. apply neat_tidy, CancelConnect_neat, H.
    + intros [= <-]. apply neat_tidy, H.
Qed.

Lemma do_event_table e s s' : tidy s -> do_event e s = Some s' -> tidy s'.
Proof.
  intros H. assert (idle s = true -> neat (mgr s)) as Hn by (unfold idle; destruct H as [_ N], (stack s); done).
  destruct e; cbn [do_event].
  - destruct (stack s) as [|t ts] eqn:E; [done|]. apply exec_tidy. apply (tidy_eq s); [done|by rewrite E|done].
  - destruct (waits s !! w); [done|]. intros [= <-]. unfold BeginConnect. destruct (stopping _); [|by apply (tidy_eq s)].
    apply (tidy_eq s); [by rewrite Finish_mgr|by rewrite (same_stack _ _ (Finish_same _ _ _))|done].
  - destruct (posted s) as [|w ws]; [done|]. destruct (idle s); [|done]. intros [= <-]. apply neat_tidy, Hn. done.
  - destruct (idle s); [|done]. destruct (bool_decide _); [|done]. intros [= <-]. apply neat_tidy, Hn. done.
  - destruct (idle s); [|done]. destruct (bool_decide _); [|done]. intros [= <-]. apply neat_tidy, Hn. done.
  - destruct (idle s); [|done]. intros [= <-]. apply neat_tidy, Hn. done.
  - destruct (idle s); [|done]. intros [= <-]. apply neat_tidy, CancelConnect_neat, Hn. done.
  - intros [= <-]. destruct (CloseSession sid s) as [b s1] eqn:E. destruct (CloseSession_mgr _ _ _ _ E) as (Em & Es & _). cbn [snd].
    destruct H as [S N]. split.
    + rewrite Em. intros i j Hi Hj. cbn in Hi, Hj. apply S; by (eapply lookup_weaken_is_Some; [|apply (delete_subseteq _ sid)]).
    + rewrite Es, Em. destruct (stack s) as [|[] ?]; try (apply neat_sub; [done|apply delete_subseteq]).
      unfold after in *. cbn in *. rewrite <- delete_foldr_delete. apply (neat_sub _ (delete sid (foldr delete (mSessionMap (mgr s)) l)) (iCurrentSessionId (mgr s)) N).
      apply delete_subseteq.
  - destruct (decide _); [done|]. destruct (waits s !! w) as [x|] eqn:E; [|done]. intros [= <-]. unfold Suspend. rewrite E. destruct (bDone x); by apply (tidy_eq s).
  - destruct (waits s !! w) as [[b1 b2 [|h l]]|]; try done. intros [= <-]. by apply (tidy_eq s).
  - intros [= <-]. by apply (tidy_eq s).
Qed.

Lemma run_table es : forall s s', tidy s -> run es s = Some s' -> tidy s'.
Proof.
  induction es as [|e es IH]; intros s s' H; cbn [run]; [by intros [= <-]|].
  destruct (do_event e s) as [s1|] eqn:E; [|done]. apply IH. by eapply do_event_table.
Qed.

Definition closing (s : state) : Prop := match stack s with CloseSessions _ :: _ => True | _ => False end.

(** C12: a client's manager never has two sessions, whatever attempts overlap,
    are superseded or complete late; and except between the steps of CloseEndpoint its
    session is one to the address the manager stands for now, and there is none while an
    attempt is under way or the service is down. *)
Theorem one_session h p es s : run es (start h p) = Some s ->
  single (mgr s) /\
  (~ closing s -> forall sid e, mSessionMap (mgr s) !! sid = Some e ->
    e = Endpoint (sIpAddress (mgr s)) (sPort (mgr s)) /\ e = sEndpoint (mgr s) /\
    bConnectPending (mgr s) = false /\ bServiceDown (mgr s) = false).
Proof.
  intros E. assert (tidy (start h p)) as H0.
  { apply neat_tidy. split; cbn; [|by intros sid e; rewrite lookup_empty|done|done]. intros i j [x Hi]. cbn in Hi. by rewrite lookup_empty in Hi. }
  destruct (run_table es _ _ H0 E) as [S N]. split; [done|]. intros Hc. unfold closing in Hc.
  apply n_table. destruct (stack s) as [|[] ?]; done.
Qed.

End Run.

(** ** Examples *)

Section Example.

#[local] Existing Instances numbers numbers_laws.

(** A client of a named service: the first attempt fails while a second caller waits for
    it, its callback starts another, whose socket is slow; the service moves meanwhile,
    a third attempt connects and the late socket changes nothing; then the service goes
    and comes back. *)
Definition story : list event :=
  [Begin 1; Await 1 11; NextPosted; Step (Asked true); Begin 2; NextPosted; Step Return; Await 2 12; Await 2 13;
   Resolved 1 (Some (txt "1234")); Step InProgress; SocketReady 1 false; Step Return;
   Step (UserStart 3); Step (Asked true); Step InProgress; Step Return; Await 3 14;
   Service (txt "5678") (txt "80") true 4; Step Return; Step Return; Step Return; Step (Asked true); Step Connected;
   Step Return; Step Return; Step Return;
   SocketReady 2 true; Step Return].

Definition later : list event :=
  story ++ [Begin 5; NextPosted; Step Return; Await 5 15; Service [] [] false 6; Step Return; Step Return; Step Return; Step Return; Step Return;
            Begin 7; Await 7 17; NextPosted; Step Return].

Definition state_of (es : list event) : state :=
  match run (I := numbers) true es (start (txt "host") (txt "80")) with Some s => s | None => start [] [] end.

Lemma connects_resumed_witness :
  suspended (state_of later) ≡ₚ scheduled (state_of later) /\ scheduled (state_of later) = [11; 12; 13; 14; 17].
Proof.
  split; [|by vm_compute]. apply (connects_resumed true (txt "host") (txt "80") later); try by vm_compute.
  all: vm_compute; by intros H; inversion H.
Defined.

Lemma one_session_witness :
  single (mgr (state_of story)) /\ map_to_list (mSessionMap (mgr (state_of story))) = [(2, txt "5678:80")].
Proof.
  split; [|by vm_compute]. apply (one_session true (txt "host") (txt "80") story); by vm_compute.
Defined.

End Example.
End Connects.
