(* ===== verification/Coro.v ===== *)
(** * Coroutine tasks

    cbaselib/base/inc/oi_coro.h and src/oi_coro.cpp: BasicTask and its promise, the
    awaiter of a task, WhenAllAwaiter, the final suspension that wakes the waiters, the
    reference counts that keep frames alive, the reports of errors nobody saw, and the
    loop of workers around them (ResumeTask, DrainDetached, the run queue).

    A frame's promise is a record, the place where its coroutine stands a [control]; a
    step is one lock section or one atomic operation of one thread.  A thread has the
    stack of the coroutines it is in: ResumeTask enters the first, and a coroutine that
    is started inside another runs at once on top of it.  The bodies of the coroutines
    are arbitrary: what a body does next is the event's.  [Body] is also where it
    comes back after other awaiters (timers, calls), which are events too. *)

From S2P Require Import Prelude.

Module Coro.

(** ** State *)

(** TaskWaiter: an Awaiter in the frame of [p], or a slot of the WhenAllState of [p]. *)
Inductive node : Type := Single (p : Z) | Slot (p : Z).

Inductive Gate : Type := Idle | Ready | Waiting.

(** TaskState and the reference count of its frame. *)
Record promise : Type := mkPromise {
  iReferences : Z;
  bReady : bool;
  pWaiters : list node;
  stError : bool;
  bDetached : bool;
  bObserved : bool;
  bErrorReported : bool;
  iTaskId : Z
}.

(** Where a coroutine stands: what it does when it runs next. *)
Inductive control : Type :=
| Body
| Checking (g : Z)                 (* Awaiter::await_ready *)
| Suspending (g : Z)               (* Awaiter::await_suspend *)
| Resuming (g : Z)                 (* Awaiter::await_resume *)
| AllChecking                       (* WhenAllAwaiter::await_ready *)
| Linking (i : nat)                 (* await_suspend: task [i] *)
| Counting (i : nat)                (* ... it is ready: iLeft.fetch_sub *)
| Gating (i : nat)                  (* ... and was the last: iGate.exchange *)
| Ending                            (* iGate.exchange at the end *)
| AllParked
| Failing                           (* unhandled_exception *)
| Final                             (* final_suspend *)
| Waking (ns : list node)           (* ... its loop *)
| LastOf (p : Z) (ns : list node)   (* OnReady of the last slot of [p]: iGate.exchange *)
| Posting (p : Z) (ns : list node)  (* Schedule(pWaiter->stParent) *)
| Finished.

(** WhenAllState. *)
Record join : Type := mkJoin { vTasks : list Z; iLeft : Z; iGate : Gate }.

(** [done]: g_detached_done, the last one first. *)
Record thread : Type := mkThread { stack : list Z; done : list Z }.

(** [joins]: by the coroutine that waits; [handles]: one entry for every reference held
    by a Task object or by an Awaiter that has resumed; [other]: coroutines suspended
    elsewhere; [failed], [reported], [observed], [launched]: the frames that threw, whose
    errors were reported, were rethrown to a waiter, that were created detached. *)
Record state : Type := mkState {
  frames : gmap Z promise;
  at_ : gmap Z control;
  joins : gmap Z join;
  handles : list Z;
  queue : list Z;
  other : list Z;
  threads : gmap Z thread;
  next : Z;
  g_task_uid : Z;
  failed : list Z;
  reported : list Z;
  observed : list Z;
  launched : list Z
}.

Definition set_frames (m : gmap Z promise) (s : state) : state :=
  mkState m (at_ s) (joins s) (handles s) (queue s) (other s) (threads s) (next s) (g_task_uid s) (failed s) (reported s) (observed s) (launched s).
Definition set_at (f : Z) (c : control) (s : state) : state :=
  mkState (frames s) (<[f := c]> (at_ s)) (joins s) (handles s) (queue s) (other s) (threads s) (next s) (g_task_uid s) (failed s) (reported s) (observed s) (launched s).
Definition set_joins (m : gmap Z join) (s : state) : state :=
  mkState (frames s) (at_ s) m (handles s) (queue s) (other s) (threads s) (next s) (g_task_uid s) (failed s) (reported s) (observed s) (launched s).
Definition set_handles (l : list Z) (s : state) : state :=
  mkState (frames s) (at_ s) (joins s) l (queue s) (other s) (threads s) (next s) (g_task_uid s) (failed s) (reported s) (observed s) (launched s).
Definition set_queue (l : list Z) (s : state) : state :=
  mkState (frames s) (at_ s) (joins s) (handles s) l (other s) (threads s) (next s) (g_task_uid s) (failed s) (reported s) (observed s) (launched s).
Definition set_other (l : list Z) (s : state) : state :=
  mkState (frames s) (at_ s) (joins s) (handles s) (queue s) l (threads s) (next s) (g_task_uid s) (failed s) (reported s) (observed s) (launched s).
Definition set_thread (t : Z) (th : thread) (s : state) : state :=
  mkState (frames s) (at_ s) (joins s) (handles s) (queue s) (other s) (<[t := th]> (threads s)) (next s) (g_task_uid s) (failed s) (reported s) (observed s) (launched s).
Definition set_uid (n : Z) (s : state) : state :=
  mkState (frames s) (at_ s) (joins s) (handles s) (queue s) (other s) (threads s) (next s) n (failed s) (reported s) (observed s) (launched s).
Definition set_logs (fl rp ob : list Z) (s : state) : state :=
  mkState (frames s) (at_ s) (joins s) (handles s) (queue s) (other s) (threads s) (next s) (g_task_uid s) fl rp ob (launched s).

Definition start (n : nat) : state :=
  mkState ∅ ∅ ∅ [] [] [] (list_to_map (map (fun t => (Z.of_nat t, mkThread [] [])) (seq 0 n))) 1 1 [] [] [] [].

(** ** Promises *)

Definition set_refs (n : Z) (x : promise) : promise :=
  mkPromise n (bReady x) (pWaiters x) (stError x) (bDetached x) (bObserved x) (bErrorReported x) (iTaskId x).
Definition set_waiters (b : bool) (l : list node) (x : promise) : promise :=
  mkPromise (iReferences x) b l (stError x) (bDetached x) (bObserved x) (bErrorReported x) (iTaskId x).
Definition set_flags (e d o r : bool) (x : promise) : promise :=
  mkPromise (iReferences x) (bReady x) (pWaiters x) e d o r (iTaskId x).
Definition set_id (i : Z) (x : promise) : promise :=
  mkPromise (iReferences x) (bReady x) (pWaiters x) (stError x) (bDetached x) (bObserved x) (bErrorReported x) i.

(** Access to the promise of a frame; a destroyed frame is undefined behaviour. *)
Definition promise_of (g : Z) (s : state) : result promise :=
  match frames s !! g with Some x => Ok x | None => Err Undefined end.

Definition put (g : Z) (x : promise) (s : state) : state := set_frames (<[g := x]> (frames s)) s.

Definition join_of (p : Z) (s : state) : result join :=
  match joins s !! p with Some j => Ok j | None => Err Undefined end.

Definition put_join (p : Z) (j : join) (s : state) : state := set_joins (<[p := j]> (joins s)) s.

Definition AllocTaskUid (s : state) : Z * state :=
  let i := g_task_uid s in
  let n := u64 (i + 1) in
  if i =? 0 then (n, set_uid (u64 (n + 1)) s) else (i, set_uid n s).

(** TaskState::ReportError. *)
Definition ReportError (g : Z) (x : promise) (s : state) : state :=
  if bErrorReported x then s
  else put g (set_flags (stError x) (bDetached x) (bObserved x) true x) (set_logs (failed s) (reported s ++ [g]) (observed s) s).

(** Schedule: the end of the run queue. *)
Definition Schedule (f : Z) (s : state) : state := set_queue (queue s ++ [f]) s.

(** promise_type::Release; the frame goes with the last reference. *)
Definition Release (g : Z) (s : state) : result state :=
  let! x := promise_of g s in
  if iReferences x =? 1 then
    let s := if stError x && negb (bObserved x) then ReportError g x s else s in
    Ok (mkState (delete g (frames s)) (delete g (at_ s)) (joins s) (handles s) (queue s) (other s) (threads s) (next s) (g_task_uid s)
          (failed s) (reported s) (observed s) (launched s))
  else Ok (put g (set_refs (iReferences x - 1) x) s).

Definition AddReference (g : Z) (s : state) : result state :=
  let! x := promise_of g s in Ok (put g (set_refs (iReferences x + 1) x) s).

(** A coroutine is called: the promise takes the launch information, the frame has two
    references, and the Task object returned holds one of them. *)
Definition new_promise (iToken : Z) (bDet : bool) : promise := mkPromise 2 false [] false bDet false false iToken.

Definition create (iToken : Z) (bDet : bool) (s : state) : Z * state :=
  let g := next s in
  (g, mkState (<[g := new_promise iToken bDet]> (frames s)) (<[g := Body]> (at_ s)) (joins s) (handles s ++ [g]) (queue s) (other s) (threads s)
        (g + 1) (g_task_uid s) (failed s) (reported s) (observed s) (if bDet then launched s ++ [g] else launched s)).

(** BasicTask::Start. *)
Definition Start (g iToken : Z) (s : state) : result state :=
  let! x := promise_of g s in
  let (iId, s) := if iTaskId x =? 0 then if iToken =? 0 then AllocTaskUid s else (iToken, s) else (iTaskId x, s) in
  let bWas := bDetached x in
  let x := set_id iId (set_flags (stError x) true (bObserved x) (bErrorReported x) x) in
  let s := put g x s in
  Ok (if negb bWas && bReady x && stError x then ReportError g x s else s).

Fixpoint remove_first (g : Z) (l : list Z) : list Z :=
  match l with
  | [] => []
  | x :: l => if x =? g then l else x :: remove_first g l
  end.

(** ** One step of a coroutine *)

(** The coroutine [f] on top of thread [t] suspends: resume() returns to what is below. *)
Definition suspend (t : Z) (th : thread) (s : state) : state := set_thread t (mkThread (tail (stack th)) (done th)) s.

(** The WhenAllAwaiter of [f] is destroyed; the tasks are again held by their vector. *)
Definition end_join (f : Z) (j : join) (s : state) : state :=
  set_at f Body (set_handles (handles s ++ vTasks j) (set_joins (delete f (joins s)) s)).

(** [None]: cannot go on by itself. *)
Definition go (t : Z) (th : thread) (f : Z) (c : control) (s : state) : option (result state) :=
  match c with
  | Body => None
  | Finished => Some (Err Undefined)
  | Checking g =>
      match done th with
      | [] => Some (let! x := promise_of g s in Ok (set_at f (if bReady x then Resuming g else Suspending g) s))
      | _ => None
      end
  | Suspending g =>
      Some (let! x := promise_of g s in
            if bReady x then Ok (set_at f (Resuming g) s)
            else Ok (suspend t th (set_at f (Resuming g) (put g (set_waiters false (Single f :: pWaiters x) x) s))))
  | Resuming g =>
      Some (let! x := promise_of g s in
            let s := if stError x then put g (set_flags true (bDetached x) true (bErrorReported x) x)
                                         (set_logs (failed s) (reported s) (observed s ++ [g]) s) else s in
            Ok (set_at f Body (set_handles (handles s ++ [g]) s)))
  | AllChecking =>
      match done th with
      | [] =>
          Some (let! j := join_of f s in
                match vTasks j with
                | [] => Ok (end_join f j s)
                | l => Ok (set_at f (Linking 0) (put_join f (mkJoin l (lenZ l) (iGate j)) s))
                end)
      | _ => None
      end
  | Linking i =>
      Some (let! j := join_of f s in
            match vTasks j !! i with
            | None => Ok (set_at f Ending s)
            | Some g =>
                let! x := promise_of g s in
                if bReady x then Ok (set_at f (Counting i) s)
                else Ok (set_at f (Linking (S i)) (put g (set_waiters false (Slot f :: pWaiters x) x) s))
            end)
  | Counting i =>
      Some (let! j := join_of f s in
            Ok (set_at f (if iLeft j =? 1 then Gating i else Linking (S i)) (put_join f (mkJoin (vTasks j) (iLeft j - 1) (iGate j)) s)))
  | Gating i =>
      Some (let! j := join_of f s in Ok (set_at f (Linking (S i)) (put_join f (mkJoin (vTasks j) (iLeft j) Ready) s)))
  | Ending =>
      Some (let! j := join_of f s in
            match iGate j with
            | Ready => Ok (end_join f j s)
            | _ => Ok (suspend t th (set_at f AllParked (put_join f (mkJoin (vTasks j) (iLeft j) Waiting) s)))
            end)
  | AllParked => Some (let! j := join_of f s in Ok (end_join f j s))
  | Failing =>
      Some (let! x := promise_of f s in Ok (set_at f Final (if bDetached x then ReportError f x s else s)))
  | Final =>
      Some (let! x := promise_of f s in Ok (set_at f (Waking (pWaiters x)) (put f (set_waiters true [] x) s)))
  | Waking [] => Some (Ok (set_thread t (mkThread (tail (stack th)) (f :: done th)) (set_at f Finished s)))
  | Waking (Single p :: ns) => Some (let! _ := promise_of p s in Ok (set_at f (Waking ns) (Schedule p s)))
  | Waking (Slot p :: ns) =>
      Some (let! j := join_of p s in
            Ok (set_at f (if iLeft j =? 1 then LastOf p ns else Waking ns) (put_join p (mkJoin (vTasks j) (iLeft j - 1) (iGate j)) s)))
  | LastOf p ns =>
      Some (let! j := join_of p s in
            Ok (set_at f (match iGate j with Waiting => Posting p ns | _ => Waking ns end) (put_join p (mkJoin (vTasks j) (iLeft j) Ready) s)))
  | Posting p ns => Some (let! _ := join_of p s in Ok (set_at f (Waking ns) (Schedule p s)))
  end.

(** What the body of a coroutine does. *)
Inductive action : Type :=
| Create (iToken : Z) (bDet bPost : bool)   (* calls a coroutine *)
| Await (g : Z)                              (* co_await of a task it has a handle of *)
| AwaitAll (gs : list Z)                     (* co_await WhenAllAwaiter(gs) *)
| Elsewhere                                  (* suspends on something else *)
| Return
| Throw.

(** Takes the handles [gs] out of the bag, if they are there. *)
Fixpoint take_handles (gs l : list Z) : option (list Z) :=
  match gs with
  | [] => Some l
  | g :: gs => if bool_decide (g ∈ l) then take_handles gs (remove_first g l) else None
  end.

Definition act (t : Z) (th : thread) (f : Z) (a : action) (s : state) : option (result state) :=
  match a with
  | Create iToken bDet bPost =>
      let (g, s) := create iToken bDet s in
      Some (Ok (if bPost then Schedule g s else set_thread t (mkThread (g :: stack th) (done th)) s))
  | Await g =>
      if bool_decide (g ∈ handles s) then Some (let! s := AddReference g s in Ok (set_at f (Checking g) s)) else None
  | AwaitAll gs =>
      match take_handles gs (handles s) with
      | Some l => Some (Ok (set_at f AllChecking (put_join f (mkJoin gs 0 Idle) (set_handles l s))))
      | None => None
      end
  | Elsewhere => Some (Ok (set_other (other s ++ [f]) (suspend t th s)))
  | Return => Some (Ok (set_at f Final s))
  | Throw =>
      Some (let! x := promise_of f s in
            Ok (set_at f Failing (put f (set_flags true (bDetached x) (bObserved x) (bErrorReported x) x)
                                    (set_logs (failed s ++ [f]) (reported s) (observed s) s))))
  end.

Inductive event : Type :=
| Go (t : Z)                        (* the top of the thread's stack goes on *)
| Act (t : Z) (a : action)          (* ... in its body *)
| Take (t : Z)                      (* a worker takes the next coroutine: ResumeTask *)
| Drain (t : Z)                     (* a turn of DrainDetached *)
| Spawn (iToken : Z) (bDet : bool)  (* a task created outside of coroutines *)
| StartTask (g iToken : Z)
| Copy (g : Z)
| Drop (g : Z)
| Wake (f : Z).                     (* what another awaiter waited for has come *)

(** DrainDetached runs in await_ready and after resume. *)
Definition may_drain (th : thread) (s : state) : bool :=
  match stack th with
  | [] => true
  | f :: _ => match at_ s !! f with Some (Checking _) | Some AllChecking => true | _ => false end
  end.

(** [None]: cannot happen now. *)
Definition do_event (e : event) (s : state) : option (result state) :=
  match e with
  | Go t =>
      match threads s !! t with
      | Some th =>
          match stack th with
          | f :: _ => match at_ s !! f with Some c => go t th f c s | None => Some (Err Undefined) end
          | [] => None
          end
      | None => None
      end
  | Act t a =>
      match threads s !! t with
      | Some th =>
          match stack th with
          | f :: _ => match at_ s !! f with Some Body => act t th f a s | Some _ => None | None => Some (Err Undefined) end
          | [] => None
          end
      | None => None
      end
  | Take t =>
      match threads s !! t, queue s with
      | Some (mkThread [] []), f :: q => Some (Ok (set_thread t (mkThread [f] []) (set_queue q s)))
      | _, _ => None
      end
  | Drain t =>
      match threads s !! t with
      | Some th =>
          match done th with
          | g :: d => if may_drain th s then Some (Release g (set_thread t (mkThread (stack th) d) s)) else None
          | [] => None
          end
      | None => None
      end
  | Spawn iToken bDet => let (g, s) := create iToken bDet s in Some (Ok (Schedule g s))
  | StartTask g iToken => if bool_decide (g ∈ handles s) then Some (Start g iToken s) else None
  | Copy g => if bool_decide (g ∈ handles s) then Some (let! s := AddReference g s in Ok (set_handles (handles s ++ [g]) s)) else None
  | Drop g => if bool_decide (g ∈ handles s) then Some (Release g (set_handles (remove_first g (handles s)) s)) else None
  | Wake f => if bool_decide (f ∈ other s) then Some (Ok (Schedule f (set_other (remove_first f (other s)) s))) else None
  end.

Fixpoint run (es : list event) (s : state) : option (result state) :=
  match es with
  | [] => Some (Ok s)
  | e :: es => match do_event e s with Some (Ok s) => run es s | r => r end
  end.

(** ** Accounts *)

Fixpoint singles (x : Z) (ns : list node) : nat :=
  match ns with
  | [] => 0
  | Single p :: ns => one p x + singles x ns
  | Slot _ :: ns => singles x ns
  end.

Fixpoint slots_in (p : Z) (ns : list node) : nat :=
  match ns with
  | [] => 0
  | Slot q :: ns => one q p + slots_in p ns
  | Single _ :: ns => slots_in p ns
  end.

(** References that a coroutine's place holds; coroutines whose waking is in its hands,
    slots it has still to count, joins whose gate it has to open. *)
Definition awaits (x : Z) (c : control) : nat :=
  match c with Checking g | Suspending g | Resuming g => one g x | _ => 0 end.
Definition to_wake (x : Z) (c : control) : nat :=
  match c with Waking ns | LastOf _ ns => singles x ns | Posting p ns => one p x + singles x ns | _ => 0 end.
Definition to_count (p : Z) (c : control) : nat :=
  match c with Waking ns | LastOf _ ns | Posting _ ns => slots_in p ns | _ => 0 end.
Definition last_of (p : Z) (c : control) : nat := match c with LastOf q _ => one q p | _ => 0 end.
Definition posting (p : Z) (c : control) : nat := match c with Posting q _ => one q p | _ => 0 end.
Definition gate_parks (j : join) : nat := match iGate j with Waiting => 1 | _ => 0 end.

(** Where a coroutine is, apart from having ended. *)
Definition places (s : state) (x : Z) : nat :=
  cnt x (queue s) + cnt x (other s) + msum (fun th => cnt x (stack th)) (threads s) + msum (fun th => cnt x (done th)) (threads s) +
  msum (fun pr => singles x (pWaiters pr)) (frames s) + msum (to_wake x) (at_ s) + ofn gate_parks (joins s !! x).

(** Who keeps a frame alive. *)
Definition holders (s : state) (x : Z) : nat :=
  cnt x (handles s) + msum (awaits x) (at_ s) + msum (fun j => cnt x (vTasks j)) (joins s) + places s x.

Definition slots (s : state) (p : Z) : nat := msum (fun pr => slots_in p (pWaiters pr)) (frames s) + msum (to_count p) (at_ s).

Definition on_stacks (s : state) (x : Z) : nat := msum (fun th => cnt x (stack th)) (threads s).
Definition on_done (s : state) (x : Z) : nat := msum (fun th => cnt x (done th)) (threads s).

(** A coroutine is in one place until it ends, and then at most among the finished ones. *)
Definition settled (c : control) (n d : nat) : Prop := n = 1%nat /\ (c = Finished -> d = 1%nat) \/ n = 0%nat /\ c = Finished.

(** A frame lives as long as it has holders, which its count counts. *)
Definition accounted (s : state) : Prop := forall x,
  match frames s !! x, at_ s !! x with
  | Some pr, Some c =>
      iReferences pr = Z.of_nat (holders s x) /\ (0 < holders s x)%nat /\ settled c (places s x) (on_done s x)
  | None, None => holders s x = 0%nat
  | _, _ => False
  end.

Definition finishing (c : control) : bool := match c with Waking _ | LastOf _ _ | Posting _ _ | Finished => true | _ => false end.
Definition joining (c : control) : bool :=
  match c with AllChecking | Linking _ | Counting _ | Gating _ | Ending | AllParked => true | _ => false end.
Definition busy (c : control) : bool := match c with Body | Resuming _ | AllParked | Finished => false | _ => true end.

(** The waiters of a task and its end. *)
Record waited (s : state) : Prop := mkWaited {
  w_ready : forall x pr c, frames s !! x = Some pr -> at_ s !! x = Some c -> bReady pr = finishing c /\ (bReady pr = true -> pWaiters pr = []);
  w_single : forall g pr p, frames s !! g = Some pr -> Single p ∈ pWaiters pr -> at_ s !! p = Some (Resuming g);
  w_resume : forall p g pr, at_ s !! p = Some (Resuming g) -> frames s !! g = Some pr -> bReady pr = true \/ Single p ∈ pWaiters pr;
  w_busy : forall x c, at_ s !! x = Some c -> busy c = true -> msum (fun th => cnt x (stack th)) (threads s) = 1%nat;
  w_done : forall x, (0 < msum (fun th => cnt x (done th)) (threads s))%nat -> at_ s !! x = Some Finished;
  w_fresh : forall x, next s <= x -> frames s !! x = None
}.

(** Slots still to be processed by await_suspend, and those that have been. *)
Definition todo (c : control) (n : nat) : Z :=
  match c with
  | Linking i | Counting i => Z.of_nat n - Z.of_nat i
  | Gating i => Z.of_nat n - Z.of_nat i - 1
  | _ => 0
  end.
Definition linked (c : control) (i : nat) : Prop :=
  match c with
  | Linking k => (i < k)%nat
  | Counting k | Gating k => (i <= k)%nat
  | Ending | AllParked => True
  | _ => False
  end.

(** The WhenAllState of [p], whose coroutine stands at [c]; [l]: how many have counted
    the last slot and not yet opened the gate. *)
Definition gate_ok (c : control) (j : join) (l : nat) : Prop :=
  match c with
  | AllChecking => iGate j = Idle /\ l = 0%nat
  | Gating _ => iGate j = Idle /\ l = 0%nat /\ iLeft j = 0
  | AllParked => (iGate j = Waiting /\ Z.of_nat l = (if iLeft j =? 0 then 1 else 0)) \/ (iGate j = Ready /\ l = 0%nat /\ iLeft j = 0)
  | _ => (iGate j = Idle /\ Z.of_nat l = (if iLeft j =? 0 then 1 else 0)) \/ (iGate j = Ready /\ l = 0%nat /\ iLeft j = 0)
  end.

Record joined_at (s : state) (p : Z) : Prop := mkJoined {
  j_some : forall j, joins s !! p = Some j -> exists c, at_ s !! p = Some c /\ joining c = true /\ gate_ok c j (msum (last_of p) (at_ s)) /\
    (c = AllChecking -> slots s p = 0%nat) /\ (c <> AllChecking -> iLeft j = Z.of_nat (slots s p) + todo c (length (vTasks j)) /\ vTasks j <> []) /\
    (forall i, (c = Counting i \/ c = Gating i -> (i < length (vTasks j))%nat) /\ (c = Linking i -> (i <= length (vTasks j))%nat));
  j_none : joins s !! p = None -> slots s p = 0%nat /\ msum (last_of p) (at_ s) = 0%nat /\ forall c, at_ s !! p = Some c -> joining c = false;
  j_post : (0 < msum (posting p) (at_ s))%nat -> at_ s !! p = Some AllParked;
  j_slot : forall g pr, frames s !! g = Some pr -> Slot p ∈ pWaiters pr -> exists j, joins s !! p = Some j /\ g ∈ vTasks j;
  j_linked : forall j c i g pr, joins s !! p = Some j -> at_ s !! p = Some c -> vTasks j !! i = Some g -> linked c i ->
    frames s !! g = Some pr -> bReady pr = true \/ Slot p ∈ pWaiters pr
}.

Definition joined (s : state) : Prop := forall p, joined_at s p.

Record inv (s : state) : Prop := mkInv { inv_acc : accounted s; inv_waited : waited s; inv_joined : joined s }.

(** ** Arithmetic of the accounts *)

(** Replaces the sums over changed maps by the old sums and the changes. *)
Ltac sums :=
  msums;
  cbn [ofn to_wake awaits to_count last_of posting singles slots_in pWaiters stack done vTasks tail set_waiters set_refs set_flags set_id new_promise] in *;
  rewrite ?cnt_app, ?cnt_one, ?cnt_nil in *.

Lemma alive s x : accounted s -> (0 < holders s x)%nat -> exists pr c, frames s !! x = Some pr /\ at_ s !! x = Some c /\ iReferences pr = Z.of_nat (holders s x).
Proof.
  intros A H. specialize (A x). destruct (frames s !! x) as [pr|], (at_ s !! x) as [c|]; try done; [|lia]. destruct A as (A & _). eauto.
Qed.

Lemma accounted_frame s x pr : accounted s -> frames s !! x = Some pr ->
  exists c, at_ s !! x = Some c /\ iReferences pr = Z.of_nat (holders s x) /\ (0 < holders s x)%nat /\ settled c (places s x) (on_done s x).
Proof. intros A E. specialize (A x). rewrite E in A. destruct (at_ s !! x) as [c|]; [eauto|done]. Qed.

Lemma accounted_place s x : accounted s -> (places s x <= 1)%nat.
Proof.
  intros A. specialize (A x). destruct (frames s !! x) as [pr|], (at_ s !! x) as [c|]; try done.
  - destruct A as (_ & _ & [[? _]|[? _]]); lia.
  - unfold holders in A. lia.
Qed.

Lemma on_done_le s x : (on_done s x <= places s x)%nat.
Proof. unfold places, on_done. lia. Qed.

Lemma settled_same c n d n' d' : settled c n d -> n' = n -> (d <= d' <= n)%nat -> settled c n' d'.
Proof. intros [[-> H]|[-> ->]] -> Hd; [left; split; [done|]; intros Hc; specialize (H Hc); lia|by right]. Qed.

(** A step of the coroutine [f] that only moves holders and coroutines about. *)
Lemma conserved f s s' : accounted s -> (forall x, holders s' x = holders s x) -> (forall x, places s' x = places s x) ->
  (forall x, (on_done s x <= on_done s' x)%nat) ->
  (forall x, iReferences <$> frames s' !! x = iReferences <$> frames s !! x) ->
  (forall x, x <> f -> at_ s' !! x = at_ s !! x) -> is_Some (at_ s !! f) ->
  (exists c, at_ s' !! f = Some c /\ (c = Finished -> (0 < on_done s' f)%nat)) -> places s f = 1%nat -> accounted s'.
Proof.
  intros A H1 H2 Hd H3 H4 [c Hc] (c' & Hc' & Hf') Hf x. specialize (A x). specialize (H3 x). specialize (Hd x). pose proof (on_done_le s' x) as Hle.
  rewrite H2 in Hle. rewrite H1, H2. destruct (decide (x = f)) as [->|Hn].
  - rewrite Hc in A. rewrite Hc'. destruct (frames s !! f), (frames s' !! f); try done. cbn in H3. injection H3 as H3. rewrite H3.
    destruct A as (A1 & A2 & _). split_and!; [done..|left]. split; [done|]. intros ->. specialize (Hf' eq_refl). lia.
  - rewrite H4 by done. destruct (frames s !! x), (frames s' !! x), (at_ s !! x); try done. cbn in H3. injection H3 as H3. rewrite H3.
    destruct A as (A1 & A2 & A3). split_and!; [done..|]. by eapply settled_same.
Qed.

Ltac look k x :=
  destruct (decide (x = k)) as [->|?];
  [rewrite ?lookup_insert_eq, ?lookup_delete_eq|rewrite ?lookup_insert_ne, ?lookup_delete_ne by done].

(** Both sides of an account, summed up. *)
Ltac count := intros x; unfold holders, places, on_done; cbn -[one cnt msum singles slots_in Z.add Z.sub]; sums; try lia.

(** ... when the WhenAllState of [k] changes too. *)
Ltac count_join k :=
  intros x; unfold holders, places; cbn -[one cnt msum singles slots_in Z.add Z.sub gate_parks]; look k x; sums;
  rewrite ?one_same in *; rewrite ?(one_diff k x) in * by congruence;
  repeat match goal with E : ?m !! ?i = _ |- context [ofn _ (?m !! ?i)] => rewrite E end; cbn [ofn] in *;
  unfold gate_parks in *; cbn [iGate] in *;
  repeat match goal with E : iGate ?j = _ |- context [iGate ?j] => rewrite E end; try lia.

Lemma go_acc t f st dn c s r : inv s -> threads s !! t = Some (mkThread (f :: st) dn) -> at_ s !! f = Some c ->
  go t (mkThread (f :: st) dn) f c s = Some r -> exists s', r = Ok s' /\ accounted s'.
Proof.
  intros [A W J] Et Ec. assert (0 < msum (fun th => cnt f (stack th)) (threads s))%nat as Hst.
  { pose proof (msum_ge (fun th => cnt f (stack th)) _ _ _ Et) as H. cbn in H. rewrite cnt_one, one_same in H. lia. }
  pose proof (accounted_place s f A) as Hp. assert (places s f = 1%nat) as Hp1 by (unfold places in *; lia).
  destruct (alive s f A) as (prf & _ & Ef & _ & Erf); [unfold holders; lia|].
  assert (forall g, (0 < awaits g c)%nat -> exists pr, frames s !! g = Some pr) as Hg.
  { intros g H. destruct (alive s g A) as (pr & _ & E & _); [|eauto]. pose proof (msum_ge (awaits g) _ _ _ Ec). unfold holders. lia. }
  assert (joining c = true -> exists j, joins s !! f = Some j) as Hj.
  { intros H. destruct (joins s !! f) as [j|] eqn:E; [eauto|]. destruct (j_none s f (J f) E) as (_ & _ & H1). rewrite (H1 c Ec) in H. done. }
  assert (forall j, joins s !! f = Some j -> gate_parks j = 0%nat) as Hgp.
  { intros j E. unfold places in Hp. rewrite E in Hp. cbn in Hp. lia. }
  assert (forall j i g, joins s !! f = Some j -> vTasks j !! i = Some g -> exists pr, frames s !! g = Some pr) as Htask.
  { intros j i g Ej Ei. destruct (alive s g A) as (pr & _ & E & _); [|eauto]. pose proof (msum_ge (fun j => cnt g (vTasks j)) _ _ _ Ej).
    assert (0 < cnt g (vTasks j))%nat by (apply cnt_pos; by eapply list_elem_of_lookup_2). unfold holders. lia. }
  assert (forall s', (forall x, holders s' x = holders s x) -> (forall x, places s' x = places s x) -> (forall x, (on_done s x <= on_done s' x)%nat) ->
    (forall x, iReferences <$> frames s' !! x = iReferences <$> frames s !! x) ->
    (forall x, x <> f -> at_ s' !! x = at_ s !! x) ->
    (exists c, at_ s' !! f = Some c /\ (c = Finished -> (0 < on_done s' f)%nat)) -> exists s'', Ok s' = Ok s'' /\ accounted s'') as Hgo.
  { intros s' H1 H2 H3 H4 H5 H6. exists s'. split; [done|]. by apply (conserved f s). }
  assert (forall c' n, c' <> Finished -> exists c'', <[f := c']> (at_ s) !! f = Some c'' /\ (c'' = Finished -> (0 < n)%nat)) as Hat.
  { intros c' n H. exists c'. by rewrite lookup_insert_eq. }
  assert (forall c' x, x <> f -> <[f := c']> (at_ s) !! x = at_ s !! x) as Hne by (intros c' x ?; by rewrite lookup_insert_ne).
  assert (forall g pr pr', frames s !! g = Some pr -> iReferences pr' = iReferences pr ->
    forall x, iReferences <$> <[g := pr']> (frames s) !! x = iReferences <$> frames s !! x) as Href.
  { intros g pr pr' E H x. look g x; [by rewrite E; cbn; f_equal|done]. }
  destruct c; cbn [go].
  - done.
  - destruct (done _); [|done]. destruct (Hg g) as [pr E]; [cbn; rewrite one_same; lia|].
    unfold promise_of. rewrite E. cbn [rbind]. intros [= <-]. destruct (bReady pr); (apply Hgo; [count|count|count|done|apply Hne|by apply Hat]).
  - destruct (Hg g) as [pr E]; [cbn; rewrite one_same; lia|]. unfold promise_of. rewrite E. cbn [rbind]. intros [= <-].
    destruct (bReady pr); [apply Hgo; [count|count|count|done|apply Hne|by apply Hat]|].
    apply Hgo; [count|count|count|by eapply Href|apply Hne|by apply Hat].
  - destruct (Hg g) as [pr E]; [cbn; rewrite one_same; lia|]. unfold promise_of. rewrite E. cbn [rbind]. intros [= <-].
    destruct (stError pr); apply Hgo; [count|count|count|by eapply Href|apply Hne|by apply Hat|count|count|count|done|apply Hne|by apply Hat].
  - destruct (done _); [|done]. destruct Hj as [j Ej]; [done|]. unfold join_of. rewrite Ej. cbn [rbind].
    specialize (Hgp j Ej). destruct (vTasks j) as [|g0 l] eqn:El; intros [= <-].
    + apply Hgo; [count_join f|count_join f|count|done|apply Hne|by apply Hat]; rewrite ?El, ?cnt_nil in *; lia.
    + apply Hgo; [count_join f|count_join f|count|done|apply Hne|by apply Hat]; rewrite ?El in *; rewrite ?cnt_one in *; try lia.
  - destruct Hj as [j Ej]; [done|]. unfold join_of. rewrite Ej. cbn [rbind]. destruct (vTasks j !! i) as [g|] eqn:Ei.
    + destruct (Htask _ _ _ Ej Ei) as [pr E]. unfold promise_of. rewrite E. cbn [rbind].
      destruct (bReady pr); intros [= <-]; apply Hgo; [count|count|count|done|apply Hne|by apply Hat|count|count|count|by eapply Href|apply Hne|by apply Hat].
    + intros [= <-]. apply Hgo; [count|count|count|done|apply Hne|by apply Hat].
  - destruct Hj as [j Ej]; [done|]. unfold join_of. rewrite Ej. cbn [rbind]. intros [= <-]. specialize (Hgp j Ej).
    destruct (iLeft j =? 1); (apply Hgo; [count_join f|count_join f|count|done|apply Hne|by apply Hat]).
  - destruct Hj as [j Ej]; [done|]. unfold join_of. rewrite Ej. cbn [rbind]. intros [= <-]. specialize (Hgp j Ej).
    apply Hgo; [count_join f|count_join f|count|done|apply Hne|by apply Hat].
  - destruct Hj as [j Ej]; [done|]. unfold join_of. rewrite Ej. cbn [rbind]. specialize (Hgp j Ej).
    destruct (iGate j) eqn:Eg; intros [= <-]; unfold gate_parks in Hgp; rewrite Eg in Hgp; try done.
    + apply Hgo; [count_join f|count_join f|count|done|apply Hne|by apply Hat].
    + apply Hgo; [count_join f|count_join f|count|done|apply Hne|by apply Hat].
  - destruct Hj as [j Ej]; [done|]. unfold join_of. rewrite Ej. cbn [rbind]. intros [= <-]. specialize (Hgp j Ej).
    apply Hgo; [count_join f|count_join f|count|done|apply Hne|by apply Hat].
  - unfold promise_of. rewrite Ef. cbn [rbind]. intros [= <-]. unfold ReportError.
    destruct (bDetached prf), (bErrorReported prf); (apply Hgo; [count|count|count|first [done|by eapply Href]|apply Hne|by apply Hat]).
  - unfold promise_of. rewrite Ef. cbn [rbind]. intros [= <-]. apply Hgo; [count|count|count|by eapply Href|apply Hne|by apply Hat].
  - destruct ns as [|[p|p] ns].
    + intros [= <-]. apply Hgo; [count|count|count|done|apply Hne|]. exists Finished. cbn. rewrite lookup_insert_eq. split; [done|]. intros _.
      unfold on_done. cbn -[cnt msum]. sums. rewrite ?one_same in *. lia.
    + assert (exists pr, frames s !! p = Some pr) as [pr E].
      { destruct (alive s p A) as (pr & _ & E & _); [|eauto]. pose proof (msum_ge (to_wake p) _ _ _ Ec) as H. cbn in H. rewrite one_same in H.
        unfold holders, places. lia. }
      unfold promise_of. rewrite E. cbn [rbind]. intros [= <-]. apply Hgo; [count|count|count|done|apply Hne|by apply Hat].
    + destruct (joins s !! p) as [j|] eqn:Ej.
      2: { destruct (j_none s p (J p) Ej) as (H & _). pose proof (msum_ge (to_count p) _ _ _ Ec) as H1. cbn in H1. rewrite one_same in H1.
           unfold slots in H. lia. }
      unfold join_of. rewrite Ej. cbn [rbind]. intros [= <-].
      destruct (iLeft j =? 1); (apply Hgo; [count_join p|count_join p|count|done|apply Hne|by apply Hat]).
  - destruct (joins s !! p) as [j|] eqn:Ej.
    2: { destruct (j_none s p (J p) Ej) as (_ & H & _). pose proof (msum_ge (last_of p) _ _ _ Ec) as H1. cbn in H1. rewrite one_same in H1. lia. }
    unfold join_of. rewrite Ej. cbn [rbind]. intros [= <-].
    destruct (iGate j) eqn:Eg; (apply Hgo; [count_join p|count_join p|count|done|apply Hne|by apply Hat]).
  - assert (at_ s !! p = Some AllParked) as Ep.
    { apply (j_post s p (J p)). pose proof (msum_ge (posting p) _ _ _ Ec) as H. cbn in H. rewrite one_same in H. lia. }
    destruct (joins s !! p) as [j|] eqn:Ej; [|destruct (j_none s p (J p) Ej) as (_ & _ & H); by apply H in Ep].
    unfold join_of. rewrite Ej. cbn [rbind]. intros [= <-]. apply Hgo; [count|count|count|done|apply Hne|by apply Hat].
  - intros _. exfalso. pose proof (A f) as Af. rewrite Ef, Ec in Af. destruct Af as (_ & _ & [[_ H]|[H _]]); [|lia]. specialize (H eq_refl).
    unfold places, on_done in *. lia.
Qed.

Lemma cnt_remove_first x g l : g ∈ l -> cnt x l = (one g x + cnt x (remove_first g l))%nat.
Proof.
  induction l as [|y l IH]; [set_solver|]. cbn. rewrite cnt_one. intros H. destruct (Z.eqb_spec y g) as [->|Hn]; [done|].
  rewrite cnt_one, IH; [lia|]. apply elem_of_cons in H as [->|H]; done.
Qed.

Lemma take_handles_cnt x gs : forall l l', take_handles gs l = Some l' -> cnt x l = (cnt x gs + cnt x l')%nat.
Proof.
  induction gs as [|g gs IH]; intros l l'; cbn; [by intros [= <-]|]. case_bool_decide as Hg; [|done]. intros E%IH.
  rewrite cnt_one, (cnt_remove_first x g l Hg). lia.
Qed.

(** The account while a reference to [g] that nobody holds any more is still counted. *)
Definition owing (g : Z) (s : state) : Prop := forall x,
  match frames s !! x, at_ s !! x with
  | Some pr, Some c =>
      iReferences pr = Z.of_nat (holders s x + one g x) /\ (0 < holders s x + one g x)%nat /\ settled c (places s x) (on_done s x)
  | None, None => (holders s x + one g x = 0)%nat
  | _, _ => False
  end.

Lemma Release_acc g s : owing g s -> waited s -> exists s', Release g s = Ok s' /\ accounted s'.
Proof.
  intros A W. pose proof (A g) as Ag. rewrite one_same in Ag. destruct (frames s !! g) as [pr|] eqn:E, (at_ s !! g) as [c|] eqn:Ec; try (done || lia).
  destruct Ag as (A1 & A2 & A3). unfold Release, promise_of. rewrite E. cbn [rbind]. destruct (Z.eqb_spec (iReferences pr) 1) as [E1|E1].
  - assert (holders s g = 0%nat) as H0 by lia. assert (places s g = 0%nat) as P0 by (unfold holders in H0; lia).
    destruct A3 as [[A3 _]|[_ ->]]; [lia|]. destruct (w_ready s W g pr _ E Ec) as [Hr Hw]. specialize (Hw Hr).
    assert (exists z fr, (if stError pr && negb (bObserved pr) then ReportError g pr s else s) =
      mkState fr (at_ s) (joins s) (handles s) (queue s) (other s) (threads s) (next s) (g_task_uid s) (failed s) z (observed s) (launched s) /\
      delete g fr = delete g (frames s)) as (z & fr & -> & Efr).
    { destruct (stError pr && _); [unfold ReportError; destruct (bErrorReported pr)|].
      - exists (reported s), (frames s). by destruct s.
      - eexists _, _. split; [reflexivity|]. apply delete_insert_eq.
      - exists (reported s), (frames s). by destruct s. }
    cbn -[holders places]. rewrite Efr.
    eexists. split; [done|]. intros x. cbn -[holders places]. specialize (A x). look g x.
    + rewrite E, Ec in A. revert H0. unfold holders, places. cbn -[one cnt msum singles slots_in]. sums. lia.
    + assert (one g x = 0%nat) as O by (apply one_diff; congruence). rewrite O in A.
      assert (forall s', s' = mkState (delete g (frames s)) (delete g (at_ s)) (joins s) (handles s) (queue s)
          (other s) (threads s) (next s) (g_task_uid s) (failed s) z (observed s) (launched s) -> places s' x = places s x /\ holders s' x = holders s x) as Hp.
      { intros s' ->. unfold holders, places. cbn -[one cnt msum singles slots_in]. sums. rewrite Hw in *. cbn [singles] in *. lia. }
      destruct (Hp _ eq_refl) as [-> ->]. destruct (frames s !! x), (at_ s !! x); try done; [|lia].
      destruct A as (B1 & B2 & B3). split_and!; [lia|lia|done].
  - eexists. split; [done|]. intros x. cbn -[holders places]. specialize (A x).
    assert (places (put g (set_refs (iReferences pr - 1) pr) s) x = places s x /\ holders (put g (set_refs (iReferences pr - 1) pr) s) x = holders s x) as [-> ->].
    { unfold holders, places. cbn -[one cnt msum singles slots_in]. sums. lia. }
    look g x.
    + rewrite E, Ec in A. rewrite Ec. rewrite one_same in A. cbn. destruct A as (B1 & B2 & B3). split_and!; [lia|lia|done].
    + rewrite one_diff in A by congruence. destruct (frames s !! x), (at_ s !! x); try done; [|lia].
      destruct A as (B1 & B2 & B3). split_and!; [lia|lia|done].
Qed.

(** The intermediate accounts of Drain and Drop. *)
Lemma drain_owing t st g dn s : inv s -> threads s !! t = Some (mkThread st (g :: dn)) ->
  owing g (set_thread t (mkThread st dn) s) /\ waited (set_thread t (mkThread st dn) s).
Proof.
  intros [A W J] Et. split.
  - intros x. specialize (A x).
    assert (forall z, z = set_thread t (mkThread st dn) s ->
      (places z x + one g x = places s x)%nat /\ (holders z x + one g x = holders s x)%nat /\ (on_done z x + one g x = on_done s x)%nat) as H.
    { intros z ->. unfold holders, places, on_done. cbn -[one cnt msum singles slots_in]. sums. lia. }
    destruct (H _ eq_refl) as (H1 & H2 & H3). rewrite H2. cbn [frames at_ set_thread]. pose proof (on_done_le s x) as Hle.
    destruct (frames s !! x), (at_ s !! x) as [c|] eqn:Ec; try done. destruct A as (A1 & A2 & A3). split_and!; [done..|].
    destruct (decide (x = g)) as [->|Hn].
    + rewrite one_same in *. assert (at_ s !! g = Some Finished) as Ef.
      { apply (w_done s W). fold (on_done s g). lia. }
      right. split; [destruct A3 as [[? _]|[? _]]; lia|congruence].
    + rewrite one_diff in * by congruence. eapply settled_same; [exact A3|lia..].
  - destruct W as [W1 W2 W3 W4 W5 W6]. split; try done.
    + intros x c Ex Hb. specialize (W4 x c Ex Hb). cbn. revert W4. sums. lia.
    + intros x. cbn. sums. intros H. apply W5. lia.
Qed.

Lemma drop_owing g s : inv s -> g ∈ handles s -> owing g (set_handles (remove_first g (handles s)) s) /\ waited (set_handles (remove_first g (handles s)) s).
Proof.
  intros [A W J] Hg. split.
  - intros x. specialize (A x).
    assert (forall z, z = set_handles (remove_first g (handles s)) s -> places z x = places s x /\ (holders z x + one g x = holders s x)%nat) as H.
    { intros z ->. unfold holders, places. cbn -[one cnt msum singles slots_in]. rewrite (cnt_remove_first x g (handles s) Hg). lia. }
    destruct (H _ eq_refl) as [-> ->]. exact A.
  - destruct W. by split.
Qed.

Lemma create_acc iToken bDet s g s1 : accounted s -> waited s -> joined s -> create iToken bDet s = (g, s1) ->
  g = next s /\ frames s !! g = None /\ at_ s !! g = None /\
  forall s', (forall x, frames s' !! x = frames s1 !! x) -> (forall x, at_ s' !! x = at_ s1 !! x) ->
    (forall x, places s' x = (places s1 x + one g x)%nat) -> (forall x, holders s' x = (holders s1 x + one g x)%nat) ->
    (forall x, on_done s' x = on_done s x) -> accounted s'.
Proof.
  intros A W J [= <- <-]. assert (frames s !! next s = None) as E by (apply (w_fresh s W); lia).
  pose proof (A (next s)) as Ag. rewrite E in Ag. destruct (at_ s !! next s) eqn:Ec; [done|]. split_and!; [done..|].
  intros s' F T P H D x. specialize (A x). rewrite F, T, P, H, D. unfold holders, places. cbn -[one cnt msum singles slots_in Z.add]. sums.
  look (next s) x.
  - rewrite one_same in *. unfold holders, places in Ag. cbn [iReferences new_promise]. split_and!; [lia|lia|left; split; [lia|done]].
  - rewrite one_diff in * by congruence. unfold holders, places in A. destruct (frames s !! x), (at_ s !! x); try done; [|lia].
    destruct A as (A1 & A2 & A3). split_and!; [lia|lia|]. eapply settled_same; [exact A3|lia|unfold on_done; lia].
Qed.

Lemma AddReference_acc g s : accounted s -> (0 < holders s g)%nat ->
  exists pr, frames s !! g = Some pr /\ AddReference g s = Ok (put g (set_refs (iReferences pr + 1) pr) s) /\
    forall s', (forall x, frames s' !! x = <[g := set_refs (iReferences pr + 1) pr]> (frames s) !! x) ->
      (forall x, holders s' x = (holders s x + one g x)%nat) -> (forall x, places s' x = places s x) -> (forall x, on_done s' x = on_done s x) ->
      (forall x c, at_ s !! x = Some c -> exists c', at_ s' !! x = Some c' /\ (c = Finished -> c' = Finished) /\ (c' = Finished -> c = Finished)) ->
      (forall x, at_ s !! x = None -> at_ s' !! x = None) -> accounted s'.
Proof.
  intros A H. destruct (alive s g A H) as (pr & c & E & _ & _). exists pr. split; [done|]. unfold AddReference, promise_of. rewrite E.
  split; [done|]. intros s' F Hh P D T1 T2 x. specialize (A x). rewrite F, Hh, P, D.
  destruct (at_ s !! x) as [cx|] eqn:Ec.
  - destruct (T1 x cx Ec) as (c' & -> & Hf & Hf'). assert (settled cx (places s x) (on_done s x) -> settled c' (places s x) (on_done s x)) as Hset.
    { intros [[? H1]|[? ->]]; [left; split; [done|]; intros ->; apply H1; by apply Hf'|right; auto]. }
    look g x.
    + rewrite E in A. rewrite one_same. cbn [iReferences set_refs]. destruct A as (A1 & A2 & A3). split_and!; [lia|lia|].
      by apply Hset.
    + rewrite one_diff by congruence. destruct (frames s !! x); [|done]. destruct A as (A1 & A2 & A3). split_and!; [lia|lia|].
      by apply Hset.
  - rewrite (T2 x Ec). look g x; [by rewrite E in A|]. rewrite one_diff by congruence. destruct (frames s !! x); [done|lia].
Qed.

Lemma on_stack s t f st dn : threads s !! t = Some (mkThread (f :: st) dn) -> accounted s -> places s f = 1%nat /\ exists pr, frames s !! f = Some pr.
Proof.
  intros Et A. pose proof (msum_ge (fun th => cnt f (stack th)) _ _ _ Et) as H. cbn in H. rewrite cnt_one, one_same in H.
  pose proof (accounted_place s f A) as Hp. split; [unfold places in *; lia|]. destruct (alive s f A) as (pr & _ & E & _); [|eauto].
  unfold holders, places. lia.
Qed.

Lemma held s g : g ∈ handles s -> (0 < holders s g)%nat.
Proof. intros H%cnt_pos. unfold holders. lia. Qed.

Lemma act_acc t f st dn a s r : inv s -> threads s !! t = Some (mkThread (f :: st) dn) -> at_ s !! f = Some Body ->
  act t (mkThread (f :: st) dn) f a s = Some r -> exists s', r = Ok s' /\ accounted s'.
Proof.
  intros [A W J] Et Ec. destruct (on_stack s t f st dn Et A) as [Hp [prf Ef]].
  assert (forall s', (forall x, holders s' x = holders s x) -> (forall x, places s' x = places s x) -> (forall x, (on_done s x <= on_done s' x)%nat) ->
    (forall x, iReferences <$> frames s' !! x = iReferences <$> frames s !! x) ->
    (forall x, x <> f -> at_ s' !! x = at_ s !! x) ->
    (exists c, at_ s' !! f = Some c /\ (c = Finished -> (0 < on_done s' f)%nat)) -> exists s'', Ok s' = Ok s'' /\ accounted s'') as Hgo.
  { intros s' H1 H2 H3 H4 H5 H6. exists s'. split; [done|]. by apply (conserved f s). }
  assert (forall c' n, c' <> Finished -> exists c'', <[f := c']> (at_ s) !! f = Some c'' /\ (c'' = Finished -> (0 < n)%nat)) as Hat.
  { intros c' n H. exists c'. by rewrite lookup_insert_eq. }
  assert (forall c' x, x <> f -> <[f := c']> (at_ s) !! x = at_ s !! x) as Hne by (intros c' x ?; by rewrite lookup_insert_ne).
  destruct a; cbn [act].
  - destruct (create iToken bDet s) as [g s1] eqn:E. destruct (create_acc _ _ _ _ _ A W J E) as (-> & Eg & Eg' & H). injection E as <-.
    intros [= <-]. eexists. split; [done|]. destruct bPost; (apply H; [done|done|count|count|count]).
  - case_bool_decide as Hg; [|done]. destruct (AddReference_acc g s A (held s g Hg)) as (pr & E & -> & H). cbn [rbind]. intros [= <-].
    eexists. split; [done|]. apply H; [done|count|count|count| |].
    + intros x c Ex. cbn. look f x; [eexists; split; [done|]|eauto]. rewrite Ec in Ex. by injection Ex as <-.
    + intros x Ex. cbn. look f x; [congruence|done].
  - destruct (take_handles gs (handles s)) as [l|] eqn:E; [|done]. intros [= <-].
    assert (joins s !! f = None) as Ej.
    { destruct (joins s !! f) as [j|] eqn:Ej; [|done]. destruct (j_some s f (J f) j Ej) as (c & Ec' & Hj & _). rewrite Ec in Ec'. by injection Ec' as <-. }
    apply Hgo; [| |count|done|apply Hne|by apply Hat].
    + count_join f; rewrite (take_handles_cnt _ _ _ _ E); lia.
    + count_join f.
  - intros [= <-]. apply Hgo; [count|count|count|done|done|exists Body; by split].
  - intros [= <-]. apply Hgo; [count|count|count|done|apply Hne|by apply Hat].
  - unfold promise_of. rewrite Ef. cbn [rbind]. intros [= <-]. apply Hgo; [count|count|count| |apply Hne|by apply Hat].
    intros x. cbn. look f x; [by rewrite Ef|done].
Qed.

(** What Start makes of the promise. *)
Lemma Start_spec g iToken s s' : Start g iToken s = Ok s' -> exists pr pr' n l, frames s !! g = Some pr /\
  s' = put g pr' (set_logs (failed s) l (observed s) (set_uid n s)) /\ iReferences pr' = iReferences pr /\ bReady pr' = bReady pr /\ pWaiters pr' = pWaiters pr /\
  stError pr' = stError pr /\ bObserved pr' = bObserved pr /\ bDetached pr' = true /\
  (l = reported s /\ bErrorReported pr' = bErrorReported pr \/ l = reported s ++ [g] /\ stError pr = true /\ bErrorReported pr = false /\ bErrorReported pr' = true).
Proof.
  unfold Start, promise_of. destruct (frames s !! g) as [pr|] eqn:E; [|done]. cbn [rbind].
  set (u := if iTaskId pr =? 0 then _ else _). assert (exists i n, u = (i, set_uid n s)) as (i & n & ->).
  { unfold u. destruct (iTaskId pr =? 0); [destruct (iToken =? 0)|]; [|by exists iToken, (g_task_uid s); destruct s|by exists (iTaskId pr), (g_task_uid s); destruct s].
    unfold AllocTaskUid. by destruct (g_task_uid s =? 0); eexists _, _. }
  intros [= <-]. set (pr1 := set_id i _).
  assert (put g pr1 (set_uid n s) = put g pr1 (set_logs (failed s) (reported s) (observed s) (set_uid n s))) as H0 by done.
  destruct (negb (bDetached pr) && bReady pr && stError pr) eqn:Eb.
  - unfold ReportError. destruct (bErrorReported pr1) eqn:Er; [exists pr, pr1, n, (reported s); by split_and!; auto|].
    apply andb_true_iff in Eb as [_ Ee].
    exists pr, (set_flags (stError pr1) (bDetached pr1) (bObserved pr1) true pr1), n, (reported s ++ [g]). split_and!; auto.
    unfold put, set_frames, set_logs. cbn. by rewrite insert_insert_eq.
  - exists pr, pr1, n, (reported s). by split_and!; auto.
Qed.

Lemma do_event_acc e s r : inv s -> do_event e s = Some r -> exists s', r = Ok s' /\ accounted s'.
Proof.
  intros I. pose proof I as [A W J]. destruct e; cbn [do_event].
  - destruct (threads s !! t) as [[[|f st] dn]|] eqn:Et; cbn [stack]; try done. destruct (on_stack s t f st dn Et A) as [Hp [prf Ef]].
    destruct (accounted_frame s f prf A Ef) as (c & Ec & _). rewrite Ec. by eapply go_acc.
  - destruct (threads s !! t) as [[[|f st] dn]|] eqn:Et; cbn [stack]; try done. destruct (on_stack s t f st dn Et A) as [Hp [prf Ef]].
    destruct (accounted_frame s f prf A Ef) as (c & Ec & _). rewrite Ec. destruct c; try done. by eapply act_acc.
  - destruct (threads s !! t) as [[[|? ?] [|? ?]]|] eqn:Et; try done. destruct (queue s) as [|f q] eqn:Eq; [done|]. intros [= <-].
    eexists. split; [done|]. intros x. specialize (A x).
    assert (forall z, z = set_thread t (mkThread [f] []) (set_queue q s) -> places z x = places s x /\ holders z x = holders s x /\ on_done z x = on_done s x) as H.
    { intros z ->. unfold holders, places, on_done. cbn -[one cnt msum singles slots_in]. sums. rewrite Eq, ?cnt_one. lia. }
    destruct (H _ eq_refl) as (-> & -> & ->). exact A.
  - destruct (threads s !! t) as [[st [|g dn]]|] eqn:Et; cbn [done]; try done. destruct (may_drain _ _); [|done]. intros [= <-].
    destruct (drain_owing t st g dn s I Et). by apply Release_acc.
  - destruct (create iToken bDet s) as [g s1] eqn:E. destruct (create_acc _ _ _ _ _ A W J E) as (-> & Eg & Eg' & H). injection E as <-.
    intros [= <-]. eexists. split; [done|]. apply H; [done|done|count|count|count].
  - case_bool_decide as Hg; [|done]. destruct (alive s g A (held s g Hg)) as (pr & c & E & Ec & _). intros [= <-].
    destruct (Start g iToken s) as [s'|] eqn:Es; [|exfalso; revert Es; unfold Start, promise_of; rewrite E; cbn [rbind]; destruct (if iTaskId pr =? 0 then _ else _) as [? ?]; done].
    exists s'. split; [done|]. destruct (Start_spec _ _ _ _ Es) as (pr0 & pr' & n & l & E0 & -> & R1 & _ & R3 & _). rewrite E in E0. injection E0 as <-.
    intros x. specialize (A x).
    assert (forall z, z = put g pr' (set_logs (failed s) l (observed s) (set_uid n s)) -> places z x = places s x /\ holders z x = holders s x /\ on_done z x = on_done s x) as H.
    { intros z ->. unfold holders, places, on_done. cbn -[one cnt msum singles slots_in]. sums. rewrite R3 in *. lia. }
    destruct (H _ eq_refl) as (-> & -> & ->). cbn. look g x; [|done]. rewrite E, Ec in *. by rewrite R1.
  - case_bool_decide as Hg; [|done]. destruct (AddReference_acc g s A (held s g Hg)) as (pr & E & -> & H). cbn [rbind]. intros [= <-].
    eexists. split; [done|]. apply H; [done|count|count|count|eauto|done].
  - case_bool_decide as Hg; [|done]. intros [= <-]. destruct (drop_owing g s I Hg). by apply Release_acc.
  - case_bool_decide as Hf; [|done]. intros [= <-]. eexists. split; [done|]. intros x. specialize (A x).
    assert (forall z, z = Schedule f (set_other (remove_first f (other s)) s) -> places z x = places s x /\ holders z x = holders s x /\ on_done z x = on_done s x) as H.
    { intros z ->. unfold holders, places, on_done. cbn -[one cnt msum singles slots_in]. rewrite (cnt_remove_first x f (other s) Hf), cnt_app, cnt_one, cnt_nil. lia. }
    destruct (H _ eq_refl) as (-> & -> & ->). exact A.
Qed.

(** ** Waiters *)

Lemma singles_in x ns : (0 < singles x ns)%nat <-> Single x ∈ ns.
Proof.
  induction ns as [|[p|p] ns IH]; cbn; [split; [lia|set_solver]|..]; rewrite elem_of_cons, <- IH.
  - unfold one. destruct (Z.eq_dec p x) as [->|Hn]; split; intros H; [by left|lia|right; lia|destruct H as [[= ?]|?]; [congruence|lia]].
  - split; [tauto|intros [[=]|]; lia].
Qed.

Lemma slots_in_in x ns : (0 < slots_in x ns)%nat <-> Slot x ∈ ns.
Proof.
  induction ns as [|[p|p] ns IH]; cbn; [split; [lia|set_solver]|..]; rewrite elem_of_cons, <- IH.
  - split; [tauto|intros [[=]|]; lia].
  - unfold one. destruct (Z.eq_dec p x) as [->|Hn]; split; intros H; [by left|lia|right; lia|destruct H as [[= ?]|?]; [congruence|lia]].
Qed.

(** What being on a stack excludes. *)
Lemma stack_only s t f st dn : threads s !! t = Some (mkThread (f :: st) dn) -> accounted s ->
  on_stacks s f = 1%nat /\ on_done s f = 0%nat /\ (forall g pr, frames s !! g = Some pr -> Single f ∉ pWaiters pr) /\ cnt f st = 0%nat /\
  (forall j, joins s !! f = Some j -> iGate j <> Waiting) /\ msum (to_wake f) (at_ s) = 0%nat.
Proof.
  intros Et A. pose proof (msum_ge (fun th => cnt f (stack th)) _ _ _ Et) as H. cbn in H. rewrite cnt_one, one_same in H.
  pose proof (accounted_place s f A) as Hp. unfold places, on_stacks, on_done in *. split_and!; [lia|lia| |lia| |lia].
  - intros g pr E Hin%singles_in. pose proof (msum_ge (fun pr => singles f (pWaiters pr)) _ _ _ E) as H1. cbn in H1. lia.
  - intros j Ej Eg. rewrite Ej in Hp. cbn in Hp. unfold gate_parks in Hp. rewrite Eg in Hp. lia.
Qed.

(** The waiters of the frame [x] may grow by [f], which then waits. *)
Definition grows (f : Z) (c' : control) (x : Z) (pr pr' : promise) : Prop :=
  bReady pr' = bReady pr /\ (bReady pr = true -> pWaiters pr' = pWaiters pr) /\ (forall n, n ∈ pWaiters pr -> n ∈ pWaiters pr') /\
  (forall p, Single p ∈ pWaiters pr' -> Single p ∈ pWaiters pr \/ p = f /\ c' = Resuming x).

Lemma grows_refl f c' x pr : grows f c' x pr pr.
Proof. split_and!; auto. Qed.

Lemma waited_keep f c c' s s' : waited s -> at_ s !! f = Some c -> (forall g pr, frames s !! g = Some pr -> Single f ∉ pWaiters pr) -> on_done s f = 0%nat ->
  (forall x, x <> f -> at_ s' !! x = at_ s !! x) -> at_ s' !! f = Some c' ->
  (forall x pr', frames s' !! x = Some pr' -> exists pr, frames s !! x = Some pr /\ grows f c' x pr pr') ->
  finishing c' = finishing c ->
  (forall g pr', c' = Resuming g -> frames s' !! g = Some pr' -> bReady pr' = true \/ Single f ∈ pWaiters pr') ->
  (forall x, x <> f -> on_stacks s' x = on_stacks s x) -> (busy c' = true -> on_stacks s' f = 1%nat) ->
  (forall x, on_done s' x = on_done s x) -> next s' = next s -> waited s'.
Proof.
  intros [W1 W2 W3 W4 W5 W6] Ec Hs Hd T Tf F Fi R St Bu Dn Nx. split.
  - intros x pr' cx E Ex. destruct (F x pr' E) as (pr & Epr & G1 & G2 & G3 & G4). rewrite G1. destruct (decide (x = f)) as [->|Hn].
    + rewrite Tf in Ex. injection Ex as <-. destruct (W1 f pr c Epr Ec) as [H1 H2]. rewrite Fi. split; [done|]. intros H. rewrite G2; auto.
    + rewrite T in Ex by done. destruct (W1 x pr cx Epr Ex) as [H1 H2]. split; [done|]. intros H. rewrite G2; auto.
  - intros g pr' p E Hin. destruct (F g pr' E) as (pr & Epr & G1 & G2 & G3 & G4). destruct (G4 p Hin) as [H|[-> ->]]; [|done].
    destruct (decide (p = f)) as [->|Hn]; [by destruct (Hs g pr Epr)|]. rewrite T by done. by eapply W2.
  - intros p g pr' Ep E. destruct (decide (p = f)) as [->|Hn]; [apply (R g); [congruence|done]|]. rewrite T in Ep by done.
    destruct (F g pr' E) as (pr & Epr & G1 & G2 & G3 & G4). destruct (W3 p g pr Ep Epr) as [H|H]; [left; congruence|right; auto].
  - intros x cx Ex Hb. destruct (decide (x = f)) as [->|Hn]; [apply Bu; congruence|]. rewrite T in Ex by done.
    fold (on_stacks s' x). rewrite St by done. by apply (W4 x cx).
  - intros x. fold (on_done s' x). rewrite Dn. intros H. destruct (decide (x = f)) as [->|Hn]; [lia|]. rewrite T by done. by apply W5.
  - intros x Hx. destruct (frames s' !! x) as [pr'|] eqn:E; [|done]. destruct (F x pr' E) as (pr & Epr & _). rewrite W6 in Epr by lia. done.
Qed.

Ltac ones :=
  unfold one in *;
  repeat match goal with
  | H : context [Z.eq_dec ?a ?b] |- _ => destruct (Z.eq_dec a b)
  | |- context [Z.eq_dec ?a ?b] => destruct (Z.eq_dec a b)
  end; try congruence.

Ltac thr := intros; unfold on_stacks, on_done in *; cbn -[one cnt msum] in *; sums; ones; lia.

Ltac keep f W Ec Hw Hd Hat := eapply (waited_keep f); [exact W|exact Ec|exact Hw|exact Hd|apply Hat|apply Hat| |try done|try done|try thr|try thr|try thr|try done].

Lemma go_waited t f st dn c s s' : inv s -> threads s !! t = Some (mkThread (f :: st) dn) -> at_ s !! f = Some c ->
  go t (mkThread (f :: st) dn) f c s = Some (Ok s') -> waited s'.
Proof.
  intros [A W J] Et Ec. destruct (stack_only s t f st dn Et A) as (Hs & Hd & Hw & Hst & _ & _).
  assert (forall c', (forall x, x <> f -> <[f := c']> (at_ s) !! x = at_ s !! x) /\ <[f := c']> (at_ s) !! f = Some c') as Hat.
  { intros c'. split; [intros; by rewrite lookup_insert_ne|by rewrite lookup_insert_eq]. }
  assert (forall c' x pr', frames s !! x = Some pr' -> exists pr, frames s !! x = Some pr /\ grows f c' x pr pr') as Hsame by (intros; eexists; split; [done|apply grows_refl]).
  assert (forall c' g pr pr', frames s !! g = Some pr -> grows f c' g pr pr' ->
    forall x q, <[g := pr']> (frames s) !! x = Some q -> exists pr, frames s !! x = Some pr /\ grows f c' x pr q) as Hput.
  { intros c' g pr pr' E G x q. look g x; [intros [= <-]; eauto|auto]. }
  destruct c; cbn [go].
  - done.
  - destruct (done _); [|done]. unfold promise_of. destruct (frames s !! g) as [pr|] eqn:E; [|done]. cbn [rbind]. intros [= <-].
    destruct (bReady pr) eqn:Er; keep f W Ec Hw Hd Hat; try apply Hsame. intros h pr' [= <-]. cbn. rewrite E. intros [= <-]. by left.
  - unfold promise_of. destruct (frames s !! g) as [pr|] eqn:E; [|done]. cbn [rbind]. destruct (bReady pr) eqn:Er; intros [= <-].
    + keep f W Ec Hw Hd Hat; [apply Hsame|]. intros h pr' [= <-]. cbn. rewrite E. intros [= <-]. by left.
    + keep f W Ec Hw Hd Hat.
      * apply (Hput _ g pr); [done|]. split_and!; cbn; [done|congruence|intros n Hn; by right|].
        intros p Hp. apply elem_of_cons in Hp as [[= ->]|Hp]; auto.
      * intros h pr' [= <-]. cbn. rewrite lookup_insert_eq. intros [= <-]. right. by left.
  - unfold promise_of. destruct (frames s !! g) as [pr|] eqn:E; [|done]. cbn [rbind]. intros [= <-].
    destruct (stError pr); keep f W Ec Hw Hd Hat; [|apply Hsame]. apply (Hput _ g pr); [done|by split_and!; auto].
  - destruct (done _); [|done]. unfold join_of. destruct (joins s !! f) as [j|] eqn:Ej; [|done]. cbn [rbind].
    destruct (vTasks j) as [|g l] eqn:El; intros [= <-]; (keep f W Ec Hw Hd Hat; [apply Hsame]).
  - unfold join_of. destruct (joins s !! f) as [j|] eqn:Ej; [|done]. cbn [rbind].
    destruct (vTasks j !! i) as [g|]; [|intros [= <-]; (keep f W Ec Hw Hd Hat; [apply Hsame])].
    unfold promise_of. destruct (frames s !! g) as [pr|] eqn:E; [|done]. cbn [rbind]. destruct (bReady pr) eqn:Er; intros [= <-].
    + keep f W Ec Hw Hd Hat. apply Hsame.
    + keep f W Ec Hw Hd Hat. apply (Hput _ g pr); [done|]. split_and!; cbn; [done|congruence|intros n Hn; by right|].
      intros p Hp. apply elem_of_cons in Hp as [[=]|Hp]; auto.
  - unfold join_of. destruct (joins s !! f) as [j|] eqn:Ej; [|done]. cbn [rbind]. intros [= <-].
    destruct (iLeft j =? 1); (keep f W Ec Hw Hd Hat; apply Hsame).
  - unfold join_of. destruct (joins s !! f) as [j|] eqn:Ej; [|done]. cbn [rbind]. intros [= <-]. keep f W Ec Hw Hd Hat; apply Hsame.
  - unfold join_of. destruct (joins s !! f) as [j|] eqn:Ej; [|done]. cbn [rbind].
    destruct (iGate j); intros [= <-]; (keep f W Ec Hw Hd Hat; apply Hsame).
  - unfold join_of. destruct (joins s !! f) as [j|] eqn:Ej; [|done]. cbn [rbind]. intros [= <-]. keep f W Ec Hw Hd Hat; apply Hsame.
  - unfold promise_of. destruct (frames s !! f) as [pr|] eqn:E; [|done]. cbn [rbind]. intros [= <-]. unfold ReportError.
    destruct (bDetached pr), (bErrorReported pr); (keep f W Ec Hw Hd Hat; first [apply Hsame|apply (Hput _ f pr); [done|by split_and!; auto]]).
  - unfold promise_of. destruct (frames s !! f) as [pr|] eqn:E; [|done]. cbn [rbind]. intros [= <-]. destruct W as [W1 W2 W3 W4 W5 W6]. split; cbn.
    + intros x pr' cx. look f x; [intros [= <-] [= <-]; by split|]. apply W1.
    + intros g pr' p. look f g; [intros [= <-] Hin; cbn in Hin; by apply elem_of_nil in Hin|]. intros E' Hin. specialize (W2 _ _ _ E' Hin).
      rewrite lookup_insert_ne; [done|]. intros ->. rewrite Ec in W2. done.
    + intros p g pr'. look f p; [done|]. look f g; [intros _ [= <-]; by left|]. apply W3.
    + intros x cx. look f x; [intros [= <-] _; apply Hs|]. apply W4.
    + intros x H. specialize (W5 x H). rewrite lookup_insert_ne; [done|]. intros ->. congruence.
    + intros x Hx. look f x; [|by apply W6]. by rewrite W6 in E.
  - destruct ns as [|[p|p] ns].
    + intros [= <-]. destruct W as [W1 W2 W3 W4 W5 W6]. split; cbn.
      * intros x pr' cx E. look f x; [|by apply W1]. intros [= <-]. by apply (W1 f pr' (Waking [])).
      * intros g pr' p E' Hin. specialize (W2 _ _ _ E' Hin). rewrite lookup_insert_ne; [done|]. intros ->. congruence.
      * intros p g pr'. look f p; [done|]. apply W3.
      * intros x cx. look f x; [by intros [= <-]|]. intros E Hb. specialize (W4 x cx E Hb). revert W4. cbn. sums. rewrite one_diff in * by congruence. lia.
      * intros x H. look f x; [done|]. apply W5. revert H. sums. rewrite one_diff in * by congruence. lia.
      * done.
    + unfold promise_of. destruct (frames s !! p); [|done]. cbn [rbind]. intros [= <-]. keep f W Ec Hw Hd Hat; apply Hsame.
    + unfold join_of. destruct (joins s !! p) as [j|] eqn:Ej; [|done]. cbn [rbind]. intros [= <-].
      destruct (iLeft j =? 1); (keep f W Ec Hw Hd Hat; apply Hsame).
  - unfold join_of. destruct (joins s !! p) as [j|] eqn:Ej; [|done]. cbn [rbind]. intros [= <-].
    destruct (iGate j); (keep f W Ec Hw Hd Hat; apply Hsame).
  - unfold join_of. destruct (joins s !! p) as [j|] eqn:Ej; [|done]. cbn [rbind]. intros [= <-]. keep f W Ec Hw Hd Hat; apply Hsame.
  - done.
Qed.

(** A new frame changes nothing for the others. *)
Lemma create_waited iToken bDet s g s1 s' : accounted s -> waited s -> create iToken bDet s = (g, s1) ->
  frames s' = frames s1 -> at_ s' = at_ s1 -> next s' = next s1 ->
  (forall x, x <> g -> on_stacks s' x = on_stacks s x) -> (forall x, on_done s' x = on_done s x) -> waited s'.
Proof.
  intros A W [= <- <-] F T N St Dn. pose proof W as [W1 W2 W3 W4 W5 W6]. assert (frames s !! next s = None) as E by (apply W6; lia).
  pose proof (A (next s)) as Ag. rewrite E in Ag. destruct (at_ s !! next s) eqn:Ec; [done|].
  split; rewrite ?F, ?T, ?N; cbn.
  - intros x pr c. look (next s) x; [intros [= <-] [= <-]; by split|apply W1].
  - intros x pr p. look (next s) x; [intros [= <-] H; cbn in H; by apply elem_of_nil in H|]. intros E' H. specialize (W2 _ _ _ E' H).
    rewrite lookup_insert_ne; [done|]. intros <-. congruence.
  - intros p x pr. look (next s) p; [done|]. intros Ep. look (next s) x; [|by apply W3].
    intros _. pose proof (msum_ge (awaits (next s)) _ _ _ Ep) as H. cbn in H. rewrite one_same in H. unfold holders in Ag. lia.
  - intros x c. look (next s) x; [by intros [= <-]|]. intros Ex Hb. fold (on_stacks s' x). rewrite St by done. by apply (W4 x c).
  - intros x. fold (on_done s' x). rewrite Dn. intros H. specialize (W5 x H). rewrite lookup_insert_ne; [done|]. intros <-. congruence.
  - intros x Hx. look (next s) x; [lia|]. apply W6. lia.
Qed.

Lemma act_waited t f st dn a s s' : inv s -> threads s !! t = Some (mkThread (f :: st) dn) -> at_ s !! f = Some Body ->
  act t (mkThread (f :: st) dn) f a s = Some (Ok s') -> waited s'.
Proof.
  intros [A W J] Et Ec. destruct (stack_only s t f st dn Et A) as (Hs & Hd & Hw & Hst & _ & _).
  assert (forall c', (forall x, x <> f -> <[f := c']> (at_ s) !! x = at_ s !! x) /\ <[f := c']> (at_ s) !! f = Some c') as Hat.
  { intros c'. split; [intros; by rewrite lookup_insert_ne|by rewrite lookup_insert_eq]. }
  assert (forall c' x pr', frames s !! x = Some pr' -> exists pr, frames s !! x = Some pr /\ grows f c' x pr pr') as Hsame by (intros; eexists; split; [done|apply grows_refl]).
  assert (forall c' g pr pr', frames s !! g = Some pr -> bReady pr' = bReady pr -> pWaiters pr' = pWaiters pr ->
    forall x q, <[g := pr']> (frames s) !! x = Some q -> exists pr, frames s !! x = Some pr /\ grows f c' x pr q) as Hput.
  { intros c' g pr pr' E R P x q. look g x; [intros [= <-]; exists pr; split; [done|]|auto]. unfold grows. rewrite R, P. by split_and!; auto. }
  destruct a; cbn [act].
  - destruct (create iToken bDet s) as [g s1] eqn:E. pose proof E as E'. injection E' as <- <-. intros [= <-].
    destruct bPost; (eapply (create_waited iToken bDet s); [exact A|exact W|reflexivity|done|done|done|thr|thr]).
  - case_bool_decide as Hg; [|done]. unfold AddReference, promise_of. destruct (frames s !! g) as [pr|] eqn:E; [|done]. cbn [rbind]. intros [= <-].
    keep f W Ec Hw Hd Hat. by apply (Hput _ g pr).
  - destruct (take_handles _ _); [|done]. intros [= <-]. keep f W Ec Hw Hd Hat. apply Hsame.
  - intros [= <-]. eapply (waited_keep f Body Body); [exact W|exact Ec|exact Hw|exact Hd|done|exact Ec|apply Hsame|done|done|thr|done|thr|done].
  - intros [= <-]. keep f W Ec Hw Hd Hat. apply Hsame.
  - unfold promise_of. destruct (frames s !! f) as [pr|] eqn:E; [|done]. cbn [rbind]. intros [= <-]. keep f W Ec Hw Hd Hat. by apply (Hput _ f pr).
Qed.

Lemma Release_waited g s s' : owing g s -> waited s -> Release g s = Ok s' -> waited s'.
Proof.
  intros A W. pose proof W as [W1 W2 W3 W4 W5 W6]. pose proof (A g) as Ag. rewrite one_same in Ag.
  unfold Release, promise_of. destruct (frames s !! g) as [pr|] eqn:E; [|done]. cbn [rbind].
  destruct (at_ s !! g) as [c|] eqn:Ec; [|done]. destruct Ag as (A1 & A2 & A3). destruct (Z.eqb_spec (iReferences pr) 1) as [E1|E1].
  - assert (places s g = 0%nat) as P0 by (unfold holders in A1; lia). destruct A3 as [[A3 _]|[_ ->]]; [lia|]. intros [= <-].
    assert (exists fr, frames (if stError pr && negb (bObserved pr) then ReportError g pr s else s) = fr /\ delete g fr = delete g (frames s) /\
      at_ (if stError pr && negb (bObserved pr) then ReportError g pr s else s) = at_ s /\
      threads (if stError pr && negb (bObserved pr) then ReportError g pr s else s) = threads s /\
      next (if stError pr && negb (bObserved pr) then ReportError g pr s else s) = next s) as (fr & E2 & E3 & E4 & E5 & E6).
    { destruct (stError pr && _); [unfold ReportError; destruct (bErrorReported pr)|]; [by exists (frames s)| |by exists (frames s)].
      eexists. split_and!; [reflexivity|apply delete_insert_eq|done..]. }
    split; cbn; rewrite ?E2, ?E3, ?E4, ?E5, ?E6.
    + intros x px cx. look g x; [done|]. apply W1.
    + intros x px p. look g x; [done|]. intros Ex H. specialize (W2 x px p Ex H). rewrite lookup_delete_ne; [done|]. intros ->. congruence.
    + intros p x px. look g p; [done|]. look g x; [done|]. apply W3.
    + intros x cx. look g x; [done|]. apply W4.
    + intros x H. specialize (W5 x H). rewrite lookup_delete_ne; [done|]. intros ->. unfold places in P0. lia.
    + intros x Hx. look g x; [done|]. by apply W6.
  - intros [= <-]. split; cbn.
    + intros x px cx. look g x; [intros [= <-] Ex; by apply (W1 g pr)|]. apply W1.
    + intros x px p. look g x; [intros [= <-]; exact (W2 g pr p E)|]. apply W2.
    + intros p x px Ep. look g x; [intros [= <-]; exact (W3 p g pr Ep E)|]. by apply W3.
    + apply W4.
    + apply W5.
    + intros x Hx. look g x; [|by apply W6]. by rewrite W6 in E.
Qed.

Lemma do_event_waited e s s' : inv s -> do_event e s = Some (Ok s') -> waited s'.
Proof.
  intros I. pose proof I as [A W J]. destruct e; cbn [do_event].
  - destruct (threads s !! t) as [[[|f st] dn]|] eqn:Et; cbn [stack]; try done. destruct (at_ s !! f) as [c|] eqn:Ec; [|done]. by eapply go_waited.
  - destruct (threads s !! t) as [[[|f st] dn]|] eqn:Et; cbn [stack]; try done. destruct (at_ s !! f) as [[]|] eqn:Ec; try done. by eapply act_waited.
  - destruct (threads s !! t) as [[[|? ?] [|? ?]]|] eqn:Et; try done. destruct (queue s) as [|f q] eqn:Eq; [done|]. intros [= <-].
    pose proof W as [W1 W2 W3 W4 W5 W6]. split; try done.
    + intros x c Ex Hb. specialize (W4 x c Ex Hb). pose proof (accounted_place s x A) as Hp. unfold places in Hp. rewrite Eq, cnt_one in Hp.
      revert W4. cbn. sums. lia.
    + intros x. cbn. sums. intros H. apply W5. lia.
  - destruct (threads s !! t) as [[st [|g dn]]|] eqn:Et; cbn [done]; try done. destruct (may_drain _ _); [|done]. intros [= E].
    destruct (drain_owing t st g dn s I Et). by eapply Release_waited.
  - destruct (create iToken bDet s) as [g s1] eqn:E. pose proof E as E'. injection E' as <- <-. intros [= <-].
    eapply (create_waited iToken bDet s); [exact A|exact W|reflexivity|done|done|done|thr|thr].
  - case_bool_decide as Hg; [|done]. intros [= E]. destruct (Start_spec _ _ _ _ E) as (pr & pr' & n & l & Ep & -> & R1 & R2 & R3 & _).
    destruct W as [W1 W2 W3 W4 W5 W6]. split; cbn; [| | |done|done|].
    + intros x px cx. look g x; [intros [= <-] Ex; rewrite R2, R3; by apply (W1 g pr)|]. apply W1.
    + intros x px p. look g x; [intros [= <-]; rewrite R3; exact (W2 g pr p Ep)|]. apply W2.
    + intros p x px Ep'. look g x; [intros [= <-]; rewrite R2, R3; exact (W3 p g pr Ep' Ep)|]. by apply W3.
    + intros x Hx. look g x; [|by apply W6]. by rewrite W6 in Ep.
  - case_bool_decide as Hg; [|done]. unfold AddReference, promise_of. destruct (frames s !! g) as [pr|] eqn:E; [|done]. cbn [rbind]. intros [= <-].
    destruct W as [W1 W2 W3 W4 W5 W6]. split; cbn; [| | |done|done|].
    + intros x px cx. look g x; [intros [= <-] Ex; by apply (W1 g pr)|]. apply W1.
    + intros x px p. look g x; [intros [= <-]; exact (W2 g pr p E)|]. apply W2.
    + intros p x px Ep'. look g x; [intros [= <-]; exact (W3 p g pr Ep' E)|]. by apply W3.
    + intros x Hx. look g x; [|by apply W6]. by rewrite W6 in E.
  - case_bool_decide as Hg; [|done]. intros [= E]. destruct (drop_owing g s I Hg). by eapply Release_waited.
  - case_bool_decide; [|done]. intros [= <-]. destruct W. by split.
Qed.

(** ** Joins *)

(** What a step may do to the frame [g] as far as the join of [p] is concerned. *)
Definition slotted (p : Z) (pr pr' : promise) : Prop :=
  (bReady pr = true -> bReady pr' = true) /\ (Slot p ∈ pWaiters pr' -> Slot p ∈ pWaiters pr) /\
  (Slot p ∈ pWaiters pr -> bReady pr' = true \/ Slot p ∈ pWaiters pr').

Lemma slotted_refl p pr : slotted p pr pr.
Proof. split_and!; auto. Qed.

Lemma joined_at_keep s s' p : joined_at s p -> joins s' !! p = joins s !! p -> slots s' p = slots s p ->
  msum (last_of p) (at_ s') = msum (last_of p) (at_ s) -> (msum (posting p) (at_ s') <= msum (posting p) (at_ s))%nat ->
  (forall c, joining c = true -> at_ s !! p = Some c <-> at_ s' !! p = Some c) ->
  (forall g pr', frames s' !! g = Some pr' -> (exists pr, frames s !! g = Some pr /\ slotted p pr pr') \/
    (pWaiters pr' = [] /\ forall j, joins s !! p = Some j -> g ∉ vTasks j)) -> joined_at s' p.
Proof.
  intros [J1 J2 J3 J4 J5] Ej Sl La Po T F. split; rewrite ?Ej.
  - intros j Hj. destruct (J1 j Hj) as (c & Ec & Hc & H). exists c. rewrite La, Sl. split; [by apply T|done].
  - intros Hj. destruct (J2 Hj) as (H1 & H2 & H3). rewrite Sl, La. split_and!; [done..|]. intros c Ec. destruct (joining c) eqn:E; [|done].
    rewrite (H3 c) in E; [done|by apply T].
  - intros H. apply T; [done|]. apply J3. lia.
  - intros g pr' E Hin. destruct (F g pr' E) as [(pr & Epr & H1 & H2 & H3)|[H1 _]]; [eapply J4; eauto|]. rewrite H1 in Hin. by apply elem_of_nil in Hin.
  - intros j c i g pr' Hj Ec Ei Hl E. destruct (J1 j Hj) as (c0 & Ec0 & Hc0 & _).
    assert (c0 = c) as -> by (apply T in Ec0; [congruence|done]). destruct (F g pr' E) as [(pr & Epr & H1 & H2 & H3)|[_ H]].
    + destruct (J5 j c i g pr Hj Ec0 Ei Hl Epr); auto.
    + destruct (H j Hj). by eapply list_elem_of_lookup_2.
Qed.

(** A step in the WhenAllState of [p]. *)
Lemma joined_at_step s s' p c c' j j' : joined_at s p -> joins s !! p = Some j -> joins s' !! p = Some j' -> vTasks j' = vTasks j -> vTasks j <> [] ->
  at_ s !! p = Some c -> at_ s' !! p = Some c' -> joining c' = true -> c' <> AllChecking ->
  gate_ok c' j' (msum (last_of p) (at_ s')) -> iLeft j' = Z.of_nat (slots s' p) + todo c' (length (vTasks j)) ->
  (forall i, (c' = Counting i \/ c' = Gating i -> (i < length (vTasks j))%nat) /\ (c' = Linking i -> (i <= length (vTasks j))%nat)) ->
  ((0 < msum (posting p) (at_ s'))%nat -> c' = AllParked) ->
  (forall g pr', frames s' !! g = Some pr' -> exists pr, frames s !! g = Some pr /\ (bReady pr = true -> bReady pr' = true) /\
    (Slot p ∈ pWaiters pr' -> Slot p ∈ pWaiters pr \/ g ∈ vTasks j) /\ (Slot p ∈ pWaiters pr -> bReady pr' = true \/ Slot p ∈ pWaiters pr')) ->
  (forall i g pr', linked c' i -> vTasks j !! i = Some g -> frames s' !! g = Some pr' -> linked c i \/ bReady pr' = true \/ Slot p ∈ pWaiters pr') ->
  joined_at s' p.
Proof.
  intros [J1 J2 J3 J4 J5] Ej Ej' Ev Hv Ec Ec' Hc Hn G L B P F K. split.
  - intros j0. rewrite Ej'. intros [= <-]. exists c'. rewrite Ev. split_and!; [done..|intros; split; done|done].
  - rewrite Ej'. done.
  - intros H. by rewrite Ec', (P H).
  - intros g pr' E Hin. exists j'. rewrite Ej', Ev. split; [done|]. destruct (F g pr' E) as (pr & Epr & _ & H & _). destruct (H Hin) as [H1|H1]; [|done].
    destruct (J4 g pr Epr H1) as (j0 & Ej0 & H2). congruence.
  - intros j0 c0 i g pr'. rewrite Ej', Ec'. intros [= <-] [= <-]. rewrite Ev. intros Ei Hl E. destruct (K i g pr' Hl Ei E) as [H|H]; [|done].
    destruct (F g pr' E) as (pr & Epr & H1 & _ & H2). destruct (J5 j c i g pr Ej Ec Ei H Epr); auto.
Qed.

Lemma joined_at_none s p : joins s !! p = None -> slots s p = 0%nat -> msum (last_of p) (at_ s) = 0%nat -> msum (posting p) (at_ s) = 0%nat ->
  (forall c, at_ s !! p = Some c -> joining c = false) -> joined_at s p.
Proof.
  intros Ej Sl La Po T. split; rewrite ?Ej; [done|intros _; by split_and!|lia| |done].
  intros g pr E Hin%slots_in_in. pose proof (msum_ge (fun pr => slots_in p (pWaiters pr)) _ _ _ E) as H. cbn in H. unfold slots in Sl. lia.
Qed.

Lemma not_posting p (m : gmap Z control) : msum (to_wake p) m = 0%nat -> msum (posting p) m = 0%nat.
Proof.
  intros H. destruct (msum (posting p) m) eqn:E; [done|]. destruct (msum_pos (posting p) m) as (k & c & Ek & Hc); [lia|].
  pose proof (msum_ge (to_wake p) m k c Ek). destruct c; cbn in *; lia.
Qed.

Ltac jsum := unfold slots; cbn -[one cnt msum Z.add Z.sub]; sums; first [lia|ones; lia].
Ltac at_other f p Ec := intros ? ?; cbn; look f p; [rewrite Ec; split; intros [= <-]; done|done].
Ltac same_frames := intros; left; eexists; split; [done|apply slotted_refl].
Ltac keepj f s J Ec p :=
  eapply (joined_at_keep s); [apply J|cbn; try (by rewrite ?lookup_insert_ne, ?lookup_delete_ne by done)|jsum|jsum|jsum|at_other f p Ec|].

(** One more slot counted, and the gate opened. *)
Lemma gate_count c j l m n : gate_ok c j l -> c <> AllChecking -> iLeft j = Z.of_nat (S m) + todo c n ->
  (forall i, (c = Counting i \/ c = Gating i -> (i < n)%nat) /\ (c = Linking i -> (i <= n)%nat)) ->
  gate_ok c (mkJoin (vTasks j) (iLeft j - 1) (iGate j)) (if iLeft j =? 1 then S l else l).
Proof.
  intros G Hc L B. assert (1 <= iLeft j) as L1.
  { destruct c; cbn [todo] in *; try lia; destruct (B i) as [B1 B2]; [specialize (B2 eq_refl)|specialize (B1 ltac:(by left))|specialize (B1 ltac:(by right))]; lia. }
  assert (forall X Y : Prop, X /\ Z.of_nat l = (if iLeft j =? 0 then 1 else 0) \/ Y /\ l = 0%nat /\ iLeft j = 0 ->
    X /\ Z.of_nat (if iLeft j =? 1 then S l else l) = (if iLeft j - 1 =? 0 then 1 else 0)) as H.
  { intros X Y [[HX H]|H]; [|lia]. split; [done|]. destruct (Z.eqb_spec (iLeft j) 0); [lia|]. destruct (Z.eqb_spec (iLeft j) 1), (Z.eqb_spec (iLeft j - 1) 0); lia. }
  destruct c; cbn [gate_ok] in *; cbn [iGate iLeft]; try done; try (left; by eapply H). destruct G as (_ & _ & G). lia.
Qed.

Lemma gate_open c j l : gate_ok c j l -> (0 < l)%nat -> iLeft j = 0 /\ l = 1%nat /\ c <> AllChecking /\ (iGate j = Waiting -> c = AllParked) /\ iGate j <> Ready /\
  gate_ok c (mkJoin (vTasks j) (iLeft j) Ready) 0.
Proof.
  intros G Hl. assert (forall X Y : Prop, X /\ Z.of_nat l = (if iLeft j =? 0 then 1 else 0) \/ Y /\ l = 0%nat /\ iLeft j = 0 -> X /\ iLeft j = 0 /\ l = 1%nat) as H.
  { intros X Y [[HX H]|H]; [|lia]. split; [done|]. destruct (Z.eqb_spec (iLeft j) 0); lia. }
  destruct c; cbn [gate_ok] in *; cbn [iGate iLeft]; try (destruct G as (_ & G); lia);
    (destruct (H _ _ G) as (H1 & H2 & H3); rewrite H1, H2; split_and!; try done; by right).
Qed.

Ltac lastis q n := replace (msum (last_of q) (at_ (set_at _ _ _))) with n by (symmetry; jsum).

Ltac samelast f s := replace (msum (last_of f) (at_ _)) with (msum (last_of f) (at_ s)) by (symmetry; jsum).

(** Steps of the coroutine [f] on top of thread [t]. *)
Section Joined.
Context (t f : Z) (st dn : list Z) (s s' : state) (I : inv s) (Et : threads s !! t = Some (mkThread (f :: st) dn)).

Lemma joined_AllChecking : at_ s !! f = Some AllChecking -> go t (mkThread (f :: st) dn) f AllChecking s = Some (Ok s') -> joined s'.
Proof.
  intros Ec. cbn [go].
  destruct I as [A W J]. destruct (stack_only s t f st dn Et A) as (_ & _ & _ & _ & Hg & Hpw). pose proof (not_posting f _ Hpw) as Hpo.
  destruct (done _); [|done]. unfold join_of. destruct (joins s !! f) as [j|] eqn:Ej; [|done]. cbn [rbind].
  destruct (j_some s f (J f) j Ej) as (c0 & Ec0 & _ & G & Sl & _ & _). rewrite Ec in Ec0. injection Ec0 as <-. destruct G as [G1 G2]. specialize (Sl eq_refl).
  destruct (vTasks j) as [|g l] eqn:El; intros [= <-] p; (destruct (decide (p = f)) as [->|Hn]; [|keepj f s J Ec p; same_frames]).
  + apply joined_at_none; cbn; [by rewrite lookup_delete_eq|revert Sl; jsum|revert G2; jsum|revert Hpo; jsum|rewrite lookup_insert_eq; by intros c [= <-]].
  + eapply (joined_at_step s _ f _ _ j); [apply J|exact Ej|cbn; by rewrite lookup_insert_eq|done|congruence|exact Ec|cbn; by rewrite lookup_insert_eq|done|done|..].
    * left. split; [done|]. cbn [iLeft]. destruct (Z.eqb_spec (lenZ (g :: l)) 0) as [E0|E0]; [unfold lenZ in E0; cbn in E0; lia|]. revert G2. jsum.
    * cbn [iLeft todo]. rewrite El. revert Sl. unfold lenZ. jsum.
    * intros i. split; [by intros [?|?]|]. intros [= <-]. lia.
    * revert Hpo. jsum.
    * intros. eexists. split; [done|]. by split_and!; auto.
    * intros i g0 pr' H. cbn in H. lia.
Qed.

Lemma joined_Linking i : at_ s !! f = Some (Linking i) -> go t (mkThread (f :: st) dn) f (Linking i) s = Some (Ok s') -> joined s'.
Proof.
  intros Ec. cbn [go].
  destruct I as [A W J]. destruct (stack_only s t f st dn Et A) as (_ & _ & _ & _ & Hg & Hpw). pose proof (not_posting f _ Hpw) as Hpo.
  unfold join_of. destruct (joins s !! f) as [j|] eqn:Ej; [|done]. cbn [rbind].
  destruct (j_some s f (J f) j Ej) as (c0 & Ec0 & _ & G & _ & L & B). rewrite Ec in Ec0. injection Ec0 as <-. destruct (L ltac:(done)) as [L1 L2].
  destruct (B i) as [_ B1]. specialize (B1 eq_refl). cbn [todo gate_ok] in *.
  destruct (vTasks j !! i) as [g|] eqn:Ei.
  + pose proof (lookup_lt_Some _ _ _ Ei) as Hi.
    unfold promise_of. destruct (frames s !! g) as [pr|] eqn:E; [|done]. cbn [rbind]. destruct (bReady pr) eqn:Er; intros [= <-] p;
      (destruct (decide (p = f)) as [->|Hn]; [|keepj f s J Ec p; [try same_frames]]).
    * eapply (joined_at_step s _ f _ _ j); [apply J|exact Ej|done|done|done|exact Ec|cbn; by rewrite lookup_insert_eq|done|done|..].
      -- samelast f s. exact G.
      -- cbn [todo]. revert L1. jsum.
      -- intros k. split; [intros [[= <-]|?]; done|done].
      -- revert Hpo. jsum.
      -- intros. eexists. split; [done|]. by split_and!; auto.
      -- intros k g0 pr' H Hk. cbn in *. intros E'. destruct (decide (k = i)) as [->|]; [right; left; congruence|left; lia].
    * eapply (joined_at_step s _ f _ _ j); [apply J|exact Ej|done|done|done|exact Ec|cbn; by rewrite lookup_insert_eq|done|done|..].
      -- samelast f s. exact G.
      -- cbn [todo]. revert L1. jsum.
      -- intros k. split; [by intros [?|?]|]. intros [= <-]. lia.
      -- revert Hpo. jsum.
      -- intros x pr'. cbn. look g x; [intros [= <-]; exists pr|intros; eexists; split; [done|by split_and!; auto]].
         split; [done|]. split_and!; cbn; [congruence| |by right; right]. intros _. right. by eapply list_elem_of_lookup_2.
      -- intros k x pr' H Hk. cbn in *. destruct (decide (k = i)) as [->|]; [|left; lia]. rewrite Ei in Hk. injection Hk as <-. rewrite lookup_insert_eq.
         intros [= <-]. right. right. by left.
    * intros x pr'. cbn. look g x; [intros [= <-]|by same_frames]. left. exists pr. split; [done|].
      split_and!; cbn; [congruence| |by right; right]. intros H. by apply elem_of_cons in H as [[= ->]|H].
  + pose proof (lookup_ge_None_1 _ _ Ei) as Hi. intros [= <-] p. destruct (decide (p = f)) as [->|Hn]; [|keepj f s J Ec p; same_frames].
    eapply (joined_at_step s _ f _ _ j); [apply J|exact Ej|done|done|done|exact Ec|cbn; by rewrite lookup_insert_eq|done|done|..].
    * samelast f s. exact G.
    * cbn [todo]. revert L1. jsum.
    * intros k. split; [by intros [?|?]|done].
    * revert Hpo. jsum.
    * intros. eexists. split; [done|]. by split_and!; auto.
    * intros k x pr' _ Hk. left. cbn. apply lookup_lt_Some in Hk. lia.
Qed.

Lemma joined_Counting i : at_ s !! f = Some (Counting i) -> go t (mkThread (f :: st) dn) f (Counting i) s = Some (Ok s') -> joined s'.
Proof.
  intros Ec. cbn [go].
  destruct I as [A W J]. destruct (stack_only s t f st dn Et A) as (_ & _ & _ & _ & Hg & Hpw). pose proof (not_posting f _ Hpw) as Hpo.
  unfold join_of. destruct (joins s !! f) as [j|] eqn:Ej; [|done]. cbn [rbind]. intros [= <-] p.
  destruct (j_some s f (J f) j Ej) as (c0 & Ec0 & _ & G & _ & L & B). rewrite Ec in Ec0. injection Ec0 as <-. destruct (L ltac:(done)) as [L1 L2].
  destruct (B i) as [B1 _]. specialize (B1 ltac:(by left)). cbn [todo gate_ok] in *.
  destruct (decide (p = f)) as [->|Hn]; [|destruct (iLeft j =? 1); (keepj f s J Ec p; same_frames)].
  destruct (Z.eqb_spec (iLeft j) 1) as [E1|E1].
  + eapply (joined_at_step s _ f _ _ j); [apply J|exact Ej|cbn; by rewrite lookup_insert_eq|done|done|exact Ec|cbn; by rewrite lookup_insert_eq|done|done|..].
    * samelast f s. cbn. rewrite E1 in *. destruct G as [[G1 G2]|G]; cbn in *; [|lia]. split_and!; [done|lia|lia].
    * cbn [todo iLeft]. revert L1. jsum.
    * intros k. split; [|done]. intros [[=]|[= <-]]. done.
    * revert Hpo. jsum.
    * intros. eexists. split; [done|]. by split_and!; auto.
    * intros k x pr' H Hk. by left.
  + eapply (joined_at_step s _ f _ _ j); [apply J|exact Ej|cbn; by rewrite lookup_insert_eq|done|done|exact Ec|cbn; by rewrite lookup_insert_eq|done|done|..].
    * samelast f s. cbn. destruct G as [[G1 G2]|G]; [left|right]. all: cbn in *. all: try lia.
      split; [done|]. destruct (Z.eqb_spec (iLeft j - 1) 0); [lia|]. destruct (Z.eqb_spec (iLeft j) 0); lia.
    * cbn [todo iLeft]. revert L1. jsum.
    * intros k. split; [by intros [?|?]|]. intros [= <-]. lia.
    * revert Hpo. jsum.
    * intros. eexists. split; [done|]. by split_and!; auto.
    * intros k x pr' H Hk. left. cbn in *. lia.
Qed.

Lemma joined_Gating i : at_ s !! f = Some (Gating i) -> go t (mkThread (f :: st) dn) f (Gating i) s = Some (Ok s') -> joined s'.
Proof.
  intros Ec. cbn [go].
  destruct I as [A W J]. destruct (stack_only s t f st dn Et A) as (_ & _ & _ & _ & Hg & Hpw). pose proof (not_posting f _ Hpw) as Hpo.
  unfold join_of. destruct (joins s !! f) as [j|] eqn:Ej; [|done]. cbn [rbind]. intros [= <-] p.
  destruct (j_some s f (J f) j Ej) as (c0 & Ec0 & _ & G & _ & L & B). rewrite Ec in Ec0. injection Ec0 as <-. destruct (L ltac:(done)) as [L1 L2].
  destruct (B i) as [B1 _]. specialize (B1 ltac:(by right)). cbn [todo gate_ok] in *.
  destruct (decide (p = f)) as [->|Hn]; [|keepj f s J Ec p; same_frames].
  eapply (joined_at_step s _ f _ _ j); [apply J|exact Ej|cbn; by rewrite lookup_insert_eq|done|done|exact Ec|cbn; by rewrite lookup_insert_eq|done|done|..].
  + samelast f s. cbn. right. tauto.
  + cbn [todo iLeft]. revert L1. jsum.
  + intros k. split; [by intros [?|?]|]. intros [= <-]. lia.
  + revert Hpo. jsum.
  + intros. eexists. split; [done|]. by split_and!; auto.
  + intros k x pr' H Hk. left. cbn in *. lia.
Qed.

Lemma joined_Ending : at_ s !! f = Some Ending -> go t (mkThread (f :: st) dn) f Ending s = Some (Ok s') -> joined s'.
Proof.
  intros Ec. cbn [go].
  destruct I as [A W J]. destruct (stack_only s t f st dn Et A) as (_ & _ & _ & _ & Hg & Hpw). pose proof (not_posting f _ Hpw) as Hpo.
  unfold join_of. destruct (joins s !! f) as [j|] eqn:Ej; [|done]. cbn [rbind].
  destruct (j_some s f (J f) j Ej) as (c0 & Ec0 & _ & G & _ & L & B). rewrite Ec in Ec0. injection Ec0 as <-. destruct (L ltac:(done)) as [L1 L2].
  cbn [todo gate_ok] in *. destruct G as [[G1 G2]|(G1 & G2 & G3)]; rewrite G1; intros [= <-] p; (destruct (decide (p = f)) as [->|Hn]; [|keepj f s J Ec p; same_frames]).
  + eapply (joined_at_step s _ f _ _ j); [apply J|exact Ej|cbn; by rewrite lookup_insert_eq|done|done|exact Ec|cbn; by rewrite lookup_insert_eq|done|done|..].
    * samelast f s. cbn. left. by split.
    * cbn [todo iLeft]. revert L1. jsum.
    * intros k. split; [by intros [?|?]|done].
    * done.
    * intros. eexists. split; [done|]. by split_and!; auto.
    * intros k x pr' H Hk. by left.
  + apply joined_at_none; cbn; [by rewrite lookup_delete_eq|revert L1; jsum|revert G2; jsum|revert Hpo; jsum|rewrite lookup_insert_eq; by intros c [= <-]].
Qed.

Lemma joined_AllParked : at_ s !! f = Some AllParked -> go t (mkThread (f :: st) dn) f AllParked s = Some (Ok s') -> joined s'.
Proof.
  intros Ec. cbn [go].
  destruct I as [A W J]. destruct (stack_only s t f st dn Et A) as (_ & _ & _ & _ & Hg & Hpw). pose proof (not_posting f _ Hpw) as Hpo.
  unfold join_of. destruct (joins s !! f) as [j|] eqn:Ej; [|done]. cbn [rbind].
  destruct (j_some s f (J f) j Ej) as (c0 & Ec0 & _ & G & _ & L & B). rewrite Ec in Ec0. injection Ec0 as <-. destruct (L ltac:(done)) as [L1 L2].
  cbn [todo gate_ok] in *. destruct G as [[G1 G2]|(G1 & G2 & G3)]; [by destruct (Hg j eq_refl)|].
  intros [= <-] p. destruct (decide (p = f)) as [->|Hn]; [|keepj f s J Ec p; same_frames].
  apply joined_at_none; cbn; [by rewrite lookup_delete_eq|revert L1; jsum|revert G2; jsum|revert Hpo; jsum|rewrite lookup_insert_eq; by intros c [= <-]].
Qed.

Lemma joined_Waking_Slot q ns : at_ s !! f = Some (Waking (Slot q :: ns)) -> go t (mkThread (f :: st) dn) f (Waking (Slot q :: ns)) s = Some (Ok s') -> joined s'.
Proof.
  intros Ec. cbn [go].
  destruct I as [A W J]. destruct (stack_only s t f st dn Et A) as (_ & _ & _ & _ & Hg & Hpw). pose proof (not_posting f _ Hpw) as Hpo.
  unfold join_of. destruct (joins s !! q) as [j|] eqn:Ej; [|done]. cbn [rbind]. intros [= <-] p.
  assert (0 < slots s q)%nat as Hq.
  { pose proof (msum_ge (to_count q) _ _ _ Ec) as H. cbn in H. rewrite one_same in H. unfold slots. lia. }
  destruct (decide (p = q)) as [->|Hn]; [|destruct (iLeft j =? 1); (keepj f s J Ec p; same_frames)].
  destruct (j_some s q (J q) j Ej) as (cq & Ecq & Hj & G & Sq & L & B). assert (cq <> AllChecking) as Hcq by (intros ->; specialize (Sq eq_refl); lia).
  destruct (L Hcq) as [L1 L2]. assert (q <> f) as Hqf by (intros ->; rewrite Ec in Ecq; by injection Ecq as <-).
  destruct (slots s q) as [|m] eqn:Em; [lia|]. pose proof (gate_count cq j _ m _ G Hcq L1 B) as G'. revert Em.
  destruct (Z.eqb_spec (iLeft j) 1) as [E1|E1]; intros Em;
    (eapply (joined_at_step s _ q _ _ j); [apply J|exact Ej|cbn; by rewrite lookup_insert_eq|done|done|exact Ecq|cbn; by rewrite lookup_insert_ne|done|done|..]).
  all: try (intros; eexists; split; [done|by split_and!; auto]).
  all: try (intros; by left).
  all: try exact B.
  * lastis q (S (msum (last_of q) (at_ s))). exact G'.
  * cbn [iLeft]. revert L1 Em. jsum.
  * intros H. assert (0 < msum (posting q) (at_ s))%nat as H1 by (revert H; jsum). apply (j_post s q (J q)) in H1. congruence.
  * lastis q (msum (last_of q) (at_ s)). exact G'.
  * cbn [iLeft]. revert L1 Em. jsum.
  * intros H. assert (0 < msum (posting q) (at_ s))%nat as H1 by (revert H; jsum). apply (j_post s q (J q)) in H1. congruence.
Qed.

Lemma joined_LastOf p ns : at_ s !! f = Some (LastOf p ns) -> go t (mkThread (f :: st) dn) f (LastOf p ns) s = Some (Ok s') -> joined s'.
Proof.
  intros Ec. cbn [go].
  destruct I as [A W J]. destruct (stack_only s t f st dn Et A) as (_ & _ & _ & _ & Hg & Hpw). pose proof (not_posting f _ Hpw) as Hpo.
  unfold join_of. destruct (joins s !! p) as [j|] eqn:Ej; [|done]. cbn [rbind]. intros [= <-] x.
  destruct (j_some s p (J p) j Ej) as (cq & Ecq & Hj & G & Sq & L & B).
  assert (0 < msum (last_of p) (at_ s))%nat as Hl.
  { pose proof (msum_ge (last_of p) _ _ _ Ec) as H. cbn in H. rewrite one_same in H. lia. }
  destruct (gate_open cq j _ G Hl) as (G1 & G2 & Hcq & Gw & Gr & G3). destruct (L Hcq) as [L1 L2].
  assert (p <> f) as Hqf by (intros ->; rewrite Ec in Ecq; by injection Ecq as <-).
  destruct (decide (x = p)) as [->|Hn]; [|destruct (iGate j); (keepj f s J Ec x; same_frames)].
  assert (forall c', last_of p c' = 0%nat -> msum (last_of p) (<[f := c']> (at_ s)) = 0%nat) as Hl'.
  { intros c' H. pose proof (msum_insert (last_of p) (at_ s) f c') as H1. rewrite Ec, H in H1. cbn in H1. rewrite one_same in H1. lia. }
  destruct (iGate j) eqn:Eg; [|done|];
    (eapply (joined_at_step s _ p _ _ j); [apply J|exact Ej|cbn; by rewrite lookup_insert_eq|done|done|exact Ecq|cbn; by rewrite lookup_insert_ne|done|done|..]).
  all: try (intros; eexists; split; [done|by split_and!; auto]).
  all: try (intros; by left).
  all: try exact B.
  + cbn. rewrite Hl' by done. exact G3.
  + cbn [iLeft]. revert L1. jsum.
  + intros H. assert (0 < msum (posting p) (at_ s))%nat as H1 by (revert H; jsum). apply (j_post s p (J p)) in H1. congruence.
  + cbn. rewrite Hl' by done. exact G3.
  + cbn [iLeft]. revert L1. jsum.
  + intros _. by apply Gw.
Qed.

End Joined.

Lemma go_joined t f st dn c s s' : inv s -> threads s !! t = Some (mkThread (f :: st) dn) -> at_ s !! f = Some c ->
  go t (mkThread (f :: st) dn) f c s = Some (Ok s') -> joined s'.
Proof.
  intros I Et Ec. pose proof I as [A W J]. destruct (stack_only s t f st dn Et A) as (_ & _ & _ & _ & Hg & Hpw). pose proof (not_posting f _ Hpw) as Hpo.
  destruct c.
  - done.
  - cbn [go]. destruct (done _); [|done]. unfold promise_of. destruct (frames s !! g) as [pr|] eqn:E; [|done]. cbn [rbind]. intros [= <-] p.
    destruct (bReady pr); (keepj f s J Ec p; same_frames).
  - cbn [go]. unfold promise_of. destruct (frames s !! g) as [pr|] eqn:E; [|done]. cbn [rbind]. destruct (bReady pr) eqn:Er; intros [= <-] p.
    + keepj f s J Ec p. same_frames.
    + keepj f s J Ec p. intros x pr'. cbn. look g x; [intros [= <-]|by same_frames]. left. exists pr. split; [done|].
      split_and!; cbn; [congruence| |by right; right]. intros H. by apply elem_of_cons in H as [[=]|H].
  - cbn [go]. unfold promise_of. destruct (frames s !! g) as [pr|] eqn:E; [|done]. cbn [rbind]. intros [= <-] p.
    destruct (stError pr); (keepj f s J Ec p; [intros x pr'; cbn; try (look g x; [intros [= <-]; left; exists pr; split; [done|by split_and!; auto]|]); same_frames]).
  - by apply joined_AllChecking.
  - by apply (joined_Linking t f st dn s s' I Et i).
  - by apply (joined_Counting t f st dn s s' I Et i).
  - by apply (joined_Gating t f st dn s s' I Et i).
  - by apply joined_Ending.
  - by apply joined_AllParked.
  - cbn [go]. unfold promise_of. destruct (frames s !! f) as [pr|] eqn:E; [|done]. cbn [rbind]. intros [= <-] p. unfold ReportError.
    destruct (bDetached pr), (bErrorReported pr); (keepj f s J Ec p; [intros x pr'; cbn; try (look f x; [intros [= <-]; left; exists pr; split; [done|by split_and!; auto]|]); same_frames]).
  - cbn [go]. unfold promise_of. destruct (frames s !! f) as [pr|] eqn:E; [|done]. cbn [rbind]. intros [= <-] p.
    keepj f s J Ec p. intros x pr'. cbn. look f x; [intros [= <-]; left; exists pr; split; [done|]|same_frames].
    split_and!; cbn; [done|intros H; by apply elem_of_nil in H|auto].
  - destruct ns as [|[p0|q] ns]; cbn [go].
    + intros [= <-] p. keepj f s J Ec p. same_frames.
    + unfold promise_of. destruct (frames s !! _); [|done]. cbn [rbind]. intros [= <-] x. keepj f s J Ec x. same_frames.
    + by apply (joined_Waking_Slot t f st dn s s' I Et q ns).
  - by apply (joined_LastOf t f st dn s s' I Et p ns).
  - cbn [go]. unfold join_of. destruct (joins s !! p) as [j|] eqn:Ej; [|done]. cbn [rbind]. intros [= <-] x. keepj f s J Ec x. same_frames.
  - done.
Qed.

Lemma create_joined iToken bDet s g s1 s' : accounted s -> waited s -> joined s -> create iToken bDet s = (g, s1) ->
  frames s' = frames s1 -> at_ s' = at_ s1 -> joins s' = joins s -> joined s'.
Proof.
  intros A W J E F T Js. destruct (create_acc _ _ _ _ _ A W J E) as (-> & Eg & Ec & _). injection E as <-. intros p.
  assert (slots s' p = slots s p) as Hs by (unfold slots; rewrite F, T; cbn -[msum]; sums; lia).
  eapply (joined_at_keep s); [apply J|by rewrite Js|exact Hs|rewrite T; cbn -[msum]; sums; lia|rewrite T; cbn -[msum]; sums; lia| |].
  - intros c Hc. rewrite T. cbn. look (next s) p; [|done]. rewrite Ec. split; [done|by intros [= <-]].
  - intros g pr'. rewrite F. cbn. look (next s) g; [intros [= <-]|intros E; left; eexists; split; [done|apply slotted_refl]].
    right. split; [done|]. intros j Ej Hin%cnt_pos. pose proof (A (next s)) as A0. rewrite Eg, Ec in A0.
    pose proof (msum_ge (fun j => cnt (next s) (vTasks j)) _ _ _ Ej) as H. cbn in H. unfold holders in A0. lia.
Qed.

(** Promises with the same waiters and state. *)
Lemma slotted_same p pr pr' : bReady pr' = bReady pr -> pWaiters pr' = pWaiters pr -> slotted p pr pr'.
Proof. intros R P. unfold slotted. rewrite R, P. split_and!; auto. Qed.

Ltac put_frame g pr := let x := fresh in intros x ?; cbn; look g x; [intros [= <-]; left; exists pr; split; [done|by apply slotted_same]|same_frames].

Lemma act_joined t f st dn a s s' : inv s -> threads s !! t = Some (mkThread (f :: st) dn) -> at_ s !! f = Some Body ->
  act t (mkThread (f :: st) dn) f a s = Some (Ok s') -> joined s'.
Proof.
  intros [A W J] Et Ec. destruct (stack_only s t f st dn Et A) as (_ & _ & _ & _ & Hg & Hpw). pose proof (not_posting f _ Hpw) as Hpo.
  destruct a; cbn [act].
  - destruct (create iToken bDet s) as [g s1] eqn:E. pose proof E as E'. injection E' as <- <-. intros [= <-].
    destruct bPost; (eapply create_joined; [exact A|exact W|exact J|exact E|done..]).
  - case_bool_decide as Hh; [|done]. unfold AddReference, promise_of. destruct (frames s !! g) as [pr|] eqn:E; [|done]. cbn [rbind]. intros [= <-] p.
    keepj f s J Ec p. put_frame g pr.
  - destruct (take_handles _ _); [|done]. intros [= <-] p. destruct (decide (p = f)) as [->|Hn]; [|keepj f s J Ec p; same_frames].
    destruct (joins s !! f) as [j|] eqn:Ej.
    { destruct (j_some s f (J f) j Ej) as (c & Ec' & Hj & _). rewrite Ec in Ec'. by injection Ec' as <-. }
    destruct (j_none s f (J f) Ej) as (J1 & J2 & _). split; cbn; rewrite ?lookup_insert_eq.
    + intros j [= <-]. exists AllChecking. split_and!; [done|done|split; [done|revert J2; jsum]|intros _; revert J1; jsum|done|].
      intros i. split; [by intros [?|?]|done].
    + done.
    + revert Hpo. jsum.
    + intros g pr E Hin. destruct (j_slot s f (J f) g pr E Hin) as (j & Ej' & _). congruence.
    + by intros j c i g pr [= <-] [= <-].
  - intros [= <-] p. destruct (J p) as [J1 J2 J3 J4 J5]. by split.
  - intros [= <-] p. keepj f s J Ec p. same_frames.
  - unfold promise_of. destruct (frames s !! f) as [pr|] eqn:E; [|done]. cbn [rbind]. intros [= <-] p. keepj f s J Ec p. put_frame f pr.
Qed.

Lemma Release_joined g s s' : owing g s -> waited s -> joined s -> Release g s = Ok s' -> joined s'.
Proof.
  intros A W J. pose proof (A g) as Ag. rewrite one_same in Ag. unfold Release, promise_of.
  destruct (frames s !! g) as [pr|] eqn:E; [|done]. cbn [rbind]. destruct (at_ s !! g) as [c|] eqn:Ec; [|done]. destruct Ag as (A1 & A2 & A3).
  destruct (Z.eqb_spec (iReferences pr) 1) as [E1|E1].
  - assert (places s g = 0%nat) as P0 by (unfold holders in A1; lia). destruct A3 as [[A3 _]|[_ ->]]; [lia|].
    destruct (w_ready s W g pr _ E Ec) as [Hr Hw]. specialize (Hw Hr). intros [= <-] p.
    set (s1 := if stError pr && negb (bObserved pr) then ReportError g pr s else s).
    assert (delete g (frames s1) = delete g (frames s) /\ at_ s1 = at_ s /\ joins s1 = joins s) as (E2 & E3 & E4).
    { unfold s1, ReportError. destruct (stError pr && _); [destruct (bErrorReported pr)|]; [done| |done]. split; [apply delete_insert_eq|done]. }
    clearbody s1. eapply (joined_at_keep s); [apply J|by rewrite <- E4| | | | |]; cbn -[msum]; rewrite ?E2, ?E3.
    + unfold slots. cbn -[msum]. sums. rewrite Hw in *. cbn in *. lia.
    + sums. lia.
    + sums. lia.
    + intros c Hc. look g p; [rewrite Ec; split; [by intros [= <-]|done]|done].
    + intros x pr'. look g x; [done|]. same_frames.
  - intros [= <-] p. eapply (joined_at_keep s); [apply J|done|jsum|done|done|done|]. put_frame g pr.
Qed.

Lemma do_event_joined e s s' : inv s -> do_event e s = Some (Ok s') -> joined s'.
Proof.
  intros I. pose proof I as [A W J]. destruct e; cbn [do_event].
  - destruct (threads s !! t) as [[[|f st] dn]|] eqn:Et; cbn [stack]; try done. destruct (at_ s !! f) as [c|] eqn:Ec; [|done]. by eapply go_joined.
  - destruct (threads s !! t) as [[[|f st] dn]|] eqn:Et; cbn [stack]; try done. destruct (at_ s !! f) as [[]|] eqn:Ec; try done. by eapply act_joined.
  - destruct (threads s !! t) as [[[|? ?] [|? ?]]|] eqn:Et; try done. destruct (queue s) as [|f q] eqn:Eq; [done|]. intros [= <-] p. by destruct (J p).
  - destruct (threads s !! t) as [[st [|g dn]]|] eqn:Et; cbn [done]; try done. destruct (may_drain _ _); [|done]. intros [= E].
    destruct (drain_owing t st g dn s I Et). eapply Release_joined; [done|done| |exact E]. intros p. by destruct (J p).
  - destruct (create iToken bDet s) as [g s1] eqn:E. pose proof E as E'. injection E' as <- <-. intros [= <-].
    eapply create_joined; [exact A|exact W|exact J|exact E|done..].
  - case_bool_decide as Hg; [|done]. intros [= E]. destruct (Start_spec _ _ _ _ E) as (pr & pr' & n & l & Ep & -> & R1 & R2 & R3 & _).
    intros p. eapply (joined_at_keep s); [apply J|done|unfold slots; cbn -[msum]; sums; rewrite R3 in *; lia|done|done|done|]. put_frame g pr.
  - case_bool_decide as Hg; [|done]. unfold AddReference, promise_of. destruct (frames s !! g) as [pr|] eqn:E; [|done]. cbn [rbind]. intros [= <-] p.
    eapply (joined_at_keep s); [apply J|done|jsum|done|done|done|]. put_frame g pr.
  - case_bool_decide as Hg; [|done]. intros [= E]. destruct (drop_owing g s I Hg). eapply Release_joined; [done|done| |exact E]. intros p. by destruct (J p).
  - case_bool_decide; [|done]. intros [= <-] p. by destruct (J p).
Qed.

Lemma coro_event_inv e s r : inv s -> do_event e s = Some r -> exists s', r = Ok s' /\ inv s'.
Proof.
  intros I E. destruct (do_event_acc e s r I E) as (s' & -> & A). exists s'. split; [done|].
  split; [done|by eapply do_event_waited|by eapply do_event_joined].
Qed.

Lemma start_thread n t th : threads (start n) !! t = Some th -> th = mkThread [] [].
Proof.
  cbn. intros H%elem_of_list_to_map_2. apply list_elem_of_In, in_map_iff in H as (k & [= <- <-] & _). done.
Qed.

Lemma coro_start_inv n : inv (start n).
Proof.
  assert (forall f, f (mkThread [] []) = 0%nat -> msum f (threads (start n)) = 0%nat) as H0.
  { intros f Hf. destruct (msum f _) eqn:E; [done|]. destruct (msum_pos f (threads (start n))) as (k & th & Ek & Hth); [lia|].
    apply start_thread in Ek. subst th. lia. }
  split.
  - intros x. cbn. unfold holders, places. cbn -[threads]. rewrite !H0, !msum_empty by done. done.
  - split; try done. intros x H. rewrite H0 in H by done. lia.
  - intros p. by apply joined_at_none.
Qed.

(** ** Errors *)

Record errs (s : state) : Prop := mkErrs {
  e_flags : forall g pr, frames s !! g = Some pr -> (bErrorReported pr = true <-> g ∈ reported s) /\ (stError pr = true <-> g ∈ failed s) /\
    (bObserved pr = true <-> g ∈ observed s) /\ (g ∈ launched s -> bDetached pr = true);
  e_once : NoDup (reported s);
  e_failed : forall g, g ∈ reported s \/ g ∈ observed s -> g ∈ failed s;
  e_gone : forall g, frames s !! g = None -> g ∈ failed s -> g ∈ reported s \/ g ∈ observed s;
  e_launched : forall g, g ∈ launched s -> g ∈ failed s -> g ∈ reported s \/ at_ s !! g = Some Failing;
  e_failing : forall g, at_ s !! g = Some Failing -> g ∈ failed s;
  e_new : forall g, g ∈ failed s \/ g ∈ launched s -> g < next s
}.

Definition same_flags (pr pr' : promise) : Prop :=
  stError pr' = stError pr /\ bObserved pr' = bObserved pr /\ bErrorReported pr' = bErrorReported pr /\ (bDetached pr = true -> bDetached pr' = true).

Lemma same_flags_refl pr : same_flags pr pr.
Proof. split_and!; auto. Qed.

(** A step that neither throws, rethrows nor reports. *)
Lemma errs_keep s s' : errs s -> failed s' = failed s -> reported s' = reported s -> observed s' = observed s -> launched s' = launched s ->
  next s' = next s -> (forall x, at_ s' !! x = Some Failing <-> at_ s !! x = Some Failing) ->
  (forall g pr', frames s' !! g = Some pr' -> exists pr, frames s !! g = Some pr /\ same_flags pr pr') ->
  (forall g, frames s' !! g = None -> frames s !! g = None) -> errs s'.
Proof.
  intros [E1 E2 E3 E4 E5 E6 E7] Lf Lr Lo Ll Ln T F F'. split; rewrite ?Lf, ?Lr, ?Lo, ?Ll, ?Ln; auto.
  - intros g pr' E. destruct (F g pr' E) as (pr & Epr & H1 & H2 & H3 & H4). rewrite H1, H2, H3. destruct (E1 g pr Epr) as (? & ? & ? & ?). split_and!; auto.
  - intros g H1 H2. destruct (E5 g H1 H2); [by left|]. right. by apply T.
  - intros g H. apply E6. by apply T.
Qed.

Lemma snoc_in (x g : Z) l : x ∈ l ++ [g] <-> x ∈ l \/ x = g.
Proof. by rewrite elem_of_app, list_elem_of_singleton. Qed.

Ltac logs := cbn; rewrite ?snoc_in in *; try (intuition (subst; auto; congruence)); intuition (subst; eauto; congruence).

(** What ReportError leaves. *)
Lemma errs_report g pr s : errs s -> frames s !! g = Some pr -> stError pr = true ->
  errs (ReportError g pr s) /\ g ∈ reported (ReportError g pr s).
Proof.
  intros [E1 E2 E3 E4 E5 E6 E7] E Ee. pose proof (E1 g pr E) as (H1 & H2 & H3 & H4). unfold ReportError. destruct (bErrorReported pr) eqn:Er.
  - split; [by split|tauto].
  - assert (g ∉ reported s) as Hn by (intros H%H1; done). split; [|cbn; logs]. split; cbn; auto.
    + intros x px. look g x; [intros [= <-]; cbn; logs|]. intros Ex. destruct (E1 x px Ex) as (? & ? & ? & ?). logs.
    + apply NoDup_app. split_and!; [done|by intros x Hx ->%list_elem_of_singleton|apply NoDup_singleton].
    + intros x Hx. destruct (decide (x = g)) as [->|]; [tauto|]. apply E3. logs.
    + intros x. look g x; [done|]. intros Hx Hf. destruct (E4 x Hx Hf); logs.
    + intros x Hl Hf. destruct (E5 x Hl Hf); logs.
Qed.

(** The coroutine [f] moves on, out of unhandled_exception only when what it had to report is. *)
Lemma errs_at f c c' s : errs s -> at_ s !! f = Some c -> c' <> Failing -> (c = Failing -> f ∈ launched s -> f ∈ reported s) -> errs (set_at f c' s).
Proof.
  intros [E1 E2 E3 E4 E5 E6 E7] Ec Hc H. split; cbn; auto.
  - intros g Hl Hf. look f g; [|by apply E5]. destruct (E5 f Hl Hf) as [|Hx]; [by left|]. left. apply H; [congruence|done].
  - intros g. look f g; [congruence|apply E6].
Qed.

Ltac flags_of g pr := let x := fresh in intros x ?; cbn; try (look g x; [intros [= <-]; exists pr; split; [done|by split_and!; auto]|]); intros; eexists; split; [done|apply same_flags_refl].
Ltac none_of g := let x := fresh in intros x; cbn; try (look g x; [done|]); done.
Ltac failing_of f Ec := let x := fresh in intros x; cbn; look f x; [rewrite Ec; split; by intros [= ?]|done].

Lemma go_errs t f st dn c s s' : inv s -> errs s -> at_ s !! f = Some c ->
  go t (mkThread (f :: st) dn) f c s = Some (Ok s') -> errs s'.
Proof.
  intros [A W J] R Ec. destruct c; cbn [go].
  - done.
  - destruct (done _); [|done]. unfold promise_of. destruct (frames s !! g) as [pr|] eqn:E; [|done]. cbn [rbind]. intros [= <-].
    by apply (errs_at f (Checking g)); [|done|destruct (bReady pr)|].
  - unfold promise_of. destruct (frames s !! g) as [pr|] eqn:E; [|done]. cbn [rbind].
    destruct (bReady pr); intros [= <-]; (apply (errs_keep s); [done..|failing_of f Ec|flags_of g pr|none_of g]).
  - unfold promise_of. destruct (frames s !! g) as [pr|] eqn:E; [|done]. cbn [rbind]. intros [= <-].
    destruct (stError pr) eqn:Ee; [|apply (errs_keep s); [done..|failing_of f Ec|flags_of g pr|none_of g]].
    destruct R as [E1 E2 E3 E4 E5 E6 E7]. pose proof (E1 g pr E) as (H1 & H2 & H3 & H4). split; cbn; auto.
    + intros x px. look g x; [intros [= <-]; cbn; logs|]. intros Ex. destruct (E1 x px Ex) as (? & ? & ? & ?). logs.
    + intros x Hx. destruct (decide (x = g)) as [->|]; [tauto|]. apply E3. logs.
    + intros x. look g x; [done|]. intros Hx Hf. destruct (E4 x Hx Hf); logs.
    + intros x Hl Hf. look f x; [|auto]. destruct (E5 f Hl Hf); [by left|congruence].
    + intros x. look f x; [done|auto].
  - destruct (done _); [|done]. unfold join_of. destruct (joins s !! f) as [j|] eqn:Ej; [|done]. cbn [rbind].
    destruct (vTasks j) as [|g l]; intros [= <-]; (apply (errs_keep s); [done..|failing_of f Ec|flags_of f f|none_of f]).
  - unfold join_of. destruct (joins s !! f) as [j|] eqn:Ej; [|done]. cbn [rbind].
    destruct (vTasks j !! i) as [g|]; [|intros [= <-]; apply (errs_keep s); [done..|failing_of f Ec|flags_of f f|none_of f]].
    unfold promise_of. destruct (frames s !! g) as [pr|] eqn:E; [|done]. cbn [rbind].
    destruct (bReady pr); intros [= <-]; (apply (errs_keep s); [done..|failing_of f Ec|flags_of g pr|none_of g]).
  - unfold join_of. destruct (joins s !! f) as [j|] eqn:Ej; [|done]. cbn [rbind]. intros [= <-].
    destruct (iLeft j =? 1); (apply (errs_keep s); [done..|failing_of f Ec|flags_of f f|none_of f]).
  - unfold join_of. destruct (joins s !! f) as [j|] eqn:Ej; [|done]. cbn [rbind]. intros [= <-].
    apply (errs_keep s); [done..|failing_of f Ec|flags_of f f|none_of f].
  - unfold join_of. destruct (joins s !! f) as [j|] eqn:Ej; [|done]. cbn [rbind].
    destruct (iGate j); intros [= <-]; (apply (errs_keep s); [done..|failing_of f Ec|flags_of f f|none_of f]).
  - unfold join_of. destruct (joins s !! f) as [j|] eqn:Ej; [|done]. cbn [rbind]. intros [= <-].
    apply (errs_keep s); [done..|failing_of f Ec|flags_of f f|none_of f].
  - unfold promise_of. destruct (frames s !! f) as [pr|] eqn:E; [|done]. cbn [rbind]. intros [= <-].
    destruct (e_flags s R f pr E) as (_ & He & _ & Hd). assert (stError pr = true) as Ee by (apply He; by apply (e_failing s R)).
    destruct (bDetached pr) eqn:Ed.
    + destruct (errs_report f pr s R E Ee) as [R' Hr]. apply (errs_at f Failing); [done| |done|done].
      unfold ReportError. by destruct (bErrorReported pr).
    + apply (errs_at f Failing); [done|done|done|]. intros _ Hl. by apply Hd in Hl.
  - unfold promise_of. destruct (frames s !! f) as [pr|] eqn:E; [|done]. cbn [rbind]. intros [= <-].
    apply (errs_keep s); [done..|failing_of f Ec|flags_of f pr|none_of f].
  - destruct ns as [|[p|p] ns].
    + intros [= <-]. apply (errs_keep s); [done..|failing_of f Ec|flags_of f f|none_of f].
    + unfold promise_of. destruct (frames s !! p); [|done]. cbn [rbind]. intros [= <-]. apply (errs_keep s); [done..|failing_of f Ec|flags_of f f|none_of f].
    + unfold join_of. destruct (joins s !! p) as [j|] eqn:Ej; [|done]. cbn [rbind]. intros [= <-].
      destruct (iLeft j =? 1); (apply (errs_keep s); [done..|failing_of f Ec|flags_of f f|none_of f]).
  - unfold join_of. destruct (joins s !! p) as [j|] eqn:Ej; [|done]. cbn [rbind]. intros [= <-].
    destruct (iGate j); (apply (errs_keep s); [done..|failing_of f Ec|flags_of f f|none_of f]).
  - unfold join_of. destruct (joins s !! p) as [j|] eqn:Ej; [|done]. cbn [rbind]. intros [= <-].
    apply (errs_keep s); [done..|failing_of f Ec|flags_of f f|none_of f].
  - done.
Qed.

Lemma errs_create iToken bDet s g s1 s' : waited s -> accounted s -> errs s -> create iToken bDet s = (g, s1) ->
  frames s' = frames s1 -> at_ s' = at_ s1 -> failed s' = failed s -> reported s' = reported s -> observed s' = observed s ->
  launched s' = launched s1 -> next s' = next s1 -> errs s'.
Proof.
  intros W A [E1 E2 E3 E4 E5 E6 E7] [= <- <-] F T Lf Lr Lo Ll Ln. assert (frames s !! next s = None) as E by (apply (w_fresh s W); lia).
  pose proof (A (next s)) as A0. rewrite E in A0. destruct (at_ s !! next s) eqn:Ec; [done|].
  assert (next s ∉ failed s) as Hf by (intros H; assert (next s < next s) by (apply E7; auto); lia).
  assert (next s ∉ launched s) as Hl by (intros H; assert (next s < next s) by (apply E7; auto); lia).
  split; rewrite ?F, ?T, ?Lf, ?Lr, ?Lo, ?Ll, ?Ln; cbn; auto.
  - intros g pr. look (next s) g.
    + intros [= <-]. cbn. pose proof (E3 (next s)). destruct bDet; logs.
    + intros Eg. destruct (E1 g pr Eg) as (? & ? & ? & ?). destruct bDet; logs.
  - intros g. look (next s) g; [done|auto].
  - intros g H Hg. look (next s) g; [done|]. apply E5; [|done]. destruct bDet; logs.
  - intros g. look (next s) g; [done|auto].
  - intros g H. destruct (decide (g = next s)) as [->|Hn]; [lia|]. assert (g < next s); [|lia]. apply E7. destruct bDet; logs.
Qed.

Lemma errs_drop g pr s s' : errs s -> frames s !! g = Some pr -> at_ s !! g = Some Finished -> (stError pr = true -> g ∈ reported s \/ g ∈ observed s) ->
  frames s' = delete g (frames s) -> at_ s' = delete g (at_ s) -> failed s' = failed s -> reported s' = reported s -> observed s' = observed s ->
  launched s' = launched s -> next s' = next s -> errs s'.
Proof.
  intros [E1 E2 E3 E4 E5 E6 E7] E Ec H F T Lf Lr Lo Ll Ln. destruct (E1 g pr E) as (H1 & H2 & H3 & H4).
  split; rewrite ?F, ?T, ?Lf, ?Lr, ?Lo, ?Ll, ?Ln; auto.
  - intros x px. look g x; [done|auto].
  - intros x. look g x; [|auto]. tauto.
  - intros x Hl Hf. look g x; [|auto]. destruct (E5 g Hl Hf); [by left|congruence].
  - intros x. look g x; [done|auto].
Qed.

Lemma Release_errs g s s' : owing g s -> errs s -> Release g s = Ok s' -> errs s'.
Proof.
  intros A R. pose proof (A g) as Ag. rewrite one_same in Ag. unfold Release, promise_of.
  destruct (frames s !! g) as [pr|] eqn:E; [|done]. cbn [rbind]. destruct (at_ s !! g) as [c|] eqn:Ec; [|done]. destruct Ag as (A1 & A2 & A3).
  destruct (Z.eqb_spec (iReferences pr) 1) as [E1|E1]; intros [= <-].
  - assert (c = Finished) as -> by (destruct A3 as [[A3 _]|[_ ->]]; [unfold holders in A1; lia|done]).
    destruct (e_flags s R g pr E) as (H1 & H2 & H3 & H4). destruct (stError pr) eqn:Ee; [destruct (bObserved pr) eqn:Eo|]; cbn [andb negb].
    + apply (errs_drop g pr s); try done. intros _. right. tauto.
    + destruct (errs_report g pr s R E Ee) as [R' Hr]. assert (exists pr', frames (ReportError g pr s) !! g = Some pr') as [pr' E'].
      { unfold ReportError. destruct (bErrorReported pr); [eauto|]. cbn. rewrite lookup_insert_eq. eauto. }
      apply (errs_drop g pr' (ReportError g pr s)); try done; [|by left]. unfold ReportError. by destruct (bErrorReported pr).
    + apply (errs_drop g pr s); try done. congruence.
  - apply (errs_keep s); [done..|flags_of g pr|none_of g].
Qed.

Lemma act_errs t f st dn a s s' : inv s -> errs s -> at_ s !! f = Some Body ->
  act t (mkThread (f :: st) dn) f a s = Some (Ok s') -> errs s'.
Proof.
  intros [A W J] R Ec. destruct a; cbn [act].
  - destruct (create iToken bDet s) as [g s1] eqn:E. pose proof E as E'. injection E' as <- <-. intros [= <-].
    destruct bPost; (eapply errs_create; [exact W|exact A|exact R|exact E|done..]).
  - case_bool_decide as Hh; [|done]. unfold AddReference, promise_of. destruct (frames s !! g) as [pr|] eqn:E; [|done]. cbn [rbind]. intros [= <-].
    apply (errs_keep s); [done..|failing_of f Ec|flags_of g pr|none_of g].
  - destruct (take_handles _ _); [|done]. intros [= <-]. apply (errs_keep s); [done..|failing_of f Ec|flags_of f f|none_of f].
  - intros [= <-]. by destruct R.
  - intros [= <-]. apply (errs_keep s); [done..|failing_of f Ec|flags_of f f|none_of f].
  - unfold promise_of. destruct (frames s !! f) as [pr|] eqn:E; [|done]. cbn [rbind]. intros [= <-].
    destruct R as [E1 E2 E3 E4 E5 E6 E7]. pose proof (E1 f pr E) as (H1 & H2 & H3 & H4). split; cbn; auto.
    + intros x px. look f x; [intros [= <-]; logs|]. intros Ex. destruct (E1 x px Ex) as (? & ? & ? & ?). logs.
    + intros x Hx. specialize (E3 x Hx). logs.
    + intros x. look f x; [done|]. intros Hx Hf. apply E4; [done|]. logs.
    + intros x Hl Hf. look f x; [by right|]. apply E5; [done|]. logs.
    + intros x. look f x; [logs|]. intros Hx%E6. logs.
    + intros x Hx. destruct (decide (x = f)) as [->|]; [|apply E7; logs].
      destruct (Z.lt_ge_cases f (next s)) as [|Hge]; [done|]. by rewrite (w_fresh s W f Hge) in E.
Qed.

Lemma do_event_errs e s s' : inv s -> errs s -> do_event e s = Some (Ok s') -> errs s'.
Proof.
  intros I R. pose proof I as [A W J]. destruct e; cbn [do_event].
  - destruct (threads s !! t) as [[[|f st] dn]|] eqn:Et; cbn [stack]; try done. destruct (at_ s !! f) as [c|] eqn:Ec; [|done]. by eapply go_errs.
  - destruct (threads s !! t) as [[[|f st] dn]|] eqn:Et; cbn [stack]; try done. destruct (at_ s !! f) as [[]|] eqn:Ec; try done. by eapply act_errs.
  - destruct (threads s !! t) as [[[|? ?] [|? ?]]|] eqn:Et; try done. destruct (queue s) as [|f q] eqn:Eq; [done|]. intros [= <-]. by destruct R.
  - destruct (threads s !! t) as [[st [|g dn]]|] eqn:Et; cbn [done]; try done. destruct (may_drain _ _); [|done]. intros [= E].
    destruct (drain_owing t st g dn s I Et). eapply Release_errs; [done| |exact E]. by destruct R.
  - destruct (create iToken bDet s) as [g s1] eqn:E. pose proof E as E'. injection E' as <- <-. intros [= <-].
    eapply errs_create; [exact W|exact A|exact R|exact E|done..].
  - case_bool_decide as Hg; [|done]. intros [= E].
    destruct (Start_spec _ _ _ _ E) as (pr & pr' & n & l & Ep & -> & R1 & R2 & R3 & R4 & R5 & R6 & Hl).
    destruct Hl as [[-> R7]|(-> & R7 & R8 & R9)]; [apply (errs_keep s); [done..|flags_of g pr|none_of g]|].
    destruct R as [E1 E2 E3 E4 E5 E6 E7]. pose proof (E1 g pr Ep) as (H1 & H2 & H3 & H4). assert (g ∉ reported s) as Hn by (intros H%H1; congruence).
    split; cbn; auto.
    + intros x px. look g x; [intros [= <-]; rewrite R4, R5, R6, R9; logs|]. intros Ex. destruct (E1 x px Ex) as (? & ? & ? & ?). logs.
    + apply NoDup_app. split_and!; [done|by intros x Hx ->%list_elem_of_singleton|apply NoDup_singleton].
    + intros x Hx. destruct (decide (x = g)) as [->|]; [tauto|]. apply E3. logs.
    + intros x. look g x; [done|]. intros Hx Hf. destruct (E4 x Hx Hf); logs.
    + intros x Hl Hf. destruct (E5 x Hl Hf); logs.
  - case_bool_decide as Hg; [|done]. unfold AddReference, promise_of. destruct (frames s !! g) as [pr|] eqn:E; [|done]. cbn [rbind]. intros [= <-].
    apply (errs_keep s); [done..|flags_of g pr|none_of g].
  - case_bool_decide as Hg; [|done]. intros [= E]. destruct (drop_owing g s I Hg). eapply Release_errs; [done| |exact E]. by destruct R.
  - case_bool_decide; [|done]. intros [= <-]. by destruct R.
Qed.

Lemma start_errs n : errs (start n).
Proof. split; cbn; try done; try (intros g; rewrite elem_of_nil; tauto); [apply NoDup_nil_2|..]; intros g; rewrite !elem_of_nil; tauto. Qed.

Lemma run_all es s r : inv s -> errs s -> run es s = Some r -> exists s', r = Ok s' /\ inv s' /\ errs s'.
Proof.
  revert s. induction es as [|e es IH]; intros s I R; cbn; [intros [= <-]; eauto|].
  destruct (do_event e s) as [r1|] eqn:E; [|done]. destruct (coro_event_inv e s r1 I E) as (s1 & -> & I1). apply IH; [done|]. exact (do_event_errs e s s1 I R E).
Qed.

(** A run on two threads: task 2 ends between the registration of the slots and the last
    exchange, task 3 throws, is seen by WhenAll and rethrown by the co_await. *)
Definition demo : list event :=
  [Spawn 7 false; Take 0; Act 0 (Create 0 false true); Act 0 (Create 0 true true); Act 0 (AwaitAll [2; 3]); Go 0; Go 0;
   Take 1; Act 1 Return; Go 1; Go 1; Go 1; Drain 1; Take 1; Act 1 Throw; Go 1; Go 1; Go 0; Go 0; Go 0; Go 1; Go 0].

(** ... to its end, when all is freed. *)
Definition demo_end : list event :=
  [Go 0; Drain 1; Act 0 (Await 3); Go 0; Go 0; Act 0 Return; Go 0; Go 0; Drain 0; Drop 1; Drop 2; Drop 3; Drop 3].

(** A coroutine that waits for one that waits for something else. *)
Definition demo_wait : list event := [Spawn 7 false; Take 0; Act 0 (Create 0 false false); Act 0 Elsewhere; Act 0 (Await 2); Go 0; Go 0].

Definition demo_state (es : list event) : state := match run es (start 2) with Some (Ok s) => s | _ => start 0 end.

Lemma coro_demo_runs : run demo (start 2) = Some (Ok (demo_state demo)) /\ run demo_wait (start 2) = Some (Ok (demo_state demo_wait)) /\
  run (demo ++ demo_end) (start 2) = Some (Ok (demo_state (demo ++ demo_end))).
Proof. by vm_compute. Qed.

(** ** Theorems *)

Lemma reached n es r : run es (start n) = Some r -> exists s, r = Ok s /\ inv s /\ errs s.
Proof. apply run_all; [apply coro_start_inv|apply start_errs]. Qed.

(** C6: no run touches a destroyed frame, resumes a finished coroutine or a WhenAllState that is gone. The count of a frame is that of its
    holders, it is destroyed with the last of them, and a coroutine is in at most one place, so that nobody can resume it twice. *)
Theorem no_use_after_free n es r : run es (start n) = Some r -> exists s, r = Ok s /\
  (forall x pr, frames s !! x = Some pr -> iReferences pr = Z.of_nat (holders s x) /\ (0 < holders s x)%nat) /\
  (forall x, frames s !! x = None -> holders s x = 0%nat) /\ (forall x, (places s x <= 1)%nat).
Proof.
  intros (s & -> & [A _ _] & _)%reached. exists s. split_and!; [done| | |intros x; by apply accounted_place].
  - intros x pr E. by destruct (accounted_frame s x pr A E) as (c & _ & H1 & H2 & _).
  - intros x E. specialize (A x). rewrite E in A. by destruct (at_ s !! x).
Qed.

Lemma no_use_after_free_witness : exists s, Ok (demo_state demo) = Ok s /\
  (forall x pr, frames s !! x = Some pr -> iReferences pr = Z.of_nat (holders s x) /\ (0 < holders s x)%nat) /\
  (forall x, frames s !! x = None -> holders s x = 0%nat) /\ (forall x, (places s x <= 1)%nat).
Proof. exact (no_use_after_free 2 demo _ (proj1 coro_demo_runs)). Defined.

(** All workers idle, nothing in the queue. *)
Definition at_rest (s : state) : Prop := queue s = [] /\ map_Forall (fun _ th => th = mkThread [] []) (threads s).

Lemma demo_rests : at_rest (demo_state demo_wait) /\ at_rest (demo_state (demo ++ demo_end)).
Proof. split; (split; [done|]); apply map_Forall_to_list; vm_compute; repeat constructor. Qed.

Lemma rest_zero s f : at_rest s -> f (mkThread [] []) = 0%nat -> msum f (threads s) = 0%nat.
Proof.
  intros [_ R] Hf. destruct (msum f (threads s)) eqn:E; [done|]. destruct (msum_pos f (threads s)) as (k & th & Ek & Hth); [lia|].
  apply R in Ek. subst th. lia.
Qed.

(** With all threads at rest nobody is busy. *)
Lemma rest_not_busy s x c : inv s -> at_rest s -> at_ s !! x = Some c -> busy c = false.
Proof.
  intros [A W J] R E. destruct (busy c) eqn:Hb; [|done]. pose proof (w_busy s W x c E Hb) as H. by rewrite (rest_zero s _ R) in H.
Qed.

Lemma rest_controls s f : inv s -> at_rest s -> (forall c, (0 < f c)%nat -> busy c = true) -> msum f (at_ s) = 0%nat.
Proof.
  intros I R Hf. destruct (msum f (at_ s)) eqn:E; [done|]. destruct (msum_pos f (at_ s)) as (k & c & Ek & Hc); [lia|].
  pose proof (rest_not_busy s k c I R Ek) as H. rewrite Hf in H; done.
Qed.

Lemma slots_of s p : inv s -> at_rest s -> (0 < slots s p)%nat -> exists g pr, frames s !! g = Some pr /\ Slot p ∈ pWaiters pr.
Proof.
  intros I R H. unfold slots in H. rewrite (rest_controls s (to_count p) I R) in H by (intros []; cbn; done || lia).
  destruct (msum_pos (fun pr => slots_in p (pWaiters pr)) (frames s)) as (g & pr & E & Hp); [lia|]. exists g, pr. split; [done|]. by apply slots_in_in.
Qed.

Lemma waiting_not_ready s g pr n : inv s -> frames s !! g = Some pr -> n ∈ pWaiters pr -> bReady pr = false.
Proof.
  intros [A W J] E Hin. destruct (bReady pr) eqn:Er; [|done]. destruct (accounted_frame s g pr A E) as (c & Ec & _).
  destruct (w_ready s W g pr c E Ec) as [_ H]. rewrite (H Er) in Hin. by apply elem_of_nil in Hin.
Qed.

(** C7: no wakeup is lost: when all workers are idle and the queue is empty, a coroutine that has not ended waits for something else, or for a
    task that is not ready and has it in its list, or in a WhenAll one of whose tasks is not ready and has its slot. *)
Theorem waiters_not_forgotten n es s x c : run es (start n) = Some (Ok s) -> at_rest s -> at_ s !! x = Some c ->
  c = Finished \/ x ∈ other s \/
  (exists g pr, c = Resuming g /\ frames s !! g = Some pr /\ bReady pr = false /\ Single x ∈ pWaiters pr) \/
  (exists j g pr, c = AllParked /\ joins s !! x = Some j /\ g ∈ vTasks j /\ frames s !! g = Some pr /\ bReady pr = false /\ Slot x ∈ pWaiters pr).
Proof.
  intros (s' & [= <-] & I & _)%reached R Ec. pose proof I as [A W J]. pose proof (A x) as Ax. rewrite Ec in Ax. destruct (frames s !! x) as [px|] eqn:Ex; [|done].
  destruct Ax as (_ & _ & [[P _]|[_ ->]]); [|by left]. unfold places in P. pose proof (proj1 R) as Rq.
  rewrite Rq, cnt_nil, !(rest_zero s) in P by done. rewrite (rest_controls s (to_wake x) I R) in P by (intros []; cbn; done || lia).
  destruct (decide (x ∈ other s)) as [Ho|Ho]; [by right; left|]. assert (cnt x (other s) = 0%nat) as Ho' by (destruct (cnt x (other s)) eqn:E; [done|destruct Ho; apply cnt_pos; lia]).
  right. right. destruct (msum (fun pr => singles x (pWaiters pr)) (frames s)) eqn:Es.
  - right. destruct (joins s !! x) as [j|] eqn:Ej; cbn in P; [|lia]. unfold gate_parks in P. destruct (iGate j) eqn:Eg; try lia.
    destruct (j_some s x (J x) j Ej) as (c' & Ec' & _ & G & _ & L & _). rewrite Ec in Ec'. injection Ec' as <-.
    rewrite (rest_controls s (last_of x) I R) in G by (intros []; cbn; done || lia).
    assert (c = AllParked) as -> by (destruct c; cbn in G; rewrite Eg in G; first [done|by destruct G as [[? _]|[? _]]|by destruct G as [? _]]).
    destruct (L ltac:(done)) as [L1 _]. cbn in L1. destruct G as [[_ G]|[G _]]; [|congruence].
    destruct (Z.eqb_spec (iLeft j) 0) as [|H0]; [lia|]. destruct (slots_of s x I R) as (g & pr & E & Hin); [lia|].
    destruct (j_slot s x (J x) g pr E Hin) as (j' & Ej' & Hg). rewrite Ej in Ej'. injection Ej' as <-.
    exists j, g, pr. split_and!; try done. by eapply waiting_not_ready.
  - left. destruct (msum_pos (fun pr => singles x (pWaiters pr)) (frames s)) as (g & pr & E & Hin%singles_in); [lia|].
    pose proof (w_single s W g pr x E Hin) as H. rewrite Ec in H. injection H as ->. exists g, pr. split_and!; try done. by eapply waiting_not_ready.
Qed.

Lemma waiters_not_forgotten_witness : exists x c, at_ (demo_state demo_wait) !! x = Some c /\ c = Resuming 2 /\
  (c = Finished \/ x ∈ other (demo_state demo_wait) \/
   (exists g pr, c = Resuming g /\ frames (demo_state demo_wait) !! g = Some pr /\ bReady pr = false /\ Single x ∈ pWaiters pr) \/
   (exists j g pr, c = AllParked /\ joins (demo_state demo_wait) !! x = Some j /\ g ∈ vTasks j /\ frames (demo_state demo_wait) !! g = Some pr /\
      bReady pr = false /\ Slot x ∈ pWaiters pr)).
Proof.
  exists 1, (Resuming 2). split; [by vm_compute|]. split; [done|].
  apply (waiters_not_forgotten 2 demo_wait (demo_state demo_wait) 1 (Resuming 2)); [exact (proj1 (proj2 coro_demo_runs))|exact (proj1 demo_rests)|by vm_compute].
Defined.

(** No worker is ever blocked: the coroutine on top of its stack is in its body or can go on, at most after DrainDetached; an idle worker drains
    what has finished and takes what is in the queue. *)
Theorem workers_can_go n es s t th : run es (start n) = Some (Ok s) -> threads s !! t = Some th ->
  match stack th with
  | f :: _ => at_ s !! f = Some Body \/ exists s', do_event (Go t) s = Some (Ok s') \/ do_event (Drain t) s = Some (Ok s')
  | [] => match done th, queue s with [], [] => True | [], _ => is_Some (do_event (Take t) s) | _, _ => is_Some (do_event (Drain t) s) end
  end.
Proof.
  intros (s' & [= <-] & I & _)%reached Et. destruct th as [[|f st] dn]; cbn [stack done].
  - destruct dn as [|g dn]; [destruct (queue s) eqn:Eq; [done|]|]; cbn; rewrite Et, ?Eq; cbn; eauto.
  - pose proof I as [A W J]. destruct (on_stack s t f st dn Et A) as (Hp & pr & Ef). destruct (accounted_frame s f pr A Ef) as (c & Ec & _).
    assert (forall e, is_Some (do_event e s) -> exists s', do_event e s = Some (Ok s')) as Hok.
    { intros e [r E]. destruct (coro_event_inv e s r I E) as (s1 & -> & _). eauto. }
    assert (c = Body \/ is_Some (do_event (Go t) s) \/ is_Some (do_event (Drain t) s)) as [->|[H|H]].
    { cbn [do_event]. rewrite Et. cbn [stack done]. rewrite Ec. unfold may_drain. cbn [stack]. rewrite Ec.
      destruct c; auto; cbn [go done]; try (right; left; eauto; fail).
      - destruct dn; eauto.
      - destruct dn; eauto.
      - destruct ns as [|[?|?] ?]; eauto. }
    + by left.
    + right. destruct (Hok _ H) as [s1 ?]. eauto.
    + right. destruct (Hok _ H) as [s1 ?]. eauto.
Qed.

Lemma workers_can_go_witness : exists s', do_event (Go 0) (demo_state demo) = Some (Ok s') \/ do_event (Drain 0) (demo_state demo) = Some (Ok s').
Proof.
  destruct (workers_can_go 2 demo (demo_state demo) 0 (mkThread [1] []) (proj1 coro_demo_runs) ltac:(by vm_compute)) as [H|H]; [|exact H].
  exfalso. revert H. by vm_compute.
Defined.

Lemma linked_all s p j c : inv s -> joins s !! p = Some j -> at_ s !! p = Some c -> c = Ending \/ c = AllParked -> iGate j = Ready ->
  forall g, g ∈ vTasks j -> exists pr, frames s !! g = Some pr /\ bReady pr = true.
Proof.
  intros [A W J] Ej Ec Hc Eg g Hg. destruct (j_some s p (J p) j Ej) as (c' & Ec' & _ & G & _ & L & _). rewrite Ec in Ec'. injection Ec' as <-.
  assert (iLeft j = 0) as L0 by (destruct Hc as [-> | ->]; cbn in G; rewrite Eg in G; destruct G as [[? _]|(_ & _ & ?)]; done).
  destruct (L ltac:(by destruct Hc as [-> | ->])) as [L1 _]. assert (slots s p = 0%nat) as S0 by (destruct Hc as [-> | ->]; cbn in L1; lia).
  destruct (alive s g A) as (pr & _ & E & _).
  { pose proof (msum_ge (fun j => cnt g (vTasks j)) _ _ _ Ej) as H. cbn in H. apply cnt_pos in Hg. unfold holders. lia. }
  exists pr. split; [done|]. apply list_elem_of_lookup_1 in Hg as [i Hi].
  destruct (j_linked s p (J p) j c i g pr Ej Ec Hi) as [|Hs%slots_in_in]; [by destruct Hc as [-> | ->]|done|done|].
  pose proof (msum_ge (fun pr => slots_in p (pWaiters pr)) _ _ _ E) as H. cbn in H. unfold slots in S0. lia.
Qed.

(** A coroutine that waits for a task runs again only when the task is ready, and WhenAllAwaiter gives control back only when all its tasks are. *)
Theorem resumed_when_ready n es s t f st dn : run es (start n) = Some (Ok s) -> threads s !! t = Some (mkThread (f :: st) dn) ->
  (forall g, at_ s !! f = Some (Resuming g) -> exists pr, frames s !! g = Some pr /\ bReady pr = true) /\
  (forall j s', joins s !! f = Some j -> do_event (Go t) s = Some (Ok s') -> joins s' !! f = None ->
    forall g, g ∈ vTasks j -> exists pr, frames s !! g = Some pr /\ bReady pr = true).
Proof.
  intros (s' & [= <-] & I & _)%reached Et. pose proof I as [A W J]. destruct (stack_only s t f st dn Et A) as (_ & _ & Hw & _ & Hg & _). split.
  - intros g Ec. destruct (alive s g A) as (pr & _ & E & _).
    { pose proof (msum_ge (awaits g) _ _ _ Ec) as H. cbn in H. rewrite one_same in H. unfold holders. lia. }
    exists pr. split; [done|]. destruct (w_resume s W f g pr Ec E) as [|H]; [done|]. by destruct (Hw g pr E).
  - intros j s' Ej. destruct (j_some s f (J f) j Ej) as (c & Ec & Hc & G & _). cbn [do_event]. rewrite Et. cbn [stack]. rewrite Ec.
    destruct c; try done; cbn [go done]; unfold join_of; rewrite Ej; cbn [rbind].
    + destruct dn; [|done]. destruct (vTasks j) eqn:Ev; intros [= <-]; [|by cbn; rewrite lookup_insert_eq]. intros _ g Hin. by apply elem_of_nil in Hin.
    + destruct (vTasks j !! i) as [g|]; [|intros [= <-]; cbn; congruence].
      unfold promise_of. destruct (frames s !! g); [|done]. cbn [rbind]. destruct (bReady _); intros [= <-]; cbn; congruence.
    + intros [= <-]. cbn. by rewrite lookup_insert_eq.
    + intros [= <-]. cbn. by rewrite lookup_insert_eq.
    + destruct (iGate j) eqn:Eg; intros [= <-]; cbn; try (by rewrite lookup_insert_eq). intros _. by apply (linked_all s f j Ending); auto.
    + intros [= <-] _. apply (linked_all s f j AllParked); auto. cbn in G. destruct G as [[G _]|[G _]]; [|done]. by destruct (Hg j Ej).
Qed.

Lemma resumed_when_ready_witness : joins (demo_state demo) !! 1 = Some (mkJoin [2; 3] 0 Ready) /\ joins (demo_state (demo ++ [Go 0])) !! 1 = None /\
  exists pr, frames (demo_state demo) !! 3 = Some pr /\ bReady pr = true.
Proof.
  split; [by vm_compute|]. split; [by vm_compute|].
  destruct (resumed_when_ready 2 demo (demo_state demo) 0 1 [] [] (proj1 coro_demo_runs) ltac:(by vm_compute)) as [_ H].
  apply (H (mkJoin [2; 3] 0 Ready) (demo_state (demo ++ [Go 0]))); [by vm_compute..|]. apply list_elem_of_lookup_2 with 1%nat. by vm_compute.
Defined.

(** C20: an error is reported at most once and never lost: when the frame of a coroutine that threw is gone, its error was reported or rethrown to
    a waiter, and that of a task created detached is reported before its final suspension, whoever waits for it. *)
Theorem errors_not_lost n es s : run es (start n) = Some (Ok s) -> NoDup (reported s) /\ (forall g, g ∈ reported s \/ g ∈ observed s -> g ∈ failed s) /\
  (forall g, g ∈ failed s -> frames s !! g = None -> g ∈ reported s \/ g ∈ observed s) /\
  (forall g, g ∈ failed s -> g ∈ launched s -> at_ s !! g <> Some Failing -> g ∈ reported s).
Proof.
  intros (s' & [= <-] & _ & [E1 E2 E3 E4 E5 E6 E7])%reached. split_and!; [done|done|auto|]. intros g Hf Hl Hc. by destruct (E5 g Hl Hf).
Qed.

Lemma errors_not_lost_witness : reported (demo_state (demo ++ demo_end)) = [3] /\ observed (demo_state (demo ++ demo_end)) = [3] /\
  (forall g, g ∈ failed (demo_state (demo ++ demo_end)) -> frames (demo_state (demo ++ demo_end)) !! g = None ->
    g ∈ reported (demo_state (demo ++ demo_end)) \/ g ∈ observed (demo_state (demo ++ demo_end))).
Proof. split; [by vm_compute|]. split; [by vm_compute|]. exact (proj1 (proj2 (proj2 (errors_not_lost 2 (demo ++ demo_end) _ (proj2 (proj2 coro_demo_runs)))))). Defined.

(** Start between the check in unhandled_exception and the final suspension: the task is
    independent, has failed and ended, and its error waits for the last reference. *)
Lemma late_start_unreported : exists s pr, run [Spawn 7 false; Take 0; Act 0 Throw; Go 0; StartTask 1 0; Go 0; Go 0; Drain 0] (start 1) = Some (Ok s) /\
  frames s !! 1 = Some pr /\ bDetached pr = true /\ stError pr = true /\ bReady pr = true /\ reported s = [].
Proof. eexists _, _. split; [by vm_compute|]. by split_and!; vm_compute. Qed.

(** When everything has ended and no Task object is left, no frame is. *)
Theorem frames_freed n es s : run es (start n) = Some (Ok s) -> at_rest s -> handles s = [] ->
  (forall x c, at_ s !! x = Some c -> c = Finished) -> frames s = ∅.
Proof.
  intros (s' & [= <-] & I & _)%reached R Hh Hf. pose proof I as [A W J]. apply map_empty. intros x. destruct (frames s !! x) as [pr|] eqn:E; [|done].
  destruct (accounted_frame s x pr A E) as (c & Ec & _ & H & P). pose proof (Hf x c Ec) as ->. exfalso.
  assert (forall p j, joins s !! p <> Some j) as Hj.
  { intros p j Ej. destruct (j_some s p (J p) j Ej) as (c & Ecp & Hc & _). by rewrite (Hf p c Ecp) in Hc. }
  assert (joins s = ∅) as Ejs by (apply map_empty; intros p; destruct (joins s !! p) eqn:Ej; [by destruct (Hj p j)|done]).
  assert (forall f, (forall c, (0 < f c)%nat -> c <> Finished) -> msum f (at_ s) = 0%nat) as Hz.
  { intros f H0. destruct (msum f (at_ s)) eqn:Em; [done|]. destruct (msum_pos f (at_ s)) as (k & c & Ek & Hc); [lia|]. destruct (H0 c Hc). by apply (Hf k). }
  destruct P as [[_ P]|[P _]]; [specialize (P eq_refl); unfold on_done in P; rewrite (rest_zero s _ R) in P; [lia|done]|].
  unfold holders in H. rewrite P, Hh, Ejs, msum_empty, cnt_nil, (Hz (awaits x)) in H; [lia|]. intros c Hc ->. cbn in Hc. lia.
Qed.

Lemma frames_freed_witness : frames (demo_state (demo ++ demo_end)) = ∅.
Proof.
  apply (frames_freed 2 (demo ++ demo_end)); [exact (proj2 (proj2 coro_demo_runs))|exact (proj2 demo_rests)|by vm_compute|].
  assert (at_ (demo_state (demo ++ demo_end)) = ∅) as -> by (by vm_compute). intros x c. by rewrite lookup_empty.
Defined.

End Coro.
