(* ===== verification/ThreadPool.v ===== *)
(** * The thread pool

    ThreadPool (base/inc/oi_thread.h, src/oi_thread.cpp) of the multi-threaded build:
    the queue of coroutines and its workers, PostCoroutine from any thread, and the way
    to stop: RequestStop, FinishStop on the poll thread, StartWork which waits for it
    and joins the workers.

    A mutex is held across steps only where the code looks at something the lock does
    not guard: a worker that has found bStop false under stMutex and is about to sleep.
    Signal wakes one of the threads that wait on the condition, if there are any; a wait
    may also end by itself.  Coroutines are numbers; what one does is other events. *)

From S2P Require Import Prelude.

Module ThreadPool.

(** ** State *)

(** Where a worker stands in WorkerMain. *)
Inductive worker : Type :=
| Outside              (* before the lock, or in start-up *)
| Testing              (* holds the lock: the condition of the while *)
| ToSleep              (* holds the lock: stCondition.Wait *)
| Asleep               (* ... without it, until notified *)
| Woken                (* ... to take the lock again *)
| Leaving              (* holds the lock: after the loop *)
| Resuming (h : Z)     (* in fnResume *)
| Exited.

(** The poll thread in FinishStop. *)
Inductive stopping : Type :=
| NotRequested
| Requested                 (* CallOnLoop *)
| Calling (fs : list Z)     (* the stop handlers still to be called *)
| Stored                    (* bStop is set *)
| Signalled                 (* stStopCondition.Signal *)
| Shaken                    (* stMutex locked and unlocked *)
| Stopped.                  (* stCondition.Broadcast *)

(** The thread in MultiThreadStartWork, once it has created the workers. *)
Inductive starter : Type :=
| Looking                   (* before stStopMutex, or woken *)
| Sleeping
| Seen                      (* has seen bStop *)
| Shaking                   (* its own handshake done *)
| Joining                   (* ... and Broadcast: waits for the workers *)
| Joined.

(** [owner]: the worker that holds stMutex; [signals]: the calls of PostCoroutine that
    are to notify; [called]: the stop handlers called. *)
Record pool : Type := mkPool {
  vCoroutines : list Z;
  iIdleThreadCount : Z;
  workers : gmap Z worker;
  owner : option Z;
  signals : nat;
  m_bStopRequested : bool;
  m_vStopHandlers : list Z;
  iExitCode : Z;
  bStop : bool;
  finish : stopping;
  main : starter;
  called : list Z
}.

Definition set_queue (q : list Z) (s : pool) : pool :=
  mkPool q (iIdleThreadCount s) (workers s) (owner s) (signals s) (m_bStopRequested s) (m_vStopHandlers s) (iExitCode s) (bStop s) (finish s) (main s) (called s).
Definition set_idle (n : Z) (s : pool) : pool :=
  mkPool (vCoroutines s) n (workers s) (owner s) (signals s) (m_bStopRequested s) (m_vStopHandlers s) (iExitCode s) (bStop s) (finish s) (main s) (called s).
Definition set_workers (m : gmap Z worker) (s : pool) : pool :=
  mkPool (vCoroutines s) (iIdleThreadCount s) m (owner s) (signals s) (m_bStopRequested s) (m_vStopHandlers s) (iExitCode s) (bStop s) (finish s) (main s) (called s).
Definition set_worker (w : Z) (p : worker) (o : option Z) (s : pool) : pool :=
  mkPool (vCoroutines s) (iIdleThreadCount s) (<[w := p]> (workers s)) o (signals s) (m_bStopRequested s) (m_vStopHandlers s) (iExitCode s) (bStop s) (finish s) (main s) (called s).
Definition set_signals (n : nat) (s : pool) : pool :=
  mkPool (vCoroutines s) (iIdleThreadCount s) (workers s) (owner s) n (m_bStopRequested s) (m_vStopHandlers s) (iExitCode s) (bStop s) (finish s) (main s) (called s).
Definition set_stop (r : bool) (hs : list Z) (c : Z) (s : pool) : pool :=
  mkPool (vCoroutines s) (iIdleThreadCount s) (workers s) (owner s) (signals s) r hs c (bStop s) (finish s) (main s) (called s).
Definition set_finish (b : bool) (f : stopping) (c : list Z) (s : pool) : pool :=
  mkPool (vCoroutines s) (iIdleThreadCount s) (workers s) (owner s) (signals s) (m_bStopRequested s) (m_vStopHandlers s) (iExitCode s) b f (main s) c.
Definition set_main (m : starter) (s : pool) : pool :=
  mkPool (vCoroutines s) (iIdleThreadCount s) (workers s) (owner s) (signals s) (m_bStopRequested s) (m_vStopHandlers s) (iExitCode s) (bStop s) (finish s) m (called s).

(** Init takes a positive [iThreadCount]; MultiThreadStartWork starts so many workers. *)
Definition start (iThreadCount : nat) : pool :=
  mkPool [] 0 (list_to_map (map (fun w => (Z.of_nat w, Outside)) (seq 0 iThreadCount))) None 0 false [] 0 false NotRequested Looking [].

(** ** Operations *)

(** stCondition.Broadcast. *)
Definition Broadcast (s : pool) : pool :=
  set_workers ((fun p => match p with Asleep => Woken | _ => p end) <$> workers s) s.

(** One step of worker [w] in WorkerMain; [None]: not by itself, or it waits for the lock. *)
Definition work (w : Z) (p : worker) (s : pool) : option (result pool) :=
  match p, owner s with
  | Outside, None => Some (Ok (set_worker w Testing (Some w) (set_idle (s32 (iIdleThreadCount s + 1)) s)))
  | Testing, _ => Some (Ok (set_worker w (match vCoroutines s with [] => if bStop s then Leaving else ToSleep | _ => Leaving end) (owner s) s))
  | ToSleep, _ => Some (Ok (set_worker w Asleep None s))
  | Woken, None => Some (Ok (set_worker w Testing (Some w) s))
  | Leaving, _ =>
      let s := set_idle (s32 (iIdleThreadCount s - 1)) s in
      if bStop s then Some (Ok (set_worker w Exited None s))
      else match vCoroutines s with
           | [] => Some (Err Undefined)
           | h :: q => Some (Ok (set_worker w (Resuming h) None (set_queue q s)))
           end
  | Resuming _, _ => Some (Ok (set_worker w Outside (owner s) s))
  | _, _ => None
  end.

(** ThreadPool::PostCoroutine up to the notification; waits for the lock. *)
Definition PostCoroutine (h : Z) (s : pool) : option pool :=
  match owner s with
  | Some _ => None
  | None =>
      let s := set_queue (vCoroutines s ++ [h]) s in
      Some (if 0 <? iIdleThreadCount s then set_signals (S (signals s)) s else s)
  end.

Definition AddStopHandler (f : Z) (s : pool) : pool * bool :=
  if (f =? 0) || m_bStopRequested s then (s, false)
  else if existsb (Z.eqb f) (m_vStopHandlers s) then (s, true)
  else (set_stop (m_bStopRequested s) (m_vStopHandlers s ++ [f]) (iExitCode s) s, true).

Definition RequestStop (iCode : Z) (s : pool) : pool :=
  if m_bStopRequested s then s
  else set_finish (bStop s) Requested (called s) (set_stop true (m_vStopHandlers s) iCode s).

(** One step of FinishStop.  stStopMutex guards nothing else, so that setting bStop under it is one step. *)
Definition FinishStop (s : pool) : option pool :=
  match finish s with
  | NotRequested | Stopped => None
  | Requested => Some (set_finish (bStop s) (Calling (m_vStopHandlers s)) (called s) s)
  | Calling (f :: fs) => Some (set_finish (bStop s) (Calling fs) (called s ++ [f]) s)
  | Calling [] => Some (set_finish true Stored (called s) s)
  | Stored => let s := set_finish (bStop s) Signalled (called s) s in Some (match main s with Sleeping => set_main Looking s | _ => s end)
  | Signalled => match owner s with None => Some (set_finish (bStop s) Shaken (called s) s) | Some _ => None end
  | Shaken => Some (Broadcast (set_finish (bStop s) Stopped (called s) s))
  end.

Definition exited (p : worker) : bool := match p with Exited => true | _ => false end.

(** One step of MultiThreadStartWork. *)
Definition MultiThreadStartWork (s : pool) : option pool :=
  match main s with
  | Looking => Some (set_main (if bStop s then Seen else Sleeping) s)
  | Sleeping => None
  | Seen => match owner s with None => Some (set_main Shaking s) | Some _ => None end
  | Shaking => Some (Broadcast (set_main Joining s))
  | Joining => if forallb (fun x => exited (snd x)) (map_to_list (workers s)) then Some (set_main Joined s) else None
  | Joined => None
  end.

Inductive event : Type :=
| Work (w : Z)
| Post (h : Z)
| Notify (w : option Z)    (* stCondition.Signal: wakes [w], or nobody when nobody waits *)
| Spurious (w : Z)         (* Wait ends by itself *)
| SpuriousMain
| AddHandler (f : Z)
| Stop (iCode : Z)
| Finish
| Main.

Definition asleep (p : worker) : nat := match p with Asleep => 1 | _ => 0 end.

Definition do_event (e : event) (s : pool) : option (result pool) :=
  match e with
  | Work w => match workers s !! w with Some p => work w p s | None => None end
  | Post h => Ok <$> PostCoroutine h s
  | Notify (Some w) =>
      match signals s, workers s !! w with
      | S n, Some Asleep => Some (Ok (set_worker w Woken (owner s) (set_signals n s)))
      | _, _ => None
      end
  | Notify None =>
      match signals s with
      | S n => if (msum asleep (workers s) =? 0)%nat then Some (Ok (set_signals n s)) else None
      | O => None
      end
  | Spurious w => match workers s !! w with Some Asleep => Some (Ok (set_worker w Woken (owner s) s)) | _ => None end
  | SpuriousMain => match main s with Sleeping => Some (Ok (set_main Looking s)) | _ => None end
  | AddHandler f => Some (Ok (fst (AddStopHandler f s)))
  | Stop iCode => Some (Ok (RequestStop iCode s))
  | Finish => Ok <$> FinishStop s
  | Main => Ok <$> MultiThreadStartWork s
  end.

Fixpoint run (es : list event) (s : pool) : option (result pool) :=
  match es with
  | [] => Some (Ok s)
  | e :: es => match do_event e s with Some (Ok s) => run es s | r => r end
  end.

(** ** Invariant *)

Definition holds (p : worker) : bool := match p with Testing | ToSleep | Leaving => true | _ => false end.
Definition idle (p : worker) : nat := match p with Testing | ToSleep | Asleep | Woken | Leaving => 1 | _ => 0 end.
Definition dozing (p : worker) : nat := match p with ToSleep | Asleep => 1 | _ => 0 end.
Definition coming (p : worker) : nat := match p with Testing | Woken | Leaving => 1 | _ => 0 end.

(** FinishStop has set bStop, has passed its handshake; some thread has passed one, has
    called Broadcast after it. *)
Definition stored (f : stopping) : bool := match f with Stored | Signalled | Shaken | Stopped => true | _ => false end.
Definition past (f : stopping) : bool := match f with Shaken | Stopped => true | _ => false end.
Definition seen (m : starter) : bool := match m with Seen | Shaking | Joining | Joined => true | _ => false end.
Definition shaken (s : pool) : bool := past (finish s) || match main s with Shaking | Joining | Joined => true | _ => false end.
Definition rung (s : pool) : bool :=
  match finish s with Stopped => true | _ => false end || match main s with Joining | Joined => true | _ => false end.

Definition handlers_left (s : pool) : list Z :=
  match finish s with Calling fs => fs | NotRequested | Requested => m_vStopHandlers s | _ => [] end.

Record inv (n : nat) (s : pool) : Prop := mkInv {
  i_owner : forall w p, workers s !! w = Some p -> holds p = true <-> owner s = Some w;
  i_own : forall w, owner s = Some w -> is_Some (workers s !! w);
  i_idle : iIdleThreadCount s = Z.of_nat (msum idle (workers s)) /\ msum (fun _ => 1%nat) (workers s) = n;
  i_sleep : forall w, workers s !! w = Some ToSleep -> vCoroutines s = [] /\ shaken s = false;
  i_leave : forall w, workers s !! w = Some Leaving -> vCoroutines s <> [] \/ bStop s = true;
  i_work : bStop s = false -> (0 < msum dozing (workers s))%nat -> (length (vCoroutines s) <= msum coming (workers s) + signals s)%nat;
  i_rung : rung s = true -> forall w, workers s !! w <> Some Asleep;
  i_stored : bStop s = stored (finish s) /\ (seen (main s) = true -> bStop s = true);
  i_main : match finish s with Signalled | Shaken | Stopped => main s <> Sleeping | _ => True end;
  i_requested : m_bStopRequested s = match finish s with NotRequested => false | _ => true end;
  i_called : called s ++ handlers_left s = m_vStopHandlers s /\ NoDup (m_vStopHandlers s)
}.

Lemma holder n s w p : inv n s -> workers s !! w = Some p -> owner s = None -> holds p = false.
Proof. intros I E Ho. destruct (holds p) eqn:Hp; [|done]. apply (i_owner n s I w p E) in Hp. congruence. Qed.

Lemma idle_fits n s : inv n s -> (msum idle (workers s) <= n)%nat.
Proof. intros I. destruct (i_idle n s I) as [_ <-]. apply msum_le. intros []; cbn; lia. Qed.

Ltac at_worker w x := destruct (decide (x = w)) as [->|?]; [rewrite lookup_insert_eq|rewrite lookup_insert_ne by done].
Ltac totals := cbn [idle dozing coming] in *; msums; cbn [idle dozing coming] in *; lia.

Lemma set_idle_fits n s d : inv n s -> Z.of_nat n < 2 ^ 31 -> -1 <= d <= 1 -> s32 (iIdleThreadCount s + d) = iIdleThreadCount s + d \/
  d = 1 /\ msum idle (workers s) = n.
Proof.
  intros I Hn Hd. pose proof (idle_fits n s I). destruct (i_idle n s I) as [-> _].
  destruct (decide (msum idle (workers s) = n)) as [|]; [destruct (decide (d = 1)); [by right|]|]; left; apply s32_small; lia.
Qed.

(** What does not concern the workers. *)
Definition same_rest (s s' : pool) : Prop :=
  bStop s' = bStop s /\ finish s' = finish s /\ main s' = main s /\ m_bStopRequested s' = m_bStopRequested s /\
  m_vStopHandlers s' = m_vStopHandlers s /\ called s' = called s.

Lemma inv_worker n s s' w p p' : inv n s -> workers s !! w = Some p -> workers s' = <[w := p']> (workers s) -> same_rest s s' ->
  (owner s' = owner s /\ holds p' = holds p \/ owner s' = (if holds p' then Some w else None) /\ (holds p = true \/ owner s = None)) ->
  iIdleThreadCount s' + Z.of_nat (idle p) = iIdleThreadCount s + Z.of_nat (idle p') ->
  (vCoroutines s' = vCoroutines s \/ holds p = true) ->
  (p' = ToSleep -> vCoroutines s' = [] /\ shaken s = false) -> (p' = Leaving -> vCoroutines s' <> [] \/ bStop s = true) ->
  (p' = Asleep -> rung s = false) ->
  (bStop s = false -> (0 < msum dozing (<[w := p']> (workers s)))%nat -> (length (vCoroutines s') <= msum coming (<[w := p']> (workers s)) + signals s')%nat) ->
  inv n s'.
Proof.
  intros [I1 I0 [I2 I2'] I3 I4 I5 I6 I7 I8 I9 I10] E Ew (R1 & R2 & R3 & R4 & R5 & R6) O Id Q T L A Wk. pose proof (I1 w p E) as Hw.
  assert (forall x q, x <> w -> workers s !! x = Some q -> holds q = true -> vCoroutines s' = vCoroutines s) as Q'.
  { intros x q Hx Ex Hq. destruct Q as [Q|Q]; [done|]. apply (I1 x q Ex) in Hq. apply Hw in Q. congruence. }
  split; unfold shaken, rung, handlers_left in *; rewrite ?Ew, ?R1, ?R2, ?R3, ?R4, ?R5, ?R6; try done.
  - intros x q. at_worker w x.
    + intros [= <-]. destruct O as [[-> ->]|[-> O]]; [done|]. destruct (holds p'); [done|split; done].
    + intros Ex. pose proof (I1 x q Ex) as Hx. destruct O as [[-> _]|[-> O]]; [done|]. destruct (holds q) eqn:Hq.
      * assert (owner s = Some x) as Ho by tauto. destruct O as [O|O]; [apply Hw in O|]; congruence.
      * split; [done|]. destruct (holds p'); congruence.
  - intros x Hx. at_worker w x; [by eexists|]. apply I0. destruct O as [[<- _]|[H _]]; [done|]. rewrite H in Hx. destruct (holds p'); congruence.
  - split; [|totals]. pose proof (msum_insert idle (workers s) w p') as H. rewrite E in H. cbn [ofn] in H. lia.
  - intros x. at_worker w x; [by intros [= ->]; apply T|]. intros Ex. rewrite (Q' x ToSleep) by done. by apply (I3 x).
  - intros x. at_worker w x; [by intros [= ->]; apply L|]. intros Ex. rewrite (Q' x Leaving) by done. by apply (I4 x).
  - intros Hr x. at_worker w x; [|by apply I6]. intros [= ->]. rewrite A in Hr; done.
Qed.

Lemma alone_fits n s w : inv n s -> workers s !! w = Some Outside -> (msum idle (workers s) < n)%nat.
Proof.
  intros I E. destruct (i_idle n s I) as [_ <-]. pose proof (msum_split idle _ _ _ E). pose proof (msum_split (fun _ => 1%nat) _ _ _ E).
  assert (msum idle (delete w (workers s)) <= msum (fun _ => 1%nat) (delete w (workers s)))%nat by (apply msum_le; intros []; cbn; lia). cbn in *. lia.
Qed.

Ltac by_owner := right; cbn; tauto.

(** WorkerMain: front() never meets an empty queue. *)
Lemma work_inv n w p s r : Z.of_nat n < 2 ^ 31 -> inv n s -> workers s !! w = Some p -> work w p s = Some r -> exists s', r = Ok s' /\ inv n s'.
Proof.
  intros Hn I E. pose proof (idle_fits n s I) as Hi. destruct (i_idle n s I) as [I2 _]. pose proof (i_work n s I) as Hk.
  pose proof (msum_ge idle _ _ _ E) as Hw. destruct p; cbn [work].
  - destruct (owner s) eqn:Ho; [done|]. intros [= <-]. eexists. split; [done|]. pose proof (alone_fits n s w I E).
    eapply (inv_worker n s _ w Outside Testing); [done|done|done|done|by_owner|cbn; rewrite s32_small by lia; lia|by left|done..|].
    intros Hb Hd. specialize (Hk Hb). cbn. revert Hd Hk. totals.
  - intros [= <-]. eexists. split; [done|]. assert (owner s = Some w) as Ho by by apply (i_owner n s I w Testing).
    destruct (vCoroutines s) as [|h q] eqn:Eq; [destruct (bStop s) eqn:Eb|].
    + eapply (inv_worker n s _ w Testing Leaving); [done|done|done|done|by left|done|by left|done|by right|done|]. congruence.
    + eapply (inv_worker n s _ w Testing ToSleep); [done|done|done|done|by left|done|by left| |done|done|cbn; rewrite Eq; cbn; lia].
      intros _. split; [done|]. destruct (shaken s) eqn:Es; [|done]. destruct (i_stored n s I) as [H1 H2]. exfalso. revert Es. unfold shaken.
      rewrite Eb in *. destruct (finish s), (main s); cbn in *; try done; intros _; by specialize (H2 eq_refl).
    + eapply (inv_worker n s _ w Testing Leaving); [done|done|done|done|by left|done|by left|done|cbn; rewrite Eq; by left|done|].
      intros Hb Hd. specialize (Hk Hb). cbn [set_worker vCoroutines signals]. rewrite ?Eq. revert Hd Hk. totals.
  - intros [= <-]. eexists. split; [done|]. destruct (i_sleep n s I w E) as [H1 H2].
    eapply (inv_worker n s _ w ToSleep Asleep); [done|done|done|done|by_owner|done|by left|done|done| |cbn; rewrite H1; cbn; lia].
    intros _. revert H2. unfold shaken, rung. destruct (finish s), (main s); done.
  - done.
  - destruct (owner s) eqn:Ho; [done|]. intros [= <-]. eexists. split; [done|].
    eapply (inv_worker n s _ w Woken Testing); [done|done|done|done|by_owner|done|by left|done..|].
    intros Hb Hd. specialize (Hk Hb). cbn. revert Hd Hk. totals.
  - assert (s32 (iIdleThreadCount s - 1) = iIdleThreadCount s - 1) as -> by (apply s32_small; cbn in Hw; lia). cbn [set_idle bStop vCoroutines].
    destruct (bStop s) eqn:Eb.
    + intros [= <-]. eexists. split; [done|]. eapply (inv_worker n s _ w Leaving Exited); [done|done|done|done|by_owner|cbn; lia|by left|done..|congruence].
    + destruct (vCoroutines s) as [|h q] eqn:Eq; intros [= <-]; [destruct (i_leave n s I w E); congruence|]. eexists. split; [done|].
      eapply (inv_worker n s _ w Leaving (Resuming h)); [done|done|done|done|by_owner|cbn; lia|by right|done..|].
      intros _ Hd. specialize (Hk eq_refl). cbn [length] in *. cbn. revert Hd Hk. totals.
  - intros [= <-]. eexists. split; [done|]. eapply (inv_worker n s _ w (Resuming h) Outside); [done|done|done|done|by left|done|by left|done..|].
    intros Hb Hd. specialize (Hk Hb). cbn. revert Hd Hk. totals.
  - done.
Qed.

Lemma post_inv n h s s' : inv n s -> PostCoroutine h s = Some s' -> inv n s'.
Proof.
  intros I. pose proof I as [I1 I0 [I2 I2'] I3 I4 I5 I6 I7 I8 I9 I10]. unfold PostCoroutine. destruct (owner s) eqn:Ho; [done|].
  assert (forall x q, workers s !! x = Some q -> holds q = false) as Hn by (intros x q E; by eapply holder). intros [= <-].
  assert (msum dozing (workers s) <= msum idle (workers s))%nat as Hd by (apply msum_le; intros []; cbn; lia). cbn [set_queue iIdleThreadCount vCoroutines].
  destruct (Z.ltb_spec 0 (iIdleThreadCount s)); split; cbn; try done; try (intros x E; by specialize (Hn x _ E));
    first [by rewrite Ho|intros Hb H0; rewrite length_app; cbn; specialize (I5 Hb); lia].
Qed.

(** A step of the poll thread, of the starter or of a caller of the stopping functions. *)
Definition same_work (s s' : pool) : Prop :=
  vCoroutines s' = vCoroutines s /\ iIdleThreadCount s' = iIdleThreadCount s /\ owner s' = owner s /\ signals s' = signals s.

Lemma inv_stop n s s' : inv n s -> same_work s s' -> workers s' = workers s -> (bStop s = true -> bStop s' = true) ->
  (shaken s' = true -> shaken s = true \/ owner s = None) -> (rung s' = true -> rung s = true \/ forall w, workers s !! w <> Some Asleep) ->
  (bStop s' = stored (finish s') /\ (seen (main s') = true -> bStop s' = true)) ->
  match finish s' with Signalled | Shaken | Stopped => main s' <> Sleeping | _ => True end ->
  m_bStopRequested s' = match finish s' with NotRequested => false | _ => true end ->
  (called s' ++ handlers_left s' = m_vStopHandlers s' /\ NoDup (m_vStopHandlers s')) -> inv n s'.
Proof.
  intros I (W1 & W2 & W3 & W4) W5 Hb Hs Hr H1 H2 H3 H4. pose proof I as [I1 I0 [I2 I2'] I3 I4 I5 I6 I7 I8 I9 I10].
  split; rewrite ?W1, ?W2, ?W3, ?W4, ?W5; try done.
  - intros w E. split; [by apply (I3 w)|]. destruct (shaken s') eqn:Es; [|done]. destruct (Hs eq_refl) as [H|H]; [destruct (I3 w E); congruence|].
    by apply (holder n s w ToSleep I E) in H.
  - intros w E. destruct (I4 w E) as [|H]; [by left|right; auto].
  - intros Hb' Hd. apply I5; [|done]. destruct (bStop s); [by rewrite Hb in Hb'|done].
  - intros Hr'. destruct (Hr Hr') as [H|H]; [by apply I6|done].
Qed.

Lemma broadcast_inv n s : inv n s -> shaken s = true -> inv n (Broadcast s) /\ forall w, workers (Broadcast s) !! w <> Some Asleep.
Proof.
  intros I Hs. pose proof I as [I1 I0 [I2 I2'] I3 I4 I5 I6 I7 I8 I9 I10].
  assert (forall w p, workers (Broadcast s) !! w = Some p -> exists q, workers s !! w = Some q /\ p = match q with Asleep => Woken | _ => q end) as Hw.
  { intros w p. cbn. rewrite lookup_fmap. destruct (workers s !! w) as [q|]; cbn; [intros [= <-]; eauto|done]. }
  assert (forall w, workers (Broadcast s) !! w <> Some Asleep) as Ha by (intros w E; destruct (Hw w _ E) as (q & _ & Eq); by destruct q).
  assert (bStop s = true) as Hb.
  { unfold shaken in Hs. destruct I7 as [H1 H2]. destruct (finish s), (main s); cbn in *; try done; auto. }
  split; [|done]. split; try done.
  - intros w p E. destruct (Hw w p E) as (q & Eq & ->). rewrite <- (I1 w q Eq). by destruct q.
  - intros w Ho. cbn. rewrite lookup_fmap. destruct (I0 w Ho) as [q ->]. by eexists.
  - cbn. rewrite !msum_fmap. split; [|done]. rewrite I2. f_equal. apply msum_ext. by intros k [].
  - intros w E. destruct (Hw w _ E) as (q & Eq & H). assert (q = ToSleep) as -> by (by destruct q). by apply (I3 w).
  - intros w E. by right.
  - cbn. congruence.
Qed.

Lemma pool_event_inv n e s r : Z.of_nat n < 2 ^ 31 -> inv n s -> do_event e s = Some r -> exists s', r = Ok s' /\ inv n s'.
Proof.
  intros Hn I. pose proof I as [I1 I0 [I2 I2'] I3 I4 I5 I6 I7 I8 I9 I10]. destruct e; cbn [do_event].
  - destruct (workers s !! w) as [p|] eqn:E; [|done]. by apply work_inv.
  - destruct (PostCoroutine h s) as [s'|] eqn:E; intros [= <-]. eexists. split; [done|]. by eapply post_inv.
  - destruct w as [w|]; [destruct (signals s) as [|m] eqn:Es, (workers s !! w) as [[]|] eqn:E; try done|destruct (signals s) as [|m] eqn:Es; [done|]].
    + intros [= <-]. eexists. split; [done|]. eapply (inv_worker n s _ w Asleep Woken); [done|done|done|done|by left|done|by left|done..|].
      intros Hb Hd. specialize (I5 Hb). cbn. revert Hd I5. totals.
    + destruct (Nat.eqb_spec (msum asleep (workers s)) 0) as [E|]; [|done]. intros [= <-]. eexists. split; [done|]. split; try done.
      cbn. intros Hb Hd. destruct (msum_pos dozing _ Hd) as (w & p & Ew & Hp). pose proof (msum_ge asleep _ _ _ Ew) as Ha.
      destruct p; cbn in Hp, Ha; try lia. destruct (I3 w Ew) as [-> _]. cbn. lia.
  - destruct (workers s !! w) as [[]|] eqn:E; try done. intros [= <-]. eexists. split; [done|].
    eapply (inv_worker n s _ w Asleep Woken); [done|done|done|done|by left|done|by left|done..|].
    intros Hb Hd. specialize (I5 Hb). cbn. revert Hd I5. totals.
  - destruct (main s) eqn:Em; try done. intros [= <-]. eexists. split; [done|]. apply (inv_stop n s); try done; unfold shaken, rung; cbn; rewrite ?Em; auto.
    + by destruct (finish s).
  - intros [= <-]. eexists. split; [done|]. unfold AddStopHandler. destruct ((f =? 0) || m_bStopRequested s) eqn:E1; [done|].
    destruct (existsb (Z.eqb f) (m_vStopHandlers s)) eqn:E2; [done|]. apply orb_false_iff in E1 as [_ E1].
    apply (inv_stop n s); auto; try done. cbn. rewrite E1 in I9. unfold handlers_left in *. cbn. destruct (finish s); try done. destruct I10 as [H1 H2].
    split; [by rewrite app_assoc, H1|]. apply NoDup_app. split_and!; [done| |apply NoDup_singleton].
    intros x Hx ->%list_elem_of_singleton. rewrite <- not_true_iff_false in E2. apply E2. apply existsb_exists. exists f. split; [by apply list_elem_of_In|apply Z.eqb_refl].
  - intros [= <-]. eexists. split; [done|]. unfold RequestStop. destruct (m_bStopRequested s) eqn:E; [done|].
    assert (finish s = NotRequested) as Ef by (by destruct (finish s)). unfold handlers_left in *. rewrite Ef in *.
    apply (inv_stop n s); try done; unfold shaken, rung, handlers_left; cbn; rewrite ?Ef; auto.
  - destruct (FinishStop s) as [s'|] eqn:E; intros [= <-]. eexists. split; [done|]. revert E. unfold FinishStop, handlers_left in *.
    destruct (finish s) as [| |[|f fs]| | | |] eqn:Ef; try done.
    + intros [= <-]. apply (inv_stop n s); try done; unfold shaken, rung, handlers_left; cbn; rewrite ?Ef; auto.
    + intros [= <-]. apply (inv_stop n s); try done; unfold shaken, rung, handlers_left; cbn; rewrite ?Ef; auto.
    + intros [= <-]. apply (inv_stop n s); try done; unfold shaken, rung, handlers_left; cbn; rewrite ?Ef; auto. by rewrite <- app_assoc.
    + intros [= <-]. destruct (main s) eqn:Em; (apply (inv_stop n s); try done; unfold shaken, rung, handlers_left; cbn; rewrite ?Ef, ?Em; auto).
    + destruct (owner s) eqn:Ho; [done|]. intros [= <-]. apply (inv_stop n s); try done; unfold shaken, rung, handlers_left; cbn; rewrite ?Ef; auto.
    + intros [= <-]. assert (shaken s = true) as Hs by (unfold shaken; by rewrite Ef). destruct (broadcast_inv n s I Hs) as [J Ha].
      apply (inv_stop n (Broadcast s)); try done; unfold shaken, rung, handlers_left; cbn; rewrite ?Ef; auto.
  - destruct (MultiThreadStartWork s) as [s'|] eqn:E; intros [= <-]. eexists. split; [done|]. revert E. unfold MultiThreadStartWork.
    destruct (main s) eqn:Em; try done.
    + intros [= <-]. apply (inv_stop n s); try done; unfold shaken, rung; cbn; rewrite ?Em; auto; destruct (bStop s) eqn:Eb; auto.
      all: try (destruct (finish s); try done; by destruct I7).
    + destruct (owner s) eqn:Ho; [done|]. intros [= <-]. apply (inv_stop n s); try done; unfold shaken, rung; cbn; rewrite ?Em; auto.
      by destruct (finish s).
    + intros [= <-]. assert (shaken s = true) as Hs by (unfold shaken; rewrite Em; by destruct (past (finish s))). destruct (broadcast_inv n s I Hs) as [J Ha].
      apply (inv_stop n (Broadcast s)); try done; unfold shaken, rung; cbn; rewrite ?Em; auto. by destruct (finish s).
    + destruct (forallb _ _); [|done]. intros [= <-]. apply (inv_stop n s); try done; unfold shaken, rung; cbn; rewrite ?Em; auto. by destruct (finish s).
Qed.

Lemma start_workers n f : msum f (workers (start n)) = (n * f Outside)%nat.
Proof.
  unfold msum. rewrite (msum_Permutation f _ (map (fun w => (Z.of_nat w, Outside)) (seq 0 n))).
  - assert (forall k, foldr (fun x m => (f (snd x) + m)%nat) 0%nat (map (fun w => (Z.of_nat w, Outside)) (seq k n)) = (n * f Outside)%nat) as H; [|apply H].
    induction n as [|n IH]; intros k; cbn; [done|]. by rewrite IH.
  - cbn. apply map_to_list_to_map. rewrite <- list_fmap_compose. apply NoDup_fmap_2; [intros x y; cbn; lia|apply NoDup_seq].
Qed.

Lemma pool_start_inv n : inv n (start n).
Proof.
  assert (forall w p, workers (start n) !! w = Some p -> p = Outside) as H.
  { cbn. intros w p E%elem_of_list_to_map_2. by apply list_elem_of_In, in_map_iff in E as (k & [= <- <-] & _). }
  split; try done.
  - by intros w p ->%H.
  - rewrite !start_workers. cbn [idle start iIdleThreadCount]. split; lia.
  - by intros w E%H.
  - rewrite start_workers. cbn. lia.
  - cbn. split; [done|apply NoDup_nil_2].
Qed.

Lemma pool_run_inv n es s r : Z.of_nat n < 2 ^ 31 -> inv n s -> run es s = Some r -> exists s', r = Ok s' /\ inv n s'.
Proof.
  intros Hn. revert s. induction es as [|e es IH]; intros s I; cbn; [intros [= <-]; eauto|].
  destruct (do_event e s) as [r1|] eqn:E; [|done]. destruct (pool_event_inv n e s r1 Hn I E) as (s1 & -> & I1). by apply IH.
Qed.

Lemma pool_run_app es es' s s1 : run es s = Some (Ok s1) -> run (es ++ es') s = run es' s1.
Proof.
  revert s. induction es as [|e es IH]; intros s; cbn; [by intros [= ->]|]. destruct (do_event e s) as [[s2|]|]; [apply IH|done..].
Qed.

(** ** Stopping *)

Definition ahead (p : worker) : nat :=
  match p with Resuming _ => 4 | Outside | Woken => 3 | Testing => 2 | Leaving => 1 | ToSleep | Asleep => 4 | Exited => 0 end.

(** With bStop set and all sleepers woken every step of a worker brings it nearer to its end. *)
Lemma work_ahead n w s s' : inv n s -> rung s = true -> bStop s = true -> do_event (Work w) s = Some (Ok s') ->
  (msum ahead (workers s') < msum ahead (workers s))%nat /\ rung s' = true /\ bStop s' = true /\ main s' = main s /\ finish s' = finish s.
Proof.
  intros I Hr Hb. cbn [do_event]. destruct (workers s !! w) as [p|] eqn:E; [|done]. destruct p; cbn [work].
  - destruct (owner s); [done|]. intros [= <-]. split; [|done]. cbn. msums. cbn in *. lia.
  - intros [= <-]. split; [|done]. rewrite Hb. cbn. destruct (vCoroutines s); msums; cbn in *; lia.
  - intros _. destruct (i_sleep n s I w E) as [_ H]. revert H Hr. unfold rung, shaken. by destruct (finish s), (main s).
  - done.
  - destruct (owner s); [done|]. intros [= <-]. split; [|done]. cbn. msums. cbn in *. lia.
  - cbn [set_idle bStop]. rewrite Hb. intros [= <-]. split; [|done]. cbn. msums. cbn in *. lia.
  - intros [= <-]. split; [|done]. cbn. msums. cbn in *. lia.
  - done.
Qed.

Lemma work_stuck n s : inv n s -> rung s = true -> bStop s = true -> (forall w, do_event (Work w) s = None) -> forall w p, workers s !! w = Some p -> p = Exited.
Proof.
  intros I Hr Hb H. destruct (owner s) as [x|] eqn:Ho.
  - exfalso. destruct (i_own n s I x Ho) as [q Eq]. pose proof (proj2 (i_owner n s I x q Eq) Ho) as Hq. specialize (H x). cbn [do_event] in H. rewrite Eq in H.
    destruct q; cbn [work] in H; try done. cbn in H. by rewrite Hb in H.
  - intros w p E. pose proof (holder n s w p I E Ho) as Hp. specialize (H w). cbn [do_event] in H. rewrite E in H.
    destruct p; cbn [work] in H; rewrite ?Ho in H; try done. by destruct (i_rung n s I Hr w).
Qed.


Lemma some_worker s : (exists w r, do_event (Work w) s = Some r) \/ forall w, do_event (Work w) s = None.
Proof.
  destruct (decide (Exists (fun x => is_Some (do_event (Work (fst x)) s)) (map_to_list (workers s)))) as [H|H].
  - left. apply Exists_exists in H as ([w p] & _ & [r E]). eauto.
  - right. intros w. destruct (do_event (Work w) s) as [r|] eqn:E; [|done]. destruct H. apply Exists_exists.
    pose proof E as E'. cbn [do_event] in E'. destruct (workers s !! w) as [p|] eqn:Ew; [|done]. exists (w, p). split; [by apply elem_of_map_to_list|eauto].
Qed.

Lemma workers_exit n m s : Z.of_nat n < 2 ^ 31 -> (msum ahead (workers s) <= m)%nat -> inv n s -> rung s = true -> bStop s = true ->
  exists ws s', run (map Work ws) s = Some (Ok s') /\ inv n s' /\ rung s' = true /\ bStop s' = true /\ finish s' = finish s /\
    forall w p, workers s' !! w = Some p -> p = Exited.
Proof.
  intros Hn. revert s. induction m as [|m IH]; intros s Hm I Hr Hb.
  - exists [], s. split_and!; try done. intros w p E. pose proof (msum_ge ahead _ _ _ E). destruct p; cbn in *; try lia. done.
  - destruct (some_worker s) as [(w & r & E)|H]; [|exists [], s; split_and!; try done; by eapply work_stuck].
    destruct (pool_event_inv n _ s r Hn I E) as (s1 & -> & I1). destruct (work_ahead n w s s1 I Hr Hb E) as (H1 & H2 & H3 & _ & H4).
    destruct (IH s1 ltac:(lia) I1 H2 H3) as (ws & s' & R & J). exists (w :: ws), s'. cbn [map run]. rewrite E. rewrite <- H4. by split.
Qed.

(** The starter goes on once bStop is set and the lock free or not needed. *)
Lemma main_joins n s : Z.of_nat n < 2 ^ 31 -> inv n s -> rung s = true -> bStop s = true -> finish s = Stopped -> 
  (forall w p, workers s !! w = Some p -> p = Exited) -> exists k s', run (repeat Main k) s = Some (Ok s') /\ main s' = Joined /\
    forall w p, workers s' !! w = Some p -> p = Exited.
Proof.
  intros Hn I Hr Hb Hf Hw. assert (owner s = None) as Ho.
  { destruct (owner s) as [x|] eqn:Ho; [|done]. destruct (i_own n s I x Ho) as [q Eq]. pose proof (Hw x q Eq) as ->. by apply (i_owner n s I x Exited Eq) in Ho. }
  assert (forall m : gmap Z worker, forallb (fun x => exited (snd x)) (map_to_list m) = true \/ exists w p, m !! w = Some p /\ p <> Exited) as Hall.
  { intros m. destruct (forallb _ (map_to_list m)) eqn:E; [by left|]. right. apply not_true_iff_false in E.
    destruct (decide (Exists (fun x => exited (snd x) = false) (map_to_list m))) as [H|H].
    - apply Exists_exists in H as ([w p] & Hin%elem_of_map_to_list & H). exists w, p. split; [done|]. by intros ->.
    - destruct E. apply forallb_forall. intros x Hx%list_elem_of_In. destruct (exited x.2) eqn:Ex; [done|]. destruct H. apply Exists_exists. eauto. }
  assert (forall s', (forall w p, workers s' !! w = Some p -> p = Exited) -> main s' = Joining -> exists k s'', run (repeat Main k) s' = Some (Ok s'') /\ main s'' = Joined /\ forall w p, workers s'' !! w = Some p -> p = Exited) as Hj.
  { intros s' Hw' Em. exists 1%nat. cbn. unfold MultiThreadStartWork. rewrite Em. destruct (Hall (workers s')) as [->|(w & p & E & H)]; [|by apply Hw' in E].
    eexists. by split. }
  assert (forall s', workers s' = workers s -> main s' = Shaking -> exists k s'', run (repeat Main k) s' = Some (Ok s'') /\ main s'' = Joined /\ forall w p, workers s'' !! w = Some p -> p = Exited) as Hs.
  { intros s' Ew Em. destruct (Hj (Broadcast (set_main Joining s'))) as (k & s'' & R & J); [|done|].
    - cbn. rewrite Ew. intros w p. rewrite lookup_fmap. destruct (workers s !! w) as [q|] eqn:E; cbn; [|done]. rewrite (Hw w q E). by intros [= <-].
    - exists (S k), s''. cbn. unfold MultiThreadStartWork. by rewrite Em. }
  assert (forall s', workers s' = workers s -> owner s' = None -> main s' = Seen -> exists k s'', run (repeat Main k) s' = Some (Ok s'') /\ main s'' = Joined /\ forall w p, workers s'' !! w = Some p -> p = Exited) as Hn'.
  { intros s' Ew Eo Em. destruct (Hs (set_main Shaking s')) as (k & s'' & R & J); [done|done|].
    exists (S k), s''. cbn. unfold MultiThreadStartWork. by rewrite Em, Eo. }
  destruct (main s) eqn:Em.
  - destruct (Hn' (set_main Seen s)) as (k & s'' & R & J); [done|done|done|]. exists (S k), s''. cbn. unfold MultiThreadStartWork. by rewrite Em, Hb.
  - pose proof (i_main n s I) as H. rewrite Hf in H. by destruct H.
  - by apply Hn'.
  - by apply Hs.
  - by apply Hj.
  - by exists 0%nat, s.
Qed.

(** The steps of the pool's own threads. *)
Definition own (e : event) : Prop := match e with Work _ | Finish | Main => True | _ => False end.

Definition reaches (n : nat) (s s' : pool) : Prop := exists es, Forall own es /\ run es s = Some (Ok s') /\ inv n s'.

Lemma reaches_refl n s : inv n s -> reaches n s s.
Proof. by exists []. Qed.

Lemma reaches_trans n s1 s2 s3 : reaches n s1 s2 -> reaches n s2 s3 -> reaches n s1 s3.
Proof.
  intros (es & O & R & _) (es' & O' & R' & I). exists (es ++ es'). split_and!; [by apply Forall_app| |done]. by rewrite (pool_run_app es es' s1 s2).
Qed.

Lemma reaches_step n e s s' : Z.of_nat n < 2 ^ 31 -> inv n s -> own e -> do_event e s = Some (Ok s') -> reaches n s s'.
Proof.
  intros Hn I O E. destruct (pool_event_inv n e s _ Hn I E) as (s1 & [= <-] & I1). exists [e]. split_and!; [by repeat constructor|cbn; by rewrite E|done].
Qed.

Lemma finish_signals n s : Z.of_nat n < 2 ^ 31 -> inv n s -> m_bStopRequested s = true ->
  exists s', reaches n s s' /\ match finish s' with Signalled | Shaken | Stopped => True | _ => False end.
Proof.
  intros Hn I Hq. assert (forall s, inv n s -> finish s = Stored -> exists s', reaches n s s' /\ finish s' = Signalled) as H1.
  { intros s1 I1 E. eexists. split; [eapply (reaches_step n Finish); [done..|]; cbn [do_event]; unfold FinishStop; rewrite E; reflexivity|].
    cbn. destruct (main s1); done. }
  assert (forall fs s, inv n s -> finish s = Calling fs -> exists s', reaches n s s' /\ finish s' = Stored) as H2.
  { intros fs. induction fs as [|f fs IH]; intros s1 I1 E.
    - eexists. split; [eapply (reaches_step n Finish); [done..|]; cbn [do_event]; unfold FinishStop; rewrite E; reflexivity|done].
    - set (s2 := set_finish (bStop s1) (Calling fs) (called s1 ++ [f]) s1).
      assert (reaches n s1 s2) as R by (apply (reaches_step n Finish); [done..|]; cbn [do_event]; unfold FinishStop; by rewrite E).
      destruct (IH s2) as (s3 & R3 & E3); [by destruct R as (? & _ & _ & ?)|done|]. exists s3. split; [by eapply reaches_trans|done]. }
  assert (forall fs s, inv n s -> finish s = Calling fs -> exists s', reaches n s s' /\ finish s' = Signalled) as H3.
  { intros fs s1 I1 E. destruct (H2 fs s1 I1 E) as (s2 & R2 & E2). destruct (H1 s2) as (s3 & R3 & E3); [by destruct R2 as (? & _ & _ & ?)|done|].
    exists s3. split; [by eapply reaches_trans|done]. }
  destruct (finish s) as [| |fs| | | |] eqn:E.
  - pose proof (i_requested n s I) as H. rewrite E in H. congruence.
  - set (s2 := set_finish (bStop s) (Calling (m_vStopHandlers s)) (called s) s).
    assert (reaches n s s2) as R by (apply (reaches_step n Finish); [done..|]; cbn [do_event]; unfold FinishStop; by rewrite E).
    destruct (H3 _ s2 ltac:(by destruct R as (? & _ & _ & ?)) eq_refl) as (s3 & R3 & E3). exists s3. rewrite E3. split; [by eapply reaches_trans|done].
  - destruct (H3 _ s I E) as (s3 & R3 & E3). exists s3. by rewrite E3.
  - destruct (H1 s I E) as (s3 & R3 & E3). exists s3. by rewrite E3.
  - exists s. rewrite E. split; [by apply reaches_refl|done].
  - exists s. rewrite E. split; [by apply reaches_refl|done].
  - exists s. rewrite E. split; [by apply reaches_refl|done].
Qed.

(** With bStop set the holder of the lock gives it up. *)
Lemma lock_freed n s : Z.of_nat n < 2 ^ 31 -> inv n s -> bStop s = true -> exists s', reaches n s s' /\ owner s' = None /\ finish s' = finish s /\ bStop s' = true.
Proof.
  intros Hn I Hb. destruct (owner s) as [w|] eqn:Ho; [|by exists s; split; [apply reaches_refl|]].
  assert (forall s1, inv n s1 -> bStop s1 = true -> workers s1 !! w = Some Leaving ->
    exists s', reaches n s1 s' /\ owner s' = None /\ finish s' = finish s1 /\ bStop s' = true) as HL.
  { intros s1 I1 Hb1 E1. eexists. split; [eapply (reaches_step n (Work w)); [done..|]; cbn [do_event]; rewrite E1; cbn [work set_idle bStop]; rewrite Hb1; reflexivity|done]. }
  destruct (i_own n s I w Ho) as [p E]. pose proof (proj2 (i_owner n s I w p E) Ho) as Hp. destruct p; try done.
  - set (s1 := set_worker w (match vCoroutines s with [] => if bStop s then Leaving else ToSleep | _ => Leaving end) (owner s) s).
    assert (reaches n s s1) as R1 by (apply (reaches_step n (Work w)); [done..|]; cbn [do_event]; by rewrite E).
    destruct (HL s1) as (s2 & R2 & J); [by destruct R1 as (? & _ & _ & ?)|done| |exists s2; split; [by eapply reaches_trans|done]].
    unfold s1. cbn. rewrite lookup_insert_eq, Hb. by destruct (vCoroutines s).
  - eexists. split; [eapply (reaches_step n (Work w)); [done..|]; cbn [do_event]; rewrite E; reflexivity|done].
  - by apply HL.
Qed.

Lemma finish_stops n s : Z.of_nat n < 2 ^ 31 -> inv n s -> m_bStopRequested s = true -> exists s', reaches n s s' /\ finish s' = Stopped /\ bStop s' = true.
Proof.
  intros Hn I Hq. destruct (finish_signals n s Hn I Hq) as (s1 & R1 & E1). pose proof R1 as (_ & _ & _ & I1).
  assert (bStop s1 = true) as Hb1 by (rewrite (proj1 (i_stored n s1 I1)); by destruct (finish s1)).
  assert (forall s, inv n s -> bStop s = true -> finish s = Shaken -> exists s', reaches n s s' /\ finish s' = Stopped /\ bStop s' = true) as H.
  { intros s2 I2 Hb2 E2. eexists. split; [eapply (reaches_step n Finish); [done..|]; cbn [do_event]; unfold FinishStop; rewrite E2; reflexivity|done]. }
  destruct (finish s1) eqn:Ef; try done.
  - destruct (lock_freed n s1 Hn I1 Hb1) as (s2 & R2 & Ho & Ef2 & Hb2). pose proof R2 as (_ & _ & _ & I2). rewrite Ef in Ef2.
    set (s3 := set_finish (bStop s2) Shaken (called s2) s2).
    assert (reaches n s2 s3) as R3 by (apply (reaches_step n Finish); [done..|]; cbn [do_event]; unfold FinishStop; by rewrite Ef2, Ho).
    destruct (H s3) as (s4 & R4 & J); [by destruct R3 as (? & _ & _ & ?)|done|done|]. exists s4. split; [|done].
    by do 3 (eapply reaches_trans; [eassumption|]).
  - destruct (H s1 I1 Hb1 Ef) as (s4 & R4 & J). exists s4. split; [by eapply reaches_trans|done].
  - by exists s1.
Qed.

(** Two workers; one sleeps while the other runs a coroutine that posts another. *)
Definition demo : list event :=
  [AddHandler 5; AddHandler 6; AddHandler 5; Work 0; Work 0; Work 0; Post 7; Work 1; Work 1; Work 1; Post 8].

Definition demo_stop : list event := demo ++ [Stop 3; Finish; Finish; Stop 4; Notify (Some 0); Work 0].

Definition demo_state (es : list event) : pool := match run es (start 2) with Some (Ok s) => s | _ => start 0 end.

Lemma pool_demo_runs : run demo (start 2) = Some (Ok (demo_state demo)) /\ run demo_stop (start 2) = Some (Ok (demo_state demo_stop)).
Proof. by vm_compute. Qed.

(** ** Theorems *)

Lemma pool_reached n es r : Z.of_nat n < 2 ^ 31 -> run es (start n) = Some r -> exists s, r = Ok s /\ inv n s.
Proof. intros Hn. apply pool_run_inv; [done|apply pool_start_inv]. Qed.

(** C21: until the stop, while a worker sleeps every queued coroutine has a wake-up of its own on the way: a worker that is about to look at the queue or
    a notification not yet given.  The idle count is exact and no worker takes from an empty queue. *)
Theorem no_worker_sleeps_on_work n es r : Z.of_nat n < 2 ^ 31 -> run es (start n) = Some r -> exists s, r = Ok s /\
  iIdleThreadCount s = Z.of_nat (msum idle (workers s)) /\
  (forall w, bStop s = false -> workers s !! w = Some Asleep -> (length (vCoroutines s) <= msum coming (workers s) + signals s)%nat).
Proof.
  intros Hn (s & -> & I)%pool_reached; [|done]. exists s. split_and!; [done|by destruct (i_idle n s I)|]. intros w Hb E. apply (i_work n s I Hb).
  pose proof (msum_ge dozing _ _ _ E) as H. cbn in H. lia.
Qed.

Lemma no_worker_sleeps_on_work_witness : workers (demo_state demo) !! 0 = Some Asleep /\ vCoroutines (demo_state demo) = [8] /\
  exists s, Ok (demo_state demo) = Ok s /\ iIdleThreadCount s = Z.of_nat (msum idle (workers s)) /\
  (forall w, bStop s = false -> workers s !! w = Some Asleep -> (length (vCoroutines s) <= msum coming (workers s) + signals s)%nat).
Proof. split; [by vm_compute|]. split; [by vm_compute|]. exact (no_worker_sleeps_on_work 2 demo _ ltac:(lia) (proj1 pool_demo_runs)). Defined.

(** C22: a stop that has been requested completes by the steps of the pool's own threads, whatever they were doing: FinishStop ends, no worker and not
    StartWork stay asleep, all workers return and are joined. *)
Theorem stop_completes n es s : Z.of_nat n < 2 ^ 31 -> run es (start n) = Some (Ok s) -> m_bStopRequested s = true ->
  exists es' s', Forall own es' /\ run es' s = Some (Ok s') /\ main s' = Joined /\ (forall w p, workers s' !! w = Some p -> p = Exited).
Proof.
  intros Hn (s0 & [= <-] & I)%pool_reached Hq; [|done]. destruct (finish_stops n s Hn I Hq) as (s1 & (es1 & O1 & R1 & I1) & E1 & Hb1).
  assert (rung s1 = true) as Hr1 by (unfold rung; by rewrite E1).
  destruct (workers_exit n _ s1 Hn (le_n _) I1 Hr1 Hb1) as (ws & s2 & R2 & I2 & Hr2 & Hb2 & E2 & Hw).
  destruct (main_joins n s2 Hn I2 Hr2 Hb2 ltac:(congruence) Hw) as (k & s3 & R3 & E3 & Hw3).
  exists (es1 ++ map Work ws ++ repeat Main k), s3. split_and!; [|by rewrite (pool_run_app es1 _ s s1 R1), (pool_run_app _ _ s1 s2 R2)|done|done].
  apply Forall_app. split; [done|]. apply Forall_app. split; apply Forall_forall; intros e He%list_elem_of_In.
  - by apply in_map_iff in He as (w & <- & _).
  - by apply repeat_spec in He as ->.
Qed.

Lemma stop_completes_witness : exists es' s', Forall own es' /\ run es' (demo_state demo_stop) = Some (Ok s') /\ main s' = Joined /\
  (forall w p, workers s' !! w = Some p -> p = Exited).
Proof. exact (stop_completes 2 demo_stop _ ltac:(lia) (proj2 pool_demo_runs) ltac:(by vm_compute)). Defined.

(** The stop handlers registered are called in their order, each once, and all before bStop is set. *)
Theorem stop_handlers_once n es s : Z.of_nat n < 2 ^ 31 -> run es (start n) = Some (Ok s) ->
  NoDup (called s) /\ (exists rest, called s ++ rest = m_vStopHandlers s) /\ (bStop s = true -> called s = m_vStopHandlers s).
Proof.
  intros Hn (s0 & [= <-] & I)%pool_reached; [|done]. destruct (i_called n s I) as [H1 H2]. split_and!.
  - rewrite <- H1 in H2. by apply NoDup_app in H2 as (? & _).
  - eauto.
  - intros Hb. rewrite <- H1. rewrite (proj1 (i_stored n s I)) in Hb. unfold handlers_left. destruct (finish s); try done; by rewrite app_nil_r.
Qed.

Lemma stop_handlers_once_witness : called (demo_state demo_stop) = [5] /\ NoDup (called (demo_state demo_stop)) /\
  exists rest, called (demo_state demo_stop) ++ rest = m_vStopHandlers (demo_state demo_stop).
Proof.
  split; [by vm_compute|]. destruct (stop_handlers_once 2 demo_stop _ ltac:(lia) (proj2 pool_demo_runs)) as (H1 & H2 & _). by split.
Defined.

End ThreadPool.
