(* ===== verification/TaskScope.v ===== *)
(** * Task scopes

    TaskScope (base/inc/oi_coro.h, src/oi_coro.cpp): tasks started together, stopped
    together and joined.  A step is one section under the scope's lock, or one Schedule;
    the bodies of the tasks, the coroutines of Join and the callers of Start and
    RequestStop take their steps in any order.

    What a scope needs of coroutines is in Coro.v: a coroutine that has suspended is
    resumed when it has been scheduled, once. *)

From S2P Require Import Prelude.

Module TaskScope.

(** ** State *)

(** TaskScope::State.  [stError]: the number of the exception. *)
Record scope : Type := mkScope { pStop : bool; iActive : Z; vWaiters : list Z; bClosed : bool; stError : option Z }.

(** Where TaskScope::Run stands. *)
Inductive task : Type :=
| Running                   (* co_await fnFunction(...) *)
| Catching (e : Z)          (* in the catch block, before the lock *)
| Ending                    (* before the second lock *)
| Waking (ws : list Z)      (* the loop over vWaitersLocal *)
| Over.

(** ... and TaskScope::Wait. *)
Inductive waiter : Type :=
| Asked                     (* before await_suspend *)
| Suspended
| Resumed                   (* before await_resume *)
| Returned (r : option Z).  (* what was rethrown *)

(** [queue]: the run queue, as far as waiters are in it; [caught]: all exceptions, the
    first one first. *)
Record state : Type := mkState { sc : scope; tasks : gmap Z task; waits : gmap Z waiter; queue : list Z; next : Z; caught : list Z }.

Definition empty_scope : scope := mkScope false 0 [] false None.
Definition start : state := mkState empty_scope ∅ ∅ [] 1 [].

Definition set_task (t : Z) (p : task) (s : state) : state := mkState (sc s) (<[t := p]> (tasks s)) (waits s) (queue s) (next s) (caught s).
Definition set_wait (w : Z) (p : waiter) (s : state) : state := mkState (sc s) (tasks s) (<[w := p]> (waits s)) (queue s) (next s) (caught s).
Definition set_scope (c : scope) (s : state) : state := mkState c (tasks s) (waits s) (queue s) (next s) (caught s).
Definition set_queue (q : list Z) (s : state) : state := mkState (sc s) (tasks s) (waits s) q (next s) (caught s).

(** ** Operations *)

(** TaskScope::Start; [None]: std::logic_error. *)
Definition Start (s : state) : option state :=
  if bClosed (sc s) then None
  else
    let t := next s in
    let c := sc s in
    Some (mkState (mkScope (pStop c) (u64 (iActive c + 1)) (vWaiters c) (bClosed c) (stError c)) (<[t := Running]> (tasks s)) (waits s) (queue s) (t + 1) (caught s)).

Definition RequestStop (s : state) : state :=
  let c := sc s in set_scope (mkScope true (iActive c) (vWaiters c) true (stError c)) s.

(** One step of TaskScope::Run; [threw]: how the body ends. *)
Definition Run (t : Z) (p : task) (threw : option Z) (s : state) : option state :=
  let c := sc s in
  match p with
  | Running => Some (set_task t (match threw with Some e => Catching e | None => Ending end) s)
  | Catching e =>
      Some (set_task t Ending (mkState (mkScope true (iActive c) (vWaiters c) (bClosed c) (match stError c with None => Some e | r => r end))
                                 (tasks s) (waits s) (queue s) (next s) (caught s ++ [e])))
  | Ending =>
      let n := u64 (iActive c - 1) in
      let ws := if n =? 0 then vWaiters c else [] in
      Some (set_task t (Waking ws) (set_scope (mkScope (pStop c) n (if n =? 0 then [] else vWaiters c) (bClosed c) (stError c)) s))
  | Waking (w :: ws) => Some (set_task t (Waking ws) (set_queue (queue s ++ [w]) s))
  | Waking [] => Some (set_task t Over s)
  | Over => None
  end.

(** Join: a coroutine of Wait. *)
Definition Join (s : state) : state := mkState (sc s) (tasks s) (<[next s := Asked]> (waits s)) (queue s) (next s + 1) (caught s).

(** JoinAwaiter::await_suspend. *)
Definition await_suspend (w : Z) (s : state) : state :=
  let c := sc s in
  if iActive c =? 0 then set_wait w Resumed (set_scope (mkScope (pStop c) (iActive c) (vWaiters c) true (stError c)) s)
  else set_wait w Suspended (set_scope (mkScope (pStop c) (iActive c) (vWaiters c ++ [w]) true (stError c)) s).

Inductive event : Type :=
| Begin
| Step (t : Z) (threw : option Z)
| NewJoin
| Suspend (w : Z)
| Resume                      (* the head of the run queue *)
| Return (w : Z)              (* await_resume *)
| StopAll.

Definition do_event (e : event) (s : state) : option (result state) :=
  match e with
  | Begin => Some (Ok (match Start s with Some s => s | None => s end))
  | Step t threw => match tasks s !! t with Some p => Ok <$> Run t p threw s | None => None end
  | NewJoin => Some (Ok (Join s))
  | Suspend w => match waits s !! w with Some Asked => Some (Ok (await_suspend w s)) | _ => None end
  | Resume =>
      match queue s with
      | w :: q => Some (match waits s !! w with Some Suspended => Ok (set_wait w Resumed (set_queue q s)) | _ => Err Undefined end)
      | [] => None
      end
  | Return w => match waits s !! w with Some Resumed => Some (Ok (set_wait w (Returned (stError (sc s))) s)) | _ => None end
  | StopAll => Some (Ok (RequestStop s))
  end.

Fixpoint run (es : list event) (s : state) : option (result state) :=
  match es with
  | [] => Some (Ok s)
  | e :: es => match do_event e s with Some (Ok s) => run es s | r => r end
  end.

(** ** Invariant *)

Definition active (p : task) : nat := match p with Running | Catching _ | Ending => 1 | _ => 0 end.
Definition in_hand (w : Z) (p : task) : nat := match p with Waking ws => cnt w ws | _ => 0 end.
Definition suspended (p : waiter) : nat := match p with Suspended => 1 | _ => 0 end.

(** Where a suspended waiter is known. *)
Definition known (s : state) (w : Z) : nat := cnt w (vWaiters (sc s)) + msum (in_hand w) (tasks s) + cnt w (queue s).

Record inv (s : state) : Prop := mkInv {
  i_active : iActive (sc s) = Z.of_nat (msum active (tasks s)) /\ Z.of_nat (msum active (tasks s)) < next s;
  i_known : forall w, known s w = ofn suspended (waits s !! w);
  i_waiters : vWaiters (sc s) <> [] -> bClosed (sc s) = true /\ iActive (sc s) <> 0;
  i_woken : forall w, (0 < msum (in_hand w) (tasks s) + cnt w (queue s))%nat -> bClosed (sc s) = true /\ iActive (sc s) = 0;
  i_resumed : forall w p, waits s !! w = Some p -> match p with Resumed | Returned _ => bClosed (sc s) = true /\ iActive (sc s) = 0 | _ => True end;
  i_fresh : forall x, next s <= x -> tasks s !! x = None /\ waits s !! x = None;
  i_error : stError (sc s) = hd_error (caught s);
  i_result : forall w r, waits s !! w = Some (Returned r) -> r = stError (sc s)
}.

Ltac look k x :=
  destruct (decide (x = k)) as [->|?]; [rewrite ?lookup_insert_eq|rewrite ?lookup_insert_ne by done].
Ltac totals := cbn [active in_hand suspended ofn] in *; msums; cbn [active in_hand suspended ofn] in *; rewrite ?cnt_app, ?cnt_cons, ?cnt_nil in *; lia.

(** The end of a task: with the last one the waiters pass from the scope to its hands. *)
Lemma end_inv t s : inv s -> next s < 2 ^ 64 -> tasks s !! t = Some Ending -> exists s', Run t Ending None s = Some s' /\ inv s' /\ next s' = next s.
Proof.
  intros [[I1 I1'] I2 I3 I4 I5 I6 I7 I8] Hn E. pose proof (msum_ge active _ _ _ E) as H1. cbn in H1.
  assert (u64 (iActive (sc s) - 1) = iActive (sc s) - 1) as Hu by (apply u64_small; lia). cbn [Run]. rewrite Hu.
  assert (iActive (sc s) <> 0) as Hz by lia. eexists. split; [done|]. split; [|done].
  assert (forall w, (msum (in_hand w) (tasks s) + cnt w (queue s) = 0)%nat) as Hw.
  { intros w. destruct (msum (in_hand w) (tasks s) + cnt w (queue s))%nat eqn:Ew; [done|]. destruct (I4 w); [lia|done]. }
  split; cbn; try done.
  - split; [rewrite I1; totals|totals].
  - intros w. rewrite <- I2. unfold known. cbn. destruct (iActive (sc s) - 1 =? 0); totals.
  - destruct (Z.eqb_spec (iActive (sc s) - 1) 0); [done|]. intros Hv. split; [by apply I3|lia].
  - intros w Hp. destruct (Z.eqb_spec (iActive (sc s) - 1) 0) as [E0|E0].
    + destruct (vWaiters (sc s)) as [|x l] eqn:Ev; [specialize (Hw w); exfalso; revert Hp; totals|]. split; [by apply I3|lia].
    + specialize (Hw w). exfalso. revert Hp. totals.
  - intros w p Ew. specialize (I5 w p Ew). destruct p; try done; by destruct I5.
  - intros x Hx. look t x; [|by apply I6]. destruct (I6 t Hx). congruence.
Qed.

Lemma step_inv t threw s p s' : inv s -> next s < 2 ^ 64 -> tasks s !! t = Some p -> Run t p threw s = Some s' -> inv s' /\ next s' = next s.
Proof.
  intros I Hn E. pose proof I as [[I1 I1'] I2 I3 I4 I5 I6 I7 I8].
  assert (forall x, next s <= x -> x <> t) as Ht by (intros x Hx ->; destruct (I6 t Hx); congruence).
  assert (forall q x, next s <= x -> <[t := q]> (tasks s) !! x = None /\ waits s !! x = None) as I6' by (intros q x Hx; rewrite lookup_insert_ne by (by apply not_eq_sym, Ht); by apply I6).
  destruct p as [|e| |[|w ws]|]; cbn [Run].
  - intros [= <-]. split; [|done]. assert (forall x q, active q = 1%nat -> (forall w, in_hand w q = 0%nat) -> x = set_task t q s -> inv x) as H; [|destruct threw as [e|]; [by apply (H _ (Catching e))|by apply (H _ Ending)]].
    intros x q Hq1 Hq2 ->. split; cbn; try done.
    + split; [rewrite I1; totals|totals].
    + intros w. rewrite <- I2. unfold known. cbn. specialize (Hq2 w). totals.
    + intros w H. apply (I4 w). specialize (Hq2 w). revert H. totals.
    + apply I6'.
  - intros [= <-]. split; [|done]. pose proof (msum_ge active _ _ _ E) as H1. cbn in H1. split; cbn; try done.
    + split; [rewrite I1; totals|totals].
    + intros w. rewrite <- I2. unfold known. cbn. totals.
    + intros w H. apply (I4 w). revert H. totals.
    + apply I6'.
    + rewrite I7. by destruct (caught s).
    + intros w r Ew. destruct (I5 w _ Ew). lia.
  - intros H. destruct (end_inv t s I Hn E) as (s1 & E1 & I' & N'). cbn [Run] in E1. rewrite H in E1. by injection E1 as <-.
  - intros [= <-]. split; [|done]. split; cbn; try done.
    + split; [rewrite I1; totals|totals].
    + intros w. rewrite <- I2. unfold known. cbn. totals.
    + intros w H. apply (I4 w). revert H. totals.
    + apply I6'.
  - intros [= <-]. split; [|done]. split; cbn; try done.
    + split; [rewrite I1; totals|totals].
    + intros x. rewrite <- I2. unfold known. cbn. totals.
    + intros x H. apply (I4 x). revert H. totals.
    + apply I6'.
  - done.
Qed.

Lemma scope_event_inv e s r : inv s -> next s < 2 ^ 64 - 1 -> do_event e s = Some r -> exists s', r = Ok s' /\ inv s' /\ next s <= next s' <= next s + 1.
Proof.
  intros I Hn. pose proof I as [[I1 I1'] I2 I3 I4 I5 I6 I7 I8]. destruct e; cbn [do_event].
  - intros [= <-]. eexists. split; [done|]. unfold Start. destruct (bClosed (sc s)) eqn:Eb; [split; [done|lia]|]. split; [|cbn; lia].
    destruct (I6 (next s) ltac:(lia)) as [E1 E2]. assert (u64 (iActive (sc s) + 1) = iActive (sc s) + 1) as Hu by (apply u64_small; lia).
    split; cbn; rewrite ?Hu; try done.
    + split; [rewrite I1; totals|totals].
    + intros w. rewrite <- I2. unfold known. cbn. totals.
    + intros H. destruct (I3 H). congruence.
    + intros w H. destruct (I4 w) as [H1 _]; [revert H; totals|congruence].
    + intros w p Ew. specialize (I5 w p Ew). destruct p; try done; destruct I5; congruence.
    + intros x Hx. rewrite lookup_insert_ne by lia. apply I6. lia.
  - destruct (tasks s !! t) as [p|] eqn:E; [|done]. destruct (Run t p threw s) as [s'|] eqn:E'; intros [= <-]. eexists. split; [done|].
    destruct (step_inv t threw s p s' I ltac:(lia) E E') as [I' N']. split; [done|lia].
  - intros [= <-]. eexists. split; [done|]. split; [|cbn; lia]. destruct (I6 (next s) ltac:(lia)) as [E1 E2]. split; cbn; try done.
    + split; [done|lia].
    + intros w. look (next s) w; [|apply I2]. pose proof (I2 (next s)) as K. rewrite E2 in K. exact K.
    + intros w p. look (next s) w; [by intros [= <-]|apply I5].
    + intros x Hx. rewrite lookup_insert_ne by lia. apply I6. lia.
    + intros w r'. look (next s) w; [done|apply I8].
  - destruct (waits s !! w) as [[]|] eqn:E; try done. intros [= <-]. eexists. split; [done|]. unfold await_suspend.
    assert (forall x, next s <= x -> x <> w) as Hw by (intros x Hx ->; destruct (I6 w Hx); congruence).
    assert (forall q x, next s <= x -> tasks s !! x = None /\ <[w := q]> (waits s) !! x = None) as I6' by (intros q x Hx; rewrite lookup_insert_ne by (by apply not_eq_sym, Hw); by apply I6).
    pose proof (I2 w) as Kw. rewrite E in Kw. cbn in Kw. destruct (Z.eqb_spec (iActive (sc s)) 0) as [E0|E0]; (split; [|cbn; lia]); split; cbn; try done.
    + intros x. look w x; [exact Kw|apply I2].
    + intros H. by destruct (I3 H).
    + intros x p. look w x; [by intros [= <-]|]. intros Ex. specialize (I5 x p Ex). by destruct p.
    + apply I6'.
    + intros x r'. look w x; [done|apply I8].
    + intros x. unfold known in *. cbn. look w x; [rewrite cnt_app, cnt_cons, cnt_nil; cbn; destruct (Z.eq_dec w w); [lia|done]|].
      rewrite <- I2, cnt_app, cnt_cons, cnt_nil. unfold known. destruct (Z.eq_dec w x); [congruence|lia].
    + intros x H. destruct (I4 x H). done.
    + intros x p. look w x; [by intros [= <-]|]. intros Ex. specialize (I5 x p Ex). destruct p; try done; by destruct I5.
    + apply I6'.
    + intros x r'. look w x; [done|apply I8].
  - destruct (queue s) as [|w q] eqn:Eq; [done|]. intros [= <-].
    assert (ofn suspended (waits s !! w) <> 0%nat) as Hs by (rewrite <- I2; unfold known; rewrite Eq, cnt_cons; destruct (Z.eq_dec w w); [lia|done]).
    destruct (waits s !! w) as [[]|] eqn:E; try done. eexists. split; [done|]. split; [|cbn; lia].
    destruct (I4 w) as [H1 H2]; [rewrite ?Eq, cnt_cons; destruct (Z.eq_dec w w); [lia|done]|]. split; cbn; try done.
    + intros x. specialize (I2 x). unfold known in *. cbn. rewrite ?Eq, cnt_cons in I2. look w x.
      * rewrite E in I2. cbn in *. destruct (Z.eq_dec w w); [lia|done].
      * rewrite <- I2. destruct (Z.eq_dec w x); [congruence|lia].
    + intros x p. look w x; [by intros [= <-]|apply I5].
    + intros x Hx. destruct (I6 x Hx) as [T1 T2]. split; [done|]. look w x; [congruence|done].
    + intros x r'. look w x; [done|apply I8].
  - destruct (waits s !! w) as [[]|] eqn:E; try done. intros [= <-]. eexists. split; [done|]. split; [|cbn; lia]. split; cbn; try done.
    + intros x. look w x; [|apply I2]. pose proof (I2 w) as K. rewrite E in K. exact K.
    + intros x p. look w x; [intros [= <-]; exact (I5 w _ E)|apply I5].
    + intros x Hx. destruct (I6 x Hx) as [T1 T2]. split; [done|]. look w x; [congruence|done].
    + intros x r'. look w x; [by intros [= <-]|apply I8].
  - intros [= <-]. eexists. split; [done|]. split; [|cbn; lia]. split; cbn; try done.
    + intros H. by destruct (I3 H).
    + intros w H. by destruct (I4 w H).
    + intros w p E. specialize (I5 w p E). destruct p; try done; by destruct I5.
Qed.

Lemma scope_start_inv : inv start.
Proof.
  split; cbn; try done; try (intros; by rewrite !lookup_empty).
  - intros w. rewrite msum_empty, cnt_nil. lia.
Qed.

Lemma scope_run_inv es : forall s r, inv s -> next s + Z.of_nat (length es) < 2 ^ 64 -> run es s = Some r -> exists s', r = Ok s' /\ inv s'.
Proof.
  induction es as [|e es IH]; intros s r I Hn; cbn [run]; [intros [= <-]; eauto|]. cbn [length] in Hn.
  destruct (do_event e s) as [r1|] eqn:E; [|done]. destruct (scope_event_inv e s r1 I ltac:(lia) E) as (s1 & -> & I1 & N1). apply IH; [done|lia].
Qed.

Lemma scope_reached es r : Z.of_nat (length es) < 2 ^ 63 -> run es start = Some r -> exists s, r = Ok s /\ inv s.
Proof. intros Hn. apply scope_run_inv; [apply scope_start_inv|cbn; lia]. Qed.

(** ** Theorems *)

(** Two tasks, one of which throws, and a join between. *)
Definition demo : list event :=
  [Begin; Begin; NewJoin; Suspend 3; Step 1 (Some 9); Step 1 None; Step 1 None; Step 2 None; Begin].
Definition demo_end : list event := [Step 2 None; Step 2 None; Resume; Return 3].
Definition demo_state (es : list event) : state := match run es start with Some (Ok s) => s | _ => start end.

Lemma scope_demo_runs : run demo start = Some (Ok (demo_state demo)) /\ run (demo ++ demo_end) start = Some (Ok (demo_state (demo ++ demo_end))).
Proof. by vm_compute. Qed.

(** C23: Join returns only when every task started has run to its end, after which none can be started, and rethrows the first exception any task threw. *)
Theorem join_waits_for_all es s w r : Z.of_nat (length es) < 2 ^ 63 -> run es start = Some (Ok s) -> waits s !! w = Some (Returned r) ->
  (forall t p, tasks s !! t = Some p -> active p = 0%nat) /\ Start s = None /\ r = hd_error (caught s).
Proof.
  intros Hn (s' & [= <-] & I)%scope_reached E; [|done]. destruct (i_resumed s I w _ E) as [H1 H2]. split_and!.
  - intros t p Et. pose proof (msum_ge active _ _ _ Et). destruct (i_active s I). lia.
  - unfold Start. by rewrite H1.
  - rewrite <- (i_error s I). by eapply i_result.
Qed.

Lemma join_waits_for_all_witness : waits (demo_state (demo ++ demo_end)) !! 3 = Some (Returned (Some 9)) /\
  Start (demo_state (demo ++ demo_end)) = None /\ Some 9 = hd_error (caught (demo_state (demo ++ demo_end))).
Proof.
  split; [by vm_compute|].
  exact (proj2 (join_waits_for_all (demo ++ demo_end) _ 3 (Some 9) ltac:(by vm_compute) (proj2 scope_demo_runs) ltac:(by vm_compute))).
Defined.

(** Each suspended Join is known in one place, is resumed at most once and never forgotten: while it is neither scheduled nor in the hands of a task
    that ends, some task is still active. *)
Theorem joins_not_forgotten es r : Z.of_nat (length es) < 2 ^ 63 -> run es start = Some r -> exists s, r = Ok s /\
  (forall w, known s w = ofn suspended (waits s !! w)) /\
  (forall w, waits s !! w = Some Suspended -> queue s = [] -> (forall t ws, tasks s !! t = Some (Waking ws) -> ws = []) ->
    exists t p, tasks s !! t = Some p /\ (0 < active p)%nat).
Proof.
  intros Hn (s & -> & I)%scope_reached; [|done]. exists s. split_and!; [done|apply (i_known s I)|]. intros w E Hq Hw.
  pose proof (i_known s I w) as K. rewrite E in K. unfold known in K. rewrite Hq, cnt_nil in K. cbn in K.
  assert (msum (in_hand w) (tasks s) = 0%nat) as H0.
  { destruct (msum (in_hand w) (tasks s)) eqn:Em; [done|]. destruct (msum_pos (in_hand w) (tasks s)) as (t & p & Et & Hp); [lia|].
    destruct p; cbn in Hp; try lia. rewrite (Hw t ws Et), cnt_nil in Hp. lia. }
  assert (vWaiters (sc s) <> []) as Hv by (intros Ev; rewrite Ev, cnt_nil in K; lia). destruct (i_waiters s I Hv) as [_ Ha].
  destruct (i_active s I) as [H1 _]. apply msum_pos. lia.
Qed.

Lemma joins_not_forgotten_witness : waits (demo_state demo) !! 3 = Some Suspended /\ exists s, Ok (demo_state demo) = Ok s /\
  (forall w, known s w = ofn suspended (waits s !! w)) /\
  (forall w, waits s !! w = Some Suspended -> queue s = [] -> (forall t ws, tasks s !! t = Some (Waking ws) -> ws = []) ->
    exists t p, tasks s !! t = Some p /\ (0 < active p)%nat).
Proof. split; [by vm_compute|]. exact (joins_not_forgotten demo _ ltac:(by vm_compute) (proj1 scope_demo_runs)). Defined.

End TaskScope.
