(* ===== verification/RouteConn.v ===== *)
(** * Connections of the call router

    RouteConnection, RouteSession and RouteConnector (proto/src/oi_rpc_route.cpp): one
    connection to one address, set up on demand, that holds calls back until it is
    there and is retired when the pool (RoutePool.v) has no more use for it.

    Calls are submitted by any thread; connecting, retiring and what the network reports
    happen on the poll thread.  A step is one section under the connection's lock or one
    piece of a function between two of them; the poll thread ends what it has begun
    before it takes the next event.  What the tables of calls (RpcCalls.v), the name
    resolution, the sockets and the sending answer is the event's.  A session's number
    is unknown to other threads until Finish has published it. *)

From S2P Require Import Prelude RpcCalls.

Module RouteConn.
Import RpcCalls.

(** ** State *)

(** RouteConnection::Held and RoutePolicy, as far as Submit uses it. *)
Record Held : Type := mkHeld { h_iCallId : Z; stData : list byte }.
Record limits : Type := mkLimits { iHeldCount : Z; iMaxHeldBytes : Z }.

(** mHeld, which finds a held call by its number, is the search by number. *)
Record connection : Type := mkConnection {
  iSessionId : Z;
  bConnecting : bool;
  bPosted : bool;
  bRetired : bool;
  vHeld : list Held;
  iHeldBytes : Z
}.

(** What a call ends in here: sent on a session, woken with a code, or no longer in the
    tables of calls (answered, timed out or abandoned meanwhile). *)
Inductive ending : Type := Sent (sid : Z) | Woken (iCode : Z) | Gone.

(** What a thread that submits a call has still to do. *)
Inductive task : Type :=
| Submit (i : Z) (l : list byte)      (* under the lock *)
| Claimed (sid i : Z)                  (* SendBytesResult *)
| Wake (i iCode : Z)                   (* WakeRpcCall *)
| Ensure                               (* under the lock *)
| PostBegin.                           (* CallOnLoop *)

(** ... and the poll thread. *)
Inductive loop : Type :=
| Idle
| Begin
| Resolve                              (* Begin, after its lock *)
| OnResolved (bOk : bool)
| Connect
| Connected (bSocket : bool)
| Finish (sid : Z)                     (* ends an attempt *)
| Flush (sid : Z) (vReady : list Held) (* the loop of Finish *)
| Send (sid i : Z) (vReady : list Held)
| Retire
| Closing (sid : Z)                    (* Retire, after its lock *)
| FinishRetired.                       (* Finish(INVALID_SID) at its end *)

(** [posted]: calls of Begin in CallOnLoop; [resolving]: names being resolved;
    [connector]: pConnector is set; [sessions]: the open ones, [next_sid]: the next;
    [submitted], [dropped], [ended]: what was asked for and what became of it. *)
Record state : Type := mkState {
  cn : connection;
  threads : list (list task);
  poll : loop;
  posted : nat;
  resolving : nat;
  connector : bool;
  sessions : list Z;
  next_sid : Z;
  submitted : list Z;
  dropped : list Z;
  ended : list (Z * ending)
}.

Definition set_cn (c : connection) (s : state) : state :=
  mkState c (threads s) (poll s) (posted s) (resolving s) (connector s) (sessions s) (next_sid s) (submitted s) (dropped s) (ended s).
Definition set_threads (l : list (list task)) (s : state) : state :=
  mkState (cn s) l (poll s) (posted s) (resolving s) (connector s) (sessions s) (next_sid s) (submitted s) (dropped s) (ended s).
Definition set_poll (p : loop) (s : state) : state :=
  mkState (cn s) (threads s) p (posted s) (resolving s) (connector s) (sessions s) (next_sid s) (submitted s) (dropped s) (ended s).
Definition set_posted (n : nat) (s : state) : state :=
  mkState (cn s) (threads s) (poll s) n (resolving s) (connector s) (sessions s) (next_sid s) (submitted s) (dropped s) (ended s).
Definition set_resolving (n : nat) (s : state) : state :=
  mkState (cn s) (threads s) (poll s) (posted s) n (connector s) (sessions s) (next_sid s) (submitted s) (dropped s) (ended s).
Definition set_connector (b : bool) (s : state) : state :=
  mkState (cn s) (threads s) (poll s) (posted s) (resolving s) b (sessions s) (next_sid s) (submitted s) (dropped s) (ended s).
Definition set_sessions (l : list Z) (n : Z) (s : state) : state :=
  mkState (cn s) (threads s) (poll s) (posted s) (resolving s) (connector s) l n (submitted s) (dropped s) (ended s).
Definition log_submitted (i : Z) (s : state) : state :=
  mkState (cn s) (threads s) (poll s) (posted s) (resolving s) (connector s) (sessions s) (next_sid s) (submitted s ++ [i]) (dropped s) (ended s).
Definition log_dropped (i : Z) (s : state) : state :=
  mkState (cn s) (threads s) (poll s) (posted s) (resolving s) (connector s) (sessions s) (next_sid s) (submitted s) (dropped s ++ [i]) (ended s).
Definition log_ended (i : Z) (e : ending) (s : state) : state :=
  mkState (cn s) (threads s) (poll s) (posted s) (resolving s) (connector s) (sessions s) (next_sid s) (submitted s) (dropped s) (ended s ++ [(i, e)]).

Definition new_connection : connection := mkConnection INVALID_SID false false false [] 0.
Definition start : state := mkState new_connection [] Idle 0 0 false [] 1 [] [] [].

(** ** Under the lock *)

Section Limits.
Context (lim : limits).

(** RouteConnection::Submit.  [bKnown]: what ClaimRpcSend or MarkRpcAwaitingConnect
    answers.  The tasks are what the thread does next, the ending that of a call that is
    no longer in the tables. *)
Definition submit (i : Z) (l : list byte) (bKnown : bool) (c : connection) : connection * list task * option ending :=
  if bRetired c then (c, [Wake i OI_ERR_CONNECT], None)
  else if negb (iSessionId c =? INVALID_SID) then
    if bKnown then (c, [Claimed (iSessionId c) i], None) else (c, [], Some Gone)
  else if (iHeldCount lim <=? lenZ (vHeld c)) || (iMaxHeldBytes lim <? iHeldBytes c) || (u64 (iMaxHeldBytes lim - iHeldBytes c) <? lenZ l) then
    (c, [Wake i OI_ERR_BUSY], None)
  else if bKnown then
    (mkConnection (iSessionId c) (bConnecting c) (bPosted c) (bRetired c) (vHeld c ++ [mkHeld i l]) (u64 (iHeldBytes c + lenZ l)), [Ensure], None)
  else (c, [], Some Gone).

(** RouteConnection::Drop. *)
Fixpoint find_held (i : Z) (l : list Held) : option Held :=
  match l with
  | [] => None
  | h :: l => if h_iCallId h =? i then Some h else find_held i l
  end.
Fixpoint erase_held (i : Z) (l : list Held) : list Held :=
  match l with
  | [] => []
  | h :: l => if h_iCallId h =? i then l else h :: erase_held i l
  end.
Definition drop (i : Z) (c : connection) : connection :=
  match find_held i (vHeld c) with
  | Some h => mkConnection (iSessionId c) (bConnecting c) (bPosted c) (bRetired c) (erase_held i (vHeld c)) (u64 (iHeldBytes c - lenZ (stData h)))
  | None => c
  end.

(** RouteConnection::Ensure: whether Begin is to be posted. *)
Definition ensure (c : connection) : connection * bool :=
  if bRetired c || bConnecting c || bPosted c || negb (iSessionId c =? INVALID_SID) then (c, false)
  else (mkConnection (iSessionId c) (bConnecting c) true (bRetired c) (vHeld c) (iHeldBytes c), true).

(** RouteConnection::Begin: whether to go on. *)
Definition begin (c : connection) : connection * bool :=
  if bRetired c || bConnecting c || negb (iSessionId c =? INVALID_SID) then (mkConnection (iSessionId c) (bConnecting c) false (bRetired c) (vHeld c) (iHeldBytes c), false)
  else (mkConnection (iSessionId c) true false (bRetired c) (vHeld c) (iHeldBytes c), true).

(** RouteConnection::Finish. *)
Definition finish (sid : Z) (c : connection) : connection * list Held :=
  (mkConnection sid false (bPosted c) (bRetired c) [] 0, vHeld c).

(** RouteConnection::Disconnected. *)
Definition disconnected (sid : Z) (c : connection) : connection :=
  mkConnection (if iSessionId c =? sid then INVALID_SID else iSessionId c) (bConnecting c) (bPosted c) (bRetired c) (vHeld c) (iHeldBytes c).

Definition retire (c : connection) : connection :=
  mkConnection (iSessionId c) (bConnecting c) (bPosted c) true (vHeld c) (iHeldBytes c).

(** ** Steps *)

(** What resolution, sockets, sending and the tables answer: [Yes] and [No] as the code
    takes them, [Later] when the answer comes as an event of its own. *)
Inductive answer : Type := Yes | No | Later.
Definition yes (a : answer) : bool := match a with Yes => true | _ => false end.

(** One task of a thread that submits. *)
Definition exec (a : answer) (iResult : Z) (t : task) (s : state) : state * list task :=
  match t with
  | Submit i l =>
      let '(c, ts, e) := submit i l (yes a) (cn s) in
      let s := set_cn c s in (match e with Some e => log_ended i e s | None => s end, ts)
  | Claimed sid i => if iResult =? OI_OK then (log_ended i (Sent sid) s, []) else (s, [Wake i iResult])
  | Wake i iCode => (log_ended i (Woken iCode) s, [])
  | Ensure => let (c, b) := ensure (cn s) in (set_cn c s, if b then [PostBegin] else [])
  | PostBegin => (set_posted (S (posted s)) s, [])
  end.

(** One step of the poll thread; [None]: it has nothing to do. *)
Definition turn (a : answer) (iResult : Z) (s : state) : option state :=
  let c := cn s in
  match poll s with
  | Idle => None
  | Begin => let (c, b) := begin c in Some (set_poll (if b then Resolve else Idle) (set_cn c s))
  | Resolve =>    (* No: the port is not one, or resolution fails at once *)
      match a with
      | Yes => Some (set_poll (OnResolved true) s)
      | No => Some (set_poll (Finish INVALID_SID) s)
      | Later => Some (set_poll Idle (set_resolving (S (resolving s)) s))
      end
  | OnResolved bOk => Some (set_poll (if negb bOk || bRetired c then Finish INVALID_SID else Connect) s)
  | Connect =>
      match a with
      | Yes => Some (set_poll (Connected true) s)
      | No => Some (set_poll (Finish INVALID_SID) s)
      | Later => Some (set_poll Idle (set_connector true s))
      end
  | Connected bSocket =>    (* Adopt; No: it fails, its session closed again *)
      if bSocket && yes a then Some (set_poll (Finish (next_sid s)) (set_sessions (sessions s ++ [next_sid s]) (next_sid s + 1) s))
      else Some (set_poll (Finish INVALID_SID) s)
  | Finish sid => let (c, l) := finish sid c in Some (set_poll (Flush sid l) (set_cn c s))
  | Flush _ [] => Some (set_poll Idle s)
  | Flush sid (h :: l) =>
      let i := h_iCallId h in
      if sid =? INVALID_SID then Some (set_poll (Flush sid l) (log_ended i (Woken OI_ERR_CONNECT) s))
      else if yes a then Some (set_poll (Send sid i l) s)
      else Some (set_poll (Flush sid l) (log_ended i Gone s))
  | Send sid i l => Some (set_poll (Flush sid l) (log_ended i (if iResult =? OI_OK then Sent sid else Woken iResult) s))
  | Retire => Some (set_poll (Closing (iSessionId c)) (set_cn (retire c) s))
  | Closing sid =>    (* pConnector->Cancel(), CloseSession *)
      let s := set_connector false s in
      Some (set_poll FinishRetired
              (if sid =? INVALID_SID then s
               else set_cn (disconnected sid (cn s)) (set_sessions (List.filter (fun x => negb (x =? sid)) (sessions s)) (next_sid s) s)))
  | FinishRetired => let (c, l) := finish INVALID_SID c in Some (set_poll (Flush INVALID_SID l) (set_cn c s))
  end.

Inductive event : Type :=
| Call (i : Z) (l : list byte)                    (* SubmitCall by a thread; numbers are not used again *)
| NewEnsure                                       (* ClientFor: Ensure *)
| Thread (k : nat) (a : answer) (iResult : Z)     (* thread [k] runs its next task *)
| DropCall (i : Z)                                (* Drop, by whoever ends the call *)
| Turn (a : answer) (iResult : Z)
| RunBegin                                        (* the poll thread takes the posted Begin *)
| Resolved (bOk : bool)
| Connectable (bOk : bool)                        (* RouteConnector::DataOut *)
| Disconnect (sid : Z)                            (* ActiveClose or OnClose of a session *)
| RetireNow.                                      (* from the pool, on the poll thread *)

Definition idle (s : state) : bool := match poll s with Idle => true | _ => false end.

(** A session that is open and whose number is known outside the poll thread's step. *)
Definition closable (sid : Z) (s : state) : bool :=
  existsb (Z.eqb sid) (sessions s) && match poll s with Finish x => negb (x =? sid) | _ => true end.

Definition do_event (e : event) (s : state) : option state :=
  match e with
  | Call i l => if existsb (Z.eqb i) (submitted s) then None else Some (log_submitted i (set_threads (threads s ++ [[Submit i l]]) s))
  | NewEnsure => Some (set_threads (threads s ++ [[Ensure]]) s)
  | Thread k a iResult =>
      match threads s !! k with
      | Some (t :: ts) => let (s1, new) := exec a iResult t s in Some (set_threads (<[k := new ++ ts]> (threads s)) s1)
      | _ => None
      end
  | DropCall i =>
      match find_held i (vHeld (cn s)) with
      | Some _ => Some (log_dropped i (set_cn (drop i (cn s)) s))
      | None => Some s
      end
  | Turn a iResult => turn a iResult s
  | RunBegin => match posted s with S n => if idle s then Some (set_poll Begin (set_posted n s)) else None | O => None end
  | Resolved bOk => match resolving s with S n => if idle s then Some (set_poll (OnResolved bOk) (set_resolving n s)) else None | O => None end
  | Connectable bOk => if connector s && idle s then Some (set_poll (Connected bOk) (set_connector false s)) else None
  | Disconnect sid =>
      if closable sid s then
        Some (set_cn (disconnected sid (cn s)) (set_sessions (List.filter (fun x => negb (x =? sid)) (sessions s)) (next_sid s) s))
      else None
  | RetireNow => if idle s then Some (set_poll Retire s) else None
  end.

Fixpoint run (es : list event) (s : state) : option state :=
  match es with
  | [] => Some s
  | e :: es => match do_event e s with Some s => run es s | None => None end
  end.

(** ** Invariant *)

Fixpoint sum (f : task -> nat) (ts : list task) : nat := match ts with [] => 0 | t :: ts => f t + sum f ts end.
Fixpoint sums (f : task -> nat) (tss : list (list task)) : nat := match tss with [] => 0 | ts :: tss => sum f ts + sums f tss end.

Lemma sum_app f l k : sum f (l ++ k) = (sum f l + sum f k)%nat.
Proof. induction l as [|t l IH]; cbn; [done|]. lia. Qed.

Lemma sums_app f l k : sums f (l ++ k) = (sums f l + sums f k)%nat.
Proof. induction l as [|t l IH]; cbn; [done|]. lia. Qed.

Lemma sums_insert f tss k ts ts' : tss !! k = Some ts -> (sums f (<[k := ts']> tss) + sum f ts = sums f tss + sum f ts')%nat.
Proof.
  revert k. induction tss as [|x tss IH]; intros [|k]; try done; [cbn; intros [= ->]; lia|]. intros E. specialize (IH k E). change (<[S k := ts']> (x :: tss)) with (x :: <[k := ts']> tss). cbn [sums]. lia.
Qed.

Definition is_ensure (t : task) : nat := match t with Ensure => 1 | _ => 0 end.
Definition is_post (t : task) : nat := match t with PostBegin => 1 | _ => 0 end.
Definition of_call (x : Z) (t : task) : nat := match t with Submit i _ | Claimed _ i | Wake i _ => one i x | _ => 0 end.

Fixpoint ids (l : list Held) : list Z := match l with [] => [] | h :: l => h_iCallId h :: ids l end.
Definition in_poll (p : loop) : list Z :=
  match p with Flush _ l => ids l | Send _ i l => i :: ids l | _ => [] end.

Definition attempting (p : loop) : nat := match p with Resolve | OnResolved _ | Connect | Connected _ | Finish _ => 1 | _ => 0 end.
Definition beginning (p : loop) : nat := match p with Begin => 1 | _ => 0 end.
(** The attempts to connect under way. *)
Definition attempts (s : state) : nat := resolving s + (if connector s then 1 else 0) + attempting (poll s).

Fixpoint bytes (l : list Held) : Z := match l with [] => 0 | h :: l => lenZ (stData h) + bytes l end.

Definition held_inv (s : state) : Prop :=
  let c := cn s in
  lenZ (vHeld c) <= Z.max 0 (iHeldCount lim) /\ iHeldBytes c = bytes (vHeld c) /\ bytes (vHeld c) <= iMaxHeldBytes lim.

(** The attempts, as long as the connection is in use. *)
Definition attempt_inv (s : state) : Prop :=
  let c := cn s in
  if bRetired c then
    (match poll s with Resolve | Connect | Connected _ => False | Finish x => x = INVALID_SID | Closing x => x = iSessionId c \/ iSessionId c = INVALID_SID | _ => True end) /\
    (match poll s with Closing _ => True | FinishRetired => connector s = false /\ iSessionId c = INVALID_SID | _ => connector s = false /\ iSessionId c = INVALID_SID /\ vHeld c = [] end)
  else attempts s = (if bConnecting c then 1 else 0)%nat /\ (bConnecting c = true -> iSessionId c = INVALID_SID) /\
    match poll s with Closing _ | FinishRetired => False | _ => True end.

Definition session_inv (s : state) : Prop :=
  let c := cn s in
  1 <= next_sid s /\ (iSessionId c <> INVALID_SID -> sessions s = [iSessionId c] /\ vHeld c = []) /\
  (iSessionId c = INVALID_SID -> match poll s with
     | Finish x => (x = INVALID_SID /\ sessions s = []) \/ (x <> INVALID_SID /\ sessions s = [x])
     | _ => sessions s = [] end) /\ (forall x, x ∈ sessions s -> 1 <= x < next_sid s).

Record inv (s : state) : Prop := mkInv {
  v_held : held_inv s;
  v_attempt : attempt_inv s;
  v_session : session_inv s;
  v_waits : vHeld (cn s) <> [] -> bRetired (cn s) = false -> bConnecting (cn s) = true \/ bPosted (cn s) = true \/ (0 < sums is_ensure (threads s))%nat;
  v_posted : (posted s + sums is_post (threads s) + beginning (poll s))%nat = (if bPosted (cn s) then 1 else 0)%nat;
  v_calls : forall x, cnt x (submitted s) =
    (cnt x (ids (vHeld (cn s))) + sums (of_call x) (threads s) + cnt x (in_poll (poll s)) + cnt x (map fst (ended s)) + cnt x (dropped s))%nat
}.

(** What erasing a held call leaves. *)
Lemma erase_spec i l h : find_held i l = Some h -> h_iCallId h = i /\ bytes l = lenZ (stData h) + bytes (erase_held i l) /\
  lenZ l = 1 + lenZ (erase_held i l) /\ forall x, cnt x (ids l) = (one i x + cnt x (ids (erase_held i l)))%nat.
Proof.
  induction l as [|y l IH]; cbn; [done|]. destruct (Z.eqb_spec (h_iCallId y) i) as [Hy|Hn].
  - intros [= ->]. split_and!; [done|done|by rewrite lenZ_cons|]. intros x. by rewrite cnt_one, Hy.
  - intros E. destruct (IH E) as (H1 & H2 & H3 & H4). split_and!; [done|cbn; lia|rewrite !lenZ_cons; lia|]. intros x. cbn. rewrite !cnt_one, H4. lia.
Qed.

Lemma ids_app l k : ids (l ++ k) = ids l ++ ids k.
Proof. induction l as [|h l IH]; cbn; [done|]. by rewrite IH. Qed.

Lemma held_bytes_nonneg l : 0 <= bytes l.
Proof. induction l as [|h l IH]; cbn; [done|]. unfold lenZ. lia. Qed.

Context (Hlim : 0 <= iMaxHeldBytes lim < 2 ^ 64).

Ltac tally E := rewrite ?length_app, ?map_app, ?cnt_app, ?sums_app, ?sum_app in *;
  repeat match goal with |- context [sums ?f (<[?k := ?l]> ?tss)] => let H := fresh "S" in pose proof (sums_insert f tss k _ l E) as H; revert H; generalize (sums f (<[k := l]> tss)); intros ? H end;
  rewrite ?sum_app in *; cbn [sum sums is_ensure is_post of_call ids map fst in_poll beginning h_iCallId] in *; rewrite ?cnt_app, ?cnt_one, ?cnt_nil in *; try lia.

(** A thread's step that leaves the connection as it is. *)
Lemma thread_inv s k t ts new : inv s -> threads s !! k = Some (t :: ts) -> is_ensure t = 0%nat -> sum is_post new = is_post t ->
  forall s', s' = set_threads (<[k := new ++ ts]> (threads s)) (mkState (cn s) (threads s) (poll s) (posted s) (resolving s) (connector s) (sessions s) (next_sid s) (submitted s) (dropped s) (ended s')) ->
  (forall x, (sum (of_call x) new + cnt x (map fst (ended s')) = of_call x t + cnt x (map fst (ended s)))%nat) -> inv s'.
Proof.
  intros [I1 I2 I3 I4 I5 I6] E He Hp s' -> Hc. cbn [ended set_threads] in Hc. split; cbn; try done.
  - intros H1 H2. destruct (I4 H1 H2) as [|[|H]]; [auto..|]. right; right. tally E.
  - rewrite <- I5. tally E.
  - intros x. rewrite I6. specialize (Hc x). tally E.
Qed.

(** A step of a thread. *)
Lemma exec_inv s k a iResult t ts s' new : inv s -> threads s !! k = Some (t :: ts) -> exec a iResult t s = (s', new) ->
  inv (set_threads (<[k := new ++ ts]> (threads s)) s').
Proof.
  intros I E. pose proof I as [I1 I2 I3 I4 I5 I6]. destruct t; cbn [exec].
  - unfold submit. destruct (bRetired (cn s)) eqn:Er.
    { intros [= <- <-]. eapply (thread_inv s k _ ts [Wake i OI_ERR_CONNECT] I E); [done|done|reflexivity|]. intros x. cbn. lia. }
    destruct (Z.eqb_spec (iSessionId (cn s)) INVALID_SID) as [Ei|Ei]; cbn [negb].
    + destruct (_ || _) eqn:Eb.
      { intros [= <- <-]. eapply (thread_inv s k _ ts [Wake i OI_ERR_BUSY] I E); [done|done|reflexivity|]. intros x. cbn. lia. }
      destruct (yes a); intros [= <- <-].
      * apply orb_false_iff in Eb as [Eb Eb3]. apply orb_false_iff in Eb as [Eb1 Eb2]. destruct I1 as (B1 & B2 & B3). pose proof (held_bytes_nonneg (vHeld (cn s))).
        apply Z.leb_gt in Eb1. apply Z.ltb_ge in Eb2, Eb3. rewrite u64_small in Eb3 by lia.
        assert (lenZ (vHeld (cn s) ++ [mkHeld i l]) = lenZ (vHeld (cn s)) + 1) as L1 by (rewrite lenZ_app; done).
        assert (bytes (vHeld (cn s) ++ [mkHeld i l]) = bytes (vHeld (cn s)) + lenZ l) as L2 by (generalize (vHeld (cn s)) as v; induction v; cbn; lia).
        split; cbn; try done.
        -- unfold held_inv. cbn. rewrite L1, L2, u64_small by (unfold lenZ in *; lia). lia.
        -- unfold attempt_inv in *. cbn. by rewrite Er in *.
        -- unfold session_inv in *. cbn. destruct I3 as (S1 & S2 & S3 & S4). by rewrite Ei in *.
        -- intros _ _. right. right. tally E.
        -- rewrite <- I5. tally E.
        -- intros x. rewrite I6, ids_app. tally E.
      * eapply (thread_inv s k _ ts [] I E); [done|done|reflexivity|]. intros x. cbn. rewrite map_app, cnt_app. cbn. rewrite cnt_one, cnt_nil. lia.
    + destruct (yes a); intros [= <- <-].
      * eapply (thread_inv s k _ ts [Claimed (iSessionId (cn s)) i] I E); [done|done|reflexivity|]. intros x. cbn. lia.
      * eapply (thread_inv s k _ ts [] I E); [done|done|reflexivity|]. intros x. cbn. rewrite map_app, cnt_app. cbn. rewrite cnt_one, cnt_nil. lia.
  - destruct (iResult =? OI_OK); intros [= <- <-].
    + eapply (thread_inv s k _ ts [] I E); [done|done|reflexivity|]. intros x. cbn. rewrite map_app, cnt_app. cbn. rewrite cnt_one, cnt_nil. lia.
    + eapply (thread_inv s k _ ts [Wake i iResult] I E); [done|done|by destruct s|]. intros x. cbn. lia.
  - intros [= <- <-]. eapply (thread_inv s k _ ts [] I E); [done|done|reflexivity|]. intros x. cbn. rewrite map_app, cnt_app. cbn. rewrite cnt_one, cnt_nil. lia.
  - unfold ensure. destruct (_ || _) eqn:Eb; intros [= <- <-].
    + split; cbn; try done.
      * intros H1 H2. rewrite H2 in Eb. cbn in Eb. destruct (bConnecting (cn s)); [by left|]. destruct (bPosted (cn s)); [by right; left|]. cbn in Eb.
        destruct (Z.eqb_spec (iSessionId (cn s)) INVALID_SID) as [|Ei]; [done|]. destruct I3 as (_ & S2 & _). destruct (S2 Ei) as [_ ?]. congruence.
      * rewrite <- I5. tally E.
      * intros x. rewrite I6. tally E.
    + apply orb_false_iff in Eb as [Eb Eb4]. apply orb_false_iff in Eb as [Eb Eb3]. apply orb_false_iff in Eb as [Eb1 Eb2].
      split; cbn; try done.
      * by right; left.
      * rewrite Eb3 in I5. tally E.
      * intros x. rewrite I6. tally E.
  - intros [= <- <-]. split; cbn; try done.
    + intros H1 H2. destruct (I4 H1 H2) as [|[|H]]; [auto..|]. right; right. tally E.
    + rewrite <- I5. tally E.
    + intros x. rewrite I6. tally E.
Qed.

(** A step of the poll thread that leaves the connection and what waits for it. *)
Lemma poll_inv s s' : inv s -> cn s' = cn s -> threads s' = threads s -> attempt_inv s' -> session_inv s' ->
  (posted s' + beginning (poll s') = posted s + beginning (poll s))%nat -> submitted s' = submitted s -> dropped s' = dropped s ->
  (forall x, (cnt x (in_poll (poll s')) + cnt x (map fst (ended s')) = cnt x (in_poll (poll s)) + cnt x (map fst (ended s)))%nat) -> inv s'.
Proof.
  intros [I1 I2 I3 I4 I5 I6] Ec Et A S P Hs Hd Hc. split; unfold held_inv in *; rewrite ?Ec, ?Et, ?Hs, ?Hd; try done; [lia|].
  intros x. rewrite I6. specialize (Hc x). lia.
Qed.

Ltac cases :=
  unfold attempt_inv, session_inv, attempts in *;
  repeat match goal with
  | E : poll ?s = _, H : context [poll ?s] |- _ => rewrite E in H
  end; cbn in *.

Ltac settle s Ep :=
  first [done|intros; rewrite Ep; cbn; lia
        |destruct (bRetired (cn s)) eqn:?; [tauto|]; match goal with H : _ = (if bConnecting (cn s) then _ else _) /\ _ |- _ => destruct H as (? & ? & ?) end; split_and!; [destruct (bConnecting (cn s)); lia|done|done]
        |match goal with H : 1 <= next_sid s /\ _ |- _ => destruct H as (? & ? & ? & ?) end; split_and!; auto].

Lemma turn_inv a iResult s s' : inv s -> turn a iResult s = Some s' -> inv s'.
Proof.
  intros I. pose proof I as [I1 I2 I3 I4 I5 I6]. unfold turn. destruct (poll s) as [| | |bOk| |bSocket|sid|sid l|sid i l| |sid|] eqn:Ep; [done|..].
  - unfold begin. destruct (_ || _) eqn:Eb; intros [= <-]; cases.
    + split; cbn; try done; unfold attempt_inv, session_inv; cbn.
      * intros H1 H2. rewrite H2 in Eb. cbn in Eb. destruct (bConnecting (cn s)); [by left|]. cbn in Eb.
        destruct (Z.eqb_spec (iSessionId (cn s)) INVALID_SID) as [|Ei]; [done|]. destruct I3 as (_ & S2 & _). destruct (S2 Ei) as [_ ?]. congruence.
      * destruct (bPosted (cn s)); lia.
    + apply orb_false_iff in Eb as [Eb Eb3]. apply orb_false_iff in Eb as [Eb1 Eb2]. apply negb_false_iff, Z.eqb_eq in Eb3. rewrite Eb1, Eb2 in I2.
      split; cbn; try done; unfold attempt_inv, session_inv, attempts; cbn; rewrite ?Eb1.
      * split_and!; [lia|done|done].
      * by left.
      * destruct (bPosted (cn s)); lia.
  - destruct a; intros [= <-]; (apply (poll_inv s); cbn; try done; cases; settle s Ep).
  - intros [= <-]. destruct (negb bOk || bRetired (cn s)) eqn:Eb; (apply (poll_inv s); cbn; try done; cases; [|settle s Ep..]).
    + settle s Ep.
    + apply orb_false_iff in Eb as [_ Eb]. by rewrite Eb in *.
  - destruct a; intros [= <-]; (apply (poll_inv s); cbn; try done; cases; settle s Ep).
  - destruct (bSocket && yes a); intros [= <-]; (apply (poll_inv s); cbn; try done; cases; [settle s Ep| |settle s Ep..]); [|settle s Ep].
    destruct (bRetired (cn s)); [tauto|]. destruct I2 as (A1 & A2 & _). destruct I3 as (S1 & S2 & S3 & S4).
    assert (iSessionId (cn s) = INVALID_SID) as Ei by (apply A2; destruct (bConnecting (cn s)); [done|lia]). specialize (S3 Ei).
    rewrite S3, Ei. split_and!; [lia|done| |].
    + intros _. right. split; [unfold INVALID_SID; lia|done].
    + intros x ->%list_elem_of_singleton. lia.
  - unfold finish. intros [= <-]. cases. destruct I3 as (S1 & S2 & S3 & S4). split; cbn; try done; unfold attempt_inv, session_inv, attempts; cbn.
    + unfold held_inv. cbn. split_and!; [unfold lenZ; cbn; lia|done|lia].
    + destruct (bRetired (cn s)); [destruct I2 as (-> & ? & ? & ?); done|]. destruct I2 as (A1 & A2 & _).
      split_and!; [destruct (bConnecting (cn s)); lia|done|done].
    + assert (iSessionId (cn s) = INVALID_SID) as Ei.
      { destruct (bRetired (cn s)); [tauto|]. destruct I2 as (A1 & A2 & _). apply A2. destruct (bConnecting (cn s)); [done|lia]. }
      destruct (S3 Ei) as [[-> E]|[H E]]; rewrite E in *; split_and!; auto; done.
    + intros x. rewrite I6, cnt_nil. cbn. lia.
  - destruct l as [|h l]; [|destruct (sid =? INVALID_SID); [|destruct (yes a)]]; intros [= <-];
      (apply (poll_inv s); cbn; try done; cases; [settle s Ep..|]; rewrite ?Ep; intros x; cbn; rewrite ?map_app, ?cnt_app; cbn; rewrite ?cnt_one, ?cnt_nil; lia).
  - intros [= <-]. apply (poll_inv s); cbn; try done; cases; [settle s Ep..|]. rewrite ?Ep; intros x; cbn; rewrite ?map_app, ?cnt_app; cbn; rewrite ?cnt_one, ?cnt_nil; lia.
  - intros [= <-]. cases. destruct I3 as (S1 & S2 & S3 & S4). split; cbn; try done; unfold attempt_inv, session_inv; cbn; auto.
  - assert (bRetired (cn s) = true) as Er by (unfold attempt_inv in I2; destruct (bRetired (cn s)); [done|rewrite Ep in I2; tauto]).
    destruct (Z.eqb_spec sid INVALID_SID) as [->|Hs]; intros [= <-]; cases; rewrite Er in I2; destruct I2 as [A _], I3 as (S1 & S2 & S3 & S4).
    + assert (iSessionId (cn s) = INVALID_SID) as Ei by (destruct A; congruence).
      apply (poll_inv s); cbn; try done; [|by rewrite Ep|by rewrite Ep]. unfold attempt_inv. cbn. by rewrite Er.
    + assert ((if iSessionId (cn s) =? sid then INVALID_SID else iSessionId (cn s)) = INVALID_SID) as Ei.
      { destruct (Z.eqb_spec (iSessionId (cn s)) sid); [done|]. destruct A; [congruence|done]. }
      split; cbn; try done; unfold attempt_inv, session_inv; cbn; rewrite ?Ei, ?Er; [done|].
      split_and!; [done|done| |].
      * intros _. destruct A as [-> | A]; [|by rewrite (S3 A)]. destruct (S2 Hs) as [-> _]. cbn. by rewrite Z.eqb_refl.
      * intros x Hx%list_elem_of_In. apply filter_In in Hx as [Hx _]. apply S4. by apply list_elem_of_In.
  - unfold finish. assert (bRetired (cn s) = true) as Er by (unfold attempt_inv in I2; destruct (bRetired (cn s)); [done|rewrite Ep in I2; tauto]).
    intros [= <-]. cases. rewrite Er in I2. destruct I2 as (_ & Hc & Ei), I3 as (S1 & S2 & S3 & S4).
    split; cbn; try done; unfold attempt_inv, session_inv; cbn; rewrite ?Er; [unfold held_inv, lenZ; cbn; split_and!; [lia|done|lia]|done| |intros x; rewrite I6, cnt_nil; cbn; lia].
    split_and!; [done|done|auto|done].
Qed.

Ltac idles s Hi := unfold idle in Hi; destruct (poll s) eqn:Ep; try discriminate Hi.

Lemma ended_by_poll s s' : inv s -> poll s = Idle -> cn s' = cn s -> threads s' = threads s -> sessions s' = sessions s -> next_sid s' = next_sid s ->
  submitted s' = submitted s -> dropped s' = dropped s -> ended s' = ended s -> (posted s' + beginning (poll s') = posted s)%nat ->
  in_poll (poll s') = [] -> match poll s' with Finish _ => False | _ => True end -> attempt_inv s' -> inv s'.
Proof.
  intros I Ep Ec Et Es En Eu Ed Ee P Hin Hf A. apply (poll_inv s); try done; [|rewrite Ep; cbn; lia|intros x; by rewrite Hin, Ee, Ep].
  destruct I as [_ _ (S1 & S2 & S3 & S4) _ _ _]. unfold session_inv. rewrite Ec, Es, En. rewrite Ep in S3. split_and!; auto. intros Ei. specialize (S3 Ei). destruct (poll s'); done.
Qed.

(** An open session whose number is known is the connection's. *)
Lemma closable_current sid s : inv s -> closable sid s = true -> iSessionId (cn s) = sid /\ sid <> INVALID_SID.
Proof.
  intros [_ _ (S1 & S2 & S3 & S4) _ _ _] [H1 H2]%andb_true_iff. apply existsb_exists in H1 as (x & Hx & ->%Z.eqb_eq). apply list_elem_of_In in Hx.
  assert (x <> INVALID_SID) as Hn by (destruct (S4 x Hx); unfold INVALID_SID; lia). split; [|done].
  destruct (Z.eq_dec (iSessionId (cn s)) INVALID_SID) as [Ei|Ei].
  - specialize (S3 Ei). destruct (poll s); try (rewrite S3 in Hx; by apply elem_of_nil in Hx). destruct S3 as [[_ E]|[_ E]]; rewrite E in Hx.
    + by apply elem_of_nil in Hx.
    + apply list_elem_of_singleton in Hx. subst. by rewrite Z.eqb_refl in H2.
  - destruct (S2 Ei) as [E _]. rewrite E in Hx. by apply list_elem_of_singleton in Hx.
Qed.

Lemma conn_event_inv e s s' : inv s -> do_event e s = Some s' -> inv s'.
Proof.
  intros I. pose proof I as [I1 I2 I3 I4 I5 I6]. destruct e as [i l| |k a iResult|i|a iResult| |bOk|bOk|sid|]; cbn.
  - destruct (existsb _ _); [done|]. intros [= <-]. split; cbn; try done.
    + intros H1 H2. rewrite sums_app. cbn. destruct (I4 H1 H2) as [|[|]]; [auto..|right; right; lia].
    + rewrite sums_app. cbn. lia.
    + intros x. rewrite sums_app, cnt_app, I6, cnt_one, cnt_nil. cbn. lia.
  - intros [= <-]. split; cbn; try done.
    + intros H1 H2. rewrite sums_app. cbn. destruct (I4 H1 H2) as [|[|]]; [auto..|right; right; lia].
    + rewrite sums_app. cbn. lia.
    + intros x. rewrite sums_app, I6. cbn. lia.
  - destruct (threads s !! k) as [[|t ts]|] eqn:E; [done| |done]. destruct (exec a iResult t s) as [s1 new] eqn:E1. intros [= <-]. by apply (exec_inv s k a iResult t).
  - destruct (find_held i (vHeld (cn s))) as [h|] eqn:E; [|by intros [= <-]]. intros [= <-]. destruct (erase_spec _ _ _ E) as (<- & H2 & H3 & H4).
    unfold drop. rewrite E. destruct I1 as (B1 & B2 & B3). pose proof (held_bytes_nonneg (erase_held (h_iCallId h) (vHeld (cn s)))). pose proof (held_bytes_nonneg (vHeld (cn s))).
    assert (vHeld (cn s) <> []) as Hne by (intros E'; rewrite E' in E; done).
    split; cbn; try done.
    + unfold held_inv. cbn. assert (0 <= lenZ (stData h)) by (unfold lenZ; lia). rewrite u64_small; lia.
    + unfold attempt_inv in *. cbn. destruct (bRetired (cn s)); [|done]. destruct I2 as [A1 A2]. split; [done|]. destruct (poll s); try done; destruct A2 as (? & ? & ?); done.
    + unfold session_inv in *. cbn. destruct I3 as (S1 & S2 & S3 & S4). split_and!; auto. intros Hi. by destruct (S2 Hi).
    + intros _ H5. by apply I4.
    + intros x. specialize (I6 x). rewrite H4 in I6. rewrite cnt_app, cnt_one, cnt_nil. lia.
  - apply turn_inv. done.
  - destruct (posted s) as [|n] eqn:En; [done|]. destruct (idle s) eqn:Hi; [|done]. idles s Hi. intros [= <-].
    apply (ended_by_poll s); cbn; try (done || lia). cases. destruct (bRetired (cn s)); [tauto|]. done.
  - destruct (resolving s) as [|n] eqn:En; [done|]. destruct (idle s) eqn:Hi; [|done]. idles s Hi. intros [= <-].
    apply (ended_by_poll s); cbn; try (done || lia). cases. destruct (bRetired (cn s)); [tauto|]. destruct I2 as (A1 & A2 & A3). split_and!; [lia|done|done].
  - destruct (connector s) eqn:Ek; [|done]. destruct (idle s) eqn:Hi; [|done]. idles s Hi. intros [= <-].
    apply (ended_by_poll s); cbn; try (done || lia). cases. destruct (bRetired (cn s)); [intuition congruence|]. rewrite Ek in I2. destruct I2 as (A1 & A2 & A3). split_and!; [lia|done|done].
  - destruct (closable sid s) eqn:Ec; [|done]. intros [= <-]. destruct (closable_current _ _ I Ec) as [<- Hn]. destruct I3 as (S1 & S2 & S3 & S4). destruct (S2 Hn) as [E Eh].
    split; cbn; unfold attempt_inv, session_inv; cbn; rewrite ?Z.eqb_refl, ?Eh in *; try done.
    + unfold attempt_inv in I2. rewrite Eh in I2. destruct (bRetired (cn s)); [|destruct I2 as (A1 & A2 & A3); done].
      destruct I2 as [A1 A2]. split; [|destruct (poll s); tauto]. destruct (poll s); tauto.
    + rewrite E. cbn. rewrite Z.eqb_refl. split_and!; [done|done| |intros x Hx; by apply elem_of_nil in Hx].
      intros _. destruct (poll s) eqn:Ep; try done. exfalso. cases. destruct (bRetired (cn s)); [tauto|]. destruct I2 as (A1 & A2 & _). destruct (bConnecting (cn s)); [tauto|lia].
  - destruct (idle s) eqn:Hi; [|done]. idles s Hi. intros [= <-].
    apply (ended_by_poll s); cbn; try (done || lia). cases. destruct (bRetired (cn s)); [tauto|]. done.
Qed.

Lemma initial_inv : inv start.
Proof.
  split; unfold attempt_inv, session_inv, held_inv, attempts; cbn; try done.
  - unfold lenZ. cbn. lia.
  - split_and!; try done. intros x Hx. by apply elem_of_nil in Hx.
Qed.

Lemma history_inv es s s' : inv s -> run es s = Some s' -> inv s'.
Proof. revert s. induction es as [|e es IH]; intros s I; cbn; [by intros [= <-]|]. destruct (do_event e s) as [s1|] eqn:E; [|done]. apply IH. by apply (conn_event_inv e s). Qed.

Lemma sums_idle f tss : Forall (eq []) tss -> sums f tss = 0%nat.
Proof. induction 1 as [|ts tss <- _ IH]; cbn; [done|]. lia. Qed.

(** ** Held calls are not forgotten *)

(** C24: once no thread and no step of the poll thread is under way, calls that
    are still held back have an attempt to connect under way or posted (the end of which
    empties the list), and no session; a retired connection holds no calls and has no
    session and no connector. *)
Theorem held_calls_attempted es s : run es start = Some s -> Forall (eq []) (threads s) -> poll s = Idle ->
  (vHeld (cn s) <> [] -> bRetired (cn s) = false /\ sessions s = [] /\ (1 <= posted s + attempts s)%nat) /\
  (bRetired (cn s) = true -> vHeld (cn s) = [] /\ sessions s = [] /\ iSessionId (cn s) = INVALID_SID /\ connector s = false).
Proof.
  intros R Ht Ep. apply (history_inv es) in R as [I1 I2 (S1 & S2 & S3 & S4) I4 I5 I6]; [|apply initial_inv].
  unfold attempt_inv in I2. rewrite Ep in *. rewrite (sums_idle is_ensure _ Ht) in I4. rewrite (sums_idle is_post _ Ht) in I5. cbn in I5. split.
  - intros Hne. destruct (bRetired (cn s)); [tauto|]. split; [done|]. destruct I2 as (A1 & A2 & _). split.
    + apply S3. destruct (Z.eq_dec (iSessionId (cn s)) INVALID_SID) as [|Hi]; [done|]. by destruct (S2 Hi).
    + destruct (I4 Hne eq_refl) as [E|[E|H]]; [rewrite E in A1; lia|rewrite E in I5; lia|lia].
  - intros Er. rewrite Er in I2. destruct I2 as (_ & Hc & Hi & Hh). auto.
Qed.

(** ** Every call ends once *)

Lemma submitted_exec a iResult t s : submitted (fst (exec a iResult t s)) = submitted s.
Proof.
  destruct t; cbn; try done; [|by destruct (_ =? _)|by destruct (ensure _)].
  destruct (submit i l (yes a) (cn s)) as [[c ts] e]. by destruct e.
Qed.

Lemma submitted_turn a iResult s s' : turn a iResult s = Some s' -> submitted s' = submitted s.
Proof.
  unfold turn. destruct (poll s) as [| | |bOk| |bSocket|sid|sid l|sid i l| |sid|]; cbn; try done; try (by intros [= <-]).
  - unfold begin. destruct (_ || _); by intros [= <-].
  - destruct a; by intros [= <-].
  - destruct a; by intros [= <-].
  - destruct (_ && _); by intros [= <-].
  - destruct l as [|h l]; [by intros [= <-]|]. destruct (sid =? INVALID_SID); [by intros [= <-]|]. destruct (yes a); by intros [= <-].
  - destruct (sid =? INVALID_SID); by intros [= <-].
Qed.

Lemma submitted_once es s s' : NoDup (submitted s) -> run es s = Some s' -> NoDup (submitted s').
Proof.
  revert s. induction es as [|e es IH]; intros s N; cbn; [by intros [= <-]|]. destruct (do_event e s) as [s1|] eqn:E; [|done]. apply IH.
  destruct e as [i l| |k a iResult|i|a iResult| |bOk|bOk|sid|]; cbn in E.
  - destruct (existsb (Z.eqb i) (submitted s)) eqn:Ei; [done|]. injection E as <-. cbn. apply NoDup_app. split_and!; [done| |apply NoDup_singleton].
    intros x Hx ->%list_elem_of_singleton. apply not_true_iff_false in Ei. apply Ei. apply existsb_exists. exists i. split; [by apply list_elem_of_In|apply Z.eqb_refl].
  - by injection E as <-.
  - destruct (threads s !! k) as [[|t ts]|]; try done. pose proof (submitted_exec a iResult t s) as H. destruct (exec a iResult t s) as [s2 new]. injection E as <-. cbn in *. by rewrite H.
  - destruct (find_held i (vHeld (cn s))); by injection E as <-.
  - by rewrite (submitted_turn _ _ _ _ E).
  - destruct (posted s); [done|]. destruct (idle s); [by injection E as <-|done].
  - destruct (resolving s); [done|]. destruct (idle s); [by injection E as <-|done].
  - destruct (_ && _); [by injection E as <-|done].
  - destruct (closable sid s); [by injection E as <-|done].
  - destruct (idle s); [by injection E as <-|done].
Qed.

(** No call is ended and dropped more than once altogether, none that was not
    submitted is, and when no thread and no step is under way and nothing is held, every
    submitted call has been. *)
Theorem calls_end_once es s x : run es start = Some s ->
  (cnt x (map fst (ended s)) + cnt x (dropped s) <= (if decide (x ∈ submitted s) then 1 else 0))%nat /\
  (Forall (eq []) (threads s) -> poll s = Idle -> vHeld (cn s) = [] -> x ∈ submitted s -> (cnt x (map fst (ended s)) + cnt x (dropped s))%nat = 1%nat).
Proof.
  intros R. assert (NoDup (submitted s)) as N by (eapply (submitted_once es start); [apply NoDup_nil_2|done]).
  apply (history_inv es) in R as [_ _ _ _ _ I6]; [|apply initial_inv]. specialize (I6 x). pose proof (cnt_NoDup x _ N) as H1. pose proof (cnt_pos x (submitted s)) as H2. split.
  - destruct (decide (x ∈ submitted s)) as [|Hn]; [lia|]. destruct (decide (0 < cnt x (submitted s))%nat) as [H|]; [|lia]. by apply H2 in H.
  - intros Ht Ep Eh Hx%H2. rewrite (sums_idle _ _ Ht), Ep, Eh in I6. cbn in I6. rewrite cnt_nil in I6. lia.
Qed.

(** ** One session, one attempt, bounded *)

(** A connection has at most one open session and, until it is retired, at most one
    attempt to connect, none while its session's number is known; it holds at most the
    configured number of calls, and their counted size is exact and within the
    configured bytes. *)
Theorem one_session_bounded es s : run es start = Some s ->
  (length (sessions s) <= 1)%nat /\
  (bRetired (cn s) = false -> (attempts s <= 1)%nat /\ (iSessionId (cn s) <> INVALID_SID -> attempts s = 0%nat)) /\
  lenZ (vHeld (cn s)) <= Z.max 0 (iHeldCount lim) /\ iHeldBytes (cn s) = bytes (vHeld (cn s)) /\ bytes (vHeld (cn s)) <= iMaxHeldBytes lim.
Proof.
  intros R. apply (history_inv es) in R as [I1 I2 (S1 & S2 & S3 & S4) _ _ _]; [|apply initial_inv]. split_and!; try apply I1.
  - destruct (Z.eq_dec (iSessionId (cn s)) INVALID_SID) as [Hi|Hi]; [|destruct (S2 Hi) as [-> _]; done]. specialize (S3 Hi).
    destruct (poll s); try (rewrite S3; cbn; lia). destruct S3 as [[_ ->]|[_ ->]]; cbn; lia.
  - unfold attempt_inv in I2. intros Er. rewrite Er in I2. destruct I2 as (A1 & A2 & _). destruct (bConnecting (cn s)); (split; [lia|]); [|done]. intros Hi. by specialize (A2 eq_refl).
Qed.

(** ** The poll thread gets through *)

Definition work (s : state) : nat :=
  let n := length (vHeld (cn s)) in
  match poll s with
  | Idle => 0
  | Begin => 2 * n + 7
  | Resolve => 2 * n + 6
  | OnResolved _ => 2 * n + 5
  | Connect => 2 * n + 4
  | Connected _ => 2 * n + 3
  | Finish _ | FinishRetired => 2 * n + 2
  | Flush _ l => 2 * length l + 1
  | Send _ _ l => 2 * length l + 2
  | Retire => 2 * n + 4
  | Closing _ => 2 * n + 3
  end.

Lemma turn_works a iResult s : match turn a iResult s with Some s' => (work s' < work s)%nat | None => poll s = Idle end.
Proof.
  unfold turn, work. destruct (poll s) as [| | |bOk| |bSocket|sid|sid l|sid i l| |sid|] eqn:Ep; cbn; try done; try lia.
  - unfold begin. destruct (_ || _); cbn; lia.
  - destruct a; cbn; lia.
  - destruct (_ || _); cbn; lia.
  - destruct a; cbn; lia.
  - destruct (_ && _); cbn; lia.
  - destruct l as [|h l]; cbn; [lia|]. destruct (sid =? INVALID_SID); [cbn; lia|]. destruct (yes a); cbn; lia.
  - destruct (sid =? INVALID_SID); cbn; lia.
Qed.

(** The first [n] turns of an endless sequence of answers. *)
Definition turns (f : nat -> answer * Z) (n : nat) : list event := map (fun k => Turn (fst (f k)) (snd (f k))) (seq 0 n).

(** Whatever the network, the tables of calls and resolution answer, the poll thread
    is through with what it does after finitely many turns, at most two for each call
    that is held or being sent and seven more. *)
Theorem poll_thread_returns f s : exists n s', (n <= work s)%nat /\ run (turns f n) s = Some s' /\ poll s' = Idle.
Proof.
  enough (forall w f s, (work s <= w)%nat -> exists n s', (n <= w)%nat /\ run (turns f n) s = Some s' /\ poll s' = Idle) as H by (apply H; lia).
  clear f s. induction w as [|w IH]; intros f s Hw; pose proof (turn_works (fst (f 0%nat)) (snd (f 0%nat)) s) as Ht; destruct (turn _ _ s) as [s1|] eqn:E;
    [lia|exists 0%nat, s; done| |exists 0%nat, s; split_and!; [lia|done|done]].
  destruct (IH (fun k => f (S k)) s1) as (n & s' & Hn & R & Ep); [lia|]. exists (S n), s'. split_and!; [lia| |done].
  unfold turns. cbn [seq map run do_event]. rewrite E. by rewrite <- seq_shift, map_map.
Qed.

End Limits.

(** ** Examples *)

Definition small : limits := mkLimits 2 100.

(** A call is held and posts a Begin; the names are resolved, the socket connects, the
    call is sent; the connection is retired. *)
Definition held_up : list event := [Call 8 [Byte.x01]; Thread 0 Yes OI_OK; Thread 0 Yes OI_OK; Thread 0 Yes OI_OK].
Definition set_up : list event :=
  [RunBegin; Turn Yes OI_OK; Turn Later OI_OK; Resolved true; Turn Yes OI_OK; Turn Later OI_OK; Connectable true;
   Turn Yes OI_OK; Turn Yes OI_OK; Turn Yes OI_OK; Turn Yes OI_OK; Turn Yes OI_OK].
Definition torn_down : list event := [RetireNow; Turn Yes OI_OK; Turn Yes OI_OK; Turn Yes OI_OK; Turn Yes OI_OK].

Definition after (es : list event) : state := match run small es start with Some s => s | None => start end.

Example call_is_sent : ended (after (held_up ++ set_up)) = [(8, Sent 1)].
Proof. reflexivity. Qed.

Example call_is_woken : ended (after (held_up ++ torn_down)) = [(8, Woken OI_ERR_CONNECT)].
Proof. reflexivity. Qed.

Lemma held_calls_attempted_witness : vHeld (cn (after held_up)) <> [] /\ bRetired (cn (after held_up)) = false /\ sessions (after held_up) = [] /\
  (1 <= posted (after held_up) + attempts (after held_up))%nat.
Proof.
  split; [done|]. apply (held_calls_attempted small ltac:(cbn; lia) held_up (after held_up)); [reflexivity|vm_compute; repeat constructor|reflexivity|done].
Defined.

Lemma calls_end_once_witness : (cnt 8 (map fst (ended (after (held_up ++ set_up)))) + cnt 8 (dropped (after (held_up ++ set_up))))%nat = 1%nat.
Proof.
  refine (proj2 (calls_end_once small _ (held_up ++ set_up) (after (held_up ++ set_up)) 8 _) _ _ _ _); [cbn; lia|vm_compute; reflexivity|vm_compute; repeat constructor|reflexivity|reflexivity|vm_compute; by apply list_elem_of_singleton].
Defined.

Lemma one_session_bounded_witness : sessions (after (held_up ++ set_up)) = [1] /\ attempts (after (held_up ++ set_up)) = 0%nat.
Proof.
  split; [reflexivity|]. apply (one_session_bounded small ltac:(cbn; lia) (held_up ++ set_up) (after (held_up ++ set_up))); [vm_compute; reflexivity|reflexivity|done].
Defined.

End RouteConn.
