(* ===== verification/RoutePool.v ===== *)
(** * The pool of connections of the call router

    RoutePool, ClientFor, SweepRoutePool, StopRoutePool, ArmRoutePool and the leases
    (RouteConnection::AcquireLease, HasLease; proto/src/oi_rpc_route.cpp): one connection
    (RouteConn.v) for each address and policy, leased to those who call over it or are
    served on it, retired when it has had no lease for some time.

    A step is one section under the pool's lock, except that SweepRoutePool, which keeps
    the lock over its loop, is a step for each entry: leases are given back at any time,
    while nobody else can enter the pool.  The shared pointers to a lease are counted;
    the weak pointer of the connection is expired when there is none. *)

From S2P Require Import Prelude.

Module RoutePool.

(** ** State *)

(** What RoutePolicy asks of a manager; [PendingCallLimits] is a ProtoClientManager's. *)
Record manager : Type := mkManager {
  MaxSendQueueBytes : Z;
  MaxReceiveBufferBytes : Z;
  MaxFrameBytes : Z;
  IncompleteFrameTimeoutMilliseconds : Z;
  PendingCallLimits : option (Z * Z)
}.

(** RoutePolicy: iSendBytes, iReceiveBytes, iFrameBytes, iIncompleteMilliseconds,
    iHeldCount, iHeldBytes; compared component by component. *)
Definition policy : Type := Z * Z * Z * Z * Z * Z.
Definition MiB : Z := 1024 * 1024.
Definition RoutePolicy (pManager : option manager) : policy :=
  match pManager with
  | None => (64 * MiB, 64 * MiB + 8, 64 * MiB, 10000, 65536, 64 * MiB)
  | Some m =>
      let (iHeldCount, iHeldBytes) := match PendingCallLimits m with Some l => l | None => (65536, 64 * MiB) end in
      (MaxSendQueueBytes m, MaxReceiveBufferBytes m, MaxFrameBytes m, IncompleteFrameTimeoutMilliseconds m, iHeldCount, iHeldBytes)
  end.

(** The key of mClients: address, port and policy. *)
Definition key : Type := list byte * list byte * policy.

(** RoutePool::Entry; connections are numbers. *)
Record Entry : Type := mkEntry { pClient : Z; iIdleSinceMilliseconds : Z }.

(** What the poll thread is doing with the pool. *)
Inductive loop : Type :=
| Idle
| Sweeping (bStop : bool) (iNow : Z) (todo : list key) (vRetired : list Z)   (* under the lock *)
| Retiring (vRetired : list Z).                                             (* the loop of Retire *)

(** [posted]: ArmRoutePool is posted; [timer]: stTimer runs; [refused]: AddStopHandler
    has refused; [stop_requested]: ThreadPool::StopRequested; [leases]: the shared
    pointers to a connection's lease; [retired]: the connections Retire was called on;
    [next]: the next connection's number; [now]: SteadyMilliseconds; [used]: when
    ClientFor last gave out a connection. *)
Record state : Type := mkState {
  mClients : gmap key Entry;
  iEvicted : Z;
  bStopped : bool;
  stArmOnce : bool;
  posted : bool;
  timer : bool;
  refused : bool;
  stop_requested : bool;
  leases : gmap Z nat;
  retired : list Z;
  next : Z;
  poll : loop;
  now : Z;
  used : gmap Z Z
}.

Definition held (i : Z) (s : state) : nat := ofn id (leases s !! i).
Definition last_use (i : Z) (s : state) : Z := match used s !! i with Some t => t | None => 0 end.

Definition set_pool (m : gmap key Entry) (s : state) : state :=
  mkState m (iEvicted s) (bStopped s) (stArmOnce s) (posted s) (timer s) (refused s) (stop_requested s) (leases s) (retired s) (next s) (poll s) (now s) (used s).
Definition set_poll (p : loop) (s : state) : state :=
  mkState (mClients s) (iEvicted s) (bStopped s) (stArmOnce s) (posted s) (timer s) (refused s) (stop_requested s) (leases s) (retired s) (next s) p (now s) (used s).
Definition set_leases (i : Z) (n : nat) (s : state) : state :=
  mkState (mClients s) (iEvicted s) (bStopped s) (stArmOnce s) (posted s) (timer s) (refused s) (stop_requested s) (<[i := n]> (leases s)) (retired s) (next s) (poll s) (now s) (used s).
Definition set_arm (b p t r : bool) (s : state) : state :=
  mkState (mClients s) (iEvicted s) (bStopped s) b p t r (stop_requested s) (leases s) (retired s) (next s) (poll s) (now s) (used s).

Definition start (t : Z) (bRequested : bool) : state := mkState ∅ 0 false false false false false bRequested ∅ [] 1 Idle t ∅.

Section Limits.
Context (iMaxClients iIdleMilliseconds : Z).

(** ** Operations *)

(** RouteConnection::AcquireLease: a new owner or another pointer to the present one. *)
Definition AcquireLease (i : Z) (s : state) : state := set_leases i (S (held i s)) s.
Definition HasLease (i : Z) (s : state) : bool := (0 <? held i s)%nat.

Arguments HasLease : simpl never.

(** ClientFor under the lock, with the connection it gives out. *)
Definition ClientFor (k : key) (s : state) : state * option Z :=
  if bStopped s || stop_requested s then (s, None)
  else
    match mClients s !! k with
    | None =>
        if iMaxClients <=? Z.of_nat (size (mClients s)) then (s, None)
        else
          let i := next s in
          let s := AcquireLease i s in
          (mkState (<[k := mkEntry i 0]> (mClients s)) (iEvicted s) (bStopped s) (stArmOnce s) (posted s) (timer s) (refused s)
             (stop_requested s) (leases s) (retired s) (i + 1) (poll s) (now s) (<[i := now s]> (used s)), Some i)
    | Some e =>
        let i := pClient e in
        let s := AcquireLease i s in
        (mkState (<[k := mkEntry i 0]> (mClients s)) (iEvicted s) (bStopped s) (stArmOnce s) (posted s) (timer s) (refused s)
           (stop_requested s) (leases s) (retired s) (next s) (poll s) (now s) (<[i := now s]> (used s)), Some i)
    end.

(** SweepRoutePool takes the lock. *)
Definition SweepRoutePool (bStop : bool) (s : state) : state :=
  mkState (mClients s) (iEvicted s) (bStop || bStopped s) (stArmOnce s) (posted s) (timer s) (refused s) (stop_requested s) (leases s)
    (retired s) (next s) (Sweeping bStop (now s) (fst <$> map_to_list (mClients s)) []) (now s) (used s).

(** ... looks at one entry ... *)
Definition sweep_entry (bStop : bool) (iNow : Z) (k : key) (todo : list key) (vRetired : list Z) (s : state) : state :=
  match mClients s !! k with
  | None => set_poll (Sweeping bStop iNow todo vRetired) s
  | Some e =>
      let i := pClient e in
      if negb bStop && HasLease i s then
        set_poll (Sweeping bStop iNow todo vRetired) (set_pool (<[k := mkEntry i 0]> (mClients s)) s)
      else
        let e := if iIdleSinceMilliseconds e =? 0 then mkEntry i iNow else e in
        if negb bStop && (iNow - iIdleSinceMilliseconds e <? iIdleMilliseconds) then
          set_poll (Sweeping bStop iNow todo vRetired) (set_pool (<[k := e]> (mClients s)) s)
        else
          mkState (delete k (mClients s)) (u64 (iEvicted s + 1)) (bStopped s) (stArmOnce s) (posted s) (timer s) (refused s) (stop_requested s) (leases s)
            (retired s) (next s) (Sweeping bStop iNow todo (vRetired ++ [i])) (now s) (used s)
  end.

(** ... and retires a connection. *)
Definition retire (i : Z) (l : list Z) (s : state) : state :=
  mkState (mClients s) (iEvicted s) (bStopped s) (stArmOnce s) (posted s) (timer s) (refused s) (stop_requested s) (leases s)
    (retired s ++ [i]) (next s) (Retiring l) (now s) (used s).

Definition turn (s : state) : option state :=
  match poll s with
  | Idle => None
  | Sweeping bStop iNow (k :: todo) l => Some (sweep_entry bStop iNow k todo l s)
  | Sweeping _ _ [] l => Some (set_poll (Retiring l) s)
  | Retiring (i :: l) => Some (retire i l s)
  | Retiring [] => Some (set_poll Idle s)
  end.

Definition StopRoutePool (s : state) : state :=
  SweepRoutePool true (set_arm (stArmOnce s) (posted s) false (refused s) s).

(** ArmRoutePool; [bTimer]: whether the timer can be set up. *)
Definition ArmRoutePool (bTimer : bool) (s : state) : state :=
  if stop_requested s || negb bTimer then StopRoutePool s else set_arm (stArmOnce s) (posted s) true (refused s) s.

(** ** Steps *)

Inductive event : Type :=
| ArmOnce (bAdded : bool)      (* the once_flag of ClientFor; what AddStopHandler answers *)
| Get (k : key)                (* ClientFor under the lock *)
| Copy (i : Z)                 (* somebody copies a lease he has *)
| Release (i : Z)              (* ... or gives it back *)
| HoldTask (i : Z)             (* RouteSession::HoldTask, on the poll thread *)
| RequestStop                  (* the thread pool's *)
| StopHandler                  (* StopRoutePool as a stop handler *)
| Arm (bTimer : bool)          (* the posted ArmRoutePool *)
| Timer                        (* the timer's callback *)
| Turn                         (* the sweep goes on *)
| Tick (n : Z).                (* time passes *)

Definition idle (s : state) : bool := match poll s with Idle => true | _ => false end.
Definition locked (s : state) : bool := match poll s with Sweeping _ _ _ _ => true | _ => false end.

Definition do_event (e : event) (s : state) : option state :=
  match e with
  | ArmOnce bAdded =>
      if stArmOnce s then None
      else if bAdded then Some (set_arm true true (timer s) false s)
      else if stop_requested s then Some (set_arm true false (timer s) true s)    (* the only reason to refuse *)
      else None
  | Get k => if locked s || negb (stArmOnce s) then None else Some (fst (ClientFor k s))
  | Copy i => if HasLease i s then Some (AcquireLease i s) else None
  | Release i => match held i s with S n => Some (set_leases i n s) | O => None end
  | HoldTask i =>    (* a connection that has a session: it has not been retired *)
      if idle s && (1 <=? i) && (i <? next s) && negb (existsb (Z.eqb i) (retired s)) then Some (AcquireLease i s) else None
  | RequestStop => Some (mkState (mClients s) (iEvicted s) (bStopped s) (stArmOnce s) (posted s) (timer s) (refused s) true (leases s) (retired s) (next s) (poll s) (now s) (used s))
  | StopHandler => if idle s && stop_requested s && stArmOnce s && negb (refused s) then Some (StopRoutePool s) else None
  | Arm bTimer => if idle s && posted s then Some (ArmRoutePool bTimer (set_arm (stArmOnce s) false (timer s) (refused s) s)) else None
  | Timer => if idle s && timer s then Some (SweepRoutePool false s) else None
  | Turn => turn s
  | Tick n => if 0 <=? n then Some (mkState (mClients s) (iEvicted s) (bStopped s) (stArmOnce s) (posted s) (timer s) (refused s) (stop_requested s) (leases s) (retired s) (next s) (poll s) (now s + n) (used s)) else None
  end.

Fixpoint run (es : list event) (s : state) : option state :=
  match es with
  | [] => Some s
  | e :: es => match do_event e s with Some s => run es s | None => None end
  end.

(** ** Invariant *)

Definition in_poll (p : loop) : list Z := match p with Idle => [] | Sweeping _ _ _ l | Retiring l => l end.
Definition in_pool (s : state) (i : Z) : nat := msum (fun e => one (pClient e) i) (mClients s).

(** Where each connection is: in the pool, on its way to Retire, or retired. *)
Definition places (s : state) (i : Z) : nat := in_pool s i + cnt i (in_poll (poll s)) + cnt i (retired s).

Definition entry_inv (s : state) (e : Entry) : Prop :=
  let t := match poll s with Sweeping _ iNow _ _ => iNow | _ => now s end in
  last_use (pClient e) s <= t /\ (iIdleSinceMilliseconds e = 0 \/ last_use (pClient e) s <= iIdleSinceMilliseconds e <= t).

Record inv (s : state) : Prop := mkInv {
  v_size : Z.of_nat (size (mClients s)) <= Z.max 0 iMaxClients;
  v_next : 1 <= next s;
  v_place : forall i, places s i = if decide (1 <= i < next s) then 1%nat else 0%nat;
  v_lease : forall i, (0 < held i s)%nat -> bStopped s = false -> (0 < in_pool s i)%nat;
  v_entry : forall k e, mClients s !! k = Some e -> entry_inv s e;
  v_now : match poll s with Sweeping _ iNow _ _ => iNow <= now s | _ => True end;
  v_stop : bStopped s = true -> mClients s = ∅ \/ exists iNow todo l, poll s = Sweeping true iNow todo l /\ forall k, is_Some (mClients s !! k) -> k ∈ todo;
  v_flag : match poll s with Sweeping true _ _ _ => bStopped s = true | _ => True end;
  v_evicted : iEvicted s = u64 (lenZ (in_poll (poll s)) + lenZ (retired s));
  v_once : stArmOnce s = false -> mClients s = ∅;
  v_armed : stArmOnce s = true -> (stop_requested s = true /\ mClients s = ∅) \/ bStopped s = true \/ posted s = true \/ timer s = true
}.

Lemma held_lease i n j s : held j (set_leases i n s) = if Z.eq_dec i j then n else held j s.
Proof.
  unfold held. cbn. destruct (Z.eq_dec i j) as [->|Hn]; [by rewrite lookup_insert_eq|by rewrite lookup_insert_ne].
Qed.

(** Steps that change neither the pool nor what the poll thread does with it. *)
Lemma frame_inv s s' : inv s -> mClients s' = mClients s -> bStopped s' = bStopped s -> retired s' = retired s -> next s' = next s ->
  iEvicted s' = iEvicted s -> used s' = used s -> poll s' = poll s -> now s <= now s' ->
  (forall i, (0 < held i s')%nat -> bStopped s = false -> (0 < held i s)%nat \/ (0 < in_pool s i)%nat) ->
  (stArmOnce s' = false -> stArmOnce s = false) ->
  (stArmOnce s' = true -> (stop_requested s' = true /\ mClients s = ∅) \/ bStopped s = true \/ posted s' = true \/ timer s' = true) -> inv s'.
Proof.
  intros [V1 V2 V3 V4 V5 V6 V7 Vf V8 V9 V10] Em Eb Er En Ev Eu Ep Ht Hl Ho Ha. split; unfold places, in_pool, entry_inv, last_use in *; rewrite ?Em, ?Eb, ?Er, ?En, ?Ev, ?Eu, ?Ep; try done.
  - intros i H1 H2. destruct (Hl i H1 H2) as [H|H]; [by apply V4|done].
  - intros k e E. specialize (V5 k e E). destruct (poll s); lia.
  - destruct (poll s); lia.
  - auto.
Qed.

(** A connection is in one entry only. *)
Lemma entry_unique s k k' e e' : inv s -> mClients s !! k = Some e -> mClients s !! k' = Some e' -> pClient e = pClient e' -> k = k'.
Proof.
  intros I E E' Hp. destruct (decide (k = k')) as [|Hn]; [done|exfalso]. pose proof (v_place s I (pClient e)) as V. unfold places, in_pool in V.
  rewrite (msum_split _ _ k e E), (msum_split _ (delete k (mClients s)) k' e') in V by by rewrite lookup_delete_ne. rewrite <- Hp, !one_same in V. destruct (decide _); lia.
Qed.

Lemma in_pool_intro s k e : mClients s !! k = Some e -> (0 < in_pool s (pClient e))%nat.
Proof. intros E. unfold in_pool. pose proof (msum_ge (fun e' => one (pClient e') (pClient e)) _ _ _ E) as H. cbn in H. rewrite one_same in H. lia. Qed.

(** ClientFor. *)
Lemma get_inv k s : inv s -> locked s = false -> stArmOnce s = true -> inv (fst (ClientFor k s)).
Proof.
  intros I Hk Ho. pose proof I as [V1 V2 V3 V4 V5 V6 V7 Vf V8 V9 V10]. unfold ClientFor. destruct (bStopped s || stop_requested s) eqn:Eb; [done|]. apply orb_false_iff in Eb as [Eb Er].
  destruct (mClients s !! k) as [e|] eqn:E.
  - cbn [fst]. split; cbn -[held]; try done.
    + rewrite map_size_insert_Some by eauto. done.
    + intros i. rewrite <- V3. unfold places, in_pool. cbn. pose proof (msum_upd (fun e => one (pClient e) i) _ k e (mkEntry (pClient e) 0) E) as H. cbn in H. lia.
    + intros i Hi _. unfold in_pool. cbn. pose proof (msum_upd (fun e => one (pClient e) i) _ k e (mkEntry (pClient e) 0) E) as H. cbn in H.
      assert (0 < in_pool s i)%nat; [|unfold in_pool in *; lia]. revert Hi. unfold held. cbn. intros Hi.
      destruct (Z.eq_dec (pClient e) i) as [<-|Hn]; [by apply (in_pool_intro s k)|]. rewrite lookup_insert_ne in Hi by done. by apply V4.
    + intros k' e' E'. unfold entry_inv, last_use. cbn. unfold locked in Hk. destruct (decide (k = k')) as [<-|Hn].
      * rewrite lookup_insert_eq in E'. injection E' as <-. cbn. rewrite lookup_insert_eq. destruct (poll s); try done; lia.
      * rewrite lookup_insert_ne in E' by done. rewrite lookup_insert_ne by (intros Hp; apply Hn; by apply (entry_unique s k k' e e')). by apply V5 in E'.
    + rewrite Eb. done.
    + rewrite Ho. done.
    + intros _. destruct (V10 Ho) as [[? ?]|[?|?]]; [congruence|congruence|auto].
  - destruct (iMaxClients <=? Z.of_nat (size (mClients s))) eqn:Es; [done|]. apply Z.leb_gt in Es. cbn [fst].
    assert (forall k' e', mClients s !! k' = Some e' -> pClient e' <> next s) as Hfresh.
    { intros k' e' E' Hp. pose proof (in_pool_intro s k' e' E') as H. specialize (V3 (next s)). unfold places in V3. rewrite decide_False in V3 by lia. rewrite Hp in H. lia. }
    split; cbn -[held]; try done.
    + rewrite map_size_insert_None by done. lia.
    + lia.
    + intros i. unfold places, in_pool. cbn. rewrite msum_new by done. cbn. specialize (V3 i). unfold places, in_pool in V3. unfold one at 1. destruct (Z.eq_dec (next s) i) as [<-|Hn].
      * rewrite decide_False in V3 by lia. rewrite decide_True by lia. lia.
      * destruct (decide (1 <= i < next s)), (decide (1 <= i < next s + 1)); lia.
    + intros i Hi _. unfold in_pool. cbn. rewrite msum_new by done. cbn. revert Hi. unfold held. cbn. intros Hi.
      destruct (Z.eq_dec (next s) i) as [<-|Hn]; [rewrite one_same; lia|]. rewrite lookup_insert_ne in Hi by done. specialize (V4 i Hi Eb). unfold in_pool in V4. lia.
    + intros k' e' E'. unfold entry_inv, last_use. cbn. unfold locked in Hk. destruct (decide (k = k')) as [<-|Hn].
      * rewrite lookup_insert_eq in E'. injection E' as <-. cbn. rewrite lookup_insert_eq. destruct (poll s); try done; lia.
      * rewrite lookup_insert_ne in E' by done. rewrite lookup_insert_ne by (intros Hp; by apply (Hfresh k' e')). by apply V5 in E'.
    + rewrite Eb. done.
    + rewrite Ho. done.
    + intros _. destruct (V10 Ho) as [[? ?]|[?|?]]; [congruence|congruence|auto].
Qed.

(** An entry that stays, with another idle time. *)
Lemma kept_inv s bStop iNow k todo l e t : inv s -> poll s = Sweeping bStop iNow (k :: todo) l -> mClients s !! k = Some e -> bStop = false ->
  t = 0 \/ last_use (pClient e) s <= t <= iNow ->
  inv (set_poll (Sweeping bStop iNow todo l) (set_pool (<[k := mkEntry (pClient e) t]> (mClients s)) s)).
Proof.
  intros [V1 V2 V3 V4 V5 V6 V7 Vf V8 V9 V10] Ep E -> Ht. pose proof (fun i => msum_upd (fun e => one (pClient e) i) _ k e (mkEntry (pClient e) t) E) as Hm. cbn in Hm.
  rewrite Ep in *. unfold places, in_pool in *. split; cbn; try done.
  - rewrite map_size_insert_Some by eauto. done.
  - intros i. rewrite <- V3. unfold places, in_pool. cbn. specialize (Hm i). rewrite Ep. cbn. lia.
  - intros i Hi Hb. specialize (V4 i Hi Hb). unfold in_pool. cbn. specialize (Hm i). lia.
  - intros k' e' E'. unfold entry_inv, last_use in *. rewrite Ep in *. cbn. destruct (decide (k = k')) as [<-|Hn].
    + rewrite lookup_insert_eq in E'. injection E' as <-. cbn. split; [|done]. by apply (V5 _ _ E).
    + rewrite lookup_insert_ne in E' by done. by apply V5 in E'.
  - intros Hb. destruct (V7 Hb) as [Hm0|(x & y & z & [=] & _)]. rewrite Hm0 in E. done.
  - intros Ho. by rewrite (V9 Ho) in E.
  - intros Ho. destruct (V10 Ho) as [[_ Hm0]|H]; [by rewrite Hm0 in E|auto].
Qed.

(** An entry that is evicted. *)
Lemma evicted_inv s bStop iNow k todo l e : inv s -> poll s = Sweeping bStop iNow (k :: todo) l -> mClients s !! k = Some e -> bStop = true \/ held (pClient e) s = 0%nat ->
  inv (mkState (delete k (mClients s)) (u64 (iEvicted s + 1)) (bStopped s) (stArmOnce s) (posted s) (timer s) (refused s) (stop_requested s) (leases s)
            (retired s) (next s) (Sweeping bStop iNow todo (l ++ [pClient e])) (now s) (used s)).
Proof.
  intros I Ep E Hs. pose proof I as [V1 V2 V3 V4 V5 V6 V7 Vf V8 V9 V10]. pose proof (fun i => msum_split (fun e => one (pClient e) i) _ k e E) as Hm. cbn in Hm.
  rewrite Ep in *. split; cbn -[held]; try done.
  - rewrite map_size_delete_Some by eauto. lia.
  - intros i. rewrite <- V3. unfold places, in_pool. cbn. rewrite Ep. cbn. rewrite cnt_app, cnt_one1. specialize (Hm i). lia.
  - intros i Hi Hb. unfold in_pool. cbn. change (0 < held i s)%nat in Hi. specialize (V4 i Hi Hb). unfold in_pool in V4. rewrite Hm in V4.
    unfold one in V4 at 1. destruct (Z.eq_dec (pClient e) i) as [<-|]; [|lia]. destruct Hs as [->|Hs]; [|lia].
    congruence.
  - intros k' e' E'. apply lookup_delete_Some in E' as [_ E']. unfold entry_inv, last_use in *. rewrite Ep in V5. by apply V5 in E'.
  - intros Hb. destruct (V7 Hb) as [Hm0|(x & y & z & [= -> -> <- <-] & Hk)]; [by rewrite Hm0 in E|]. right. eexists _, _, _. split; [done|].
    intros k' Hk'. rewrite lookup_delete_is_Some in Hk'. destruct Hk' as [Hn Hk'].
    apply Hk in Hk'. apply elem_of_cons in Hk' as [|]; [congruence|done].
  - rewrite V8. unfold u64. rewrite Zplus_mod_idemp_l. f_equal. rewrite lenZ_app. unfold lenZ. cbn. lia.
  - intros Ho. by rewrite (V9 Ho) in E.
  - intros Ho. destruct (V10 Ho) as [[_ Hm0]|H]; [by rewrite Hm0 in E|auto].
Qed.

Lemma sweep_inv s bStop iNow k todo l : inv s -> poll s = Sweeping bStop iNow (k :: todo) l -> inv (sweep_entry bStop iNow k todo l s).
Proof.
  intros I Ep. unfold sweep_entry. destruct (mClients s !! k) as [e|] eqn:E.
  - destruct (negb bStop && HasLease (pClient e) s) eqn:E1.
    { apply andb_true_iff in E1 as [E1%negb_true_iff _]. subst. apply kept_inv; auto. }
    pose proof (v_entry s I k e E) as [H1 H2]. rewrite Ep in H1, H2.
    set (e1 := if iIdleSinceMilliseconds e =? 0 then _ else e).
    assert (e1 = mkEntry (pClient e) (iIdleSinceMilliseconds e1) /\ last_use (pClient e) s <= iIdleSinceMilliseconds e1 <= iNow) as [He1 He2].
    { unfold e1. destruct (Z.eqb_spec (iIdleSinceMilliseconds e) 0); [done|]. destruct H2; [done|]. destruct e. done. }
    clearbody e1. destruct e1 as [c t]. cbn in He1, He2. injection He1 as ->. cbn [iIdleSinceMilliseconds].
    cbv zeta. destruct (negb bStop && (iNow - t <? iIdleMilliseconds)) eqn:E2.
    + apply andb_true_iff in E2 as [E2%negb_true_iff _]. subst bStop. apply kept_inv; auto.
    + apply evicted_inv; [done..|]. destruct bStop; [by left|right]. unfold HasLease in E1. cbn -[Nat.ltb] in E1. apply Nat.ltb_ge in E1. lia.
  - destruct I as [V1 V2 V3 V4 V5 V6 V7 Vf V8 V9 V10]. rewrite Ep in *. split; cbn; try done.
    + intros i. rewrite <- V3. unfold places, in_pool. by rewrite Ep.
    + intros k' e' E'. unfold entry_inv, last_use in *. rewrite Ep in *. by apply V5 in E'.
    + intros Hb. destruct (V7 Hb) as [Hm0|(x & y & z & [= -> -> <- <-] & Hk)]; [auto|right]. eexists _, _, _. split; [done|].
      intros k' Hk'. pose proof (Hk k' Hk') as Hin. apply elem_of_cons in Hin as [->|]; [|done]. rewrite E in Hk'. by destruct Hk'.
Qed.

(** The lock is taken for a sweep. *)
Lemma sweep_begin_inv bStop s b t : inv s -> poll s = Idle ->
  (bStop = true \/ (t = timer s /\ b = posted s)) -> inv (SweepRoutePool bStop (set_arm (stArmOnce s) b t (refused s) s)).
Proof.
  intros [V1 V2 V3 V4 V5 V6 V7 Vf V8 V9 V10] Ep Hb. rewrite Ep in *. split; cbn; try done; try lia.
  - intros i. rewrite <- V3. unfold places, in_pool. cbn. rewrite Ep. done.
  - intros i Hi Hs. apply V4; [done|]. by destruct bStop.
  - intros k e E. unfold entry_inv, last_use in *. rewrite Ep in *. cbn. by apply (V5 k).
  - destruct bStop; cbn.
    + intros _. right. eexists _, _, _. split; [done|]. intros k [e Hk]. apply list_elem_of_fmap. exists (k, e). split; [done|]. by apply elem_of_map_to_list.
    + intros Hs. left. destruct (V7 Hs) as [|(x & y & z & [=] & _)]. done.
  - by destruct bStop.
  - intros Ho. destruct Hb as [->|[-> ->]]; [auto|]. destruct bStop; [auto|]. by apply V10.
Qed.

Lemma pool_turn_inv s s' : inv s -> turn s = Some s' -> inv s'.
Proof.
  intros I. unfold turn. destruct (poll s) as [|bStop iNow [|k todo] l|[|i l]] eqn:Ep; [done|..]; intros [= <-].
  - destruct I as [V1 V2 V3 V4 V5 V6 V7 Vf V8 V9 V10]. rewrite Ep in *. split; cbn; try done.
    + intros i. rewrite <- V3. unfold places, in_pool. by rewrite Ep.
    + intros k e E. unfold entry_inv, last_use in *. rewrite Ep in *. cbn. specialize (V5 k e E). lia.
    + intros Hb. destruct (V7 Hb) as [|(x & y & z & [= -> -> <- <-] & Hk)]; [auto|left]. apply map_empty. intros k. destruct (mClients s !! k) eqn:E; [|done].
      assert (k ∈ (@nil key)) as Hin by (apply Hk; by rewrite E). by apply elem_of_nil in Hin.
  - by apply sweep_inv.
  - destruct I as [V1 V2 V3 V4 V5 V6 V7 Vf V8 V9 V10]. rewrite Ep in *. split; cbn; try done.
    + intros i. rewrite <- V3. unfold places, in_pool. by rewrite Ep.
    + intros k e E. unfold entry_inv, last_use in *. rewrite Ep in *. by apply V5 in E.
    + intros Hb. destruct (V7 Hb) as [|(x & y & z & [=] & _)]; auto.
  - destruct I as [V1 V2 V3 V4 V5 V6 V7 Vf V8 V9 V10]. rewrite Ep in *. split; cbn; try done.
    + intros j. rewrite <- V3. unfold places, in_pool. rewrite Ep. cbn. rewrite cnt_app, cnt_one1, cnt_one. lia.
    + intros k e E. unfold entry_inv, last_use in *. rewrite Ep in *. by apply V5 in E.
    + intros Hb. destruct (V7 Hb) as [|(x & y & z & [=] & _)]; auto.
    + rewrite V8. f_equal. rewrite lenZ_app. unfold lenZ. cbn. lia.
Qed.

Lemma lease_event_inv e s s' : inv s -> do_event e s = Some s' -> inv s'.
Proof.
  intros I. pose proof I as [V1 V2 V3 V4 V5 V6 V7 Vf V8 V9 V10]. destruct e as [bAdded|k|i|i|i| | |bTimer| | |n]; cbn.
  - destruct (stArmOnce s) eqn:Eo; [done|]. specialize (V9 eq_refl). destruct bAdded; [|destruct (stop_requested s) eqn:Er; [|done]]; intros [= <-];
      apply (frame_inv s); cbn; try done; auto.
  - destruct (locked s || _) eqn:E; [done|]. apply orb_false_iff in E as [E1 E2%negb_false_iff]. intros [= <-]. by apply get_inv.
  - destruct (HasLease i s) eqn:E; [|done]. unfold HasLease in E. apply Nat.ltb_lt in E. intros [= <-]. apply (frame_inv s); cbn -[held]; try done; auto.
    intros j. unfold AcquireLease. rewrite held_lease. destruct (Z.eq_dec i j) as [->|]; auto.
  - destruct (held i s) as [|n] eqn:E; [done|]. intros [= <-]. apply (frame_inv s); cbn -[held]; try done; auto.
    intros j. rewrite held_lease. destruct (Z.eq_dec i j) as [->|]; auto. rewrite E. left. lia.
  - destruct (_ && negb _) eqn:E; [|done]. intros [= <-]. apply andb_true_iff in E as [E E4%negb_true_iff]. apply andb_true_iff in E as [E E3%Z.ltb_lt]. apply andb_true_iff in E as [E1 E2%Z.leb_le].
    apply (frame_inv s); cbn -[held]; try done; auto.
    intros j. unfold AcquireLease. rewrite held_lease. destruct (Z.eq_dec i j) as [<-|]; auto. intros _ _. right.
    specialize (V3 i). rewrite decide_True in V3 by lia. unfold places in V3. unfold idle in E1. destruct (poll s); try done. cbn in V3. rewrite cnt_nil in V3.
    assert (cnt i (retired s) = 0%nat); [|lia]. destruct (decide (0 < cnt i (retired s))%nat) as [H|]; [|lia]. apply cnt_pos in H.
    apply not_true_iff_false in E4. exfalso. apply E4, existsb_exists. exists i. split; [by apply list_elem_of_In|apply Z.eqb_refl].
  - intros [= <-]. apply (frame_inv s); cbn; try done; auto. intros Ho. destruct (V10 Ho) as [[_ ?]|?]; auto.
  - destruct (_ && negb _) eqn:E; [|done]. intros [= <-]. apply andb_true_iff in E as [E _]. apply andb_true_iff in E as [E _]. apply andb_true_iff in E as [E _].
    unfold idle in E. destruct (poll s) eqn:Ep; try done. apply sweep_begin_inv; auto.
  - destruct (_ && posted s) eqn:E; [|done]. intros [= <-]. apply andb_true_iff in E as [E E1]. unfold idle in E. destruct (poll s) eqn:Ep; try done.
    unfold ArmRoutePool. cbn [stop_requested set_arm]. destruct (stop_requested s || negb bTimer).
    + apply (sweep_begin_inv true s false false); auto.
    + apply (frame_inv s); cbn; try done; auto; lia.
  - destruct (_ && timer s) eqn:E; [|done]. intros [= <-]. apply andb_true_iff in E as [E E1]. unfold idle in E. destruct (poll s) eqn:Ep; try done.
    replace s with (set_arm (stArmOnce s) (posted s) (timer s) (refused s) s) at 1 by by destruct s. apply sweep_begin_inv; auto.
  - by apply pool_turn_inv.
  - destruct (Z.leb_spec 0 n); [|done]. intros [= <-]. apply (frame_inv s); cbn; try done; auto; lia.
Qed.

Lemma pool_history_inv es s s' : inv s -> run es s = Some s' -> inv s'.
Proof. revert s. induction es as [|e es IH]; intros s I; cbn; [by intros [= <-]|]. destruct (do_event e s) as [s1|] eqn:E; [|done]. apply IH. by apply (lease_event_inv e s). Qed.

Lemma pool_initial_inv t b : 0 <= t -> inv (start t b).
Proof.
  intros Ht. split; cbn; try done; try lia.
  - rewrite map_size_empty. lia.
  - intros i. unfold places, in_pool. cbn. rewrite msum_empty, cnt_nil, decide_False by lia. lia.
Qed.

(** ** Who is served *)

(** C25: while anybody holds a connection's lease and the pool is not stopped, the
    connection is in the pool, under one key, and has not been retired. *)
Theorem leased_stays es t b s i : 0 <= t -> run es (start t b) = Some s -> (0 < held i s)%nat -> bStopped s = false ->
  (exists k e, mClients s !! k = Some e /\ pClient e = i /\ forall k' e', mClients s !! k' = Some e' -> pClient e' = i -> k' = k) /\
  i ∉ in_poll (poll s) /\ i ∉ retired s.
Proof.
  intros Ht R Hl Hs. apply (pool_history_inv es) in R as I; [|by apply pool_initial_inv]. pose proof (v_lease s I i Hl Hs) as H. split.
  - destruct (msum_pos _ _ H) as (k & e & E & He). unfold one in He. destruct (Z.eq_dec (pClient e) i) as [Hp|]; [|lia].
    exists k, e. split_and!; [done..|]. intros k' e' E' Hp'. apply (entry_unique s k' k e' e); [done..|congruence].
  - pose proof (v_place s I i) as V. unfold places in V. rewrite <- !cnt_pos. destruct (decide _); lia.
Qed.

(** The sweep of the timer evicts a connection only when nobody holds its lease
    and it was last given out at least the idle time ago. *)
Theorem evicted_when_idle es t b s s' iNow todo l i iNow' todo' : 0 <= t -> run es (start t b) = Some s ->
  poll s = Sweeping false iNow todo l -> do_event Turn s = Some s' -> poll s' = Sweeping false iNow' todo' (l ++ [i]) ->
  held i s = 0%nat /\ last_use i s + iIdleMilliseconds <= now s.
Proof.
  intros Ht R Ep. apply (pool_history_inv es) in R as I; [|by apply pool_initial_inv]. cbn. unfold turn. rewrite Ep.
  assert (forall l i, l <> l ++ [i] :> list Z) as Hne by (intros l0 i0 H; apply (f_equal length) in H; rewrite length_app in H; cbn in H; lia).
  destruct todo as [|k todo]; [by intros [= <-]|]. intros [= <-]. unfold sweep_entry. pose proof (v_now s I) as Hn. rewrite Ep in Hn.
  destruct (mClients s !! k) as [e|] eqn:E; [|intros [= _ _ H]; by apply Hne in H].
  pose proof (v_entry s I k e E) as [H1 H2]. rewrite Ep in H1, H2. cbn [negb andb].
  destruct (HasLease (pClient e) s) eqn:E1; [intros [= _ _ H]; by apply Hne in H|]. apply Nat.ltb_ge in E1.
  destruct (iNow - _ <? iIdleMilliseconds) eqn:E2; [intros [= _ _ H]; by apply Hne in H|]. cbn. intros [= <- <- H]. apply Z.ltb_ge in E2.
  apply app_inj_tail in H as [_ <-]. split; [lia|]. destruct (Z.eqb_spec (iIdleSinceMilliseconds e) 0); cbn in E2; lia.
Qed.

(** ** Stopping *)

(** The pool never holds more connections than configured; as long as it holds
    one and is not stopped, its sweeps are to begin or its timer runs; once it is stopped
    and the poll thread is through, it is empty, stays so, and every connection ever made
    has been retired exactly once. *)
Theorem pool_is_emptied es t b s : 0 <= t -> run es (start t b) = Some s ->
  Z.of_nat (size (mClients s)) <= Z.max 0 iMaxClients /\
  (mClients s <> ∅ -> bStopped s = true \/ posted s = true \/ timer s = true) /\
  (bStopped s = true -> poll s = Idle ->
    mClients s = ∅ /\ (forall i, 1 <= i < next s -> cnt i (retired s) = 1%nat) /\ forall k, ClientFor k s = (s, None)).
Proof.
  intros Ht R. apply (pool_history_inv es) in R as I; [|by apply pool_initial_inv]. split_and!; [apply I|..].
  - intros Hm. destruct (stArmOnce s) eqn:Eo; [|by apply (v_once s I) in Eo]. by destruct (v_armed s I Eo) as [[_ ?]|].
  - intros Hs Ep. assert (mClients s = ∅) as Hm by (destruct (v_stop s I Hs) as [|(x & y & z & E & _)]; [done|congruence]). split_and!; [done| |].
    + intros i Hi. pose proof (v_place s I i) as V. rewrite decide_True in V by done. unfold places, in_pool in V. rewrite Hm, Ep, msum_empty in V. cbn in V. rewrite cnt_nil in V. lia.
    + intros k. unfold ClientFor. by rewrite Hs.
Qed.

End Limits.

(** ** Examples *)

Definition somewhere : key := ([Byte.x31], [Byte.x38], RoutePolicy None).
Definition after (es : list event) (s : state) : state := match run 4 60 es s with Some s => s | None => s end.

(** A connection is made, used and given back; the timer's sweeps find it idle. *)
Definition used_once : list event := [ArmOnce true; Get somewhere; Arm true].
Definition swept : list event := [Tick 10; Timer; Turn; Turn; Turn; Tick 60; Timer].
Definition idle_long : list event := used_once ++ Release 1 :: swept.

Example evicted_once : retired (after (idle_long ++ [Turn; Turn; Turn; Turn]) (start 5 false)) = [1].
Proof. vm_compute. reflexivity. Qed.

Example leased_is_kept : retired (after (used_once ++ swept ++ [Turn; Turn; Turn]) (start 5 false)) = [].
Proof. vm_compute. reflexivity. Qed.

Lemma after_run es s : match run 4 60 es s with Some _ => true | None => false end = true -> run 4 60 es s = Some (after es s).
Proof. unfold after. by destruct (run 4 60 es s). Qed.

Lemma leased_stays_witness : 1 ∉ retired (after (used_once ++ swept) (start 5 false)).
Proof.
  refine (proj2 (proj2 (leased_stays 4 60 (used_once ++ swept) 5 false (after (used_once ++ swept) (start 5 false)) 1 _ _ _ _)));
    [lia|apply after_run; reflexivity|apply Nat.ltb_lt; reflexivity|reflexivity].
Defined.

Lemma evicted_when_idle_witness : held 1 (after idle_long (start 5 false)) = 0%nat /\ last_use 1 (after idle_long (start 5 false)) + 60 <= now (after idle_long (start 5 false)).
Proof.
  destruct (do_event 4 60 Turn (after idle_long (start 5 false))) as [s'|] eqn:E; [|vm_compute in E; discriminate E].
  assert (option_map poll (do_event 4 60 Turn (after idle_long (start 5 false))) = Some (Sweeping false 75 [] [1])) as Ep by reflexivity.
  rewrite E in Ep. injection Ep as Ep.
  refine (evicted_when_idle 4 60 idle_long 5 false (after idle_long (start 5 false)) s' 75 [somewhere] [] 1 75 [] _ _ _ E Ep); [lia|apply after_run; reflexivity|reflexivity].
Defined.

Lemma pool_is_emptied_witness : let s := after (used_once ++ [RequestStop; StopHandler; Turn; Turn; Turn; Turn]) (start 5 false) in mClients s = ∅ /\ cnt 1 (retired s) = 1%nat.
Proof.
  refine ((fun H => conj (proj1 H) (proj1 (proj2 H) 1 _)) (proj2 (proj2 (pool_is_emptied 4 60 (used_once ++ [RequestStop; StopHandler; Turn; Turn; Turn; Turn]) 5 false
    (after (used_once ++ [RequestStop; StopHandler; Turn; Turn; Turn; Turn]) (start 5 false)) _ _)) _ _)); [done|lia|apply after_run; reflexivity|reflexivity..].
Defined.

End RoutePool.
