(* ===== verification/Route.v ===== *)
(** * Calls by service name

    The rest of proto/src/oi_rpc_route.cpp and its callers in proto/inc/oi_rpc_coro.h:
    what a target names, which of the instances the registry lists a call goes to, and
    RouteAwaiter, SendRouted and CallRouted, which put a call together: prepare, pull the
    list, finish the route, call every slot.

    The list and its result code, the times, the pool's and the calls' answers are
    arguments.  The pool is an interface, [Clients]; RoutePool.v implements it. *)

From stdpp Require Import sorting.
From S2P Require Import Prelude Decimal Text RegistryServer ServiceTable RpcCalls RoutePool.

Module Route.
Import Decimal Text RegistryServer RpcCalls.

(** ** Targets *)

Definition DOT : byte := Byte.x2e.
Definition STAR : byte := Byte.x2a.

Definition token_char (b : byte) : bool :=
  let c := byteZ b in
  ((97 <=? c) && (c <=? 122)) || ((65 <=? c) && (c <=? 90)) || ((48 <=? c) && (c <=? 57)) || (c =? 95) || (c =? 45).

Definition ValidServiceToken (sText : list byte) : bool :=
  match sText with [] => false | _ => forallb token_char sText end.

Record ParsedTarget : Type := mkTarget { t_sName : list byte; t_sZone : list byte; bAll : bool }.

(** ParseTarget; what it leaves in stTarget when it returns false is not used. *)
Definition ParseTarget (sTarget : list byte) : option ParsedTarget :=
  if (3 <=? lenZ sTarget) && bytes_eqb (sub (lenZ sTarget - 2) 2 sTarget) [DOT; STAR] then
    let sName := sub 0 (lenZ sTarget - 2) sTarget in
    if ValidServiceToken sName then Some (mkTarget sName [] true) else None
  else
    match find [DOT] sTarget 0 with
    | None => if ValidServiceToken sTarget then Some (mkTarget sTarget [] false) else None
    | Some iDot =>
        match find [DOT] sTarget (iDot + 1) with
        | Some _ => None
        | None =>
            let sName := sub 0 iDot sTarget in
            let sZone := sub (iDot + 1) (lenZ sTarget) sTarget in
            if ValidServiceToken sName && ValidServiceToken sZone then Some (mkTarget sName sZone false) else None
        end
    end.

(** How a target is written. *)
Definition write_target (t : ParsedTarget) : list byte :=
  t_sName t ++ (if bAll t then [DOT; STAR] else match t_sZone t with [] => [] | z => DOT :: z end).

Definition target_ok (t : ParsedTarget) : Prop :=
  ValidServiceToken (t_sName t) = true /\ (if bAll t then t_sZone t = [] else t_sZone t = [] \/ ValidServiceToken (t_sZone t) = true).

(** ** Routes *)

Inductive ServiceRouteStatus : Type := Ok | BadName | WrongKind | Offline | Timeout | Busy.
Inductive ServicePick : Type := Any | Zone | All.

(** ServiceRoute; a null pointer is [None]. *)
Record ServiceRoute (O : Type) : Type := mkRoute { iStatus : ServiceRouteStatus; vClients : list (option O); vOwners : list (option O) }.
Arguments mkRoute {O}. Arguments iStatus {O}. Arguments vClients {O}. Arguments vOwners {O}.

Definition new_route {O} : ServiceRoute O := mkRoute Offline [] [].
Definition with_status {O} (i : ServiceRouteStatus) (r : ServiceRoute O) : ServiceRoute O := mkRoute i (vClients r) (vOwners r).

Definition RouteError (i : ServiceRouteStatus) : Z :=
  match i with
  | Timeout => OI_ERR_TIMEOUT
  | Busy => OI_ERR_BUSY
  | BadName | WrongKind => OI_ERR_FAIL
  | Ok | Offline => OI_ERR_CONNECT
  end.

(** PrepareTarget: an answer, or the name, the pick and the zone. *)
Definition PrepareTarget {O} (sTarget : list byte) (bBatch : bool) (r : ServiceRoute O) : ServiceRoute O + (list byte * ServicePick * list byte) :=
  match ParseTarget sTarget with
  | Some t =>
      if eqb (bAll t) bBatch then
        inr (t_sName t, if bBatch then All else match t_sZone t with [] => Any | _ => Zone end, t_sZone t)
      else inl (with_status BadName r)
  | None => inl (with_status BadName r)
  end.

(** PrepareZones. *)
Definition PrepareZones {O} (sName : list byte) (vZoneIds : list Z) (r : ServiceRoute O) : ServiceRoute O + list (list byte) :=
  if negb (ValidServiceToken sName) || match vZoneIds with [] => true | _ => false end then inl (with_status BadName r)
  else if existsb (fun i => i <? 0) vZoneIds then inl (with_status BadName r)
  else inr (map to_string vZoneIds).

(** The loop of PrepareRoute over the managers that follow the name: the caller's manager
    is one of them, a ProtoClientManager ([client]) and connected; its own sender. *)
Definition watching {M O : Type} `{!EqDecision M} (t : gmap (list byte) (ServiceTable.State M)) (pManager : option M) (client : M -> option (bool * O)) (sName : list byte) : option O :=
  match pManager with
  | None => None
  | Some m =>
      if existsb (fun w => bool_decide (w = m)) (ServiceTable.Watchers sName t) then
        match client m with Some (true, o) => Some o | _ => None end
      else None
  end.

(** PrepareRoute. *)
Definition PrepareRoute {O} (watching : option O) (sName : list byte) (iPick : ServicePick) (sZone : list byte) (r : ServiceRoute O) : option (ServiceRoute O) :=
  if negb (ValidServiceToken sName) || (match iPick with Zone => negb (ValidServiceToken sZone) | _ => false end) then Some (with_status BadName r)
  else
    match iPick, watching with
    | Any, Some o => Some (mkRoute Ok (vClients r ++ [Some o]) (vOwners r ++ [None]))
    | _, _ => None
    end.

(** ** Instances *)

(** ClientFor, for the manager of the call; senders know their address. *)
Class Clients (S O : Type) := mkClients {
  client_for : list byte -> list byte -> S -> S * option O;
  address : O -> list byte * list byte
}.

(** What routing relies on. *)
Class ClientsOk (S O : Type) `{Clients S O} : Prop :=
  client_address ip port s s' o : client_for ip port s = (s', Some o) -> address o = (ip, port).

Section Routes.
Context {S O : Type} `{Clients S O}.

(** std::sort by iId; equal ids come in any order. *)
Context (sort : list ServiceInstance -> list ServiceInstance).

Definition AddRouteClient (r : ServiceRoute O) (x : ServiceInstance) (s : S) : ServiceRoute O * S * bool :=
  match client_for (si_sIp x) (si_sPort x) s with
  | (s, None) => (mkRoute Busy [] [], s, false)
  | (s, Some o) => (mkRoute (iStatus r) (vClients r ++ [Some o]) (vOwners r ++ [Some o]), s, true)
  end.

Fixpoint add_all (r : ServiceRoute O) (l : list ServiceInstance) (s : S) : ServiceRoute O * S * bool :=
  match l with
  | [] => (r, s, true)
  | x :: l => let '(r, s, b) := AddRouteClient r x s in if b then add_all r l s else (r, s, false)
  end.

Definition named (sName : list byte) (x : ServiceInstance) : bool := bytes_eqb (si_sName x) sName.
Definition zoned (x : ServiceInstance) : bool := match si_sZone x with [] => false | _ => true end.

(** The first loop of FinishRoute. *)
Definition matched (sName : list byte) (iPick : ServicePick) (sZone : list byte) (vList : list ServiceInstance) : list ServiceInstance :=
  List.filter (fun x => named sName x && match iPick with Zone => bytes_eqb (si_sZone x) sZone | _ => true end) vList.
Definition has_global (sName : list byte) (vList : list ServiceInstance) : bool := existsb (fun x => named sName x && negb (zoned x)) vList.
Definition has_zoned (sName : list byte) (vList : list ServiceInstance) : bool := existsb (fun x => named sName x && zoned x) vList.

(** FinishRoute; [iCursor] is its static atomic<uint32_t>. *)
Definition FinishRoute (sName : list byte) (iPick : ServicePick) (sZone : list byte) (iCode : Z) (vList : list ServiceInstance) (iCursor : Z) (s : S)
    : ServiceRoute O * Z * S :=
  if negb (iCode =? OI_OK) then (with_status Offline new_route, iCursor, s)
  else if has_global sName vList && has_zoned sName vList then (with_status WrongKind new_route, iCursor, s)
  else if match iPick with Zone => has_global sName vList | _ => false end then (with_status WrongKind new_route, iCursor, s)
  else
    match matched sName iPick sZone vList with
    | [] => (with_status Offline new_route, iCursor, s)
    | vMatched =>
        let n := lenZ vMatched in
        let vMatched := sort vMatched in
        match iPick with
        | All =>
            let '(r, s, b) := add_all new_route vMatched s in
            (if b then with_status Ok r else r, iCursor, s)
        | _ =>
            let '(i, iCursor) := match iPick with Any => if 1 <? n then (iCursor mod n, u32 (iCursor + 1)) else (0, iCursor) | _ => (0, iCursor) end in
            match vMatched !! Z.to_nat i with
            | Some x => let '(r, s, b) := AddRouteClient new_route x s in (if b then with_status Ok r else r, iCursor, s)
            | None => (new_route, iCursor, s)    (* i < n *)
            end
        end
    end.

(** The inner loop of FinishZones. *)
Fixpoint best (pBest : option ServiceInstance) (sName sZone : list byte) (vList : list ServiceInstance) : option ServiceInstance :=
  match vList with
  | [] => pBest
  | x :: vList =>
      if negb (named sName x) || negb (bytes_eqb (si_sZone x) sZone) then best pBest sName sZone vList
      else best (match pBest with Some b => if si_iId x <? si_iId b then Some x else pBest | None => Some x end) sName sZone vList
  end.

(** ... and the outer one. *)
Fixpoint add_zones (sName : list byte) (vZones : list (list byte)) (vList : list ServiceInstance) (r : ServiceRoute O) (s : S) : ServiceRoute O * S * bool :=
  match vZones with
  | [] => (r, s, true)
  | sZone :: vZones =>
      match best None sName sZone vList with
      | None => add_zones sName vZones vList (mkRoute (iStatus r) (vClients r ++ [None]) (vOwners r ++ [None])) s
      | Some x => let '(r, s, b) := AddRouteClient r x s in if b then add_zones sName vZones vList r s else (r, s, false)
      end
  end.

Definition FinishZones (sName : list byte) (vZones : list (list byte)) (iCode : Z) (vList : list ServiceInstance) (s : S) : ServiceRoute O * S :=
  if negb (iCode =? OI_OK) then (with_status Offline new_route, s)
  else if has_global sName vList then (with_status WrongKind new_route, s)
  else let '(r, s, b) := add_zones sName vZones vList new_route s in (if b then with_status Ok r else r, s).

(** ** Calls *)

Definition INT64_MAX : Z := 2 ^ 63 - 1.

(** RpcDeadline. *)
Definition RpcDeadline (iMilliseconds iNow : Z) : Z :=
  if 0 <? iMilliseconds then if INT64_MAX - iNow <? iMilliseconds then INT64_MAX else iNow + iMilliseconds else 0.
Definition Expired (d iNow : Z) : bool := (0 <? d) && (d <=? iNow).
Definition Remaining (d iNow : Z) : Z := if d =? 0 then 0 else Z.max 1 (d - iNow).

(** RouteAwaiter: what is asked ... *)
Inductive Kind : Type :=
| Named (sName : list byte) (iPick : ServicePick) (sZone : list byte)
| Zones (sName : list byte) (vZones : list Z)
| Target (sTarget : list byte) (bBatch : bool).

(** ... and what await_suspend leaves to await_resume: the route, or the pull it has begun. *)
Inductive waiting : Type :=
| Resolved (r : ServiceRoute O)
| Pulling (sName : list byte) (iTimeoutMilliseconds : Z) (w : (ServicePick * list byte) + list (list byte)).

(** After the names are known. *)
Definition begin_pull (sName : list byte) (w : (ServicePick * list byte) + list (list byte)) (d iNow : Z) : waiting :=
  if Expired d iNow then Resolved (with_status Timeout new_route)
  else
    let iRemaining := Remaining d iNow in
    Pulling sName (if 0 <? iRemaining then Z.min iRemaining 1000 else 1000) w.

Definition begin_route (own : list byte -> option O) (sName : list byte) (iPick : ServicePick) (sZone : list byte) (d iNow : Z) : waiting :=
  match PrepareRoute (own sName) sName iPick sZone new_route with
  | Some r => Resolved r
  | None => begin_pull sName (inl (iPick, sZone)) d iNow
  end.

(** RouteAwaiter::await_suspend up to PullRoute. *)
Definition await_suspend (own : list byte -> option O) (k : Kind) (d iNow : Z) : waiting :=
  match k with
  | Zones sName vZones =>
      match PrepareZones sName vZones new_route with
      | inl r => Resolved r
      | inr vZoneNames => begin_pull sName (inr vZoneNames) d iNow
      end
  | Named sName iPick sZone => begin_route own sName iPick sZone d iNow
  | Target sTarget bBatch =>
      match PrepareTarget sTarget bBatch new_route with
      | inl r => Resolved r
      | inr (sName, iPick, sZone) => begin_route own sName iPick sZone d iNow
      end
  end.

(** RouteAwaiter::await_resume; of a pull, its code and list. *)
Definition await_resume (w : waiting) (d iNow iCode : Z) (vList : list ServiceInstance) (iCursor : Z) (s : S) : ServiceRoute O * Z * S :=
  match w with
  | Resolved r => (if Expired d iNow then with_status Timeout r else r, iCursor, s)
  | Pulling sName _ w =>
      if Expired d iNow || (iCode =? OI_ERR_TIMEOUT) then (with_status Timeout new_route, iCursor, s)
      else if iCode =? OI_ERR_BUSY then (with_status Busy new_route, iCursor, s)
      else
        match w with
        | inl (iPick, sZone) => FinishRoute sName iPick sZone iCode vList iCursor s
        | inr vZoneNames => let (r, s) := FinishZones sName vZoneNames iCode vList s in (r, iCursor, s)
        end
  end.

(** RpcResult. *)
Context {Res : Type} (no_result : Res).

(** What the world answers to a batch: the time at each slot, whether submitting there
    throws, and what the call there ends with ([None]: an exception). *)
Record batch : Type := mkBatch { nows : nat -> Z; throws : nat -> bool; answers : nat -> O -> option (Z * Res) }.

(** The loop of SendRouted over the clients: a call or the code of a skipped slot;
    [None]: an exception, which is thrown on when the calls begun have ended. *)
Fixpoint submit_all (b : batch) (d : Z) (i : nat) (l : list (option O)) : option (list (O + Z)) :=
  match l with
  | [] => Some []
  | c :: l =>
      let skip x := option_map (cons (inr x)) (submit_all b d (Datatypes.S i) l) in
      match c with
      | None => skip OI_ERR_CONNECT
      | Some o => if Expired d (nows b i) then skip OI_ERR_TIMEOUT else if throws b i then None else option_map (cons (inl o)) (submit_all b d (Datatypes.S i) l)
      end
  end.

Definition await_slot (b : batch) (i : nat) (c : O + Z) : Z * Res :=
  match c with
  | inr iCode => (iCode, no_result)
  | inl o => match answers b i o with Some r => r | None => (OI_ERR_FAIL, no_result) end
  end.

Fixpoint await_all (b : batch) (i : nat) (l : list (O + Z)) : list (Z * Res) :=
  match l with
  | [] => []
  | c :: l => await_slot b i c :: await_all b (Datatypes.S i) l
  end.

Definition SendRouted (r : ServiceRoute O) (b : batch) (d : Z) (iFailureCount : nat) : option (list (Z * Res)) :=
  match iStatus r with
  | Ok => option_map (await_all b 0) (submit_all b d 0 (vClients r))
  | i => Some (replicate iFailureCount (RouteError i, no_result))
  end.

(** CallRouted: [t0], [t1] the times before the pull and after it. *)
Definition CallRouted (own : list byte -> option O) (k : Kind) (d t0 t1 iCode : Z) (vList : list ServiceInstance) (b : batch) (iCursor : Z) (s : S)
    : option (list (Z * Res)) * Z * S :=
  let iFailureCount := match k with Zones _ vZones => length vZones | _ => 1%nat end in
  let '(r, iCursor, s) := await_resume (await_suspend own k d t0) d t1 iCode vList iCursor s in
  (SendRouted r b d iFailureCount, iCursor, s).

(** CallNamed, RunNamedOutput and RunTargetCall: the code without a call, or the client
    and the time it has. *)
Definition call_one (r : ServiceRoute O) (d iNow : Z) : Z + (O * Z) :=
  match iStatus r, vClients r with
  | Ok, [Some o] => if Expired d iNow then inl OI_ERR_TIMEOUT else inr (o, Remaining d iNow)
  | i, _ => inl (RouteError i)
  end.

End Routes.

(** ** Targets, proved *)

Lemma token_no_dot l : ValidServiceToken l = true -> no_byte DOT l.
Proof.
  destruct l as [|b l]; [done|]. unfold ValidServiceToken. intros H. apply Forall_forall. intros x Hx ->. apply list_elem_of_In in Hx.
  rewrite forallb_forall in H. by specialize (H _ Hx).
Qed.

Lemma token_no_star l : ValidServiceToken l = true -> no_byte STAR l.
Proof.
  destruct l as [|b l]; [done|]. unfold ValidServiceToken. intros H. apply Forall_forall. intros x Hx ->. apply list_elem_of_In in Hx.
  rewrite forallb_forall in H. by specialize (H _ Hx).
Qed.

Lemma token_nonempty l : ValidServiceToken l = true -> 1 <= lenZ l.
Proof. destruct l; [done|]. intros _. rewrite lenZ_cons. unfold lenZ. lia. Qed.

Lemma find_split x s d : find [x] s 0 = Some d -> 0 <= d < lenZ s /\ s = sub 0 d s ++ x :: sub (d + 1) (lenZ s) s.
Proof.
  intros H. pose proof (find_range [x] s 0 d ltac:(lia) H) as Hr. change (lenZ [x]) with 1 in Hr. split; [lia|].
  unfold find in H. destruct (lenZ s <? 0); [done|]. change (drop (Z.to_nat 0) s) with s in H. apply find_from_starts in H.
  destruct (starts_true _ _ H) as [t Ht]. rewrite <- (take_drop (Z.to_nat d) s) at 1. unfold sub. rewrite drop_0. f_equal. replace (d - 0) with d in Ht by lia.
  rewrite Ht. cbn. f_equal. replace (Z.to_nat (d + 1)) with (Z.to_nat d + 1)%nat by lia. rewrite <- drop_drop, Ht. cbn. rewrite drop_0.
  symmetry. apply take_ge. pose proof (f_equal length Ht) as L. rewrite length_drop in L. cbn in L. unfold lenZ. lia.
Qed.

Lemma sub_end (s : list byte) a b : 3 <= lenZ s -> sub (lenZ s - 2) 2 s = [a; b] -> s = sub 0 (lenZ s - 2) s ++ [a; b].
Proof. intros Hl <-. pose proof (sub_split 0 (lenZ s - 2) 2 s ltac:(lia) ltac:(lia) ltac:(lia)) as H. rewrite sub_all in H by lia. done. Qed.

Lemma sub_pre (a b : list byte) n : n = lenZ a -> sub 0 n (a ++ b) = a.
Proof. intros ->. rewrite sub_app_l by (unfold lenZ; lia). by apply sub_all. Qed.

Lemma not_starred s : no_byte STAR s -> bytes_eqb (sub (lenZ s - 2) 2 s) [DOT; STAR] = false.
Proof.
  intros Hs. apply not_true_iff_false. intros E%bytes_eqb_eq. assert (STAR ∈ s) as Hin.
  { unfold sub in E. apply (subseteq_drop (Z.to_nat (lenZ s - 2))), (subseteq_take (Z.to_nat 2)). rewrite E. by right; left. }
  unfold no_byte in Hs. rewrite Forall_forall in Hs. by apply (Hs STAR).
Qed.

(** A target is taken exactly when it is a name, a name, a dot and a zone, or a
    name and .*, of letters, digits, _ and -, and it is taken apart into these. *)
Theorem target_spec s t : ParseTarget s = Some t <-> target_ok t /\ s = write_target t.
Proof.
  destruct t as [n z a]. unfold ParseTarget, target_ok, write_target. cbn [t_sName t_sZone bAll]. split.
  - destruct ((3 <=? lenZ s) && _) eqn:E.
    { apply andb_true_iff in E as [E1%Z.leb_le E2%bytes_eqb_eq]. destruct (ValidServiceToken _) eqn:Ev; [|done]. intros [= <- <- <-]. split; [done|]. by apply sub_end. }
    destruct (find [DOT] s 0) as [d|] eqn:Ed.
    + destruct (find [DOT] s (d + 1)); [done|]. cbv zeta. destruct (ValidServiceToken (sub 0 d s) && ValidServiceToken (sub (d + 1) (lenZ s) s)) eqn:Ev; [|intros [=]]. apply andb_true_iff in Ev as [Ev1 Ev2].
      intros [= <- <- <-]. split; [by auto|]. destruct (find_split _ _ _ Ed) as [_ Es]. rewrite Es at 1. f_equal. by destruct (sub (d + 1) (lenZ s) s).
    + destruct (ValidServiceToken s) eqn:Ev; [|done]. intros [= <- <- <-]. split; [by auto|]. by rewrite app_nil_r.
  - intros [[Hn Hz] ->]. pose proof (token_nonempty _ Hn) as L. pose proof (token_no_dot _ Hn) as D. pose proof (token_no_star _ Hn) as S. destruct a.
    + subst z. rewrite lenZ_app. change (lenZ [DOT; STAR]) with 2. rewrite (proj2 (Z.leb_le _ _)) by lia. replace (lenZ n + 2 - 2) with (lenZ n) by lia.
      rewrite sub_pre, Hn by done. rewrite sub_app_r, Z.sub_diag by lia. done.
    + destruct z as [|c z].
      * rewrite app_nil_r, not_starred, andb_false_r, find_none_byte, Hn by done. done.
      * destruct Hz as [|Hz]; [done|]. pose proof (token_no_dot _ Hz) as Dz. pose proof (token_no_star _ Hz) as Sz.
        rewrite not_starred, andb_false_r by (apply Forall_app; split; [done|by constructor]).
        pose proof (find_after DOT [] [] n (c :: z) D) as F. cbn [app] in F. rewrite lenZ_nil in F. rewrite F.
        assert (n ++ DOT :: c :: z = (n ++ [DOT]) ++ c :: z) as En by by rewrite <- app_assoc.
        assert (lenZ (n ++ [DOT]) = lenZ n + 1) as Ln by by rewrite lenZ_app.
        rewrite En. replace (0 + lenZ n + 1) with (lenZ (n ++ [DOT]) + 0) by lia. rewrite find_shift, find_none_byte by done. cbn [fmap option_fmap option_map].
        rewrite sub_shift by lia. rewrite <- app_assoc at 1. rewrite sub_pre by done. rewrite sub_all by (rewrite lenZ_app; pose proof (lenZ_nonneg (n ++ [DOT])); lia).
        rewrite Hn, Hz. cbn [andb]. rewrite <- app_assoc, sub_pre by lia. done.
Qed.

(** ** Slots of zones, proved *)

Section RouteProofs.
Context {S O : Type} `{HC : Clients S O, !ClientsOk S O}.
Context (sort : list ServiceInstance -> list ServiceInstance).

Definition where_is (x : ServiceInstance) : list byte * list byte := (si_sIp x, si_sPort x).
Definition in_zone (sName sZone : list byte) (x : ServiceInstance) : Prop := si_sName x = sName /\ si_sZone x = sZone.

Lemma named_eq sName x : named sName x = true <-> si_sName x = sName.
Proof. apply bytes_eqb_eq. Qed.

Lemma best_spec sName sZone vList pBest : (forall y, pBest = Some y -> in_zone sName sZone y) ->
  match best pBest sName sZone vList with
  | None => pBest = None /\ forall y, y ∈ vList -> ~ in_zone sName sZone y
  | Some x => (x ∈ vList \/ pBest = Some x) /\ in_zone sName sZone x /\ forall y, (y ∈ vList \/ pBest = Some y) -> in_zone sName sZone y -> si_iId x <= si_iId y
  end.
Proof.
  revert pBest. induction vList as [|x vList IH]; intros pBest Hp; cbn [best].
  - destruct pBest as [x|]; [|split; [done|]; intros y Hy; by apply elem_of_nil in Hy].
    split_and!; [by right|by apply Hp|]. intros y [Hy|[= ->]] _; [by apply elem_of_nil in Hy|lia].
  - assert (negb (named sName x) || negb (bytes_eqb (si_sZone x) sZone) = negb (bool_decide (in_zone sName sZone x))) as ->.
    { unfold named. rewrite <- negb_andb. f_equal. apply eq_true_iff_eq. rewrite andb_true_iff, !bytes_eqb_eq, bool_decide_eq_true. done. }
    case_bool_decide as Hz; cbn [negb].
    + set (p := match pBest with Some b => if si_iId x <? si_iId b then Some x else pBest | None => Some x end).
      assert (exists b, p = Some b /\ in_zone sName sZone b /\ (b = x \/ pBest = Some b) /\ si_iId b <= si_iId x /\ forall y, pBest = Some y -> si_iId b <= si_iId y) as (b & Eb & H1 & H2 & H3 & H4).
      { unfold p. destruct pBest as [b|]; [destruct (Z.ltb_spec (si_iId x) (si_iId b))|].
        - exists x. split_and!; [done..|by left|lia|]. intros y [= ->]. lia.
        - exists b. split_and!; [done|by apply Hp|by right|lia|]. intros y [= ->]. lia.
        - exists x. split_and!; [done..|by left|lia|done]. }
      specialize (IH p). rewrite Eb in *. specialize (IH ltac:(by intros y [= <-])). destruct (best _ _ _ _) as [r|]; [|by destruct IH].
      destruct IH as (I1 & I2 & I3). split_and!; [|done|].
      * destruct I1 as [|[= ->]]; [left; by right|]. destruct H2 as [->|]; [left; by left|by right].
      * intros y Hy Hin. specialize (I3 b ltac:(by right) H1) as Hb. destruct Hy as [[->|Hy]%elem_of_cons|Hy]; [lia|apply I3; auto|]. specialize (H4 y Hy). lia.
    + specialize (IH pBest Hp). destruct (best _ _ _ _) as [r|].
      * destruct IH as (I1 & I2 & I3). split_and!; [destruct I1; [left; by right|by right]|done|].
        intros y [[->|Hy]%elem_of_cons|Hy] Hin; [done|apply I3; auto..].
      * destruct IH as [I1 I2]. split; [done|]. intros y [->|Hy]%elem_of_cons; auto.
Qed.

(** What stands for a zone in the route. *)
Definition zone_slot (sName : list byte) (vList : list ServiceInstance) (sZone : list byte) (c : option O) : Prop :=
  match c with
  | None => forall y, y ∈ vList -> ~ in_zone sName sZone y
  | Some o => exists x, x ∈ vList /\ in_zone sName sZone x /\ address o = where_is x /\ forall y, y ∈ vList -> in_zone sName sZone y -> si_iId x <= si_iId y
  end.

Lemma add_zones_spec sName vZones vList r s r' s' b : add_zones sName vZones vList r s = (r', s', b) ->
  if b then exists cs, vClients r' = vClients r ++ cs /\ Forall2 (zone_slot sName vList) vZones cs else r' = mkRoute Busy [] [].
Proof.
  revert r s. induction vZones as [|z vZones IH]; intros r s; cbn [add_zones].
  - intros [= <- <- <-]. exists []. by rewrite app_nil_r.
  - pose proof (best_spec sName z vList None ltac:(done)) as Hb. destruct (best None sName z vList) as [x|].
    + unfold AddRouteClient. destruct (client_for (si_sIp x) (si_sPort x) s) as [s1 [o|]] eqn:Eo; [|by intros [= <- <- <-]].
      intros E. apply IH in E. destruct b; [|done]. destruct E as (cs & Ec & Hc). exists (Some o :: cs). cbn in Ec. rewrite <- app_assoc in Ec. split; [done|]. constructor; [|done].
      destruct Hb as (B1 & B2 & B3). exists x. split_and!; [by destruct B1|done|by eapply client_address|]. intros y Hy. apply B3. by left.
    + intros E. apply IH in E. destruct b; [|done]. destruct E as (cs & Ec & Hc). exists (None :: cs). cbn in Ec. rewrite <- app_assoc in Ec. split; [done|]. constructor; [|done].
      exact (proj2 Hb).
Qed.

(** A route over zones that is there has a slot for each. *)
Lemma zones_route own sName vZones d t0 t1 iCode vList iCursor s r iCursor' s' :
  await_resume sort (await_suspend own (Zones sName vZones) d t0) d t1 iCode vList iCursor s = (r, iCursor', s') -> iStatus r = Ok ->
  Forall2 (zone_slot sName vList) (map to_string vZones) (vClients r).
Proof.
  unfold await_suspend, PrepareZones, begin_pull. destruct (_ || _); [cbn; destruct (Expired d t1); by intros [= <- _ _]|].
  destruct (existsb _ _); [cbn; destruct (Expired d t1); by intros [= <- _ _]|]. destruct (Expired d t0); [cbn; destruct (Expired d t1); by intros [= <- _ _]|].
  cbn [await_resume]. destruct (_ || _); [by intros [= <- _ _]|]. destruct (iCode =? OI_ERR_BUSY); [by intros [= <- _ _]|].
  unfold FinishZones. destruct (negb _); [by intros [= <- _ _]|]. destruct (has_global _ _); [by intros [= <- _ _]|].
  destruct (add_zones _ _ _ _ _) as [[r1 s1] b] eqn:Ea. apply add_zones_spec in Ea. intros [= <- _ _]. destruct b; [|by subst].
  intros _. destruct Ea as (cs & Ec & Hc). cbn. by rewrite Ec.
Qed.

Context {Res : Type} (no_result : Res).

Lemma submit_all_spec b d i (l : list (option O)) vs : submit_all (Res := Res) b d i l = Some vs -> length vs = length l /\
  forall j c, l !! j = Some c -> exists v, vs !! j = Some v /\
    match c with None => v = inr OI_ERR_CONNECT | Some o => v = inl o /\ Expired d (nows b (i + j)) = false \/ v = inr OI_ERR_TIMEOUT /\ Expired d (nows b (i + j)) = true end.
Proof.
  revert i vs. induction l as [|c l IH]; intros i vs; cbn [submit_all]; [by intros [= <-]|].
  assert (forall x vs', option_map (cons x) (submit_all b d (Datatypes.S i) l) = Some vs' -> 
    match c with None => x = inr OI_ERR_CONNECT | Some o => x = inl o /\ Expired d (nows b i) = false \/ x = inr OI_ERR_TIMEOUT /\ Expired d (nows b i) = true end ->
    length vs' = length (c :: l) /\ forall j c', (c :: l) !! j = Some c' -> exists v, vs' !! j = Some v /\
    match c' with None => v = inr OI_ERR_CONNECT | Some o => v = inl o /\ Expired d (nows b (i + j)) = false \/ v = inr OI_ERR_TIMEOUT /\ Expired d (nows b (i + j)) = true end) as Hcons.
  { intros x vs' E Hx. destruct (submit_all b d (Datatypes.S i) l) as [vs1|] eqn:E1; [|done]. injection E as <-. destruct (IH _ _ E1) as [L H]. split; [cbn; lia|].
    intros [|j] c' Hj; [injection Hj as <-; exists x; by rewrite Nat.add_0_r|]. destruct (H j c' Hj) as (v & Hv & Hc). exists v. split; [done|].
    by rewrite <- Nat.add_succ_comm. }
  destruct c as [o|]; [destruct (Expired d (nows b i)) eqn:Ee; [|destruct (throws b i); [done|]]|]; intros E; apply (Hcons _ _ E); auto.
Qed.

Lemma await_all_lookup (b : batch (O := O)) i l j : await_all no_result b i l !! j = await_slot no_result b (i + j) <$> l !! j.
Proof.
  revert i j. induction l as [|c l IH]; intros i [|j]; cbn; try done; [by rewrite Nat.add_0_r|]. rewrite IH. by rewrite <- Nat.add_succ_comm.
Qed.

Lemma await_all_length (b : batch (O := O)) i l : length (await_all no_result b i l) = length l.
Proof. revert i. induction l as [|c l IH]; intros i; cbn; auto. Qed.

(** C26: a batch over zones has an answer for every zone asked for, repeated ones too:
    either all of them the code of what went wrong as a whole, or each its own: no
    connection if the list has no instance of the name in the zone, and otherwise the
    answer of the instance with the smallest id there, unless the time was up before it
    was called. *)
Theorem call_many_slots own sName vZones d t0 t1 iCode vList b iCursor s rs iCursor' s' :
  CallRouted sort no_result own (Zones sName vZones) d t0 t1 iCode vList b iCursor s = (Some rs, iCursor', s') ->
  length rs = length vZones /\
  ((exists i, i <> Ok /\ rs = replicate (length vZones) (RouteError i, no_result)) \/
   forall j z, vZones !! j = Some z -> exists c r, rs !! j = Some r /\ zone_slot sName vList (to_string z) c /\
     match c with
     | None => r = (OI_ERR_CONNECT, no_result)
     | Some o => r = if Expired d (nows b j) then (OI_ERR_TIMEOUT, no_result) else match answers b j o with Some r => r | None => (OI_ERR_FAIL, no_result) end
     end).
Proof.
  unfold CallRouted. destruct (await_resume _ _ _ _ _ _ _ _) as [[r c1] s1] eqn:Er. intros [= E <- <-].
  destruct (iStatus r) eqn:Es.
  2-6: unfold SendRouted in E; rewrite Es in E; injection E as <-; rewrite length_replicate; split; [done|left; exists (iStatus r); rewrite Es; done].
  assert (Forall2 (zone_slot sName vList) (map to_string vZones) (vClients r)) as HF by by eapply zones_route.
  unfold SendRouted in E. rewrite Es in E. destruct (submit_all _ _ _ _) as [vs|] eqn:Ev; [|done]. injection E as <-. destruct (submit_all_spec _ _ _ _ _ Ev) as [L H].
  pose proof (Forall2_length _ _ _ HF) as LF. rewrite length_map in LF. split; [rewrite await_all_length; lia|right].
  intros j z Hz. destruct (Forall2_lookup_l _ _ _ j (to_string z) HF) as (c & Hc & Hs); [by rewrite list_lookup_fmap, Hz|].
  destruct (H j c Hc) as (v & Hv & Hm). exists c. eexists. rewrite await_all_lookup, Hv. split_and!; [done|done|].
  destruct c as [o|]; [|by rewrite Hm]. cbn in Hm. destruct Hm as [[-> He]|[-> He]]; rewrite He; done.
Qed.

(** ** Routes by name, proved *)

Context (sort_perm : forall l, sort l ≡ₚ l) (sort_sorted : forall l, StronglySorted (fun x y => si_iId x <= si_iId y) (sort l)).

Definition addresses (r : ServiceRoute O) : list (option (list byte * list byte)) := map (option_map address) (vClients r).

Lemma add_all_spec r l s r' s' b : add_all r l s = (r', s', b) ->
  if b then addresses r' = addresses r ++ map (fun x => Some (where_is x)) l else r' = mkRoute Busy [] [].
Proof.
  revert r s. induction l as [|x l IH]; intros r s; cbn [add_all]; [intros [= <- <- <-]; by rewrite app_nil_r|].
  unfold AddRouteClient. destruct (client_for (si_sIp x) (si_sPort x) s) as [s1 [o|]] eqn:Eo; [|by intros [= <- <- <-]].
  intros E. apply IH in E. destruct b; [|done]. rewrite E. unfold addresses. cbn. rewrite map_app, <- app_assoc. cbn. by erewrite client_address.
Qed.

Lemma matched_in sName iPick sZone vList x : x ∈ matched sName iPick sZone vList <-> x ∈ vList /\ si_sName x = sName /\ (iPick = Zone -> si_sZone x = sZone).
Proof.
  unfold matched. rewrite !list_elem_of_In, filter_In, andb_true_iff, named_eq. destruct iPick; try (intuition congruence). rewrite bytes_eqb_eq. intuition.
Qed.

(** The instance a single call goes to. *)
Lemma add_one_ok x s r s' b i : AddRouteClient (new_route (O := O)) x s = (r, s', b) -> iStatus (if b then with_status Ok r else r) = i -> i = Ok ->
  addresses (if b then with_status Ok r else r) = [Some (where_is x)].
Proof.
  unfold AddRouteClient. destruct (client_for (si_sIp x) (si_sPort x) s) as [s1 [o|]] eqn:Eo; intros [= <- _ <-]; cbn; intros <-; [|done].
  intros _. unfold addresses. cbn. by erewrite client_address.
Qed.

(** C27: a route that is there leads to instances of the name (of the zone, when one
    is asked for) and no others: to all of them in the order of their ids, to one of them,
    or to the one with the smallest id in the zone; and the list does not mix instances
    with a zone and without. *)
Theorem route_goes_to_instances sName iPick sZone iCode vList iCursor s r iCursor' s' :
  FinishRoute sort sName iPick sZone iCode vList iCursor s = (r, iCursor', s') -> iStatus r = Ok ->
  (exists xs, addresses r = map (fun x => Some (where_is x)) xs /\
    (forall x, x ∈ xs -> x ∈ vList /\ si_sName x = sName /\ (iPick = Zone -> si_sZone x = sZone)) /\
    match iPick with
    | All => xs ≡ₚ List.filter (named sName) vList /\ StronglySorted (fun x y => si_iId x <= si_iId y) xs
    | Any => length xs = 1%nat
    | Zone => exists x, xs = [x] /\ forall y, y ∈ vList -> in_zone sName sZone y -> si_iId x <= si_iId y
    end) /\
  (forall x y, x ∈ vList -> y ∈ vList -> si_sName x = sName -> si_sName y = sName -> si_sZone x = [] -> si_sZone y = []).
Proof.
  unfold FinishRoute. destruct (negb _); [by intros [= <- _ _]|]. destruct (_ && _) eqn:Emix; [by intros [= <- _ _]|].
  destruct (match iPick with Zone => _ | _ => false end) eqn:Eg; [by intros [= <- _ _]|].
  destruct (matched sName iPick sZone vList) as [|x0 m] eqn:Em; [by intros [= <- _ _]|]. rewrite <- Em. intros E Es.
  assert (forall x, x ∈ sort (matched sName iPick sZone vList) -> x ∈ vList /\ si_sName x = sName /\ (iPick = Zone -> si_sZone x = sZone)) as Hin.
  { intros x Hx. rewrite sort_perm in Hx. by apply matched_in. }
  split.
  - revert E. destruct iPick.
    + destruct (if 1 <? _ then _ else _) as [i c1]. destruct (sort _ !! Z.to_nat i) as [x|] eqn:Ex; [|by intros [= <- _ _]].
      destruct (AddRouteClient new_route x s) as [[r1 s1] b] eqn:Ea. intros [= <- _ _]. exists [x]. split_and!; [by eapply add_one_ok| |done].
      intros y ->%list_elem_of_singleton. apply Hin. by eapply list_elem_of_lookup_2.
    + pose proof (sort_sorted (matched sName Zone sZone vList)) as Ho. destruct (sort (matched sName Zone sZone vList)) as [|x l] eqn:El; [cbn; by intros [= <- _ _]|].
      change (Z.to_nat 0) with 0%nat. cbn [lookup list_lookup]. destruct (AddRouteClient new_route x s) as [[r1 s1] b] eqn:Ea. intros [= <- _ _]. exists [x]. split_and!; [by eapply add_one_ok| |].
      * intros y ->%list_elem_of_singleton. apply Hin. by left.
      * exists x. split; [done|]. intros y Hy [N Z]. assert (y ∈ x :: l) as Hyl by (rewrite <- El, sort_perm; by apply matched_in).
        apply elem_of_cons in Hyl as [->|Hyl]; [lia|]. apply StronglySorted_inv in Ho as [_ Ho]. rewrite Forall_forall in Ho. by apply Ho.
    + destruct (add_all _ _ _) as [[r1 s1] b] eqn:Ea. intros [= <- _ _]. apply add_all_spec in Ea. destruct b; [|by subst].
      exists (sort (matched sName All sZone vList)). split_and!; [exact Ea|done| |apply sort_sorted]. rewrite sort_perm. unfold matched.
      rewrite (List.filter_ext _ (named sName)); [done|]. intros x. apply andb_true_r.
  - intros x y Hx Hy Nx Ny Zx. destruct (si_sZone y) eqn:Zy; [done|exfalso]. apply andb_false_iff in Emix as [F|F]; apply not_true_iff_false in F; apply F, existsb_exists.
    + exists x. split; [by apply list_elem_of_In|]. unfold zoned. rewrite Zx, andb_true_r. by apply named_eq.
    + exists y. split; [by apply list_elem_of_In|]. unfold zoned. rewrite Zy, andb_true_r. by apply named_eq.
Qed.

(** [n] routes without a zone to the same list, one after the other. *)
Fixpoint route_times (n : nat) (sName : list byte) (vList : list ServiceInstance) (iCursor : Z) (s : S) : list (ServiceRoute O) :=
  match n with
  | 0%nat => []
  | Datatypes.S n => let '(r, iCursor, s) := FinishRoute sort sName Any [] OI_OK vList iCursor s in r :: route_times n sName vList iCursor s
  end.

Lemma any_route sName vList iCursor s r iCursor' s' : 0 <= iCursor -> FinishRoute sort sName Any [] OI_OK vList iCursor s = (r, iCursor', s') -> iStatus r = Ok ->
  let m := List.filter (named sName) vList in (1 < length m)%nat ->
  iCursor' = u32 (iCursor + 1) /\ addresses r = [option_map where_is (sort m !! Z.to_nat (iCursor mod lenZ m))].
Proof.
  intros Hc. unfold FinishRoute. cbn [negb Z.eqb OI_OK]. destruct (_ && _); [by intros [= <- _ _]|].
  assert (matched sName Any [] vList = List.filter (named sName) vList) as -> by (apply List.filter_ext; intros; apply andb_true_r).
  destruct (List.filter (named sName) vList) as [|x0 m] eqn:Em; [by intros [= <- _ _]|]. rewrite <- Em. clear Em x0 m. cbv zeta. generalize (List.filter (named sName) vList) as m. intros m.
  intros E Es Hm. revert E Es. rewrite (proj2 (Z.ltb_lt 1 (lenZ m))) by (unfold lenZ; lia).
  destruct (sort m !! Z.to_nat (iCursor mod lenZ m)) as [x|] eqn:Ex; [|by intros [= <- _ _]].
  destruct (AddRouteClient new_route x s) as [[r1 s1] b] eqn:Ea. intros [= <- <- _] Es. split; [done|]. cbn. by eapply add_one_ok.
Qed.

Lemma route_times_picks n sName vList iCursor s : let m := List.filter (named sName) vList in
  0 <= iCursor -> iCursor + Z.of_nat n <= 2 ^ 32 -> (1 < length m)%nat -> Forall (fun r => iStatus r = Ok) (route_times n sName vList iCursor s) ->
  concat (map addresses (route_times n sName vList iCursor s)) = map (fun j => option_map where_is (sort m !! Z.to_nat ((iCursor + Z.of_nat j) mod lenZ m))) (seq 0 n).
Proof.
  intros m. revert iCursor s. induction n as [|n IH]; intros iCursor s Hc Hn Hm; cbn [route_times]; [done|].
  destruct (FinishRoute _ _ _ _ _ _ _ _) as [[r c1] s1] eqn:E. intros [Hr Hrs]%Forall_cons. destruct (any_route _ _ _ _ _ _ _ Hc E Hr Hm) as [-> Ha].
  cbn [map concat seq]. rewrite Ha. cbn [app]. replace (iCursor + Z.of_nat 0) with iCursor by lia. f_equal. rewrite <- seq_shift, map_map.
  destruct n as [|n]; [done|]. rewrite u32_small in * by lia. rewrite IH by (done || lia). apply map_ext. intros j.
  by replace (iCursor + 1 + Z.of_nat j) with (iCursor + Z.of_nat (Datatypes.S j)) by lia.
Qed.

(** Going round a list from any place meets every element once. *)
Lemma round_Permutation {A} (l : list A) c : 0 <= c -> (0 < length l)%nat -> map (fun j => l !! Z.to_nat ((c + Z.of_nat j) mod lenZ l)) (seq 0 (length l)) ≡ₚ map Some l.
Proof.
  intros Hc Hl. set (r := Z.to_nat (c mod lenZ l)). pose proof (Z.mod_pos_bound c (lenZ l) ltac:(unfold lenZ; lia)) as Hr.
  assert (r < length l)%nat as Hrl by (unfold r, lenZ in *; lia).
  transitivity (map Some (drop r l ++ take r l)); [|apply Permutation_map; rewrite <- (take_drop r l) at 3; apply Permutation_app_comm].
  erewrite list_eq; [reflexivity|intros i]. change map with (@fmap list _). rewrite !list_lookup_fmap.
  destruct (decide (i < length l)%nat) as [Hi|Hi].
  - rewrite lookup_seq_lt by done. cbn [fmap option_fmap option_map]. rewrite Nat.add_0_l.
    assert (Z.to_nat ((c + Z.of_nat i) mod lenZ l) = if decide (r + i < length l)%nat then r + i else r + i - length l)%nat as ->.
    { rewrite <- Z.add_mod_idemp_l by (unfold lenZ; lia). replace (c mod lenZ l) with (Z.of_nat r) by (unfold r; lia). unfold lenZ.
      destruct (decide _); [rewrite Z.mod_small by lia; lia|]. rewrite <- (Z.mod_unique_pos _ _ 1 (Z.of_nat (r + i - length l))); lia. }
    destruct (decide _) as [H|H].
    + rewrite lookup_app_l, lookup_drop by (rewrite length_drop; lia). destruct (l !! (r + i)%nat) eqn:E; [done|]. apply lookup_ge_None in E. lia.
    + rewrite lookup_app_r by (rewrite length_drop; lia). rewrite length_drop, lookup_take_lt by lia. replace (i - (length l - r))%nat with (r + i - length l)%nat by lia.
      destruct (l !! (r + i - length l)%nat) eqn:E; [done|]. apply lookup_ge_None in E. lia.
  - rewrite lookup_seq_ge by lia. rewrite lookup_ge_None_2; [done|]. rewrite length_app, length_drop, length_take. lia.
Qed.

(** As many calls without a zone as the list has instances of the name, one after
    the other, go to each of them once, wherever the cursor stands, unless it wraps
    around meanwhile. *)
Theorem round_robin sName vList iCursor s : let m := List.filter (named sName) vList in
  0 <= iCursor -> iCursor + lenZ m <= 2 ^ 32 -> (1 < length m)%nat ->
  Forall (fun r => iStatus r = Ok) (route_times (length m) sName vList iCursor s) ->
  concat (map addresses (route_times (length m) sName vList iCursor s)) ≡ₚ map (fun x => Some (where_is x)) m.
Proof.
  intros m Hc Hn Hm Hr. rewrite route_times_picks by done. fold m.
  assert (length m = length (sort m)) as Hl by by rewrite sort_perm.
  assert (lenZ m = lenZ (sort m)) as HL by (unfold lenZ; lia). rewrite HL, Hl, <- (map_map (fun j => sort m !! Z.to_nat ((iCursor + Z.of_nat j) mod lenZ (sort m))) (option_map where_is)).
  rewrite round_Permutation by lia. rewrite map_map. cbn. by rewrite sort_perm.
Qed.



End RouteProofs.

(** ** The pool as clients *)

(** ClientFor for a manager; a sender is the connection under its key. *)
#[export] Instance pool_clients (iMaxClients : Z) (pManager : option RoutePool.manager) : Clients RoutePool.state (RoutePool.key * Z) :=
  mkClients _ _
    (fun sIp sPort s =>
       let k := (sIp, sPort, RoutePool.RoutePolicy pManager) in
       let (s, i) := RoutePool.ClientFor iMaxClients k s in (s, option_map (pair k) i))
    (fun o => fst (fst o)).

#[export] Instance pool_clients_ok iMaxClients pManager : @ClientsOk _ _ (pool_clients iMaxClients pManager).
Proof. intros ip port s s' o. cbn. destruct (RoutePool.ClientFor _ _ s) as [s1 [i|]]; [|done]. by intros [= _ <-]. Qed.

(** ** Examples *)

Definition by_id (x y : ServiceInstance) : Prop := si_iId x <= si_iId y.
#[export] Instance by_id_dec x y : Decision (by_id x y) := decide (si_iId x <= si_iId y).
#[export] Instance by_id_trans : Transitive by_id.
Proof. unfold by_id. intros x y z. lia. Qed.
#[export] Instance by_id_total : Total by_id.
Proof. unfold by_id. intros x y. lia. Qed.
Definition sort_by_id : list ServiceInstance -> list ServiceInstance := merge_sort by_id.

Definition game : list byte := txt "game".
Definition listed : list ServiceInstance :=
  [mkInstance game 9 (txt "a") (txt "1") (txt "3"); mkInstance game 2 (txt "b") (txt "2") (txt "3"); mkInstance (txt "chat") 1 (txt "c") (txt "3") []].
Definition spread : list ServiceInstance := [mkInstance game 9 (txt "a") (txt "1") []; mkInstance game 2 (txt "b") (txt "2") []].
Definition pool0 : RoutePool.state := RoutePool.start 0 false.
Abbreviation pc := (pool_clients 8 None).
Definition answered : batch (O := RoutePool.key * Z) (Res := Z) := mkBatch (fun _ => 5) (fun _ => false) (fun j o => Some (OI_OK, Z.of_nat j)).

Example target_examples : map ParseTarget [txt "game"; txt "game.3"; txt "game.*"; txt "a.b.c"; txt ".*"; txt "game."] =
  [Some (mkTarget game [] false); Some (mkTarget game (txt "3") false); Some (mkTarget game [] true); None; None; None].
Proof. vm_compute. reflexivity. Qed.

Definition zone_route := FinishRoute (H := pc) sort_by_id game Zone (txt "3") OI_OK listed 0 pool0.

Lemma route_goes_to_instances_witness : exists xs, addresses (HC := pc) (fst (fst zone_route)) = map (fun x => Some (where_is x)) xs /\ exists x, xs = [x] /\ si_iId x <= 2.
Proof.
  destruct (route_goes_to_instances (HC := pc) sort_by_id (merge_sort_Permutation by_id) (StronglySorted_merge_sort by_id) game Zone (txt "3") OI_OK listed 0 pool0
    (fst (fst zone_route)) (snd (fst zone_route)) (snd zone_route)) as [(xs & Hx & _ & x & -> & Hm) _]; [unfold zone_route; by destruct (FinishRoute _ _ _ _ _ _ _ _) as [[]]|reflexivity|].
  exists [x]. split; [exact Hx|]. exists x. split; [done|]. apply (Hm (mkInstance game 2 (txt "b") (txt "2") (txt "3"))); [by right; left|done].
Defined.

Lemma round_robin_witness : concat (map (addresses (HC := pc)) (route_times (HC := pc) sort_by_id 2 game spread 7 pool0)) ≡ₚ [Some (txt "a", txt "1"); Some (txt "b", txt "2")].
Proof.
  apply (round_robin (HC := pc) sort_by_id (merge_sort_Permutation by_id) game spread 7 pool0); [lia|vm_compute; done|vm_compute; lia|vm_compute; repeat constructor].
Defined.

Definition batch_run := CallRouted (H := pc) sort_by_id 0 (fun _ => None) (Zones game [3; 4; 3]) 0 5 6 OI_OK listed answered 0 pool0.

Lemma call_many_slots_witness : exists rs, fst (fst batch_run) = Some rs /\ length rs = 3%nat.
Proof.
  destruct batch_run as [[[rs|] c] s] eqn:E; [|apply (f_equal (fun x => fst (fst x))) in E; vm_compute in E; discriminate E].
  exists rs. split; [done|]. by apply (call_many_slots (HC := pc) sort_by_id 0 (fun _ => None) game [3; 4; 3] 0 5 6 OI_OK listed answered 0 pool0 rs c s).
Defined.

End Route.
