(* ===== verification/Logd.v ===== *)
(** * The log server

    modules/logd: LogManager (src/log_manager.cpp), LogServerSession
    (src/log_server_session.cpp) and LogFileInstance (src/log_file_instance.cpp): frames
    come in on sessions, become lines, and are written by one thread for each level,
    within a budget of bytes not yet on disk; who does not fit waits in a queue.

    A step is one section under the backlog lock, under a level's cache lock, or one turn
    of the loop over a session's frames; sessions are worked on by the poll thread only
    and, when that has ended, by the thread that stops.  Titles ("12:09:08 ") have nine
    bytes; what a line's title is, is the step's.  A write that fails aborts the process;
    file handles and their rotation at midnight are left out, but not that it wakes the
    writer. *)

From Stdlib Require Import Strings.Byte.
From S2P Require Import Prelude.

Module Logd.

Definition LOG_FRAME_HEAD : Z := 4.
Definition LOG_FRAME_MAX : Z := 8 * 1024 * 1024.
Definition LOG_LEVEL_COUNT : Z := 5.
Definition TITLE : Z := 9.

(** AppendLogFrame. *)
Definition AppendLogFrame (iLevel : Z) (sText : list byte) : list byte :=
  le_encode 4 (u32 (1 + lenZ sText)) ++ byte_of_Z iLevel :: sText.

(** ReadLogFrameLen. *)
Definition ReadLogFrameLen (p : list byte) : Z := le_decode (take 4 p).

(** ** State *)

(** LogServerSession.  [reading]: the read event is on; [used]: iUsed of OnDataIn while it
    runs; [broken]: it has sent a frame of a forbidden size; [recv]: all bytes received;
    [taken]: the frames handled, with level and text. *)
Record session : Type := mkSession {
  buf : list byte;
  used : Z;
  m_bWaiting : bool;
  m_bShutdown : bool;
  closed : bool;
  reading : bool;
  broken : bool;
  recv : list byte;
  taken : list (Z * list byte)
}.

(** Where WriteLog of a LogFileInstance stands. *)
Inductive writer : Type :=
| Asleep
| Awake
| Writing (vWriting : list (list byte))
| Completing (iWrittenBytes : Z)
| Ended.

(** LogFileInstance; [out]: what is in the file. *)
Record inst : Type := mkInst { m_vLogs : list (list byte); m_bQuit : bool; m_bRotationPending : bool; at_ : writer; out : list (list byte) }.

(** What the thread of the sessions is doing: OnDataIn, with iFrames and whether it was
    called by ResumeWrite, or the end of ResumeWaiting. *)
Inductive loop : Type := Idle | Parse (sid : Z) (iFrames : Z) (bResume : bool) | Finish (sid : Z).

(** LogManager::Stop; the number is a level. *)
Inductive stop : Type := Serving | Draining | Checking | Dozing | Quitting (k : nat) | Joining (k : nat) | Stopped.

(** LogManager, the calls of ResumeOnLoop posted, the sessions, and where everybody is;
    [accepted]: source, level, title and text of every line taken in. *)
Record state : Type := mkState {
  m_iPendingBytes : Z;
  m_iPeakPendingBytes : Z;
  m_iPauseCount : Z;
  m_vWaitingSessions : list (Z * Z);
  m_pResumingSession : option Z;
  m_bResumePosted : bool;
  m_bStopping : bool;
  insts : list inst;
  sess : gmap Z session;
  posted : nat;
  poll : loop;
  main : stop;
  accepted : list (option Z * Z * list byte * list byte)
}.

Definition set_pending (n : Z) (s : state) : state :=
  mkState n (Z.max (m_iPeakPendingBytes s) n) (m_iPauseCount s) (m_vWaitingSessions s) (m_pResumingSession s) (m_bResumePosted s) (m_bStopping s) (insts s) (sess s) (posted s) (poll s) (main s) (accepted s).
Definition set_queue (c : Z) (w : list (Z * Z)) (r : option Z) (s : state) : state :=
  mkState (m_iPendingBytes s) (m_iPeakPendingBytes s) c w r (m_bResumePosted s) (m_bStopping s) (insts s) (sess s) (posted s) (poll s) (main s) (accepted s).
Definition set_post (b : bool) (n : nat) (s : state) : state :=
  mkState (m_iPendingBytes s) (m_iPeakPendingBytes s) (m_iPauseCount s) (m_vWaitingSessions s) (m_pResumingSession s) b (m_bStopping s) (insts s) (sess s) n (poll s) (main s) (accepted s).
Definition set_insts (l : list inst) (s : state) : state :=
  mkState (m_iPendingBytes s) (m_iPeakPendingBytes s) (m_iPauseCount s) (m_vWaitingSessions s) (m_pResumingSession s) (m_bResumePosted s) (m_bStopping s) l (sess s) (posted s) (poll s) (main s) (accepted s).
Definition set_sess (m : gmap Z session) (s : state) : state :=
  mkState (m_iPendingBytes s) (m_iPeakPendingBytes s) (m_iPauseCount s) (m_vWaitingSessions s) (m_pResumingSession s) (m_bResumePosted s) (m_bStopping s) (insts s) m (posted s) (poll s) (main s) (accepted s).
Definition set_poll (p : loop) (s : state) : state :=
  mkState (m_iPendingBytes s) (m_iPeakPendingBytes s) (m_iPauseCount s) (m_vWaitingSessions s) (m_pResumingSession s) (m_bResumePosted s) (m_bStopping s) (insts s) (sess s) (posted s) p (main s) (accepted s).
Definition set_main (b : bool) (p : stop) (s : state) : state :=
  mkState (m_iPendingBytes s) (m_iPeakPendingBytes s) (m_iPauseCount s) (m_vWaitingSessions s) (m_pResumingSession s) (m_bResumePosted s) b (insts s) (sess s) (posted s) (poll s) p (accepted s).
Definition log_accepted (x : option Z * Z * list byte * list byte) (s : state) : state :=
  mkState (m_iPendingBytes s) (m_iPeakPendingBytes s) (m_iPauseCount s) (m_vWaitingSessions s) (m_pResumingSession s) (m_bResumePosted s) (m_bStopping s) (insts s) (sess s) (posted s) (poll s) (main s) (accepted s ++ [x]).

Definition new_inst : inst := mkInst [] false true Awake [].    (* the first file is new *)
Definition new_session : session := mkSession [] 0 false false false true false [] [].
Definition start : state := mkState 0 0 0 [] None false false (replicate 5 new_inst) ∅ 0 Idle Serving [].

Definition upd (sid : Z) (f : session -> session) (s : state) : state :=
  match sess s !! sid with Some x => set_sess (<[sid := f x]> (sess s)) s | None => s end.

Section Limit.
Context (m_iMaxPendingBytes : Z).

(** ** The budget and the queue *)

Definition fits (n : Z) (s : state) : bool := n <=? u64 (m_iMaxPendingBytes - m_iPendingBytes s).

Definition ScheduleResume (s : state) : state :=
  match m_vWaitingSessions s, m_pResumingSession s with
  | (_, n) :: _, None => if negb (m_bStopping s) && negb (m_bResumePosted s) && fits n s then set_post true (S (posted s)) s else s
  | _, _ => s
  end.

(** LogServerSession::WaitForWrite. *)
Definition WaitForWrite (x : session) : session :=
  mkSession (buf x) (used x) true (m_bShutdown x) (closed x) (if m_bShutdown x then reading x else false) (broken x) (recv x) (taken x).

Definition QueueWaiter (sid iBytes : Z) (s : state) : state :=
  let c := if fits iBytes s then m_iPauseCount s else u64 (m_iPauseCount s + 1) in
  ScheduleResume (upd sid WaitForWrite (set_queue c (m_vWaitingSessions s ++ [(sid, iBytes)]) (m_pResumingSession s) s)).

(** LogFileInstance::Active: Signal of the cache's condition. *)
Definition wake (w : writer) : writer := match w with Asleep => Awake | _ => w end.

(** LogFileInstance::AddLog. *)
Definition AddLog (l : list byte) (x : inst) : inst :=
  mkInst (m_vLogs x ++ [l]) (m_bQuit x) (m_bRotationPending x) (match m_vLogs x with [] => wake (at_ x) | _ => at_ x end) (out x).

Definition resumes (src : option Z) (s : state) : bool :=
  match src, m_pResumingSession s with Some i, Some j => i =? j | _, _ => false end.

(** LogManager::WriteLog. *)
Definition WriteLog (iLevel : Z) (sTitle sText : list byte) (src : option Z) (s : state) : state * bool :=
  if (iLevel <? 0) || (LOG_LEVEL_COUNT <=? iLevel) || (u64 (m_iMaxPendingBytes - lenZ sTitle) <? lenZ sText) then (s, false)
  else
    let iBytes := lenZ sText + lenZ sTitle in
    let bQueue := match m_pResumingSession s, m_vWaitingSessions s with None, [] => false | _, _ => true end in
    if negb (fits iBytes s) || (bQueue && negb (resumes src s)) then
      (match src with Some sid => QueueWaiter sid iBytes s | None => s end, false)
    else
      match insts s !! Z.to_nat iLevel with
      | Some x =>
          (log_accepted (src, iLevel, sTitle, sText)
             (set_pending (m_iPendingBytes s + iBytes) (set_insts (<[Z.to_nat iLevel := AddLog (sTitle ++ sText) x]> (insts s)) s)), true)
      | None => (s, false)    (* m_mLogFileMap has every level *)
      end.

(** LogManager::CompleteWrite; Signal wakes Stop. *)
Definition CompleteWrite (iBytes : Z) (s : state) : state :=
  let s := set_pending (m_iPendingBytes s - iBytes) s in
  ScheduleResume (match main s with Dozing => set_main (m_bStopping s) Draining s | _ => s end).

(** ** Sessions *)

Definition receive (l : list byte) (x : session) : session :=
  mkSession (buf x ++ l) 0 (m_bWaiting x) (m_bShutdown x) (closed x) (reading x) (broken x) (recv x ++ l) (taken x).
Definition close (x : session) : session :=
  mkSession (buf x) (used x) (m_bWaiting x) (m_bShutdown x) true (reading x) (broken x) (recv x) (taken x).
(** PassiveClose(PARSER_ERR_PROTOCOL_SIZE). *)
Definition break (x : session) : session :=
  mkSession (buf x) (used x) (m_bWaiting x) (m_bShutdown x) true (reading x) true (recv x) (taken x).
Definition handled (n iLevel : Z) (sText : list byte) (x : session) : session :=
  mkSession (buf x) (used x + n) (m_bWaiting x) (m_bShutdown x) (closed x) (reading x) (broken x) (recv x) (taken x ++ [(iLevel, sText)]).
(** The Erase at the end of OnDataIn. *)
Definition erase (x : session) : session :=
  mkSession (drop (Z.to_nat (used x)) (buf x)) 0 (m_bWaiting x) (m_bShutdown x) (closed x) (reading x) (broken x) (recv x) (taken x).
(** The end of LogServerSession::ResumeWrite. *)
Definition resume_read (x : session) : session :=
  if negb (m_bWaiting x) && negb (m_bShutdown x) && negb (closed x) then
    mkSession (buf x) (used x) (m_bWaiting x) (m_bShutdown x) (closed x) true (broken x) (recv x) (taken x)
  else x.

(** OnDataIn is left, by its end ([f] erases) or by the return. *)
Definition leave (f : session -> session) (sid : Z) (bResume : bool) (s : state) : state :=
  let s := upd sid (fun x => if bResume then resume_read (f x) else f x) s in
  set_poll (if bResume then Finish sid else Idle) s.

(** One turn of the loop of LogServerSession::OnDataIn. *)
Definition OnDataIn (sTitle : list byte) (sid iFrames : Z) (bResume : bool) (s : state) : option state :=
  match sess s !! sid with
  | None => None
  | Some x =>
      let p := drop (Z.to_nat (used x)) (buf x) in
      if lenZ p <? LOG_FRAME_HEAD then Some (leave erase sid bResume s)
      else
        let iPayload := ReadLogFrameLen p in
        if (iPayload <? 1) || (LOG_FRAME_MAX <? iPayload) then Some (leave break sid bResume s)
        else if lenZ p <? LOG_FRAME_HEAD + iPayload then Some (leave erase sid bResume s)
        else if (0 <? used x) && ((1024 * 1024 <? used x + LOG_FRAME_HEAD + iPayload) || (1024 <=? iFrames)) then
          Some (leave erase sid bResume (QueueWaiter sid (iPayload - 1 + lenZ sTitle) s))    (* DeferWrite *)
        else
          let iLevel := byteZ (nth 4 p Byte.x00) in
          let sText := sub 5 (iPayload - 1) p in
          let (s, b) := if iLevel <? LOG_LEVEL_COUNT then WriteLog iLevel sTitle sText (Some sid) s else (s, true) in
          if b then Some (set_poll (Parse sid (iFrames + 1) bResume) (upd sid (handled (LOG_FRAME_HEAD + iPayload) iLevel sText) s))
          else Some (leave erase sid bResume s)
  end.

Definition resume (bShutdown : bool) (x : session) : session :=
  mkSession (buf x) 0 false bShutdown (closed x) (reading x) (broken x) (recv x) (taken x).

(** LogManager::ResumeWaiting up to OnDataIn. *)
Definition ResumeWaiting (bShutdown : bool) (s : state) : state :=
  let s := set_post false (posted s) s in
  match m_vWaitingSessions s with
  | [] => s
  | (sid, n) :: w =>
      if negb (fits n s) then s
      else set_poll (Parse sid 0 true) (upd sid (resume bShutdown) (set_queue (m_iPauseCount s) w (Some sid) s))
  end.

(** ** Threads *)

(** The thread of the sessions. *)
Definition turn (sTitle : list byte) (s : state) : option state :=
  match poll s with
  | Idle => None
  | Parse sid iFrames bResume => OnDataIn sTitle sid iFrames bResume s
  | Finish _ => Some (set_poll Idle (ScheduleResume (set_queue (m_iPauseCount s) (m_vWaitingSessions s) None s)))
  end.

(** LogFileInstance::WriteLog. *)
Definition write (k : nat) (s : state) : option state :=
  match insts s !! k with
  | None => None
  | Some x =>
      let go x := set_insts (<[k := x]> (insts s)) s in
      match at_ x with
      | Asleep | Ended => None
      | Awake =>
          match m_vLogs x with
          | [] =>
              if m_bQuit x then Some (go (mkInst [] true false Ended (out x)))
              else if m_bRotationPending x then Some (go (mkInst [] false false Awake (out x)))
              else Some (go (mkInst [] false false Asleep (out x)))
          | l => Some (go (mkInst [] (m_bQuit x) false (Writing l) (out x)))
          end
      | Writing l => Some (go (mkInst (m_vLogs x) (m_bQuit x) (m_bRotationPending x) (Completing (lenZ (concat l))) (out x ++ l)))
      | Completing n => Some (CompleteWrite n (go (mkInst (m_vLogs x) (m_bQuit x) (m_bRotationPending x) Awake (out x))))
      end
  end.

(** LogManager::Stop, LogFileInstance::StopWriteThread. *)
Definition stopping (s : state) : option state :=
  match main s with
  | Serving | Dozing | Stopped => None
  | Draining => match poll s with Idle => Some (ResumeWaiting true (set_main (m_bStopping s) Checking s)) | _ => None end
  | Checking =>
      match poll s with
      | Idle =>
          Some (set_main (m_bStopping s)
                  (match m_vWaitingSessions s with
                   | [] => Quitting 0
                   | (_, n) :: _ => if fits n s then Draining else Dozing
                   end) s)
      | _ => None
      end
  | Quitting k =>
      match insts s !! k with
      | Some x => Some (set_main (m_bStopping s) (Joining k) (set_insts (<[k := mkInst (m_vLogs x) true (m_bRotationPending x) (wake (at_ x)) (out x)]> (insts s)) s))
      | None => Some (set_main (m_bStopping s) Stopped s)
      end
  | Joining k =>
      match insts s !! k with
      | Some x => match at_ x with Ended => Some (set_main (m_bStopping s) (Quitting (S k)) s) | _ => None end
      | None => None
      end
  end.

Inductive event : Type :=
| Open (sid : Z)                                     (* a session comes *)
| Data (sid : Z) (l : list byte)                     (* SwapInBuff and OnDataIn *)
| Close (sid : Z)
| Local (iLevel : Z) (sTitle sText : list byte)      (* logd's own log, any thread *)
| ResumeOnLoop
| Rotate (k : nat)                                   (* OnCreateNewFile *)
| Turn (sTitle : list byte)
| Write (k : nat)
| Spurious (k : option nat)                          (* a writer's wait ends by itself, or Stop's *)
| StopBegin
| StopTurn.

Definition free (s : state) : bool := match poll s, main s with Idle, Serving => true | _, _ => false end.
Definition serving (s : state) : bool := match main s with Serving => true | _ => false end.

Definition do_event (e : event) (s : state) : option state :=
  match e with
  | Open sid => if free s then match sess s !! sid with None => Some (set_sess (<[sid := new_session]> (sess s)) s) | Some _ => None end else None
  | Data sid l =>
      if free s then
        match sess s !! sid with
        | Some x =>
            if closed x then None
            else
              let s := upd sid (receive l) s in
              Some (if m_bWaiting x then s else set_poll (Parse sid 0 false) s)
        | None => None
        end
      else None
  | Close sid => Some (upd sid close s)
  | Local iLevel sTitle sText => if serving s && (lenZ sTitle =? TITLE) then Some (fst (WriteLog iLevel sTitle sText None s)) else None
  | ResumeOnLoop => match posted s with S n => if free s then Some (ResumeWaiting false (set_post (m_bResumePosted s) n s)) else None | O => None end
  | Rotate k =>
      match insts s !! k with
      | Some x => if serving s then Some (set_insts (<[k := mkInst (m_vLogs x) (m_bQuit x) true (wake (at_ x)) (out x)]> (insts s)) s) else None
      | None => None
      end
  | Turn sTitle => if lenZ sTitle =? TITLE then turn sTitle s else None
  | Write k => write k s
  | Spurious None => match main s with Dozing => Some (set_main (m_bStopping s) Draining s) | _ => None end
  | Spurious (Some k) =>
      match insts s !! k with
      | Some x => match at_ x with Asleep => Some (set_insts (<[k := mkInst (m_vLogs x) (m_bQuit x) (m_bRotationPending x) Awake (out x)]> (insts s)) s) | _ => None end
      | None => None
      end
  | StopBegin => if free s then Some (set_main true Draining s) else None
  | StopTurn => stopping s
  end.

Fixpoint run (es : list event) (s : state) : option state :=
  match es with
  | [] => Some s
  | e :: es => match do_event e s with Some s => run es s | None => None end
  end.

(** ** Invariant *)

Fixpoint total (f : inst -> Z) (l : list inst) : Z := match l with [] => 0 | x :: l => f x + total f l end.

Lemma total_insert f l k x y : l !! k = Some x -> total f (<[k := y]> l) = total f l + f y - f x.
Proof.
  revert k. induction l as [|z l IH]; intros [|k]; try done; [cbn; intros [= ->]; lia|]. intros E. specialize (IH k E). change (<[S k := y]> (z :: l)) with (z :: <[k := y]> l). cbn [total]. lia.
Qed.

(** What a level has not yet given back of the budget. *)
Definition owed (x : inst) : Z :=
  lenZ (concat (m_vLogs x)) + match at_ x with Writing l => lenZ (concat l) | Completing n => n | _ => 0 end.

Definition inst_ok (x : inst) : Prop :=
  match at_ x with
  | Asleep => m_vLogs x = [] /\ m_bQuit x = false /\ m_bRotationPending x = false
  | Ended => m_vLogs x = [] /\ m_bQuit x = true
  | Completing n => 0 <= n
  | _ => True
  end.

(** How far Stop is with level [k]. *)
Definition quit_ok (m : stop) (k : nat) (x : inst) : Prop :=
  match m with
  | Quitting j => if (k <? j)%nat then at_ x = Ended else m_bQuit x = false
  | Joining j => if (k <? j)%nat then at_ x = Ended else m_bQuit x = (k =? j)%nat
  | Stopped => at_ x = Ended
  | _ => m_bQuit x = false
  end.

Record insts_inv (s : state) : Prop := mkInsts {
  n_len : length (insts s) = 5%nat;
  n_pending : m_iPendingBytes s = total owed (insts s) /\ total owed (insts s) <= m_iMaxPendingBytes;
  n_ok : forall k x, insts s !! k = Some x -> inst_ok x /\ quit_ok (main s) k x
}.

(** A frame is whole, and its line has [n] bytes; or it is not. *)
Definition first_frame (p : list byte) (n : Z) : Prop :=
  LOG_FRAME_HEAD <= lenZ p /\ 1 <= ReadLogFrameLen p <= LOG_FRAME_MAX /\ LOG_FRAME_HEAD + ReadLogFrameLen p <= lenZ p /\ n = ReadLogFrameLen p - 1 + TITLE.
Definition short (p : list byte) : Prop :=
  lenZ p < LOG_FRAME_HEAD \/ (1 <= ReadLogFrameLen p <= LOG_FRAME_MAX /\ lenZ p < LOG_FRAME_HEAD + ReadLogFrameLen p).
Definition rest (x : session) : list byte := drop (Z.to_nat (used x)) (buf x).

Definition parsing (sid : Z) (s : state) : Prop := match poll s with Parse i _ _ => i = sid | _ => False end.

Definition parse_ok (s : state) (sid iFrames : Z) (bResume : bool) (x : session) : Prop :=
  m_bWaiting x = false /\ broken x = false /\ 0 <= used x <= lenZ (buf x) /\ 0 <= iFrames /\ (iFrames = 0 <-> used x = 0) /\
  (bResume = true -> iFrames = 0 -> exists n, first_frame (rest x) n /\ fits n s = true).

Record sess_inv (s : state) : Prop := mkSess {
  e_nodup : NoDup (map fst (m_vWaitingSessions s));
  e_waits : forall sid n, (sid, n) ∈ m_vWaitingSessions s -> exists x, sess s !! sid = Some x /\ broken x = false /\ used x = 0 /\ first_frame (buf x) n;
  e_flag : forall sid x, sess s !! sid = Some x -> (m_bWaiting x = true <-> sid ∈ map fst (m_vWaitingSessions s));
  e_resuming : m_pResumingSession s = match poll s with Parse sid _ true | Finish sid => Some sid | _ => None end;
  e_parse : match poll s with Parse sid f r => exists x, sess s !! sid = Some x /\ parse_ok s sid f r x | Finish sid => is_Some (sess s !! sid) | Idle => True end;
  e_rest : forall sid x, sess s !! sid = Some x -> broken x = false -> m_bWaiting x = false -> ~ parsing sid s -> used x = 0 /\ short (buf x);
  e_closed : forall sid x, sess s !! sid = Some x -> broken x = true -> closed x = true
}.

Record ctl_inv (s : state) : Prop := mkCtl {
  c_posted : m_bStopping s = false -> posted s = if m_bResumePosted s then 1%nat else 0%nat;
  c_stopping : m_bStopping s = negb (serving s);
  c_poll : poll s <> Idle -> main s = Serving \/ main s = Checking;
  c_drained : match main s with Quitting _ | Joining _ | Stopped => m_vWaitingSessions s = [] | Dozing => match m_vWaitingSessions s with (_, n) :: _ => fits n s = false | [] => False end | _ => True end
}.

(** The first who waits and fits is to be resumed. *)
Definition sched_ok (s : state) : Prop :=
  m_bStopping s = false -> m_pResumingSession s = None ->
  match m_vWaitingSessions s with (_, n) :: _ => fits n s = true -> m_bResumePosted s = true | [] => True end.

Record inv (s : state) : Prop := mkInv { v_insts : insts_inv s; v_sess : sess_inv s; v_ctl : ctl_inv s; v_sched : sched_ok s }.

Context (Hmax : LOG_FRAME_MAX + 8 <= m_iMaxPendingBytes < 2 ^ 64).

Lemma owed_nonneg x : inst_ok x -> 0 <= owed x.
Proof. unfold owed, inst_ok, lenZ. destruct (at_ x); lia. Qed.

Lemma total_nonneg l : (forall k x, l !! k = Some x -> inst_ok x) -> 0 <= total owed l.
Proof.
  induction l as [|x l IH]; intros H; cbn; [lia|]. pose proof (owed_nonneg x (H 0%nat x eq_refl)). specialize (IH (fun k y E => H (S k) y E)). lia.
Qed.

Lemma pending_range s : insts_inv s -> 0 <= m_iPendingBytes s <= m_iMaxPendingBytes.
Proof.
  intros [_ [H1 H2] H3]. rewrite H1. split; [|done]. apply total_nonneg. intros k x E. by apply (H3 k x E).
Qed.

Lemma fits_iff n s : insts_inv s -> fits n s = true <-> n + m_iPendingBytes s <= m_iMaxPendingBytes.
Proof. intros H%pending_range. unfold fits. rewrite u64_small by lia. rewrite Z.leb_le. lia. Qed.

(** ** Scheduling *)

Lemma schedule_cases (P : state -> Prop) s : P s -> P (set_post true (S (posted s)) s) -> P (ScheduleResume s).
Proof. intros H1 H2. unfold ScheduleResume. destruct (m_vWaitingSessions s) as [|[sid n] w], (m_pResumingSession s); try done. by destruct (_ && _). Qed.

Lemma schedule_insts s : insts_inv s -> insts_inv (ScheduleResume s).
Proof. intros H. apply schedule_cases; [done|]. destruct H. by split. Qed.

Lemma schedule_sess s : sess_inv s -> sess_inv (ScheduleResume s).
Proof. intros H. apply schedule_cases; [done|]. destruct H. by split. Qed.

Lemma schedule_ctl s : ctl_inv s -> ctl_inv (ScheduleResume s).
Proof.
  intros [C1 C2 C3 C4]. unfold ScheduleResume. destruct (m_vWaitingSessions s) as [|[sid n] w] eqn:Ew, (m_pResumingSession s); try by (split; rewrite ?Ew).
  destruct (_ && _) eqn:E; [|by (split; rewrite ?Ew)]. apply andb_true_iff in E as [E _]. apply andb_true_iff in E as [_ E%negb_true_iff].
  split; cbn; rewrite ?Ew; try done. intros H. rewrite (C1 H), E. done.
Qed.

Lemma schedule_sched s : sched_ok (ScheduleResume s).
Proof.
  unfold ScheduleResume, sched_ok. destruct (m_vWaitingSessions s) as [|[sid n] w] eqn:Ew; [by rewrite Ew|]. destruct (m_pResumingSession s) eqn:Er; [by rewrite Er|].
  destruct (_ && _) eqn:E; cbn; rewrite Ew; [done|]. intros H1 _ H2. unfold fits in *. cbn in *. rewrite H1, H2 in E. cbn in E. rewrite andb_true_r in E. by apply negb_false_iff in E.
Qed.

Lemma schedule_inv s : insts_inv s -> sess_inv s -> ctl_inv s -> inv (ScheduleResume s).
Proof. intros. split; [by apply schedule_insts|by apply schedule_sess|by apply schedule_ctl|apply schedule_sched]. Qed.

(** ** The end of OnDataIn *)

Lemma upd_some sid f s x : sess s !! sid = Some x -> upd sid f s = set_sess (<[sid := f x]> (sess s)) s.
Proof. unfold upd. by intros ->. Qed.

Lemma leave_insts f sid r s : insts_inv s -> insts_inv (leave f sid r s).
Proof. intros [H1 H2 H3]. unfold leave, upd. destruct (sess s !! sid); by split. Qed.

Lemma leave_sched f sid r s : sched_ok s -> sched_ok (leave f sid r s).
Proof. unfold leave, upd, sched_ok. by destruct (sess s !! sid). Qed.

Lemma leave_ctl f sid r s : ctl_inv s -> poll s <> Idle -> ctl_inv (leave f sid r s).
Proof. intros [C1 C2 C3 C4] Hp. unfold leave, upd. destruct (sess s !! sid); split; cbn; auto. Qed.

Lemma leave_post f sid r b n s : leave f sid r (set_post b n s) = set_post b n (leave f sid r s).
Proof. unfold leave, upd. cbn. by destruct (sess s !! sid). Qed.

Lemma post_sess b n s : sess_inv s -> sess_inv (set_post b n s).
Proof. intros H. destruct H. by split. Qed.

Lemma resume_read_fields x : closed (resume_read x) = closed x /\ buf (resume_read x) = buf x /\ used (resume_read x) = used x /\ m_bWaiting (resume_read x) = m_bWaiting x /\ broken (resume_read x) = broken x /\
  recv (resume_read x) = recv x /\ taken (resume_read x) = taken x.
Proof. unfold resume_read. by destruct (_ && _). Qed.

(** Leaving, when the session is in order afterwards. *)
Lemma leave_sess f sid r s x fr : sess_inv s -> poll s = Parse sid fr r -> sess s !! sid = Some x -> m_bWaiting (f x) = m_bWaiting x ->
  (broken (f x) = false -> used (f x) = 0 /\ short (buf (f x))) -> (broken (f x) = true -> closed (f x) = true) -> sess_inv (leave f sid r s).
Proof.
  intros [E1 E2 E3 E4 E5 E6 E7] Ep Es Hw Hs Hc. rewrite Ep in *. destruct E5 as (x1 & Es1 & Hx). rewrite Es in Es1. injection Es1 as <-. destruct Hx as (Hx & _).
  set (y := if r then resume_read (f x) else f x).
  assert (m_bWaiting y = false /\ (broken y = false -> used y = 0 /\ short (buf y))) as [Y1 Y2].
  { unfold y. destruct r; [|by rewrite Hw]. destruct (resume_read_fields (f x)) as (_ & -> & -> & -> & -> & _). by rewrite Hw. }
  assert (broken y = true -> closed y = true) as Y3 by (unfold y; destruct r; [destruct (resume_read_fields (f x)) as (-> & _ & _ & _ & -> & _)|]; done).
  unfold leave. rewrite (upd_some _ _ _ _ Es). cbv beta. fold y. split; cbn; try done.
  - intros i n Hin. destruct (E2 i n Hin) as (z & Ez & Hz). destruct (decide (sid = i)) as [<-|Hn]; [|exists z; by rewrite lookup_insert_ne].
    rewrite Es in Ez. injection Ez as <-. assert (sid ∈ map fst (m_vWaitingSessions s)) as H by (apply list_elem_of_fmap; by exists (sid, n)). apply (E3 sid x Es) in H. congruence.
  - intros i z Ez. destruct (decide (sid = i)) as [<-|Hn]; [|rewrite lookup_insert_ne in Ez by done; by apply E3].
    rewrite lookup_insert_eq in Ez. injection Ez as <-. rewrite Y1, <- (E3 sid x Es), Hx. done.
  - by destruct r.
  - destruct r; [rewrite lookup_insert_eq; by eexists|done].
  - intros i z Ez Hb Hz _. destruct (decide (sid = i)) as [<-|Hn]; [rewrite lookup_insert_eq in Ez; injection Ez as <-; auto|].
    rewrite lookup_insert_ne in Ez by done. apply (E6 i z Ez Hb Hz). unfold parsing. by rewrite Ep.
  - intros i z Ez Hb. destruct (decide (sid = i)) as [<-|Hn]; [rewrite lookup_insert_eq in Ez; injection Ez as <-; auto|].
    rewrite lookup_insert_ne in Ez by done. by apply (E7 i).
Qed.

Lemma leave_inv f sid r s x fr : inv s -> poll s = Parse sid fr r -> sess s !! sid = Some x -> m_bWaiting (f x) = m_bWaiting x ->
  (broken (f x) = false -> used (f x) = 0 /\ short (buf (f x))) -> (broken (f x) = true -> closed (f x) = true) -> inv (leave f sid r s).
Proof.
  intros [I1 I2 I3 I4] Ep Es Hw Hs Hc. split; [by apply leave_insts|by eapply leave_sess|apply leave_ctl; [done|by rewrite Ep]|by apply leave_sched].
Qed.

(** ** Waiting *)

Lemma queue_leave_inv sid r s x fr n : inv s -> poll s = Parse sid fr r -> sess s !! sid = Some x -> first_frame (rest x) n -> inv (leave erase sid r (QueueWaiter sid n s)).
Proof.
  intros [I1 I2 I3 I4] Ep Es Hf. unfold QueueWaiter. generalize (if fits n s then m_iPauseCount s else u64 (m_iPauseCount s + 1)) as c. intros c.
  set (t := upd sid WaitForWrite _).
  assert (t = set_sess (<[sid := WaitForWrite x]> (sess s)) (set_queue c (m_vWaitingSessions s ++ [(sid, n)]) (m_pResumingSession s) s)) as Et by exact (upd_some sid WaitForWrite (set_queue c _ _ s) x Es).
  pose proof I2 as [E1 E2 E3 E4 E5 E6 E7]. rewrite Ep in *. destruct E5 as (x1 & Es1 & Hx). rewrite Es in Es1. injection Es1 as <-. destruct Hx as (Hx & Hb & _).
  assert (sid ∉ map fst (m_vWaitingSessions s)) as Hnot by (rewrite <- (E3 sid x Es), Hx; done).
  split.
  - apply leave_insts, schedule_insts. rewrite Et. by destruct I1.
  - set (y := if r then resume_read (erase (WaitForWrite x)) else erase (WaitForWrite x)).
    assert (m_bWaiting y = true /\ used y = 0 /\ buf y = rest x /\ broken y = false) as (Y1 & Y2 & Y3 & Y4).
    { unfold y. destruct r; [|done]. by destruct (resume_read_fields (erase (WaitForWrite x))) as (_ & -> & -> & -> & -> & _). }
    assert (sess_inv (leave erase sid r t)) as H; [|apply schedule_cases; [done|rewrite leave_post; by apply post_sess]].
    assert (leave erase sid r t = set_poll (if r then Finish sid else Idle) (set_sess (<[sid := y]> (sess s)) t)) as ->.
    { unfold leave. rewrite (upd_some sid _ t (WaitForWrite x)) by (rewrite Et; cbn; apply lookup_insert_eq). rewrite Et. cbn. by rewrite insert_insert_eq. }
    rewrite Et. split; cbn.
    + rewrite map_app. cbn. apply NoDup_app. split_and!; [done| |apply NoDup_singleton]. intros z Hz ->%list_elem_of_singleton. done.
    + intros i m [Hin|[= -> ->]%list_elem_of_singleton]%elem_of_app.
      * destruct (E2 i m Hin) as (z & Ez & Hz). exists z. rewrite lookup_insert_ne; [done|]. intros <-. apply Hnot. apply list_elem_of_fmap. by exists (sid, m).
      * exists y. rewrite lookup_insert_eq. by rewrite Y2, Y3, Y4.
    + intros i z Ez. rewrite map_app, elem_of_app. destruct (decide (sid = i)) as [<-|Hn].
      * rewrite lookup_insert_eq in Ez. injection Ez as <-. rewrite Y1. split; [|done]. intros _. right. by left.
      * rewrite lookup_insert_ne in Ez by done. rewrite (E3 i z Ez). cbn. split; [by left|]. intros [|Hi%list_elem_of_singleton]; [done|congruence].
    + by destruct r.
    + destruct r; [rewrite lookup_insert_eq; by eexists|done].
    + intros i z Ez Hzb Hz _. destruct (decide (sid = i)) as [<-|Hn]; [rewrite lookup_insert_eq in Ez; injection Ez as <-; congruence|].
      rewrite lookup_insert_ne in Ez by done. apply (E6 i z Ez Hzb Hz). unfold parsing. by rewrite Ep.
    + intros i z Ez Hzb. destruct (decide (sid = i)) as [<-|Hn]; [rewrite lookup_insert_eq in Ez; injection Ez as <-; congruence|].
      rewrite lookup_insert_ne in Ez by done. by apply (E7 i).
  - assert (main s = Serving \/ main s = Checking) as Hm by (apply I3; by rewrite Ep).
    apply leave_ctl; [|apply (schedule_cases (fun u => poll u <> Idle)); rewrite Et; cbn; by rewrite Ep]. apply schedule_ctl. rewrite Et. destruct I3 as [C1 C2 C3 C4]. split; cbn; auto.
    destruct Hm as [-> | ->]; done.
  - apply leave_sched, schedule_sched.
Qed.

(** ** A line is taken in *)

Definition accept (src : option Z) (iLevel : Z) (sTitle sText : list byte) (x : inst) (s : state) : state :=
  log_accepted (src, iLevel, sTitle, sText)
    (set_pending (m_iPendingBytes s + (lenZ sText + lenZ sTitle)) (set_insts (<[Z.to_nat iLevel := AddLog (sTitle ++ sText) x]> (insts s)) s)).

Lemma insts_upd s k x y m n : insts_inv s -> insts s !! k = Some x -> main s = m -> inst_ok y -> quit_ok m k y ->
  n = m_iPendingBytes s + owed y - owed x -> n <= m_iMaxPendingBytes ->
  forall s', insts s' = <[k := y]> (insts s) -> m_iPendingBytes s' = n -> main s' = m -> insts_inv s'.
Proof.
  intros [N1 [N2 N2'] N3] E Em Hy Hq Hn Hle s' Ei En Em'. split.
  - by rewrite Ei, length_insert.
  - rewrite Ei, En, (total_insert owed _ k x y E). lia.
  - intros j z Ez. rewrite Ei in Ez. rewrite Em'. destruct (decide (k = j)) as [<-|Hne].
    + rewrite list_lookup_insert_eq in Ez by (by eapply lookup_lt_Some). by injection Ez as <-.
    + rewrite list_lookup_insert_ne in Ez by done. rewrite <- Em. by apply N3.
Qed.

Lemma accept_insts src iLevel sTitle sText x s : insts_inv s -> main s = Serving \/ main s = Checking -> insts s !! Z.to_nat iLevel = Some x ->
  lenZ sText + lenZ sTitle + m_iPendingBytes s <= m_iMaxPendingBytes -> insts_inv (accept src iLevel sTitle sText x s).
Proof.
  intros I Hm E Hn. destruct (n_ok s I _ _ E) as [Ho Hq].
  assert (m_bQuit x = false) as Hqf by (destruct Hm as [Hm|Hm]; rewrite Hm in Hq; done).
  apply (insts_upd s (Z.to_nat iLevel) x (AddLog (sTitle ++ sText) x) (main s) (m_iPendingBytes s + (lenZ sText + lenZ sTitle)) I E); try done; [..|lia].
  - unfold inst_ok in *. cbn. destruct (at_ x) eqn:Ea, (m_vLogs x) eqn:El; cbn; try done; destruct Ho; congruence.
  - destruct Hm as [Hm|Hm]; rewrite Hm; exact Hqf.
  - unfold owed. cbn [m_vLogs AddLog at_]. rewrite concat_app, lenZ_app. cbn [concat]. rewrite app_nil_r, lenZ_app.
    assert (forall y, match wake y with Writing l => lenZ (concat l) | Completing n => n | _ => 0 end = match y with Writing l => lenZ (concat l) | Completing n => n | _ => 0 end) as Hw by by intros [].
    destruct (m_vLogs x); rewrite ?Hw; lia.
Qed.

Lemma level_inst iLevel s : insts_inv s -> 0 <= iLevel < LOG_LEVEL_COUNT -> exists x, insts s !! Z.to_nat iLevel = Some x.
Proof. intros [N1 _ _] H. unfold LOG_LEVEL_COUNT in H. destruct (insts s !! Z.to_nat iLevel) eqn:E; [eauto|]. apply lookup_ge_None in E. lia. Qed.

(** WriteLog, case by case. *)
Lemma WriteLog_cases iLevel sTitle sText src s : insts_inv s -> 0 <= iLevel < LOG_LEVEL_COUNT -> lenZ sTitle = TITLE -> lenZ sText + lenZ sTitle <= m_iMaxPendingBytes ->
  let n := lenZ sText + lenZ sTitle in
  (WriteLog iLevel sTitle sText src s = (match src with Some sid => QueueWaiter sid n s | None => s end, false) /\
   (fits n s = false \/ (resumes src s = false /\ (m_pResumingSession s <> None \/ m_vWaitingSessions s <> [])))) \/
  exists x, insts s !! Z.to_nat iLevel = Some x /\ fits n s = true /\ WriteLog iLevel sTitle sText src s = (accept src iLevel sTitle sText x s, true) /\
   (resumes src s = false -> m_pResumingSession s = None /\ m_vWaitingSessions s = []).
Proof.
  intros I Hl Ht Hx n. pose proof (lenZ_nonneg sText). unfold WriteLog. rewrite (proj2 (Z.ltb_ge iLevel 0)), (proj2 (Z.leb_gt LOG_LEVEL_COUNT iLevel)) by lia. unfold TITLE, LOG_FRAME_MAX in *. rewrite Ht, u64_small by lia.
  rewrite (proj2 (Z.ltb_ge _ _)) by lia. cbn [orb]. rewrite <- Ht. fold n. destruct (level_inst iLevel s I Hl) as [x E]. rewrite E.
  destruct (fits n s); cbn [negb orb]; [|by left; split; [|left]]. destruct (resumes src s); cbn [negb].
  - rewrite andb_false_r. right. exists x. by split_and!.
  - rewrite andb_true_r. destruct (m_pResumingSession s), (m_vWaitingSessions s); try (left; split; [done|right; split; [done|]]; [by left + by right]).
    right. exists x. by split_and!.
Qed.

Lemma accept_ctl src iLevel sTitle sText x s : ctl_inv s -> main s = Serving \/ main s = Checking -> ctl_inv (accept src iLevel sTitle sText x s).
Proof. intros [C1 C2 C3 C4] Hm. split; cbn; try done. by destruct Hm as [-> | ->]. Qed.

Lemma accept_sched src iLevel sTitle sText x s : insts_inv s -> insts_inv (accept src iLevel sTitle sText x s) -> sched_ok s -> sched_ok (accept src iLevel sTitle sText x s).
Proof.
  intros I I' H H1 H2. specialize (H H1 H2). cbn. destruct (m_vWaitingSessions s) as [|[sid n] w]; [done|]. rewrite (fits_iff _ _ I'). rewrite (fits_iff _ _ I) in H. cbn.
  intros Hn. apply H. pose proof (lenZ_nonneg sText). pose proof (lenZ_nonneg sTitle). lia.
Qed.

(** ** A turn of OnDataIn *)

Lemma rest_length x : 0 <= used x <= lenZ (buf x) -> lenZ (rest x) = lenZ (buf x) - used x.
Proof. intros H. unfold rest, lenZ in *. rewrite length_drop. lia. Qed.

Lemma handled_inv sid fr r s t x n iLevel sText : inv s -> poll s = Parse sid fr r -> sess s !! sid = Some x -> 5 <= n <= lenZ (rest x) ->
  sess t = sess s -> m_vWaitingSessions t = m_vWaitingSessions s -> m_pResumingSession t = m_pResumingSession s -> poll t = poll s ->
  insts_inv t -> ctl_inv t -> sched_ok t ->
  inv (set_poll (Parse sid (fr + 1) r) (upd sid (handled n iLevel sText) t)).
Proof.
  intros [I1 I2 I3 I4] Ep Es Hn Ts Tw Tr Tp J1 J3 J4. pose proof I2 as [E1 E2 E3 E4 E5 E6 E7]. rewrite Ep in *. destruct E5 as (x1 & Es1 & Hx). rewrite Es in Es1. injection Es1 as <-.
  destruct Hx as (H1 & H2 & H3 & H4 & H5 & H6). rewrite rest_length in Hn by done.
  rewrite (upd_some sid _ t x) by by rewrite Ts.
  split.
  - by destruct J1.
  - split; cbn; rewrite ?Tw, ?Tr, ?Ts; try done.
    + intros i m Hin. destruct (E2 i m Hin) as (z & Ez & Hz). destruct (decide (sid = i)) as [<-|Hne]; [|exists z; by rewrite lookup_insert_ne].
      rewrite Es in Ez. injection Ez as <-. assert (sid ∈ map fst (m_vWaitingSessions s)) as H by (apply list_elem_of_fmap; by exists (sid, m)). apply (E3 sid x Es) in H. congruence.
    + intros i z Ez. destruct (decide (sid = i)) as [<-|Hne]; [|rewrite lookup_insert_ne in Ez by done; by apply E3].
      rewrite lookup_insert_eq in Ez. injection Ez as <-. cbn. by apply E3.
    + exists (handled n iLevel sText x). rewrite lookup_insert_eq. split; [done|]. unfold parse_ok. cbn. split_and!; try done; lia.
    + intros i z Ez Hb Hz Hp. destruct (decide (sid = i)) as [<-|Hne]; [by destruct Hp|]. rewrite lookup_insert_ne in Ez by done. apply (E6 i z Ez Hb Hz). unfold parsing. by rewrite Ep.
    + intros i z Ez Hb. destruct (decide (sid = i)) as [<-|Hne]; [rewrite lookup_insert_eq in Ez; injection Ez as <-; cbn in *; congruence|].
      rewrite lookup_insert_ne in Ez by done. by apply (E7 i).
  - destruct J3 as [C1 C2 C3 C4]. split; cbn; try done. intros _. apply C3. by rewrite Tp.
  - exact J4.
Qed.

Lemma first_frame_text p (sTitle : list byte) : first_frame p (ReadLogFrameLen p - 1 + TITLE) -> lenZ sTitle = TITLE -> lenZ (sub 5 (ReadLogFrameLen p - 1) p) + lenZ sTitle = ReadLogFrameLen p - 1 + TITLE.
Proof. intros (H1 & H2 & H3 & _) ->. unfold LOG_FRAME_HEAD in *. rewrite lenZ_sub by lia. lia. Qed.

Lemma OnDataIn_inv sTitle sid fr r s s' : inv s -> poll s = Parse sid fr r -> lenZ sTitle = TITLE -> OnDataIn sTitle sid fr r s = Some s' -> inv s'.
Proof.
  intros I Ep Ht. pose proof I as [I1 I2 I3 I4]. pose proof (e_parse s I2) as P. rewrite Ep in P. destruct P as (x & Es & Hx). pose proof Hx as (H1 & H2 & H3 & H4 & H5 & H6).
  assert (main s = Serving \/ main s = Checking) as Hm by (apply I3; by rewrite Ep).
  unfold OnDataIn. rewrite Es. fold (rest x). destruct (Z.ltb_spec (lenZ (rest x)) LOG_FRAME_HEAD) as [Hh|Hh].
  { intros [= <-]. apply (leave_inv _ _ _ _ x fr); try done; [|cbn; congruence]. intros _. split; [done|by left]. }
  destruct ((_ <? 1) || _) eqn:Esz.
  { intros [= <-]. by apply (leave_inv _ _ _ _ x fr). }
  apply orb_false_iff in Esz as [Ez1%Z.ltb_ge Ez2%Z.ltb_ge]. destruct (Z.ltb_spec (lenZ (rest x)) (LOG_FRAME_HEAD + ReadLogFrameLen (rest x))) as [Hw|Hw].
  { intros [= <-]. apply (leave_inv _ _ _ _ x fr); try done; [|cbn; congruence]. intros _. split; [done|]. change (short (rest x)). right. lia. }
  assert (first_frame (rest x) (ReadLogFrameLen (rest x) - 1 + TITLE)) as Hf by done.
  pose proof (first_frame_text _ sTitle Hf Ht) as Hlen.
  destruct (_ && _).
  { intros [= <-]. rewrite Ht. by apply (queue_leave_inv _ _ _ x fr). }
  destruct (Z.ltb_spec (byteZ (nth 4 (rest x) Byte.x00)) LOG_LEVEL_COUNT) as [Hl|Hl].
  - destruct (WriteLog_cases (byteZ (nth 4 (rest x) Byte.x00)) sTitle (sub 5 (ReadLogFrameLen (rest x) - 1) (rest x)) (Some sid) s I1) as [(-> & _)|(z & Ez & Hfit & -> & _)];
      [pose proof (byteZ_range (nth 4 (rest x) Byte.x00)); lia|done|rewrite Hlen; unfold TITLE in *; lia|..]; intros [= <-].
    + rewrite Hlen. by apply (queue_leave_inv _ _ _ x fr).
    + rewrite Hlen, (fits_iff _ _ I1) in Hfit. assert (insts_inv (accept (Some sid) (byteZ (nth 4 (rest x) Byte.x00)) sTitle (sub 5 (ReadLogFrameLen (rest x) - 1) (rest x)) z s)) as J by (apply accept_insts; [done..|lia]).
      apply (handled_inv sid fr r s _ x); try done; [unfold LOG_FRAME_HEAD in *; lia|by apply accept_ctl|by apply accept_sched].
  - intros [= <-]. apply (handled_inv sid fr r s _ x); try done. unfold LOG_FRAME_HEAD in *; lia.
Qed.

(** ** The other steps *)

(** ResumeWaiting, by a thread that does nothing else with the sessions. *)
Lemma ResumeWaiting_inv b s : insts_inv s -> sess_inv s -> poll s = Idle -> main s = Serving \/ main s = Checking -> m_bStopping s = negb (serving s) ->
  (m_bStopping s = false -> posted s = 0%nat) -> inv (ResumeWaiting b s).
Proof.
  intros I1 I2 Ep Hm Hs Hq. pose proof I2 as [E1 E2 E3 E4 E5 E6 E7]. rewrite Ep in *. unfold ResumeWaiting. cbn [m_vWaitingSessions set_post].
  assert (forall t, main t = main s -> posted t = posted s -> m_bResumePosted t = false -> m_bStopping t = m_bStopping s -> ctl_inv t) as Hctl.
  { intros t T1 T2 T3 T4. split; unfold serving in *; rewrite ?T1, ?T2, ?T3, ?T4; auto. by destruct Hm as [-> | ->]. }
  destruct (m_vWaitingSessions s) as [|[sid n] w] eqn:Ew.
  { split; [by (destruct I1; split)|by apply post_sess|by apply Hctl|]. unfold sched_ok. cbn. by rewrite Ew. }
  destruct (fits n (set_post false (posted s) s)) eqn:Ef; cbn [negb].
  2: { split; [by (destruct I1; split)|by apply post_sess|by apply Hctl|]. unfold sched_ok. cbn. rewrite Ew. intros _ _ H. unfold fits in *. cbn in *. congruence. }
  destruct (E2 sid n) as (x & Es & Hb & Hu & Hf); [by left|]. rewrite (upd_some sid _ _ x) by done.
  cbn in E1. apply NoDup_cons in E1 as [E1 E1']. split; [by destruct I1| |by apply Hctl|done]. split; cbn; try done.
  - intros i m Hin. destruct (E2 i m) as (z & Ez & Hz); [by right|]. exists z. rewrite lookup_insert_ne; [done|]. intros <-. apply E1. apply list_elem_of_fmap. by exists (sid, m).
  - intros i z Ez. destruct (decide (sid = i)) as [<-|Hne].
    + rewrite lookup_insert_eq in Ez. injection Ez as <-. cbn. split; [done|]. intros H. by apply E1 in H.
    + rewrite lookup_insert_ne in Ez by done. rewrite (E3 i z Ez). cbn. rewrite elem_of_cons. intuition congruence.
  - exists (resume b x). rewrite lookup_insert_eq. split; [done|]. unfold parse_ok. cbn. pose proof (lenZ_nonneg (buf x)). split_and!; try done; try lia.
    intros _ _. exists n. by unfold rest.
  - intros i z Ez Hzb Hz Hp. destruct (decide (sid = i)) as [<-|Hne]; [by destruct Hp|]. rewrite lookup_insert_ne in Ez by done. apply (E6 i z Ez Hzb Hz). unfold parsing. rewrite Ep. intros [] .
  - intros i z Ez Hzb. destruct (decide (sid = i)) as [<-|Hne]; [rewrite lookup_insert_eq in Ez; injection Ez as <-; cbn in *; congruence|].
    rewrite lookup_insert_ne in Ez by done. by apply (E7 i).
Qed.

(** A change of one level that gives nothing back. *)
Lemma level_inv s k x y m : inv s -> insts s !! k = Some x -> owed y = owed x -> inst_ok y -> quit_ok m k y ->
  (m = main s \/ (forall j z, j <> k -> insts s !! j = Some z -> quit_ok m j z)) ->
  forall s', s' = set_insts (<[k := y]> (insts s)) (set_main (m_bStopping s) m s) ->
  ctl_inv s' -> inv s'.
Proof.
  intros [I1 I2 I3 I4] E Ho Hy Hq Hm s' -> C. pose proof I1 as [N1 [N2 N2'] N3]. split; [|by destruct I2|done|done]. split; cbn.
  - by rewrite length_insert.
  - rewrite (total_insert owed _ k x y E). lia.
  - intros j z Ez. destruct (decide (k = j)) as [<-|Hne].
    + rewrite list_lookup_insert_eq in Ez by (by eapply lookup_lt_Some). by injection Ez as <-.
    + rewrite list_lookup_insert_ne in Ez by done. split; [by apply (N3 j)|]. destruct Hm as [->|Hm]; [by apply (N3 j)|by apply Hm].
Qed.

Lemma same_main s k y : set_insts (<[k := y]> (insts s)) s = set_insts (<[k := y]> (insts s)) (set_main (m_bStopping s) (main s) s).
Proof. by destruct s. Qed.

Lemma level_ctl s l : ctl_inv s -> ctl_inv (set_insts l (set_main (m_bStopping s) (main s) s)).
Proof. intros [C1 C2 C3 C4]. by split. Qed.

Lemma total_completing s k x n : insts_inv s -> insts s !! k = Some x -> at_ x = Completing n -> 0 <= n <= m_iPendingBytes s.
Proof.
  intros I E Ea. pose proof I as [N1 [N2 N2'] N3]. destruct (N3 k x E) as [Ho _]. pose proof Ho as Hn. unfold inst_ok in Hn. rewrite Ea in Hn. split; [done|].
  set (y := mkInst (m_vLogs x) (m_bQuit x) (m_bRotationPending x) Awake (out x)). pose proof (total_insert owed _ k x y E) as H.
  assert (0 <= total owed (<[k := y]> (insts s))) as H0.
  { apply total_nonneg. intros j z Ez. destruct (decide (k = j)) as [<-|Hne]; [rewrite list_lookup_insert_eq in Ez by (by eapply lookup_lt_Some); by injection Ez as <-|].
    rewrite list_lookup_insert_ne in Ez by done. by apply (N3 j). }
  unfold owed in H. cbn in H. rewrite Ea in H. unfold owed in *. lia.
Qed.

Lemma complete_main n s : CompleteWrite n s =
  ScheduleResume (set_main (m_bStopping s) (match main s with Dozing => Draining | m => m end) (set_pending (m_iPendingBytes s - n) s)).
Proof. unfold CompleteWrite. f_equal. destruct s as [? ? ? ? ? ? ? ? ? ? ? m ?]. by destruct m. Qed.

Lemma CompleteWrite_inv s k x n : inv s -> insts s !! k = Some x -> at_ x = Completing n ->
  inv (CompleteWrite n (set_insts (<[k := mkInst (m_vLogs x) (m_bQuit x) (m_bRotationPending x) Awake (out x)]> (insts s)) s)).
Proof.
  intros [I1 I2 I3 I4] E Ea. destruct (n_ok s I1 k x E) as [Ho Hq]. unfold inst_ok in Ho. rewrite Ea in Ho.
  rewrite complete_main. cbn [main set_insts m_iPendingBytes m_bStopping]. remember (match main s with Dozing => Draining | m => m end) as m eqn:Em.
  apply schedule_inv.
  - pose proof (pending_range s I1). apply (insts_upd (set_main (m_bStopping s) m s) k x (mkInst (m_vLogs x) (m_bQuit x) (m_bRotationPending x) Awake (out x)) m (m_iPendingBytes s - n)); try done.
    + destruct I1 as [N1 N2 N3]. split; [done..|]. intros j z Ez. destruct (N3 j z Ez). split; [done|]. subst m. cbn. by destruct (main s).
    + subst m. unfold quit_ok in *. destruct (main s) as [| | | |j|j|]; try done; try (destruct (k <? j)%nat; [congruence|done]); congruence.
    + unfold owed. cbn. rewrite Ea. lia.
    + lia.
  - destruct I2 as [E1 E2 E3 E4 E5 E6 E7]. split; cbn; try done. destruct (poll s) as [|sid fr r|]; try done. destruct E5 as (z & Ez & H1 & H2 & H3 & H4 & H5 & H6). exists z. split; [done|].
    refine (conj H1 (conj H2 (conj H3 (conj H4 (conj H5 _))))). intros R F. destruct (H6 R F) as (l & Hf & Hl). exists l. split; [done|]. apply (fits_iff _ _ I1) in Hl. unfold fits. cbn. pose proof (pending_range s I1).
    destruct (total_completing s k x n I1 E Ea). rewrite u64_small by lia. apply Z.leb_le. lia.
  - destruct I3 as [C1 C2 C3 C4]. split; cbn; try done.
    + rewrite C2. subst m. unfold serving. cbn. by destruct (main s).
    + intros Hp. subst m. destruct (C3 Hp) as [-> | ->]; auto.
    + subst m. by destruct (main s).
Qed.

Lemma write_inv k s s' : inv s -> write k s = Some s' -> inv s'.
Proof.
  intros I. pose proof I as [I1 I2 I3 I4]. unfold write. destruct (insts s !! k) as [x|] eqn:E; [|done]. destruct (n_ok s I1 k x E) as [Ho Hq].
  assert (forall y, owed y = owed x -> inst_ok y -> quit_ok (main s) k y -> inv (set_insts (<[k := y]> (insts s)) s)) as Hgo.
  { intros y H1 H2 H3. rewrite same_main. apply (level_inv s k x y (main s) I E H1 H2 H3); [by left|done|]. by apply level_ctl. }
  assert (forall a l r o, at_ x <> Ended -> quit_ok (main s) k (mkInst l (m_bQuit x) r a o)) as Hq'.
  { intros a l r o Hne. unfold quit_ok in *. destruct (main s) as [| | | |j|j|]; try done; destruct (k <? j)%nat; done. }
  destruct (at_ x) as [| |l|n|] eqn:Ea; [done| | | |done].
  - destruct (m_vLogs x) as [|l0 l] eqn:El; [destruct (m_bQuit x) eqn:Equit; [|destruct (m_bRotationPending x)]|]; intros [= <-]; apply Hgo; unfold owed, inst_ok; cbn; rewrite ?Ea, ?El; try done.
    + unfold quit_ok in *. rewrite ?Equit in Hq. destruct (main s) as [| | | |j|j|]; try done; destruct (k <? j)%nat; done.
    + by apply Hq'.
    + by apply Hq'.
    + unfold lenZ at 1. cbn. lia.
    + by apply Hq'.
  - intros [= <-]. apply Hgo; [|unfold inst_ok; cbn; unfold lenZ; lia|by apply Hq'].
    unfold owed. cbn. by rewrite Ea.
  - intros [= <-]. by apply CompleteWrite_inv.
Qed.

Lemma stopping_inv s s' : inv s -> stopping s = Some s' -> inv s'.
Proof.
  intros I. pose proof I as [I1 I2 I3 I4]. pose proof I3 as [C1 C2 C3 C4]. unfold stopping. destruct (main s) as [| | | |k|k|] eqn:Em; try done.
  - destruct (poll s) eqn:Ep; try done. intros [= <-]. apply ResumeWaiting_inv; try done; cbn; auto.
    + destruct I1 as [N1 N2 N3]. split; [done..|]. intros j z Ez. specialize (N3 j z Ez). by rewrite Em in N3.
    + by destruct I2.
    + rewrite C2. unfold serving. by rewrite Em.
    + intros H. rewrite C2 in H. unfold serving in H. by rewrite Em in H.
  - destruct (poll s) eqn:Ep; try done. set (m := match m_vWaitingSessions s with [] => _ | _ => _ end). intros [= <-].
    assert (match m with Quitting 0 | Draining | Dozing => True | _ => False end) as Hm by (unfold m; destruct (m_vWaitingSessions s) as [|[i n] w]; [done|by destruct (fits n s)]).
    split.
    + destruct I1 as [N1 N2 N3]. split; [done..|]. intros j z Ez. specialize (N3 j z Ez). rewrite Em in N3. cbn. by destruct m as [| | | |[|]| |].
    + by destruct I2.
    + split; cbn; try done.
      * rewrite C2. unfold serving. cbn. rewrite Em. by destruct m as [| | | |[|]| |].
      * unfold m. destruct (m_vWaitingSessions s) as [|[i n] w]; [done|]. destruct (fits n s) eqn:Ef; done.
    + done.
  - assert (m_vWaitingSessions s = []) as Hw by done. destruct (insts s !! k) as [x|] eqn:E; intros [= <-].
    + destruct (n_ok s I1 k x E) as [Ho Hq]. rewrite Em in Hq. unfold quit_ok in Hq. rewrite Nat.ltb_irrefl in Hq.
      apply (level_inv s k x (mkInst (m_vLogs x) true (m_bRotationPending x) (wake (at_ x)) (out x)) (Joining k) I E); try done.
      * unfold owed. cbn. by destruct (at_ x).
      * unfold inst_ok in *. cbn. destruct (at_ x); cbn; try done. by destruct Ho.
      * unfold quit_ok. by rewrite Nat.ltb_irrefl, Nat.eqb_refl.
      * right. intros j z Hj Ez. destruct (n_ok s I1 j z Ez) as [_ Hz]. rewrite Em in Hz. unfold quit_ok in *. destruct (j <? k)%nat; [done|]. by rewrite (proj2 (Nat.eqb_neq _ _) Hj).
      * split; cbn; try done; [rewrite C2; unfold serving; by rewrite Em|]. intros H. destruct (C3 H); congruence.
    + split; [|by destruct I2|split; cbn; try done; [rewrite C2; unfold serving; by rewrite Em|intros H; destruct (C3 H); congruence]|done].
      destruct I1 as [N1 N2 N3]. split; [done..|]. intros j z Ez. destruct (N3 j z Ez) as [Ho Hq]. split; [done|]. rewrite Em in Hq. cbn [main set_main]. unfold quit_ok in *.
      cbn in Ez. apply lookup_ge_None in E. apply lookup_lt_Some in Ez. by rewrite (proj2 (Nat.ltb_lt j k)) in Hq by lia.
  - destruct (insts s !! k) as [x|] eqn:E; [|done]. destruct (at_ x) eqn:Ea; try done. intros [= <-].
    split; [|by destruct I2|split; cbn; try done; [rewrite C2; unfold serving; by rewrite Em|intros H; destruct (C3 H); congruence]|done].
    destruct I1 as [N1 N2 N3]. split; [done..|]. intros j z Ez. destruct (N3 j z Ez) as [Ho Hq]. split; [done|]. rewrite Em in Hq. cbn [main set_main]. cbn in Ez. unfold quit_ok in *.
    destruct (Nat.ltb_spec j k) as [H|H], (Nat.ltb_spec j (S k)) as [H'|H']; try lia; [done|assert (j = k) as -> by lia; congruence|].
    by rewrite (proj2 (Nat.eqb_neq j k)) in Hq by lia.
Qed.

(** More bytes do not change the frame in front. *)
Lemma first_frame_app p l n : first_frame p n -> first_frame (p ++ l) n.
Proof.
  intros (H1 & H2 & H3 & H4). unfold first_frame, ReadLogFrameLen in *. unfold LOG_FRAME_HEAD in *. rewrite take_app_le by (unfold lenZ in *; lia). rewrite lenZ_app. pose proof (lenZ_nonneg l). split_and!; lia.
Qed.

(** A session closes, or receives while it waits. *)
Lemma upd_sess s sid x y l : sess_inv s -> sess s !! sid = Some x -> m_bWaiting y = m_bWaiting x -> used y = used x -> broken y = broken x -> (closed x = true -> closed y = true) ->
  buf y = buf x ++ l -> l = [] \/ m_bWaiting x = true -> sess_inv (set_sess (<[sid := y]> (sess s)) s).
Proof.
  intros [E1 E2 E3 E4 E5 E6 E7] Es Hw Hu Hb Hc Hl Hor. split; cbn; try done.
  - intros i n Hin. destruct (E2 i n Hin) as (z & Ez & H1 & H2 & H3). destruct (decide (sid = i)) as [<-|Hne]; [|exists z; by rewrite lookup_insert_ne].
    rewrite Es in Ez. injection Ez as <-. exists y. rewrite lookup_insert_eq, Hu, Hb, Hl. split_and!; try done. by apply first_frame_app.
  - intros i z Ez. destruct (decide (sid = i)) as [<-|Hne]; [|rewrite lookup_insert_ne in Ez by done; by apply E3]. rewrite lookup_insert_eq in Ez. injection Ez as <-. rewrite Hw. by apply E3.
  - destruct (poll s) as [|i fr r|i]; try done; destruct (decide (sid = i)) as [<-|Hne]; rewrite ?lookup_insert_eq, ?lookup_insert_ne by done; eauto.
    destruct E5 as (z & Ez & H1 & H2 & H3 & H4 & H5 & H6). rewrite Es in Ez. injection Ez as <-. destruct Hor as [->|Hor]; [|congruence]. rewrite app_nil_r in Hl.
    exists y. split; [done|]. unfold parse_ok, rest in *. by rewrite Hw, Hu, Hb, Hl.
  - intros i z Ez. destruct (decide (sid = i)) as [<-|Hne]; [|rewrite lookup_insert_ne in Ez by done; by apply (E6 i z)]. rewrite lookup_insert_eq in Ez. injection Ez as <-. rewrite Hw, Hu, Hb, Hl.
    intros B W P. destruct Hor as [->|Hor]; [|congruence]. rewrite app_nil_r. by apply (E6 sid x).
  - intros i z Ez. destruct (decide (sid = i)) as [<-|Hne]; [|rewrite lookup_insert_ne in Ez by done; by apply (E7 i z)]. rewrite lookup_insert_eq in Ez. injection Ez as <-. rewrite Hb. intros B. apply Hc. by apply (E7 sid x).
Qed.

Lemma sess_step s m : inv s -> sess_inv (set_sess m s) -> inv (set_sess m s).
Proof. intros [[N1 N2 N3] I2 [C1 C2 C3 C4] I4] H. by split. Qed.

Lemma close_inv sid s : inv s -> inv (upd sid close s).
Proof.
  intros I. unfold upd. destruct (sess s !! sid) as [x|] eqn:E; [|done]. apply sess_step; [done|]. apply (upd_sess s sid x (close x) [] (v_sess s I)); try done; [cbn; by rewrite app_nil_r|by left].
Qed.

Lemma open_inv sid s : inv s -> sess s !! sid = None -> inv (set_sess (<[sid := new_session]> (sess s)) s).
Proof.
  intros I En. apply sess_step; [done|]. destruct (v_sess s I) as [E1 E2 E3 E4 E5 E6 E7].
  assert (forall i z, sess s !! i = Some z -> sid <> i) as Hne by congruence.
  split; cbn; try done.
  - intros i n Hin. destruct (E2 i n Hin) as (z & Ez & H). exists z. by rewrite lookup_insert_ne by eauto.
  - intros i z Ez. destruct (decide (sid = i)) as [<-|Hn]; [|rewrite lookup_insert_ne in Ez by done; by apply E3]. rewrite lookup_insert_eq in Ez. injection Ez as <-. cbn. split; [done|].
    intros ([j n] & -> & Hin)%list_elem_of_fmap. destruct (E2 j n Hin) as (z & Ez & _). cbn in *. congruence.
  - destruct (poll s) as [|i fr r|i]; try done; [destruct E5 as (z & Ez & H); exists z|destruct E5 as (z & Ez)]; rewrite lookup_insert_ne by eauto; [done|by exists z].
  - intros i z Ez. destruct (decide (sid = i)) as [<-|Hn]; [|rewrite lookup_insert_ne in Ez by done; by apply (E6 i z)]. rewrite lookup_insert_eq in Ez. injection Ez as <-. intros _ _ _. split; [done|by left].
  - intros i z Ez. destruct (decide (sid = i)) as [<-|Hn]; [|rewrite lookup_insert_ne in Ez by done; by apply (E7 i z)]. rewrite lookup_insert_eq in Ez. injection Ez as <-. done.
Qed.

Lemma free_spec s : free s = true -> poll s = Idle /\ main s = Serving.
Proof. unfold free. by destruct (poll s), (main s). Qed.

Lemma data_inv sid l s x : inv s -> free s = true -> sess s !! sid = Some x -> closed x = false ->
  inv (let s := upd sid (receive l) s in if m_bWaiting x then s else set_poll (Parse sid 0 false) s).
Proof.
  intros I [Hp Hm]%free_spec E Hc. cbv zeta. rewrite (upd_some sid _ s x E). pose proof (v_sess s I) as I2. pose proof I2 as [E1 E2 E3 E4 E5 E6 E7]. destruct (m_bWaiting x) eqn:Ew.
  - apply sess_step; [done|]. apply (upd_sess s sid x (receive l x) l I2); try done; [|by right].
    cbn. apply (E3 sid x E) in Ew. apply list_elem_of_fmap in Ew as ([i n] & -> & Hin). destruct (E2 i n Hin) as (z & Ez & _ & Hz & _). cbn in *. congruence.
  - assert (broken x = false) as Hb by (destruct (broken x) eqn:Eb; [|done]; rewrite (E7 sid x E Eb) in Hc; done).
    destruct I as [[N1 N2 N3] _ [C1 C2 C3 C4] I4]. rewrite Hp in *. split; [done| |split; cbn; auto|done]. split; cbn; try done.
    + intros i n Hin. destruct (E2 i n Hin) as (z & Ez & Hz). exists z. rewrite lookup_insert_ne; [done|]. intros <-. assert (sid ∈ map fst (m_vWaitingSessions s)) as H by (apply list_elem_of_fmap; by exists (sid, n)).
      apply (E3 sid x E) in H. congruence.
    + intros i z Ez. destruct (decide (sid = i)) as [<-|Hne]; [|rewrite lookup_insert_ne in Ez by done; by apply E3]. rewrite lookup_insert_eq in Ez. injection Ez as <-. cbn. by apply E3.
    + exists (receive l x). rewrite lookup_insert_eq. split; [done|]. unfold parse_ok. cbn. pose proof (lenZ_nonneg (buf x ++ l)). split_and!; try done; lia.
    + intros i z Ez Hzb Hz Hq. destruct (decide (sid = i)) as [<-|Hne]; [by destruct Hq|]. rewrite lookup_insert_ne in Ez by done. apply (E6 i z Ez Hzb Hz). unfold parsing. rewrite Hp; intros [].
    + intros i z Ez Hzb. destruct (decide (sid = i)) as [<-|Hne]; [rewrite lookup_insert_eq in Ez; injection Ez as <-; cbn in *; congruence|]. rewrite lookup_insert_ne in Ez by done. by apply (E7 i).
Qed.

(** A line of logd's own is dropped, or taken in when nobody waits. *)
Lemma local_cases iLevel sTitle sText s : insts_inv s -> lenZ sTitle = TITLE ->
  WriteLog iLevel sTitle sText None s = (s, false) \/
  exists x, insts s !! Z.to_nat iLevel = Some x /\ 0 <= iLevel < LOG_LEVEL_COUNT /\ fits (lenZ sText + lenZ sTitle) s = true /\ m_pResumingSession s = None /\ m_vWaitingSessions s = [] /\
    WriteLog iLevel sTitle sText None s = (accept None iLevel sTitle sText x s, true).
Proof.
  intros I Ht. destruct (Z.ltb_spec iLevel 0) as [H1|H1]; [left; unfold WriteLog; by rewrite (proj2 (Z.ltb_lt _ _) H1)|].
  destruct (Z.leb_spec LOG_LEVEL_COUNT iLevel) as [H2|H2]; [left; unfold WriteLog; rewrite (proj2 (Z.leb_le _ _) H2), orb_true_r; done|].
  destruct (Z.ltb_spec (u64 (m_iMaxPendingBytes - lenZ sTitle)) (lenZ sText)) as [H3|H3]; [left; unfold WriteLog; rewrite (proj2 (Z.ltb_lt _ _) H3), !orb_true_r; done|].
  unfold TITLE, LOG_FRAME_MAX in *. rewrite u64_small in H3 by lia.
  destruct (WriteLog_cases iLevel sTitle sText None s I ltac:(lia) Ht ltac:(lia)) as [(-> & _)|(x & E & Hf & -> & Hq)]; [by left|]. destruct (Hq eq_refl) as [Hr Hw]. right. exists x. by split_and!.
Qed.

Lemma accept_sess src iLevel sTitle sText x s : sess_inv s -> (forall sid fr r, poll s = Parse sid fr r -> r = true -> False) -> sess_inv (accept src iLevel sTitle sText x s).
Proof.
  intros [E1 E2 E3 E4 E5 E6 E7] Hp. split; cbn; try done. destruct (poll s) as [|sid fr r|]; try done. destruct E5 as (z & Ez & H1 & H2 & H3 & H4 & H5 & H6). exists z. split; [done|].
  refine (conj H1 (conj H2 (conj H3 (conj H4 (conj H5 _))))). intros R. by destruct (Hp sid fr r eq_refl R).
Qed.

Lemma local_inv iLevel sTitle sText s : inv s -> serving s = true -> lenZ sTitle = TITLE -> inv (fst (WriteLog iLevel sTitle sText None s)).
Proof.
  intros I Hs Ht. pose proof I as [I1 I2 I3 I4]. destruct (local_cases iLevel sTitle sText s I1 Ht) as [->|(x & E & Hl & Hf & Hr & Hw & ->)]; [done|]. cbn [fst].
  assert (main s = Serving \/ main s = Checking) as Hm by (left; unfold serving in Hs; by destruct (main s)). apply (fits_iff _ _ I1) in Hf.
  assert (insts_inv (accept None iLevel sTitle sText x s)) as J by (apply accept_insts; [done..|lia]).
  split; [done| |by apply accept_ctl|by apply accept_sched]. apply accept_sess; [done|]. intros sid fr r Ep ->. pose proof (e_resuming s I2) as H. rewrite Ep in H. congruence.
Qed.

Lemma set_poll_schedule p s : set_poll p (ScheduleResume s) = ScheduleResume (set_poll p s).
Proof. unfold ScheduleResume. cbn. destruct (m_vWaitingSessions s) as [|[i n] w], (m_pResumingSession s); try done. unfold fits. cbn. by destruct (_ && _). Qed.

Lemma finish_inv sid s : inv s -> poll s = Finish sid -> inv (set_poll Idle (ScheduleResume (set_queue (m_iPauseCount s) (m_vWaitingSessions s) None s))).
Proof.
  intros [I1 I2 I3 I4] Ep. rewrite set_poll_schedule. apply schedule_inv.
  - by destruct I1.
  - destruct I2 as [E1 E2 E3 E4 E5 E6 E7]. split; cbn; try done. intros i z Ez Hb Hw _. apply (E6 i z Ez Hb Hw). unfold parsing. rewrite Ep. intros [].
  - destruct I3 as [C1 C2 C3 C4]. by split.
Qed.

Lemma stop_begin_inv s : inv s -> free s = true -> inv (set_main true Draining s).
Proof.
  intros [I1 I2 I3 I4] [Hp Hm]%free_spec. split; [|by destruct I2| |done].
  - destruct I1 as [N1 N2 N3]. split; [done..|]. intros j z Ez. specialize (N3 j z Ez). by rewrite Hm in N3.
  - split; cbn; try done; congruence.
Qed.

Lemma wake_inv s k x r : inv s -> insts s !! k = Some x -> inv (set_insts (<[k := mkInst (m_vLogs x) (m_bQuit x) r (wake (at_ x)) (out x)]> (insts s)) s).
Proof.
  intros I E. rewrite same_main. destruct (n_ok s (v_insts s I) k x E) as [Ho Hq].
  apply (level_inv s k x (mkInst (m_vLogs x) (m_bQuit x) r (wake (at_ x)) (out x)) (main s) I E); [| | |by left|done|apply level_ctl, I].
  - unfold owed. cbn. by destruct (at_ x).
  - unfold inst_ok in *. cbn. by destruct (at_ x).
  - unfold quit_ok in *. destruct (main s) as [| | | |j|j|]; try done; try (destruct (k <? j)%nat; [|done]); cbn; by rewrite Hq.
Qed.

Lemma log_event_inv e s s' : inv s -> do_event e s = Some s' -> inv s'.
Proof.
  intros I. pose proof I as [I1 I2 I3 I4]. destruct e; cbn [do_event]; intros H.
  - destruct (free s); [|done]. destruct (sess s !! sid) eqn:E; [done|]. injection H as <-. by apply open_inv.
  - destruct (free s) eqn:Ef; [|done]. destruct (sess s !! sid) as [x|] eqn:E; [|done]. destruct (closed x) eqn:Ec; [done|]. injection H as <-. by apply (data_inv sid l s x).
  - injection H as <-. by apply close_inv.
  - destruct (serving s) eqn:Es; [|done]. destruct (Z.eqb_spec (lenZ sTitle) TITLE); [|done]. injection H as <-. by apply local_inv.
  - destruct (posted s) as [|n] eqn:En; [done|]. destruct (free s) eqn:Ef; [|done]. injection H as <-. apply free_spec in Ef as [Hp Hm].
    apply ResumeWaiting_inv; try done; try (by destruct I1); try (by destruct I2); [by left|by apply I3|].
    intros Hs. pose proof (c_posted s I3 Hs) as H. rewrite En in H. cbn. destruct (m_bResumePosted s); lia.
  - destruct (insts s !! k) as [x|] eqn:E; [|done]. destruct (serving s); [|done]. injection H as <-. by apply wake_inv.
  - destruct (Z.eqb_spec (lenZ sTitle) TITLE); [|done]. unfold turn in H. destruct (poll s) eqn:Ep; [done|by apply (OnDataIn_inv _ _ _ _ _ _ I Ep e H)|]. injection H as <-. by apply (finish_inv sid).
  - by apply (write_inv k s).
  - destruct k as [k|].
    2: { destruct (main s) eqn:Em; try done. injection H as <-. split; [|by destruct I2| |done].
         - destruct I1 as [N1 N2 N3]. split; [done..|]. intros j z Ez. specialize (N3 j z Ez). by rewrite Em in N3.
         - destruct I3 as [C1 C2 C3 C4]. split; cbn; try done; [rewrite C2; unfold serving; by rewrite Em|]. intros Hp. destruct (C3 Hp); congruence. }
    destruct (insts s !! k) as [x|] eqn:E; [|done]. destruct (at_ x) eqn:Ea; try done. injection H as <-. pose proof (wake_inv s k x (m_bRotationPending x) I E) as J. by rewrite Ea in J.
  - destruct (free s) eqn:Ef; [|done]. injection H as <-. by apply stop_begin_inv.
  - by apply (stopping_inv s).
Qed.

Lemma log_start_inv : inv start.
Proof.
  assert (forall sid x, sess start !! sid = Some x -> False) as Hs by (intros sid x H; cbn in H; by rewrite lookup_empty in H).
  split; [split|split|split|]; try done; cbn; try (intros; exfalso; eauto; fail).
  - change (owed new_inst) with 0. unfold LOG_FRAME_MAX in *. lia.
  - intros k x Ex%list_elem_of_lookup_2. apply (elem_of_replicate 5 new_inst x) in Ex as [-> _]. by split.
  - constructor.
  - intros sid n H. by apply not_elem_of_nil in H.
Qed.

Lemma log_run_inv es : forall s s', inv s -> run es s = Some s' -> inv s'.
Proof. induction es as [|e es IH]; cbn; intros s s' I; [by intros [= <-]|]. destruct (do_event e s) as [t|] eqn:E; [|done]. apply IH. by apply (log_event_inv e s). Qed.

End Limit.
End Logd.
