(* ===== verification/LogdRuns.v ===== *)
(** * Runs of the log server

    What becomes of the bytes that sessions send and of the lines of Logd.v: that each
    frame is taken once and in order, that each line taken reaches its file once and in
    order, that who waits is served, and that stopping drains everything and ends. *)

From Stdlib Require Import Strings.Byte.
From S2P Require Import Prelude Logd.

Module LogdRuns.
Import Logd.

(** ** Lines *)

Definition entry : Type := option Z * Z * list byte * list byte.
Definition source (a : entry) : option Z := let '(src, _, _, _) := a in src.
Definition level (a : entry) : Z := let '(_, l, _, _) := a in l.
Definition text (a : entry) : list byte := let '(_, _, _, x) := a in x.
Definition line (a : entry) : list byte := let '(_, _, t, x) := a in t ++ x.

(** The lines of a level, in the order they were taken in. *)
Definition lines (k : nat) (l : list entry) : list (list byte) := map line (filter (fun a => Z.to_nat (level a) = k) l).

Definition inflight (w : writer) : list (list byte) := match w with Writing l => l | _ => [] end.

Definition lines_ok (s : state) : Prop := forall k x, insts s !! k = Some x -> out x ++ inflight (at_ x) ++ m_vLogs x = lines k (accepted s).

Definition files (s : state) : list inst * list entry := (insts s, accepted s).

Lemma lines_same s t : files t = files s -> lines_ok s -> lines_ok t.
Proof. unfold files, lines_ok. by intros [= -> ->]. Qed.

Lemma lines_insert s k x y l : lines_ok s -> insts s !! k = Some x -> (forall j, j <> k -> lines j l = lines j (accepted s)) -> out y ++ inflight (at_ y) ++ m_vLogs y = lines k l ->
  forall t, files t = (<[k := y]> (insts s), l) -> lines_ok t.
Proof.
  intros H E Hj Hk t [= Ei El] j z. rewrite Ei, El. destruct (decide (k = j)) as [<-|Hne].
  - rewrite list_lookup_insert_eq by (by eapply lookup_lt_Some). by intros [= <-].
  - rewrite list_lookup_insert_ne, Hj by done. apply H.
Qed.

Lemma files_upd sid f s : files (upd sid f s) = files s.
Proof. unfold upd. by destruct (sess s !! sid). Qed.

Section Limit.
Context (m_iMaxPendingBytes : Z).
Local Notation M := m_iMaxPendingBytes.

Lemma files_schedule s : files (ScheduleResume M s) = files s.
Proof. unfold ScheduleResume. destruct (m_vWaitingSessions s) as [|[i n] w], (m_pResumingSession s); try done. by destruct (_ && _). Qed.

Lemma files_queue sid n s : files (QueueWaiter M sid n s) = files s.
Proof. unfold QueueWaiter. by rewrite files_schedule, files_upd. Qed.

Lemma files_leave f sid r s : files (leave f sid r s) = files s.
Proof. unfold leave. cbv zeta. exact (files_upd sid _ s). Qed.

Lemma files_resume b s : files (ResumeWaiting M b s) = files s.
Proof.
  unfold ResumeWaiting. cbn [m_vWaitingSessions set_post]. destruct (m_vWaitingSessions s) as [|[sid n] w]; [done|]. destruct (negb _); [done|].
  exact (files_upd sid (resume b) (set_queue _ w (Some sid) (set_post false (posted s) s))).
Qed.

Lemma accept_lines src iLevel sTitle sText x s : lines_ok s -> insts s !! Z.to_nat iLevel = Some x -> lines_ok (accept src iLevel sTitle sText x s).
Proof.
  intros H E. eapply (lines_insert s (Z.to_nat iLevel) x _ _ H E); [| |reflexivity].
  - intros j Hj. unfold lines. cbn. rewrite filter_app, filter_cons_False by (cbn; congruence). by rewrite app_nil_r.
  - unfold lines. cbn. rewrite filter_app, filter_cons_True, map_app by done. cbn. fold (lines (Z.to_nat iLevel) (accepted s)). rewrite <- (H _ _ E), <- !app_assoc. do 2 f_equal.
    destruct (m_vLogs x); [by destruct (at_ x)|done].
Qed.

Lemma WriteLog_lines iLevel sTitle sText src s : lines_ok s -> lines_ok (fst (WriteLog M iLevel sTitle sText src s)).
Proof.
  intros H. unfold WriteLog. destruct (_ || _); [done|]. cbv zeta. destruct (negb _ || _); [destruct src; [cbn [fst]; by eapply lines_same; [apply files_queue|]|done]|].
  destruct (insts s !! Z.to_nat iLevel) as [x|] eqn:E; [|done]. by apply accept_lines.
Qed.

Lemma OnDataIn_lines sTitle sid fr r s s' : lines_ok s -> OnDataIn M sTitle sid fr r s = Some s' -> lines_ok s'.
Proof.
  intros H. assert (forall f t, lines_ok t -> lines_ok (leave f sid r t)) as Hl by (intros f t; apply lines_same, files_leave).
  unfold OnDataIn. destruct (sess s !! sid) as [x|]; [|done]. destruct (_ <? LOG_FRAME_HEAD); [intros [= <-]; by apply Hl|].
  destruct (_ || _); [intros [= <-]; by apply Hl|]. destruct (_ <? _); [intros [= <-]; by apply Hl|].
  destruct (_ && _); [intros [= <-]; apply Hl; by eapply lines_same; [apply files_queue|]|].
  pose proof (WriteLog_lines (byteZ (nth 4 (drop (Z.to_nat (used x)) (buf x)) Byte.x00)) sTitle (sub 5 (ReadLogFrameLen (drop (Z.to_nat (used x)) (buf x)) - 1) (drop (Z.to_nat (used x)) (buf x))) (Some sid) s H) as Hw.
  destruct (if _ <? LOG_LEVEL_COUNT then _ else _) as [t b] eqn:E. assert (lines_ok t) as Ht.
  { destruct (_ <? LOG_LEVEL_COUNT); [by rewrite E in Hw|by injection E as <- _]. }
  destruct b; intros [= <-]; [|by apply Hl]. eapply lines_same; [|exact Ht]. exact (files_upd sid _ t).
Qed.

Lemma write_lines k s s' : lines_ok s -> write M k s = Some s' -> lines_ok s'.
Proof.
  intros H. unfold write. destruct (insts s !! k) as [x|] eqn:E; [|done]. pose proof (H k x E) as Hx.
  destruct (at_ x) as [| |l|n|] eqn:Ea; try done.
  - destruct (m_vLogs x) as [|l0 l] eqn:El; [destruct (m_bQuit x); [|destruct (m_bRotationPending x)]|]; intros [= <-]; eapply (lines_insert s k x); try done; cbn in *; by rewrite <- Hx, ?app_nil_r.
  - intros [= <-]. eapply (lines_insert s k x); try done. cbn in *. by rewrite <- Hx, <- app_assoc.
  - intros [= <-]. eapply (lines_insert s k x _ _ H E); [done| |unfold CompleteWrite; cbn; rewrite files_schedule; by destruct (main s)]. exact Hx.
Qed.

Lemma wake_lines k s x q r a : lines_ok s -> insts s !! k = Some x -> inflight a = inflight (at_ x) -> lines_ok (set_insts (<[k := mkInst (m_vLogs x) q r a (out x)]> (insts s)) s).
Proof. intros H E Ha. eapply (lines_insert s k x _ _ H E); [done| |reflexivity]. cbn. rewrite Ha. by apply H. Qed.

Lemma event_lines e s s' : lines_ok s -> do_event M e s = Some s' -> lines_ok s'.
Proof.
  intros H. assert (forall w, inflight (wake w) = inflight w) as Hw by by intros [].
  destruct e as [sid|sid l|sid|iLevel sTitle sText| |k|sTitle|k|[k|]| |]; cbn [do_event]; intros E.
  - destruct (free s); [|done]. destruct (sess s !! sid); [done|]. by injection E as <-.
  - destruct (free s); [|done]. destruct (sess s !! sid) as [x|]; [|done]. destruct (closed x); [done|]. injection E as <-. eapply lines_same; [|exact H]. destruct (m_bWaiting x); exact (files_upd sid _ s).
  - injection E as <-. eapply lines_same; [apply files_upd|done].
  - destruct (serving s && _); [|done]. injection E as <-. by apply WriteLog_lines.
  - destruct (posted s); [done|]. destruct (free s); [|done]. injection E as <-. eapply lines_same; [apply files_resume|done].
  - destruct (insts s !! k) as [x|] eqn:Ex; [|done]. destruct (serving s); [|done]. injection E as <-. by apply wake_lines.
  - destruct (_ =? _); [|done]. unfold turn in E. destruct (poll s) as [|sid fr r|sid]; [done|by apply (OnDataIn_lines _ _ _ _ _ _ H E)|]. injection E as <-.
    eapply lines_same; [|exact H]. exact (files_schedule (set_queue (m_iPauseCount s) (m_vWaitingSessions s) None s)).
  - by apply (write_lines k s).
  - destruct (insts s !! k) as [x|] eqn:Ex; [|done]. destruct (at_ x) eqn:Ea; try done. injection E as <-. apply wake_lines; [done..|]. by rewrite Ea.
  - destruct (main s); try done. by injection E as <-.
  - destruct (free s); [|done]. by injection E as <-.
  - unfold stopping in E. destruct (main s) as [| | | |k|k|]; try done.
    + destruct (poll s); try done. injection E as <-. eapply lines_same; [apply files_resume|done].
    + destruct (poll s); try done. by injection E as <-.
    + destruct (insts s !! k) as [x|] eqn:Ex; injection E as <-; [|done]. exact (wake_lines k s x true (m_bRotationPending x) (wake (at_ x)) H Ex (Hw (at_ x))).
    + destruct (insts s !! k) as [x|] eqn:Ex; [|done]. destruct (at_ x); try done. by injection E as <-.
Qed.

Lemma run_lines es : forall s s', lines_ok s -> run M es s = Some s' -> lines_ok s'.
Proof. induction es as [|e es IH]; cbn; intros s s' H; [by intros [= <-]|]. destruct (do_event M e s) as [t|] eqn:E; [|done]. apply IH. by apply (event_lines e s). Qed.

Lemma start_lines : lines_ok start.
Proof. intros k x Ex%list_elem_of_lookup_2. by apply (elem_of_replicate 5 new_inst x) in Ex as [-> _]. Qed.

(** ** Frames *)

Definition stream (l : list (Z * list byte)) : list byte := concat (map (fun p => AppendLogFrame (fst p) (snd p)) l).

(** What a session has in the logs. *)
Definition from (sid : Z) (l : list entry) : list (Z * list byte) := map (fun a => (level a, text a)) (filter (fun a => source a = Some sid) l).
Definition known (p : Z * list byte) : Prop := fst p < LOG_LEVEL_COUNT.
#[global] Instance known_dec p : Decision (known p).
Proof. unfold known. apply _. Defined.

Definition whole (x : session) : Prop := recv x = stream (taken x) ++ rest x.
Definition told (l : list entry) (m : gmap Z session) : Prop :=
  forall sid, from sid l = match m !! sid with Some x => filter known (taken x) | None => [] end.
Definition frames_ok (s : state) : Prop := (forall sid x, sess s !! sid = Some x -> whole x) /\ told (accepted s) (sess s).

Lemma stream_app l k : stream (l ++ k) = stream l ++ stream k.
Proof. unfold stream. by rewrite map_app, concat_app. Qed.

Lemma stream_one l t : stream [(l, t)] = AppendLogFrame l t.
Proof. apply app_nil_r. Qed.

Lemma rest_handled n l t x : 0 <= used x -> 0 <= n -> rest (handled n l t x) = drop (Z.to_nat n) (rest x).
Proof. intros H1 H2. unfold rest. cbn. rewrite drop_drop. f_equal. lia. Qed.

Lemma drop_nth {A} (d : A) n l : (n < length l)%nat -> drop n l = nth n l d :: drop (S n) l.
Proof. revert l. induction n as [|n IH]; intros [|a l] H; cbn in *; try lia; [by rewrite drop_0|]. apply IH. lia. Qed.

(** The frame in front, as AppendLogFrame writes it. *)
Lemma frame_split p n : first_frame p n ->
  p = AppendLogFrame (byteZ (nth 4 p Byte.x00)) (sub 5 (ReadLogFrameLen p - 1) p) ++ drop (Z.to_nat (LOG_FRAME_HEAD + ReadLogFrameLen p)) p.
Proof.
  intros (H1 & H2 & H3 & _). unfold AppendLogFrame, LOG_FRAME_HEAD, LOG_FRAME_MAX in *. rewrite lenZ_sub by lia. rewrite u32_small by lia. rewrite byte_of_byteZ.
  replace (1 + (ReadLogFrameLen p - 1)) with (ReadLogFrameLen p) by lia.
  assert (length (take 4 p) = 4%nat) as H4 by (rewrite length_take; unfold lenZ in *; lia). pose proof (le_encode_decode (take 4 p)) as Hd. rewrite H4 in Hd. fold (ReadLogFrameLen p) in Hd. rewrite Hd.
  unfold sub. change (Z.to_nat 5) with 5%nat. replace (Z.to_nat (4 + ReadLogFrameLen p)) with (5 + Z.to_nat (ReadLogFrameLen p - 1))%nat by lia. rewrite <- (drop_drop p _ 5).
  rewrite <- app_assoc. cbn [app]. rewrite take_drop. rewrite <- drop_nth by (unfold lenZ in *; lia). by rewrite take_drop.
Qed.

Lemma frames_same s t : sess t = sess s -> accepted t = accepted s -> frames_ok s -> frames_ok t.
Proof. unfold frames_ok. by intros -> ->. Qed.

Lemma told_insert l m sid x y : told l m -> m !! sid = Some x -> taken y = taken x -> told l (<[sid := y]> m).
Proof. intros H E Ht i. rewrite (H i). destruct (decide (sid = i)) as [<-|Hne]; [by rewrite lookup_insert_eq, E, Ht|by rewrite lookup_insert_ne]. Qed.

Lemma upd_frames sid f s : frames_ok s -> (forall x, sess s !! sid = Some x -> whole x -> whole (f x) /\ taken (f x) = taken x) -> frames_ok (upd sid f s).
Proof.
  intros [F1 F2] H. unfold upd. destruct (sess s !! sid) as [x|] eqn:E; [|done]. destruct (H x eq_refl (F1 sid x E)) as [Hw Ht]. split; cbn.
  - intros i z Ez. destruct (decide (sid = i)) as [<-|Hne]; [rewrite lookup_insert_eq in Ez; by injection Ez as <-|rewrite lookup_insert_ne in Ez by done; by apply (F1 i)].
  - by apply (told_insert _ _ _ x).
Qed.

Lemma schedule_frames s : frames_ok s -> frames_ok (ScheduleResume M s).
Proof. apply frames_same; (unfold ScheduleResume; destruct (m_vWaitingSessions s) as [|[i n] w], (m_pResumingSession s); try done; by destruct (_ && _)). Qed.

Lemma queue_frames sid n s : frames_ok s -> frames_ok (QueueWaiter M sid n s).
Proof. intros F. unfold QueueWaiter. apply schedule_frames, upd_frames; [done|]. by intros x _ Hx. Qed.

Lemma resume_read_whole x : whole x -> whole (resume_read x) /\ taken (resume_read x) = taken x.
Proof. unfold whole, rest. by destruct (resume_read_fields x) as (_ & -> & -> & _ & _ & -> & ->). Qed.

Lemma leave_frames f sid r s : frames_ok s -> (forall x, whole x -> whole (f x) /\ taken (f x) = taken x) -> frames_ok (leave f sid r s).
Proof.
  intros F H. unfold leave. cbv zeta. match goal with |- frames_ok (set_poll _ ?t) => apply (frames_same t); [done..|] end. apply upd_frames; [done|].
  intros x _ Hx. destruct (H x Hx) as [Hf Ht]. destruct r; [|done]. destruct (resume_read_whole (f x) Hf) as [H1 H2]. split; congruence.
Qed.

Lemma erase_whole x : whole x -> whole (erase x) /\ taken (erase x) = taken x.
Proof. done. Qed.

Lemma from_app sid l k : from sid (l ++ k) = from sid l ++ from sid k.
Proof. unfold from. by rewrite filter_app, map_app. Qed.

(** A frame is handled; its line is in the logs when its level is known. *)
Lemma handled_frames s t sid x n fr p r : frames_ok s -> sess s !! sid = Some x -> sess t = sess s -> 0 <= used x -> first_frame (rest x) n ->
  let iLevel := byteZ (nth 4 (rest x) Byte.x00) in let sText := sub 5 (ReadLogFrameLen (rest x) - 1) (rest x) in
  (forall i, from i (accepted t) = from i (accepted s) ++ (if decide (i = sid /\ iLevel < LOG_LEVEL_COUNT) then [(iLevel, sText)] else [])) ->
  frames_ok (set_poll (Parse p fr r) (upd sid (handled (LOG_FRAME_HEAD + ReadLogFrameLen (rest x)) iLevel sText) t)).
Proof.
  intros [F1 F2] E Et Hu Hf iLevel sText Hacc. rewrite (upd_some _ _ _ x) by by rewrite Et. split; cbn; rewrite ?Et.
  - intros i z Ez. destruct (decide (sid = i)) as [<-|Hne]; [|rewrite lookup_insert_ne in Ez by done; by apply (F1 i)]. rewrite lookup_insert_eq in Ez. injection Ez as <-.
    unfold whole. cbn [handled recv taken]. rewrite (F1 sid x E), stream_app, stream_one, <- app_assoc. f_equal. rewrite rest_handled; [by apply (frame_split _ n)|done|].
    destruct Hf as (_ & Hf & _). unfold LOG_FRAME_HEAD. lia.
  - intros i. rewrite Hacc, (F2 i). destruct (decide (sid = i)) as [<-|Hne].
    + rewrite lookup_insert_eq, E. cbn. rewrite filter_app. f_equal. destruct (decide (iLevel < LOG_LEVEL_COUNT)) as [Hl|Hl].
      * rewrite decide_True by done. by rewrite filter_cons_True.
      * rewrite decide_False by tauto. by rewrite filter_cons_False.
    + rewrite lookup_insert_ne by done. rewrite decide_False by (intros [-> _]; done). by rewrite app_nil_r.
Qed.

Context (Hmax : LOG_FRAME_MAX + 8 <= M < 2 ^ 64).

Lemma OnDataIn_frames sTitle sid fr r s s' : inv M s -> poll s = Parse sid fr r -> lenZ sTitle = TITLE -> frames_ok s -> OnDataIn M sTitle sid fr r s = Some s' -> frames_ok s'.
Proof.
  intros I Ep Ht F. destruct I as [I1 I2 I3 I4]. pose proof (e_parse M s I2) as P. rewrite Ep in P. destruct P as (x & Es & Hx). destruct Hx as (_ & _ & Hu & _).
  unfold OnDataIn. rewrite Es. fold (rest x). destruct (Z.ltb_spec (lenZ (rest x)) LOG_FRAME_HEAD) as [Hh|Hh]; [intros [= <-]; by apply leave_frames|].
  destruct ((_ <? 1) || _) eqn:Esz; [intros [= <-]; by apply leave_frames|]. apply orb_false_iff in Esz as [Ez1%Z.ltb_ge Ez2%Z.ltb_ge].
  destruct (Z.ltb_spec (lenZ (rest x)) (LOG_FRAME_HEAD + ReadLogFrameLen (rest x))) as [Hw|Hw]; [intros [= <-]; by apply leave_frames|].
  assert (first_frame (rest x) (ReadLogFrameLen (rest x) - 1 + TITLE)) as Hf by done. pose proof (first_frame_text _ sTitle Hf Ht) as Hlen.
  destruct (_ && _); [intros [= <-]; apply leave_frames; [by apply queue_frames|apply erase_whole]|].
  destruct (Z.ltb_spec (byteZ (nth 4 (rest x) Byte.x00)) LOG_LEVEL_COUNT) as [Hl|Hl].
  - destruct (WriteLog_cases M Hmax (byteZ (nth 4 (rest x) Byte.x00)) sTitle (sub 5 (ReadLogFrameLen (rest x) - 1) (rest x)) (Some sid) s I1) as [(-> & _)|(z & Ez & Hfit & -> & _)];
      [pose proof (byteZ_range (nth 4 (rest x) Byte.x00)); lia|done|rewrite Hlen; unfold TITLE, LOG_FRAME_MAX in *; lia|..]; intros [= <-].
    + apply leave_frames; [by apply queue_frames|apply erase_whole].
    + eapply (handled_frames s); [done..|lia|done|]. intros i. unfold accept. cbn [accepted log_accepted]. rewrite from_app. f_equal. unfold from. destruct (decide (_ /\ _)) as [[-> _]|Hn]; [by rewrite filter_cons_True|].
      rewrite filter_cons_False; [done|]. cbn. intros [= ->]. by apply Hn.
  - intros [= <-]. eapply (handled_frames s); [done..|lia|done|]. intros i. rewrite decide_False by lia. by rewrite app_nil_r.
Qed.

Lemma resume_frames b s : sess_inv M s -> frames_ok s -> frames_ok (ResumeWaiting M b s).
Proof.
  intros I2 F. unfold ResumeWaiting. cbn [m_vWaitingSessions set_post]. destruct (m_vWaitingSessions s) as [|[sid n] w] eqn:Ew; [done|]. destruct (negb _); [done|].
  match goal with |- frames_ok (set_poll _ ?t) => apply (frames_same t); [done..|] end. apply upd_frames; [done|]. intros x Ex Hx. cbn in Ex.
  destruct (e_waits M s I2 sid n) as (z & Ez & _ & Hz & _); [rewrite Ew; by left|]. assert (z = x) as -> by congruence. split; [|done]. unfold whole, rest in *. cbn. by rewrite Hz in Hx.
Qed.

Lemma event_frames e s s' : inv M s -> frames_ok s -> do_event M e s = Some s' -> frames_ok s'.
Proof.
  intros I F. pose proof I as [I1 I2 I3 I4]. destruct e as [sid|sid l|sid|iLevel sTitle sText| |k|sTitle|k|[k|]| |]; cbn [do_event]; intros E.
  - destruct (free s); [|done]. destruct (sess s !! sid) eqn:En; [done|]. injection E as <-. destruct F as [F1 F2]. split; cbn.
    + intros i z Ez. destruct (decide (sid = i)) as [<-|Hne]; [rewrite lookup_insert_eq in Ez; by injection Ez as <-|rewrite lookup_insert_ne in Ez by done; by apply (F1 i)].
    + intros i. rewrite (F2 i). destruct (decide (sid = i)) as [<-|Hne]; [by rewrite lookup_insert_eq, En|by rewrite lookup_insert_ne].
  - destruct (free s) eqn:Ef; [|done]. destruct (sess s !! sid) as [x|] eqn:Ex; [|done]. destruct (closed x) eqn:Ec; [done|]. injection E as <-.
    assert (frames_ok (upd sid (receive l) s)) as H; [|by destruct (m_bWaiting x)]. apply upd_frames; [done|]. intros y Ey Hy. assert (y = x) as -> by congruence. split; [|done].
    assert (used x = 0) as Hu; [|unfold whole, rest in *; rewrite Hu in Hy; cbn in *; by rewrite Hy, <- app_assoc]. destruct (m_bWaiting x) eqn:Ew.
    + apply (e_flag M s I2 sid x Ex) in Ew. apply list_elem_of_fmap in Ew as ([i n] & -> & Hin). destruct (e_waits M s I2 i n Hin) as (z & Ez & _ & Hz & _). cbn in *. congruence.
    + apply free_spec in Ef as [Hp _]. destruct (broken x) eqn:Eb; [rewrite (e_closed M s I2 sid x Ex Eb) in Ec; done|]. apply (e_rest M s I2 sid x Ex Eb Ew). unfold parsing. rewrite Hp. intros [].
  - injection E as <-. by apply upd_frames.
  - destruct (serving s); [|done]. destruct (Z.eqb_spec (lenZ sTitle) TITLE) as [Ht|]; [|done]. injection E as <-.
    destruct (local_cases M Hmax iLevel sTitle sText s I1 Ht) as [->|(x & Ex & _ & _ & _ & _ & ->)]; [done|]. destruct F as [F1 F2]. split; cbn; [done|]. intros i. rewrite from_app, (F2 i). apply app_nil_r.
  - destruct (posted s); [done|]. destruct (free s); [|done]. injection E as <-. apply resume_frames; [by destruct I2|done].
  - destruct (insts s !! k); [|done]. destruct (serving s); [|done]. by injection E as <-.
  - destruct (Z.eqb_spec (lenZ sTitle) TITLE) as [Ht|]; [|done]. unfold turn in E. destruct (poll s) as [|sid fr r|sid] eqn:Ep; [done|by apply (OnDataIn_frames sTitle sid fr r s)|]. injection E as <-.
    rewrite set_poll_schedule. by apply schedule_frames.
  - unfold write in E. destruct (insts s !! k) as [x|]; [|done]. destruct (at_ x); try done.
    + destruct (m_vLogs x); [destruct (m_bQuit x); [|destruct (m_bRotationPending x)]|]; by injection E as <-.
    + by injection E as <-.
    + injection E as <-. rewrite complete_main. by apply schedule_frames.
  - destruct (insts s !! k) as [x|]; [|done]. destruct (at_ x); try done. by injection E as <-.
  - destruct (main s); try done. by injection E as <-.
  - destruct (free s); [|done]. by injection E as <-.
  - unfold stopping in E. destruct (main s) as [| | | |k|k|]; try done.
    + destruct (poll s); try done. injection E as <-. apply resume_frames; [by destruct I2|done].
    + destruct (poll s); try done. by injection E as <-.
    + destruct (insts s !! k); by injection E as <-.
    + destruct (insts s !! k) as [x|]; [|done]. destruct (at_ x); try done. by injection E as <-.
Qed.

Lemma run_frames es : forall s s', inv M s -> frames_ok s -> run M es s = Some s' -> frames_ok s'.
Proof.
  induction es as [|e es IH]; cbn; intros s s' I H; [by intros [= <-]|]. destruct (do_event M e s) as [t|] eqn:E; [|done]. apply IH; [by apply (log_event_inv M Hmax e s)|by apply (event_frames e s)].
Qed.

Lemma start_frames : frames_ok start.
Proof. split; [intros sid x H; cbn in H; by rewrite lookup_empty in H|]. intros sid. cbn. by rewrite lookup_empty. Qed.

(** ** Work left *)

(** The steps a writer can still do without new lines. *)
Definition work (x : inst) : Z :=
  match at_ x with Asleep | Ended => 0 | Awake => 1 | Writing _ => 3 | Completing _ => 2 end + (if m_bRotationPending x then 1 else 0) + match m_vLogs x with [] => 0 | _ => 3 end.

Definition unread (m : gmap Z session) : nat := msum (fun x => length (rest x)) m.

Lemma work_nonneg x : 0 <= work x.
Proof. unfold work. destruct (at_ x), (m_bRotationPending x), (m_vLogs x); lia. Qed.

Lemma AddLog_work l x : inst_ok x -> work (AddLog l x) <= work x + 4.
Proof. unfold inst_ok, work, AddLog. cbn. destruct (at_ x) eqn:Ea, (m_vLogs x) eqn:El; cbn; intros H; rewrite ?Ea; cbn; destruct (m_bRotationPending x); try lia; destruct H; congruence. Qed.

(** A step of a writer. *)
Lemma write_step k s s' : write M k s = Some s' -> exists x y, insts s !! k = Some x /\ insts s' = <[k := y]> (insts s) /\ work y < work x /\ sess s' = sess s /\
  m_vWaitingSessions s' = m_vWaitingSessions s /\ poll s' = poll s /\ main s' = match at_ x, main s with Completing _, Dozing => Draining | _, m => m end.
Proof.
  assert (forall (P : state -> Prop) t, P t -> P (set_post true (S (posted t)) t) -> P (ScheduleResume M t)) as Hs by apply schedule_cases.
  unfold write. destruct (insts s !! k) as [x|] eqn:E; [|done]. unfold work. destruct (at_ x) as [| |l|n|] eqn:Ea; try done.
  - destruct (m_vLogs x) eqn:El; [destruct (m_bQuit x); [|destruct (m_bRotationPending x) eqn:Er]|]; intros [= <-]; exists x; eexists; (split; [done|]); (split; [done|]); rewrite Ea, El; cbn; (split_and!; [|done..|by destruct (main s)]);
      rewrite ?Er; try lia; destruct (m_bRotationPending x); lia.
  - intros [= <-]. exists x; eexists. split; [done|]. split; [done|]. rewrite Ea. cbn. split_and!; [lia|done..|by destruct (main s)].
  - intros [= <-]. exists x; eexists. rewrite complete_main. split; [done|]. apply Hs; cbn; (split; [done|]); rewrite Ea; cbn; (split_and!; [lia|done..]).
Qed.

(** Who owes bytes can step. *)
Lemma write_enabled k s x : insts s !! k = Some x -> at_ x <> Asleep -> at_ x <> Ended -> exists s', write M k s = Some s'.
Proof. intros E H1 H2. unfold write. rewrite E. destruct (at_ x); try done; [destruct (m_vLogs x); [destruct (m_bQuit x); [|destruct (m_bRotationPending x)]|]|..]; by eexists. Qed.

Lemma total_pos l : 0 < total owed l -> exists k x, l !! k = Some x /\ 0 < owed x.
Proof.
  induction l as [|x l IH]; cbn; [lia|]. intros H. destruct (Z.ltb_spec 0 (owed x)) as [Hx|Hx]; [by exists 0%nat, x|]. destruct IH as (k & y & Hk & Hy); [lia|]. by exists (S k), y.
Qed.

Lemma owes_enabled s : insts_inv M s -> 0 < m_iPendingBytes s -> exists k s', write M k s = Some s'.
Proof.
  intros I H. pose proof (n_pending M s I) as [Hp _]. rewrite Hp in H. destruct (total_pos _ H) as (k & x & E & Hx). destruct (n_ok M s I k x E) as [Ho _].
  exists k. apply (write_enabled k s x E); intros Ea; unfold owed, inst_ok in *; rewrite Ea in *; destruct Ho as [Hl _]; by rewrite Hl in Hx.
Qed.

(** The first who waits has a line that fits an empty server. *)
Lemma waiter_fits s sid n w : sess_inv M s -> m_vWaitingSessions s = (sid, n) :: w -> n <= M.
Proof.
  intros I E. destruct (e_waits M s I sid n) as (x & _ & _ & _ & _ & H & _ & ->); [rewrite E; by left|]. unfold LOG_FRAME_MAX, TITLE in *. lia.
Qed.

Lemma unread_upd sid f s : (forall x, length (rest (f x)) = length (rest x)) -> unread (sess (upd sid f s)) = unread (sess s).
Proof. intros H. unfold upd. destruct (sess s !! sid) as [x|] eqn:E; [|done]. cbn. unfold unread. pose proof (msum_upd (fun x => length (rest x)) (sess s) sid x (f x) E) as Hm. cbn in Hm. rewrite H in Hm. lia. Qed.

Lemma leave_unread f sid r s : (forall x, rest (f x) = rest x) -> unread (sess (leave f sid r s)) = unread (sess s).
Proof.
  intros H. unfold leave. cbv zeta. cbn. apply unread_upd. intros x. destruct r; [|by rewrite H]. unfold rest. destruct (resume_read_fields (f x)) as (_ & -> & -> & _). fold (rest (f x)). by rewrite H.
Qed.

Lemma queue_unread sid n s : unread (sess (QueueWaiter M sid n s)) = unread (sess s).
Proof. unfold QueueWaiter. apply (schedule_cases M (fun t => unread (sess t) = unread (sess s))); exact (unread_upd sid WaitForWrite (set_queue _ _ _ s) (fun _ => eq_refl)). Qed.

Lemma queue_main sid n s : main (QueueWaiter M sid n s) = main s.
Proof. unfold QueueWaiter. apply schedule_cases; cbn; unfold upd; cbn; by destruct (sess s !! sid). Qed.

Lemma leave_main f sid r s : main (leave f sid r s) = main s.
Proof. unfold leave, upd. cbn. by destruct (sess s !! sid). Qed.

Lemma leave_files f sid r s : insts (leave f sid r s) = insts s.
Proof. unfold leave, upd. cbn. by destruct (sess s !! sid). Qed.

Lemma queue_insts sid n s : insts (QueueWaiter M sid n s) = insts s.
Proof. pose proof (files_queue sid n s) as H. unfold files in H. congruence. Qed.

(** What a turn of OnDataIn does: a frame is handled, or the loop is left, which it is not
    before the frame that has been waited for. *)
Definition takes (sid fr : Z) (r : bool) (s s' : state) : Prop :=
  exists x n, sess s !! sid = Some x /\ 0 <= used x /\ first_frame (rest x) n /\ poll s' = Parse sid (fr + 1) r /\ total work (insts s') <= total work (insts s) + 4 /\
    sess s' = <[sid := handled (LOG_FRAME_HEAD + ReadLogFrameLen (rest x)) (byteZ (nth 4 (rest x) Byte.x00)) (sub 5 (ReadLogFrameLen (rest x) - 1) (rest x)) x]> (sess s).
Definition leaves (sid fr : Z) (r : bool) (s s' : state) : Prop :=
  poll s' = (if r then Finish sid else Idle) /\ insts s' = insts s /\ unread (sess s') = unread (sess s) /\ ~ (fr = 0 /\ r = true).

Lemma OnDataIn_cases sTitle sid fr r s : inv M s -> poll s = Parse sid fr r -> lenZ sTitle = TITLE ->
  exists s', OnDataIn M sTitle sid fr r s = Some s' /\ main s' = main s /\ (takes sid fr r s s' \/ leaves sid fr r s s').
Proof.
  intros [I1 I2 I3 I4] Ep Ht. pose proof (e_parse M s I2) as P. pose proof (e_resuming M s I2) as R. rewrite Ep in P, R. destruct P as (x & Es & Hx). destruct Hx as (_ & _ & Hu & _ & H0 & Hfirst).
  unfold OnDataIn. rewrite Es. fold (rest x).
  assert (forall f t, (forall y, rest (f y) = rest y) -> main t = main s -> insts t = insts s -> unread (sess t) = unread (sess s) -> ~ (fr = 0 /\ r = true) ->
    exists s', Some (leave f sid r t) = Some s' /\ main s' = main s /\ (takes sid fr r s s' \/ leaves sid fr r s s')) as Hleave.
  { intros f t Hf T1 T2 T3 Hn. eexists. split; [done|]. split; [by rewrite leave_main|]. right. split; [done|]. by rewrite leave_files, leave_unread. }
  assert (fr = 0 /\ r = true -> exists n, first_frame (rest x) n /\ fits M n s = true) as Hff by (intros [-> ->]; by apply Hfirst). clear Hfirst.
  destruct (Z.ltb_spec (lenZ (rest x)) LOG_FRAME_HEAD) as [Hh|Hh]; [apply Hleave; try done; intros (n & (Hf & _) & _)%Hff; lia|].
  destruct ((_ <? 1) || _) eqn:Esz.
  { apply Hleave; try done. intros (n & (_ & Hf & _) & _)%Hff. apply orb_true_iff in Esz as [Esz%Z.ltb_lt|Esz%Z.ltb_lt]; lia. }
  apply orb_false_iff in Esz as [Ez1%Z.ltb_ge Ez2%Z.ltb_ge].
  destruct (Z.ltb_spec (lenZ (rest x)) (LOG_FRAME_HEAD + ReadLogFrameLen (rest x))) as [Hw|Hw]; [apply Hleave; try done; intros (n & (_ & _ & Hf & _) & _)%Hff; lia|].
  assert (first_frame (rest x) (ReadLogFrameLen (rest x) - 1 + TITLE)) as Hf by done. pose proof (first_frame_text _ sTitle Hf Ht) as Hlen.
  destruct (_ && _) eqn:Edefer.
  { apply Hleave; [done|apply queue_main|apply queue_insts|apply queue_unread|]. intros [H _]. apply H0 in H. by rewrite H in Edefer. }
  assert (forall t, sess t = sess s -> main t = main s -> total work (insts t) <= total work (insts s) + 4 -> 
    exists s', Some (set_poll (Parse sid (fr + 1) r) (upd sid (handled (LOG_FRAME_HEAD + ReadLogFrameLen (rest x)) (byteZ (nth 4 (rest x) Byte.x00)) (sub 5 (ReadLogFrameLen (rest x) - 1) (rest x))) t)) = Some s' /\ main s' = main s /\ (takes sid fr r s s' \/ leaves sid fr r s s')) as Htake.
  { intros t T1 T2 T3. eexists. split; [done|]. rewrite (upd_some sid _ t x) by by rewrite T1. cbn. split; [done|]. left. exists x, (ReadLogFrameLen (rest x) - 1 + TITLE). split_and!; try done; [lia|by rewrite T1]. }
  destruct (Z.ltb_spec (byteZ (nth 4 (rest x) Byte.x00)) LOG_LEVEL_COUNT) as [Hl|Hl]; [|apply Htake; [done..|lia]].
  destruct (WriteLog_cases M Hmax (byteZ (nth 4 (rest x) Byte.x00)) sTitle (sub 5 (ReadLogFrameLen (rest x) - 1) (rest x)) (Some sid) s I1) as [(-> & Hno)|(z & Ez & Hfit & -> & _)];
    [pose proof (byteZ_range (nth 4 (rest x) Byte.x00)); lia|done|rewrite Hlen; unfold TITLE, LOG_FRAME_MAX in *; lia|..].
  - apply Hleave; [done|apply queue_main|apply queue_insts|apply queue_unread|]. intros H. destruct (Hff H) as (n & (_ & _ & _ & ->) & Hfit). rewrite Hlen in Hno. destruct H as [-> ->].
    destruct Hno as [Hno|[Hno _]]; [congruence|]. unfold resumes in Hno. rewrite R, Z.eqb_refl in Hno. done.
  - apply Htake; [done..|]. cbn. rewrite (total_insert work _ _ z _ Ez). destruct (n_ok M s I1 _ z Ez) as [Ho _]. pose proof (AddLog_work (sTitle ++ sub 5 (ReadLogFrameLen (rest x) - 1) (rest x)) z Ho). lia.
Qed.

(** ** Who waits is served *)

Lemma total_work_nonneg l : 0 <= total work l.
Proof. induction l as [|x l IH]; cbn; [lia|]. pose proof (work_nonneg x). lia. Qed.

(** Steps of the server's own threads. *)
Definition own (e : event) : Prop := match e with Write _ | ResumeOnLoop | Turn _ => True | _ => False end.

Lemma writers_make_room s sid n w : inv M s -> main s = Serving -> m_vWaitingSessions s = (sid, n) :: w -> exists es s', Forall own es /\ run M es s = Some s' /\ inv M s' /\
  fits M n s' = true /\ sess s' = sess s /\ m_vWaitingSessions s' = (sid, n) :: w /\ poll s' = poll s /\ main s' = Serving.
Proof.
  remember (Z.to_nat (total work (insts s))) as k eqn:Ek. assert (total work (insts s) <= Z.of_nat k) as Hk by lia. clear Ek. revert s Hk. induction k as [|k IH]; intros s Hk I Hm Hw.
  all: destruct (fits M n s) eqn:Ef; [exists [], s; by split_and!|].
  all: assert (0 < m_iPendingBytes s) as Hp by
    (apply not_true_iff_false in Ef; rewrite (fits_iff M Hmax n s (v_insts M s I)) in Ef; pose proof (waiter_fits s sid n w (v_sess M s I) Hw); lia).
  all: destruct (owes_enabled s (v_insts M s I) Hp) as (j & t & E); pose proof E as Ew; apply write_step in E as (x & y & Ex & Ei & Hxy & Es & Eq & Epo & Em);
    assert (total work (insts t) < total work (insts s)) as Hlt by (rewrite Ei, (total_insert work _ j x y Ex); lia).
  - pose proof (total_work_nonneg (insts t)). lia.
  - destruct (IH t) as (es & s' & Hes & Hrun & H); [lia|by apply (log_event_inv M Hmax (Write j) s)|rewrite Em, Hm; by destruct (at_ x)|by rewrite Eq|].
    exists (Write j :: es), s'. split; [by constructor|]. split; [cbn; by rewrite Ew|]. by rewrite Es, Epo in H.
Qed.

Definition some_title : list byte := replicate 9 Byte.x20.

Lemma waiter_resumed s sid n w : inv M s -> main s = Serving -> poll s = Idle -> m_vWaitingSessions s = (sid, n) :: w -> fits M n s = true -> exists es s' x x', Forall own es /\ run M es s = Some s' /\
  sess s !! sid = Some x /\ sess s' !! sid = Some x' /\ taken x' = taken x ++ [(byteZ (nth 4 (buf x) Byte.x00), sub 5 (ReadLogFrameLen (buf x) - 1) (buf x))].
Proof.
  intros I Hm Hp Hw Hf. assert (m_bStopping s = false) as Hs by (rewrite (c_stopping M s (v_ctl M s I)); unfold serving; by rewrite Hm).
  assert (posted s = 1%nat) as Hpost.
  { rewrite (c_posted M s (v_ctl M s I) Hs). pose proof (v_sched M s I Hs) as H. rewrite Hw in H. rewrite H; [done| |done]. rewrite (e_resuming M s (v_sess M s I)). by rewrite Hp. }
  destruct (e_waits M s (v_sess M s I) sid n) as (x & Ex & Hb & Hu & Hx); [rewrite Hw; by left|].
  set (t := ResumeWaiting M false (set_post (m_bResumePosted s) 0 s)).
  assert (do_event M ResumeOnLoop s = Some t) as Et by (cbn; rewrite Hpost; unfold free; by rewrite Hp, Hm).
  assert (poll t = Parse sid 0 true /\ sess t !! sid = Some (resume false x)) as [Hpt Hst].
  { unfold t, ResumeWaiting. cbn [m_vWaitingSessions set_post]. rewrite Hw. change (fits M n (set_post false _ _)) with (fits M n s). rewrite Hf. cbn [negb].
    rewrite (upd_some sid _ _ x) by done. cbn. by rewrite lookup_insert_eq. }
  destruct (OnDataIn_cases some_title sid 0 true t) as (s' & E & _ & [(y & m & Ey & _ & _ & _ & _ & Es)|(_ & _ & _ & H)]); [by apply (log_event_inv M Hmax ResumeOnLoop s)|done|done| |by destruct H].
  assert (y = resume false x) as -> by congruence.
  assert (do_event M (Turn some_title) t = Some s') as Et' by (cbn [do_event]; unfold turn; by rewrite Hpt).
  exists [ResumeOnLoop; Turn some_title], s', x. eexists. split; [repeat constructor|]. split; [cbn [run]; by rewrite Et, Et'|]. split; [done|]. rewrite Es, lookup_insert_eq. split; [done|].
  done.
Qed.

(** ** Stop *)

Definition stop_ok (s : state) : Prop :=
  match main s with Joining k => (k < 5)%nat | _ => True end /\ match poll s with Parse _ _ false => main s = Serving | _ => True end.

Lemma stop_same s t : main t = main s -> poll t = poll s -> stop_ok s -> stop_ok t.
Proof. unfold stop_ok. by intros -> ->. Qed.

Lemma schedule_place s : main (ScheduleResume M s) = main s /\ poll (ScheduleResume M s) = poll s.
Proof. by apply (schedule_cases M (fun t => main t = main s /\ poll t = poll s)). Qed.

Lemma resume_place b s : main (ResumeWaiting M b s) = main s /\ (poll (ResumeWaiting M b s) = poll s \/ exists sid, poll (ResumeWaiting M b s) = Parse sid 0 true).
Proof.
  unfold ResumeWaiting. cbn [m_vWaitingSessions set_post]. destruct (m_vWaitingSessions s) as [|[sid n] w]; [split; [done|by left]|]. destruct (negb _); [split; [done|by left]|].
  cbn. split; [|right; by exists sid]. unfold upd. cbn. by destruct (sess s !! sid).
Qed.

Lemma upd_place sid f s : main (upd sid f s) = main s /\ poll (upd sid f s) = poll s.
Proof. unfold upd. by destruct (sess s !! sid). Qed.

Lemma resume_stop b s : stop_ok s -> stop_ok (ResumeWaiting M b s).
Proof. intros [H1 H2]. destruct (resume_place b s) as [Hm [Hp|[sid Hp]]]; [by apply (stop_same s)|]. unfold stop_ok. by rewrite Hm, Hp. Qed.

Lemma poll_idle s : ctl_inv M s -> main s <> Serving -> main s <> Checking -> poll s = Idle.
Proof. intros I H1 H2. destruct (poll s) eqn:E; [done|..]; by destruct (c_poll M s I) as [H|H]; rewrite ?E. Qed.

Lemma event_stop_ok e s s' : inv M s -> stop_ok s -> do_event M e s = Some s' -> stop_ok s'.
Proof.
  intros I F. pose proof I as [I1 I2 I3 I4]. destruct e as [sid|sid l|sid|iLevel sTitle sText| |k|sTitle|k|[k|]| |]; cbn [do_event]; intros E.
  - destruct (free s); [|done]. destruct (sess s !! sid) eqn:En; [done|]. by injection E as <-.
  - destruct (free s) eqn:Ef; [|done]. destruct (sess s !! sid) as [x|] eqn:Ex; [|done]. destruct (closed x) eqn:Ec; [done|]. injection E as <-. destruct (upd_place sid (receive l) s) as [Hm Hp].
    destruct (m_bWaiting x); [by apply (stop_same s)|]. apply free_spec in Ef as [_ Hs]. unfold stop_ok. cbn. rewrite Hm, Hs. done.
  - injection E as <-. destruct (upd_place sid close s) as [Hm Hp]. by apply (stop_same s).
  - destruct (serving s); [|done]. destruct (Z.eqb_spec (lenZ sTitle) TITLE) as [Ht|]; [|done]. injection E as <-. by destruct (local_cases M Hmax iLevel sTitle sText s I1 Ht) as [->|(x & Ex & _ & _ & _ & _ & ->)].
  - destruct (posted s); [done|]. destruct (free s); [|done]. injection E as <-. by apply resume_stop.
  - destruct (insts s !! k); [|done]. destruct (serving s); [|done]. by injection E as <-.
  - destruct (Z.eqb_spec (lenZ sTitle) TITLE) as [Ht|]; [|done]. unfold turn in E. destruct (poll s) as [|sid fr r|sid] eqn:Ep; [done| |].
    + destruct (OnDataIn_cases sTitle sid fr r s I Ep Ht) as (t & Et & Em & H). rewrite Et in E. injection E as <-. destruct F as [F1 F2]. rewrite Ep in F2. unfold stop_ok. rewrite Em.
      destruct H as [(x & n & _ & _ & _ & -> & _)|(-> & _)]; split; try done. by destruct r.
    + injection E as <-. destruct F as [F1 F2]. unfold stop_ok. cbn. by rewrite (proj1 (schedule_place _)).
  - apply write_step in E as (x & y & _ & _ & _ & _ & _ & Hp & Hm). destruct F as [F1 F2]. unfold stop_ok. rewrite Hp, Hm. destruct (poll s) as [|? ? []|]; try (rewrite F2; by destruct (at_ x)); split; try done; by destruct (at_ x), (main s).
  - destruct (insts s !! k) as [x|]; [|done]. destruct (at_ x); try done. by injection E as <-.
  - destruct (main s) eqn:Em; try done. injection E as <-. destruct F as [F1 F2]. split; [done|]. cbn. rewrite Em in F2. by destruct (poll s) as [|? ? []|].
  - destruct (free s) eqn:Ef; [|done]. apply free_spec in Ef as [Hp _]. injection E as <-. split; [done|]. cbn. by rewrite Hp.
  - destruct F as [F1 F2]. unfold stopping in E. destruct (main s) as [| | | |k|k|] eqn:Em; try done.
    + destruct (poll s) eqn:Ep; try done. injection E as <-. apply resume_stop. split; [done|]. cbn. by rewrite Ep.
    + destruct (poll s) eqn:Ep; try done. injection E as <-. split; cbn; [|by rewrite Ep]. destruct (m_vWaitingSessions s) as [|[? n] ?]; [done|]. by destruct (fits M n s).
    + pose proof (poll_idle s I3 ltac:(congruence) ltac:(congruence)) as Hp.
      destruct (insts s !! k) as [x|] eqn:Ex; injection E as <-; (split; [|cbn; by rewrite Hp]); cbn; [|done]. apply lookup_lt_Some in Ex. pose proof (n_len M s I1). lia.
    + pose proof (poll_idle s I3 ltac:(congruence) ltac:(congruence)) as Hp.
      destruct (insts s !! k) as [x|]; [|done]. destruct (at_ x); try done. injection E as <-. split; [done|]. cbn. by rewrite Hp.
Qed.

Lemma run_stop_ok es : forall s s', inv M s -> stop_ok s -> run M es s = Some s' -> stop_ok s'.
Proof.
  induction es as [|e es IH]; cbn; intros s s' I H; [by intros [= <-]|]. destruct (do_event M e s) as [t|] eqn:E; [|done]. apply IH; [by apply (log_event_inv M Hmax e s)|by apply (event_stop_ok e s)].
Qed.

(** The steps of Stop, of the writers and of what Stop calls. *)
Definition winding (e : event) : Prop := match e with Write _ | StopTurn | Turn _ => True | _ => False end.

Definition phase (s : state) : Z :=
  match main s with
  | Serving | Stopped => 0
  | Draining => 64
  | Checking =>
      match poll s with
      | Parse _ fr _ => if fr =? 0 then 63 else 70
      | Finish _ => 69
      | Idle => match m_vWaitingSessions s with [] => 62 | (_, n) :: _ => if fits M n s then 65 else 62 end
      end
  | Dozing => 61
  | Quitting k => 10 * Z.of_nat (5 - k) + 1
  | Joining k => 10 * Z.of_nat (5 - k) - 5
  end.

(** What stopping still takes. *)
Definition effort (s : state) : Z := 5 * total work (insts s) + 50 * Z.of_nat (unread (sess s)) + phase s.

Lemma effort_nonneg s : stop_ok s -> 0 <= effort s.
Proof.
  intros [H _]. unfold effort. pose proof (total_work_nonneg (insts s)). assert (0 <= phase s); [|lia]. unfold phase. destruct (main s); try lia. destruct (poll s) as [|? fr ?|].
  - destruct (m_vWaitingSessions s) as [|[? n] ?]; [lia|]. destruct (fits M n s); lia.
  - destruct (fr =? 0); lia.
  - lia.
Qed.

Lemma takes_effort sid fr r s s' : 0 <= fr -> poll s = Parse sid fr r -> main s = Checking -> main s' = Checking -> takes sid fr r s s' -> effort s' < effort s.
Proof.
  intros Hfr Ep Hm Hm' (x & n & Es & Hu & Hf & Ep' & Hw & Es'). unfold effort, phase. rewrite Hm, Hm', Ep, Ep', Es'. rewrite (proj2 (Z.eqb_neq (fr + 1) 0)) by lia.
  destruct Hf as (_ & H1 & H2 & _). unfold LOG_FRAME_HEAD in *.
  set (y := handled _ _ _ x). assert (length (rest y) + 5 <= length (rest x))%nat as Hy by (unfold y; rewrite rest_handled by lia; rewrite length_drop; unfold lenZ in *; lia).
  unfold unread. pose proof (msum_upd (fun x => length (rest x)) (sess s) sid x y Es) as Hs. cbn beta in Hs. destruct (fr =? 0); lia.
Qed.

Lemma leaves_effort sid fr s s' : poll s = Parse sid fr true -> main s = Checking -> main s' = Checking -> leaves sid fr true s s' -> effort s' < effort s.
Proof.
  intros Ep Hm Hm' (Ep' & Ei & Eu & Hn). unfold effort, phase. rewrite Hm, Hm', Ep, Ep', Ei, Eu. destruct (Z.eqb_spec fr 0) as [->|]; [by destruct Hn|lia].
Qed.

Lemma write_effort k s s' : ctl_inv M s -> main s <> Serving -> write M k s = Some s' -> effort s' < effort s /\ main s' <> Serving.
Proof.
  intros I Hm E. apply write_step in E as (x & y & Ex & Ei & Hw & Es & Eq & Ep & Em). split; [|rewrite Em; by destruct (at_ x), (main s)].
  unfold effort. rewrite Ei, Es, (total_insert work _ k x y Ex). assert (phase s' <= phase s + 3); [|lia]. unfold phase. rewrite Em, Ep, Eq.
  destruct (main s); destruct (at_ x); try lia; destruct (poll s) as [|? fr ?|]; try lia; destruct (m_vWaitingSessions s) as [|[? m] ?]; try lia; destruct (fits M m s), (fits M m s'); lia.
Qed.

Lemma stop_effort s s' : inv M s -> stopping M s = Some s' -> effort s' < effort s /\ main s' <> Serving.
Proof.
  intros [I1 I2 I3 I4]. unfold stopping, effort, phase. destruct (main s) as [| | | |k|k|] eqn:Em; try done.
  - destruct (poll s) eqn:Ep; try done. intros [= <-]. unfold ResumeWaiting. cbn [m_vWaitingSessions set_post set_main]. destruct (m_vWaitingSessions s) as [|[sid n] w] eqn:Ew; [cbn; rewrite Ep, Ew; split; [lia|done]|].
    destruct (fits M n _) eqn:Ef; cbn [negb]; [|cbn; rewrite Ep, Ew; unfold fits in *; cbn in *; rewrite Ef; split; [lia|done]].
    set (t := set_queue _ w _ _). assert (unread (sess (upd sid (resume true) t)) = unread (sess s)) as Hu.
    { destruct (e_waits M s I2 sid n) as (x & Ex & _ & Hx & _); [rewrite Ew; by left|]. rewrite (upd_some sid _ t x Ex). cbn. unfold unread. pose proof (msum_upd (fun x => length (rest x)) (sess s) sid x (resume true x) Ex) as H. 
      cbn beta in H. unfold rest in H at 2 4. cbn [resume buf used] in H. rewrite Hx in H. lia. }
    cbn [insts sess set_poll main poll]. rewrite Hu. unfold upd. destruct (sess t !! sid); cbn; (split; [lia|done]).
  - destruct (poll s) eqn:Ep; try done. intros [= <-]. cbn. destruct (m_vWaitingSessions s) as [|[sid n] w]; [split; [cbn; lia|done]|]. destruct (fits M n s); split; try done; lia.
  - destruct (insts s !! k) as [x|] eqn:Ex; intros [= <-]; cbn; (split; [|done]); [|lia]. rewrite (total_insert work _ k x _ Ex). pose proof (lookup_lt_Some _ _ _ Ex) as Hk. rewrite (n_len M s I1) in Hk.
    assert (work (mkInst (m_vLogs x) true (m_bRotationPending x) (wake (at_ x)) (out x)) <= work x + 1) by (unfold work; cbn; destruct (at_ x); cbn; lia). lia.
  - destruct (insts s !! k) as [x|] eqn:Ex; [|done]. destruct (at_ x); try done. intros [= <-]. cbn. pose proof (lookup_lt_Some _ _ _ Ex) as Hk. rewrite (n_len M s I1) in Hk. split; [lia|done].
Qed.

Lemma winding_effort e s s' : inv M s -> stop_ok s -> main s <> Serving -> winding e -> do_event M e s = Some s' -> effort s' < effort s /\ main s' <> Serving.
Proof.
  intros I [F1 F2] Hm He. destruct e; try done; cbn [do_event]; intros E.
  - destruct (Z.eqb_spec (lenZ sTitle) TITLE) as [Ht|]; [|done]. unfold turn in E. destruct (poll s) as [|sid fr r|sid] eqn:Ep; [done| |];
      (destruct (c_poll M s (v_ctl M s I)) as [H|Hc]; [by rewrite Ep|done|]).
    + destruct r; [|done]. destruct (OnDataIn_cases sTitle sid fr true s I Ep Ht) as (t & Et & Em & H). rewrite Et in E. injection E as <-. split; [|congruence]. 
      pose proof (e_parse M s (v_sess M s I)) as P. rewrite Ep in P. destruct P as (x & _ & _ & _ & _ & Hfr & _).
      destruct H as [H|H]; [apply (takes_effort sid fr true)|apply (leaves_effort sid fr)]; congruence || done.
    + injection E as <-. rewrite set_poll_schedule. set (t := set_poll _ _). assert (main t = Checking /\ insts t = insts s /\ sess t = sess s /\ poll t = Idle) as (T1 & T2 & T3 & T4) by done.
      assert (effort t < effort s) as H by (unfold effort, phase; rewrite T1, T2, T3, T4, Hc, Ep; destruct (m_vWaitingSessions t) as [|[? m] ?]; [lia|]; destruct (fits M m t); lia).
      revert H T1. apply (schedule_cases M (fun u => effort t < effort s -> main t = Checking -> effort u < effort s /\ main u <> Serving)); intros H T; (split; [exact H|cbn; congruence]).
  - by apply (write_effort k s s' (v_ctl M s I)).
  - by apply (stop_effort s s').
Qed.

(** Stop, when it has not ended, has a step, or a writer or the session it works on has. *)
Lemma stop_moves s : inv M s -> stop_ok s -> main s <> Serving -> main s = Stopped \/ exists e t, winding e /\ do_event M e s = Some t.
Proof.
  intros I [F1 F2] Hm. pose proof I as [I1 I2 I3 I4]. destruct (main s) as [| | | |k|k|] eqn:Em; try done; [right..|by left].
  - pose proof (poll_idle s I3 ltac:(congruence) ltac:(congruence)) as Hp. exists StopTurn. cbn. unfold stopping. rewrite Em, Hp. by eexists.
  - destruct (poll s) as [|sid fr r|sid] eqn:Ep.
    + exists StopTurn. cbn. unfold stopping. rewrite Em, Ep. by eexists.
    + destruct (OnDataIn_cases some_title sid fr r s I Ep eq_refl) as (t & Et & _). exists (Turn some_title), t. split; [done|]. cbn [do_event]. unfold turn. by rewrite Ep.
    + exists (Turn some_title). cbn. unfold turn. rewrite Ep. by eexists.
  - pose proof (c_drained M s I3) as Hd. rewrite Em in Hd. destruct (m_vWaitingSessions s) as [|[sid n] w] eqn:Ew; [done|].
    assert (0 < m_iPendingBytes s) as Hp by (apply not_true_iff_false in Hd; rewrite (fits_iff M Hmax n s I1) in Hd; pose proof (waiter_fits s sid n w I2 Ew); lia).
    destruct (owes_enabled s I1 Hp) as (j & t & E). by exists (Write j), t.
  - exists StopTurn. cbn. unfold stopping. rewrite Em. destruct (insts s !! k); by eexists.
  - assert (exists x, insts s !! k = Some x) as [x Ex] by (apply lookup_lt_is_Some; by rewrite (n_len M s I1)). destruct (n_ok M s I1 k x Ex) as [Ho Hq]. rewrite Em in Hq. unfold quit_ok in Hq. rewrite Nat.ltb_irrefl, Nat.eqb_refl in Hq.
    destruct (at_ x) eqn:Ea; [unfold inst_ok in Ho; rewrite Ea in Ho; destruct Ho as (_ & Ho & _); congruence|..].
    4: { exists StopTurn. cbn. unfold stopping. rewrite Em, Ex, Ea. by eexists. }
    all: destruct (write_enabled k s x Ex) as (t & E); [congruence..|]; by exists (Write k), t.
Qed.

Lemma winding_run es : forall s s', inv M s -> stop_ok s -> main s <> Serving -> Forall winding es -> run M es s = Some s' -> Z.of_nat (length es) + effort s' <= effort s /\ main s' <> Serving.
Proof.
  induction es as [|e es IH]; cbn; intros s s' I F Hm He; [intros [= <-]; split; [lia|done]|]. destruct (do_event M e s) as [t|] eqn:E; [|done]. apply Forall_cons in He as [He Hes].
  destruct (winding_effort e s t I F Hm He E) as [H1 H2]. intros Hr. destruct (IH t s') as [H3 H4]; try done; [by apply (log_event_inv M Hmax e s)|by apply (event_stop_ok e s)|]. split; [lia|done].
Qed.

(** ** Theorems *)

Lemma reachable es s : run M es start = Some s -> inv M s /\ lines_ok s /\ frames_ok s /\ stop_ok s.
Proof.
  intros E. pose proof (log_start_inv M Hmax) as I. split_and!; [by apply (log_run_inv M Hmax es start)|by apply (run_lines es start s start_lines)|by apply (run_frames es start s I start_frames)|].
  by apply (run_stop_ok es start s I).
Qed.

(** C32: the bytes LogManager counts as pending are at any time exactly the bytes
    of the lines taken in and not yet reported as written by the threads of the levels, and
    never more than the limit; the subtractions of size_t never wrap around. *)
Theorem budget_exact es s : run M es start = Some s -> m_iPendingBytes s = total owed (insts s) /\ 0 <= m_iPendingBytes s <= M.
Proof. intros E. destruct (reachable es s E) as (I & _). split; [apply I|by apply (pending_range M s), I]. Qed.

(** C33: whatever a session has sent, cut into reads and interrupted by waiting in
    any way, it is the frames handled so far, in order, and a rest; the lines in the logs
    from this session are, in order, those of its frames that have a known level; and the
    rest of a session in order that does not wait, and that nobody works on, is less than a
    frame. *)
Theorem each_frame_once es s sid x : run M es start = Some s -> sess s !! sid = Some x ->
  recv x = stream (taken x) ++ rest x /\ from sid (accepted s) = filter known (taken x) /\
  (poll s = Idle -> broken x = false -> m_bWaiting x = false -> short (rest x)).
Proof.
  intros E Ex. destruct (reachable es s E) as ([_ I _ _] & _ & [F1 F2] & _). split; [by apply (F1 sid)|]. split; [by rewrite F2, Ex|].
  intros Hp Hb Hw. unfold rest. destruct (e_rest M s I sid x Ex Hb Hw) as [-> H]; [|done]. unfold parsing. rewrite Hp. intros [].
Qed.

(** The file of a level holds the lines taken in for this level, in order; then
    come those its thread writes and those in its cache, and there are no others. *)
Theorem lines_in_order es s k x : run M es start = Some s -> insts s !! k = Some x -> out x ++ inflight (at_ x) ++ m_vLogs x = lines k (accepted s).
Proof. intros E. destruct (reachable es s E) as (_ & F & _). apply F. Qed.

(** C34: the first of the sessions that wait for room is not forgotten: the writers
    and the loop can, by steps of their own and without any other event, come to the point
    where the frame at the front of its buffer has been handled. *)
Theorem first_waiter_served es s sid n w : run M es start = Some s -> main s = Serving -> poll s = Idle -> m_vWaitingSessions s = (sid, n) :: w ->
  exists es' s' x x', Forall own es' /\ run M es' s = Some s' /\ sess s !! sid = Some x /\ sess s' !! sid = Some x' /\
    taken x' = taken x ++ [(byteZ (nth 4 (buf x) Byte.x00), sub 5 (ReadLogFrameLen (buf x) - 1) (buf x))].
Proof.
  intros E Hm Hp Hw. destruct (reachable es s E) as (I & _). destruct (writers_make_room s sid n w I Hm Hw) as (es1 & t & H1 & R1 & J & Hf & Es & Ew & Ept & Emt).
  destruct (waiter_resumed t sid n w J Emt ltac:(congruence) Ew Hf) as (es2 & s' & x & x' & H2 & R2 & Ex & Ex' & Ht). exists (es1 ++ es2), s', x, x'. split; [by apply Forall_app|].
  split; [|by rewrite <- Es]. clear -R1 R2. revert s R1. induction es1 as [|e es1 IH]; cbn; intros s; [by intros [= ->]|]. destruct (do_event M e s); [apply IH|done].
Qed.

(** When Stop has ended, nothing is left of what came. *)
Definition drained (s : state) : Prop :=
  m_iPendingBytes s = 0 /\ m_vWaitingSessions s = [] /\ (forall k x, insts s !! k = Some x -> out x = lines k (accepted s)) /\
  (forall sid x, sess s !! sid = Some x -> broken x = false -> recv x = stream (taken x) ++ rest x /\ short (rest x)).

Lemma stopped_drained s : inv M s -> lines_ok s -> frames_ok s -> main s = Stopped -> drained s.
Proof.
  intros I FL [FF _] Hm. pose proof I as [I1 I2 I3 I4]. pose proof (c_drained M s I3) as Hw. rewrite Hm in Hw.
  assert (forall k x, insts s !! k = Some x -> at_ x = Ended /\ m_vLogs x = []) as Hend.
  { intros k x Ex. destruct (n_ok M s I1 k x Ex) as [Ho Hq]. rewrite Hm in Hq. cbn in Hq. unfold inst_ok in Ho. rewrite Hq in Ho. by destruct Ho. }
  unfold drained. split_and!; [|done|..].
  - rewrite (proj1 (n_pending M s I1)). clear -Hend. induction (insts s) as [|x l IH]; [done|]. cbn. rewrite IH by (intros k y Ey; by apply (Hend (S k))). destruct (Hend 0%nat x eq_refl) as [Ha Hl]. unfold owed. by rewrite Ha, Hl.
  - intros k x Ex. destruct (Hend k x Ex) as [Ha Hl]. rewrite <- (FL k x Ex), Ha, Hl. by rewrite app_nil_r.
  - intros sid x Ex Hb. split; [by apply (FF sid)|]. assert (m_bWaiting x = false) as Hx by (destruct (m_bWaiting x) eqn:Ex'; [|done]; apply (e_flag M s I2 sid x Ex) in Ex'; rewrite Hw in Ex'; by apply not_elem_of_nil in Ex').
    unfold rest. destruct (e_rest M s I2 sid x Ex Hb Hx) as [-> H]; [|done]. unfold parsing. rewrite (poll_idle s I3) by congruence. intros [].
Qed.

(** C35: once Stop has begun, the steps of the threads come to an end after at most
    [effort] of them.  They end nowhere but where Stop has ended, since before, one of them
    can always go on; and then every line taken in is in the file of its level, nothing is
    pending, nobody waits, and of what an orderly session has sent, less than a frame has
    not been handled. *)
Theorem stop_drains es s es' s' : run M es start = Some s -> main s <> Serving -> Forall winding es' -> run M es' s = Some s' ->
  Z.of_nat (length es') <= effort s /\ (main s' = Stopped /\ drained s' \/ main s' <> Stopped /\ exists e t, winding e /\ do_event M e s' = Some t).
Proof.
  intros E Hm He Er. destruct (reachable es s E) as (I & FL & FF & F). destruct (winding_run es' s s' I F Hm He Er) as [H1 H2].
  pose proof (log_run_inv M Hmax es' s s' I Er) as I'. pose proof (run_stop_ok es' s s' I F Er) as F'. pose proof (effort_nonneg s' F'). split; [lia|].
  pose proof (stopped_drained s' I' (run_lines es' s s' FL Er) (run_frames es' s s' I FF Er)) as Hd. destruct (stop_moves s' I' F' H2) as [H3|H3]; [by left; split; [|apply Hd]|].
  destruct (main s'); try (right; split; [done|exact H3]). left. split; [done|by apply Hd].
Qed.

End Limit.
(** ** Examples *)

Definition limit : Z := LOG_FRAME_MAX + 64.
Lemma limit_ok : LOG_FRAME_MAX + 8 <= limit < 2 ^ 64.
Proof. by vm_compute. Qed.

Definition after (es : list event) : state := match run limit es start with Some s => s | None => start end.

Definition hello : list byte := AppendLogFrame 2 [Byte.x68; Byte.x69].
(** A frame and the beginning of another, and the first is written. *)
Definition said : list event := [Open 1; Data 1 (hello ++ take 3 hello); Turn some_title; Turn some_title; Write 2; Write 2].
(** The same, and Stop begins; then what it does. *)
Definition leaving : list event := said ++ [Data 1 (drop 3 hello); Turn some_title; Turn some_title; StopBegin].
Definition level_ends (k : nat) : list event := if (k =? 2)%nat then [StopTurn; Write k; Write k; Write k; Write k; Write k; StopTurn] else [StopTurn; Write k; StopTurn].
Definition winds : list event := [StopTurn; StopTurn] ++ concat (map level_ends (seq 0 5)) ++ [StopTurn].

Lemma log_after_run es : match run limit es start with Some _ => true | None => false end = true -> run limit es start = Some (after es).
Proof. unfold after. by destruct (run limit es start). Qed.

Example said_state : m_iPendingBytes (after said) = 11 /\ map (fun x => length (out x)) (insts (after said)) = [0; 0; 1; 0; 0]%nat /\ poll (after said) = Idle.
Proof. split_and!; reflexivity. Qed.

Example left_state : main (after (leaving ++ winds)) = Stopped /\ map (fun x => length (out x)) (insts (after (leaving ++ winds))) = [0; 0; 2; 0; 0]%nat.
Proof. split; reflexivity. Qed.

Lemma budget_exact_witness : m_iPendingBytes (after said) = total owed (insts (after said)) /\ 0 <= m_iPendingBytes (after said) <= limit.
Proof. apply (budget_exact limit limit_ok said). apply log_after_run. reflexivity. Defined.

Lemma each_frame_once_witness : exists x, sess (after said) !! 1 = Some x /\ length (taken x) = 1%nat /\ recv x = stream (taken x) ++ rest x /\ from 1 (accepted (after said)) = filter known (taken x) /\ short (rest x).
Proof.
  destruct (sess (after said) !! 1) as [x|] eqn:E; [|discriminate E].
  assert (match sess (after said) !! 1 with Some x => length (taken x) = 1%nat /\ broken x = false /\ m_bWaiting x = false | None => False end) as H by (vm_compute; by split_and!). rewrite E in H. destruct H as (H1 & H2 & H3).
  exists x. split; [done|]. split; [done|]. destruct (each_frame_once limit limit_ok said (after said) 1 x) as (K1 & K2 & K3); [apply log_after_run; reflexivity|done|]. split_and!; [done..|]. by apply K3.
Defined.

Lemma lines_in_order_witness : exists x, insts (after said) !! 2%nat = Some x /\ out x ++ inflight (at_ x) ++ m_vLogs x = lines 2 (accepted (after said)).
Proof.
  destruct (insts (after said) !! 2%nat) as [x|] eqn:E; [|discriminate E]. exists x. split; [done|]. apply (lines_in_order limit limit_ok said (after said) 2 x); [apply log_after_run; reflexivity|done].
Defined.

Lemma stop_drains_witness : main (after leaving) = Draining /\ Z.of_nat (length winds) <= effort limit (after leaving).
Proof.
  split; [reflexivity|]. destruct (run limit winds (after leaving)) as [s'|] eqn:E.
  - refine (proj1 (stop_drains limit limit_ok leaving (after leaving) winds s' _ _ _ E)); [apply log_after_run; reflexivity|intros H; discriminate H|vm_compute; repeat constructor].
  - exfalso. assert (match run limit winds (after leaving) with Some _ => true | None => false end = true) as H by reflexivity. rewrite E in H. discriminate H.
Defined.

(** A line of logd's own that leaves nine bytes of room. *)
Lemma big_text : exists l : list byte, lenZ l = limit - 18.
Proof. exists (replicate (Z.to_nat (limit - 18)) Byte.x20). unfold lenZ. rewrite length_replicate. apply Z2Nat.id. by vm_compute. Qed.

Lemma first_waiter_served_witness : exists es s sid n w, run limit es start = Some s /\ m_vWaitingSessions s = (sid, n) :: w /\
  exists es' s' x x', Forall own es' /\ run limit es' s = Some s' /\ sess s !! sid = Some x /\ sess s' !! sid = Some x' /\ length (taken x') = S (length (taken x)).
Proof.
  destruct big_text as [big Hb]. pose (es := [Open 1; Local 1 some_title big; Data 1 hello; Turn some_title]).
  assert (exists s, run limit es start = Some s /\ main s = Serving /\ poll s = Idle /\ m_vWaitingSessions s = [(1, 11)]) as (s & Hs & Hm & Hp & Hw).
  { pose (s1 := set_sess (<[1 := new_session]> ∅) start).
    pose (s2 := log_accepted (None, 1, some_title, big) (set_pending (0 + (limit - 18 + 9)) (set_insts (<[1%nat := AddLog (some_title ++ big) new_inst]> (insts s1)) s1))).
    assert (do_event limit (Local 1 some_title big) s1 = Some s2) as E2 by (cbn [do_event]; change (serving s1 && (lenZ some_title =? TITLE)) with true; unfold WriteLog; rewrite Hb; reflexivity).
    change (run limit es start) with (match do_event limit (Local 1 some_title big) s1 with Some s => run limit [Data 1 hello; Turn some_title] s | None => None end). rewrite E2.
    eexists. split; [reflexivity|]. split_and!; reflexivity. }
  destruct (first_waiter_served limit limit_ok es s 1 11 [] Hs Hm Hp Hw) as (es' & s' & x & x' & H1 & H2 & H3 & H4 & H5). exists es, s, 1, 11, []. split; [done|]. split; [done|].
  exists es', s', x, x'. split_and!; try done. rewrite H5, length_app. cbn. lia.
Defined.

End LogdRuns.
