(* ===== verification/Resp.v ===== *)
(** * Commands and replies of Redis on the wire

    modules/redisserver: how RedisServerSession cuts what its clients send into commands
    (src/redis_server_session.cpp: ReadLine, ScanCommand, ChangesConnection), and how
    RedisServer writes replies (src/redis_server.cpp: AppendReply).

    A pointer into the input is the list of bytes from there on; what a reply of hiredis
    holds is [redisReply]. *)

From Stdlib Require Import Strings.Byte.
From S2P Require Import Prelude Decimal Text.

Module Resp.
Import Text.

Definition kMaxBulk : Z := 512 * 1024 * 1024.

(** ** Cutting out a command *)

(** ReadLine: NULL for want of data, NULL with bBad, or the number and where to go on. *)
Inductive scanned : Type := More | BadLine | Line (iValue : Z) (q : list byte).

Fixpoint ReadDigits (p : list byte) (iValue iDigits : Z) : scanned :=
  match p with
  | [] => More
  | c :: t =>
      if Byte.eqb c CR then
        match t with
        | [] => More
        | d :: q => if negb (Byte.eqb d LF) || (iDigits =? 0) then BadLine else Line iValue q
        end
      else if negb (Decimal.is_digit c) || (18 <=? iDigits) then BadLine
      else ReadDigits t (iValue * 10 + Decimal.digit_value c) (iDigits + 1)
  end.

Definition ReadLine (p : list byte) : scanned :=
  match p with
  | c :: t => if Byte.eqb c Byte.x2d then match ReadDigits t 0 0 with Line v q => Line (- v) q | r => r end else ReadDigits p 0 0
  | [] => More
  end.

(** ScanCommand: 0, bBad, or the bytes of the command and iArgumentCount. *)
Inductive scan : Type := Incomplete | Bad | Command (iBytes iArgumentCount : Z).

(** The loop over the arguments; [iUsed] bytes lie behind [p], [iLeft] arguments before. *)
Fixpoint ScanArguments (fuel : nat) (iMaxBytes iArgumentCount iLeft iUsed : Z) (p : list byte) : scan :=
  if iLeft <=? 0 then Command iUsed iArgumentCount
  else
    match fuel, p with
    | O, _ | _, [] => Incomplete
    | S fuel, c :: t =>
        if negb (Byte.eqb c Byte.x24) then Bad
        else
          match ReadLine t with
          | More => Incomplete
          | BadLine => Bad
          | Line iLength q =>
              let iPrefixBytes := iUsed + (lenZ p - lenZ q) in
              if (iLength <? 0) || (kMaxBulk <? iLength) then Bad
              else if (iMaxBytes <? iPrefixBytes) || (u64 (iMaxBytes - iPrefixBytes) <? iLength + 2) then Bad
              else if lenZ q <? iLength + 2 then Incomplete
              else if negb (Byte.eqb (Text.at_ q iLength) CR) || negb (Byte.eqb (Text.at_ q (iLength + 1)) LF) then Bad
              else ScanArguments fuel iMaxBytes iArgumentCount (iLeft - 1) (iPrefixBytes + iLength + 2) (drop (Z.to_nat (iLength + 2)) q)
          end
    end.

Definition ScanCommand (p : list byte) (iMaxBytes : Z) : scan :=
  match p with
  | [] => Incomplete
  | c :: t =>
      if negb (Byte.eqb c Byte.x2a) then Bad
      else
        match ReadLine t with
        | More => Incomplete
        | BadLine => Bad
        | Line n q => if n <=? 0 then Bad else ScanArguments (length p) iMaxBytes n n (lenZ p - lenZ q) q
        end
  end.

(** ** Commands that change the connection they come on *)

Definition to_upper (b : byte) : byte := if (97 <=? byteZ b) && (byteZ b <=? 122) then byte_of_Z (byteZ b - 97 + 65) else b.

Definition vCommands : list (list byte) :=
  map txt ["SELECT"; "AUTH"; "HELLO"; "RESET"; "QUIT"; "MULTI"; "EXEC"; "DISCARD"; "WATCH"; "UNWATCH"; "CLIENT"; "MONITOR"; "SUBSCRIBE"; "PSUBSCRIBE"; "SSUBSCRIBE";
    "UNSUBSCRIBE"; "PUNSUBSCRIBE"; "SUNSUBSCRIBE"; "READONLY"; "READWRITE"; "ASKING"; "SYNC"; "PSYNC"; "REPLCONF"]%string.

Definition names (sName s : list byte) : bool := bytes_eqb s sName || starts (sName ++ CRLF) s.

(** ChangesConnection of a whole command; it reads past the end of what is not one. *)
Definition ChangesConnection (p : list byte) : result bool :=
  match ReadLine (drop 1 p) with
  | Line iCount q =>
      match ReadLine (drop 1 q) with
      | Line iLength q =>
          let sCommand := map to_upper (take (Z.to_nat iLength) q) in
          let sAsyncCommand := if starts (txt "P") sCommand then drop 1 sCommand else sCommand in
          if names (txt "MONITOR") sAsyncCommand || names (txt "UNSUBSCRIBE") sAsyncCommand || ((2 <=? iCount) && names (txt "SUBSCRIBE") sAsyncCommand) then Ok true
          else if bytes_eqb sCommand (txt "SCRIPT") && (2 <=? iCount) then
            match ReadLine (drop 1 (drop (Z.to_nat (iLength + 2)) q)) with
            | Line iLength q =>
                let sSubcommand := map to_upper (take (Z.to_nat iLength) q) in
                if bytes_eqb sSubcommand (txt "DEBUG") || existsb (Byte.eqb Byte.x00) sSubcommand then Ok true
                else Ok (existsb (bytes_eqb sCommand) vCommands)
            | _ => Err Undefined
            end
          else Ok (existsb (bytes_eqb sCommand) vCommands)
      | _ => Err Undefined
      end
  | _ => Err Undefined
  end.

(** ** Replies *)

(** [Null] is a NULL pointer. *)
Inductive redisReply : Type :=
| Null
| Status (str : option (list byte))
| Error (str : option (list byte))
| Integer (integer : Z)
| Bool (integer : Z)
| Nil
| String (str : list byte)
| Array (element : list redisReply)
| OtherReply.

Definition AppendBulk (s : list byte) : list byte := txt "$" ++ Decimal.to_string (lenZ s) ++ CRLF ++ s ++ CRLF.

Definition no_reply : list byte := txt "$-1" ++ CRLF.

Fixpoint AppendReply (r : redisReply) : list byte :=
  match r with
  | Null | Nil => no_reply
  | Status s => txt "+" ++ default [] s ++ CRLF
  | Error s => txt "-" ++ default [] s ++ CRLF
  | Integer n | Bool n => txt ":" ++ Decimal.to_string n ++ CRLF
  | String s => AppendBulk s
  | Array l => txt "*" ++ Decimal.to_string (lenZ l) ++ CRLF ++ concat (map AppendReply l)
  | OtherReply => txt "-ERR reply" ++ CRLF
  end.

Definition AppendErr (s : list byte) : list byte := txt "-" ++ s ++ CRLF.

(** ** What a client writes *)

Definition argument (s : list byte) : list byte := AppendBulk s.
Definition command (l : list (list byte)) : list byte := txt "*" ++ Decimal.to_string (lenZ l) ++ CRLF ++ concat (map argument l).

Example scan_get : ScanCommand (command [txt "GET"; txt "k"] ++ txt "*1") 1000 = Command 20 2.
Proof. reflexivity. Qed.
Example scan_part : ScanCommand (take 19 (command [txt "GET"; txt "k"])) 1000 = Incomplete.
Proof. reflexivity. Qed.
Example changes_monitor : map (fun l => ChangesConnection (command l)) [[txt "pMonitor"]; [txt "get"; txt "k"]; [txt "SCRIPT"; txt "debug"]; [txt "subscribe"]] = [Ok true; Ok false; Ok true; Ok true].
Proof. reflexivity. Qed.

(** ** Lines *)

(** A number read is behind a piece of text that gives it whatever follows. *)
Lemma ReadDigits_line p v d x q : ReadDigits p v d = Line x q -> 0 <= d -> 0 <= v ->
  exists pre, p = pre ++ q /\ (2 <= length pre)%nat /\ (d = 0 -> (3 <= length pre)%nat) /\ 0 <= x /\ forall l, ReadDigits (pre ++ l) v d = Line x l.
Proof.
  revert v d. induction p as [|c t IH]; cbn [ReadDigits]; intros v d H Hd Hv; [done|]. destruct (Byte.eqb c CR) eqn:Ec.
  - destruct t as [|e t]; [done|]. destruct (negb (Byte.eqb e LF) || (d =? 0)) eqn:Ee; [done|]. injection H as <- <-. exists [c; e]. split; [done|]. split; [cbn; lia|]. split.
    + intros ->. by rewrite orb_true_r in Ee.
    + split; [done|]. intros l. cbn. by rewrite Ec, Ee.
  - destruct (negb (Decimal.is_digit c) || (18 <=? d)) eqn:En; [done|]. pose proof En as En'. apply orb_false_iff in En as [Ed%negb_false_iff _]. apply Decimal.is_digit_value in Ed.
    apply IH in H as (pre & -> & H1 & H2 & H3 & H4); [|lia..]. exists (c :: pre). split; [done|]. split; [cbn; lia|]. split; [cbn; lia|]. split; [done|]. intros l. cbn [app ReadDigits]. by rewrite Ec, En', H4.
Qed.

Lemma ReadLine_line p x q : ReadLine p = Line x q -> exists pre, p = pre ++ q /\ (3 <= length pre)%nat /\ forall l, ReadLine (pre ++ l) = Line x l.
Proof.
  unfold ReadLine. destruct p as [|c t]; [done|]. destruct (Byte.eqb c Byte.x2d) eqn:Ec.
  - destruct (ReadDigits t 0 0) as [| |v r] eqn:E; try done. intros [= <- <-]. apply ReadDigits_line in E as (pre & -> & _ & H2 & _ & H3); [|lia..]. exists (c :: pre). split; [done|]. split; [cbn; specialize (H2 eq_refl); lia|].
    intros l. cbn [app]. by rewrite Ec, H3.
  - intros (pre & E & _ & H2 & _ & H3)%ReadDigits_line; [|lia..]. exists pre. split; [done|]. split; [by apply H2|]. intros l. rewrite <- H3. destruct pre as [|c' pre]; [by specialize (H2 eq_refl); cbn in H2; lia|]. injection E as -> ->. cbn [app]. by rewrite Ec.
Qed.

(** What is wrong stays wrong. *)
Lemma ReadDigits_bad p v d l : ReadDigits p v d = BadLine -> ReadDigits (p ++ l) v d = BadLine.
Proof.
  revert v d. induction p as [|c t IH]; cbn [ReadDigits app]; intros v d H; [done|]. destruct (Byte.eqb c CR).
  - destruct t as [|e t]; [done|]. cbn [app]. by destruct (_ || _).
  - destruct (_ || _); [done|]. by apply IH.
Qed.

Lemma ReadLine_bad p l : ReadLine p = BadLine -> ReadLine (p ++ l) = BadLine.
Proof.
  unfold ReadLine. destruct p as [|c t]; [done|]. cbn [app]. destruct (Byte.eqb c Byte.x2d).
  - destruct (ReadDigits t 0 0) eqn:E; try done. by rewrite (ReadDigits_bad t 0 0 l).
  - apply (ReadDigits_bad (c :: t)).
Qed.

(** ** Scanning *)

Lemma at_app_lt q l i : 0 <= i < lenZ q -> Text.at_ (q ++ l) i = Text.at_ q i.
Proof. intros H. by apply Text.at_app. Qed.

(** One argument, taken apart. *)
Lemma ScanArguments_step fuel M c n used p : 0 < n -> ScanArguments fuel M c n used p =
  match fuel, p with
  | O, _ | _, [] => Incomplete
  | S fuel, d :: t =>
      if negb (Byte.eqb d Byte.x24) then Bad
      else
        match ReadLine t with
        | More => Incomplete
        | BadLine => Bad
        | Line len q =>
            let pre := used + (lenZ p - lenZ q) in
            if (len <? 0) || (kMaxBulk <? len) then Bad
            else if (M <? pre) || (u64 (M - pre) <? len + 2) then Bad
            else if lenZ q <? len + 2 then Incomplete
            else if negb (Byte.eqb (Text.at_ q len) CR) || negb (Byte.eqb (Text.at_ q (len + 1)) LF) then Bad
            else ScanArguments fuel M c (n - 1) (pre + len + 2) (drop (Z.to_nat (len + 2)) q)
        end
  end.
Proof. intros H. destruct fuel; cbn [ScanArguments]; rewrite (proj2 (Z.leb_gt n 0)) by done; done. Qed.

Lemma ScanArguments_done fuel M c n used p : n <= 0 -> ScanArguments fuel M c n used p = Command used c.
Proof. intros H. destruct fuel; cbn [ScanArguments]; by rewrite (proj2 (Z.leb_le n 0)). Qed.

(** A command found ends with the text it was found in, whatever follows. *)
Lemma ScanArguments_command fuel M c n used p k c' : 0 <= used <= M -> M < 2 ^ 64 -> ScanArguments fuel M c n used p = Command k c' ->
  exists pre l, p = pre ++ l /\ k = used + lenZ pre /\ k <= M /\ c' = c /\ forall l' fuel', (length (pre ++ l') <= fuel')%nat -> ScanArguments fuel' M c n used (pre ++ l') = Command k c.
Proof.
  intros Hu HM. revert n used p Hu. induction fuel as [|fuel IH]; intros n used p Hu; (destruct (Z.leb_spec n 0) as [Hn|Hn]; [rewrite ScanArguments_done by done; intros [= <- <-]; exists [], p; split; [done|];
    split; [unfold lenZ; cbn; lia|]; split; [lia|]; split; [done|]; intros l' f' _; by apply ScanArguments_done|]); rewrite ScanArguments_step by done; [done|].
  destruct p as [|d t]; [done|]. destruct (negb (Byte.eqb d Byte.x24)) eqn:Ed; [done|]. destruct (ReadLine t) as [| |len q] eqn:El; try done. cbv zeta.
  destruct ((len <? 0) || (kMaxBulk <? len)) eqn:E1; [done|]. destruct ((M <? _) || _) eqn:E2; [done|]. destruct (Z.ltb_spec (lenZ q) (len + 2)) as [E3|E3]; [done|].
  destruct (negb (Byte.eqb (Text.at_ q len) CR) || _) eqn:E4; [done|].
  apply ReadLine_line in El as (pre & -> & Hpre & Hline). pose proof E1 as E1'. apply orb_false_iff in E1' as [E1a%Z.ltb_ge E1b%Z.ltb_ge].
  pose proof E2 as E2'. apply orb_false_iff in E2' as [E2a%Z.ltb_ge E2b%Z.ltb_ge]. rewrite lenZ_cons, lenZ_app in *. replace (1 + (lenZ pre + lenZ q) - lenZ q) with (1 + lenZ pre) in * by lia.
  pose proof (lenZ_nonneg pre) as Hp0. rewrite u64_small in E2b by lia.
  intros H. apply IH in H as (pre2 & l & Eq & -> & Hk & -> & Hall); [|lia].
  set (arg := take (Z.to_nat (len + 2)) q). assert (lenZ arg = len + 2) as Harg by (unfold arg, lenZ in *; rewrite length_take; lia).
  assert (q = arg ++ pre2 ++ l) as Eq' by (unfold arg; rewrite <- Eq; by rewrite take_drop).
  exists (d :: pre ++ arg ++ pre2), l. split; [rewrite Eq'; cbn; by rewrite <- !app_assoc|]. split; [rewrite lenZ_cons, !lenZ_app; lia|]. split; [done|]. split; [done|].
  intros l' fuel' Hf. rewrite ScanArguments_step by done. destruct fuel' as [|fuel']; [cbn in Hf; lia|]. cbn [app]. rewrite Ed, <- !app_assoc, Hline. cbv zeta. rewrite lenZ_cons, !lenZ_app, Harg, E1.
  replace (1 + (lenZ pre + (len + 2 + (lenZ pre2 + lenZ l'))) - (len + 2 + (lenZ pre2 + lenZ l'))) with (1 + lenZ pre) by lia. rewrite E2.
  pose proof (lenZ_nonneg pre2). pose proof (lenZ_nonneg l'). rewrite (proj2 (Z.ltb_ge _ _)) by lia.
  rewrite Eq' in E4. rewrite !(at_app_lt arg) in E4 |- * by lia. rewrite E4. replace (Z.to_nat (len + 2)) with (length arg) by (unfold lenZ in Harg; lia). rewrite drop_app_length. apply Hall.
  cbn in Hf. rewrite !length_app in *. lia.
Qed.

Lemma ScanArguments_bad fuel M c n used p l fuel' : ScanArguments fuel M c n used p = Bad -> (length (p ++ l) <= fuel')%nat -> ScanArguments fuel' M c n used (p ++ l) = Bad.
Proof.
  revert n used p fuel'. induction fuel as [|fuel IH]; intros n used p fuel'; (destruct (Z.leb_spec n 0) as [Hn|Hn]; [by rewrite ScanArguments_done|]); rewrite !ScanArguments_step by done; [done|].
  destruct p as [|d t]; [done|]. intros H Hf. destruct fuel' as [|fuel']; [cbn in Hf; lia|]. cbn [app]. destruct (negb (Byte.eqb d Byte.x24)); [done|].
  destruct (ReadLine t) as [| |len q] eqn:El; try done; [by rewrite ReadLine_bad|]. apply ReadLine_line in El as (pre & -> & Hpre & Hline). rewrite <- app_assoc, Hline. cbv zeta in *. rewrite !lenZ_cons, !lenZ_app in *.
  replace (1 + (lenZ pre + (lenZ q + lenZ l)) - (lenZ q + lenZ l)) with (1 + lenZ pre) by lia. replace (1 + (lenZ pre + lenZ q) - lenZ q) with (1 + lenZ pre) in H by lia.
  destruct ((len <? 0) || (kMaxBulk <? len)) eqn:E1; [done|]. destruct ((M <? _) || _) eqn:E2; [done|]. apply orb_false_iff in E1 as [E1a%Z.ltb_ge E1b%Z.ltb_ge].
  pose proof (lenZ_nonneg l). destruct (Z.ltb_spec (lenZ q) (len + 2)) as [E3|E3]; [done|]. rewrite (proj2 (Z.ltb_ge _ _)) by lia. rewrite !(at_app_lt q) by lia. destruct (negb (Byte.eqb (Text.at_ q len) CR) || _) eqn:E4; [done|].
  rewrite drop_app_le by (unfold lenZ in *; lia). apply IH; [exact H|]. cbn in Hf. rewrite !length_app, length_drop in *. unfold lenZ in *. lia.
Qed.

Lemma ScanArguments_long fuel M c n used p k c' : 0 < n -> M < used -> ScanArguments fuel M c n used p <> Command k c'.
Proof.
  intros Hn Hu. rewrite ScanArguments_step by done. destruct fuel, p as [|d t]; try done. destruct (negb _); [done|]. destruct (ReadLine t) as [| |len q] eqn:El; try done. cbv zeta. destruct ((len <? 0) || _); [done|].
  apply ReadLine_line in El as (pre & -> & _). rewrite lenZ_cons, lenZ_app. rewrite (proj2 (Z.ltb_lt M _)); [done|]. pose proof (lenZ_nonneg pre). lia.
Qed.

Lemma ScanCommand_app pre n l M : (forall l, ReadLine (pre ++ l) = Line n l) -> ScanCommand (Byte.x2a :: pre ++ l) M = if n <=? 0 then Bad else ScanArguments (S (length (pre ++ l))) M n n (1 + lenZ pre) l.
Proof. intros H. unfold ScanCommand. cbn [Byte.eqb negb]. change (Byte.eqb Byte.x2a Byte.x2a) with true. cbn [negb]. rewrite H. rewrite lenZ_cons, lenZ_app. by replace (1 + (lenZ pre + lenZ l) - lenZ l) with (1 + lenZ pre) by lia. Qed.

(** A command lies within the bytes and the limit, and nothing behind it matters. *)
Lemma scan_command p M k c : 0 <= M < 2 ^ 64 -> ScanCommand p M = Command k c -> 1 <= c /\ 3 < k <= M /\
  exists pre l, p = pre ++ l /\ lenZ pre = k /\ forall l', ScanCommand (pre ++ l') M = Command k c.
Proof.
  intros HM H. destruct p as [|d t]; [done|]. pose proof H as H0. unfold ScanCommand in H0. destruct (negb (Byte.eqb d Byte.x2a)) eqn:Ed; [done|]. apply negb_false_iff, byte_eqb_eq in Ed as ->.
  destruct (ReadLine t) as [| |n q] eqn:El; try done. clear H0. apply ReadLine_line in El as (pre & -> & Hpre & Hline). rewrite (ScanCommand_app pre n q M Hline) in H. destruct (Z.leb_spec n 0) as [|Hn]; [done|].
  destruct (Z.ltb_spec M (1 + lenZ pre)) as [Hl|Hl]; [by apply ScanArguments_long in H|]. apply ScanArguments_command in H as (pre2 & l & -> & -> & Hk & -> & Hall); [|pose proof (lenZ_nonneg pre); lia|lia].
  split; [lia|]. pose proof (lenZ_nonneg pre2). unfold lenZ in *. split; [lia|]. exists (Byte.x2a :: pre ++ pre2), l. split; [cbn; by rewrite <- app_assoc|]. split; [cbn [length]; rewrite length_app; lia|].
  intros l'. cbn [app]. rewrite <- app_assoc, (ScanCommand_app pre n _ M Hline), (proj2 (Z.leb_gt n 0)) by done. apply Hall. rewrite !length_app. lia.
Qed.

(** What is wrong stays wrong, whatever comes later. *)
Lemma scan_bad p M l : ScanCommand p M = Bad -> ScanCommand (p ++ l) M = Bad.
Proof.
  destruct p as [|d t]; [done|]. intros H. pose proof H as H0. unfold ScanCommand in H0. destruct (negb (Byte.eqb d Byte.x2a)) eqn:Ed; [cbn; by rewrite Ed|]. apply negb_false_iff, byte_eqb_eq in Ed as ->.
  destruct (ReadLine t) as [| |n q] eqn:El; try done; [cbn; by rewrite (ReadLine_bad t l)|]. clear H0. apply ReadLine_line in El as (pre & -> & Hpre & Hline). rewrite (ScanCommand_app pre n q M Hline) in H. cbn [app]. rewrite <- app_assoc, (ScanCommand_app pre n _ M Hline).
  destruct (Z.leb_spec n 0) as [|Hn]; [done|]. apply (ScanArguments_bad _ M n n _ q l _ H). rewrite !length_app. lia.
Qed.

(** ** Commands as clients write them *)

Lemma dec_aux_length fuel k n acc : 0 <= n < 10 ^ Z.of_nat k -> (0 < k)%nat -> (length (Decimal.dec_aux fuel n acc) <= k + length acc)%nat.
Proof.
  revert k n acc. induction fuel as [|fuel IH]; intros k n acc Hn Hk; cbn [Decimal.dec_aux]; [lia|]. destruct (Z.ltb_spec n 10); [cbn; lia|].
  destruct k as [|[|k]]; [lia|cbn in Hn; lia|]. assert (length (Decimal.dec_aux fuel (n / 10) (Decimal.digit (n mod 10) :: acc)) <= S k + length (Decimal.digit (n mod 10) :: acc))%nat as H'; [|cbn [length] in H'; lia].
  apply IH; [|lia]. rewrite Nat2Z.inj_succ, Z.pow_succ_r in Hn by lia. split; [apply Z.div_pos; lia|]. apply Z.div_lt_upper_bound; lia.
Qed.

Lemma ReadDigits_digits ds v d l : forallb Decimal.is_digit ds = true -> (ds <> [] \/ 0 < d) -> 0 <= d -> d + lenZ ds <= 18 -> ReadDigits (ds ++ CRLF ++ l) v d = Line (Decimal.dec_value v ds) l.
Proof.
  revert v d. induction ds as [|c ds IH]; intros v d Hd Hne H0 Hl.
  - destruct Hne as [|Hp]; [done|]. cbn. by rewrite (proj2 (Z.eqb_neq d 0)) by lia.
  - cbn [forallb] in Hd. apply andb_true_iff in Hd as [Hc Hd]. rewrite lenZ_cons in Hl. pose proof (lenZ_nonneg ds). cbn [app ReadDigits]. destruct (Byte.eqb c CR) eqn:Ec; [apply byte_eqb_eq in Ec as ->; done|].
    rewrite Hc, (proj2 (Z.leb_gt 18 d)) by lia. cbn [negb orb]. rewrite IH; [|done|right; lia|lia..]. change (Decimal.dec_value v (c :: ds)) with (Decimal.dec_value (10 * v + Decimal.digit_value c) ds). by replace (v * 10) with (10 * v) by lia.
Qed.

Lemma ReadLine_number n l : 0 <= n < 10 ^ 18 -> ReadLine (Decimal.to_string n ++ CRLF ++ l) = Line n l.
Proof.
  intros Hn. unfold Decimal.to_string. rewrite (proj2 (Z.ltb_ge n 0)) by lia. destruct (Decimal.to_dec_spec n) as (H1 & H2 & H3); [lia|].
  assert (lenZ (Decimal.to_dec n) <= 18) as Hlen by (pose proof (dec_aux_length 20 18 n [] Hn ltac:(lia)) as H; unfold lenZ, Decimal.to_dec in *; cbn [length] in H; lia).
  unfold ReadLine. destruct (Decimal.to_dec n) as [|c ds] eqn:E; [done|]. cbn [app].
  destruct (Byte.eqb c Byte.x2d) eqn:Ec; [apply byte_eqb_eq in Ec as ->; done|]. pose proof (ReadDigits_digits (c :: ds) 0 0 l H2 (or_introl H1) ltac:(lia) ltac:(lia)) as H. cbn [app] in H. rewrite H. by rewrite H3.
Qed.

Lemma argument_app s l : argument s ++ l = Byte.x24 :: Decimal.to_string (lenZ s) ++ CRLF ++ s ++ CRLF ++ l.
Proof. unfold argument, AppendBulk. cbn [app txt String.list_byte_of_string]. by rewrite <- !app_assoc. Qed.

Lemma argument_length s : 5 + lenZ s <= lenZ (argument s).
Proof.
  pose proof (argument_app s []) as E. rewrite !app_nil_r in E. rewrite E, lenZ_cons, !lenZ_app. change (lenZ CRLF) with 2. assert (0 < lenZ (Decimal.to_string (lenZ s))); [|lia].
  pose proof (lenZ_nonneg s). unfold Decimal.to_string. rewrite (proj2 (Z.ltb_ge (lenZ s) 0)) by lia. unfold Decimal.to_dec. cbn [Decimal.dec_aux]. 
  assert (forall f n acc, 0 < lenZ acc -> 0 < lenZ (Decimal.dec_aux f n acc)) as Hd.
  { induction f as [|f IH]; intros n acc Ha; cbn; [done|]. destruct (n <? 10); [rewrite lenZ_cons; lia|]. apply IH. rewrite lenZ_cons. lia. }
  destruct (lenZ s <? 10); [done|]. apply (Hd 19%nat). done.
Qed.

Definition small (s : list byte) : Prop := lenZ s <= kMaxBulk.

Lemma ScanArguments_encoded l : forall fuel M c used r, Forall small l -> 0 <= used -> used + lenZ (concat (map argument l)) <= M -> M < 2 ^ 64 -> (length l <= fuel)%nat ->
  ScanArguments fuel M c (lenZ l) used (concat (map argument l) ++ r) = Command (used + lenZ (concat (map argument l))) c.
Proof.
  induction l as [|a l IH]; intros fuel M c used r Hs Hu HM HM' Hf; [rewrite ScanArguments_done by done; cbn; by rewrite Z.add_0_r|].
  apply Forall_cons in Hs as [Ha Hs]. destruct fuel as [|fuel]; [cbn in Hf; lia|]. cbn [map concat] in *. rewrite lenZ_app in HM |- *. pose proof (argument_length a) as Hlen. pose proof (lenZ_nonneg a). pose proof (lenZ_nonneg (concat (map argument l))).
  rewrite ScanArguments_step by (rewrite lenZ_cons; pose proof (lenZ_nonneg l); lia). rewrite <- app_assoc. pose proof (argument_app a (concat (map argument l) ++ r)) as E. rewrite E. change (negb (Byte.eqb Byte.x24 Byte.x24)) with false. cbv iota.
  unfold small, kMaxBulk in *. rewrite ReadLine_number by lia. cbv zeta. rewrite <- E. set (R := concat (map argument l) ++ r) in *. rewrite !lenZ_app. change (lenZ CRLF) with 2.
  assert (used + (lenZ (argument a) + lenZ R - (lenZ a + (2 + lenZ R))) = used + lenZ (argument a) - lenZ a - 2) as -> by lia.
  destruct (Z.ltb_spec (lenZ a) 0) as [|_]; [lia|]. unfold kMaxBulk. rewrite (proj2 (Z.ltb_ge _ (lenZ a))) by lia. rewrite (proj2 (Z.ltb_ge M _)) by lia. rewrite u64_small by lia. rewrite (proj2 (Z.ltb_ge _ (lenZ a + 2))) by lia. cbn [orb].
  pose proof (lenZ_nonneg R). rewrite (proj2 (Z.ltb_ge _ _)) by lia.
  assert (Text.at_ (a ++ CRLF ++ R) (lenZ a) = CR) as -> by (replace (lenZ a) with (lenZ a + 0) by lia; by rewrite Text.at_shift by lia).
  assert (Text.at_ (a ++ CRLF ++ R) (lenZ a + 1) = LF) as -> by by rewrite Text.at_shift by lia.
  change (negb (Byte.eqb CR CR) || negb (Byte.eqb LF LF)) with false. cbv iota.
  replace (drop (Z.to_nat (lenZ a + 2)) (a ++ CRLF ++ R)) with R. 2: { rewrite app_assoc. replace (Z.to_nat (lenZ a + 2)) with (length (a ++ CRLF)) by (rewrite length_app; unfold lenZ; cbn; lia). by rewrite drop_app_length. }
  rewrite lenZ_cons. replace (1 + lenZ l - 1) with (lenZ l) by lia. unfold R. rewrite IH; [f_equal; lia|done|lia|lia|done|cbn in Hf; lia].
Qed.

Lemma command_app l r : command l ++ r = Byte.x2a :: (Decimal.to_string (lenZ l) ++ CRLF) ++ concat (map argument l) ++ r.
Proof. unfold command. cbn [app txt String.list_byte_of_string]. by rewrite <- !app_assoc. Qed.

Lemma scan_whole l r M : l <> [] -> Forall small l -> lenZ l < 10 ^ 18 -> lenZ (command l) <= M < 2 ^ 64 -> ScanCommand (command l ++ r) M = Command (lenZ (command l)) (lenZ l).
Proof.
  intros Hne Hs Hn HM. rewrite command_app. assert (0 < lenZ l) as Hl by (destruct l as [|a k]; [done|]; rewrite lenZ_cons; pose proof (lenZ_nonneg k); lia).
    rewrite (ScanCommand_app _ (lenZ l)) by (intros k; rewrite <- app_assoc; apply ReadLine_number; lia). rewrite (proj2 (Z.leb_gt (lenZ l) 0)) by done.
    assert (lenZ (command l) = 1 + lenZ (Decimal.to_string (lenZ l) ++ CRLF) + lenZ (concat (map argument l))) as E.
    { pose proof (command_app l []) as E. rewrite !app_nil_r in E. rewrite E, lenZ_cons, lenZ_app. lia. }
    pose proof (lenZ_nonneg (Decimal.to_string (lenZ l) ++ CRLF)). rewrite ScanArguments_encoded; [f_equal; lia|done|lia|lia|lia|].
    assert (length l <= length (concat (map argument l)))%nat as Hlen; [|rewrite !length_app; lia]. clear. induction l as [|a l IH]; cbn; [lia|]. rewrite length_app. pose proof (argument_length a). pose proof (lenZ_nonneg a). unfold lenZ in *. lia.
Qed.

(** A command as clients write it is cut out whole, whatever follows it, when it
    keeps to the limits; and nothing is cut out, and nothing found wrong, while a part of
    it is still missing. *)
Theorem scan_encoded l r M : l <> [] -> Forall small l -> lenZ l < 10 ^ 18 -> lenZ (command l) <= M < 2 ^ 64 ->
  ScanCommand (command l ++ r) M = Command (lenZ (command l)) (lenZ l) /\
  forall p q, command l = p ++ q -> q <> [] -> ScanCommand p M = Incomplete.
Proof.
  intros Hne Hs Hn HM. pose proof (fun r => scan_whole l r M Hne Hs Hn HM) as Hscan.
  split; [apply Hscan|]. intros p q E Hq. specialize (Hscan []). rewrite app_nil_r in Hscan. destruct (ScanCommand p M) as [| |k c] eqn:Ep; [done|rewrite E, (scan_bad p M q Ep) in Hscan; done|].
  apply scan_command in Ep as (_ & _ & pre & l' & -> & Hk & Hall); [|pose proof (lenZ_nonneg (command l)); lia]. rewrite E, <- app_assoc, Hall in Hscan. injection Hscan as Hk' _.
  rewrite !lenZ_app in Hk'. pose proof (lenZ_nonneg l'). destruct q as [|d q]; [done|]. rewrite lenZ_cons in Hk'. pose proof (lenZ_nonneg q). lia.
Qed.

(** ** What changes the connection *)

Definition upper (s : list byte) : list byte := map to_upper s.

Lemma drop_one {A} (x : A) l : drop 1 (x :: l) = l.
Proof. done. Qed.

(** What ChangesConnection looks for, in the arguments. *)
Definition changes (l : list (list byte)) : bool :=
  match l with
  | [] => false
  | a :: r =>
      let s := if starts (txt "P") (upper a) then drop 1 (upper a) else upper a in
      names (txt "MONITOR") s || names (txt "UNSUBSCRIBE") s || (match r with [] => false | _ => names (txt "SUBSCRIBE") s end) ||
      (bytes_eqb (upper a) (txt "SCRIPT") && match r with [] => false | b :: _ => bytes_eqb (upper b) (txt "DEBUG") || existsb (Byte.eqb Byte.x00) (upper b) end) ||
      existsb (bytes_eqb (upper a)) vCommands
  end.

Lemma take_argument (a r : list byte) : take (Z.to_nat (lenZ a)) (a ++ r) = a /\ drop (Z.to_nat (lenZ a + 2)) (a ++ CRLF ++ r) = r.
Proof.
  unfold lenZ. rewrite Nat2Z.id, take_app_length. split; [done|]. rewrite app_assoc. replace (Z.to_nat (Z.of_nat (length a) + 2)) with (length (a ++ CRLF)) by (rewrite length_app; cbn; lia). by rewrite drop_app_length.
Qed.

Lemma changes_seen l : l <> [] -> Forall small l -> lenZ l < 10 ^ 18 -> ChangesConnection (command l) = Ok (changes l).
Proof.
  intros Hne Hs Hn. destruct l as [|a r]; [done|]. apply Forall_cons in Hs as [Ha Hs]. unfold small, kMaxBulk in *. pose proof (lenZ_nonneg a). pose proof (lenZ_nonneg r).
  unfold ChangesConnection. pose proof (command_app (a :: r) []) as E. rewrite app_nil_r in E. rewrite E, drop_one, <- app_assoc, ReadLine_number by (rewrite lenZ_cons in *; lia).
  cbn [map concat]. rewrite <- app_assoc, argument_app, drop_one, ReadLine_number by lia. set (R := concat (map argument r) ++ []). destruct (take_argument a (CRLF ++ R)) as [-> _]. destruct (take_argument a R) as [_ ->].
  fold (upper a). unfold changes. cbv zeta. set (s := if starts (txt "P") (upper a) then _ else _). destruct r as [|b r].
  - change (2 <=? lenZ [a]) with false. rewrite andb_false_l, !andb_false_r, orb_false_r. cbn [orb]. rewrite !orb_false_r. by destruct (names (txt "MONITOR") s || names (txt "UNSUBSCRIBE") s).
  - assert (2 <=? lenZ (a :: b :: r) = true) as -> by (rewrite !lenZ_cons; apply Z.leb_le; pose proof (lenZ_nonneg r); lia). apply Forall_cons in Hs as [Hb _]. pose proof (lenZ_nonneg b). rewrite andb_true_l, andb_true_r.
    destruct (names (txt "MONITOR") s || names (txt "UNSUBSCRIBE") s || names (txt "SUBSCRIBE") s); [done|]. cbn [orb]. destruct (bytes_eqb (upper a) (txt "SCRIPT")); [|done]. cbn [andb].
    unfold R. cbn [map concat]. rewrite <- app_assoc, argument_app, drop_one, ReadLine_number by lia. destruct (take_argument b (CRLF ++ concat (map argument r) ++ [])) as [-> _]. fold (upper b). by destruct (_ || _).
Qed.


(** Of whatever has been cut out, ChangesConnection reads nothing but the command. *)
Lemma changes_ok p M k c : 0 <= M < 2 ^ 64 -> ScanCommand p M = Command k c -> exists b, ChangesConnection (take (Z.to_nat k) p) = Ok b.
Proof.
  intros HM H. apply scan_command in H as (_ & _ & pre & l & -> & Hk & Hall); [|done]. specialize (Hall []). rewrite app_nil_r in Hall. replace (Z.to_nat k) with (length pre) by (unfold lenZ in Hk; lia). rewrite take_app_length. clear Hk.
  unfold ScanCommand in Hall. destruct pre as [|d t]; [done|]. destruct (negb _); [done|]. unfold ChangesConnection. rewrite ?drop_one. destruct (ReadLine t) as [| |n q]; try done. destruct (Z.leb_spec n 0) as [|Hn]; [done|].
  rewrite ScanArguments_step in Hall by done. cbn [length] in Hall. destruct q as [|d2 t2]; [done|]. destruct (negb _); [done|]. rewrite ?drop_one. destruct (ReadLine t2) as [| |len q2]; try done. cbv zeta in Hall.
  destruct ((len <? 0) || _); [done|]. destruct ((M <? _) || _); [done|]. destruct (_ <? len + 2); [done|]. destruct (negb _ || _); [done|].
  destruct (_ || _ || _); [by eexists|]. destruct (bytes_eqb _ _); cbn [andb]; [|by eexists]. destruct (Z.leb_spec 2 n) as [H2|H2]; [|by eexists].
  rewrite ScanArguments_step in Hall by lia. destruct (length t); [done|]. destruct (drop (Z.to_nat (len + 2)) q2) as [|d3 t3]; [done|]. destruct (negb _); [done|]. rewrite ?drop_one. destruct (ReadLine t3) as [| |len2 q3]; try done. destruct (_ || existsb _ _); by eexists.
Qed.
(** ChangesConnection never reads behind the command it is given, and of one as
    clients write it sees the arguments that count: it finds out the names in its list and
    those by which hiredis recognises subscriptions and MONITOR, in any case of letters, and
    SCRIPT with the subcommand DEBUG or one that holds a zero byte. *)
Theorem changes_arguments M p k c l : 0 <= M < 2 ^ 64 -> ScanCommand p M = Command k c -> l <> [] -> Forall small l -> lenZ l < 10 ^ 18 ->
  (exists b, ChangesConnection (take (Z.to_nat k) p) = Ok b) /\ ChangesConnection (command l) = Ok (changes l).
Proof. intros HM Hp Hl Hs Hn. split; [by apply (changes_ok p M k c)|by apply changes_seen]. Qed.

Lemma scan_encoded_witness : ScanCommand (command [txt "GET"; txt "k"] ++ txt "*") 64 = Command 20 2 /\ ScanCommand (txt "*2") 64 = Incomplete.
Proof.
  destruct (scan_encoded [txt "GET"; txt "k"] (txt "*") 64) as [H1 H2]; [done|by repeat constructor|done|done|]. split; [exact H1|].
  exact (H2 (txt "*2") (drop 2 (command [txt "GET"; txt "k"])) eq_refl ltac:(done)).
Defined.

Lemma changes_arguments_witness : (exists b, ChangesConnection (take 20 (command [txt "GET"; txt "k"])) = Ok b) /\ ChangesConnection (command [txt "script"; txt "Debug"]) = Ok true.
Proof. apply (changes_arguments 64 (command [txt "GET"; txt "k"]) 20 2 [txt "script"; txt "Debug"]); [done|reflexivity|done|by repeat constructor|done]. Defined.

End Resp.
