(* ===== verification/RedisServer.v ===== *)
(** * The Redis proxy: sessions, links and their quotas

    modules/redisserver: RedisServer (src/redis_server.cpp) and RedisServerSession
    (src/redis_server_session.cpp), one process with one thread.  Clients send commands,
    which go as they are to one of a few connections ("links") to Redis; what is on the way
    on a link is limited, and who does not fit waits.

    hiredis is environment: it takes a command or does not, and answers the commands of a
    connection in their order.  When a connection is lost it calls back for each command
    still out, with no reply, and then OnDisconnect; when it was not made, OnConnect comes
    first.  What hiredis, the session's output buffer and the attempt to connect say is
    taken from the list [says] of the state.  Sessions have the numbers SessionManager gives
    them, which are not reused; iNextSessionId is the next of them, iCurrentSessionId + 1.
    iPendingBytes is a size_t, which RedisRuns.v shows never to wrap. *)

From Stdlib Require Import Strings.Byte.
From S2P Require Import Prelude Text Resp.

Module RedisServer.
Import Resp.

(** RedisServerSession.  [closed]: it is out of mSessionMap; [reading]: the read event is on;
    [recv]: all it has received; [asked]: the commands taken from its input; [told]: the
    answers given to it, each with the command it belongs to. *)
Record session : Type := mkSession {
  stInputBuffer : list byte;
  m_iLink : nat;
  m_bReadPaused : bool;
  closed : bool;
  reading : bool;
  recv : list byte;
  asked : list (list byte);
  told : list (list byte * list byte)
}.

(** RedisLink; pAsyncContext is whether there is one.  [flight]: the commands hiredis still
    has to answer, with their sessions. *)
Record link : Type := mkLink {
  vPending : list (Z * Z);
  vPaused : gset Z;
  vReady : list Z;
  bResuming : bool;
  iPendingBytes : Z;
  bResumeArmed : bool;
  pAsyncContext : bool;
  bDialing : bool;
  flight : list (Z * list byte)
}.

Record state : Type := mkState {
  sessions : gmap Z session;
  m_vLinks : list link;
  m_iNext : Z;
  iNextSessionId : Z;
  stopRequested : bool;
  says : list bool
}.

Definition set_sessions (m : gmap Z session) (s : state) : state := mkState m (m_vLinks s) (m_iNext s) (iNextSessionId s) (stopRequested s) (says s).
Definition set_links (l : list link) (s : state) : state := mkState (sessions s) l (m_iNext s) (iNextSessionId s) (stopRequested s) (says s).
Definition set_says (l : list bool) (s : state) : state := mkState (sessions s) (m_vLinks s) (m_iNext s) (iNextSessionId s) (stopRequested s) l.

Definition upd (sid : Z) (f : session -> session) (s : state) : state :=
  match sessions s !! sid with Some x => set_sessions (<[sid := f x]> (sessions s)) s | None => s end.
Definition upl (k : nat) (f : link -> link) (s : state) : state :=
  match m_vLinks s !! k with Some l => set_links (<[k := f l]> (m_vLinks s)) s | None => s end.

Definition set_buffer (p : list byte) (x : session) : session := mkSession p (m_iLink x) (m_bReadPaused x) (closed x) (reading x) (recv x) (asked x) (told x).
Definition receive (l : list byte) (x : session) : session := mkSession (stInputBuffer x ++ l) (m_iLink x) (m_bReadPaused x) (closed x) (reading x) (recv x ++ l) (asked x) (told x).
Definition set_paused (b : bool) (x : session) : session := mkSession (stInputBuffer x) (m_iLink x) b (closed x) (reading x) (recv x) (asked x) (told x).
Definition set_reading (b : bool) (x : session) : session := mkSession (stInputBuffer x) (m_iLink x) (m_bReadPaused x) (closed x) b (recv x) (asked x) (told x).
Definition close (x : session) : session := mkSession (stInputBuffer x) (m_iLink x) (m_bReadPaused x) true (reading x) (recv x) (asked x) (told x).
Definition ask (c : list byte) (x : session) : session := mkSession (stInputBuffer x) (m_iLink x) (m_bReadPaused x) (closed x) (reading x) (recv x) (asked x ++ [c]) (told x).
Definition tell (c r : list byte) (x : session) : session := mkSession (stInputBuffer x) (m_iLink x) (m_bReadPaused x) (closed x) (reading x) (recv x) (asked x) (told x ++ [(c, r)]).

Definition set_pending (l : list (Z * Z)) (n : Z) (f : list (Z * list byte)) (x : link) : link :=
  mkLink l (vPaused x) (vReady x) (bResuming x) n (bResumeArmed x) (pAsyncContext x) (bDialing x) f.
Definition set_waiting (p : gset Z) (r : list Z) (x : link) : link :=
  mkLink (vPending x) p r (bResuming x) (iPendingBytes x) (bResumeArmed x) (pAsyncContext x) (bDialing x) (flight x).
Definition set_resume (b a : bool) (x : link) : link :=
  mkLink (vPending x) (vPaused x) (vReady x) b (iPendingBytes x) a (pAsyncContext x) (bDialing x) (flight x).
Definition set_context (c d : bool) (x : link) : link :=
  mkLink (vPending x) (vPaused x) (vReady x) (bResuming x) (iPendingBytes x) (bResumeArmed x) c d (flight x).

Definition new_link : link := mkLink [] ∅ [] false 0 false false false [].
Definition new_session (k : nat) : session := mkSession [] k false false true [] [] [].

(** What the environment says next. *)
Definition ask_env (s : state) : bool * state := match says s with [] => (true, s) | b :: l => (b, set_says l s) end.

Definition IsClosed (sid : Z) (s : state) : bool := match sessions s !! sid with Some x => closed x | None => true end.

(** SessionManager::CloseSession, and PassiveClose, which calls it. *)
Definition CloseSession (sid : Z) (s : state) : state := upd sid close s.

(** SendBytes of the answer to [c], and CloseSession when it is not taken. *)
Definition answer (sid : Z) (c r : list byte) (s : state) : state :=
  if IsClosed sid s then CloseSession sid s
  else let (b, s) := ask_env s in if b then upd sid (tell c r) s else CloseSession sid s.

Section Limits.
Context (m_iMaxPendingBytes m_iMaxPendingCommands : Z).

(** ** Links *)

Definition ArmReconnect (k : nat) (s : state) : state := upl k (fun l => if bDialing l then l else set_context (pAsyncContext l) true l) s.

Definition Open (k : nat) (s : state) : state :=
  match m_vLinks s !! k with
  | Some l => if pAsyncContext l then s else let (b, s) := ask_env s in if b then upl k (fun l => set_context true (bDialing l) l) s else ArmReconnect k s
  | None => s
  end.

Definition ArmResume (k : nat) (s : state) : state :=
  upl k (fun l =>
    if stopRequested s || bResumeArmed l || bool_decide (vPaused l = ∅) || (Z.quot m_iMaxPendingBytes 2 <? iPendingBytes l) || (Z.quot m_iMaxPendingCommands 2 <? lenZ (vPending l)) then l
    else set_resume (bResuming l) true l) s.

Definition ReleaseCredit (k : nat) (s : state) : state :=
  ArmResume k (upl k (fun l => match vPending l with [] => l | (_, n) :: v => set_pending v (iPendingBytes l - n) (flight l) l end) s).

(** OnReply; [c] is the command that hiredis answers. *)
Definition OnReply (k : nat) (c : list byte) (pReply : redisReply) (s : state) : state :=
  match m_vLinks s !! k with
  | Some l =>
      match vPending l with
      | [] => s
      | (sid, _) :: _ => answer sid c (match pReply with Null => AppendErr (txt "ERR redis down") | _ => AppendReply pReply end) (ReleaseCredit k s)
      end
  | None => s
  end.

(** hiredis calls back for the command that is first. *)
Definition reply (k : nat) (pReply : redisReply) (s : state) : state :=
  match m_vLinks s !! k with
  | Some l => match flight l with [] => s | (_, c) :: f => OnReply k c pReply (upl k (fun l => set_pending (vPending l) (iPendingBytes l) f l) s) end
  | None => s
  end.
Fixpoint reply_all (n k : nat) (s : state) : state := match n with O => s | S n => reply_all n k (reply k Null s) end.
Definition flush (k : nat) (s : state) : state := reply_all (match m_vLinks s !! k with Some l => length (flight l) | None => 0 end) k s.

(** OnConnect with an error, OnDisconnect. *)
Definition lose (k : nat) (s : state) : state := ArmReconnect k (upl k (fun l => set_context false (bDialing l) l) s).

Definition Pause (k : nat) (sid : Z) (s : state) : result state :=
  match m_vLinks s !! k with
  | None => Err OutOfRange
  | Some l =>
      let s := if bool_decide (sid ∈ vPaused l) then s else upl k (set_waiting ({[sid]} ∪ vPaused l) (vReady l ++ [sid])) s in
      Ok (if bResuming l then s else ArmResume k s)
  end.

Definition Issue (k : nat) (sid : Z) (pCmd : list byte) (s : state) : state * bool :=
  match m_vLinks s !! k with
  | None => (CloseSession sid s, true)
  | Some l =>
      if (lenZ pCmd =? 0) || (m_iMaxPendingBytes <? lenZ pCmd) then (CloseSession sid s, true)
      else if negb (pAsyncContext l) then (answer sid pCmd (AppendErr (txt "ERR redis down")) s, true)
      else if negb (bResuming l) && negb (bool_decide (vPaused l = ∅)) then (s, false)
      else if (m_iMaxPendingCommands <=? lenZ (vPending l)) || (u64 (m_iMaxPendingBytes - iPendingBytes l) <? lenZ pCmd) then (s, false)
      else
        let s := upl k (fun l => set_pending (vPending l ++ [(sid, lenZ pCmd)]) (iPendingBytes l + lenZ pCmd) (flight l) l) s in
        (* redisAsyncFormattedCommand *)
        let (b, s) := ask_env s in
        if b then (upl k (fun l => set_pending (vPending l) (iPendingBytes l) (flight l ++ [(sid, pCmd)]) l) s, true)
        else (CloseSession sid (upl k (fun l => set_pending (removelast (vPending l)) (iPendingBytes l - lenZ pCmd) (flight l) l) s), true)
  end.

(** ** Sessions *)

Definition pause_read (k : nat) (sid : Z) (s : state) : result state := Pause k sid (upd sid (fun x => set_reading false (set_paused true x)) s).

(** The loop of ProcessInput; [p] is what lies from pPointer on. *)
Fixpoint ParseLoop (fuel : nat) (iBudget : Z) (k : nat) (sid : Z) (p : list byte) (s : state) : result (state * list byte) :=
  match fuel with
  | O => Err OutOfFuel
  | S fuel =>
      match p with
      | [] => Ok (s, p)
      | _ =>
          match ScanCommand p m_iMaxPendingBytes with
          | Bad => Ok (CloseSession sid s, p)
          | Incomplete => Ok (s, p)
          | Command iNumber iArgumentCount =>
              let pCmd := take (Z.to_nat iNumber) p in
              let go (s : state) : result (state * list byte) :=
                let s := upd sid (ask pCmd) s in
                let q := drop (Z.to_nat iNumber) p in
                if (iBudget - 1 =? 0) && (0 <? lenZ q) then let! s := pause_read k sid s in Ok (s, q)
                else ParseLoop fuel (iBudget - 1) k sid q s in
              if 0 <? iArgumentCount then
                let! b := ChangesConnection pCmd in
                if b then Ok (CloseSession sid s, p)
                else
                  let (s, b) := Issue k sid pCmd s in
                  if negb b then let! s := pause_read k sid s in Ok (s, p)
                  else if IsClosed sid s then Ok (s, p)
                  else go s
              else go s
          end
      end
  end.

(** ProcessInput; the number of bytes consumed comes back. *)
Definition ProcessInput (iBudget : Z) (sid : Z) (s : state) : result (state * Z) :=
  match sessions s !! sid with
  | None => Err Undefined
  | Some x =>
      if m_bReadPaused x || closed x then Ok (s, 0)
      else
        let! (s, p) := ParseLoop (S (length (stInputBuffer x))) iBudget (m_iLink x) sid (stInputBuffer x) s in
        Ok (upd sid (set_buffer p) s, lenZ (stInputBuffer x) - lenZ p)
  end.

Definition ResumeRead (sid : Z) (s : state) : result (state * bool) :=
  if IsClosed sid s then Ok (s, false)
  else
    let! (s, n) := ProcessInput 1 sid (upd sid (set_paused false) s) in
    Ok (upd sid (fun x => if negb (m_bReadPaused x) && negb (closed x) then set_reading true x else x) s, negb (n =? 0)).

(** The loop of Resume. *)
Fixpoint ResumeLoop (iRemaining : nat) (k : nat) (bProgress : bool) (s : state) : result (state * bool) :=
  match iRemaining, m_vLinks s !! k with
  | O, _ | _, None => Ok (s, bProgress)
  | S iRemaining, Some l =>
      match vReady l with
      | [] => Ok (s, bProgress)
      | sid :: r =>
          if (m_iMaxPendingCommands <=? lenZ (vPending l)) || (m_iMaxPendingBytes <=? iPendingBytes l) then Ok (s, bProgress)
          else
            let s := upl k (set_waiting (vPaused l ∖ {[sid]}) r) s in
            if IsClosed sid s then ResumeLoop iRemaining k bProgress s
            else
              let! (s, bConsumed) := ResumeRead sid s in
              match m_vLinks s !! k with
              | Some l =>
                  if negb bConsumed && bool_decide (sid ∈ vPaused l) then
                    Ok (upl k (set_waiting (vPaused l) (sid :: filter (fun i => i <> sid) (vReady l))) s, bProgress)
                  else ResumeLoop iRemaining k (bProgress || bConsumed) s
              | None => Ok (s, bProgress)
              end
      end
  end.

Definition Resume (k : nat) (s : state) : result state :=
  match m_vLinks s !! k with
  | None => Err OutOfRange
  | Some l =>
      let! (s, bProgress) := ResumeLoop (length (vReady l)) k false (upl k (set_resume true false) s) in
      let s := upl k (fun l => set_resume false (bResumeArmed l) l) s in
      Ok (if bProgress then ArmResume k s else s)
  end.

(** ** Events *)

Inductive event : Type :=
| Add                                   (* a client connects *)
| Data (sid : Z) (l : list byte)        (* it sends *)
| Hangup (sid : Z)                      (* it, or an error, closes *)
| Del (sid : Z)                         (* the poll thread drops a closed session *)
| Reply (k : nat) (r : redisReply)      (* hiredis has an answer *)
| Refused (k : nat)                     (* a connection was not made *)
| Lost (k : nat)                        (* a connection has gone *)
| Redial (k : nat)                      (* the timer of ArmReconnect *)
| DoResume (k : nat)                    (* what ArmResume has posted *)
| Stop.

Definition link_at (k : nat) (s : state) : link := default new_link (m_vLinks s !! k).

(** The events that can happen. *)
Definition may (e : event) (s : state) : bool :=
  match e with
  | Data sid _ | Hangup sid => negb (IsClosed sid s)
  | Del sid => match sessions s !! sid with Some x => closed x | None => false end
  | Reply k r => pAsyncContext (link_at k s) && bool_decide (flight (link_at k s) <> []) && match r with Null => false | _ => true end
  | Refused k | Lost k => pAsyncContext (link_at k s)
  | Redial k => bDialing (link_at k s)
  | DoResume k => bResumeArmed (link_at k s)
  | Add | Stop => true
  end.

(** SessionManager::AddSession and OnAddSession.  Both counters are int32_t, and adding to the
    greatest value is undefined. *)
Definition OnAddSession (s : state) : result state :=
  let bind (iNumber iNext : Z) :=
    mkState (<[iNextSessionId s := new_session (Z.to_nat iNumber)]> (sessions s)) (m_vLinks s) iNext (iNextSessionId s + 1) (stopRequested s) (says s) in
  if INT32_MAX <? iNextSessionId s then Err Undefined
  else if lenZ (m_vLinks s) =? 0 then Ok (bind 0 (m_iNext s))
  else if m_iNext s =? INT32_MAX then Err Undefined
  else Ok (bind (Z.rem (m_iNext s) (lenZ (m_vLinks s))) (m_iNext s + 1)).

Definition OnDelSession (sid : Z) (s : state) : state :=
  set_links (map (fun l => set_waiting (vPaused l ∖ {[sid]}) (filter (fun i => i <> sid) (vReady l)) l) (m_vLinks s)) (set_sessions (delete sid (sessions s)) s).

Definition do_event (e : event) (s : state) : result state :=
  match e with
  | Add => OnAddSession s
  | Data sid l => let! (s, _) := ProcessInput 32 sid (upd sid (receive l) s) in Ok s
  | Hangup sid => Ok (CloseSession sid s)
  | Del sid => Ok (OnDelSession sid s)
  | Reply k r => Ok (reply k r s)
  | Refused k => Ok (flush k (lose k s))
  | Lost k => Ok (lose k (flush k s))
  | Redial k => Ok (Open k (upl k (fun l => set_context (pAsyncContext l) false l) s))
  | DoResume k => Resume k s
  | Stop => Ok (mkState (sessions s) (m_vLinks s) (m_iNext s) (iNextSessionId s) true (says s))
  end.

(** A run; before each event stands what the environment will say. *)
Fixpoint run (es : list (event * list bool)) (s : state) : option (result state) :=
  match es with
  | [] => Some (Ok s)
  | (e, l) :: es => if may e s then match do_event e (set_says l s) with Ok s => run es s | Err f => Some (Err f) end else None
  end.

(** RedisServer::Init. *)
Fixpoint open_all (n : nat) (s : state) : state := match n with O => s | S n => Open n (open_all n s) end.
Definition Init (m_iConnections : Z) (l : list bool) : state :=
  let n := Z.to_nat (Z.max 1 m_iConnections) in open_all n (mkState ∅ (replicate n new_link) 0 1 false l).
End Limits.
End RedisServer.
