(* ===== verification/RedisRuns.v ===== *)
(** * Runs of the Redis proxy

    What holds in every run of RedisServer.v: the quotas of a link, which answer goes to
    whom, what becomes of the bytes a client sends, and that who waits is served. *)

From Stdlib Require Import Strings.Byte.
From S2P Require Import Prelude Text Resp RedisServer.

Module RedisRuns.
Import Resp RedisServer.

(** ** Invariant *)

Definition entry (e : Z * list byte) : Z * Z := (fst e, lenZ (snd e)).
Fixpoint weight (f : list (Z * list byte)) : Z := match f with [] => 0 | e :: f => lenZ (snd e) + weight f end.
(** The commands of a session that are on the way. *)
Definition mine (sid : Z) (f : list (Z * list byte)) : list (list byte) := map snd (filter (fun e => fst e = sid) f).

Lemma weight_app f g : weight (f ++ g) = weight f + weight g.
Proof. induction f as [|e f IH]; cbn; lia. Qed.
Lemma weight_nonneg f : 0 <= weight f.
Proof. induction f as [|e f IH]; cbn; [lia|]. pose proof (lenZ_nonneg (snd e)). lia. Qed.
Lemma mine_app sid f g : mine sid (f ++ g) = mine sid f ++ mine sid g.
Proof. unfold mine. by rewrite filter_app, map_app. Qed.
Lemma mine_cons sid i c f : mine sid ((i, c) :: f) = if decide (i = sid) then c :: mine sid f else mine sid f.
Proof. unfold mine. destruct (decide (i = sid)); [by rewrite filter_cons_True|by rewrite filter_cons_False]. Qed.

(** What is in the middle of a step: a session at its input, with what is left of it; the
    link whose sessions are being resumed; a link whose resumption is not yet looked at;
    and a link without connection, whose callbacks or timer are still to come. *)
Record mode : Type := mkMode { cur : option (Z * list byte); resuming : option nat; unarmed : option nat; dying : option nat }.
Definition rest_mode : mode := mkMode None None None None.

Definition here (m : mode) (sid : Z) : option (list byte) := match cur m with Some (i, p) => if decide (i = sid) then Some p else None | None => None end.

Section Limits.
Context (m_iMaxPendingBytes m_iMaxPendingCommands : Z).
Local Notation B := m_iMaxPendingBytes.
Local Notation C := m_iMaxPendingCommands.

Definition good (c : list byte) : Prop := (exists n, ScanCommand c B = Command (lenZ c) n) /\ ChangesConnection c = Ok false.

Record link_ok (r u stop : bool) (l : link) : Prop := mkLinkOk {
  lk_pending : vPending l = map entry (flight l);
  lk_bytes : iPendingBytes l = weight (flight l) /\ weight (flight l) <= B;
  lk_count : lenZ (flight l) <= C /\ Forall (fun e => good (snd e)) (flight l);
  lk_ready : NoDup (vReady l) /\ (forall i, i ∈ vReady l <-> i ∈ vPaused l);
  lk_resuming : bResuming l = r;
  lk_armed : u = false -> stop = false -> vPaused l <> ∅ -> bResumeArmed l = true \/ flight l <> []
}.

Definition up_ok (l : link) : Prop := pAsyncContext l = false -> flight l = [] /\ bDialing l = true.

Record sess_ok (h : option (list byte)) (sid : Z) (l : link) (x : session) : Prop := mkSessOk {
  s_recv : recv x = concat (asked x) ++ default (stInputBuffer x) h;
  s_asked : Forall good (asked x);
  s_told : closed x = false -> map fst (told x) ++ mine sid (flight l) = asked x;
  s_paused : closed x = false -> m_bReadPaused x = true -> sid ∈ vPaused l;
  s_idle : h = None -> closed x = false -> reading x = negb (m_bReadPaused x) /\ (m_bReadPaused x = false -> ScanCommand (stInputBuffer x) B = Incomplete)
}.

Definition flag (o : option nat) (k : nat) : bool := bool_decide (o = Some k).

Record inv (m : mode) (s : state) : Prop := mkInv {
  i_ids : m_vLinks s <> [] /\ (forall sid x, sessions s !! sid = Some x -> sid < iNextSessionId s);
  i_link : forall k l, m_vLinks s !! k = Some l -> link_ok (flag (resuming m) k) (flag (unarmed m) k) (stopRequested s) l /\ (dying m <> Some k -> up_ok l);
  i_flight : forall k l sid c, m_vLinks s !! k = Some l -> (sid, c) ∈ flight l -> sid < iNextSessionId s /\ (forall x, sessions s !! sid = Some x -> m_iLink x = k);
  i_paused : forall k l sid, m_vLinks s !! k = Some l -> sid ∈ vPaused l -> exists x, sessions s !! sid = Some x /\ m_iLink x = k /\ (closed x = false -> m_bReadPaused x = true);
  i_sess : forall sid x, sessions s !! sid = Some x -> exists l, m_vLinks s !! m_iLink x = Some l /\ sess_ok (here m sid) sid l x
}.

(** ** One session and its link *)

(** What the other sessions of a link see of it. *)
Definition others (sid : Z) (l l' : link) : Prop := forall i, i <> sid -> mine i (flight l') = mine i (flight l) /\ (i ∈ vPaused l -> i ∈ vPaused l').

Lemma others_ok h i sid l l' x : others sid l l' -> i <> sid -> sess_ok h i l x -> sess_ok h i l' x.
Proof. intros Ho Hi [H1 H2 H3 H4 H5]. destruct (Ho i Hi) as [Hm Hp]. split; auto. by rewrite Hm. Qed.

(** Everything but one link and one session of it is as before. *)
Lemma redis_step_inv m m' s s' sid x y k l l' : inv m s -> sessions s !! sid = Some x -> m_iLink x = k -> m_vLinks s !! k = Some l ->
  sessions s' = <[sid := y]> (sessions s) -> m_vLinks s' = <[k := l']> (m_vLinks s) -> iNextSessionId s' = iNextSessionId s -> stopRequested s' = stopRequested s -> m_iLink y = k ->
  (forall j, j <> k -> flag (resuming m') j = flag (resuming m) j /\ flag (unarmed m') j = flag (unarmed m) j /\ (dying m' <> Some j -> dying m <> Some j)) ->
  (forall i, i <> sid -> here m' i = here m i) ->
  link_ok (flag (resuming m') k) (flag (unarmed m') k) (stopRequested s) l' -> (dying m' <> Some k -> up_ok l') ->
  (forall i c, (i, c) ∈ flight l' -> (i, c) ∈ flight l \/ i = sid) -> (forall i, i ∈ vPaused l' -> i ∈ vPaused l \/ i = sid) ->
  others sid l l' -> sess_ok (here m' sid) sid l' y -> (closed y = false -> sid ∈ vPaused l' -> m_bReadPaused y = true) -> inv m' s'.
Proof.
  intros [I1 I2 I3 I4 I5] Ex Exk El Es' El' En Est Ey Hm Hh Hl Hu Hf Hp Ho Hs Hsp. pose proof (lookup_lt_Some _ _ _ El) as Hk. split; rewrite ?Es', ?El', ?En, ?Est.
  - split; [intros H%(f_equal length); rewrite length_insert in H; cbn in H; lia|]. intros i z Ez. destruct (decide (sid = i)) as [<-|Hne]; [by apply (proj2 I1 sid x)|rewrite lookup_insert_ne in Ez by done; by apply (proj2 I1 i z)].
  - intros j z Ez. destruct (decide (k = j)) as [<-|Hne]; [rewrite list_lookup_insert_eq in Ez by done; by injection Ez as <-|]. rewrite list_lookup_insert_ne in Ez by done.
    destruct (I2 j z Ez) as [J1 J2]. destruct (Hm j) as (-> & -> & Hd); [done|]. split; [done|]. auto.
  - intros j z i c Ez Hin. assert (forall w, sessions s !! i = Some w -> m_iLink w = j) as Hold.
    { intros w Ew. destruct (decide (k = j)) as [<-|Hne]; [|rewrite list_lookup_insert_ne in Ez by done; by apply (I3 j z i c Ez Hin)].
      rewrite list_lookup_insert_eq in Ez by done. injection Ez as <-. destruct (Hf i c Hin) as [H| ->]; [by apply (I3 k l i c El H)|congruence]. }
    split.
    + destruct (decide (k = j)) as [<-|Hne]; [|rewrite list_lookup_insert_ne in Ez by done; by apply (I3 j z i c Ez Hin)].
      rewrite list_lookup_insert_eq in Ez by done. injection Ez as <-. destruct (Hf i c Hin) as [H| ->]; [by apply (I3 k l i c El H)|by apply (proj2 I1 sid x)].
    + intros w Ew. destruct (decide (sid = i)) as [<-|Hne]; [rewrite lookup_insert_eq in Ew; injection Ew as <-; rewrite Ey, <- Exk; by apply Hold|rewrite lookup_insert_ne in Ew by done; by apply Hold].
  - intros j z i Ez Hin. destruct (decide (k = j)) as [<-|Hne].
    + rewrite list_lookup_insert_eq in Ez by done. injection Ez as <-. destruct (decide (sid = i)) as [<-|Hne]; [exists y; rewrite lookup_insert_eq; split_and!; [done|done|by intros; apply Hsp]|]. rewrite lookup_insert_ne by done.
      destruct (Hp i Hin) as [H| ->]; [by apply (I4 k l)|done].
    + rewrite list_lookup_insert_ne in Ez by done. destruct (I4 j z i Ez Hin) as (w & Ew & Hw & H). destruct (decide (sid = i)) as [<-|Hne']; [congruence|]. exists w. by rewrite lookup_insert_ne.
  - intros i z Ez. destruct (decide (sid = i)) as [<-|Hne].
    + rewrite lookup_insert_eq in Ez. injection Ez as <-. exists l'. rewrite Ey, list_lookup_insert_eq by done. by split.
    + rewrite lookup_insert_ne in Ez by done. destruct (I5 i z Ez) as (w & Ew & Hw). rewrite Hh by done. destruct (decide (m_iLink z = k)) as [Hk'|Hk'].
      * exists l'. rewrite Hk', list_lookup_insert_eq by done. split; [done|]. apply (others_ok _ i sid l l' z Ho); [done|]. rewrite Hk' in Ew. assert (w = l) as <- by congruence. exact Hw.
      * exists w. by rewrite list_lookup_insert_ne.
Qed.

(** Only one link changes. *)
Lemma link_inv m m' s s' k l l' : inv m s -> m_vLinks s !! k = Some l -> sessions s' = sessions s -> m_vLinks s' = <[k := l']> (m_vLinks s) -> iNextSessionId s' = iNextSessionId s -> stopRequested s' = stopRequested s ->
  cur m' = cur m -> (forall j, j <> k -> flag (resuming m') j = flag (resuming m) j /\ flag (unarmed m') j = flag (unarmed m) j /\ (dying m' <> Some j -> dying m <> Some j)) ->
  link_ok (flag (resuming m') k) (flag (unarmed m') k) (stopRequested s) l' -> (dying m' <> Some k -> up_ok l') ->
  (forall e, e ∈ flight l' -> e ∈ flight l) -> (forall i, i ∈ vPaused l' -> i ∈ vPaused l) ->
  (forall i z h, sessions s !! i = Some z -> m_iLink z = k -> sess_ok h i l z -> sess_ok h i l' z) -> inv m' s'.
Proof.
  intros [I1 I2 I3 I4 I5] El Es' El' En Est Hc Hm Hl Hu Hf Hp Hz. pose proof (lookup_lt_Some _ _ _ El) as Hk. split; rewrite ?Es', ?El', ?En, ?Est; [split; [intros H%(f_equal length); rewrite length_insert in H; cbn in H; lia|apply I1]|..].
  - intros j z Ez. destruct (decide (k = j)) as [<-|Hne]; [rewrite list_lookup_insert_eq in Ez by done; by injection Ez as <-|]. rewrite list_lookup_insert_ne in Ez by done.
    destruct (I2 j z Ez) as [J1 J2]. destruct (Hm j) as (-> & -> & Hd); [done|]. split; [done|]. auto.
  - intros j z i c Ez Hin. destruct (decide (k = j)) as [<-|Hne]; [|rewrite list_lookup_insert_ne in Ez by done; by apply (I3 j z i c)]. rewrite list_lookup_insert_eq in Ez by done. injection Ez as <-. apply Hf in Hin. by apply (I3 k l i c).
  - intros j z i Ez Hin. destruct (decide (k = j)) as [<-|Hne]; [|rewrite list_lookup_insert_ne in Ez by done; by apply (I4 j z i)]. rewrite list_lookup_insert_eq in Ez by done. injection Ez as <-. apply Hp in Hin. by apply (I4 k l i).
  - intros i z Ez. destruct (I5 i z Ez) as (w & Ew & Hw). unfold here in *. rewrite Hc. destruct (decide (m_iLink z = k)) as [Hk'|Hk'].
    + exists l'. rewrite Hk', list_lookup_insert_eq by done. split; [done|]. assert (w = l) as -> by congruence. by apply Hz.
    + exists w. by rewrite list_lookup_insert_ne.
Qed.

Lemma sess_ok_same h sid l l' x : flight l' = flight l -> vPaused l' = vPaused l -> sess_ok h sid l x -> sess_ok h sid l' x.
Proof. intros Hf Hp [H1 H2 H3 H4 H5]. split; rewrite ?Hf, ?Hp; auto. Qed.

Lemma flag_same o k : flag o k = true <-> o = Some k.
Proof. unfold flag. apply bool_decide_eq_true. Qed.

Lemma flag_self k : flag (Some k) k = true.
Proof. by apply flag_same. Qed.

Lemma flag_other k j : j <> k -> flag (Some k) j = false.
Proof. intros H. unfold flag. apply bool_decide_eq_false. congruence. Qed.

Lemma insert_link (s : state) k l : m_vLinks s !! k = Some l -> <[k := l]> (m_vLinks s) = m_vLinks s.
Proof. apply list_insert_id. Qed.

(** ** Closing, answering *)

Lemma close_ok h sid l x : sess_ok h sid l x -> sess_ok h sid l (close x).
Proof. intros [H1 H2 H3 H4 H5]. by split. Qed.

Lemma CloseSession_inv m sid s : inv m s -> inv m (CloseSession sid s).
Proof.
  intros I. unfold CloseSession, upd. destruct (sessions s !! sid) as [x|] eqn:Ex; [|done]. destruct (i_sess m s I sid x Ex) as (l & El & Hx). destruct (i_link m s I _ _ El) as [Hl Hu].
  apply (redis_step_inv m m s _ sid x (close x) (m_iLink x) l l); try done; [by rewrite (insert_link s _ l El)|by left|by left|by apply close_ok].
Qed.

Lemma says_inv m s b : inv m s -> inv m (set_says b s).
Proof. intros [I1 I2 I3 I4 I5]. by split. Qed.

(** ** Arming *)

Context (HB : 64 <= B < 2 ^ 64) (HC : 1 <= C).

Lemma set_resume_same l : set_resume (bResuming l) (bResumeArmed l) l = l.
Proof. by destruct l. Qed.

Lemma map_entry_length f : lenZ (map entry f) = lenZ f.
Proof. unfold lenZ. by rewrite length_map. Qed.

Lemma half_nonneg n : 0 <= n -> 0 <= Z.quot n 2.
Proof. intros H. apply Z.quot_pos; lia. Qed.

Lemma ArmResume_spec r u k s l : m_vLinks s !! k = Some l -> link_ok r u (stopRequested s) l ->
  exists a, ArmResume B C k s = set_links (<[k := set_resume (bResuming l) a l]> (m_vLinks s)) s /\ link_ok r false (stopRequested s) (set_resume (bResuming l) a l).
Proof.
  intros El Hl. pose proof Hl as [H1 H2 H3 H4 H5 H6]. unfold ArmResume, upl. rewrite El. pose proof (half_nonneg B ltac:(lia)). pose proof (half_nonneg C ltac:(lia)). destruct (_ || _) eqn:E.
  - exists (bResumeArmed l). rewrite set_resume_same. split; [done|]. split; try done. intros _ Hs Hp. rewrite Hs in E. cbn [orb] in E. rewrite (bool_decide_eq_false_2 _ Hp), orb_false_r in E.
    destruct (bResumeArmed l); [by left|]. cbn [orb] in E. right. intros Ef. destruct H2 as [H2 _]. rewrite Ef in *. cbn in H2. rewrite H1, H2 in E. cbn in E.
    apply orb_true_iff in E as [E%Z.ltb_lt|E%Z.ltb_lt]; [lia|]. unfold lenZ in E. cbn in E. lia.
  - exists true. split; [done|]. split; try done. intros _ _ _. by left.
Qed.

Lemma ArmResume_inv c r k d s : inv (mkMode c r (Some k) d) s -> inv (mkMode c r None d) (ArmResume B C k s).
Proof.
  intros I. destruct (m_vLinks s !! k) as [l|] eqn:El.
  - destruct (i_link _ s I k l El) as [Hl Hu]. destruct (ArmResume_spec _ _ k s l El Hl) as (a & -> & Ha).
    apply (link_inv (mkMode c r (Some k) d) _ s _ k l (set_resume (bResuming l) a l)); try done.
    + intros j Hj. cbn. by rewrite flag_other.
    + intros i z h _ _. by apply sess_ok_same.
  - unfold ArmResume, upl. rewrite El. destruct I as [I1 I2 I3 I4 I5]. split; try done. intros j z Ez. destruct (I2 j z Ez) as [J1 J2]. split; [|done]. cbn in *. rewrite flag_other in J1; [done|congruence].
Qed.

Lemma unarmed_inv c r u d s : inv (mkMode c r None d) s -> inv (mkMode c r u d) s.
Proof. intros [I1 I2 I3 I4 I5]. split; try done. intros k l El. destruct (I2 k l El) as [[H1 H2 H3 H4 H5 H6] Hu]. split; [|done]. split; auto. Qed.

Lemma ArmResume_again c r k d s : inv (mkMode c r None d) s -> inv (mkMode c r None d) (ArmResume B C k s).
Proof. intros I. by apply ArmResume_inv, unarmed_inv. Qed.

(** ** A reply *)

Lemma pop_others sid c f l l' : flight l = (sid, c) :: f -> flight l' = f -> vPaused l' = vPaused l -> others sid l l'.
Proof. intros Ef Ef' Ep i Hi. rewrite Ef, Ef', Ep, mine_cons, decide_False by done. done. Qed.

Lemma pop_link_ok r u stop l sid c f : link_ok r u stop l -> flight l = (sid, c) :: f -> link_ok r true stop (set_pending (map entry f) (iPendingBytes l - lenZ c) f l).
Proof.
  intros [H1 [H2 H2'] [H3 H3'] H4 H5 H6] Ef. rewrite Ef in *. cbn in H2, H2'. rewrite lenZ_cons in H3. apply Forall_cons in H3' as [_ H3']. pose proof (lenZ_nonneg c). split; cbn; try done; try lia. split; [lia|done].
Qed.

(** The credit comes back, whoever the answer is for. *)
Definition reply_text (r : redisReply) : list byte := match r with Null => AppendErr (txt "ERR redis down") | _ => AppendReply r end.

Lemma reply_spec k r0 s l r u sid c f : m_vLinks s !! k = Some l -> link_ok r u (stopRequested s) l -> flight l = (sid, c) :: f ->
  exists l', reply B C k r0 s = answer sid c (reply_text r0) (set_links (<[k := l']> (m_vLinks s)) s) /\
    link_ok r false (stopRequested s) l' /\ flight l' = f /\ vPaused l' = vPaused l /\ vReady l' = vReady l /\ pAsyncContext l' = pAsyncContext l /\ bDialing l' = bDialing l.
Proof.
  intros El Hl Ef. pose proof (lookup_lt_Some _ _ _ El) as Hk. pose proof (lk_pending _ _ _ _ Hl) as Hv. rewrite Ef in Hv. cbn [map] in Hv. change (entry (sid, c)) with (sid, lenZ c) in Hv.
  unfold reply. rewrite El, Ef. unfold upl at 1. rewrite El. unfold OnReply. cbn [m_vLinks set_links]. rewrite list_lookup_insert_eq by done. cbn [vPending set_pending]. rewrite Hv.
  unfold ReleaseCredit. unfold upl. cbn [m_vLinks set_links]. rewrite list_lookup_insert_eq by done. cbn [vPending set_pending]. rewrite list_insert_insert_eq. cbn [iPendingBytes flight].
  match goal with |- context [ArmResume B C k ?t] => change t with (set_links (<[k := set_pending (map entry f) (iPendingBytes l - lenZ c) f l]> (m_vLinks s)) s) end.
  pose proof (pop_link_ok _ _ _ l sid c f Hl Ef) as H2. set (l2 := set_pending _ _ _ _) in *.
  destruct (ArmResume_spec r true k (set_links (<[k := l2]> (m_vLinks s)) s) l2) as (a & Ea & Ha); [by apply list_lookup_insert_eq|done|].
  exists (set_resume (bResuming l2) a l2). split; [|by split_and!]. unfold reply_text. 
  replace (set_links (<[k := set_resume (bResuming l2) a l2]> (m_vLinks s)) s) with (ArmResume B C k (set_links (<[k := l2]> (m_vLinks s)) s)); [done|]. rewrite Ea. cbn. by rewrite list_insert_insert_eq.
Qed.

Lemma reply_inv d k r0 s : inv (mkMode None None None d) s -> inv (mkMode None None None d) (reply B C k r0 s).
Proof.
  intros I. destruct (m_vLinks s !! k) as [l|] eqn:El; [|unfold reply; by rewrite El]. destruct (flight l) as [|[sid c] f] eqn:Ef; [unfold reply; by rewrite El, Ef|].
  destruct (i_link _ s I k l El) as [Hl Hu]. destruct (reply_spec k r0 s l _ _ sid c f El Hl Ef) as (l' & -> & Hl' & Ef' & Ep' & _ & Ec & Ed).
  assert (d <> Some k -> up_ok l') as Hu' by (intros Hd Hc; rewrite Ec in Hc; destruct (Hu Hd Hc) as [H _]; congruence).
  assert (forall i e, (i, e) ∈ flight l' -> (i, e) ∈ flight l) as Hin by (rewrite Ef, Ef'; intros i e H; by right).
  unfold answer, IsClosed. cbn [sessions set_links]. destruct (sessions s !! sid) as [x|] eqn:Ex.
  2: { unfold CloseSession, upd. cbn [sessions set_links]. rewrite Ex. apply (link_inv (mkMode None None None d) _ s _ k l l'); try done; [intros [i e]; apply Hin|by rewrite Ep'|].
       intros i z h Ez _. apply (others_ok h i sid l l' z); [by apply (pop_others sid c f)|congruence]. }
  destruct (i_flight _ s I k l sid c El) as [_ Hk]; [rewrite Ef; by left|]. specialize (Hk x Ex). destruct (i_sess _ s I sid x Ex) as (l0 & El0 & Hx). assert (l0 = l) as -> by congruence.
  pose proof Hx as [H1 H2 H3 H4 H5].
  assert (forall t y, sessions t = <[sid := y]> (sessions s) -> m_vLinks t = <[k := l']> (m_vLinks s) -> iNextSessionId t = iNextSessionId s -> stopRequested t = stopRequested s -> m_iLink y = k ->
    sess_ok None sid l' y -> (closed y = false -> sid ∈ vPaused l -> m_bReadPaused y = true) -> inv (mkMode None None None d) t) as Hstep.
  { intros t y T1 T2 T3 T4 T5 T6 T7. apply (redis_step_inv (mkMode None None None d) _ s t sid x y k l l'); try done; [by intros i e H%Hin; left|rewrite Ep'; by left|by apply (pop_others sid c f)|by rewrite Ep']. }
  assert (closed x = true -> sess_ok None sid l' (close x)) as Hclose1 by (intros _; by split).
  assert (sess_ok None sid l' (close x)) as Hclose by by split.
  assert (inv (mkMode None None None d) (CloseSession sid (set_links (<[k := l']> (m_vLinks s)) s))) as Hcs.
  { apply (Hstep _ (close x)); try done; unfold CloseSession, upd; cbn; by rewrite Ex. }
  destruct (closed x) eqn:Ec'; [done|]. unfold ask_env. cbn [says set_links].
  assert (inv (mkMode None None None d) (upd sid (tell c (reply_text r0)) (set_links (<[k := l']> (m_vLinks s)) s))) as Ht.
  { apply (Hstep _ (tell c (reply_text r0) x)); try done; try (unfold upd; cbn; by rewrite Ex).
    - split; cbn; try done; [|intros _; rewrite Ep'; by apply H4|intros _ _; by apply H5]. intros _. rewrite Ef', map_app, <- app_assoc, <- (H3 eq_refl), Ef, mine_cons, decide_True by done. done.
    - intros _ Hp. destruct (i_paused _ s I k l sid El Hp) as (x0 & Ex0 & _ & Hx0). assert (x0 = x) as -> by congruence. by apply Hx0. }
  destruct (says s) as [|b w]; [done|]. destruct b.
  - by apply (says_inv _ _ w) in Ht; unfold upd in *; cbn in *; rewrite Ex in *.
  - by apply (says_inv _ _ w) in Hcs; unfold CloseSession, upd in *; cbn in *; rewrite Ex in *.
Qed.

(** ** Losing a connection *)

Lemma answer_links sid c r s : m_vLinks (answer sid c r s) = m_vLinks s /\ iNextSessionId (answer sid c r s) = iNextSessionId s /\ stopRequested (answer sid c r s) = stopRequested s.
Proof. unfold answer, ask_env, CloseSession, upd. destruct (IsClosed sid s); [by destruct (sessions s !! sid)|]. destruct (says s) as [|[] w]; cbn; by destruct (sessions s !! sid). Qed.

Lemma reply_all_inv n d k s : inv (mkMode None None None d) s -> inv (mkMode None None None d) (reply_all B C n k s).
Proof. revert s. induction n as [|n IH]; intros s I; [done|]. cbn. apply IH. by apply reply_inv. Qed.

Lemma reply_all_link n d k s l : inv (mkMode None None None d) s -> m_vLinks s !! k = Some l -> n = length (flight l) ->
  exists l', m_vLinks (reply_all B C n k s) !! k = Some l' /\ flight l' = [] /\ pAsyncContext l' = pAsyncContext l /\ bDialing l' = bDialing l.
Proof.
  revert s l. induction n as [|n IH]; intros s l I El Hn; [exists l; destruct (flight l); done|]. destruct (flight l) as [|[sid c] f] eqn:Ef; [done|]. cbn [reply_all].
  destruct (i_link _ s I k l El) as [Hl _]. destruct (reply_spec k Null s l _ _ sid c f El Hl Ef) as (l1 & E1 & _ & Ef1 & _ & _ & Ec & Ed).
  destruct (IH (reply B C k Null s) l1) as (l' & E' & Hf & Hc & Hd); [by apply reply_inv| |rewrite Ef1; by injection Hn|exists l'; by rewrite Hc, Hd].
  rewrite E1, (proj1 (answer_links _ _ _ _)). cbn. apply list_lookup_insert_eq. by eapply lookup_lt_Some.
Qed.

Lemma flush_link d k s l : inv (mkMode None None None d) s -> m_vLinks s !! k = Some l ->
  inv (mkMode None None None d) (flush B C k s) /\ exists l', m_vLinks (flush B C k s) !! k = Some l' /\ flight l' = [] /\ pAsyncContext l' = pAsyncContext l /\ bDialing l' = bDialing l.
Proof. intros I El. unfold flush. rewrite El. split; [by apply reply_all_inv|by apply (reply_all_link _ d k s l)]. Qed.

(** A connection comes or goes. *)
Lemma context_inv d d' k s s' l c b : inv (mkMode None None None d) s -> m_vLinks s !! k = Some l -> (d = None \/ d = Some k) -> (d' <> Some k -> c = false -> flight l = [] /\ b = true) ->
  sessions s' = sessions s -> m_vLinks s' = <[k := set_context c b l]> (m_vLinks s) -> iNextSessionId s' = iNextSessionId s -> stopRequested s' = stopRequested s -> inv (mkMode None None None d') s'.
Proof.
  intros I El Hd Hc S1 S2 S3 S4. destruct (i_link _ s I k l El) as [[H1 H2 H3 H4 H5 H6] _]. apply (link_inv (mkMode None None None d) _ s s' k l (set_context c b l)); try done.
  - intros j Hj. cbn. split_and!; [done..|]. intros _. by destruct Hd as [-> | ->]; [|intros [= ->]].
  - intros i z h _ _. by apply sess_ok_same.
Qed.

Lemma dying_inv k s l : inv (mkMode None None None (Some k)) s -> m_vLinks s !! k = Some l -> up_ok l -> inv rest_mode s.
Proof.
  intros [I1 I2 I3 I4 I5] El Hu. split; try done. intros j z Ez. destruct (I2 j z Ez) as [J1 J2]. split; [done|]. intros _. destruct (decide (k = j)) as [<-|Hne]; [|apply J2; cbn; congruence]. assert (z = l) as -> by congruence. done.
Qed.

Lemma lose_link k s l : m_vLinks s !! k = Some l -> lose k s = set_links (<[k := set_context false true l]> (m_vLinks s)) s.
Proof.
  intros El. unfold lose, ArmReconnect, upl. rewrite El. cbn [m_vLinks set_links]. rewrite list_lookup_insert_eq by (by eapply lookup_lt_Some). cbn [bDialing set_context].
  destruct (bDialing l) eqn:Ed; unfold set_links; cbn; by rewrite list_insert_insert_eq.
Qed.

Lemma lost_inv k s : inv rest_mode s -> inv rest_mode (lose k (flush B C k s)).
Proof.
  intros I. destruct (m_vLinks s !! k) as [l|] eqn:El.
  - destruct (flush_link None k s l I El) as [J (l' & El' & Hf & _)]. rewrite (lose_link k _ l' El'). by apply (context_inv None None k (flush B C k s) _ l' false true J El'); [left| |..].
  - unfold flush. rewrite El. cbn. unfold lose, ArmReconnect, upl. rewrite El. cbn. by rewrite El.
Qed.

Lemma refused_inv k s : inv rest_mode s -> inv rest_mode (flush B C k (lose k s)).
Proof.
  intros I. destruct (m_vLinks s !! k) as [l|] eqn:El.
  - assert (inv (mkMode None None None (Some k)) (lose k s)) as J by (rewrite (lose_link k s l El); apply (context_inv None (Some k) k s _ l false true I El); [by left|done..]).
    destruct (flush_link (Some k) k (lose k s) (set_context false true l) J) as [J' (l' & El' & Hf & _ & Hd)]; [rewrite (lose_link k s l El); apply list_lookup_insert_eq; by eapply lookup_lt_Some|].
    by apply (dying_inv k _ l' J' El').
  - unfold lose, ArmReconnect, upl. rewrite El. cbn. rewrite El. unfold flush. by rewrite El.
Qed.

Lemma redial_inv k s : inv rest_mode s -> inv rest_mode (Open k (upl k (fun l => set_context (pAsyncContext l) false l) s)).
Proof.
  intros I. unfold upl, Open. destruct (m_vLinks s !! k) as [l|] eqn:El; [|by rewrite El]. pose proof (lookup_lt_Some _ _ _ El) as Hk. cbn [m_vLinks set_links]. rewrite list_lookup_insert_eq by done. cbn [pAsyncContext set_context].
  destruct (i_link _ s I k l El) as [_ Hu]. destruct (pAsyncContext l) eqn:Ec; [by apply (context_inv None None k s _ l true false I El); [left| |..]|]. destruct (Hu ltac:(done) Ec) as [Hf _].
  assert (forall t c b, (c = false -> b = true) -> sessions t = sessions s -> m_vLinks t = <[k := set_context c b l]> (m_vLinks s) -> iNextSessionId t = iNextSessionId s -> stopRequested t = stopRequested s -> inv rest_mode t) as Hgo.
  { intros t c b Hcb. apply (context_inv None None k s t l c b I El); [by left|auto]. }
  unfold ask_env. cbn [says set_links]. destruct (says s) as [|[] w].
  - unfold upl. cbn. rewrite list_lookup_insert_eq by done. cbn. apply (Hgo _ true false); try done. cbn. by rewrite list_insert_insert_eq.
  - unfold upl. cbn. rewrite list_lookup_insert_eq by done. cbn. apply (Hgo _ true false); try done. cbn. by rewrite list_insert_insert_eq.
  - unfold ArmReconnect, upl. cbn. rewrite list_lookup_insert_eq by done. cbn. apply (Hgo _ false true); try done. cbn. by rewrite list_insert_insert_eq.
Qed.

(** ** A command is issued *)

(** What a step for one session does to the sessions. *)
Definition moves (sid : Z) (s s' : state) : Prop :=
  (forall j, j <> sid -> sessions s' !! j = sessions s !! j) /\
  (forall x, sessions s !! sid = Some x -> exists x', sessions s' !! sid = Some x' /\ (closed x = true -> closed x' = true) /\ (exists t, asked x' = asked x ++ t)).

Lemma moves_refl sid s : moves sid s s.
Proof. split; [done|]. intros x E. exists x. split; [done|]. split; [done|]. exists []. by rewrite app_nil_r. Qed.

Lemma moves_trans sid s1 s2 s3 : moves sid s1 s2 -> moves sid s2 s3 -> moves sid s1 s3.
Proof.
  intros [H1 H2] [H3 H4]. split; [intros j Hj; by rewrite H3, H1|]. intros x E. destruct (H2 x E) as (x2 & E2 & Hc & t & Ht). destruct (H4 x2 E2) as (x3 & E3 & Hc' & t' & Ht'). exists x3. split; [done|]. split; [auto|].
  exists (t ++ t'). by rewrite Ht', Ht, app_assoc.
Qed.

Lemma moves_one sid s s' x y t : sessions s !! sid = Some x -> sessions s' = <[sid := y]> (sessions s) -> (closed x = true -> closed y = true) -> asked y = asked x ++ t -> moves sid s s'.
Proof.
  intros E E' Hc Ht. split; [intros j Hj; by rewrite E', lookup_insert_ne|]. intros z Ez. assert (z = x) as -> by congruence. exists y. rewrite E', lookup_insert_eq. split; [done|]. split; [done|]. by exists t.
Qed.

Lemma here_cur sid p r u d : here (mkMode (Some (sid, p)) r u d) sid = Some p.
Proof. unfold here. cbn. by rewrite decide_True. Qed.
Lemma here_other sid p i r u d : i <> sid -> here (mkMode (Some (sid, p)) r u d) i = None.
Proof. intros H. unfold here. cbn. by rewrite decide_False. Qed.

Lemma good_length c : good c -> 3 < lenZ c <= B.
Proof. intros [[n H] _]. apply scan_command in H as (_ & H & _); lia. Qed.

Inductive issued (sid : Z) (p q c : list byte) (r u : option nat) (s : state) (x : session) (l : link) : state * bool -> Prop :=
| Held : (bResuming l = false /\ vPaused l <> ∅) \/ flight l <> [] -> issued sid p q c r u s x l (s, false)
| Shut s' : inv (mkMode (Some (sid, p)) r u None) s' -> sessions s' = <[sid := close x]> (sessions s) -> m_vLinks s' = m_vLinks s -> issued sid p q c r u s x l (s', true)
| Sent s' y l' : inv (mkMode (Some (sid, q)) r u None) (upd sid (ask c) s') -> IsClosed sid s' = false -> sessions (upd sid (ask c) s') = <[sid := y]> (sessions s) -> m_vLinks s' = <[m_iLink x := l']> (m_vLinks s) ->
    asked y = asked x ++ [c] -> closed y = false -> m_bReadPaused y = false -> m_iLink y = m_iLink x -> reading y = reading x -> vReady l' = vReady l -> issued sid p q c r u s x l (s', true).

(** The credit is taken, and what hiredis does not take gives it back. *)
Lemma issue_taken sid c k s l w : m_vLinks s !! k = Some l -> 
  upl k (fun l => set_pending (vPending l) (iPendingBytes l) (flight l ++ [(sid, c)]) l)
    (set_says w (upl k (fun l => set_pending (vPending l ++ [(sid, lenZ c)]) (iPendingBytes l + lenZ c) (flight l) l) s)) =
  set_links (<[k := set_pending (vPending l ++ [(sid, lenZ c)]) (iPendingBytes l + lenZ c) (flight l ++ [(sid, c)]) l]> (m_vLinks s)) (set_says w s).
Proof.
  intros El. unfold upl. rewrite El. cbn [m_vLinks set_links set_says]. rewrite list_lookup_insert_eq by (by eapply lookup_lt_Some). unfold set_links, set_says. cbn. by rewrite list_insert_insert_eq.
Qed.

Lemma issue_refused (sid : Z) (c : list byte) k s l w : m_vLinks s !! k = Some l -> 
  upl k (fun l => set_pending (removelast (vPending l)) (iPendingBytes l - lenZ c) (flight l) l)
    (set_says w (upl k (fun l => set_pending (vPending l ++ [(sid, lenZ c)]) (iPendingBytes l + lenZ c) (flight l) l) s)) = set_says w s.
Proof.
  intros El. unfold upl. rewrite El. cbn [m_vLinks set_links set_says]. rewrite list_lookup_insert_eq by (by eapply lookup_lt_Some). unfold set_links, set_says. cbn. rewrite list_insert_insert_eq.
  f_equal. rewrite removelast_last, Z.add_simpl_r. rewrite list_insert_id; [done|]. rewrite El. f_equal. by destruct l.
Qed.

Lemma Issue_spec sid p q c r u s x l : inv (mkMode (Some (sid, p)) r u None) s -> sessions s !! sid = Some x -> closed x = false -> m_bReadPaused x = false -> m_vLinks s !! m_iLink x = Some l ->
  p = c ++ q -> good c -> issued sid p q c r u s x l (Issue B C (m_iLink x) sid c s).
Proof.
  intros I Ex Ec Epa El -> Hg. pose proof (good_length c Hg) as Hlen. destruct (i_link _ s I _ l El) as [Hl Hu]. specialize (Hu ltac:(done)). pose proof Hl as [L1 [L2 L2'] L3 L4 L5 L6].
  destruct (i_sess _ s I sid x Ex) as (l0 & El0 & Hx). assert (l0 = l) as -> by congruence. rewrite here_cur in Hx. pose proof Hx as [H1 H2 H3 H4 H5]. cbn [default] in H1.
  assert (forall t, sessions t = sessions s -> m_vLinks t = m_vLinks s -> iNextSessionId t = iNextSessionId s -> stopRequested t = stopRequested s -> issued sid (c ++ q) q c r u s x l (CloseSession sid t, true)) as Hshut.
  { intros t T1 T2 T3 T4. apply Shut; [|unfold CloseSession, upd; by rewrite T1, Ex|unfold CloseSession, upd; rewrite T1, Ex; cbn; congruence].
    apply CloseSession_inv. destruct I as [J1 J2 J3 J4 J5]. by split; rewrite ?T1, ?T2, ?T3, ?T4. }
  unfold Issue. rewrite El. rewrite (proj2 (Z.eqb_neq (lenZ c) 0)), (proj2 (Z.ltb_ge B (lenZ c))) by lia. cbn [orb].
  assert (sid ∉ vPaused l) as Hnp.
  { intros Hin. destruct (i_paused _ s I _ l sid El Hin) as (x0 & Ex0 & _ & Hp). assert (x0 = x) as -> by congruence. rewrite Hp in Epa by done. done. }
  destruct (pAsyncContext l) eqn:Ectx; cbn [negb].
  2: { destruct (Hu Ectx) as [Hf _]. unfold answer. assert (IsClosed sid s = false) as Hcl by (unfold IsClosed; by rewrite Ex). rewrite Hcl.
       assert (forall w, issued sid (c ++ q) q c r u s x l (upd sid (tell c (AppendErr (txt "ERR redis down"))) (set_says w s), true)) as Ht.
       { intros w. set (e := AppendErr _). assert (upd sid (tell c e) (set_says w s) = set_sessions (<[sid := tell c e x]> (sessions s)) (set_says w s)) as Et by (unfold upd; cbn; by rewrite Ex).
         assert (sessions (upd sid (ask c) (upd sid (tell c e) (set_says w s))) = <[sid := ask c (tell c e x)]> (sessions s)) as Es by (rewrite Et; unfold upd; cbn; rewrite lookup_insert_eq; cbn; by rewrite insert_insert_eq).
         eapply (Sent _ _ _ _ _ _ _ _ _ _ (ask c (tell c e x)) l); try done; [|unfold IsClosed; rewrite Et; cbn; by rewrite lookup_insert_eq|rewrite Et; cbn; by rewrite (insert_link s _ l El)].
         apply (redis_step_inv (mkMode (Some (sid, c ++ q)) r u None) _ s _ sid x (ask c (tell c e x)) (m_iLink x) l l I); try done; try (rewrite Et; unfold upd; cbn; rewrite lookup_insert_eq; done).
         - rewrite Et. unfold upd. cbn. rewrite lookup_insert_eq. cbn. by rewrite (insert_link s _ l El).
         - intros i Hi. by rewrite !here_other.
         - by left.
         - by left.
         - rewrite here_cur. split; cbn; [|by apply Forall_app_2; [|constructor]| | |done].
           + rewrite H1, concat_app, <- !app_assoc. cbn. by rewrite app_nil_r.
           + intros _. rewrite map_app, Hf. cbn. rewrite <- (H3 Ec), Hf, app_nil_r. cbn. by rewrite app_nil_r.
           + congruence. }
       unfold ask_env. destruct (says s) as [|[] w] eqn:Ew; [|apply Ht|by apply Hshut].
       specialize (Ht []). destruct s. cbn in Ew. subst. apply Ht. }
  destruct (negb (bResuming l) && negb (bool_decide (vPaused l = ∅))) eqn:Ehold.
  { apply Held. left. apply andb_true_iff in Ehold as [E1%negb_true_iff E2%negb_true_iff]. split; [done|]. by apply bool_decide_eq_false in E2. }
  rewrite L1, map_entry_length, L2. pose proof (weight_nonneg (flight l)). rewrite u64_small by lia. destruct ((C <=? lenZ (flight l)) || (B - weight (flight l) <? lenZ c)) eqn:Efull.
  { apply Held. right. intros Hf. rewrite Hf in Efull. cbn in Efull. apply orb_true_iff in Efull as [E%Z.leb_le|E%Z.ltb_lt]; [unfold lenZ in E; cbn in E|]; lia. }
  apply orb_false_iff in Efull as [E1%Z.leb_gt E2%Z.ltb_ge].
  set (l' := set_pending (vPending l ++ [(sid, lenZ c)]) (iPendingBytes l + lenZ c) (flight l ++ [(sid, c)]) l).
  assert (forall w, issued sid (c ++ q) q c r u s x l (set_links (<[m_iLink x := l']> (m_vLinks s)) (set_says w s), true)) as Ht.
  { intros w.
    apply (Sent _ _ _ _ _ _ _ _ _ _ (ask c x) l'); try done; [|unfold IsClosed; cbn; by rewrite Ex|unfold upd; cbn; by rewrite Ex].
    apply (redis_step_inv (mkMode (Some (sid, c ++ q)) r u None) _ s _ sid x (ask c x) (m_iLink x) l l' I); try done; try (unfold upd; cbn; by rewrite Ex).
    - intros i Hi. by rewrite !here_other.
    - split; cbn; try done; [rewrite L1, map_app; done|rewrite weight_app; cbn; lia|split; [rewrite lenZ_app; unfold lenZ in *; cbn; lia|apply Forall_app_2; [apply L3|by constructor]]|].
      intros _ _ _. right. by destruct (flight l).
    - intros _ Hc. cbn in Hc. congruence.
    - intros i e. cbn. rewrite elem_of_app. intros [Hin|[= -> ->]%list_elem_of_singleton]; [by left|by right].
    - by left.
    - intros i Hi. change (flight l') with (flight l ++ [(sid, c)]). rewrite mine_app, mine_cons, decide_False by done. split; [apply app_nil_r|done].
    - rewrite here_cur. split; cbn [ask recv asked told closed m_bReadPaused default]; [|by apply Forall_app_2; [|constructor]| | |done].
      + rewrite H1, concat_app, <- !app_assoc. cbn. by rewrite app_nil_r.
      + intros _. change (flight l') with (flight l ++ [(sid, c)]). rewrite mine_app, mine_cons, decide_True by done. by rewrite app_assoc, (H3 Ec).
      + congruence. }
  set (s1 := upl _ _ s). assert (says s1 = says s) as Es1 by (unfold s1, upl; by rewrite El). unfold ask_env. rewrite Es1. destruct (says s) as [|[] w].
  - replace s1 with (set_says [] s1) by (destruct s1; cbn in *; by rewrite Es1). unfold s1. rewrite (issue_taken sid c _ s l) by done. apply Ht.
  - unfold s1. rewrite (issue_taken sid c _ s l) by done. apply Ht.
  - unfold s1. rewrite (issue_refused sid c _ s l) by done. by apply Hshut.
Qed.

(** ** Pausing *)

(** Sessions are worked on outside Resume, or by Resume of their link. *)
Definition working (k : nat) (r u : option nat) : Prop := (r = None /\ u = None) \/ (r = Some k /\ u = Some k).

Lemma pause_read_spec sid p r u s x l : inv (mkMode (Some (sid, p)) r u None) s -> working (m_iLink x) r u -> sessions s !! sid = Some x -> m_vLinks s !! m_iLink x = Some l ->
  exists s' l', pause_read B C (m_iLink x) sid s = Ok s' /\ inv (mkMode (Some (sid, p)) r u None) s' /\ sessions s' = <[sid := set_reading false (set_paused true x)]> (sessions s) /\
    m_vLinks s' !! m_iLink x = Some l' /\ flight l' = flight l.
Proof.
  intros I Hw Ex El. set (k := m_iLink x) in *. set (y := set_reading false (set_paused true x)). pose proof (lookup_lt_Some _ _ _ El) as Hk. destruct (i_link _ s I k l El) as [Hl Hu]. specialize (Hu ltac:(done)).
  destruct (i_sess _ s I sid x Ex) as (l0 & El0 & Hx). assert (l0 = l) as -> by (subst k; congruence). rewrite here_cur in Hx. pose proof Hl as [L1 L2 L3 [L4 L4'] L5 L6]. pose proof Hx as [H1 H2 H3 H4 H5].
  set (l1 := if bool_decide (sid ∈ vPaused l) then l else set_waiting ({[sid]} ∪ vPaused l) (vReady l ++ [sid]) l).
  assert (sid ∈ vPaused l1 /\ flight l1 = flight l /\ (forall i, i ∈ vPaused l -> i ∈ vPaused l1) /\ (forall i, i ∈ vPaused l1 -> i ∈ vPaused l \/ i = sid) /\ bResuming l1 = bResuming l) as (K1 & K2 & K3 & K4 & K5).
  { unfold l1. destruct (bool_decide (sid ∈ vPaused l)) eqn:Eb; [apply bool_decide_eq_true in Eb|]; cbn; split_and!; try done; try (intros i; rewrite ?elem_of_union, ?elem_of_singleton; tauto). by apply elem_of_union_l, elem_of_singleton. }
  assert (link_ok (flag r k) true (stopRequested s) l1) as Hl1.
  { unfold l1. destruct (bool_decide (sid ∈ vPaused l)) eqn:Eb; [by split|]. apply bool_decide_eq_false in Eb. split; cbn; try done. split.
    - apply NoDup_app. split_and!; [done| |apply NoDup_singleton]. intros i Hi ->%list_elem_of_singleton. by apply L4' in Hi.
    - intros i. rewrite elem_of_app, list_elem_of_singleton, elem_of_union, elem_of_singleton, L4'. tauto. }
  assert (up_ok l1) as Hu1 by (unfold l1; by destruct (bool_decide _)).
  set (s1 := set_sessions (<[sid := y]> (sessions s)) s). set (s2 := set_links (<[k := l1]> (m_vLinks s)) s1).
  assert (pause_read B C k sid s = Ok (if bResuming l then s2 else ArmResume B C k s2)) as Er.
  { unfold pause_read, upd. rewrite Ex. fold y. fold s1. unfold Pause. replace (m_vLinks s1 !! k) with (Some l) by done. unfold s2, l1. destruct (bool_decide (sid ∈ vPaused l)).
    - rewrite (insert_link s k l El). unfold s1, set_sessions, set_links. cbn. by destruct (bResuming l).
    - unfold upl. replace (m_vLinks s1 !! k) with (Some l) by done. done. }
  assert (inv (mkMode (Some (sid, p)) r (Some k) None) s2) as I2.
  { apply (redis_step_inv (mkMode (Some (sid, p)) r u None) _ s s2 sid x y k l l1 I); try done.
    - intros j Hj. cbn. rewrite flag_other by done. split_and!; try done. destruct Hw as [[_ ->]|[_ ->]]; [done|by rewrite flag_other].
    - cbn [unarmed]. replace (flag (Some k) k) with true by (symmetry; by apply flag_same). done.
    - intros i e. rewrite K2. by left.
    - intros i Hi. rewrite K2. split; [done|by apply K3].
    - rewrite here_cur. split; cbn; try done. by rewrite K2. }
  rewrite Er. destruct Hw as [[-> ->]|[-> ->]].
  - rewrite L5. cbn [resuming]. change (flag None k) with false. cbv iota. destruct (ArmResume_spec (flag None k) true k s2 l1) as (a & Ea & _); [by apply list_lookup_insert_eq|done|].
    exists (ArmResume B C k s2), (set_resume (bResuming l1) a l1). split; [done|]. split; [by apply ArmResume_inv|]. rewrite Ea. split; [done|]. cbn. rewrite list_lookup_insert_eq; [done|]. by rewrite length_insert.
  - rewrite L5. cbn [resuming]. replace (flag (Some k) k) with true by (symmetry; by apply flag_same). exists s2, l1. split; [done|]. split; [done|]. split; [done|]. split; [by apply list_lookup_insert_eq|done].
Qed.

(** ** ProcessInput *)

(** A whole command in front of the input. *)
Lemma scan_cut p n c : ScanCommand p B = Command n c -> exists a q, p = a ++ q /\ lenZ a = n /\ take (Z.to_nat n) p = a /\ drop (Z.to_nat n) p = q /\ 1 <= c /\ 3 < n <= B /\
  ScanCommand a B = Command (lenZ a) c /\ exists b, ChangesConnection a = Ok b.
Proof.
  intros H. destruct (scan_command p B n c) as (Hc & Hn & a & q & -> & Ha & Hall); [lia|done|]. exists a, q. assert (Z.to_nat n = length a) as En by (unfold lenZ in Ha; lia). rewrite En, take_app_length, drop_app_length.
  split_and!; try done; try lia; [specialize (Hall []); rewrite app_nil_r in Hall; by rewrite Ha|]. destruct (changes_ok (a ++ q) B n c) as [b Hb]; [lia|done|]. exists b. by rewrite En, take_app_length in Hb.
Qed.

(** How the loop of ProcessInput can end. *)
Definition ended (p q : list byte) (l l' : link) (x x' : session) : Prop :=
  (closed x' = true /\ vReady l' = vReady l) \/
  (closed x' = false /\ m_bReadPaused x' = true /\ reading x' = false /\ (q = p -> flight l' = flight l /\ ((bResuming l = false /\ vPaused l <> ∅) \/ flight l <> []))) \/
  (closed x' = false /\ m_bReadPaused x' = false /\ reading x' = reading x /\ ScanCommand q B = Incomplete /\ vReady l' = vReady l).

Lemma short_app {A} (c q : list A) : c <> [] -> q <> c ++ q.
Proof. intros H E. apply (f_equal length) in E. rewrite length_app in E. destruct c; [done|]. cbn in E. lia. Qed.

Lemma ParseLoop_spec sid fuel : forall iBudget p s x l r u, inv (mkMode (Some (sid, p)) r u None) s -> working (m_iLink x) r u -> sessions s !! sid = Some x -> closed x = false -> m_bReadPaused x = false ->
  m_vLinks s !! m_iLink x = Some l -> (length p < fuel)%nat -> 1 <= iBudget \/ p = [] -> exists s' q x' l' t, ParseLoop B C fuel iBudget (m_iLink x) sid p s = Ok (s', q) /\ inv (mkMode (Some (sid, q)) r u None) s' /\
    sessions s' !! sid = Some x' /\ moves sid s s' /\ m_iLink x' = m_iLink x /\ m_vLinks s' !! m_iLink x = Some l' /\ p = concat t ++ q /\ asked x' = asked x ++ t /\ Forall (fun c => c <> []) t /\ ended p q l l' x x'.
Proof.
  induction fuel as [|fuel IH]; intros iBudget p s x l r u I Hw Ex Ec Ep El Hf Hb; [lia|]. cbn [ParseLoop].
  assert (forall s' q, Ok (s, p) = Ok (s', q) -> ScanCommand p B = Incomplete -> exists s' q x' l' t, Ok (s, p) = Ok (s', q) /\ inv (mkMode (Some (sid, q)) r u None) s' /\ sessions s' !! sid = Some x' /\ moves sid s s' /\ m_iLink x' = m_iLink x /\
    m_vLinks s' !! m_iLink x = Some l' /\ p = concat t ++ q /\ asked x' = asked x ++ t /\ Forall (fun c => c <> []) t /\ ended p q l l' x x') as Hinc.
  { intros _ _ _ Hi. exists s, p, x, l, []. rewrite app_nil_r. split_and!; try done; [apply moves_refl|]. right. right. by split_and!. }
  assert (exists s' q x' l' t, Ok (CloseSession sid s, p) = Ok (s', q) /\ inv (mkMode (Some (sid, q)) r u None) s' /\ sessions s' !! sid = Some x' /\ moves sid s s' /\ m_iLink x' = m_iLink x /\
    m_vLinks s' !! m_iLink x = Some l' /\ p = concat t ++ q /\ asked x' = asked x ++ t /\ Forall (fun c => c <> []) t /\ ended p q l l' x x') as Hclose.
  { exists (CloseSession sid s), p, (close x), l, []. rewrite app_nil_r. assert (sessions (CloseSession sid s) = <[sid := close x]> (sessions s)) as Es by (unfold CloseSession, upd; by rewrite Ex).
    split_and!; try done; [by apply CloseSession_inv|by rewrite Es, lookup_insert_eq|apply (moves_one sid s _ x (close x) []); try done; by rewrite app_nil_r|unfold CloseSession, upd; by rewrite Ex|by left]. }
  destruct p as [|b0 p0] eqn:Hp0; [by apply (Hinc s [])|]. rewrite <- Hp0 in *. clear b0 p0 Hp0. destruct (ScanCommand p B) as [| |n c] eqn:Es; [by apply (Hinc s p)|done|].
  destruct (scan_cut p n c Es) as (a & q & Epq & Ha & -> & -> & Hc & Hn & Hscan & b & Hch). rewrite (proj2 (Z.ltb_lt 0 c)) by lia. rewrite Hch. cbn [rbind]. destruct b; [done|].
  assert (good a) as Hg by (split; [by exists c|done]). assert (a <> []) as Hne by (intros ->; unfold lenZ in Ha; cbn in Ha; lia).
  pose proof (Issue_spec sid p q a r u s x l I Ex Ec Ep El Epq Hg) as Hi. inversion Hi as [Hwhy Eq|s1 Is Es1 El1 Eq|s1 y l1 Is Hcl Es1 El1 Ha1 Hc1 Hp1 Hk1 Hr1 Hv1 Eq]; clear Hi.
  - (* no credit *)
    destruct (pause_read_spec sid p r u s x l I Hw Ex El) as (s' & l' & -> & I' & Es' & El' & Hfl). cbn [negb rbind]. exists s', p, (set_reading false (set_paused true x)), l', []. rewrite app_nil_r.
    split_and!; try done; [by rewrite Es', lookup_insert_eq|apply (moves_one sid s _ x (set_reading false (set_paused true x)) []); try done; by rewrite app_nil_r|]. right. left. split_and!; try done.
  - (* closed *)
    cbn [negb]. assert (IsClosed sid s1 = true) as -> by (unfold IsClosed; rewrite Es1, lookup_insert_eq; done). exists s1, p, (close x), l, []. rewrite app_nil_r.
    split_and!; try done; [by rewrite Es1, lookup_insert_eq|apply (moves_one sid s _ x (close x) []); try done; by rewrite app_nil_r|by rewrite El1|by left].
  - (* sent *)
    cbn [negb]. rewrite Hcl. set (s2 := upd sid (ask a) s1) in *. assert (sessions s2 !! sid = Some y) as Ey by by rewrite Es1, lookup_insert_eq.
    assert (m_vLinks s2 !! m_iLink x = Some l1) as El2.
    { unfold s2, upd. destruct (sessions s1 !! sid); cbn; rewrite El1; apply list_lookup_insert_eq; by eapply lookup_lt_Some. }
    assert (moves sid s s2) as Hmv by (apply (moves_one sid s s2 x y [a]); try done; congruence).
    destruct ((iBudget - 1 =? 0) && (0 <? lenZ q)) eqn:Ebud.
    + rewrite <- Hk1 in El2, Hw. destruct (pause_read_spec sid q r u s2 y l1 Is Hw Ey El2) as (s' & l' & Epr & I' & Es' & El' & Hfl). rewrite Hk1 in Epr, El'. rewrite Epr. cbn [rbind].
      exists s', q, (set_reading false (set_paused true y)), l', [a]. split_and!; try done; [by rewrite Es', lookup_insert_eq| |by cbn; rewrite app_nil_r|by constructor|].
      * apply (moves_trans sid s s2 s' Hmv). apply (moves_one sid s2 s' y (set_reading false (set_paused true y)) []); try done. by rewrite app_nil_r.
      * right. left. split_and!; try done. rewrite Epq. intros H. by apply short_app in H.
    + destruct (IH (iBudget - 1) q s2 y l1 r u Is) as (s' & q' & x' & l' & t & E & I' & Ex' & Hm' & Hk' & El' & Eq' & Ha' & Ht' & Hend); try done; try congruence.
      * rewrite Epq, length_app in Hf. unfold lenZ in Ha. lia.
      * apply andb_false_iff in Ebud as [Ebud%Z.eqb_neq|Ebud%Z.ltb_ge]; [|right; by apply lenZ_0; pose proof (lenZ_nonneg q); lia]. destruct Hb as [Hb|Hb]; [left; lia|]. rewrite Hb in Es. done.
      * exists s', q', x', l', (a :: t). rewrite <- Hk1. rewrite Hk1 in E |- * at 1. split_and!; try done; try congruence; [by apply (moves_trans sid s s2)|cbn; by rewrite <- app_assoc, <- Eq'|by rewrite Ha', Ha1, <- app_assoc|by constructor|].
        destruct Hend as [[K1 K2]|[(K1 & K2 & K3 & K4)|(K1 & K2 & K3 & K4 & K5)]]; [left; split; congruence|right; left; split_and!; try done|right; right; split_and!; try done; congruence].
        intros ->. exfalso. rewrite Eq', app_assoc in Epq. by apply short_app in Epq; [|by destruct a].
Qed.

(** Work on a session's input begins, and ends. *)
Lemma enter_inv r u s s' sid x y p l l' : inv (mkMode None r u None) s -> sessions s !! sid = Some x -> m_vLinks s !! m_iLink x = Some l ->
  sessions s' = <[sid := y]> (sessions s) -> m_vLinks s' = <[m_iLink x := l']> (m_vLinks s) -> iNextSessionId s' = iNextSessionId s -> stopRequested s' = stopRequested s ->
  m_iLink y = m_iLink x -> asked y = asked x -> told y = told x -> closed y = closed x -> (exists w, recv y = recv x ++ w /\ p = stInputBuffer x ++ w) -> m_bReadPaused y = false ->
  link_ok (flag r (m_iLink x)) (flag u (m_iLink x)) (stopRequested s) l' -> up_ok l' -> flight l' = flight l -> sid ∉ vPaused l' -> (forall i, i <> sid -> i ∈ vPaused l' <-> i ∈ vPaused l) ->
  inv (mkMode (Some (sid, p)) r u None) s'.
Proof.
  intros I Ex El Es El' En Est Ek Ea Et Ec (w & Er & ->) Ep Hl Hu Hf Hn Hi. destruct (i_sess _ s I sid x Ex) as (l0 & El0 & [H1 H2 H3 H4 H5]). assert (l0 = l) as -> by congruence. cbn [default here cur] in H1.
  apply (redis_step_inv (mkMode None r u None) _ s s' sid x y (m_iLink x) l l' I); try done.
  - intros i Hne. by rewrite here_other.
  - intros i c. rewrite Hf. by left.
  - intros i Hin. destruct (decide (i = sid)); [by right|left; by apply Hi].
  - intros i Hne. rewrite Hf. split; [done|]. by apply Hi.
  - rewrite here_cur. split; rewrite ?Ea, ?Et, ?Ec, ?Hf; try done; [|congruence]. cbn. by rewrite Er, H1, app_assoc.
Qed.

Lemma leave_input_inv r u s s' sid x y q : inv (mkMode (Some (sid, q)) r u None) s -> sessions s !! sid = Some x -> 
  sessions s' = <[sid := y]> (sessions s) -> m_vLinks s' = m_vLinks s -> iNextSessionId s' = iNextSessionId s -> stopRequested s' = stopRequested s ->
  stInputBuffer y = q -> m_iLink y = m_iLink x -> recv y = recv x -> asked y = asked x -> told y = told x -> closed y = closed x -> m_bReadPaused y = m_bReadPaused x ->
  (closed y = false -> reading y = negb (m_bReadPaused y) /\ (m_bReadPaused y = false -> ScanCommand q B = Incomplete)) -> inv (mkMode None r u None) s'.
Proof.
  intros I Ex Es El' En Est Eb Ek Er Ea Et Ec Ep Hidle. destruct (i_sess _ s I sid x Ex) as (l & El & [H1 H2 H3 H4 H5]). rewrite here_cur in H1. cbn [default] in H1. destruct (i_link _ s I _ l El) as [Hl Hu].
  apply (redis_step_inv (mkMode (Some (sid, q)) r u None) _ s s' sid x y (m_iLink x) l l I); try done.
  - by rewrite (insert_link s _ l El).
  - intros i Hne. by rewrite here_other.
  - by left.
  - by left.
  - split; rewrite ?Er, ?Ea, ?Et, ?Ec, ?Ep; try done; [cbn; by rewrite Eb|]. intros _ Hc. rewrite Eb. rewrite <- Ec in Hc. by rewrite <- Ep; apply Hidle.
  - intros Hc Hin. destruct (i_paused _ s I _ l sid El Hin) as (x0 & Ex0 & _ & Hp). assert (x0 = x) as -> by congruence. rewrite Ep. apply Hp. by rewrite <- Ec.
Qed.

(** OnDataIn. *)
Lemma redis_data_inv sid l s : inv rest_mode s -> IsClosed sid s = false -> exists s', do_event B C (Data sid l) s = Ok s' /\ inv rest_mode s'.
Proof.
  intros I Hcl. unfold IsClosed in Hcl. destruct (sessions s !! sid) as [x|] eqn:Ex; [|done]. destruct (i_sess _ s I sid x Ex) as (k & El & Hx). destruct (i_link _ s I _ k El) as [Hl Hu]. specialize (Hu ltac:(done)).
  cbn [do_event]. assert (upd sid (receive l) s = set_sessions (<[sid := receive l x]> (sessions s)) s) as -> by (unfold upd; by rewrite Ex). set (s1 := set_sessions _ s).
  assert (sessions s1 !! sid = Some (receive l x)) as Ex1 by apply lookup_insert_eq. unfold ProcessInput. rewrite Ex1. cbn [m_bReadPaused closed receive]. rewrite Hcl, orb_false_r. destruct (m_bReadPaused x) eqn:Ep.
  - exists s1. split; [done|]. destruct Hx as [H1 H2 H3 H4 H5]. apply (redis_step_inv rest_mode _ s s1 sid x (receive l x) (m_iLink x) k k I); try done; [by rewrite (insert_link s _ k El)|by left|by left|].
    split; cbn; try done; [by rewrite H1, <- app_assoc|]. intros _ Hc. split; [|congruence]. by apply H5.
  - assert (sid ∉ vPaused k) as Hnp.
    { intros Hin. destruct (i_paused _ s I _ k sid El Hin) as (x0 & Ex0 & _ & Hp). assert (x0 = x) as -> by congruence. rewrite Hp in Ep by done. done. }
    assert (inv (mkMode (Some (sid, stInputBuffer (receive l x))) None None None) s1) as I1.
    { apply (enter_inv None None s s1 sid x (receive l x) _ k k I Ex El); try done; [by rewrite (insert_link s _ k El)|by exists l]. }
    destruct (ParseLoop_spec sid (S (length (stInputBuffer (receive l x)))) 32 (stInputBuffer (receive l x)) s1 (receive l x) k None None I1) as (s' & q & x' & l' & t & E & I' & Ex' & _ & Hk' & El' & _ & _ & _ & Hend);
      try done; [by left|lia|left; lia|]. rewrite E. cbn [rbind]. eexists. split; [reflexivity|]. unfold upd. rewrite Ex'.
    apply (leave_input_inv None None s' _ sid x' (set_buffer q x') q I' Ex'); try done. cbn.
    intros Hc. destruct Hend as [[K1 _]|[(_ & K2 & K3 & _)|(_ & K2 & K3 & K4 & _)]]; [congruence|rewrite K2, K3; by split|rewrite K2, K3]. split; [|done]. destruct Hx as [_ _ _ _ H5]. destruct H5 as [H5 _]; [done..|]. cbn. by rewrite H5, Ep.
Qed.

(** ** Resuming *)

(** What a session that waited has gained: a command taken, or its end, or its freedom. *)
Definition served (sid : Z) (a : list (list byte)) (s : state) : Prop :=
  match sessions s !! sid with Some x => closed x = true \/ (length a < length (asked x))%nat \/ m_bReadPaused x = false | None => False end.

(** One session is resumed, out of the front of vReady. *)
Lemma ResumeRead_spec k s l sid w x : inv (mkMode None (Some k) (Some k) None) s -> m_vLinks s !! k = Some l -> vReady l = sid :: w -> sessions s !! sid = Some x -> closed x = false ->
  exists s' b l', ResumeRead B C sid (upl k (set_waiting (vPaused l ∖ {[sid]}) w) s) = Ok (s', b) /\ inv (mkMode None (Some k) (Some k) None) s' /\ moves sid s s' /\ m_vLinks s' !! k = Some l' /\
    (flight l = [] -> served sid (asked x) s') /\ (b = false -> (vReady l' = w /\ sid ∉ vPaused l') \/ (sid ∈ vPaused l' /\ flight l' <> [])).
Proof.
  intros I El Er Ex Ec. pose proof (lookup_lt_Some _ _ _ El) as Hlt. destruct (i_link _ s I k l El) as [Hl Hu]. specialize (Hu ltac:(done)). pose proof Hl as [L1 L2 L3 [L4 L4'] L5 L6].
  assert (sid ∈ vPaused l) as Hin by (apply L4'; rewrite Er; by left). destruct (i_paused _ s I k l sid El Hin) as (x0 & Ex0 & Hk & Hp). assert (x0 = x) as -> by congruence. subst k. set (k := m_iLink x) in *. assert (m_iLink x = k) as Hk by done.
  set (l1 := set_waiting (vPaused l ∖ {[sid]}) w l). assert (upl k (set_waiting (vPaused l ∖ {[sid]}) w) s = set_links (<[k := l1]> (m_vLinks s)) s) as -> by (unfold upl; by rewrite El). set (s1 := set_links _ s).
  rewrite Er in L4. apply NoDup_cons in L4 as [Hnw Hw]. assert (forall i, i ∈ w <-> i ∈ vPaused l ∖ {[sid]}) as Hiw.
  { intros i. rewrite elem_of_difference, elem_of_singleton, <- L4', Er, elem_of_cons. split; [intros Hi; split; [by right|intros ->; done]|intros [[->|Hi] Hne]; done]. }
  assert (flag (Some k) k = true) as Hfl by by apply flag_same. cbn [resuming unarmed] in L5. rewrite Hfl in L5.
  unfold ResumeRead. unfold IsClosed. replace (sessions s1 !! sid) with (Some x) by done. rewrite Ec. set (x1 := set_paused false x). set (s2 := set_sessions (<[sid := x1]> (sessions s)) s1).
  assert (upd sid (set_paused false) s1 = s2) as -> by (unfold upd; by replace (sessions s1 !! sid) with (Some x)).
  assert (inv (mkMode (Some (sid, stInputBuffer x1)) (Some k) (Some k) None) s2) as I2.
  { apply (enter_inv (Some k) (Some k) s s2 sid x x1 _ l l1 I Ex El); try done.
    - exists []. by rewrite !app_nil_r.
    - fold k. rewrite Hfl. split; try done; by rewrite Hfl.
    - cbn. rewrite elem_of_difference, elem_of_singleton. tauto.
    - intros i Hne. cbn. rewrite elem_of_difference, elem_of_singleton. tauto. }
  unfold ProcessInput. replace (sessions s2 !! sid) with (Some x1) by (symmetry; apply lookup_insert_eq). replace (m_bReadPaused x1 || closed x1) with false by (cbn; by rewrite Ec).
  destruct (ParseLoop_spec sid (S (length (stInputBuffer x1))) 1 (stInputBuffer x1) s2 x1 l1 (Some k) (Some k) I2) as (s3 & q & x3 & l3 & t & E & I3 & Ex3 & Hmv & Hk3 & El3 & Eq & Ea & Ht & Hend);
    try done; [right; cbn; by rewrite Hk|apply lookup_insert_eq|cbn; rewrite Hk; by apply list_lookup_insert_eq|lia|left; lia|]. change (m_iLink x1) with k in E, Hk3, El3 |- *. rewrite E. cbn [rbind].
  set (s4 := upd sid (set_buffer q) s3). assert (s4 = set_sessions (<[sid := set_buffer q x3]> (sessions s3)) s3) as Es4 by (unfold s4, upd; by rewrite Ex3).
  set (f := fun x => if negb (m_bReadPaused x) && negb (closed x) then set_reading true x else x). set (b := negb _). set (s5 := upd sid f s4). set (y := f (set_buffer q x3)).
  assert (sessions s5 = <[sid := y]> (sessions s3) /\ m_vLinks s5 = m_vLinks s3 /\ iNextSessionId s5 = iNextSessionId s3 /\ stopRequested s5 = stopRequested s3) as (E5 & E6 & E7 & E8).
  { unfold s5, upd. rewrite Es4. cbn [sessions set_sessions]. rewrite lookup_insert_eq. cbn. by rewrite insert_insert_eq. }
  assert (stInputBuffer y = q /\ m_iLink y = m_iLink x3 /\ recv y = recv x3 /\ asked y = asked x3 /\ told y = told x3 /\ closed y = closed x3 /\ m_bReadPaused y = m_bReadPaused x3 /\
    (closed y = false -> m_bReadPaused y = false -> reading y = true) /\ (m_bReadPaused y = true -> reading y = reading x3)) as (Y1 & Y2 & Y3 & Y4 & Y5 & Y6 & Y7 & Y8 & Y9).
  { unfold y, f. cbn. destruct (m_bReadPaused x3) eqn:E9, (closed x3) eqn:E10; cbn; rewrite ?E9, ?E10; split_and!; try done. }
  assert (b = false -> t = []) as Hb0.
  { unfold b. intros Hb%negb_false_iff%Z.eqb_eq. rewrite Eq in Hb. rewrite lenZ_app in Hb. destruct t as [|c t]; [done|]. apply Forall_cons in Ht as [Hc _]. cbn in Hb. rewrite lenZ_app in Hb. pose proof (lenZ_nonneg (concat t)). destruct c; [done|]. rewrite lenZ_cons in Hb. pose proof (lenZ_nonneg c). lia. }
  assert (b = true -> t <> []) as Hb1 by (unfold b; intros Hb%negb_true_iff%Z.eqb_neq ->; apply Hb; rewrite Eq; cbn; lia).
  exists s5, b, l3. split; [done|]. split.
  { apply (leave_input_inv (Some k) (Some k) s3 s5 sid x3 y q I3 Ex3); try done. intros Hc. rewrite Y6 in Hc.
    destruct Hend as [[K1 _]|[(_ & K2 & K3 & _)|(_ & K2 & K3 & K4 & _)]]; [congruence|rewrite Y9, Y7, K2, K3 by congruence; by split|]. rewrite Y8, Y7, K2 by congruence. by split. }
  split.
  { destruct Hmv as [M1 M2]. split.
    - intros j Hj. rewrite E5, lookup_insert_ne, M1 by done. cbn. by rewrite lookup_insert_ne.
    - intros z Ez. assert (z = x) as -> by congruence. exists y. rewrite E5, lookup_insert_eq. split; [done|]. split; [congruence|]. exists t. rewrite Y4, Ea. done. }
  split; [by rewrite E6|]. assert (b = false -> m_bReadPaused x3 = true -> closed x3 = false -> flight l3 = flight l /\ flight l <> []) as Hheld.
  { intros Hb Hp3 Hc3. destruct Hend as [[K1 _]|[(_ & _ & _ & K4)|(_ & K2 & _)]]; [congruence| |congruence]. rewrite (Hb0 Hb) in Eq. destruct K4 as [K4 [[K5 _]|K5]]; [done| |done]. cbn in K5. congruence. }
  assert (b = false -> (vReady l3 = w /\ sid ∉ vPaused l3) \/ (sid ∈ vPaused l3 /\ flight l3 <> [])) as Hlast.
  { intros Hb. destruct (i_link _ s3 I3 k l3 El3) as [Hl3 _]. destruct (lk_ready _ _ _ _ Hl3) as [_ Hr3].
    destruct Hend as [[_ K2]|[(K1 & K2 & _)|(_ & _ & _ & _ & K2)]]; [left; rewrite <- Hr3, K2; done| |left; rewrite <- Hr3, K2; done].
    right. destruct (Hheld Hb K2 K1) as [Hf3 Hf]. split; [|congruence]. destruct (i_sess _ s3 I3 sid x3 Ex3) as (l0 & El0 & Hx0). assert (l0 = l3) as -> by (rewrite Hk3 in El0; congruence). by apply Hx0. }
  split.
  - intros Hf. unfold served. rewrite E5, lookup_insert_eq, Y6, Y7, Y4, Ea. destruct Hend as [[K1 _]|[(K1 & K2 & _ & _)|(_ & K2 & _)]]; [by left| |by right; right]. right. left.
    destruct b eqn:Hb; [specialize (Hb1 eq_refl); rewrite length_app; destruct t; [done|cbn; lia]|]. by destruct (Hheld eq_refl K2 K1).
  - exact Hlast.
Qed.

(** A closed session is passed over. *)
Lemma pass_inv k s l sid w : inv (mkMode None (Some k) (Some k) None) s -> m_vLinks s !! k = Some l -> vReady l = sid :: w -> IsClosed sid s = true ->
  inv (mkMode None (Some k) (Some k) None) (set_links (<[k := set_waiting (vPaused l ∖ {[sid]}) w l]> (m_vLinks s)) s).
Proof.
  intros I El Er Hcl. destruct (i_link _ s I k l El) as [Hl Hu]. specialize (Hu ltac:(done)). pose proof Hl as [L1 L2 L3 [L4 L4'] L5 L6]. rewrite Er in L4. apply NoDup_cons in L4 as [Hnw Hw].
  apply (link_inv (mkMode None (Some k) (Some k) None) _ s _ k l (set_waiting (vPaused l ∖ {[sid]}) w l) I El); try done.
  - split; try done; [|by cbn [unarmed]; rewrite flag_self]. split; [done|]. intros i. cbn. rewrite elem_of_difference, elem_of_singleton, <- L4', Er, elem_of_cons. split; [intros Hi; split; [by right|intros ->; done]|intros [[->|Hi] Hne]; done].
  - cbn. intros i. rewrite elem_of_difference. tauto.
  - intros i z h Ez Hk [H1 H2 H3 H4 H5]. split; try done. intros Hc Hp. cbn. rewrite elem_of_difference, elem_of_singleton. split; [auto|]. intros ->. unfold IsClosed in Hcl. rewrite Ez in Hcl. congruence.
Qed.

(** The one who was not served comes to the front again. *)
Lemma front_inv k s l sid : inv (mkMode None (Some k) (Some k) None) s -> m_vLinks s !! k = Some l -> sid ∈ vPaused l ->
  inv (mkMode None (Some k) (Some k) None) (set_links (<[k := set_waiting (vPaused l) (sid :: filter (fun i => i <> sid) (vReady l)) l]> (m_vLinks s)) s).
Proof.
  intros I El Hin. destruct (i_link _ s I k l El) as [Hl Hu]. specialize (Hu ltac:(done)). pose proof Hl as [L1 L2 L3 [L4 L4'] L5 L6].
  apply (link_inv (mkMode None (Some k) (Some k) None) _ s _ k l (set_waiting (vPaused l) (sid :: filter (fun i => i <> sid) (vReady l)) l) I El); try done; [|by intros i z h _ _; apply sess_ok_same]. split; try done. cbn. split.
  - apply NoDup_cons. split; [|by apply NoDup_filter]. rewrite list_elem_of_filter. tauto.
  - intros i. rewrite elem_of_cons, list_elem_of_filter, L4'. destruct (decide (i = sid)) as [->|]; tauto.
Qed.

Lemma served_moves sid j a s s' : moves j s s' -> (sid = j -> forall x, sessions s !! sid = Some x -> closed x = false -> m_bReadPaused x = true) -> served sid a s -> served sid a s'.
Proof.
  intros [M1 M2] Hj. unfold served. destruct (decide (sid = j)) as [->|Hne]; [|by rewrite M1]. destruct (sessions s !! j) as [x|] eqn:Ex; [|done].
  destruct (M2 x eq_refl) as (x' & -> & Hc & t & ->). rewrite length_app. specialize (Hj eq_refl x eq_refl). destruct (closed x) eqn:Ec; [left; by apply Hc|]. intros [H|[H|H]]; [done|right; left; lia|]. by rewrite Hj in H.
Qed.

Lemma ResumeLoop_spec k n : forall g s l, inv (mkMode None (Some k) (Some k) None) s -> m_vLinks s !! k = Some l ->
  exists s' b l', ResumeLoop B C n k g s = Ok (s', b) /\ inv (mkMode None (Some k) (Some k) None) s' /\ m_vLinks s' !! k = Some l' /\ (g = true -> b = true) /\
    ((length (vReady l) <= n)%nat \/ g = true -> b = true \/ vReady l' = [] \/ flight l' <> []) /\
    (forall sid a, served sid a s -> served sid a s') /\
    (forall sid w x, vReady l = sid :: w -> flight l = [] -> n <> O -> sessions s !! sid = Some x -> served sid (asked x) s').
Proof.
  induction n as [|n IH]; intros g s l I El; cbn [ResumeLoop].
  { exists s, g, l. split_and!; try done. intros [Hn| ->]; [|by left]. right. left. destruct (vReady l); [done|]. cbn in Hn. lia. }
  rewrite El. destruct (vReady l) as [|sid w] eqn:Er; [exists s, g, l; split_and!; try done; by right; left|]. destruct (i_link _ s I k l El) as [Hl Hu]. pose proof Hl as [L1 [L2 L2'] L3 [L4 L4'] L5 L6].
  destruct (_ || _) eqn:Efull.
  { assert (flight l <> []) as Hf; [|exists s, g, l; split_and!; try done; by right; right]. intros Hf. rewrite L1, L2, Hf in Efull. cbn in Efull. apply orb_true_iff in Efull as [H%Z.leb_le|H%Z.leb_le]; [unfold lenZ in H; cbn in H|]; lia. }
  assert (sid ∈ vPaused l) as Hin by (apply L4'; rewrite Er; by left). destruct (i_paused _ s I k l sid El Hin) as (x & Ex & Hk & Hp). pose proof (lookup_lt_Some _ _ _ El) as Hlt.
  assert (forall a, served sid a s -> closed x = true \/ (length a < length (asked x))%nat) as Hsv.
  { intros a. unfold served. rewrite Ex. destruct (closed x); [by left|]. rewrite Hp by done. intros [|[|]]; [by left|by right|done]. }
  destruct (IsClosed sid (upl k _ s)) eqn:Ecl.
  - assert (upl k (set_waiting (vPaused l ∖ {[sid]}) w) s = set_links (<[k := set_waiting (vPaused l ∖ {[sid]}) w l]> (m_vLinks s)) s) as E by (unfold upl; by rewrite El). rewrite E in *.
    destruct (IH g _ (set_waiting (vPaused l ∖ {[sid]}) w l) (pass_inv k s l sid w I El Er Ecl)) as (s' & b & l' & E' & I' & El' & Hg & Hend & Hserved & _); [by apply list_lookup_insert_eq|].
    exists s', b, l'. split_and!; try done; [intros [Hn|Hn]; apply Hend; [left; cbn in *; lia|by right]|]. intros i v z [= <- <-] _ _ Ez. apply Hserved. unfold served. cbn [sessions set_links]. rewrite Ez. left. unfold IsClosed in Ecl. cbn in Ecl. by rewrite Ez in Ecl.
  - assert (closed x = false) as Hc by (unfold IsClosed, upl in Ecl; rewrite El in Ecl; cbn in Ecl; by rewrite Ex in Ecl).
    destruct (ResumeRead_spec k s l sid w x I El Er Ex Hc) as (s1 & b & l1 & E1 & I1 & Hmv & El1 & Hsv1 & Hb). rewrite E1. cbn [rbind]. rewrite El1.
    assert (forall i a, served i a s -> served i a s1) as Hkeep by (intros i a; apply (served_moves i sid a s s1 Hmv); intros -> z Ez _; assert (z = x) as -> by congruence; by apply Hp).
    destruct (negb b && bool_decide (sid ∈ vPaused l1)) eqn:Eb.
    + apply andb_true_iff in Eb as [Eb%negb_true_iff Eb'%bool_decide_eq_true]. assert (upl k (set_waiting (vPaused l1) (sid :: filter (λ i, i ≠ sid) (vReady l1))) s1 = set_links (<[k := set_waiting (vPaused l1) (sid :: filter (λ i, i ≠ sid) (vReady l1)) l1]> (m_vLinks s1)) s1) as -> by (unfold upl; by rewrite El1).
      eexists _, g, _. split; [done|]. split; [by apply front_inv|]. split; [cbn; apply list_lookup_insert_eq; by eapply lookup_lt_Some|]. split; [done|]. split; [intros _; right; right; destruct (Hb Eb) as [[_ H]|[_ H]]; done|].
      split; [exact Hkeep|]. intros i v z [= <- <-] Hf _ Ez. assert (z = x) as -> by congruence. by apply Hsv1.
    + destruct (IH (g || b) s1 l1 I1 El1) as (s' & b' & l' & E' & I' & El' & Hg & Hend & Hserved & _). exists s', b', l'. split_and!; try done.
      * intros ->. by apply Hg.
      * intros Hn. destruct b; [left; apply Hg; by rewrite orb_true_r|]. rewrite orb_false_r in *. apply Hend. destruct Hn as [Hn|Hn]; [|by right]. left. destruct (Hb eq_refl) as [[-> _]|[H _]]; [cbn in Hn; lia|].
        rewrite (bool_decide_eq_true_2 _ H) in Eb. done.
      * intros i a H. by apply Hserved, Hkeep.
      * intros i v z [= <- <-] Hf _ Ez. assert (z = x) as -> by congruence. by apply Hserved, Hsv1.
Qed.


(** Resume as a whole. *)
Lemma Resume_spec k s l : inv rest_mode s -> m_vLinks s !! k = Some l -> exists s', Resume B C k s = Ok s' /\ inv rest_mode s' /\
  (forall sid a, served sid a s -> served sid a s') /\ (forall sid w x, vReady l = sid :: w -> flight l = [] -> sessions s !! sid = Some x -> served sid (asked x) s').
Proof.
  intros I El. pose proof (lookup_lt_Some _ _ _ El) as Hlt. destruct (i_link _ s I k l El) as [Hl Hu]. specialize (Hu ltac:(done)). pose proof Hl as [L1 L2 L3 L4 L5 L6]. unfold Resume. rewrite El.
  set (l0 := set_resume true false l). assert (upl k (set_resume true false) s = set_links (<[k := l0]> (m_vLinks s)) s) as -> by (unfold upl; by rewrite El). set (s0 := set_links _ s).
  assert (inv (mkMode None (Some k) (Some k) None) s0) as I0.
  { apply (link_inv rest_mode _ s s0 k l l0 I El); try done.
    - intros j Hj. cbn. by rewrite !flag_other.
    - cbn [resuming unarmed]. rewrite !flag_self. by split.
    - intros i z h _ _. by apply sess_ok_same. }
  destruct (ResumeLoop_spec k (length (vReady l)) false s0 l0 I0) as (s1 & b & l1 & -> & I1 & El1 & _ & Hend & Hkeep & Hfirst); [by apply list_lookup_insert_eq|]. cbn [rbind].
  specialize (Hend (or_introl (le_n _))). set (l2 := set_resume false (bResumeArmed l1) l1). assert (upl k (fun l => set_resume false (bResumeArmed l) l) s1 = set_links (<[k := l2]> (m_vLinks s1)) s1) as -> by (unfold upl; by rewrite El1).
  set (s2 := set_links _ s1). destruct (i_link _ s1 I1 k l1 El1) as [Hl1 Hu1]. specialize (Hu1 ltac:(done)). pose proof Hl1 as [K1 K2 K3 K4 K5 K6].
  assert (forall u, (flag u k = false -> vReady l1 = [] \/ flight l1 <> []) -> (forall j, j <> k -> flag u j = false) -> inv (mkMode None None u None) s2) as Hout.
  { intros u Hun Hj. apply (link_inv (mkMode None (Some k) (Some k) None) _ s1 s2 k l1 l2 I1 El1); try done.
    - intros j Hne. cbn. by rewrite (flag_other k j Hne), Hj.
    - split; try done. cbn. intros Hf _ Hp. destruct (Hun Hf) as [Hv|]; [|by right]. exfalso. apply Hp. apply set_eq. intros i. rewrite <- (proj2 K4 i), Hv. split; [intros H; by apply not_elem_of_nil in H|intros H; by apply not_elem_of_empty in H].
    - intros i z h _ _. by apply sess_ok_same. }
  exists (if b then ArmResume B C k s2 else s2). split; [done|].
  assert (sessions (if b then ArmResume B C k s2 else s2) = sessions s1) as Es by (destruct b; [|done]; unfold ArmResume, upl; by destruct (m_vLinks s2 !! k)).
  split; [|unfold served; rewrite Es; split; [exact Hkeep|intros sid w x Hr Hf Ex; apply (Hfirst sid w x); try done; by rewrite Hr]].
  destruct b; [apply ArmResume_inv, Hout; [by rewrite flag_self|intros j; apply flag_other]|]. apply Hout; [|done]. intros _. by destruct Hend.
Qed.

(** ** The other events *)

Lemma mine_none sid f : (forall c, (sid, c) ∉ f) -> mine sid f = [].
Proof.
  induction f as [|[i c] f IH]; intros H; [done|]. rewrite mine_cons. destruct (decide (i = sid)) as [->|_]; [by destruct (H c); left|]. apply IH. intros c' Hin. apply (H c'). by right.
Qed.

Lemma add_inv s s' : inv rest_mode s -> 0 <= m_iNext s -> OnAddSession s = Ok s' -> inv rest_mode s'.
Proof.
  intros I Hn. pose proof I as [[I0 I1] I2 I3 I4 I5]. unfold OnAddSession. destruct (INT32_MAX <? _); [done|].
  assert (0 < lenZ (m_vLinks s)) as Hp by (destruct (m_vLinks s) as [|a w]; [done|]; rewrite lenZ_cons; pose proof (lenZ_nonneg w); lia). rewrite (proj2 (Z.eqb_neq _ 0)) by lia. destruct (_ =? INT32_MAX); [done|].
  intros [= <-]. set (k := Z.to_nat (Z.rem (m_iNext s) (lenZ (m_vLinks s)))). assert (exists l, m_vLinks s !! k = Some l) as [l El].
  { apply lookup_lt_is_Some. pose proof (Z.rem_bound_pos (m_iNext s) _ Hn Hp). unfold k, lenZ in *. lia. }
  assert (forall i z, sessions s !! i = Some z -> iNextSessionId s <> i) as Hfresh by (intros i z Ez; specialize (I1 i z Ez); lia).
  split; cbn.
  - split; [done|]. intros i z Ez. destruct (decide (iNextSessionId s = i)) as [<-|Hne]; [lia|]. rewrite lookup_insert_ne in Ez by done. specialize (I1 i z Ez). lia.
  - exact I2.
  - intros j z i c Ez Hin. destruct (I3 j z i c Ez Hin) as [Hi Hk]. split; [lia|]. intros w. rewrite lookup_insert_ne by lia. apply Hk.
  - intros j z i Ez Hin. destruct (I4 j z i Ez Hin) as (w & Ew & H). exists w. rewrite lookup_insert_ne by eauto. done.
  - intros i z Ez. destruct (decide (iNextSessionId s = i)) as [<-|Hne].
    + rewrite lookup_insert_eq in Ez. injection Ez as <-. exists l. split; [done|]. split; try done. intros _. cbn. apply mine_none. intros c Hin. destruct (I3 k l _ c El Hin). lia.
    + rewrite lookup_insert_ne in Ez by done. by apply (I5 i).
Qed.

Lemma del_inv sid s : inv rest_mode s -> inv rest_mode (OnDelSession sid s).
Proof.
  intros I. pose proof I as [[I0 I1] I2 I3 I4 I5]. assert (forall k l', m_vLinks (OnDelSession sid s) !! k = Some l' -> exists l, m_vLinks s !! k = Some l /\ l' = set_waiting (vPaused l ∖ {[sid]}) (filter (fun i => i <> sid) (vReady l)) l) as Hlk.
  { intros k l' E. cbn in E. rewrite list_lookup_fmap in E. destruct (m_vLinks s !! k) as [l|]; [|done]. injection E as <-. by exists l. }
  split.
  - split; [cbn; by destruct (m_vLinks s)|]. intros i z Ez. cbn in *. apply lookup_delete_Some in Ez as [_ Ez]. by apply (I1 i z).
  - intros k l' E. destruct (Hlk k l' E) as (l & El & ->). destruct (I2 k l El) as [[L1 L2 L3 [L4 L4'] L5 L6] Hu]. split; [|done]. split; try done.
    + split; [by apply NoDup_filter|]. intros i. cbn. rewrite list_elem_of_filter, L4', elem_of_difference, elem_of_singleton. tauto.
    + intros H1 H2 H3. apply L6; try done. intros Hp. apply H3. cbn. rewrite Hp. apply set_eq. intros i. rewrite elem_of_difference. split; [intros [H _]; done|intros H; by apply not_elem_of_empty in H].
  - intros k l' i c E Hin. destruct (Hlk k l' E) as (l & El & ->). destruct (I3 k l i c El Hin) as [Hi Hk]. split; [done|]. intros x Ex. cbn in Ex. apply lookup_delete_Some in Ex as [_ Ex]. by apply Hk.
  - intros k l' i E Hin. destruct (Hlk k l' E) as (l & El & ->). cbn in Hin. apply elem_of_difference in Hin as [Hin Hne]. destruct (I4 k l i El Hin) as (x & Ex & H). exists x. cbn. rewrite lookup_delete_ne; [done|]. intros ->. apply Hne. by apply elem_of_singleton.
  - intros i x Ex. cbn in Ex. apply lookup_delete_Some in Ex as [Hne Ex]. destruct (I5 i x Ex) as (l & El & [H1 H2 H3 H4 H5]). exists (set_waiting (vPaused l ∖ {[sid]}) (filter (fun i => i <> sid) (vReady l)) l). split.
    + cbn. rewrite list_lookup_fmap, El. done.
    + split; try done. intros Hc Hp. cbn. rewrite elem_of_difference, elem_of_singleton. split; [auto|done].
Qed.

(** ** The counters *)

(** Only a new session moves them. *)
Definition still (s s' : state) : Prop := m_iNext s' = m_iNext s /\ iNextSessionId s' = iNextSessionId s.

Lemma still_refl s : still s s.
Proof. done. Qed.
Lemma still_trans s1 s2 s3 : still s1 s2 -> still s2 s3 -> still s1 s3.
Proof. intros [E1 E2] [E3 E4]. split; congruence. Qed.
Lemma upd_still sid f s : still s (upd sid f s).
Proof. unfold upd. by destruct (_ !! _). Qed.
Lemma upl_still k f s : still s (upl k f s).
Proof. unfold upl. by destruct (_ !! _). Qed.

Create HintDb counters.
#[local] Hint Resolve still_refl upd_still upl_still : counters.

Lemma ask_env_still s : still s (snd (ask_env s)).
Proof. unfold ask_env. by destruct (says s). Qed.
Lemma CloseSession_still sid s : still s (CloseSession sid s).
Proof. apply upd_still. Qed.
#[local] Hint Resolve ask_env_still CloseSession_still : counters.

Lemma answer_still sid c r s : still s (answer sid c r s).
Proof.
  unfold answer. destruct (IsClosed sid s); [auto with counters|]. pose proof (ask_env_still s) as H. destruct (ask_env s) as [[] t]; cbn in H; eapply still_trans; eauto with counters.
Qed.
Lemma ArmResume_still k s : still s (ArmResume B C k s).
Proof. apply upl_still. Qed.
#[local] Hint Resolve answer_still ArmResume_still : counters.

Lemma reply_still k r s : still s (reply B C k r s).
Proof.
  unfold reply. destruct (_ !! _) as [l|]; [|done]. destruct (flight l) as [|[i c] f]; [done|]. eapply still_trans; [apply upl_still|]. unfold OnReply. destruct (_ !! _) as [l'|]; [|done]. destruct (vPending l') as [|[j n] v]; [done|].
  eapply still_trans; [|apply answer_still]. unfold ReleaseCredit. eapply still_trans; [apply upl_still|apply ArmResume_still].
Qed.
Lemma flush_still k s : still s (flush B C k s).
Proof. unfold flush. generalize (match m_vLinks s !! k with Some l => length (flight l) | None => 0%nat end). intros n. revert s. induction n as [|n IH]; intros s; [done|]. eapply still_trans; [apply reply_still|apply IH]. Qed.
Lemma ArmReconnect_still k s : still s (ArmReconnect k s).
Proof. apply upl_still. Qed.
Lemma lose_still k s : still s (lose k s).
Proof. eapply still_trans; [apply upl_still|apply ArmReconnect_still]. Qed.
Lemma Open_still k s : still s (Open k s).
Proof.
  unfold Open. destruct (_ !! _) as [l|]; [|done]. destruct (pAsyncContext l); [done|]. pose proof (ask_env_still s) as H. destruct (ask_env s) as [[] t]; cbn in H; eapply still_trans; eauto using upl_still, ArmReconnect_still.
Qed.

Lemma Issue_still k sid c s : still s (fst (Issue B C k sid c s)).
Proof.
  unfold Issue. destruct (_ !! _) as [l|]; [|apply CloseSession_still]. destruct (_ || _); [apply CloseSession_still|]. destruct (negb _); [apply answer_still|]. destruct (_ && _); [done|]. destruct (_ || _); [done|].
  set (t := upl _ _ s). pose proof (ask_env_still t) as H. assert (still s t) as Ht by apply upl_still. destruct (ask_env t) as [[] t']; cbn in *.
  - eapply still_trans; [exact Ht|]. eapply still_trans; [exact H|apply upl_still].
  - eapply still_trans; [exact Ht|]. eapply still_trans; [exact H|]. eapply still_trans; [apply upl_still|apply CloseSession_still].
Qed.

Lemma pause_read_still k sid s s' : pause_read B C k sid s = Ok s' -> still s s'.
Proof.
  unfold pause_read, Pause. set (t := upd _ _ s). assert (still s t) as Ht by apply upd_still. destruct (m_vLinks t !! k) as [l|]; [|done]. intros [= <-]. eapply still_trans; [exact Ht|]. set (t' := if bool_decide _ then t else _).
  assert (still t t') as H by (unfold t'; destruct (bool_decide _); [done|apply upl_still]). destruct (bResuming l); [exact H|]. eapply still_trans; [exact H|apply ArmResume_still].
Qed.

Lemma ParseLoop_still fuel : forall b k sid p s r, ParseLoop B C fuel b k sid p s = Ok r -> still s (fst r).
Proof.
  induction fuel as [|fuel IH]; intros b k sid p s r; [done|]. cbn [ParseLoop]. destruct p as [|x p]; [by intros [= <-]|]. destruct (ScanCommand _ _) as [| |n c]; [by intros [= <-]|intros [= <-]; apply CloseSession_still|].
  set (a := take _ _). set (q := drop _ _). assert (forall t, (let s := upd sid (ask a) t in if (b - 1 =? 0) && (0 <? lenZ q) then let! s := pause_read B C k sid s in Ok (s, q) else ParseLoop B C fuel (b - 1) k sid q s) = Ok r -> still t (fst r)) as Hgo.
  { intros t. cbv zeta. destruct (_ && _).
    - destruct (pause_read _ _ _ _ _) as [t'|] eqn:E; [|done]. intros [= <-]. eapply still_trans; [apply upd_still|]. by eapply pause_read_still.
    - intros H. eapply still_trans; [apply upd_still|]. by eapply IH. }
  destruct (0 <? c); [|apply Hgo]. destruct (ChangesConnection a) as [ch|]; [|done]. cbn [rbind]. destruct ch; [intros [= <-]; apply CloseSession_still|].
  pose proof (Issue_still k sid a s) as Hi. destruct (Issue _ _ _ _ _ _) as [t ok]. cbn in Hi. destruct (negb ok).
  - destruct (pause_read _ _ _ _ _) as [t'|] eqn:E; [|done]. intros [= <-]. eapply still_trans; [exact Hi|]. by eapply pause_read_still.
  - destruct (IsClosed sid t); [by intros [= <-]|]. intros H. eapply still_trans; [exact Hi|]. by apply Hgo.
Qed.

Lemma ProcessInput_still b sid s r : ProcessInput B C b sid s = Ok r -> still s (fst r).
Proof.
  unfold ProcessInput. destruct (_ !! _) as [x|]; [|done]. destruct (_ || _); [by intros [= <-]|]. destruct (ParseLoop _ _ _ _ _ _ _ _) as [[t q]|] eqn:E; [|done]. intros [= <-]. apply ParseLoop_still in E. eapply still_trans; [exact E|apply upd_still].
Qed.

Lemma ResumeRead_still sid s r : ResumeRead B C sid s = Ok r -> still s (fst r).
Proof.
  unfold ResumeRead. destruct (IsClosed sid s); [by intros [= <-]|]. destruct (ProcessInput _ _ _ _ _) as [[t n]|] eqn:E; [|done]. intros [= <-]. apply ProcessInput_still in E. eapply still_trans; [apply upd_still|]. eapply still_trans; [exact E|apply upd_still].
Qed.

Lemma ResumeLoop_still n k : forall g s r, ResumeLoop B C n k g s = Ok r -> still s (fst r).
Proof.
  induction n as [|n IH]; intros g s r; cbn [ResumeLoop]; [by intros [= <-]|]. destruct (m_vLinks s !! k) as [l|]; [|by intros [= <-]]. destruct (vReady l) as [|sid w]; [by intros [= <-]|]. destruct (_ || _); [by intros [= <-]|].
  set (t := upl _ _ s). assert (still s t) as Ht by apply upl_still. destruct (IsClosed sid t); [intros H; eapply still_trans; [exact Ht|by eapply IH]|].
  destruct (ResumeRead _ _ _ _) as [[t1 b]|] eqn:E; [|done]. apply ResumeRead_still in E. cbn [rbind fst] in *. destruct (m_vLinks t1 !! k) as [l1|]; [|intros [= <-]; eapply still_trans; [exact Ht|exact E]].
  destruct (_ && _); [intros [= <-]; eapply still_trans; [exact Ht|]; eapply still_trans; [exact E|apply upl_still]|]. intros H. eapply still_trans; [exact Ht|]. eapply still_trans; [exact E|]. by eapply IH.
Qed.

Lemma Resume_still k s s' : Resume B C k s = Ok s' -> still s s'.
Proof.
  unfold Resume. destruct (_ !! _) as [l|]; [|done]. destruct (ResumeLoop _ _ _ _ _ _) as [[t b]|] eqn:E; [|done]. apply ResumeLoop_still in E. intros [= <-]. eapply still_trans; [apply upl_still|]. eapply still_trans; [exact E|].
  cbn [fst]. destruct b; [eapply still_trans; [apply upl_still|apply ArmResume_still]|apply upl_still].
Qed.

(** How many sessions a run adds. *)
Definition is_add (e : event) : Z := match e with Add => 1 | _ => 0 end.
Fixpoint adds (es : list (event * list bool)) : Z := match es with [] => 0 | (e, _) :: es => is_add e + adds es end.

Lemma do_event_next e s s' : m_vLinks s <> [] -> do_event B C e s = Ok s' -> m_iNext s' = m_iNext s + is_add e /\ iNextSessionId s' = iNextSessionId s + is_add e.
Proof.
  intros Hl. assert (forall t, still s t -> is_add e = 0 -> m_iNext t = m_iNext s + is_add e /\ iNextSessionId t = iNextSessionId s + is_add e) as Hs by (intros t [E1 E2] ->; rewrite E1, E2; lia).
  destruct e as [|sid l|sid|sid|k r|k|k|k|k|]; cbn [do_event].
  - unfold OnAddSession. destruct (_ <? _); [done|]. destruct (lenZ (m_vLinks s) =? 0) eqn:E; [apply Z.eqb_eq, lenZ_0 in E; congruence|]. destruct (m_iNext s =? INT32_MAX); [done|]. intros [= <-]. cbn. lia.
  - destruct (ProcessInput _ _ _ _ _) as [[t n]|] eqn:E; [|done]. intros [= <-]. apply Hs; [|done]. eapply still_trans; [apply upd_still|]. by apply ProcessInput_still in E.
  - intros [= <-]. apply Hs; [apply CloseSession_still|done].
  - intros [= <-]. by apply Hs.
  - intros [= <-]. apply Hs; [apply reply_still|done].
  - intros [= <-]. apply Hs; [|done]. eapply still_trans; [apply lose_still|apply flush_still].
  - intros [= <-]. apply Hs; [|done]. eapply still_trans; [apply flush_still|apply lose_still].
  - intros [= <-]. apply Hs; [|done]. eapply still_trans; [apply upl_still|apply Open_still].
  - intros E. apply Hs; [by eapply Resume_still|done].
  - intros [= <-]. by apply Hs.
Qed.

Lemma redis_event_inv e s : inv rest_mode s -> 0 <= m_iNext s -> iNextSessionId s = m_iNext s + 1 -> may e s = true ->
  (m_iNext s + is_add e <= INT32_MAX -> exists s', do_event B C e s = Ok s') /\ (forall s', do_event B C e s = Ok s' -> inv rest_mode s').
Proof.
  intros I Hn Hid Hm. assert ((exists s', do_event B C e s = Ok s' /\ inv rest_mode s') -> (m_iNext s + is_add e <= INT32_MAX -> exists s', do_event B C e s = Ok s') /\ (forall s', do_event B C e s = Ok s' -> inv rest_mode s')) as Hgo.
  { intros (s' & E & I'). split; [by exists s'|]. intros t. rewrite E. by intros [= <-]. }
  destruct e as [|sid l|sid|sid|k r|k|k|k|k|]; cbn [may] in Hm; [|apply Hgo..].
  - cbn [do_event]. split; [|intros s'; by apply add_inv]. cbn [is_add]. intros Hmax. unfold OnAddSession. rewrite (proj2 (Z.ltb_ge INT32_MAX _)) by lia. destruct (_ =? 0); [by eexists|]. rewrite (proj2 (Z.eqb_neq _ INT32_MAX)) by lia. by eexists.
  - apply negb_true_iff in Hm. by apply redis_data_inv.
  - eexists. split; [reflexivity|]. by apply CloseSession_inv.
  - eexists. split; [reflexivity|]. by apply del_inv.
  - eexists. split; [reflexivity|]. by apply reply_inv.
  - eexists. split; [reflexivity|]. by apply refused_inv.
  - eexists. split; [reflexivity|]. by apply lost_inv.
  - eexists. split; [reflexivity|]. by apply redial_inv.
  - unfold link_at in Hm. destruct (m_vLinks s !! k) as [l|] eqn:El; [|done]. destruct (Resume_spec k s l I El) as (s' & E & I' & _). by exists s'.
  - eexists. split; [reflexivity|]. destruct I as [I1 I2 I3 I4 I5]. split; try done. intros k l El. destruct (I2 k l El) as [[L1 L2 L3 L4 L5 L6] Hu]. by split; [split|].
Qed.

Lemma is_add_nonneg e : 0 <= is_add e.
Proof. by destruct e. Qed.
Lemma adds_nonneg es : 0 <= adds es.
Proof. induction es as [|[e w] es IH]; cbn; [done|]. pose proof (is_add_nonneg e). lia. Qed.

Lemma redis_run_inv es : forall s r, inv rest_mode s -> 0 <= m_iNext s -> iNextSessionId s = m_iNext s + 1 -> run B C es s = Some r ->
  (m_iNext s + adds es <= INT32_MAX -> exists s', r = Ok s') /\ (forall s', r = Ok s' -> inv rest_mode s').
Proof.
  induction es as [|[e l] es IH]; cbn [run adds]; intros s r I Hn Hid; [intros [= <-]; split; [by exists s|by intros s' [= <-]]|]. destruct (may e s) eqn:Hm; [|done].
  assert (inv rest_mode (set_says l s)) as I0 by by apply says_inv. destruct (redis_event_inv e (set_says l s) I0 Hn Hid) as [Htot Hinv]; [by destruct e|]. pose proof (adds_nonneg es) as Ha.
  destruct (do_event B C e (set_says l s)) as [s1|f] eqn:E; [|intros [= <-]; split; [|done]; intros Hmax; destruct Htot as (s' & [=]); cbn; lia].
  destruct (do_event_next e (set_says l s) s1 (proj1 (i_ids _ _ I0)) E) as [E1 E2]. cbn in E1, E2. pose proof (is_add_nonneg e). intros Er.
  destruct (IH s1 r (Hinv s1 eq_refl) ltac:(lia) ltac:(lia) Er) as [H1 H2]. split; [|done]. intros Hmax. apply H1. lia.
Qed.

Lemma open_all_links n m s : m_vLinks s = replicate m new_link -> (n <= m)%nat ->
  let t := open_all n s in sessions t = sessions s /\ iNextSessionId t = iNextSessionId s /\ length (m_vLinks t) = m /\
  forall k l, m_vLinks t !! k = Some l -> exists c d, l = set_context c d new_link /\ ((k < n)%nat -> c = false -> d = true) /\ ((n <= k)%nat -> c = false /\ d = false).
Proof.
  intros Es. induction n as [|n IH]; intros Hn t; subst t; cbn [open_all].
  { rewrite Es, length_replicate. split_and!; try done. intros k l El. apply lookup_replicate in El as [-> _]. exists false, false. split; [done|]. split; [lia|done]. }
  destruct IH as (H1 & H2 & H3 & H4); [lia|]. set (t := open_all n s) in *. assert (exists l, m_vLinks t !! n = Some l) as [l El] by (apply lookup_lt_is_Some; lia).
  destruct (H4 n l El) as (c & d & -> & _ & Hcd). destruct (Hcd (le_n n)) as [-> ->]. unfold Open. rewrite El. cbn [pAsyncContext set_context].
  assert (forall c d w, (c = false -> d = true) -> let t' := set_links (<[n := set_context c d new_link]> (m_vLinks t)) (set_says w t) in sessions t' = sessions s /\ iNextSessionId t' = iNextSessionId s /\ length (m_vLinks t') = m /\
    forall k l, m_vLinks t' !! k = Some l -> exists c d, l = set_context c d new_link /\ ((k < S n)%nat -> c = false -> d = true) /\ ((S n <= k)%nat -> c = false /\ d = false)) as Hgo.
  { intros c d w Hd. cbn. rewrite length_insert. split_and!; try done. intros k l' El'. destruct (decide (n = k)) as [<-|Hne].
    - rewrite list_lookup_insert_eq in El' by (by eapply lookup_lt_Some). injection El' as <-. exists c, d. split; [done|]. split; [auto|lia].
    - rewrite list_lookup_insert_ne in El' by done. destruct (H4 k l' El') as (c' & d' & -> & Ha & Hb). exists c', d'. split; [done|]. split; [intros Hk; apply Ha; lia|intros Hk; apply Hb; lia]. }
  unfold ask_env. destruct (says t) as [|[] w] eqn:Ew.
  - unfold upl. rewrite El. specialize (Hgo true false [] ltac:(done)). by destruct t; cbn in Ew; subst.
  - unfold upl. cbn [m_vLinks set_says]. rewrite El. by apply (Hgo true false w).
  - unfold ArmReconnect, upl. cbn [m_vLinks set_says]. rewrite El. by apply (Hgo false true w).
Qed.

Lemma Init_inv n w : inv rest_mode (Init n w).
Proof.
  unfold Init. set (m := Z.to_nat (Z.max 1 n)). set (s := mkState ∅ _ _ _ _ _). destruct (open_all_links m m s eq_refl (le_n m)) as (H1 & H2 & H3 & H4). set (t := open_all m s) in *.
  split.
  - split; [intros E; rewrite E in H3; cbn in H3; lia|]. intros i z. rewrite H1. cbn. by rewrite lookup_empty.
  - intros k l El. destruct (H4 k l El) as (c & d & -> & Hcd & _). pose proof (lookup_lt_Some _ _ _ El) as Hk. rewrite H3 in Hk. split; [|intros _ Hc; split; [done|by apply Hcd]].
    split; cbn; try done; [lia|split; [unfold lenZ; cbn; lia|by constructor]|]. split; [constructor|]. intros i. split; [intros H; by apply not_elem_of_nil in H|intros H; by apply not_elem_of_empty in H].
  - intros k l i c El Hin. destruct (H4 k l El) as (? & ? & -> & _). by apply not_elem_of_nil in Hin.
  - intros k l i El Hin. destruct (H4 k l El) as (? & ? & -> & _). by apply not_elem_of_empty in Hin.
  - intros i z. rewrite H1. cbn. by rewrite lookup_empty.
Qed.

Lemma open_all_still n s : still s (open_all n s).
Proof. induction n as [|n IH]; cbn [open_all]; [done|]. eapply still_trans; [exact IH|apply Open_still]. Qed.

Lemma Init_counters n w : m_iNext (Init n w) = 0 /\ iNextSessionId (Init n w) = 1.
Proof. unfold Init. set (s := mkState ∅ _ _ _ _ _). apply (open_all_still _ s). Qed.

(** What a run from the start comes to. *)
Lemma redis_run_start es n w r : run B C es (Init n w) = Some r -> (adds es <= INT32_MAX -> exists s, r = Ok s) /\ (forall s, r = Ok s -> inv rest_mode s).
Proof.
  destruct (Init_counters n w) as [E1 E2]. intros H. destruct (redis_run_inv es (Init n w) r (Init_inv n w) ltac:(lia) ltac:(lia) H) as [H1 H2]. split; [|done]. rewrite E1 in H1. intros Ha. apply H1. lia.
Qed.

(** ** Answers *)

Definition down : list byte := AppendErr (txt "ERR redis down").

(** What a session can become while answers come: no more is asked, and unless it is closed
    just these answers are told. *)
Definition told_to (t : list (list byte * list byte)) (x x' : session) : Prop :=
  asked x' = asked x /\ recv x' = recv x /\ (closed x = true -> closed x' = true) /\ (closed x' = true \/ told x' = told x ++ t).

Lemma told_to_refl x : told_to [] x x.
Proof. split_and!; try done. right. by rewrite app_nil_r. Qed.

Lemma told_to_trans t u x y z : told_to t x y -> told_to u y z -> told_to (t ++ u) x z.
Proof.
  intros (A1 & A2 & A3 & A4) (B1 & B2 & B3 & B4). split_and!; try congruence; [auto|]. destruct B4 as [B4|B4]; [by left|]. destruct A4 as [A4|A4]; [left; auto|]. right. by rewrite B4, A4, app_assoc.
Qed.

Lemma answer_told sid c r s i x : sessions s !! i = Some x -> exists x', sessions (answer sid c r s) !! i = Some x' /\ told_to (if decide (sid = i) then [(c, r)] else []) x x'.
Proof.
  intros Ex. assert (exists y, sessions (CloseSession sid s) !! i = Some y /\ told_to (if decide (sid = i) then [(c, r)] else []) x y /\ (sid <> i -> y = x)) as Hclose.
  { unfold CloseSession, upd. destruct (decide (sid = i)) as [->|Hne]; [rewrite Ex; exists (close x); cbn; rewrite lookup_insert_eq; split_and!; [done| |done]; split_and!; by auto|].
    exists x. split; [|split; [apply told_to_refl|done]]. destruct (sessions s !! sid); [|done]. cbn. by rewrite lookup_insert_ne. }
  destruct Hclose as (y & Ey & Hy & Hne). unfold answer. destruct (IsClosed sid s) eqn:Ec; [by exists y|].
  assert (exists x', sessions (upd sid (tell c r) s) !! i = Some x' /\ told_to (if decide (sid = i) then [(c, r)] else []) x x') as Htell.
  { unfold upd. destruct (decide (sid = i)) as [->|Hn]; [rewrite Ex; exists (tell c r x); cbn; rewrite lookup_insert_eq; split; [done|]; split_and!; by auto|].
    exists x. split; [|apply told_to_refl]. destruct (sessions s !! sid); [|done]. cbn. by rewrite lookup_insert_ne. }
  unfold ask_env. destruct (says s) as [|[] w]; [done| |].
  - unfold upd in *. cbn in *. by destruct (sessions s !! sid).
  - exists y. split; [|done]. unfold CloseSession, upd in *. cbn in *. by destruct (sessions s !! sid).
Qed.

(** The answers [rs] to the first commands of [f], as they concern one session. *)
Fixpoint answers (sid : Z) (f : list (Z * list byte)) (rs : list redisReply) : list (list byte * list byte) :=
  match f, rs with
  | (i, c) :: f, r :: rs => (if decide (i = sid) then [(c, reply_text r)] else []) ++ answers sid f rs
  | _, _ => []
  end.

Lemma answers_down sid f : answers sid f (repeat Null (length f)) = map (fun c => (c, down)) (mine sid f).
Proof. induction f as [|[i c] f IH]; [done|]. cbn [repeat length answers]. rewrite mine_cons, IH. by destruct (decide (i = sid)). Qed.

Definition hear (w : option (list bool)) (s : state) : state := match w with Some w => set_says w s | None => s end.
Fixpoint replies (k : nat) (rs : list (redisReply * option (list bool))) (s : state) : state :=
  match rs with [] => s | (r, w) :: rs => replies k rs (reply B C k r (hear w s)) end.

Lemma hear_same w s : sessions (hear w s) = sessions s /\ m_vLinks (hear w s) = m_vLinks s /\ stopRequested (hear w s) = stopRequested s.
Proof. by destruct w. Qed.

(** Answers to all that is on the way on a link. *)
Lemma replies_spec d k rs : forall s l, inv (mkMode None None None d) s -> m_vLinks s !! k = Some l -> length rs = length (flight l) ->
  exists l', let s' := replies k rs s in inv (mkMode None None None d) s' /\ m_vLinks s' !! k = Some l' /\ flight l' = [] /\ vReady l' = vReady l /\ vPaused l' = vPaused l /\ pAsyncContext l' = pAsyncContext l /\ bDialing l' = bDialing l /\
    stopRequested s' = stopRequested s /\ (forall i x, sessions s !! i = Some x -> exists x', sessions s' !! i = Some x' /\ told_to (answers i (flight l) (map fst rs)) x x').
Proof.
  induction rs as [|[r0 w] rs IH]; intros s l I El Hn; cbn [replies].
  { exists l. destruct (flight l); [|done]. split_and!; try done. intros i x Ex. exists x. split; [done|apply told_to_refl]. }
  destruct (flight l) as [|[sid c] f] eqn:Ef; [done|]. pose proof (lookup_lt_Some _ _ _ El) as Hk. destruct (hear_same w s) as (Q1 & Q2 & Q3). assert (inv (mkMode None None None d) (hear w s)) as I0 by (destruct w; [by apply says_inv|done]).
  set (s0 := hear w s) in *. rewrite <- Q2 in El, Hk. destruct (i_link _ _ I0 k l El) as [Hl _].
  destruct (reply_spec k r0 s0 l _ _ sid c f El Hl Ef) as (l1 & E1 & _ & Ef1 & Ep1 & Er1 & Ec1 & Ed1). pose proof (reply_inv d k r0 _ I0) as I1. set (s1 := reply B C k r0 s0) in *.
  destruct (answer_links sid c (reply_text r0) (set_links (<[k := l1]> (m_vLinks s0)) s0)) as (K1 & _ & K3). rewrite <- E1 in K1, K3. cbn in K1, K3.
  destruct (IH s1 l1 I1) as (l' & I' & El' & Ef' & Er' & Ep' & Ec' & Ed' & Es' & Ht); [rewrite K1; by apply list_lookup_insert_eq|rewrite Ef1; by injection Hn|]. exists l'. split_and!; try congruence.
  intros i x Ex. rewrite <- Q1 in Ex. destruct (answer_told sid c (reply_text r0) (set_links (<[k := l1]> (m_vLinks s0)) s0) i x Ex) as (x1 & Ex1 & H1). rewrite <- E1 in Ex1. destruct (Ht i x1 Ex1) as (x' & Ex' & H').
  exists x'. split; [done|]. cbn [map fst answers]. rewrite Ef1 in H'. by apply (told_to_trans _ _ x x1 x').
Qed.

Lemma reply_all_replies n k s : reply_all B C n k s = replies k (repeat (Null, None) n) s.
Proof. revert s. induction n as [|n IH]; intros s; [done|]. cbn. apply IH. Qed.

(** When a connection goes, each command on the way gets its answer. *)
Lemma flush_spec d k s l : inv (mkMode None None None d) s -> m_vLinks s !! k = Some l ->
  exists l', let s' := flush B C k s in inv (mkMode None None None d) s' /\ m_vLinks s' !! k = Some l' /\ flight l' = [] /\ vReady l' = vReady l /\ pAsyncContext l' = pAsyncContext l /\ bDialing l' = bDialing l /\
    (forall i x, sessions s !! i = Some x -> exists x', sessions s' !! i = Some x' /\ told_to (map (fun c => (c, down)) (mine i (flight l))) x x').
Proof.
  intros I El. unfold flush. rewrite El, reply_all_replies. destruct (replies_spec d k (repeat (Null, None) (length (flight l))) s l I El) as (l' & I' & El' & Ef' & Er' & _ & Ec' & Ed' & _ & Ht); [apply repeat_length|].
  exists l'. split_and!; try done. intros i x Ex. destruct (Ht i x Ex) as (x' & Ex' & H). exists x'. split; [done|]. rewrite <- answers_down. by rewrite map_repeat in H.
Qed.

(** A run of replies and what is then posted. *)
Definition reply_events (k : nat) (rs : list (redisReply * list bool)) : list (event * list bool) := map (fun e => (Reply k (fst e), snd e)) rs.

Lemma replies_run k rs : forall s l, inv rest_mode s -> m_vLinks s !! k = Some l -> length rs = length (flight l) -> Forall (fun e => fst e <> Null) rs ->
  run B C (reply_events k rs) s = Some (Ok (replies k (map (fun e => (fst e, Some (snd e))) rs) s)).
Proof.
  induction rs as [|[r0 w] rs IH]; intros s l I El Hn Hr; [done|]. destruct (flight l) as [|[sid c] f] eqn:Ef; [done|]. apply Forall_cons in Hr as [Hr0 Hr]. cbn [reply_events map run fst snd replies hear].
  pose proof (lookup_lt_Some _ _ _ El) as Hk. destruct (i_link _ s I k l El) as [_ Hu]. specialize (Hu ltac:(done)).
  assert (may (Reply k r0) s = true) as ->.
  { cbn. unfold link_at. rewrite El. cbn. destruct (pAsyncContext l) eqn:Ec; [|destruct (Hu Ec); congruence]. rewrite (bool_decide_eq_true_2 (flight l <> [])) by (by rewrite Ef). by destruct r0. }
  cbn [do_event]. apply (says_inv _ _ w) in I. destruct (i_link _ _ I k l El) as [Hl _]. destruct (reply_spec k r0 (set_says w s) l _ _ sid c f El Hl Ef) as (l1 & E1 & _ & Ef1 & _).
  apply (IH _ l1); [by apply reply_inv| |rewrite Ef1; by injection Hn|done]. rewrite E1, (proj1 (answer_links _ _ _ _)). cbn. by apply list_lookup_insert_eq.
Qed.

Lemma redis_run_app es fs s t : run B C es s = Some (Ok t) -> run B C (es ++ fs) s = run B C fs t.
Proof.
  revert s. induction es as [|[e w] es IH]; cbn [run app]; intros s H; [by injection H as ->|]. destruct (may e s); [|done]. destruct (do_event B C e (set_says w s)); [by apply IH|done].
Qed.

(** ** What clients send *)

Definition sendable (l : list (list byte)) : Prop := l <> [] /\ Forall small l /\ lenZ l < 10 ^ 18 /\ lenZ (command l) <= B.

Lemma good_scan c q : good c -> exists n, ScanCommand (c ++ q) B = Command (lenZ c) n.
Proof.
  intros [[n H] _]. destruct (scan_command c B (lenZ c) n) as (_ & _ & pre & l & E & Hl & Hall); [lia|done|]. exists n. assert (l = []) as -> by (apply lenZ_0; rewrite E, lenZ_app in Hl; lia).
  rewrite app_nil_r in E. subst. apply Hall.
Qed.

(** There is one way to cut what clients write. *)
Lemma cut_unique cs : forall a b p, Forall sendable cs -> Forall good a -> ScanCommand p B = Incomplete -> concat a ++ b = concat (map command cs) ++ p ->
  exists j, a = take j (map command cs) /\ b = concat (drop j (map command cs)) ++ p.
Proof.
  induction cs as [|c cs IH]; intros a b p Hs Ha Hp E.
  - destruct a as [|d a]; [by exists 0%nat|]. apply Forall_cons in Ha as [Hd _]. cbn in E. rewrite <- app_assoc in E. destruct (good_scan d (concat a ++ b) Hd) as [n Hn]. rewrite E, Hp in Hn. done.
  - destruct a as [|d a]; [by exists 0%nat|]. apply Forall_cons in Ha as [Hd Ha]. apply Forall_cons in Hs as [(S1 & S2 & S3 & S4) Hs]. cbn [concat map] in E. rewrite <- !app_assoc in E.
    destruct (good_scan d (concat a ++ b) Hd) as [n Hn]. rewrite E, (scan_whole c _ B S1 S2 S3 (conj S4 (proj2 HB))) in Hn. injection Hn as Hn _.
    assert (d = command c) as -> by (apply (f_equal (take (length d))) in E; rewrite take_app_length in E; replace (length d) with (length (command c)) in E by (unfold lenZ in Hn; lia); by rewrite take_app_length in E).
    apply app_inv_head in E. destruct (IH a b p Hs Ha Hp E) as (j & -> & ->). by exists (S j).
Qed.

End Limits.
End RedisRuns.
