(* ===== verification/RedisProxy.v ===== *)
(** * What the Redis proxy promises

    The theorems on the runs of RedisServer.v: quotas, the order of answers, pausing and
    being served, what becomes of what a client writes, and lost connections. *)

From Stdlib Require Import Strings.Byte.
From S2P Require Import Prelude Text Resp RedisServer RedisRuns.

Module RedisProxy.
Import Resp RedisServer RedisRuns.

Section Limits.
Context (m_iMaxPendingBytes m_iMaxPendingCommands : Z).
Local Notation B := m_iMaxPendingBytes.
Local Notation C := m_iMaxPendingCommands.

(** The states the process can be in between two events. *)
Definition reached (s : state) : Prop := exists n w es, run B C es (Init n w) = Some (Ok s).

(** What Init checks of the configuration. *)
Context (HB : 64 <= B < 2 ^ 64) (HC : 1 <= C).

Lemma reached_inv s : reached s -> inv B C rest_mode s.
Proof. intros (n & w & es & H). by apply (redis_run_start B C HB HC es n w (Ok s) H). Qed.

(** C36: a run in which at most 2^31 - 1 clients connect, so that neither counter of int32_t
    is added to at its greatest value, does not go wrong, and after any run that did not,
    what every link counts is what it has sent on and has no answer to: iPendingBytes is the
    sum of those commands, within the limit, and they are not more than allowed.  A link
    without connection has none, and its timer is on. *)
Theorem quotas_exact n w es r : run B C es (Init n w) = Some r ->
  (adds es <= INT32_MAX -> exists s, r = Ok s) /\
  forall s, r = Ok s -> forall k l, m_vLinks s !! k = Some l ->
    vPending l = map entry (flight l) /\ 0 <= iPendingBytes l <= B /\ iPendingBytes l = weight (flight l) /\ lenZ (vPending l) <= C /\ bResuming l = false /\
    (pAsyncContext l = false -> flight l = [] /\ bDialing l = true).
Proof.
  intros H. destruct (redis_run_start B C HB HC es n w r H) as [Htot Hinv]. split; [exact Htot|]. intros s E k l El. specialize (Hinv s E). clear r H Htot E. rename Hinv into I.
  destruct (i_link _ _ _ _ I k l El) as [[L1 [L2 L2'] [L3 _] L4 L5 L6] Hu]. pose proof (weight_nonneg (flight l)). split_and!; try done; try lia; [|by apply Hu]. by rewrite L1, map_entry_length.
Qed.

(** C37: each client gets the answers to its own commands, in its order: what it has
    been told, followed by what is on the way for it on its link, is what has been taken
    from its input; no other link carries anything of it.  Nothing of what it has sent is
    lost or taken twice, and no command is passed on that changes the shared connection. *)
Theorem answers_in_order s sid x : reached s -> sessions s !! sid = Some x ->
  recv x = concat (asked x) ++ stInputBuffer x /\ Forall (good B) (asked x) /\
  (closed x = false -> exists l, m_vLinks s !! m_iLink x = Some l /\ map fst (told x) ++ mine sid (flight l) = asked x) /\
  (forall k l, m_vLinks s !! k = Some l -> k <> m_iLink x -> mine sid (flight l) = []).
Proof.
  intros I%reached_inv Ex. destruct (i_sess _ _ _ _ I sid x Ex) as (l & El & [H1 H2 H3 _ _]). split_and!; [done|done|intros Hc; exists l; auto|].
  intros k l' El' Hk. apply mine_none. intros c Hin. destruct (i_flight _ _ _ _ I k l' sid c El' Hin) as [_ H]. by destruct Hk; symmetry; apply H.
Qed.

(** A client that is read from has no whole command lying in its input; one
    that is not read from stands once in the queue of its link, and unless the process is
    stopping the link is about to resume, or waits for an answer. *)
Theorem paused_is_queued s sid x : reached s -> sessions s !! sid = Some x -> closed x = false ->
  reading x = negb (m_bReadPaused x) /\ (m_bReadPaused x = false -> ScanCommand (stInputBuffer x) B = Incomplete) /\
  (m_bReadPaused x = true -> exists l, m_vLinks s !! m_iLink x = Some l /\ sid ∈ vReady l /\ NoDup (vReady l) /\ (stopRequested s = false -> bResumeArmed l = true \/ flight l <> [])).
Proof.
  intros I%reached_inv Ex Hc. destruct (i_sess _ _ _ _ I sid x Ex) as (l & El & [_ _ _ H4 H5]). destruct (H5 eq_refl Hc) as [Hr Hi]. split_and!; [done|done|].
  intros Hp. specialize (H4 Hc Hp). destruct (i_link _ _ _ _ I _ l El) as [[_ _ _ [L4 L4'] _ L6] _]. exists l. split_and!; [done|by apply L4'|done|]. intros Hs. apply L6; [done|done|]. intros E. rewrite E in H4. by apply not_elem_of_empty in H4.
Qed.

(** C38: who waits is served: when the answers to what is on the way on a link have
    come, whatever they are, resuming is posted, and when that has run the first in the
    queue has had a command passed on, or is read from again, or has been closed. *)
Theorem waiting_is_served s k l sid q x rs v : reached s -> stopRequested s = false -> m_vLinks s !! k = Some l -> vReady l = sid :: q -> sessions s !! sid = Some x ->
  length rs = length (flight l) -> Forall (fun e => fst e <> Null) rs ->
  exists s' x', run B C (reply_events k rs ++ [(DoResume k, v)]) s = Some (Ok s') /\ sessions s' !! sid = Some x' /\
    (closed x' = true \/ (length (asked x) < length (asked x'))%nat \/ m_bReadPaused x' = false).
Proof.
  intros I%reached_inv Hs El Er Ex Hn Hr. pose proof (replies_run B C HB HC k rs s l I El Hn Hr) as Erun.
  destruct (replies_spec B C HB HC None k (map (fun e => (fst e, Some (snd e))) rs) s l I El) as (l1 & I1 & El1 & Ef1 & Er1 & Ep1 & _ & _ & Es1 & Ht); [by rewrite length_map|]. set (s1 := replies _ _ _ _ _) in *.
  destruct (Ht sid x Ex) as (x1 & Ex1 & Ea & _). pose proof (says_inv B C _ s1 v I1) as I2. destruct (i_link _ _ _ _ I1 k l1 El1) as [[_ _ _ [_ L4] _ L6] _].
  assert (bResumeArmed l1 = true) as Harm.
  { destruct L6 as [H|H]; [done|congruence| |done|done]. intros E. apply (not_elem_of_empty (C := gset Z) sid). rewrite <- E. apply L4. rewrite Er1, Er. by left. }
  destruct (Resume_spec B C HB HC k (set_says v s1) l1 I2 El1) as (s' & E' & _ & _ & Hserved). specialize (Hserved sid q x1 ltac:(congruence) Ef1 Ex1). unfold served in Hserved.
  destruct (sessions s' !! sid) as [x'|] eqn:Ex'; [|done]. exists s', x'. rewrite (redis_run_app B C _ _ _ _ Erun), <- Ea. cbn [run may]. unfold link_at. rewrite El1. cbn [default from_option id]. rewrite Harm. cbn [do_event]. by rewrite E'.
Qed.

(** C39: of a client that has written whole commands and perhaps a part of one, in
    whatever pieces they came, the commands taken are its commands from the first on; when
    it is read from, all of them were taken, the part is what is left in the input, and
    none of them was one that changes the connection. *)
Theorem client_commands_taken s sid x cs p : reached s -> sessions s !! sid = Some x -> Forall (sendable B) cs -> ScanCommand p B = Incomplete -> recv x = concat (map command cs) ++ p ->
  (exists j, asked x = take j (map command cs)) /\
  (closed x = false -> m_bReadPaused x = false -> asked x = map command cs /\ stInputBuffer x = p /\ Forall (fun c => changes c = false) cs).
Proof.
  intros I%reached_inv Ex Hcs Hp Er. destruct (i_sess _ _ _ _ I sid x Ex) as (l & El & [H1 H2 _ _ H5]). cbn [default here cur rest_mode] in H1. rewrite Er in H1.
  destruct (cut_unique B HB cs (asked x) (stInputBuffer x) p Hcs H2 Hp (eq_sym H1)) as (j & Ea & Eb). split; [by exists j|]. intros Hc Hr. destruct (H5 eq_refl Hc) as [_ Hi]. specialize (Hi Hr).
  assert (drop j (map command cs) = []) as Ed.
  { destruct (drop j (map command cs)) as [|d ds] eqn:E; [done|]. assert (d ∈ map command cs) as (c & -> & Hin)%list_elem_of_fmap by (rewrite <- (take_drop j (map command cs)), E; apply elem_of_app; right; by left).
    rewrite Forall_forall in Hcs. destruct (Hcs c Hin) as (S1 & S2 & S3 & S4). rewrite Eb in Hi. cbn [concat] in Hi. rewrite <- app_assoc, scan_whole in Hi by (try done; lia). done. }
  assert (asked x = map command cs) as Ha by (rewrite <- (take_drop j (map command cs)), Ed, app_nil_r; exact Ea). split_and!; [done|by rewrite Eb, Ed|].
  apply Forall_forall. intros c Hin. destruct (proj1 (Forall_forall _ _) H2 (command c)) as [_ Hg]; [rewrite Ha; by apply list_elem_of_fmap_2|]. destruct (proj1 (Forall_forall _ _) Hcs c Hin) as (S1 & S2 & S3 & _). rewrite changes_seen in Hg by done. congruence.
Qed.

(** C40: when a connection is lost, or was not made, each open client of the link is
    told so for each of its commands on the way, in their order, or is closed; nothing is on
    the way after that, the credit is all back, and the timer to connect again is on. *)
Theorem lost_is_answered s k l e : reached s -> m_vLinks s !! k = Some l -> e = Lost k \/ e = Refused k ->
  exists s' l', do_event B C e s = Ok s' /\ m_vLinks s' !! k = Some l' /\ flight l' = [] /\ vPending l' = [] /\ iPendingBytes l' = 0 /\ pAsyncContext l' = false /\ bDialing l' = true /\
    forall sid x, sessions s !! sid = Some x -> exists x', sessions s' !! sid = Some x' /\ asked x' = asked x /\
      (closed x' = false -> told x' = told x ++ map (fun c => (c, AppendErr (txt "ERR redis down"))) (mine sid (flight l))).
Proof.
  intros I%reached_inv El He.
  assert (exists s' l', do_event B C e s = Ok s' /\ inv B C rest_mode s' /\ m_vLinks s' !! k = Some l' /\ flight l' = [] /\ pAsyncContext l' = false /\ bDialing l' = true /\
    forall i x, sessions s !! i = Some x -> exists x', sessions s' !! i = Some x' /\ told_to (map (fun c => (c, down)) (mine i (flight l))) x x') as (s' & l' & E & I' & El' & Ef & Ec & Ed & Ht).
  { destruct He as [-> | ->]; cbn [do_event].
    - destruct (flush_spec B C HB HC None k s l I El) as (l1 & _ & El1 & Ef1 & _ & _ & _ & Ht). exists (lose k (flush B C k s)), (set_context false true l1). pose proof (lost_inv B C HB HC k s I) as I'. rewrite (lose_link k _ l1 El1) in I' |- *.
      split_and!; try done. cbn. apply list_lookup_insert_eq. by eapply lookup_lt_Some.
    - pose proof (refused_inv B C HB HC k s I) as I'. rewrite (lose_link k s l El) in I'. rewrite (lose_link k s l El). set (s1 := set_links _ s) in *. assert (m_vLinks s1 !! k = Some (set_context false true l)) as El1 by (apply list_lookup_insert_eq; by eapply lookup_lt_Some).
      assert (inv B C (mkMode None None None (Some k)) s1) as I1 by (apply (context_inv B C None (Some k) k s s1 l false true I El); [by left|done..]).
      destruct (flush_spec B C HB HC (Some k) k s1 _ I1 El1) as (l2 & _ & El2 & Ef2 & _ & Ec2 & Ed2 & Ht). by exists (flush B C k s1), l2. }
  exists s', l'. destruct (i_link _ _ _ _ I' k l' El') as [[L1 [L2 _] _ _ _ _] _]. rewrite Ef in L1, L2. split_and!; try done. intros i x Ex. destruct (Ht i x Ex) as (x' & Ex' & Ha & _ & _ & H). exists x'. split_and!; try done.
  intros Hc. destruct H as [H|H]; [congruence|done].
Qed.

End Limits.
(** ** Examples *)

(** A command of 20 bytes; limits of 64 bytes and one command. *)
Definition get : list (list byte) := [txt "GET"; txt "k"].
Definition yes : redisReply := String (txt "v").
(** The first of two commands is on the way, the second waits. *)
Definition demo : list (event * list bool) := [(Add, []); (Data 1 (command get ++ command get ++ txt "*2"), [])].
Definition after (es : list (event * list bool)) : state := match run 64 1 es (Init 1 []) with Some (Ok s) => s | _ => Init 1 [] end.
Definition fine (r : option (result state)) : bool := match r with Some (Ok _) => true | _ => false end.

Lemma after_demo es : fine (run 64 1 es (Init 1 [])) = true -> run 64 1 es (Init 1 []) = Some (Ok (after es)).
Proof. unfold after. destruct (run 64 1 es (Init 1 [])) as [[s|e]|]; done. Qed.

Lemma after_reached es : fine (run 64 1 es (Init 1 [])) = true -> reached 64 1 (after es).
Proof. intros H. exists 1, [], es. by apply after_demo. Qed.

Definition waiting : session := mkSession (command get ++ txt "*2") 0 true false false (command get ++ command get ++ txt "*2") [command get] [].
Definition full : link := mkLink [(1, 20)] {[1]} [1] false 20 false true false [(1, command get)].

Lemma quotas_exact_witness : adds demo <= INT32_MAX /\ (exists s, Ok (after demo) = Ok s) /\ forall s, Ok (after demo) = Ok s -> forall k l, m_vLinks s !! k = Some l ->
  vPending l = map entry (flight l) /\ 0 <= iPendingBytes l <= 64 /\ iPendingBytes l = weight (flight l) /\ lenZ (vPending l) <= 1 /\ bResuming l = false /\ (pAsyncContext l = false -> flight l = [] /\ bDialing l = true).
Proof.
  split; [by vm_compute|]. destruct (quotas_exact 64 1 ltac:(lia) ltac:(lia) 1 [] demo (Ok (after demo))) as [H1 H2]; [apply after_demo; by vm_compute|]. split; [apply H1; by vm_compute|exact H2].
Defined.

Lemma answers_in_order_witness : sessions (after demo) !! 1 = Some waiting /\ recv waiting = concat (asked waiting) ++ stInputBuffer waiting.
Proof.
  assert (sessions (after demo) !! 1 = Some waiting) as E by by vm_compute. split; [exact E|]. apply (answers_in_order 64 1 ltac:(lia) ltac:(lia) (after demo) 1 waiting); [apply after_reached; by vm_compute|exact E].
Defined.

Lemma paused_is_queued_witness : m_bReadPaused waiting = true /\ exists l, m_vLinks (after demo) !! m_iLink waiting = Some l /\ 1 ∈ vReady l /\ NoDup (vReady l) /\ (stopRequested (after demo) = false -> bResumeArmed l = true \/ flight l <> []).
Proof.
  split; [reflexivity|]. apply (paused_is_queued 64 1 ltac:(lia) ltac:(lia) (after demo) 1 waiting); [apply after_reached; by vm_compute|by vm_compute|reflexivity|reflexivity].
Defined.

Lemma waiting_is_served_witness : exists s' x', run 64 1 (reply_events 0 [(yes, [])] ++ [(DoResume 0, [])]) (after demo) = Some (Ok s') /\ sessions s' !! 1 = Some x' /\
  (closed x' = true \/ (1 < length (asked x'))%nat \/ m_bReadPaused x' = false).
Proof.
  apply (waiting_is_served 64 1 ltac:(lia) ltac:(lia) (after demo) 0 full 1 [] waiting [(yes, [])] []).
  1: apply after_reached; by vm_compute.
  1-5: by vm_compute.
  by apply Forall_singleton.
Defined.

(** Both are answered, and the client is read from again. *)
Definition round : list (event * list bool) := reply_events 0 [(yes, [])] ++ [(DoResume 0, [])].
Definition served_both : list (event * list bool) := demo ++ round ++ round.
Definition reading_on : session := mkSession (txt "*2") 0 false false true (command get ++ command get ++ txt "*2") [command get; command get] [(command get, AppendReply yes); (command get, AppendReply yes)].

Lemma get_sendable : sendable 64 get.
Proof. split_and!; [done|by repeat constructor|done|done]. Qed.

Lemma client_commands_taken_witness : asked reading_on = map command [get; get] /\ stInputBuffer reading_on = txt "*2" /\ Forall (fun c => changes c = false) [get; get].
Proof.
  apply (client_commands_taken 64 1 ltac:(lia) ltac:(lia) (after served_both) 1 reading_on [get; get] (txt "*2")); [apply after_reached; by vm_compute|by vm_compute| |by vm_compute..].
  apply Forall_cons; split; [apply get_sendable|apply Forall_singleton, get_sendable].
Defined.

Lemma lost_is_answered_witness : exists s' l', do_event 64 1 (Lost 0) (after demo) = Ok s' /\ m_vLinks s' !! 0%nat = Some l' /\ flight l' = [] /\ vPending l' = [] /\ iPendingBytes l' = 0 /\ pAsyncContext l' = false /\ bDialing l' = true /\
  forall sid x, sessions (after demo) !! sid = Some x -> exists x', sessions s' !! sid = Some x' /\ asked x' = asked x /\
    (closed x' = false -> told x' = told x ++ map (fun c => (c, AppendErr (txt "ERR redis down"))) (mine sid (flight full))).
Proof. apply (lost_is_answered 64 1 ltac:(lia) ltac:(lia) (after demo) 0 full (Lost 0)); [apply after_reached; by vm_compute|by vm_compute|by left]. Defined.

End RedisProxy.
